(* ===== verification/_CoqProject ===== *)
-Q . S2P
Prelude.v
Config.v
TaggedPtr.v
Objects.v
AddressTable.v
IoUring.v
ValueStorage.v
ChunkWrite.v
ChunkAlloc.v
GarbageCollection.v
GcLoop.v
Storage.v
StorageIdle.v
StorageExamples.v
OpLog.v
Reclaim.v
BufferExamples.v
LRUList.v
CacheThread.v
CacheInvariant.v
ReadPath.v
AIO.v
AioInvariant.v
AioSteps.v
AioLeader.v
CacheExamples.v
MTS.v
MtsInvariant.v
MtsOps.v
MtsReads.v
MtsBackground.v
MtsTrace.v
MtsStart.v
MtsExamples.v
MtsThreads.v
NodeBits.v
VersionedLock.v
ListNode.v
ListNodeFacts.v
ListNodeScalar.v
ListNodeScan.v
LinkedList.v
LinkedListInv.v
LinkedListOps.v
SplitFacts.v
LinkedListInsert.v
LinkedListRemove.v
LinkedListScan.v
SearchLayer.v
ArtNode.v
ArtNodeFacts.v
Art.v
ArtTree.v
ArtInvariant.v
ArtLookup.v
ArtInsert.v
ArtNext.v
ArtMap.v
ArtExamples.v
Epoche.v
EpocheFacts.v
ArtLock.v
Pactree.v
PactreeFacts.v
PacQueues.v
PactreeTrace.v
PacThreads.v
GracePeriod.v
PacIndex.v
PacRecovery.v
PacExamples.v
ValueList.v
ValueListFacts.v
Skiplist.v
SkiplistFacts.v
SkiplistInv.v
Tandem.v
TandemFacts.v
TandemMap.v
TandemExamples.v
