(* ===== verification/Prelude.v ===== *)
(** * Verification of Prism

    Prism is a key-value store on persistent memory and flash
    ([src/PRISM]).  This library models its store and the PACTree index it is
    built on, and proves that they implement a map.

    ** The program and how its parts interact

    A key index maps a key to an entry of the address table.  The entry says
    where the value is: in a thread's write buffer on persistent memory, in a
    chunk of a value storage on flash, or in the cache in DRAM.  [insert] and
    [update] append to the write buffer; a reclaim thread moves live values of
    a full buffer to a storage, which collects garbage when chunks run out;
    [lookup] and [scan] answer from the buffer or the cache and otherwise
    request the value from flash; a completer thread hands what was read to
    the cache thread.  The key index is PACTree: a doubly linked list of data
    nodes, a search layer (a radix tree) that leads to a node near a key, and
    background threads that bring splits of data nodes to the search layer.

    ** Files

    - this file: the result monad [res] with the faults the code can run into,
      machine integers, sorting ([std::sort] as an interface), shared lemmas;
    - Config, TaggedPtr, Objects: [mts-config.h], [util.cpp], the entries the
      parts share and the memory that holds them;
    - AddressTable ([AddressTable.cpp]);
    - IoUring (the kernel's I/O interface as a class with its laws),
      ValueStorage ([ValueStorage.cpp]) with the theorems on writing a chunk
      (ChunkWrite), on the ownership of chunks (ChunkAlloc), on garbage
      collection (GarbageCollection, GcLoop) and on the storage as a map
      (Storage, StorageIdle); runs in StorageExamples;
    - OpLog ([OpLog.cpp], [nvlog.c]) and Reclaim; runs in BufferExamples;
    - LRUList, CacheThread, CacheInvariant ([LRUList.cpp], [CacheThread.cpp]);
    - ReadPath ([get_val_ccsync], [complete_pending_ios]) and the combining
      queue of reads AIO, AioInvariant, AioSteps, AioLeader ([AIO.cpp]); runs
      in CacheExamples;
    - MTS ([MTS.cpp], [KeyIndex.h]): the store, over the interface [KeyIndex];
      MtsInvariant, MtsOps, MtsReads, MtsBackground, MtsTrace, MtsStart prove
      that runs of operations and background threads refine a map; runs in
      MtsExamples; MtsThreads (the registration of threads, [MTSThread.h], and
      the spin lock around it, [SpinLock.h]);
    - NodeBits ([bitset.h] and the vector instructions), VersionedLock
      ([VersionedLock.h]), ListNode with ListNodeFacts, ListNodeScalar,
      ListNodeScan ([listNode.cpp]);
    - LinkedList ([linkedList.cpp], and splits and merges of [listNode.cpp])
      with LinkedListInv, LinkedListOps, SplitFacts, LinkedListInsert,
      LinkedListRemove, LinkedListScan;
    - SearchLayer ([SearchLayer.h]) over the interface [ArtTree] and its laws
      [ArtTreeOk];
    - the radix tree behind it, PDL-ART: ArtNode with ArtNodeFacts (the four
      node layouts, [N4.cpp] to [N256.cpp]), Art ([Tree.cpp], [N.cpp],
      [Key.h]), ArtTree (the tree as nodes with paths), ArtInvariant,
      ArtLookup, ArtInsert, ArtNext (its operations) and ArtMap (the tree as a
      map, and as an instance of [ArtTree] with its laws); runs in ArtExamples; Epoche and EpocheFacts
      (the deferred release of the nodes it replaces, [Epoche.cpp]); ArtLock
      (the lock words of its nodes, [N.cpp]);
    - Pactree ([pactree.cpp], [Oplog.cpp], [Combiner.h], [WorkerThread.cpp])
      with PactreeFacts, PactreeTrace, PacRecovery; PacQueues (the vectors
      that combiner and workers share), PacThreads (how they stop) and
      GracePeriod (how the combiner waits for running operations); PacIndex
      ([PACTREEIndex] of [KeyIndex.h]) compares PACTree with the index the
      store is proved against and puts PACTree and PDL-ART together; runs in
      PacExamples;
    - the TandemIndex prototype ([src/Prototype]), an index of its own:
      ValueList with ValueListFacts ([valuelist.cpp]), Skiplist with
      SkiplistFacts and SkiplistInv ([dramSkiplist.cpp]), Tandem with
      TandemFacts and TandemMap ([tandemIndex.cpp]); runs in TandemExamples.

    ** How the code is modelled

    State is passed explicitly: records with the code's fields, memory as
    finite maps from addresses to entries.  An operation returns [res]: a
    value, or the fault the code runs into (null dereference, index out of
    range, failed assertion, [exit], undefined behaviour, use of an
    uninitialised variable).  Where the code waits for another thread or
    starts over, the operation returns nothing and the caller tries again
    later.  Integers are [Z]; the width is applied where the code can leave
    it ([to_u], [to_s]).  The threads of the store interleave at the grain of
    one operation or one background step (MtsTrace, PactreeTrace); the
    locks, the combining queue, the epochs and the grace period are modelled
    at the grain of single accesses, which take effect in one order for all
    threads.

    Loops that the code bounds by data are structural recursions on that data;
    the others take fuel.  [reclaim_loop] and [gc_victims] are bounded by the
    entries of a log and the chunks of a storage, the walks along the list of
    data nodes by the number of nodes, the binary search by [MAX_ENTRIES], the
    descents of the radix tree by the eight bytes of a key, the walks of the
    prototype by the sizes of its pools; the theorems show that the fuel is
    enough: they state results, not only what holds if there is one.

    Code outside of the repository is a class with the documented behaviour as
    laws: [IoUring], [StdSort], allocation ([PMem], [ArtMem], [CacheEnv]).  Each class
    has an instance, used by the runs in the Examples files.  Between parts of
    the program, [KeyIndex] with [KeyIndexOk] is what the store asks of its
    index and [ArtTree] with [ArtTreeOk] what PACTree asks of its radix tree,
    whose operations can fault, read the keys of data nodes through a function
    that PACTree gives them, and are total for [art_cap] insertions.

    Some conditions under which the theorems hold are the code's, not the
    model's.  The store is proved for an index that starts empty, and its
    constructor for zeroed buffers of garbage collection, while the code takes
    these from [posix_memalign].  PACTree holds the key 0 from the start, so
    the store's scan from key 0 finds a null entry there; its theorems on
    running traces leave the keys 0 and [ULLONG_MAX] and the removal of keys
    out (a removal that merges nodes leaves a node behind in the search layer,
    [merged_node_blocks]).  A worker applies only log entries with its hash,
    0, which nothing sets: that they reach the search layer is proved for
    entries allocated zeroed.  [numThreads] of PACTree is not initialised and
    is an argument of [create].  The context of a call of PACTree
    ([log_context]) is its thread, the core that runs it and the log counters
    of the threads; splits wrap the counter, merges do not, and the slot it gives is not checked against
    the size of the log area, here as in the code.

    ** What is proved

    - the store refines a map: every operation ([insert_refines],
      [update_refines], [lookup_correct], [scan_correct]), every background
      step, and every run of them ([run_correct]), from the state the
      constructor builds ([create_correct]);
    - its parts keep their contracts: address table, storage, garbage
      collection, write buffer, cache;
    - the combining queue loses, repeats and reorders no request, has one
      leader at a time, and its callers neither fault nor all wait;
    - PACTree refines a map ([pactree_refines_map]), also with PDL-ART as its
      radix tree ([pactree_over_art]), and answers the calls the store makes
      in its runs as the index the store is proved against, for keys other
      than 0 and without removals ([pactree_serves_store]); splits reach the
      search layer and are found there ([splits_reach_search]), also when the
      threads stop ([shutdown_correct]); the
      combiner deletes no vector that a worker still reads, and its grace
      period outlasts the operations that were running
      ([grace_period_correct]); the vectorised searches equal the portable
      ones; the version lock excludes writers, and what a reader loaded before
      it confirmed its version is one snapshot ([optimistic_read]);
    - the radix tree refines a map from keys to pointers: any run of
      insertions, lookups and nearest-key lookups ([art_run_correct]), the
      last on a tree that is not empty; no
      replaced node is freed while a thread is inside that could have reached
      it ([no_early_free]), and the lock of a node is granted to one thread at
      a time, over restarts too ([art_lock_correct]);
    - the prototype refines a map as long as its rebalancing does not walk off
      the value list, with the exact condition for that
      ([tandem_insert_correct], [tandem_run_correct]);
    - errors: runs in which the code faults or returns a wrong value are
      theorems too, each under the smallest hypotheses that lead to it.

    ** Not modelled

    Persistence barriers (cache-line flushes and fences) and crashes between
    them; statistics and tracing; thread creation and pinning; the destructor
    of the store beyond its wait for the threads; start-up of PACTree from an
    existing pool beyond the recovery of its list; string keys and the SYNC
    variants of PACTree.  In the model of the radix tree a tree has one
    writer, so its lock words are a model of their own, and replaced nodes
    stay in the heap; the removal of children, which [Tree::remove], compiled
    out, does not call, is left out.  Nor are modelled the parts
    of [lib/TSOpLog] the store does not call; the indexes it is compared with
    ([src/masstree], [src/BwTree]); the memory behind the prototype's pools;
    benchmark drivers and scripts. *)

From Stdlib Require Export ZArith Lia.
From stdpp Require Export sorting.
From stdpp Require Export base tactics numbers list gmap.

#[global] Set Default Goal Selector "!".

(** Rewrite rules for tagged pointers, for loads after stores, and for the
    arithmetic of offsets; filled by the components that state them. *)
Create Rewrite HintDb tagged.
Create Rewrite HintDb mem.
Create HintDb prism.

(** * Results: what a C++ call can do *)

(** How a run of the modelled code can stop without returning. *)
Inductive fault :=
  | ExitFailure      (** [exit(EXIT_FAILURE)] *)
  | AssertFailure    (** a failed [assert] *)
  | NullDeref        (** access through a null pointer *)
  | BadAddress       (** access through a pointer to no live object *)
  | OutOfRange       (** [std::out_of_range] or an access past an array's end *)
  | Uninitialised    (** use of an object no constructor or store initialised *)
  | Undefined        (** behaviour the language leaves undefined, such as a shift by the width *)
  | NoReturn.        (** control reaches the end of a value-returning function, or a
                         loop goes on past the bound its definition is given *)

#[export] Instance fault_eq_dec : EqDecision fault.
Proof. solve_decision. Defined.

Inductive res (A : Type) :=
  | Ok (a : A)
  | Err (f : fault).
Arguments Ok {_} _.
Arguments Err {_} _.

#[export] Instance res_ret : MRet res := fun A a => Ok a.
#[export] Instance res_bind : MBind res := fun A B k m =>
  match m with
  | Ok a => k a
  | Err f => Err f
  end.
#[export] Instance res_fmap : FMap res := fun A B g m =>
  match m with
  | Ok a => Ok (g a)
  | Err f => Err f
  end.

Definition of_option {A} (f : fault) (o : option A) : res A :=
  match o with
  | Some a => Ok a
  | None => Err f
  end.

(** [assert(b)]. *)
Definition assert_ (b : bool) : res unit :=
  if b then Ok tt else Err AssertFailure.

Lemma bind_ok {A B} (m : res A) (k : A -> res B) (b : B) :
  (m ≫= k) = Ok b <-> exists a, m = Ok a /\ k a = Ok b.
Proof.
  destruct m as [a|f]; cbn; split.
  - intros H. by exists a.
  - intros (a' & Ha & H). by injection Ha as ->.
  - done.
  - by intros (a' & Ha & _).
Qed.

Lemma of_option_ok {A} f (o : option A) (a : A) :
  of_option f o = Ok a <-> o = Some a.
Proof. destruct o; naive_solver. Qed.

Lemma assert_ok b u : assert_ b = Ok u <-> b = true.
Proof. destruct b, u; naive_solver. Qed.

(** [inv_res] takes a hypothesis [m = Ok b] apart along the binds of [m]. *)
Ltac inv_res :=
  repeat match goal with
  | H : Ok _ = Ok _ |- _ => injection H as H; subst
  | H : Err _ = Ok _ |- _ => discriminate H
  | H : Ok _ = Err _ |- _ => discriminate H
  | H : mret _ = Ok _ |- _ => unfold mret, res_ret in H
  | H : (_ ≫= _) = Ok _ |- _ =>
      apply bind_ok in H; destruct H as (? & ? & H); cbn beta iota in H
  | H : of_option _ _ = Ok _ |- _ => apply of_option_ok in H
  | H : assert_ _ = Ok _ |- _ => apply assert_ok in H
  | H : (_, _) = (_, _) |- _ => injection H as ? ?; subst
  | x : (_ * _)%type |- _ => destruct x
  end.

(** * Machine integers *)

Local Open Scope Z_scope.

(** The value an [unsigned] of [w] bits keeps of [z]. *)
Definition to_u (w z : Z) : Z := z mod 2 ^ w.

(** The value a two's complement integer of [w] bits keeps of [z]. *)
Definition to_s (w z : Z) : Z :=
  let u := z mod 2 ^ w in if u <? 2 ^ (w - 1) then u else u - 2 ^ w.

Abbreviation to_u64 := (to_u 64).
Abbreviation to_u32 := (to_u 32).
Abbreviation to_u16 := (to_u 16).
Abbreviation to_u8 := (to_u 8).
Abbreviation to_i64 := (to_s 64).
Abbreviation to_i32 := (to_s 32).

Lemma to_u_id w z : 0 <= z < 2 ^ w -> to_u w z = z.
Proof. intros. unfold to_u. by rewrite Z.mod_small. Qed.

Lemma to_u_range w z : 0 <= w -> 0 <= to_u w z < 2 ^ w.
Proof. intros. unfold to_u. apply Z.mod_pos_bound. lia. Qed.

Lemma to_s_id w z : 0 < w -> - 2 ^ (w - 1) <= z < 2 ^ (w - 1) -> to_s w z = z.
Proof.
  intros Hw Hz. unfold to_s.
  assert (2 ^ w = 2 * 2 ^ (w - 1)) as E.
  { rewrite <- Z.pow_succ_r by lia. f_equal. lia. }
  destruct (decide (0 <= z)).
  - rewrite Z.mod_small by lia. destruct (Z.ltb_spec z (2 ^ (w - 1))); lia.
  - rewrite <- (Z.mod_add z 1 (2 ^ w)) by lia.
    rewrite Z.mod_small by lia.
    destruct (Z.ltb_spec (z + 1 * 2 ^ w) (2 ^ (w - 1))); lia.
Qed.

Lemma to_s_range w z : 0 < w -> - 2 ^ (w - 1) <= to_s w z < 2 ^ (w - 1).
Proof.
  intros Hw. unfold to_s.
  assert (2 ^ w = 2 * 2 ^ (w - 1)) as E.
  { rewrite <- Z.pow_succ_r by lia. f_equal. lia. }
  pose proof (Z.mod_pos_bound z (2 ^ w) ltac:(lia)).
  destruct (Z.ltb_spec (z mod 2 ^ w) (2 ^ (w - 1))); lia.
Qed.

Local Close Scope Z_scope.

(** * Sorting by a key

    [std::sort] with a comparator on a key is a class: any function that
    returns a sorted rearrangement, with no promise about the order of
    elements with equal keys.  [sort_by] below is one such function;
    [sort_by_unique] says that on elements which the key tells apart every
    one of them returns the same list. *)

Section sort_by.
Context {A : Type} (key : A -> Z).

Fixpoint sort_insert (x : A) (l : list A) : list A :=
  match l with
  | [] => [x]
  | y :: l' => if bool_decide (key x <= key y)%Z then x :: l else y :: sort_insert x l'
  end.

Definition sort_by (l : list A) : list A := foldr sort_insert [] l.

Definition key_le (x y : A) : Prop := (key x <= key y)%Z.

Lemma sort_insert_perm x l : sort_insert x l ≡ₚ x :: l.
Proof.
  induction l as [|y l IH]; simpl; [done|].
  case_bool_decide; [done|]. rewrite IH. apply Permutation_swap.
Qed.

Lemma sort_by_perm l : sort_by l ≡ₚ l.
Proof.
  induction l as [|x l IH]; simpl; [done|].
  by rewrite sort_insert_perm, IH.
Qed.

Lemma sort_by_length l : length (sort_by l) = length l.
Proof. by rewrite sort_by_perm. Qed.

Lemma sort_insert_sorted x l :
  StronglySorted key_le l -> StronglySorted key_le (sort_insert x l).
Proof.
  induction 1 as [|y l Hl IH Hy]; simpl; [by repeat constructor|].
  case_bool_decide as Hxy.
  - constructor; [by constructor|]. constructor; [done|].
    eapply Forall_impl; [exact Hy|]. unfold key_le. intros; lia.
  - constructor; [done|]. rewrite sort_insert_perm.
    constructor; [unfold key_le; lia|done].
Qed.

Lemma sort_by_sorted l : StronglySorted key_le (sort_by l).
Proof. induction l; simpl; [constructor|]. by apply sort_insert_sorted. Qed.

(** Two sorted rearrangements of the same elements are the same list when
    the key separates the elements. *)
Lemma sorted_perm_eq l l' :
  (forall x y, x ∈ l -> y ∈ l -> key x = key y -> x = y) ->
  StronglySorted key_le l -> StronglySorted key_le l' -> l ≡ₚ l' -> l = l'.
Proof.
  intros Hinj Hs. revert l' Hinj. induction Hs as [|x l Hs IH Hx]; intros l' Hinj Hs' Hp.
  - by apply Permutation_nil_l.
  - inversion Hs' as [|y l'' Hs'' Hy]; subst.
    { by apply Permutation_nil_r in Hp. }
    assert (x = y) as ->.
    { assert (y ∈ x :: l) as Hin1 by (rewrite Hp; left).
      assert (x ∈ y :: l'') as Hin2 by (rewrite <- Hp; left).
      apply elem_of_cons in Hin1 as [->|Hin1]; [done|].
      apply elem_of_cons in Hin2 as [->|Hin2]; [done|].
      apply Hinj; [left|by right|].
      rewrite Forall_forall in Hx, Hy.
      specialize (Hx _ Hin1). specialize (Hy _ Hin2). unfold key_le in *. lia. }
    f_equal. apply IH; [|done|by eapply Permutation.Permutation_cons_inv].
    intros a b Ha Hb. apply Hinj; by right.
Qed.

Lemma sort_by_unique l l' :
  (forall x y, x ∈ l -> y ∈ l -> key x = key y -> x = y) ->
  StronglySorted key_le l' -> l' ≡ₚ l -> l' = sort_by l.
Proof.
  intros Hinj Hs Hp. symmetry. apply sorted_perm_eq; [|apply sort_by_sorted|done|].
  - intros x y. rewrite sort_by_perm. apply Hinj.
  - by rewrite sort_by_perm.
Qed.

Lemma sort_insert_le x l :
  Forall (key_le x) l -> sort_insert x l = x :: l.
Proof.
  destruct l as [|y l]; [done|]. intros H%Forall_cons. simpl.
  rewrite bool_decide_true; [done|]. apply H.
Qed.

Lemma sort_by_of_sorted l : StronglySorted key_le l -> sort_by l = l.
Proof.
  induction 1 as [|x l Hl IH Hx]; simpl; [done|].
  by rewrite IH, sort_insert_le.
Qed.

End sort_by.

Lemma sorted_filter {A} (R : A -> A -> Prop) (P : A -> Prop) `{forall x, Decision (P x)} l :
  StronglySorted R l -> StronglySorted R (filter P l).
Proof.
  induction 1 as [|x l Hl IH Hx]; [constructor|]. rewrite filter_cons. case_decide; [|done]. constructor; [done|].
  rewrite Forall_forall in Hx |- *. intros y [_ Hy]%list_elem_of_filter. by apply Hx.
Qed.

(** Sorting commutes with a map that keeps the keys. *)
Lemma sort_by_fmap {A B} (f : A -> B) (kA : A -> Z) (kB : B -> Z) l :
  (forall x, kB (f x) = kA x) -> sort_by kB (f <$> l) = f <$> sort_by kA l.
Proof.
  intros Hk. induction l as [|x l IH]; [done|]. cbn. unfold sort_by in IH.
  rewrite IH. generalize (foldr (sort_insert kA) [] l). clear IH. intros s.
  induction s as [|y s IHs]; simpl; [done|].
  rewrite !Hk. case_bool_decide; simpl; [done|]. by f_equal.
Qed.

(** A list with every element doubled, as the garbage collector's list of
    moves is: one insertion and one removal per moved entry. *)
Fixpoint twice {A} (l : list A) : list A :=
  match l with
  | [] => []
  | x :: l' => x :: x :: twice l'
  end.

Lemma sort_insert_twice {A} (k : A -> Z) x l :
  sort_insert k x (sort_insert k x (twice l)) = twice (sort_insert k x l).
Proof.
  induction l as [|y l IH]; simpl.
  { by rewrite bool_decide_true by lia. }
  case_bool_decide as H; simpl.
  - by rewrite bool_decide_true by lia.
  - repeat (rewrite (bool_decide_false _ H); simpl). by rewrite IH.
Qed.

Lemma sort_by_twice {A} (k : A -> Z) l : sort_by k (twice l) = twice (sort_by k l).
Proof.
  induction l as [|x l IH]; [done|]. unfold sort_by in *. simpl.
  rewrite IH. apply sort_insert_twice.
Qed.

Lemma twice_length {A} (l : list A) : length (twice l) = (2 * length l)%nat.
Proof. induction l as [|x l IH]; simpl; [done|]. rewrite IH. lia. Qed.

Lemma lookup_twice {A} (l : list A) i :
  twice l !! i = l !! (i / 2)%nat.
Proof.
  revert i. induction l as [|x l IH]; intros i; [done|].
  destruct i as [|[|i]]; [done|done|].
  assert (S (S i) / 2 = S (i / 2))%nat as ->.
  { replace (S (S i)) with (1 * 2 + i)%nat by lia. rewrite Nat.div_add_l; lia. }
  apply IH.
Qed.

Class StdSort := {
  std_sort : forall {A : Type}, (A -> Z) -> list A -> list A;
  std_sort_perm : forall {A} (key : A -> Z) (l : list A), std_sort key l ≡ₚ l;
  std_sort_sorted : forall {A} (key : A -> Z) (l : list A),
    StronglySorted (key_le key) (std_sort key l);
}.

#[export] Instance stable_sort : StdSort := {|
  std_sort := fun A key l => sort_by key l;
  std_sort_perm := fun A key l => sort_by_perm key l;
  std_sort_sorted := fun A key l => sort_by_sorted key l;
|}.

Section std_sort.
Context `{StdSort}.

Lemma std_sort_eq {A} (key : A -> Z) (l : list A) :
  (forall x y, x ∈ l -> y ∈ l -> key x = key y -> x = y) -> std_sort key l = sort_by key l.
Proof.
  intros Hinj. apply sort_by_unique; [done|apply std_sort_sorted|apply std_sort_perm].
Qed.

Lemma std_sort_length {A} (key : A -> Z) (l : list A) : length (std_sort key l) = length l.
Proof. by rewrite std_sort_perm. Qed.
End std_sort.

(** Distinct keys separate elements. *)
Lemma nodup_key_inj {A} (key : A -> Z) (l : list A) : NoDup (key <$> l) ->
  forall x y, x ∈ l -> y ∈ l -> key x = key y -> x = y.
Proof.
  intros Hd x y Hx Hy E. apply list_elem_of_lookup in Hx as [i Hi], Hy as [j Hj].
  assert (i = j) as ->; [|congruence].
  eapply NoDup_lookup; [exact Hd| |]; rewrite list_lookup_fmap.
  - by rewrite Hi.
  - rewrite Hj. simpl. by rewrite E.
Qed.

(** * Lists *)

Lemma filter_ext_in {A} (P Q : A -> Prop) `{forall x, Decision (P x)} `{forall x, Decision (Q x)}
    (l : list A) : (forall x, x ∈ l -> P x <-> Q x) -> filter P l = filter Q l.
Proof.
  intros Hpq. induction l as [|x l IH]; [done|].
  assert (filter P l = filter Q l) as E by (apply IH; intros y Hy; apply Hpq; by right).
  destruct (decide (P x)) as [HP|HP].
  - rewrite !filter_cons_True; [by rewrite E| |done]. apply Hpq; [left|done].
  - rewrite !filter_cons_False; [done| |done]. intros HQ. apply HP, Hpq; [left|done].
Qed.

Lemma filter_fmap {A B} (f : A -> B) (P : B -> Prop) `{forall x, Decision (P x)} (l : list A) :
  filter P (f <$> l) = f <$> filter (fun x => P (f x)) l.
Proof.
  induction l as [|x l IH]; [done|]. cbn [fmap list_fmap].
  destruct (decide (P (f x))).
  - rewrite !filter_cons_True by done. cbn. by rewrite <- IH.
  - rewrite !filter_cons_False by done. exact IH.
Qed.

Lemma NoDup_fmap_snoc {A B} (f : A -> B) (l : list A) x :
  NoDup (f <$> l) -> f x ∉ f <$> l -> NoDup (f <$> (l ++ [x])).
Proof.
  intros Hnd Hni. rewrite fmap_app, NoDup_app. split; [done|]. split; [|apply NoDup_singleton].
  intros k Hin Hk. apply list_elem_of_singleton in Hk. cbn in Hk. congruence.
Qed.

(** Pigeonhole: distinct elements drawn from another list are no more. *)
Lemma nodup_subset_length {A} `{EqDecision A} (l k : list A) :
  NoDup l -> (forall x, x ∈ l -> x ∈ k) -> (length l <= length k)%nat.
Proof. intros Hnd Hs. apply submseteq_length, NoDup_submseteq; [done|exact Hs]. Qed.

(** A map whose keys are in a list has no more entries than the list. *)
Lemma map_size_keys {A} (m : gmap Z A) (l : list Z) :
  (forall k, is_Some (m !! k) -> k ∈ l) -> (size m <= length l)%nat.
Proof.
  intros Hk. rewrite <- length_map_to_list, <- (length_fmap fst).
  apply nodup_subset_length; [apply NoDup_fst_map_to_list|].
  intros k Hin. apply list_elem_of_fmap in Hin as ([k' v] & -> & Hin). apply Hk.
  apply elem_of_map_to_list in Hin. cbn. eauto.
Qed.

(** A filter that keeps nothing. *)
Lemma filter_none {A} (P : A -> Prop) `{forall x, Decision (P x)} l :
  (forall x, x ∈ l -> ~ P x) -> filter P l = [].
Proof.
  induction l as [|x l IH]; intros Hl; [done|]. rewrite filter_cons_False by (apply Hl; left).
  apply IH. intros y Hy. apply Hl. by right.
Qed.
