(* ===== verification/Config.v ===== *)
(** Compile-time parameters of Prism ([src/PRISM/include/mts-config.h]).

    The macros the modelled code reads are the fields of a class, so that the
    definitions are written once and evaluated both at the shipped values
    ([prism_config]) and at small ones ([tiny_config]).  The macros computed
    from other macros are definitions over those fields, as in the header.
    [WfConfig] states what the code relies on; both instances satisfy it. *)

From S2P Require Import Prelude.

Local Open Scope Z_scope.

Class Config := {
  MTS_THREAD_NUM : nat;
  KV_SIZE : Z;
  MTS_AT_SIZE : Z;
  MTS_OPLOG_SIZE : Z;
  MTS_VS_NUM : nat;
  MTS_VS_SIZE : Z;
  MTS_VS_CHUNK_SIZE : Z;
  W_QD : nat;
  R_QD : nat;
  GC_QD : nat;
  MTS_DRAMCACHE_SIZE : Z;
  MTS_DRAMCACHE_RATIO : Z;
  MTS_RECLAIM_PAGES_NUM : nat;
}.

Section derived.
Context `{Config}.

(** [sizeof(vs_entry_t)], [sizeof(at_entry_t)] and [sizeof(dc_entry_t)] on
    x86-64: the value-storage entry is padded to [KV_SIZE]; an address-table
    entry is two [int]s and a pointer; a cache entry is five pointers, an
    [unsigned int] (padded) and a key-value item. *)
Definition sizeof_vs_entry : Z := KV_SIZE.
Definition sizeof_at_entry : Z := 16.
Definition sizeof_dc_entry : Z := 5 * 8 + 8 + KV_SIZE.

Definition MTS_AT_ENTRY_NUM : Z := MTS_AT_SIZE / sizeof_at_entry.

Definition MTS_OPLOG_HIGH_MARK : Z := MTS_OPLOG_SIZE.
Definition MTS_OPLOG_LOW_MARK : Z := 0.

Definition MTS_VS_ENTRIES_PER_CHUNK : nat :=
  Z.to_nat (MTS_VS_CHUNK_SIZE / sizeof_vs_entry).
Definition MTS_VS_CHUNK_NUM : Z := MTS_VS_SIZE / MTS_VS_CHUNK_SIZE.
Definition MTS_VS_HIGH_MARK : Z := MTS_VS_CHUNK_NUM * 75 / 100.
Definition MTS_VS_LOW_MARK : Z := MTS_VS_CHUNK_NUM * 65 / 100.

Definition MTS_ACTIVE_LIST_SIZE : Z := MTS_DRAMCACHE_SIZE / MTS_DRAMCACHE_RATIO.
Definition MTS_INACTIVE_LIST_SIZE : Z := MTS_DRAMCACHE_SIZE - MTS_ACTIVE_LIST_SIZE.

(** Where a value lives ([enum] of mts-config.h). *)
Definition PRE_VALUESTORAGE_VAL : Z := -2.
Definition NEWLY_UPDATED_VAL : Z := -1.
Definition CLEAN_ENTRY : Z := 0.
Definition DCACHE_VAL : Z := 1.
Definition OPLOG_VAL : Z := 2.
Definition VALUESTORAGE_VAL : Z := 3.

(** LRU list kinds. *)
Definition NONE_LIST : Z := 0.
Definition ACTIVE_LIST : Z := 1.
Definition INACTIVE_LIST : Z := 2.

(** Cache-queue operations: [bool ops] holds [CT_LOOKUP] = 0 or [CT_SCAN] = 1. *)
Definition CT_LOOKUP : bool := false.
Definition CT_SCAN : bool := true.
End derived.

(** What the code relies on. *)
Class WfConfig (C : Config) : Prop := {
  wf_entries : (0 < MTS_VS_ENTRIES_PER_CHUNK)%nat;
  wf_chunk_size : MTS_VS_CHUNK_SIZE = Z.of_nat MTS_VS_ENTRIES_PER_CHUNK * KV_SIZE;
  wf_kv : 0 < KV_SIZE < 2 ^ 31;
  wf_chunk_num : 0 < MTS_VS_CHUNK_NUM;
  (** every entry of a value storage has an offset that fits an [int] *)
  wf_offset_int : MTS_VS_CHUNK_NUM * Z.of_nat MTS_VS_ENTRIES_PER_CHUNK <= 2 ^ 31;
  (** the write and garbage-collection rings cut a chunk into whole entries *)
  wf_w_qd : exists k, W_QD = (2 ^ k)%nat;
  wf_gc_qd : exists k, GC_QD = (2 ^ k)%nat;
  wf_r_qd : exists k, R_QD = (2 ^ k)%nat;
  wf_w_split : (exists n, MTS_VS_ENTRIES_PER_CHUNK = n * W_QD)%nat;
  wf_gc_split : (exists n, MTS_VS_ENTRIES_PER_CHUNK = n * GC_QD)%nat;
  (** the write buffer is a power of two bytes and holds whole entries *)
  wf_oplog : exists k, 0 <= k < 63 /\ MTS_OPLOG_SIZE = 2 ^ k /\
    exists j, 6 <= j <= k /\ KV_SIZE = 2 ^ j;
  wf_at_num : 0 < MTS_AT_ENTRY_NUM < 2 ^ 31;
}.

Section sizes.
Context `{WfConfig}.

Lemma wf_kv_pos : 0 < KV_SIZE.
Proof. apply wf_kv. Qed.

Lemma wf_w_qd_pos : (0 < W_QD)%nat.
Proof. destruct wf_w_qd as [k ->]. clear. induction k; simpl; lia. Qed.

Lemma wf_gc_qd_pos : (0 < GC_QD)%nat.
Proof. destruct wf_gc_qd as [k ->]. clear. induction k; simpl; lia. Qed.
End sizes.

(** The values of mts-config.h. *)
#[export] Instance prism_config : Config := {|
  MTS_THREAD_NUM := 8;
  KV_SIZE := 1024;
  MTS_AT_SIZE := 1024 * 1024 * 1024 * 1 * 8 / 8;
  MTS_OPLOG_SIZE := 16 * 1024 * 1024 * 1024 / 8 / 2;
  MTS_VS_NUM := 1;
  MTS_VS_SIZE := 1 * 128 * 1024 * 1024 * 1024 / 1;
  MTS_VS_CHUNK_SIZE := 128 * 1024;
  W_QD := 4;
  R_QD := 64;
  GC_QD := 8;
  MTS_DRAMCACHE_SIZE := 20 * 1024 * 1024 * 1024;
  MTS_DRAMCACHE_RATIO := 16;
  MTS_RECLAIM_PAGES_NUM := 512;
|}.

(** Four entries per chunk, eight chunks, a four-entry write buffer. *)
Definition tiny_config : Config := {|
  MTS_THREAD_NUM := 2;
  KV_SIZE := 64;
  MTS_AT_SIZE := 64;
  MTS_OPLOG_SIZE := 256;
  MTS_VS_NUM := 1;
  MTS_VS_SIZE := 2048;
  MTS_VS_CHUNK_SIZE := 256;
  W_QD := 2;
  R_QD := 4;
  GC_QD := 4;
  MTS_DRAMCACHE_SIZE := 1792;
  MTS_DRAMCACHE_RATIO := 4;
  MTS_RECLAIM_PAGES_NUM := 2;
|}.

#[export] Instance prism_config_wf : WfConfig prism_config.
Proof.
  split; try (by vm_compute); try (vm_compute; lia).
  - by exists 2%nat.
  - by exists 3%nat.
  - by exists 6%nat.
  - by exists 32%nat.
  - by exists 16%nat.
  - exists 30. split; [lia|]. split; [by vm_compute|]. exists 10. split; [lia|by vm_compute].
Qed.

Lemma tiny_config_wf : WfConfig tiny_config.
Proof.
  split; try (by vm_compute); try (vm_compute; lia).
  - by exists 1%nat.
  - by exists 2%nat.
  - by exists 2%nat.
  - by exists 2%nat.
  - by exists 1%nat.
  - exists 8. split; [lia|]. split; [by vm_compute|]. exists 6. split; [lia|by vm_compute].
Qed.
