(* ===== verification/TaggedPtr.v ===== *)
(** Tagged pointers ([src/PRISM/src/util.cpp]).

    An address-table entry keeps in one 64-bit word the address of the value
    and, in the top byte, where that address points (write buffer, DRAM
    cache, nowhere).  The functions are those of util.cpp on two's complement
    64-bit words; user-space addresses lie below [2^47]. *)

From S2P Require Import Prelude Config.

Local Open Scope Z_scope.

(** [intptr_t p = (entry << 16) >> 16], the right shift being arithmetic. *)
Definition get_untagged_ptr (entry : Z) : Z :=
  Z.shiftr (to_i64 (Z.shiftl entry 16)) 16.

Definition put_tagged_ptr (entry tag : Z) : Z :=
  let mask := Z.lnot (Z.shiftl 1 48) in
  let untagged_entry := get_untagged_ptr entry in
  to_i64 (Z.lor (Z.land untagged_entry mask) (Z.shiftl tag 56)).

Definition get_tag (entry : Z) : Z := to_i32 (Z.shiftr entry 56).

(** Addresses a user-space process can hold. *)
Definition user_addr (p : Z) : Prop := 0 <= p < 2 ^ 47.

#[export] Instance user_addr_dec p : Decision (user_addr p).
Proof. unfold user_addr. apply _. Defined.

Lemma land_clear_high p n : 0 <= n -> 0 <= p < 2 ^ n -> Z.land p (Z.lnot (Z.shiftl 1 n)) = p.
Proof.
  intros Hn Hp. apply Z.bits_inj'. intros i Hi.
  rewrite Z.land_spec, Z.lnot_spec by lia. rewrite Z.shiftl_1_l.
  rewrite Z.pow2_bits_eqb by lia.
  destruct (Z.eqb_spec n i) as [<-|]; simpl; [|by rewrite andb_true_r].
  rewrite andb_false_r. destruct (decide (p = 0)) as [->|]; [by rewrite Z.bits_0|].
  rewrite Z.bits_above_log2; [done|lia|]. apply Z.log2_lt_pow2; lia.
Qed.

Lemma lor_disjoint p t n : 0 <= n -> 0 <= p < 2 ^ n -> Z.lor p (Z.shiftl t n) = p + t * 2 ^ n.
Proof.
  intros Hn Hp. rewrite <- Z.shiftl_mul_pow2 by lia.
  assert (Z.land p (Z.shiftl t n) = 0) as Hd.
  { apply Z.bits_inj'. intros i Hi. rewrite Z.land_spec, Z.bits_0.
    destruct (decide (i < n)).
    - by rewrite Z.shiftl_spec_low, andb_false_r by lia.
    - destruct (decide (p = 0)) as [->|]; [by rewrite Z.bits_0|].
      rewrite Z.bits_above_log2; [done|lia|].
      apply Z.lt_le_trans with n; [apply Z.log2_lt_pow2; lia|lia]. }
  rewrite Z.add_nocarry_lxor by done. by rewrite Z.lxor_lor.
Qed.

Lemma get_untagged_shape p t : user_addr p -> get_untagged_ptr (p + t * 2 ^ 56) = p.
Proof.
  unfold user_addr. intros Hp. unfold get_untagged_ptr, to_s.
  rewrite Z.shiftl_mul_pow2 by lia.
  replace ((p + t * 2 ^ 56) * 2 ^ 16) with (p * 2 ^ 16 + (t * 2 ^ 8) * 2 ^ 64) by lia.
  rewrite Z.mod_add by lia. rewrite Z.mod_small by lia.
  destruct (Z.ltb_spec (p * 2 ^ 16) (2 ^ (64 - 1))) as [_|Hge]; [|lia].
  by rewrite Z.shiftr_div_pow2, Z.div_mul by lia.
Qed.

Lemma get_untagged_id p : user_addr p -> get_untagged_ptr p = p.
Proof.
  intros Hp. rewrite <- (get_untagged_shape p 0) at 2 by done. f_equal. lia.
Qed.

(** The word [put_tagged_ptr] builds. *)
Lemma put_tagged_shape p t t' : user_addr p -> 0 <= t' < 128 ->
  put_tagged_ptr (p + t * 2 ^ 56) t' = p + t' * 2 ^ 56.
Proof.
  intros Hp Ht. unfold put_tagged_ptr. rewrite get_untagged_shape by done.
  unfold user_addr in Hp.
  rewrite land_clear_high, lor_disjoint by lia.
  apply to_s_id; lia.
Qed.

Lemma get_tag_shape p t : user_addr p -> 0 <= t < 128 -> get_tag (p + t * 2 ^ 56) = t.
Proof.
  unfold user_addr. intros Hp Ht. unfold get_tag. rewrite Z.shiftr_div_pow2 by lia.
  rewrite Z.div_add, Z.div_small by lia. rewrite Z.add_0_l. apply to_s_id; lia.
Qed.

Lemma put_tagged_plain p t : user_addr p -> 0 <= t < 128 ->
  put_tagged_ptr p t = p + t * 2 ^ 56.
Proof.
  intros Hp Ht. rewrite <- (put_tagged_shape p 0 t) by done. f_equal. lia.
Qed.

Lemma get_untagged_put p t : user_addr p -> 0 <= t < 128 ->
  get_untagged_ptr (put_tagged_ptr p t) = p.
Proof. intros Hp Ht. by rewrite put_tagged_plain, get_untagged_shape. Qed.

Lemma get_tag_put p t : user_addr p -> 0 <= t < 128 -> get_tag (put_tagged_ptr p t) = t.
Proof. intros Hp Ht. by rewrite put_tagged_plain, get_tag_shape. Qed.

#[export] Hint Rewrite get_untagged_put get_tag_put get_untagged_id
  using (done || lia) : tagged.

(** A tagged pointer keeps its address and its tag: whatever tag a word
    carried, tagging it again keeps the address and installs the new tag. *)
Theorem tagged_roundtrip p t t' : user_addr p -> 0 <= t < 128 -> 0 <= t' < 128 ->
  get_untagged_ptr (put_tagged_ptr p t) = p /\ get_tag (put_tagged_ptr p t) = t /\
  put_tagged_ptr (put_tagged_ptr p t) t' = put_tagged_ptr p t'.
Proof.
  intros Hp Ht Ht'. split; [by apply get_untagged_put|]. split; [by apply get_tag_put|].
  by rewrite (put_tagged_plain p t), put_tagged_shape, put_tagged_plain.
Qed.

Lemma tagged_roundtrip_witness :
  get_untagged_ptr (put_tagged_ptr 139637976727552 1) = 139637976727552 /\
  get_tag (put_tagged_ptr 139637976727552 1) = 1 /\
  put_tagged_ptr (put_tagged_ptr 139637976727552 1) 3 = put_tagged_ptr 139637976727552 3.
Proof. apply (tagged_roundtrip 139637976727552 1 3); by vm_compute. Defined.
