(* ===== verification/Objects.v ===== *)
(** The objects Prism's components share, and the memory that holds them.

    The address table, the write buffers, the value storage and the DRAM
    cache exchange raw pointers to each other's entries: an [at_entry] points
    to an [op_entry] or a [dc_entry], which points back to it.  Pointers are
    addresses ([Z]) into one memory with a heap per kind of object; loads and
    stores go through the functions below, which fail as the machine does. *)

From S2P Require Import Prelude Config TaggedPtr.

Local Open Scope Z_scope.

(** Location of a value in a value storage (AddressTable.h). *)
Record vs_idx_t := VsIdx { vs_id : Z; vs_offset : Z }.

(** Entry of the heterogeneous storage indirection table (AddressTable.h). *)
Record at_entry_t := AtEntry { vs_idx : vs_idx_t; val_addr : Z }.

(** Entry of a persistent write buffer (OpLog.h); padding omitted. *)
Record op_entry_t := OpEntry { op_val : Z; opa : Z; op_key : Z; op_size : Z }.

(** Entry of a value storage (ValueStorage.h); padding omitted. *)
Record vs_entry_t := VsEntry { ve_at_entry : Z; ve_key : Z; ve_val : Z }.

(** Entry of the DRAM cache (LRUList.h); padding omitted. *)
Record dc_entry_t := DcEntry {
  dc_at_entry : Z; dc_prev : Z; dc_next : Z; dc_s_prev : Z; dc_s_next : Z;
  dc_list_type : Z; dc_key : Z; dc_val : Z }.

(** Request to the cache thread (LRUList.h). *)
Record cq_entry_t := CqEntry { cq_at_entry : Z; cq_key : Z; cq_val : Z; cq_ops : bool }.

#[export] Instance vs_idx_eq_dec : EqDecision vs_idx_t.
Proof. solve_decision. Defined.
#[export] Instance at_entry_eq_dec : EqDecision at_entry_t.
Proof. solve_decision. Defined.
#[export] Instance op_entry_eq_dec : EqDecision op_entry_t.
Proof. solve_decision. Defined.
#[export] Instance vs_entry_eq_dec : EqDecision vs_entry_t.
Proof. solve_decision. Defined.
#[export] Instance dc_entry_eq_dec : EqDecision dc_entry_t.
Proof. solve_decision. Defined.
#[export] Instance cq_entry_eq_dec : EqDecision cq_entry_t.
Proof. solve_decision. Defined.

(** What [memset(.., 0, ..)] leaves in a buffer of entries. *)
Definition zero_vs_entry : vs_entry_t := VsEntry 0 0 0.

Record memory := Memory {
  at_mem : gmap Z at_entry_t;
  op_mem : gmap Z op_entry_t;
  dc_mem : gmap Z dc_entry_t;
}.

(** * Loads and stores *)

Definition load {A} (h : gmap Z A) (p : Z) : res A :=
  if p =? 0 then Err NullDeref else of_option BadAddress (h !! p).

Definition load_at (m : memory) (p : Z) : res at_entry_t := load (at_mem m) p.
Definition load_op (m : memory) (p : Z) : res op_entry_t := load (op_mem m) p.
Definition load_dc (m : memory) (p : Z) : res dc_entry_t := load (dc_mem m) p.

Definition upd_at (m : memory) (p : Z) (e : at_entry_t) : memory :=
  Memory (<[p := e]> (at_mem m)) (op_mem m) (dc_mem m).
Definition upd_op (m : memory) (p : Z) (e : op_entry_t) : memory :=
  Memory (at_mem m) (<[p := e]> (op_mem m)) (dc_mem m).
Definition upd_dc (m : memory) (p : Z) (e : dc_entry_t) : memory :=
  Memory (at_mem m) (op_mem m) (<[p := e]> (dc_mem m)).
Definition free_dc (m : memory) (p : Z) : memory :=
  Memory (at_mem m) (op_mem m) (delete p (dc_mem m)).

(** A store through a pointer: the object must be there. *)
Definition store_at (m : memory) (p : Z) (f : at_entry_t -> at_entry_t) : res memory :=
  e ← load_at m p; Ok (upd_at m p (f e)).
Definition store_op (m : memory) (p : Z) (f : op_entry_t -> op_entry_t) : res memory :=
  e ← load_op m p; Ok (upd_op m p (f e)).
Definition store_dc (m : memory) (p : Z) (f : dc_entry_t -> dc_entry_t) : res memory :=
  e ← load_dc m p; Ok (upd_dc m p (f e)).

Definition set_val_addr (a : Z) (e : at_entry_t) : at_entry_t := AtEntry (vs_idx e) a.
Definition set_vs_idx (i : vs_idx_t) (e : at_entry_t) : at_entry_t := AtEntry i (val_addr e).
Definition set_vs_offset (o : Z) (e : at_entry_t) : at_entry_t :=
  AtEntry (VsIdx (vs_id (vs_idx e)) o) (val_addr e).

(** * Laws of loads and stores *)

Lemma load_ok {A} (h : gmap Z A) p a : load h p = Ok a <-> p ≠ 0 /\ h !! p = Some a.
Proof.
  unfold load. destruct (Z.eqb_spec p 0) as [->|]; [naive_solver|].
  rewrite of_option_ok. naive_solver.
Qed.

Lemma load_at_ok m p e : load_at m p = Ok e <-> p ≠ 0 /\ at_mem m !! p = Some e.
Proof. apply load_ok. Qed.
Lemma load_op_ok m p e : load_op m p = Ok e <-> p ≠ 0 /\ op_mem m !! p = Some e.
Proof. apply load_ok. Qed.
Lemma load_dc_ok m p e : load_dc m p = Ok e <-> p ≠ 0 /\ dc_mem m !! p = Some e.
Proof. apply load_ok. Qed.

Lemma store_at_ok m p f m' : store_at m p f = Ok m' <->
  exists e, p ≠ 0 /\ at_mem m !! p = Some e /\ m' = upd_at m p (f e).
Proof.
  unfold store_at. rewrite bind_ok. setoid_rewrite load_at_ok. naive_solver.
Qed.
Lemma store_op_ok m p f m' : store_op m p f = Ok m' <->
  exists e, p ≠ 0 /\ op_mem m !! p = Some e /\ m' = upd_op m p (f e).
Proof.
  unfold store_op. rewrite bind_ok. setoid_rewrite load_op_ok. naive_solver.
Qed.
Lemma store_dc_ok m p f m' : store_dc m p f = Ok m' <->
  exists e, p ≠ 0 /\ dc_mem m !! p = Some e /\ m' = upd_dc m p (f e).
Proof.
  unfold store_dc. rewrite bind_ok. setoid_rewrite load_dc_ok. naive_solver.
Qed.

(** [inv_mem] takes apart the loads and stores [inv_res] exposes. *)
Ltac inv_mem :=
  repeat (inv_res;
  match goal with
  | H : load_at _ _ = Ok _ |- _ => apply load_at_ok in H as [? ?]
  | H : load_op _ _ = Ok _ |- _ => apply load_op_ok in H as [? ?]
  | H : load_dc _ _ = Ok _ |- _ => apply load_dc_ok in H as [? ?]
  | H : store_at _ _ _ = Ok _ |- _ => apply store_at_ok in H as (? & ? & ? & ->)
  | H : store_op _ _ _ = Ok _ |- _ => apply store_op_ok in H as (? & ? & ? & ->)
  | H : store_dc _ _ _ = Ok _ |- _ => apply store_dc_ok in H as (? & ? & ? & ->)
  end); inv_res.

Lemma load_at_some m p e : p ≠ 0 -> at_mem m !! p = Some e -> load_at m p = Ok e.
Proof. intros. by apply load_at_ok. Qed.
Lemma load_op_some m p e : p ≠ 0 -> op_mem m !! p = Some e -> load_op m p = Ok e.
Proof. intros. by apply load_op_ok. Qed.
Lemma load_dc_some m p e : p ≠ 0 -> dc_mem m !! p = Some e -> load_dc m p = Ok e.
Proof. intros. by apply load_dc_ok. Qed.

Lemma store_at_some m p f e : p ≠ 0 -> at_mem m !! p = Some e ->
  store_at m p f = Ok (upd_at m p (f e)).
Proof. intros. apply store_at_ok. eauto. Qed.
Lemma store_op_some m p f e : p ≠ 0 -> op_mem m !! p = Some e ->
  store_op m p f = Ok (upd_op m p (f e)).
Proof. intros. apply store_op_ok. eauto. Qed.
Lemma store_dc_some m p f e : p ≠ 0 -> dc_mem m !! p = Some e ->
  store_dc m p f = Ok (upd_dc m p (f e)).
Proof. intros. apply store_dc_ok. eauto. Qed.

#[export] Hint Resolve load_at_some load_op_some load_dc_some : prism.
#[export] Hint Resolve store_at_some store_op_some store_dc_some : prism.
