(* ===== verification/AddressTable.v ===== *)
(** The heterogeneous storage indirection table, HSIT
    ([src/PRISM/src/AddressTable.h], [AddressTable.cpp]).

    A table is a persistent array of [at_entry_t] with a bump pointer
    ([next_empty_at_offset]) that skips entries a previous run left in use,
    and a list of freed offsets that is consulted once the bump pointer has
    covered the array.  The array itself lives in the shared [memory]. *)

From S2P Require Import Prelude Config TaggedPtr Objects.

Local Open Scope Z_scope.

Record AddressTable := MkAddressTable {
  at_starting_addr : Z;
  at_id : Z;
  next_empty_at_offset : Z;
  whole_file_written : bool;
  free_at_offset_list : list Z;
}.

Section address_table.
Context `{Config}.

(** [&at_starting_addr[offset]] *)
Definition entry_addr (t : AddressTable) (offset : Z) : Z :=
  at_starting_addr t + offset * sizeof_at_entry.

(** The constructor, once [pmem_map_file] has returned [pmem_addr]
    ([None] is its failure). *)
Definition create (pmem_addr : option Z) (at_num : Z) : res AddressTable :=
  match pmem_addr with
  | None => Err ExitFailure
  | Some a => Ok (MkAddressTable a at_num 0 false [])
  end.

Definition put_at_entry (m : memory) (dst : Z) (src : at_entry_t) : res memory :=
  store_at m dst (fun _ => src).

Definition get_at_entry_num (t : AddressTable) : Z :=
  if whole_file_written t
  then to_u64 (MTS_AT_ENTRY_NUM - Z.of_nat (length (free_at_offset_list t)))
  else next_empty_at_offset t.

(** The parameter is an [int]. *)
Definition is_empty (t : AddressTable) (m : memory) (offset : Z) : res bool :=
  at_entry ← load_at m (entry_addr t (to_i32 offset));
  let tag := get_tag (val_addr at_entry) in
  Ok (tag =? CLEAN_ENTRY).

(** The loop of [get_empty_at_offset]: [n] is the number of entries from
    [next] to the end of the array; past it the code reads outside the
    mapping.  Returns [at_offset] and the new [next_empty_at_offset]. *)
Fixpoint skip_used (t : AddressTable) (m : memory) (n : nat) (next : Z) : res (Z * Z) :=
  match n with
  | O => Err OutOfRange
  | S n' =>
      b ← is_empty t m next;
      if (b : bool) then Ok (next, next + 1) else skip_used t m n' (next + 1)
  end.

Definition get_empty_at_offset (t : AddressTable) (m : memory) : res (Z * AddressTable) :=
  if negb (whole_file_written t) then
    '(at_offset, next) ← skip_used t m
      (Z.to_nat (MTS_AT_ENTRY_NUM - next_empty_at_offset t)) (next_empty_at_offset t);
    let written := (next =? MTS_AT_ENTRY_NUM) || whole_file_written t in
    Ok (at_offset,
        MkAddressTable (at_starting_addr t) (at_id t) next written (free_at_offset_list t))
  else
    match free_at_offset_list t with
    | [] => Err AssertFailure
    | at_offset :: rest =>
        Ok (at_offset,
            MkAddressTable (at_starting_addr t) (at_id t) (next_empty_at_offset t)
              (whole_file_written t) rest)
    end.

(** The fresh entry [alloc] fills in DRAM. *)
Definition alloc : at_entry_t := AtEntry (VsIdx (-1) (-1)) 0.

Definition assign (t : AddressTable) (m : memory) : res (Z * AddressTable * memory) :=
  '(offset, t') ← get_empty_at_offset t m;
  if MTS_AT_SIZE / sizeof_at_entry <=? offset then Err ExitFailure
  else
    m' ← put_at_entry m (entry_addr t offset) alloc;
    Ok (entry_addr t offset, t', m').

Definition get_at_offset (t : AddressTable) (at_entry : Z) : Z :=
  let interval := to_u64 (entry_addr t 1 - entry_addr t 0) in
  to_u64 (at_entry - entry_addr t 0) / interval.

Definition free (t : AddressTable) (m : memory) (at_entry : Z)
  : res (bool * AddressTable * memory) :=
  m' ← store_at m at_entry (fun e =>
         AtEntry (VsIdx (-1) (-1)) (put_tagged_ptr (val_addr e) CLEAN_ENTRY));
  Ok (true,
      MkAddressTable (at_starting_addr t) (at_id t) (next_empty_at_offset t)
        (whole_file_written t) (free_at_offset_list t ++ [get_at_offset t at_entry]),
      m').

(** [link_to_ol(at_entry, op_entry)]: used by an insertion. *)
Definition link_to_ol (m : memory) (at_entry op_entry : Z) : res memory :=
  store_at m at_entry (set_val_addr (put_tagged_ptr op_entry OPLOG_VAL)).

(** [link_to_ol(at_entry, op_entry, &past_vs_id, &past_vs_offset)]: used by an
    update; also returns where the value was in a value storage. *)
Definition link_to_ol_past (m : memory) (at_entry op_entry : Z) : res (vs_idx_t * memory) :=
  e ← load_at m at_entry;
  m' ← store_at m at_entry (fun _ =>
         AtEntry (VsIdx (-1) (-1)) (put_tagged_ptr op_entry OPLOG_VAL));
  Ok (vs_idx e, m').

Definition get_at_id (t : AddressTable) (at_entry : Z) : Z :=
  if (entry_addr t 0 <=? at_entry) && (at_entry <=? entry_addr t MTS_AT_ENTRY_NUM)
  then at_id t else -1.

(** * Invariant *)

(** Offsets the table has handed out or found in use, and not taken back. *)
Definition live (t : AddressTable) (i : Z) : Prop :=
  0 <= i < next_empty_at_offset t /\ i ∉ free_at_offset_list t.

Record at_inv (t : AddressTable) (m : memory) : Prop := {
  inv_base : 0 < at_starting_addr t /\
    at_starting_addr t + MTS_AT_ENTRY_NUM * sizeof_at_entry < 2 ^ 47;
  inv_mapped : forall i, 0 <= i < MTS_AT_ENTRY_NUM -> is_Some (at_mem m !! entry_addr t i);
  inv_next : 0 <= next_empty_at_offset t <= MTS_AT_ENTRY_NUM;
  inv_whole : whole_file_written t = (next_empty_at_offset t =? MTS_AT_ENTRY_NUM);
  inv_free_range : Forall (fun i => 0 <= i < next_empty_at_offset t) (free_at_offset_list t);
  inv_free_nodup : NoDup (free_at_offset_list t);
}.

Context `{!WfConfig _}.

Lemma entry_addr_nonnull t m i : at_inv t m -> 0 <= i -> entry_addr t i ≠ 0.
Proof. intros [? _ _ _ _ _] Hi. unfold entry_addr, sizeof_at_entry in *. lia. Qed.

Lemma entry_addr_inj t i j : entry_addr t i = entry_addr t j -> i = j.
Proof. unfold entry_addr, sizeof_at_entry. lia. Qed.

Lemma get_at_offset_entry t m i : at_inv t m -> 0 <= i < MTS_AT_ENTRY_NUM ->
  get_at_offset t (entry_addr t i) = i.
Proof.
  intros [? _ _ _ _ _] Hi. pose proof wf_at_num. unfold get_at_offset, entry_addr, sizeof_at_entry in *.
  rewrite (to_u_id 64 (_ + 1 * 16 - _)) by lia.
  rewrite to_u_id by lia.
  replace (at_starting_addr t + 1 * 16 - (at_starting_addr t + 0 * 16)) with 16 by lia.
  replace (at_starting_addr t + i * 16 - (at_starting_addr t + 0 * 16)) with (i * 16) by lia.
  by rewrite Z.div_mul by lia.
Qed.

(** What the scan of [get_empty_at_offset] finds. *)
Lemma skip_used_spec t m n next off next' :
  skip_used t m n next = Ok (off, next') ->
  next <= off < next + Z.of_nat n /\ next' = off + 1 /\ is_empty t m off = Ok true.
Proof.
  revert next. induction n as [|n IH]; intros next; cbn [skip_used]; [done|].
  intros Hs. inv_res. destruct x.
  - inv_res. split; [lia|]. done.
  - apply IH in Hs. destruct Hs as (? & ? & ?). split; [lia|]. done.
Qed.

(** The scan reaches the first free entry at or after the bump pointer. *)
Lemma skip_used_total t m n next off :
  (forall i, next <= i < next + Z.of_nat n -> exists b, is_empty t m i = Ok b) ->
  next <= off < next + Z.of_nat n -> is_empty t m off = Ok true ->
  exists off', skip_used t m n next = Ok (off', off' + 1) /\ off' <= off.
Proof.
  revert next. induction n as [|n IH]; intros next Hb Hoff He; [lia|].
  cbn [skip_used]. destruct (Hb next ltac:(lia)) as [b Hn]. rewrite Hn. cbn.
  destruct b; [exists next; split; [done|lia]|].
  destruct (decide (off = next)) as [->|]; [congruence|].
  destruct (IH (next + 1)) as (off' & Hs & Hle).
  - intros i Hi. apply Hb. lia.
  - lia.
  - done.
  - eauto.
Qed.

Lemma is_empty_in_range t m i : at_inv t m -> 0 <= i < MTS_AT_ENTRY_NUM ->
  exists e, at_mem m !! entry_addr t i = Some e /\
    is_empty t m i = Ok (get_tag (val_addr e) =? CLEAN_ENTRY).
Proof.
  intros Hinv Hi. destruct (inv_mapped _ _ Hinv i Hi) as [e He]. exists e. split; [done|].
  pose proof wf_at_num. unfold is_empty. rewrite to_s_id by lia.
  rewrite (load_at_some _ _ e); [done|by eapply entry_addr_nonnull; [|lia]|done].
Qed.

(** The invariant only depends on the domain of the table's heap. *)
Lemma at_inv_dom t m m' : at_inv t m ->
  (forall p, is_Some (at_mem m !! p) -> is_Some (at_mem m' !! p)) -> at_inv t m'.
Proof. intros [] Hd. split; auto. Qed.

Lemma upd_at_dom m p e q : is_Some (at_mem m !! q) -> is_Some (at_mem (upd_at m p e) !! q).
Proof.
  intros Hq. cbn. destruct (decide (p = q)) as [->|].
  - rewrite lookup_insert_eq. eauto.
  - by rewrite lookup_insert_ne.
Qed.

Lemma get_empty_spec t m off t' :
  at_inv t m -> get_empty_at_offset t m = Ok (off, t') ->
  0 <= off < MTS_AT_ENTRY_NUM /\ ~ live t off /\ live t' off /\
  (forall i, live t i -> live t' i) /\ at_inv t' m /\
  at_starting_addr t' = at_starting_addr t /\ at_id t' = at_id t.
Proof.
  intros Hinv Hg. unfold get_empty_at_offset in Hg.
  pose proof (inv_next _ _ Hinv) as Hn. pose proof (inv_whole _ _ Hinv) as Hw.
  pose proof (inv_free_range _ _ Hinv) as Hf. rewrite Forall_forall in Hf.
  destruct (whole_file_written t) eqn:E; simpl in Hg.
  - destruct (free_at_offset_list t) as [|o rest] eqn:El; inv_res.
    symmetry in Hw. apply Z.eqb_eq in Hw.
    pose proof (inv_free_nodup _ _ Hinv) as Hd. rewrite El in Hd.
    apply NoDup_cons in Hd as [Hd1 Hd2].
    assert (0 <= off < next_empty_at_offset t) as Hoff by (apply Hf; left).
    split; [lia|]. split; [|split; [|split; [|split; [|done]]]]; unfold live; cbn.
    + rewrite El. intros [_ Hi]. apply Hi. left.
    + done.
    + rewrite El. intros i [? Hi]. split; [done|]. intros ?. apply Hi. by right.
    + destruct Hinv. split; cbn; auto.
      * by rewrite Hw, Z.eqb_refl.
      * rewrite Forall_forall. intros i Hi. apply Hf. by right.
  - inv_res. rename select (skip_used _ _ _ _ = _) into Hs.
    apply skip_used_spec in Hs as (Hoff & -> & _).
    split; [lia|]. split; [|split; [|split; [|split; [|done]]]]; unfold live; cbn.
    + intros [? _]. lia.
    + split; [lia|]. intros Hi. apply Hf in Hi. lia.
    + intros i [? Hi]. split; [lia|done].
    + destruct Hinv. split; cbn; auto; [lia|by rewrite orb_false_r|].
      eapply Forall_impl; [done|]. intros i Hi. simpl in Hi. lia.
Qed.

Lemma assign_spec t m p t' m' :
  at_inv t m -> assign t m = Ok (p, t', m') ->
  exists off, 0 <= off < MTS_AT_ENTRY_NUM /\ p = entry_addr t off /\
    ~ live t off /\ live t' off /\ (forall i, live t i -> live t' i) /\
    m' = upd_at m p alloc /\ at_inv t' m' /\
    at_starting_addr t' = at_starting_addr t.
Proof.
  intros Hinv Ha. unfold assign in Ha. inv_res.
  rename select (get_empty_at_offset _ _ = _) into Hg.
  destruct (get_empty_spec _ _ _ _ Hinv Hg) as (Ho & Hl & Hl' & Hm & Hi & Hs & _).
  fold MTS_AT_ENTRY_NUM in Ha.
  destruct (Z.leb_spec MTS_AT_ENTRY_NUM z); [lia|]. unfold put_at_entry in Ha. inv_mem.
  exists z. do 6 (split; [done|]). split; [|done]. eapply at_inv_dom; [done|]. intros; by apply upd_at_dom.
Qed.

(** The table has room: a free offset once the array has been covered, or else
    an unused entry at or after the bump pointer. *)
Definition at_room (t : AddressTable) (m : memory) : Prop :=
  if whole_file_written t then free_at_offset_list t <> []
  else exists i, next_empty_at_offset t <= i < MTS_AT_ENTRY_NUM /\ is_empty t m i = Ok true.

Lemma assign_succeeds t m :
  at_inv t m -> at_room t m ->
  exists p t' m', assign t m = Ok (p, t', m').
Proof.
  intros Hinv Hroom. unfold at_room in Hroom. pose proof (inv_next _ _ Hinv) as Hn.
  assert (exists off t', get_empty_at_offset t m = Ok (off, t')) as (off & t' & Hg).
  { unfold get_empty_at_offset. destruct (whole_file_written t); simpl.
    - destruct (free_at_offset_list t); [done|eauto].
    - destruct Hroom as (i & Hi & He).
      destruct (skip_used_total t m (Z.to_nat (MTS_AT_ENTRY_NUM - next_empty_at_offset t))
                  (next_empty_at_offset t) i) as (off & -> & _); [|lia|done|cbn; eauto].
      intros j Hj. destruct (is_empty_in_range t m j Hinv) as (e & _ & ->); [lia|eauto]. }
  destruct (get_empty_spec _ _ _ _ Hinv Hg) as (Ho & _).
  destruct (inv_mapped _ _ Hinv off Ho) as [e He].
  unfold assign. rewrite Hg. cbn. fold MTS_AT_ENTRY_NUM.
  destruct (Z.leb_spec MTS_AT_ENTRY_NUM off); [lia|].
  unfold put_at_entry. erewrite store_at_some; [cbn; eauto| |done].
  eapply entry_addr_nonnull; [done|lia].
Qed.

(** Every entry [assign] hands out is fresh: it was not live (neither
    handed out before and not freed, nor found in use by the scan), it is
    live afterwards, no live entry is lost, it holds an empty value, and the
    table's invariant is kept. *)
Theorem assign_fresh t m p t' m' :
  at_inv t m -> assign t m = Ok (p, t', m') ->
  exists off, 0 <= off < MTS_AT_ENTRY_NUM /\ p = entry_addr t off /\
    ~ live t off /\ live t' off /\ (forall i, live t i -> live t' i) /\
    m' = upd_at m p alloc /\ at_inv t' m'.
Proof.
  intros Hinv Ha. destruct (assign_spec t m p t' m' Hinv Ha) as (off & R). exists off. tauto.
Qed.

(** C33. [assign] succeeds whenever the table has room: a free offset once the
    array has been covered, or else an unused entry at or after the bump
    pointer. *)
Theorem assign_total t m :
  at_inv t m -> at_room t m ->
  exists p t' m', assign t m = Ok (p, t', m').
Proof. apply assign_succeeds. Qed.

(** [free] takes back exactly the entry it is given: the entry's tag
    becomes [CLEAN_ENTRY], it stops being live, the other entries' status is
    unchanged and the invariant is kept. *)
Theorem free_spec t m off e :
  at_inv t m -> live t off -> at_mem m !! entry_addr t off = Some e ->
  (exists a tg, user_addr a /\ 0 <= tg < 128 /\ val_addr e = a + tg * 2 ^ 56) ->
  exists t' m', free t m (entry_addr t off) = Ok (true, t', m') /\
    ~ live t' off /\ (forall i, i <> off -> live t' i <-> live t i) /\
    is_empty t' m' off = Ok true /\ at_inv t' m'.
Proof.
  intros Hinv [Hoff Hnf] He (a & tg & Ha & Htg & Hva).
  pose proof (inv_next _ _ Hinv) as Hn.
  assert (entry_addr t off <> 0) as Hnn by (eapply entry_addr_nonnull; [done|lia]).
  unfold free. erewrite store_at_some by done. cbn. do 2 eexists. split; [done|].
  rewrite (get_at_offset_entry t m) by (done || lia).
  assert (at_inv (MkAddressTable (at_starting_addr t) (at_id t) (next_empty_at_offset t)
            (whole_file_written t) (free_at_offset_list t ++ [off]))
            (upd_at m (entry_addr t off) (AtEntry (VsIdx (-1) (-1))
               (put_tagged_ptr (val_addr e) CLEAN_ENTRY)))) as Hinv'.
  { eapply at_inv_dom; [|intros; by apply upd_at_dom].
    destruct Hinv. split; cbn; auto.
    - apply Forall_app. split; [done|]. by apply Forall_singleton.
    - apply NoDup_app. split; [done|]. split; [set_solver|apply NoDup_singleton]. }
  split; [|split; [|split; [|done]]]; unfold live; cbn.
  - intros [_ Hi]. set_solver.
  - intros i Hi. set_solver.
  - destruct (is_empty_in_range _ _ off Hinv') as (e' & He' & ->); [lia|].
    unfold upd_at, entry_addr in He'. cbn in He'. rewrite lookup_insert_eq in He'.
    injection He' as <-. cbn. rewrite Hva, put_tagged_shape by (done || lia).
    by rewrite get_tag_shape by (done || lia).
Qed.

(** The table of an entry is found by its address; the test also accepts the
    address one past the end of the array, so with two tables mapped next to
    each other the first entry of the second is attributed to the first, and
    its offset there is outside the first table. *)
Theorem get_at_id_one_past_end t1 t2 m :
  at_inv t1 m -> at_starting_addr t2 = entry_addr t1 MTS_AT_ENTRY_NUM ->
  get_at_id t1 (entry_addr t2 0) = at_id t1 /\ get_at_id t2 (entry_addr t2 0) = at_id t2 /\
  get_at_offset t1 (entry_addr t2 0) = MTS_AT_ENTRY_NUM.
Proof.
  intros Hinv Hadj. pose proof wf_at_num as Hw. destruct Hinv as [Hb _ _ _ _ _].
  assert (entry_addr t2 0 = entry_addr t1 MTS_AT_ENTRY_NUM) as E.
  { rewrite <- Hadj. unfold entry_addr. lia. }
  unfold get_at_id. rewrite !E.
  unfold get_at_offset, entry_addr, sizeof_at_entry in *.
  split; [|split].
  - rewrite (proj2 (Z.leb_le _ _)), (proj2 (Z.leb_le _ _)); [done|lia|lia].
  - rewrite (proj2 (Z.leb_le _ _)), (proj2 (Z.leb_le _ _)); [done|lia|lia].
  - rewrite (to_u_id 64 (_ + 1 * 16 - _)) by lia. rewrite to_u_id by lia.
    replace (at_starting_addr t1 + 1 * 16 - (at_starting_addr t1 + 0 * 16)) with 16 by lia.
    replace (at_starting_addr t1 + MTS_AT_ENTRY_NUM * 16 - (at_starting_addr t1 + 0 * 16))
      with (MTS_AT_ENTRY_NUM * 16) by lia.
    by rewrite Z.div_mul by lia.
Qed.
End address_table.

(** * A table of four entries *)

Section example.
#[local] Existing Instance tiny_config.
#[local] Existing Instance tiny_config_wf.

(** Entry 0 was left in use by an earlier run. *)
Definition ex_mem : memory :=
  Memory (list_to_map [(1000, AtEntry (VsIdx (-1) (-1)) (4096 + OPLOG_VAL * 2 ^ 56));
                       (1016, alloc); (1032, alloc); (1048, alloc)]) ∅ ∅.
Definition ex_table : AddressTable := MkAddressTable 1000 0 0 false [].
Definition ex_table1 : AddressTable := MkAddressTable 1000 0 1 false [].
Definition ex_table2 : AddressTable := MkAddressTable 1064 1 0 false [].

Lemma ex_mapped t : at_starting_addr t = 1000 ->
  forall i, 0 <= i < MTS_AT_ENTRY_NUM -> is_Some (at_mem ex_mem !! entry_addr t i).
Proof.
  intros E i Hi. change MTS_AT_ENTRY_NUM with 4 in Hi. unfold entry_addr. rewrite E.
  assert (i = 0 \/ i = 1 \/ i = 2 \/ i = 3) as [-> | [-> | [-> | ->]]] by lia;
    (eexists; by vm_compute).
Qed.

Lemma ex_inv : at_inv ex_table ex_mem.
Proof. split; [by vm_compute|by apply ex_mapped|by vm_compute|done|constructor|constructor]. Qed.

Lemma ex_inv1 : at_inv ex_table1 ex_mem.
Proof. split; [by vm_compute|by apply ex_mapped|by vm_compute|done|constructor|constructor]. Qed.

(** The scan skips entry 0. *)
Lemma assign_fresh_witness : exists t' m',
  assign ex_table ex_mem = Ok (1016, t', m') /\
  exists off, 0 <= off < MTS_AT_ENTRY_NUM /\ 1016 = entry_addr ex_table off /\
    ~ live ex_table off /\ live t' off /\ (forall i, live ex_table i -> live t' i) /\
    m' = upd_at ex_mem 1016 alloc /\ at_inv t' m'.
Proof.
  eexists _, _. split; [reflexivity|]. eapply (assign_fresh ex_table ex_mem); [apply ex_inv|reflexivity].
Defined.

Lemma assign_total_witness : exists p t' m', assign ex_table ex_mem = Ok (p, t', m').
Proof. apply (assign_total ex_table ex_mem); [apply ex_inv|]. exists 1. split; by vm_compute. Defined.

Lemma free_spec_witness :
  exists t' m', free ex_table1 ex_mem (entry_addr ex_table1 0) = Ok (true, t', m') /\
    ~ live t' 0 /\ (forall i, i <> 0 -> live t' i <-> live ex_table1 i) /\
    is_empty t' m' 0 = Ok true /\ at_inv t' m'.
Proof.
  eapply (free_spec ex_table1 ex_mem 0).
  - apply ex_inv1.
  - split; [by vm_compute|apply not_elem_of_nil].
  - by vm_compute.
  - exists 4096, OPLOG_VAL. by vm_compute.
Defined.

Lemma get_at_id_one_past_end_witness :
  get_at_id ex_table (entry_addr ex_table2 0) = at_id ex_table /\
  get_at_id ex_table2 (entry_addr ex_table2 0) = at_id ex_table2 /\
  get_at_offset ex_table (entry_addr ex_table2 0) = MTS_AT_ENTRY_NUM.
Proof. apply (get_at_id_one_past_end ex_table ex_table2 ex_mem); [apply ex_inv|reflexivity]. Defined.
End example.
