(* ===== verification/IoUring.v ===== *)
(** The kernel's asynchronous I/O interface as Prism uses it.

    liburing is not part of the repository.  Its calls are parameters of the
    model: how many submission entries a ring of a requested size has, what
    [io_uring_submit] and [io_uring_wait_cqe_nr] return for a batch.
    [IoUringOk] states the documented behaviour the code relies on; a file is
    modelled as the entries it holds at multiples of the entry size, and the
    effect of a batch on it is defined here from the requests. *)

From S2P Require Import Prelude Config Objects.

Local Open Scope Z_scope.

Class IoUring := {
  (** submission entries of a ring initialised for [n] *)
  sq_entries : nat -> nat;
  (** result of [io_uring_submit] with [n] prepared requests *)
  uring_submit : nat -> Z;
  (** result of [io_uring_wait_cqe_nr] for [n] completions *)
  uring_wait : nat -> Z;
  (** the order in which the requests of a batch complete *)
  uring_order : list (nat * Z) -> list (nat * Z);
  (** [res] of a completed read *)
  uring_res : nat * Z -> Z;
}.

(** io_uring_setup(2): sizes are rounded up to a power of two;
    io_uring_enter(2): a successful call returns the number of requests
    submitted, a successful wait and a successful read a non-negative value;
    every request completes once, in any order. *)
Class IoUringOk (U : IoUring) : Prop := {
  sq_entries_pow2 : forall k, sq_entries (2 ^ k) = (2 ^ k)%nat;
  uring_submit_all : forall n, uring_submit n = Z.of_nat n;
  uring_wait_ok : forall n, 0 <= uring_wait n;
  uring_order_perm : forall l, uring_order l ≡ₚ l;
  uring_res_ok : forall r, 0 <= uring_res r;
}.

Definition plain_uring : IoUring :=
  {| sq_entries := fun n => n; uring_submit := Z.of_nat; uring_wait := fun _ => 0;
     uring_order := fun l => reverse l; uring_res := fun _ => 0 |}.

#[export] Instance plain_uring_ok : IoUringOk plain_uring.
Proof. split; cbn; [done|done|lia|apply reverse_Permutation|lia]. Qed.

(** A value-storage file: slot number (byte offset / entry size) to entry. *)
Abbreviation vs_file := (gmap Z vs_entry_t).

(** Write [data] at slots [slot], [slot + 1], ... *)
Fixpoint write_slots (f : vs_file) (slot : Z) (data : list vs_entry_t) : vs_file :=
  match data with
  | [] => f
  | e :: data' => write_slots (<[slot := e]> f) (slot + 1) data'
  end.

(** Read [n] slots; a slot never written reads as zeroes ([fallocate]). *)
Fixpoint read_slots (f : vs_file) (slot : Z) (n : nat) : list vs_entry_t :=
  match n with
  | O => []
  | S n' => default zero_vs_entry (f !! slot) :: read_slots f (slot + 1) n'
  end.

Lemma lookup_write_slots f slot data s :
  write_slots f slot data !! s =
  if bool_decide (slot <= s < slot + Z.of_nat (length data))
  then data !! Z.to_nat (s - slot) else f !! s.
Proof.
  revert f slot. induction data as [|e data IH]; intros f slot; simpl.
  - by rewrite bool_decide_false by lia.
  - rewrite IH. destruct (decide (s = slot)) as [->|].
    + rewrite bool_decide_false by lia. rewrite lookup_insert_eq.
      rewrite bool_decide_true by lia. by rewrite Z.sub_diag.
    + rewrite lookup_insert_ne by done.
      destruct (decide (slot <= s < slot + Z.of_nat (S (length data)))).
      * rewrite !bool_decide_true by lia.
        by replace (Z.to_nat (s - slot)) with (S (Z.to_nat (s - (slot + 1)))) by lia.
      * by rewrite !bool_decide_false by lia.
Qed.

Lemma write_slots_app f slot d1 d2 :
  write_slots f slot (d1 ++ d2) =
  write_slots (write_slots f slot d1) (slot + Z.of_nat (length d1)) d2.
Proof.
  revert f slot. induction d1 as [|e d1 IH]; intros f slot; simpl.
  - by rewrite Z.add_0_r.
  - rewrite IH. f_equal. lia.
Qed.

Lemma length_read_slots f slot n : length (read_slots f slot n) = n.
Proof. revert slot. induction n; intros; simpl; auto. Qed.

Lemma lookup_read_slots f slot n i : (i < n)%nat ->
  read_slots f slot n !! i = Some (default zero_vs_entry (f !! (slot + Z.of_nat i))).
Proof.
  revert slot i. induction n as [|n IH]; intros slot i Hi; [lia|].
  destruct i as [|i]; simpl; [by rewrite Z.add_0_r|].
  rewrite IH by lia. do 3 f_equal. lia.
Qed.

Lemma read_slots_app f slot n1 n2 :
  read_slots f slot (n1 + n2) = read_slots f slot n1 ++ read_slots f (slot + Z.of_nat n1) n2.
Proof.
  revert slot. induction n1 as [|n1 IH]; intros slot; simpl; [by rewrite Z.add_0_r|].
  rewrite IH. do 3 f_equal. lia.
Qed.

Section batch.
Context `{Config} `{IoUring}.

(** The loops [do { sqe = io_uring_get_sqe(..); if (!sqe) break; prep_write(..);
    offset += ..; array_num += ..; } while (true)]: [io_uring_get_sqe] answers
    until the ring's submission entries are used up, so the loop prepares one
    request per entry.  A request is its byte offset in the file and its data. *)
Fixpoint prep_writes (sqes : nat) (buf : list vs_entry_t) (array_num : nat) (offset : Z)
    (bytes : Z) (entries : nat) : list (Z * list vs_entry_t) :=
  match sqes with
  | O => []
  | S sqes' =>
      (offset, take entries (drop array_num buf)) ::
      prep_writes sqes' buf (array_num + entries) (offset + bytes) bytes entries
  end.

Fixpoint prep_reads (sqes : nat) (array_num : nat) (offset : Z)
    (bytes : Z) (entries : nat) : list (nat * Z) :=
  match sqes with
  | O => []
  | S sqes' =>
      (array_num, offset) :: prep_reads sqes' (array_num + entries) (offset + bytes) bytes entries
  end.

Definition complete_writes (f : vs_file) (reqs : list (Z * list vs_entry_t)) : vs_file :=
  foldl (fun f r => write_slots f (r.1 / sizeof_vs_entry) r.2) f reqs.

(** A completed read puts its entries at its place in the buffer. *)
Definition complete_reads (f : vs_file) (entries : nat) (buf : list vs_entry_t)
    (reqs : list (nat * Z)) : list vs_entry_t :=
  foldl (fun buf r =>
    list_inserts r.1 (read_slots f (r.2 / sizeof_vs_entry) entries) buf) buf reqs.

Context `{!WfConfig _}.

Lemma slot_add s n : (s * KV_SIZE + Z.of_nat n * KV_SIZE) / KV_SIZE = s + Z.of_nat n.
Proof.
  pose proof wf_kv_pos. rewrite <- Z.mul_add_distr_r. by rewrite Z.div_mul by lia.
Qed.

Lemma complete_writes_cons f r reqs :
  complete_writes f (r :: reqs) =
  complete_writes (write_slots f (r.1 / sizeof_vs_entry) r.2) reqs.
Proof. done. Qed.

(** A batch of contiguous requests inside the buffer writes that part of the
    buffer. *)
Lemma complete_prep_writes f sqes buf array_num s entries :
  (array_num + sqes * entries <= length buf)%nat ->
  complete_writes f (prep_writes sqes buf array_num (s * KV_SIZE)
    (Z.of_nat entries * KV_SIZE) entries) =
  write_slots f s (take (sqes * entries) (drop array_num buf)).
Proof.
  revert f array_num s. induction sqes as [|sqes IH]; intros f array_num s Hlen; [done|].
  cbn [prep_writes]. rewrite complete_writes_cons. cbn [fst snd].
  pose proof wf_kv_pos. unfold sizeof_vs_entry at 1. rewrite Z.div_mul by lia.
  rewrite <- Z.mul_add_distr_r, IH by lia.
  replace (S sqes * entries)%nat with (entries + sqes * entries)%nat by lia.
  rewrite <- drop_drop, <- take_take_drop, write_slots_app, length_take, length_drop.
  do 2 f_equal. lia.
Qed.

Lemma complete_reads_cons f n buf r reqs :
  complete_reads f n buf (r :: reqs) =
  complete_reads f n (list_inserts r.1 (read_slots f (r.2 / sizeof_vs_entry) n) buf) reqs.
Proof. done. Qed.

(** A batch of contiguous reads fills that part of the buffer. *)
Lemma lookup_complete_prep_reads f sqes buf array_num s entries i :
  (array_num + sqes * entries <= length buf)%nat ->
  complete_reads f entries buf (prep_reads sqes array_num (s * KV_SIZE)
    (Z.of_nat entries * KV_SIZE) entries) !! i =
  if bool_decide (array_num <= i < array_num + sqes * entries)%nat
  then Some (default zero_vs_entry (f !! (s + Z.of_nat (i - array_num)))) else buf !! i.
Proof.
  revert buf array_num s. induction sqes as [|sqes IH]; intros buf array_num s Hlen.
  { rewrite bool_decide_false by lia. done. }
  cbn [prep_reads]. rewrite complete_reads_cons. cbn [fst snd].
  pose proof wf_kv_pos. unfold sizeof_vs_entry at 1. rewrite Z.div_mul by lia.
  rewrite <- Z.mul_add_distr_r, IH by (rewrite length_inserts; lia).
  destruct (decide (array_num + entries <= i < array_num + S sqes * entries)%nat).
  { rewrite !bool_decide_true by lia. do 3 f_equal. lia. }
  rewrite bool_decide_false by lia.
  destruct (decide (array_num <= i < array_num + entries)%nat).
  - rewrite bool_decide_true by lia.
    rewrite list_lookup_inserts by (rewrite ?length_read_slots; lia).
    by rewrite lookup_read_slots by lia.
  - rewrite bool_decide_false by lia. destruct (decide (i < array_num)%nat).
    + by rewrite list_lookup_inserts_lt by lia.
    + by rewrite list_lookup_inserts_ge by (rewrite ?length_read_slots; lia).
Qed.
End batch.
