(* ===== verification/ValueStorage.v ===== *)
(** The value storage: chunks of entries on flash
    ([src/PRISM/src/ValueStorage.h], [ValueStorage.cpp]).

    A storage is a file of [MTS_VS_CHUNK_NUM] chunks of
    [MTS_VS_ENTRIES_PER_CHUNK] entries, a bitmap of the valid entries of every
    chunk, a list of free chunks, one chunk being filled per write-buffer
    thread and one for garbage collection.  Values arrive through
    [put_vs_entry]; a full chunk is sorted by key, written, and the address
    table is pointed at the new places ([sync_with_at]).

    This file holds the data and every operation of the write path and of
    garbage collection; their properties are in ChunkWrite.v and
    GarbageCollection.v. *)

From S2P Require Import Prelude Config TaggedPtr Objects IoUring.

Local Open Scope Z_scope.

(** [OpForm::Operation] (include/common.h). *)
Inductive Operation := INSERT | REMOVE | INVALID | LOOKUP | SCAN.

#[export] Instance operation_eq_dec : EqDecision Operation.
Proof. solve_decision. Defined.

(** One move to report to the address table. *)
Record moved_entry_t := MovedEntry {
  me_key : Z; me_at_entry : Z; me_chunk_offset : Z; me_entry_offset : Z; me_op_type : Operation }.

(** A chunk being filled.  [wc_bound] says whether [init_w_chunk] has bound
    the chunk's buffer and list pointers; buffers [w_buffer[i]], [s_buffer[i]]
    and list [moved_entry_list[i]] belong to chunk [i] only and are kept here. *)
Record w_chunk_t := WChunk {
  wc_id : Z;
  wc_chunk_offset : Z;
  wc_entry_offset : nat;
  wc_bound : bool;
  w_buffer : list vs_entry_t;
  s_buffer : list vs_entry_t;
  moved_entry_list : list moved_entry_t;
}.

Record ValueStorage := MkVS {
  vs_self : Z;                          (** [vs_id] *)
  gc_done : bool;
  is_writing : bool;
  w_chunk : list w_chunk_t;
  gc_w_chunk : w_chunk_t;
  gc_r_buffer : list vs_entry_t;
  free_chunk_list : list Z;
  used_chunk_list : list (Z * Z);
  vs_bitmap_info : list (list bool);
  vs_disk : vs_file;                    (** the file behind [fd[0]] *)
  total_vs_write_count : Z;
}.

Definition set_w_chunk (c : list w_chunk_t) (v : ValueStorage) : ValueStorage :=
  MkVS (vs_self v) (gc_done v) (is_writing v) c (gc_w_chunk v) (gc_r_buffer v)
    (free_chunk_list v) (used_chunk_list v) (vs_bitmap_info v) (vs_disk v) (total_vs_write_count v).
Definition set_gc_w_chunk (c : w_chunk_t) (v : ValueStorage) : ValueStorage :=
  MkVS (vs_self v) (gc_done v) (is_writing v) (w_chunk v) c (gc_r_buffer v)
    (free_chunk_list v) (used_chunk_list v) (vs_bitmap_info v) (vs_disk v) (total_vs_write_count v).
Definition set_gc_r_buffer (b : list vs_entry_t) (v : ValueStorage) : ValueStorage :=
  MkVS (vs_self v) (gc_done v) (is_writing v) (w_chunk v) (gc_w_chunk v) b
    (free_chunk_list v) (used_chunk_list v) (vs_bitmap_info v) (vs_disk v) (total_vs_write_count v).
Definition set_free_chunk_list (l : list Z) (v : ValueStorage) : ValueStorage :=
  MkVS (vs_self v) (gc_done v) (is_writing v) (w_chunk v) (gc_w_chunk v) (gc_r_buffer v)
    l (used_chunk_list v) (vs_bitmap_info v) (vs_disk v) (total_vs_write_count v).
Definition set_used_chunk_list (l : list (Z * Z)) (v : ValueStorage) : ValueStorage :=
  MkVS (vs_self v) (gc_done v) (is_writing v) (w_chunk v) (gc_w_chunk v) (gc_r_buffer v)
    (free_chunk_list v) l (vs_bitmap_info v) (vs_disk v) (total_vs_write_count v).
Definition set_bitmap (b : list (list bool)) (v : ValueStorage) : ValueStorage :=
  MkVS (vs_self v) (gc_done v) (is_writing v) (w_chunk v) (gc_w_chunk v) (gc_r_buffer v)
    (free_chunk_list v) (used_chunk_list v) b (vs_disk v) (total_vs_write_count v).
Definition set_disk (f : vs_file) (n : Z) (v : ValueStorage) : ValueStorage :=
  MkVS (vs_self v) (gc_done v) (is_writing v) (w_chunk v) (gc_w_chunk v) (gc_r_buffer v)
    (free_chunk_list v) (used_chunk_list v) (vs_bitmap_info v) f n.
Definition set_flags (done writing : bool) (v : ValueStorage) : ValueStorage :=
  MkVS (vs_self v) done writing (w_chunk v) (gc_w_chunk v) (gc_r_buffer v)
    (free_chunk_list v) (used_chunk_list v) (vs_bitmap_info v) (vs_disk v) (total_vs_write_count v).

Section value_storage.
Context `{Config} `{IoUring} `{StdSort}.

Abbreviation ENTRIES := MTS_VS_ENTRIES_PER_CHUNK.

(** * Bitmaps: [std::bitset<MTS_VS_ENTRIES_PER_CHUNK>] per chunk *)

Definition count (b : list bool) : Z := Z.of_nat (length (filter (fun x => x = true) b)).

(** [vs_bitmap_info->at(chunk_offset)] *)
Definition bitmap_at (v : ValueStorage) (chunk_offset : Z) : res (list bool) :=
  if chunk_offset <? 0 then Err OutOfRange
  else of_option OutOfRange (vs_bitmap_info v !! Z.to_nat chunk_offset).

Definition put_bitmap (v : ValueStorage) (chunk_offset : Z) (b : list bool) : ValueStorage :=
  set_bitmap (<[Z.to_nat chunk_offset := b]> (vs_bitmap_info v)) v.

(** [bitset::test], [set] and [reset] throw [std::out_of_range]. *)
Definition bit_test (b : list bool) (i : Z) : res bool :=
  if i <? 0 then Err OutOfRange else of_option OutOfRange (b !! Z.to_nat i).
Definition bit_write (b : list bool) (i : Z) (x : bool) : res (list bool) :=
  _ ← bit_test b i; Ok (<[Z.to_nat i := x]> b).

Definition is_empty (v : ValueStorage) (chunk_offset : Z) : res bool :=
  b ← bitmap_at v chunk_offset; Ok (count b =? 0).

Definition need_gc (v : ValueStorage) : bool := gc_done v.

(** * Chunk lists *)

(** [vector(MTS_VS_CHUNK_NUM)] followed by as many [push_back]s. *)
Definition init_vs_bitmap_info : list (list bool) :=
  replicate (Z.to_nat MTS_VS_CHUNK_NUM) (replicate ENTRIES false) ++
  replicate (Z.to_nat MTS_VS_CHUNK_NUM) (replicate ENTRIES false).

Definition init_free_chunk_list : list Z := Z.of_nat <$> seq 0 (Z.to_nat MTS_VS_CHUNK_NUM).

Definition init_used_chunk_list : list (Z * Z) := [].

Definition add_free_chunk_list (v : ValueStorage) (free_chunk_offset : Z) : ValueStorage :=
  set_free_chunk_list (free_chunk_list v ++ [free_chunk_offset]) v.

(** The loop of [get_free_chunk_offset]: drop the listed chunks that turn out
    to hold valid entries; [front()] of an empty vector is undefined. *)
Fixpoint first_empty (v : ValueStorage) (l : list Z) : res (Z * list Z) :=
  match l with
  | [] => Err OutOfRange
  | c :: l' => e ← is_empty v c; if (e : bool) then Ok (c, l') else first_empty v l'
  end.

Definition get_free_chunk_offset (v : ValueStorage) : res (Z * ValueStorage) :=
  '(free_chunk_offset, rest) ← first_empty v (free_chunk_list v);
  if negb (to_u64 free_chunk_offset <? MTS_VS_CHUNK_NUM) then Err ExitFailure
  else
    _ ← assert_ (to_u64 free_chunk_offset <? MTS_VS_CHUNK_NUM);
    _ ← assert_ (-1 <? free_chunk_offset);
    Ok (free_chunk_offset, set_free_chunk_list rest v).

Definition get_used_chunk_num (v : ValueStorage) : Z :=
  to_u32 (MTS_VS_CHUNK_NUM - Z.of_nat (length (free_chunk_list v))).

Definition not_enough_free_chunk (v : ValueStorage) : bool :=
  MTS_VS_HIGH_MARK <? get_used_chunk_num v.

(** * Validity of entries *)

Definition set_vs_bitmap_info (v : ValueStorage) (chunk_offset entry_offset : Z)
  : res ValueStorage :=
  b ← bitmap_at v chunk_offset;
  _ ← assert_ (count b <=? Z.of_nat ENTRIES);
  b' ← bit_write b entry_offset true;
  Ok (put_bitmap v chunk_offset b').

Definition clear_vs_bitmap_info (v : ValueStorage) (chunk_offset entry_offset : Z)
  : res ValueStorage :=
  b ← bitmap_at v chunk_offset;
  b' ← bit_write b entry_offset false;
  let v' := put_bitmap v chunk_offset b' in
  Ok (if count b' =? 0 then add_free_chunk_list v' chunk_offset else v').

Definition unlink_to_at (v : ValueStorage) (chunk_offset entry_offset : Z) : res ValueStorage :=
  b ← bitmap_at v chunk_offset;
  t ← bit_test b entry_offset;
  if negb t then Ok v else clear_vs_bitmap_info v chunk_offset entry_offset.

(** [int new_vs_offset = chunk_offset * MTS_VS_ENTRIES_PER_CHUNK + entry_offset],
    computed in [unsigned long] and narrowed. *)
Definition mk_vs_offset (chunk_offset entry_offset : Z) : Z :=
  to_i32 (to_u64 (chunk_offset * Z.of_nat ENTRIES + entry_offset)).

(** [vs_offset / MTS_VS_ENTRIES_PER_CHUNK] and [vs_offset % ..] as the code
    computes them from an [int]. *)
Definition chunk_of (vs_offset : Z) : Z := to_i32 (to_u64 vs_offset / Z.of_nat ENTRIES).
Definition entry_of (vs_offset : Z) : Z := to_i32 (to_u64 vs_offset mod Z.of_nat ENTRIES).

Definition link_to_at (v : ValueStorage) (m : memory) (chunk_offset entry_offset at_entry : Z)
  : res (ValueStorage * memory) :=
  e ← load_at m at_entry;
  let cur_vs_offset := vs_offset (vs_idx e) in
  let new_vs_offset := mk_vs_offset chunk_offset entry_offset in
  if cur_vs_offset =? NEWLY_UPDATED_VAL then Ok (v, m)
  else
    _ ← assert_ (to_u64 chunk_offset <? MTS_VS_CHUNK_NUM);
    _ ← assert_ (to_u64 entry_offset <? Z.of_nat ENTRIES);
    m' ← store_at m at_entry (set_vs_idx (VsIdx (vs_self v) new_vs_offset));
    v' ← set_vs_bitmap_info v chunk_offset entry_offset;
    Ok (v', m').

Definition gc_link_to_at (v : ValueStorage) (m : memory) (chunk_offset entry_offset at_entry : Z)
  : res (ValueStorage * memory) :=
  e ← load_at m at_entry;
  let cur_vs_id := vs_id (vs_idx e) in
  let cur_vs_offset := vs_offset (vs_idx e) in
  let new_vs_offset := mk_vs_offset chunk_offset entry_offset in
  if cur_vs_offset =? NEWLY_UPDATED_VAL then Ok (v, m)
  else if cur_vs_offset =? PRE_VALUESTORAGE_VAL then Ok (v, m)
  else if negb (cur_vs_id =? vs_self v) then Ok (v, m)
  else
    _ ← assert_ (to_u64 chunk_offset <? MTS_VS_CHUNK_NUM);
    _ ← assert_ (to_u64 entry_offset <? Z.of_nat ENTRIES);
    m' ← store_at m at_entry (set_vs_idx (VsIdx (vs_self v) new_vs_offset));
    v' ← set_vs_bitmap_info v chunk_offset entry_offset;
    Ok (v', m').

(** * Reporting moves to the address table *)

Definition add_moved_entry (l : list moved_entry_t) (chunk_offset entry_offset : Z)
    (vs_entry : vs_entry_t) (op_type : Operation) : list moved_entry_t :=
  l ++ [MovedEntry (ve_key vs_entry) (ve_at_entry vs_entry) chunk_offset entry_offset op_type].

Definition set_me_at_entry (a : Z) (e : moved_entry_t) : moved_entry_t :=
  MovedEntry (me_key e) a (me_chunk_offset e) (me_entry_offset e) (me_op_type e).

(** Sorts the [at_entry] column of the list by key and leaves the rest of
    each row in place; [s_moved_entry_list] is the scratch vector. *)
Definition sort_moved_entry (l : list moved_entry_t) : list moved_entry_t :=
  let s_moved_entry_list := std_sort fst ((fun e => (me_key e, me_at_entry e)) <$> l) in
  zip_with (fun e p => set_me_at_entry p.2 e) l s_moved_entry_list.

Fixpoint link_all (v : ValueStorage) (m : memory) (l : list moved_entry_t)
  : res (ValueStorage * memory) :=
  match l with
  | [] => Ok (v, m)
  | e :: l' =>
      '(v', m') ← link_to_at v m (me_chunk_offset e) (me_entry_offset e) (me_at_entry e);
      link_all v' m' l'
  end.

(** Returns the storage and memory; the list is cleared by the callers below. *)
Definition sync_with_at (v : ValueStorage) (m : memory) (l : list moved_entry_t)
  : res (ValueStorage * memory) := link_all v m (sort_moved_entry l).

Fixpoint gc_link_all (v : ValueStorage) (m : memory) (l : list moved_entry_t)
  : res (ValueStorage * memory) :=
  match l with
  | [] => Ok (v, m)
  | e :: l' =>
      '(v', m') ←
        (match me_op_type e with
         | INSERT => gc_link_to_at v m (me_chunk_offset e) (me_entry_offset e) (me_at_entry e)
         | REMOVE =>
             v' ← unlink_to_at v (me_chunk_offset e) (me_entry_offset e); Ok (v', m)
         | _ => Ok (v, m)
         end);
      gc_link_all v' m' l'
  end.

Definition gc_sync_with_at (v : ValueStorage) (m : memory) (l : list moved_entry_t)
  : res (ValueStorage * memory) := gc_link_all v m (sort_moved_entry l).

(** * Writing chunks *)

(** The entries [sort_w_buffer] collects: up to the first with a null
    [at_entry]. *)
Fixpoint valid_prefix (buf : list vs_entry_t) : list vs_entry_t :=
  match buf with
  | [] => []
  | e :: buf' => if ve_at_entry e =? 0 then [] else e :: valid_prefix buf'
  end.

(** The sorted buffer: the collected entries by key, then zeroes. *)
Definition sort_w_buffer (buf : list vs_entry_t) : list vs_entry_t :=
  let sorted_entry_list := std_sort ve_key (valid_prefix (take ENTRIES buf)) in
  sorted_entry_list ++ replicate (ENTRIES - length sorted_entry_list) zero_vs_entry.

(** [write_chunk]: sorts the buffer, prepares one write per submission entry
    of the ring, submits and waits. *)
Definition write_chunk (v : ValueStorage) (chunk : w_chunk_t)
  : res (ValueStorage * w_chunk_t) :=
  if negb (wc_bound chunk) then Err Uninitialised
  else
    let buf := sort_w_buffer (w_buffer chunk) in
    let reqs := prep_writes (sq_entries W_QD) buf 0 (wc_chunk_offset chunk * MTS_VS_CHUNK_SIZE)
      (MTS_VS_CHUNK_SIZE / Z.of_nat W_QD)
      (Z.to_nat (MTS_VS_CHUNK_SIZE / Z.of_nat W_QD / sizeof_vs_entry)) in
    let ret := uring_submit (length reqs) in
    if ret <? 0 then Err ExitFailure
    else if uring_wait (Z.to_nat ret) <? 0 then Err ExitFailure
    else
      Ok (set_disk (complete_writes (vs_disk v) (take (Z.to_nat ret) reqs))
            (to_u64 (total_vs_write_count v + 1)) v,
          WChunk (wc_id chunk) (wc_chunk_offset chunk) (wc_entry_offset chunk) true
            buf buf (moved_entry_list chunk)).

Definition write_gc_w_chunk (v : ValueStorage) (gc_w_chunk_offset : Z) : res ValueStorage :=
  let chunk := gc_w_chunk v in
  if negb (wc_bound chunk) then Err Uninitialised
  else
    let buf := sort_w_buffer (w_buffer chunk) in
    let reqs := prep_writes (sq_entries GC_QD) buf 0 (gc_w_chunk_offset * MTS_VS_CHUNK_SIZE)
      (MTS_VS_CHUNK_SIZE / Z.of_nat GC_QD)
      (Z.to_nat (MTS_VS_CHUNK_SIZE / Z.of_nat GC_QD / sizeof_vs_entry)) in
    let ret := uring_submit (length reqs) in
    if negb (ret =? Z.of_nat (length reqs)) then Err ExitFailure
    else if uring_wait (Z.to_nat ret) <? 0 then Err ExitFailure
    else
      Ok (set_gc_w_chunk
            (WChunk (wc_id chunk) (wc_chunk_offset chunk) (wc_entry_offset chunk) true
               (replicate ENTRIES zero_vs_entry) buf (moved_entry_list chunk))
            (set_disk (complete_writes (vs_disk v) reqs) (total_vs_write_count v) v)).

Definition read_gc_r_chunk (v : ValueStorage) (gc_r_chunk_offset : Z) : res ValueStorage :=
  let reqs := prep_reads (sq_entries GC_QD) 0 (gc_r_chunk_offset * MTS_VS_CHUNK_SIZE)
    (MTS_VS_CHUNK_SIZE / Z.of_nat GC_QD)
    (Z.to_nat (MTS_VS_CHUNK_SIZE / Z.of_nat GC_QD / sizeof_vs_entry)) in
  let ret := uring_submit (length reqs) in
  if negb (ret =? Z.of_nat (length reqs)) then Err ExitFailure
  else if uring_wait (Z.to_nat ret) <? 0 then Err ExitFailure
  else
    Ok (set_gc_r_buffer
          (complete_reads (vs_disk v)
             (Z.to_nat (MTS_VS_CHUNK_SIZE / Z.of_nat GC_QD / sizeof_vs_entry))
             (replicate ENTRIES zero_vs_entry) reqs) v).

(** * Garbage collection *)

(** [sort_by_entry]: fewest valid entries first (the comparison of equal
    counts has no [return] in the source and does not order them). *)
Definition create_used_chunk_list (v : ValueStorage) : res (Z * ValueStorage) :=
  let entries := imap (fun i b => (Z.of_nat i, count b))
    (take (Z.to_nat MTS_VS_CHUNK_NUM) (vs_bitmap_info v)) in
  let used := filter (fun p => 0 < p.2) entries in
  if Z.of_nat (length (vs_bitmap_info v)) <? MTS_VS_CHUNK_NUM then Err OutOfRange
  else Ok (Z.of_nat (length used), set_used_chunk_list (std_sort snd used) v).

(** [-1] when no chunk is left or the next one is full. *)
Definition get_victim_chunk_offset (v : ValueStorage) (order : nat) : Z :=
  match used_chunk_list v !! order with
  | None => -1
  | Some (victim_chunk_offset, victim_chunk_entries) =>
      if victim_chunk_entries =? Z.of_nat ENTRIES then -1 else victim_chunk_offset
  end.

Definition init_gc_w_chunk (v : ValueStorage) : res ValueStorage :=
  '(c, v') ← get_free_chunk_offset v;
  let g := gc_w_chunk v' in
  Ok (set_gc_w_chunk (WChunk (wc_id g) c 0 true (w_buffer g) (s_buffer g) (moved_entry_list g)) v').

Definition gc_moved_entry_list (v : ValueStorage) : list moved_entry_t :=
  moved_entry_list (gc_w_chunk v).
Definition set_gc_moved (l : list moved_entry_t) (v : ValueStorage) : ValueStorage :=
  let g := gc_w_chunk v in
  set_gc_w_chunk (WChunk (wc_id g) (wc_chunk_offset g) (wc_entry_offset g) (wc_bound g)
    (w_buffer g) (s_buffer g) l) v.
Definition set_gc_w_buffer (b : list vs_entry_t) (v : ValueStorage) : ValueStorage :=
  let g := gc_w_chunk v in
  set_gc_w_chunk (WChunk (wc_id g) (wc_chunk_offset g) (wc_entry_offset g) (wc_bound g)
    b (s_buffer g) (moved_entry_list g)) v.

(** Writes the collected entries and reports their moves. *)
Definition flush_gc (v : ValueStorage) (m : memory) (gc_w_chunk_offset : Z)
  : res (ValueStorage * memory) :=
  v1 ← write_gc_w_chunk v gc_w_chunk_offset;
  '(v2, m2) ← gc_sync_with_at v1 m (gc_moved_entry_list v1);
  Ok (set_gc_moved [] v2, m2).

(** Local variables of [garbage_collection]. *)
Record gc_state := GcState {
  g_vs : ValueStorage;
  g_mem : memory;
  g_w_offset : nat;
  g_w_chunk : Z;
  g_used : Z;
}.

(** The [for] loop over the entries of the victim [gc_r_chunk_offset].  The
    boolean says that the collection returned from inside the loop. *)
Fixpoint gc_entries (gc_r_chunk_offset : Z) (used_before : Z) (idxs : list nat) (g : gc_state)
  : res (bool * gc_state) :=
  match idxs with
  | [] => Ok (false, g)
  | i :: idxs' =>
      let v := g_vs g in
      b ← bitmap_at v gc_r_chunk_offset;
      valid ← bit_test b (Z.of_nat i);
      if negb valid then gc_entries gc_r_chunk_offset used_before idxs' g
      else
        e ← of_option OutOfRange (gc_r_buffer v !! i);
        let v1 := set_gc_w_buffer (<[g_w_offset g := e]> (w_buffer (gc_w_chunk v))) v in
        let l1 := add_moved_entry (gc_moved_entry_list v1) (g_w_chunk g)
                    (Z.of_nat (g_w_offset g)) e INSERT in
        let l2 := add_moved_entry l1 gc_r_chunk_offset (Z.of_nat i) e REMOVE in
        let v2 := set_gc_moved l2 v1 in
        if Z.of_nat (g_w_offset g) =? Z.of_nat ENTRIES - 1 then
          '(v3, m3) ← flush_gc v2 (g_mem g) (g_w_chunk g);
          let used := to_i32 (g_used g + 1) in
          if (used =? used_before) || (to_u64 used <? MTS_VS_LOW_MARK) then
            Ok (true, GcState v3 m3 (g_w_offset g) (g_w_chunk g) used)
          else
            v4 ← init_gc_w_chunk v3;
            gc_entries gc_r_chunk_offset used_before idxs'
              (GcState v4 m3 0 (wc_chunk_offset (gc_w_chunk v4)) used)
        else
          gc_entries gc_r_chunk_offset used_before idxs'
            (GcState v2 (g_mem g) (g_w_offset g + 1) (g_w_chunk g) (g_used g))
  end.

(** The [do .. while (true)] loop over victims; [n] bounds the victims left. *)
Fixpoint gc_victims (n : nat) (order : nat) (used_before : Z) (g : gc_state)
  : res (ValueStorage * memory) :=
  match n with
  | O => Err NoReturn
  | S n' =>
      let v := g_vs g in
      let gc_r_chunk_offset := get_victim_chunk_offset v order in
      if gc_r_chunk_offset <? 0 then
        match gc_moved_entry_list v with
        | [] => Ok (add_free_chunk_list v (g_w_chunk g), g_mem g)
        | _ => flush_gc v (g_mem g) (g_w_chunk g)
        end
      else
        v1 ← read_gc_r_chunk v gc_r_chunk_offset;
        '(returned, g') ← gc_entries gc_r_chunk_offset used_before (seq 0 ENTRIES)
          (GcState v1 (g_mem g) (g_w_offset g) (g_w_chunk g) (g_used g));
        if (returned : bool) then Ok (g_vs g', g_mem g')
        else gc_victims n' (S order) used_before
               (GcState (g_vs g') (g_mem g') (g_w_offset g') (g_w_chunk g')
                  (to_i32 (g_used g' - 1)))
  end.

(** The function returns [EXIT_SUCCESS] on every path. *)
Definition garbage_collection (v : ValueStorage) (m : memory) : res (ValueStorage * memory) :=
  let used_chunk_num := to_i32 (get_used_chunk_num v) in
  '(used, v1) ← create_used_chunk_list v;
  if used <? 2 then Ok (v1, m)
  else
    c1 ← of_option OutOfRange (used_chunk_list v1 !! 0%nat);
    c2 ← of_option OutOfRange (used_chunk_list v1 !! 1%nat);
    if Z.of_nat ENTRIES <? c1.2 + c2.2 then Ok (v1, m)
    else
      v2 ← init_gc_w_chunk v1;
      gc_victims (S (length (used_chunk_list v2))) 0 used_chunk_num
        (GcState v2 m 0 (wc_chunk_offset (gc_w_chunk v2)) used_chunk_num).

(** * The write path *)

Definition get_w_chunk (v : ValueStorage) (i : nat) : res w_chunk_t :=
  of_option OutOfRange (w_chunk v !! i).
Definition put_w_chunk (v : ValueStorage) (i : nat) (c : w_chunk_t) : ValueStorage :=
  set_w_chunk (<[i := c]> (w_chunk v)) v.

Definition init_w_chunk (v : ValueStorage) (m : memory) (oplog_id : nat)
  : res (ValueStorage * memory) :=
  '(v1, m1) ←
    (if not_enough_free_chunk v
     then garbage_collection (set_flags true true v) m
     else Ok (set_flags false true v, m));
  '(c, v2) ← get_free_chunk_offset v1;
  w ← get_w_chunk v2 oplog_id;
  Ok (set_flags (gc_done v2) false
        (put_w_chunk v2 oplog_id
           (WChunk (Z.of_nat oplog_id) c 0 true (w_buffer w) (s_buffer w) (moved_entry_list w))),
      m1).

(** [alloc]: marks the address-table entry as on its way to a storage. *)
Definition alloc (m : memory) (key val at_entry : Z) : res (vs_entry_t * memory) :=
  m' ← store_at m at_entry (set_vs_offset PRE_VALUESTORAGE_VAL);
  Ok (VsEntry at_entry key val, m').

(** The tail both branches of [put_vs_entry] share. *)
Definition buffer_entry (v : ValueStorage) (m : memory) (oplog_id : nat) (key val at_entry : Z)
  : res (ValueStorage * memory) :=
  '(e, m') ← alloc m key val at_entry;
  w ← get_w_chunk v oplog_id;
  if negb (wc_bound w) then Err Uninitialised
  else
    Ok (put_w_chunk v oplog_id
          (WChunk (wc_id w) (wc_chunk_offset w) (S (wc_entry_offset w)) true
             (<[wc_entry_offset w := e]> (w_buffer w)) (s_buffer w)
             (add_moved_entry (moved_entry_list w) (wc_chunk_offset w)
                (Z.of_nat (wc_entry_offset w)) e INSERT)), m').

(** Writes chunk [oplog_id] and reports its moves; shared by [put_vs_entry]
    and [forced_write_chunk]. *)
Definition flush_chunk (v : ValueStorage) (m : memory) (oplog_id : nat)
  : res (ValueStorage * memory) :=
  w ← get_w_chunk v oplog_id;
  '(v1, w1) ← write_chunk v w;
  '(v2, m2) ← sync_with_at (put_w_chunk v1 oplog_id w1) m (moved_entry_list w1);
  Ok (put_w_chunk v2 oplog_id
        (WChunk (wc_id w1) (wc_chunk_offset w1) (wc_entry_offset w1) true
           (w_buffer w1) (s_buffer w1) []), m2).

Definition put_vs_entry (v : ValueStorage) (m : memory) (oplog_id : nat) (key val at_entry : Z)
  : res (ValueStorage * memory) :=
  w ← get_w_chunk v oplog_id;
  '(v1, m1) ← (if (wc_entry_offset w =? 0)%nat then init_w_chunk v m oplog_id else Ok (v, m));
  w1 ← get_w_chunk v1 oplog_id;
  if bool_decide (wc_entry_offset w1 < ENTRIES)%nat
  then buffer_entry v1 m1 oplog_id key val at_entry
  else if (wc_entry_offset w1 =? ENTRIES)%nat then
    '(v2, m2) ← flush_chunk v1 m1 oplog_id;
    '(v3, m3) ← init_w_chunk v2 m2 oplog_id;
    buffer_entry v3 m3 oplog_id key val at_entry
  else Ok (v1, m1).

Definition forced_write_chunk (v : ValueStorage) (m : memory) (oplog_id : nat)
  : res (ValueStorage * memory) :=
  '(v1, m1) ← flush_chunk v m oplog_id;
  w ← get_w_chunk v1 oplog_id;
  Ok (put_w_chunk v1 oplog_id
        (WChunk (wc_id w) (wc_chunk_offset w) 0 (wc_bound w) (w_buffer w) (s_buffer w)
           (moved_entry_list w)), m1).

(** The constructor.  The file and the buffers hold what the system returned:
    [mem_w i] and [mem_gc] are the contents of freshly allocated buffers. *)
Definition create (vs_num : Z) (f : vs_file)
    (mem_w : nat -> list vs_entry_t) (mem_gc : list vs_entry_t) : ValueStorage :=
  MkVS vs_num false false
    ((fun i => WChunk 0 0 0 false (mem_w i) (mem_w i) []) <$> seq 0 MTS_THREAD_NUM)
    (WChunk 0 0 0 false mem_gc mem_gc []) mem_gc
    init_free_chunk_list init_used_chunk_list init_vs_bitmap_info f 0.
End value_storage.
