(* ===== verification/ChunkWrite.v ===== *)
(** Properties of the value storage's write path ([ValueStorage.cpp]:
    [put_vs_entry], [write_chunk], [sync_with_at], [forced_write_chunk]).

    The chunk on disk is sorted by key while the list of moves keeps the order
    in which values arrived; the code re-sorts only the [at_entry] column of
    that list.  The theorems say that the two sorts agree: after a chunk is
    written, every address-table entry it covers points at the slot that holds
    its own value.  They also delimit when that is so: the buffer must hold
    nothing but the chunk's entries, which a partial chunk written after a
    full one does not satisfy ([stale_buffer_wrong_value]). *)

From S2P Require Import Prelude Config TaggedPtr Objects IoUring ValueStorage.

Local Open Scope Z_scope.

Section chunk_write.
Context `{Config} `{IoUring} `{StdSort}.
Context `{!WfConfig _} `{!IoUringOk _}.

Abbreviation ENTRIES := MTS_VS_ENTRIES_PER_CHUNK.

(** * Offsets *)

Definition chunk_in_range (c : Z) : Prop := 0 <= c < MTS_VS_CHUNK_NUM.
Definition entry_in_range (j : Z) : Prop := 0 <= j < Z.of_nat ENTRIES.

Lemma slot_range c j : chunk_in_range c -> entry_in_range j ->
  0 <= c * Z.of_nat ENTRIES + j < 2 ^ 31.
Proof. unfold chunk_in_range, entry_in_range. pose proof wf_offset_int. nia. Qed.

Lemma mk_vs_offset_small c j : chunk_in_range c -> entry_in_range j ->
  mk_vs_offset c j = c * Z.of_nat ENTRIES + j.
Proof.
  intros Hc Hj. pose proof (slot_range c j Hc Hj). unfold mk_vs_offset.
  rewrite to_u_id by lia. rewrite to_s_id by lia. done.
Qed.

Lemma chunk_num_int : MTS_VS_CHUNK_NUM <= 2 ^ 31.
Proof. pose proof wf_offset_int. pose proof wf_entries. pose proof wf_chunk_num. nia. Qed.

Lemma entries_int : Z.of_nat ENTRIES <= 2 ^ 31.
Proof. pose proof wf_offset_int. pose proof wf_entries. pose proof wf_chunk_num. nia. Qed.

Lemma vs_offset_decode c j : chunk_in_range c -> entry_in_range j ->
  chunk_of (c * Z.of_nat ENTRIES + j) = c /\ entry_of (c * Z.of_nat ENTRIES + j) = j.
Proof.
  intros Hc Hj. pose proof (slot_range c j Hc Hj).
  pose proof chunk_num_int. pose proof entries_int. unfold chunk_in_range, entry_in_range in *.
  unfold chunk_of, entry_of. rewrite to_u_id by lia.
  rewrite Z.div_add_l, Z.div_small, Z.add_0_r by lia.
  rewrite (Z.add_comm _ j), Z.mod_add, Z.mod_small by lia.
  by rewrite !to_s_id by lia.
Qed.

(** C36. The offset stored for an entry fits its [int] and decodes to the
    chunk and entry it was made from: no chunk and entry of a storage
    overflow or alias. *)
Theorem vs_offset_roundtrip c j : chunk_in_range c -> entry_in_range j ->
  mk_vs_offset c j = c * Z.of_nat ENTRIES + j /\ 0 <= mk_vs_offset c j < 2 ^ 31 /\
  chunk_of (mk_vs_offset c j) = c /\ entry_of (mk_vs_offset c j) = j.
Proof.
  intros Hc Hj. rewrite mk_vs_offset_small by done. split; [done|].
  split; [by apply slot_range|by apply vs_offset_decode].
Qed.

(** * Bitmaps *)

Definition valid_bit (v : ValueStorage) (c j : Z) : bool :=
  default false (b ← vs_bitmap_info v !! Z.to_nat c; b !! Z.to_nat j).

Record bm_wf (v : ValueStorage) : Prop := {
  bm_num : MTS_VS_CHUNK_NUM <= Z.of_nat (length (vs_bitmap_info v));
  bm_len : Forall (fun b => length b = ENTRIES) (vs_bitmap_info v);
}.

Lemma count_le (b : list bool) : 0 <= count b <= Z.of_nat (length b).
Proof. unfold count. pose proof (length_filter (fun x => x = true) b). lia. Qed.

Lemma bitmap_at_ok v c : bm_wf v -> chunk_in_range c ->
  exists b, bitmap_at v c = Ok b /\ vs_bitmap_info v !! Z.to_nat c = Some b /\ length b = ENTRIES.
Proof.
  intros [Hn Hl] Hc. unfold chunk_in_range in Hc.
  destruct (lookup_lt_is_Some_2 (vs_bitmap_info v) (Z.to_nat c)) as [b Hb]; [lia|].
  exists b. split; [|split; [done|by eapply Forall_lookup_1 in Hl]].
  unfold bitmap_at. destruct (Z.ltb_spec c 0); [lia|]. by rewrite Hb.
Qed.

Lemma bit_write_ok (b : list bool) j x : length b = ENTRIES -> entry_in_range j ->
  bit_write b j x = Ok (<[Z.to_nat j := x]> b).
Proof.
  intros Hl Hj. unfold entry_in_range in Hj. unfold bit_write, bit_test.
  destruct (Z.ltb_spec j 0); [lia|].
  destruct (lookup_lt_is_Some_2 b (Z.to_nat j)) as [y Hy]; [lia|]. by rewrite Hy.
Qed.

Lemma bm_wf_put v c b : bm_wf v -> length b = ENTRIES -> bm_wf (put_bitmap v c b).
Proof.
  intros [Hn Hl] Hb. split; cbn.
  - by rewrite length_insert.
  - by apply Forall_insert.
Qed.

Lemma valid_bit_put v c j x b c' j' :
  bm_wf v -> chunk_in_range c -> entry_in_range j -> 0 <= c' -> 0 <= j' ->
  vs_bitmap_info v !! Z.to_nat c = Some b ->
  valid_bit (put_bitmap v c (<[Z.to_nat j := x]> b)) c' j' =
  if bool_decide (c' = c /\ j' = j) then x else valid_bit v c' j'.
Proof.
  intros [Hn Hl] Hc Hj Hc' Hj' Hb. unfold chunk_in_range, entry_in_range in *.
  assert (length b = ENTRIES) as Hlen by (by eapply Forall_lookup_1 in Hl).
  unfold valid_bit. cbn. destruct (decide (c' = c)) as [->|].
  - rewrite list_lookup_insert_eq by lia. rewrite Hb. cbn.
    destruct (decide (j' = j)) as [->|].
    + rewrite bool_decide_true by done. rewrite list_lookup_insert_eq by lia. done.
    + rewrite bool_decide_false by naive_solver. by rewrite list_lookup_insert_ne by lia.
  - rewrite bool_decide_false by naive_solver. by rewrite list_lookup_insert_ne by lia.
Qed.

Lemma set_vs_bitmap_ok v c j : bm_wf v -> chunk_in_range c -> entry_in_range j ->
  exists b, vs_bitmap_info v !! Z.to_nat c = Some b /\ length b = ENTRIES /\
    set_vs_bitmap_info v c j = Ok (put_bitmap v c (<[Z.to_nat j := true]> b)).
Proof.
  intros Hwf Hc Hj. destruct (bitmap_at_ok v c Hwf Hc) as (b & Hat & Hb & Hlen).
  exists b. split; [done|]. split; [done|]. unfold set_vs_bitmap_info. rewrite Hat. cbn.
  pose proof (count_le b) as Hcnt. rewrite Hlen in Hcnt.
  rewrite (proj2 (Z.leb_le _ _)) by lia. cbn.
  by rewrite bit_write_ok by done.
Qed.

(** * Linking *)

(** What a successful relink does to an address-table entry. *)
Definition relinked (self c j : Z) (e : at_entry_t) : at_entry_t :=
  set_vs_idx (VsIdx self (c * Z.of_nat ENTRIES + j)) e.

(** An update that arrived after [alloc] has set the offset back to
    [NEWLY_UPDATED_VAL]: such an entry keeps its newer value. *)
Definition superseded (e : at_entry_t) : bool := vs_offset (vs_idx e) =? NEWLY_UPDATED_VAL.

Lemma link_to_at_spec v m c j a e :
  bm_wf v -> chunk_in_range c -> entry_in_range j -> a <> 0 -> at_mem m !! a = Some e ->
  exists bm', link_to_at v m c j a =
    Ok (set_bitmap bm' v, if superseded e then m else upd_at m a (relinked (vs_self v) c j e)) /\
    bm_wf (set_bitmap bm' v) /\
    (forall c' j', 0 <= c' -> 0 <= j' -> valid_bit (set_bitmap bm' v) c' j' =
       valid_bit v c' j' || bool_decide (superseded e = false /\ c' = c /\ j' = j)).
Proof.
  intros Hwf Hc Hj Ha He. unfold link_to_at. rewrite (load_at_some _ _ _ Ha He). cbn.
  change (vs_offset (vs_idx e) =? NEWLY_UPDATED_VAL) with (superseded e).
  destruct (superseded e) eqn:Es.
  - exists (vs_bitmap_info v). destruct v; cbn in *. split; [done|]. split; [done|].
    intros c' j' _ _. rewrite bool_decide_false by naive_solver. by rewrite orb_false_r.
  - destruct (set_vs_bitmap_ok v c j Hwf Hc Hj) as (b & Hb & Hlen & Hset).
    pose proof chunk_num_int. pose proof entries_int.
    rewrite !to_u_id by (unfold chunk_in_range, entry_in_range in *; lia).
    unfold chunk_in_range, entry_in_range in *.
    rewrite !(proj2 (Z.ltb_lt _ _)) by lia. cbn.
    rewrite (store_at_some _ _ _ _ Ha He). cbn. rewrite Hset. cbn.
    rewrite mk_vs_offset_small by done.
    eexists. split; [done|]. split; [apply bm_wf_put; [done|by rewrite length_insert]|].
    intros c' j' Hc' Hj'. etransitivity; [by apply (valid_bit_put v c j true b c' j')|].
    destruct (decide (c' = c /\ j' = j)) as [Hd|Hd].
    + by rewrite !bool_decide_true, orb_true_r by naive_solver.
    + by rewrite !bool_decide_false, orb_false_r by naive_solver.
Qed.

(** A move the address table can take. *)
Definition move_ok (m : memory) (e : moved_entry_t) : Prop :=
  chunk_in_range (me_chunk_offset e) /\ entry_in_range (me_entry_offset e) /\
  me_at_entry e <> 0 /\ is_Some (at_mem m !! me_at_entry e).

(** The effect of a list of links on distinct address-table entries. *)
Lemma link_all_spec l : forall v m,
  bm_wf v -> Forall (move_ok m) l -> NoDup (me_at_entry <$> l) ->
  exists bm' m', link_all v m l = Ok (set_bitmap bm' v, m') /\ bm_wf (set_bitmap bm' v) /\
    op_mem m' = op_mem m /\ dc_mem m' = dc_mem m /\
    (forall a, a ∉ me_at_entry <$> l -> at_mem m' !! a = at_mem m !! a) /\
    (forall e x, e ∈ l -> at_mem m !! me_at_entry e = Some x ->
       at_mem m' !! me_at_entry e = Some (if superseded x then x else
         relinked (vs_self v) (me_chunk_offset e) (me_entry_offset e) x)) /\
    (forall c j, 0 <= c -> 0 <= j -> valid_bit (set_bitmap bm' v) c j = true <->
       valid_bit v c j = true \/
       exists e x, e ∈ l /\ at_mem m !! me_at_entry e = Some x /\ superseded x = false /\
         c = me_chunk_offset e /\ j = me_entry_offset e).
Proof.
  induction l as [|e l IH]; intros v m Hwf Hok Hnd.
  { exists (vs_bitmap_info v), m. destruct v; cbn. do 5 (split; [done|]). split.
    - intros e x He. by apply elem_of_nil in He.
    - intros c j _ _. split; [by left|].
      intros [?|(e & x & He & _)]; [done|by apply elem_of_nil in He]. }
  apply Forall_cons in Hok as [(Hc & Hj & Ha & x & Hx) Hok].
  cbn in Hnd. apply NoDup_cons in Hnd as [Hni Hnd].
  destruct (link_to_at_spec v m _ _ _ x Hwf Hc Hj Ha Hx) as (bm1 & Hl & Hwf1 & Hbit1).
  set (m1 := if superseded x then m else upd_at m (me_at_entry e)
    (relinked (vs_self v) (me_chunk_offset e) (me_entry_offset e) x)) in *.
  assert (forall a, a <> me_at_entry e -> at_mem m1 !! a = at_mem m !! a) as Hfr.
  { intros a Hna. subst m1. destruct (superseded x); [done|]. cbn. by rewrite lookup_insert_ne. }
  assert (at_mem m1 !! me_at_entry e = Some (if superseded x then x else
     relinked (vs_self v) (me_chunk_offset e) (me_entry_offset e) x)) as Hsame.
  { subst m1. destruct (superseded x); [done|]. cbn. by rewrite lookup_insert_eq. }
  assert (forall e', e' ∈ l -> me_at_entry e' <> me_at_entry e) as Hne.
  { intros e' He' E. apply Hni. rewrite <- E. by apply list_elem_of_fmap_2. }
  destruct (IH (set_bitmap bm1 v) m1) as (bm2 & m2 & Hl2 & Hwf2 & Hop & Hdc & Hout & Hin & Hbit2).
  { done. }
  { rewrite Forall_forall in *. intros e' He'. destruct (Hok e' He') as (? & ? & ? & y & Hy).
    do 3 (split; [done|]). rewrite Hfr by auto. eauto. }
  { done. }
  exists bm2, m2. cbn [link_all]. rewrite Hl. cbn. split; [exact Hl2|]. split; [exact Hwf2|].
  split; [rewrite Hop; subst m1; by destruct (superseded x)|].
  split; [rewrite Hdc; subst m1; by destruct (superseded x)|].
  split; [|split].
  - intros a Hna. apply not_elem_of_cons in Hna as [Hna1 Hna2]. by rewrite Hout, Hfr.
  - intros e' y He' Hy. apply elem_of_cons in He' as [->|He'].
    + rewrite Hout by done. rewrite Hx in Hy. by injection Hy as <-.
    + apply Hin; [done|]. by rewrite Hfr by auto.
  - intros c j Hc0 Hj0. rewrite Hbit2, Hbit1, orb_true_iff, bool_decide_eq_true by done. split.
    + intros [[?|(Hs & -> & ->)]|(e' & y & He' & Hy & Hr)]; [by left| |].
      * right. exists e, x. split; [left|done].
      * right. exists e', y. rewrite Hfr in Hy by auto. split; [by right|]. done.
    + intros [?|(e' & y & He' & Hy & Hs & -> & ->)]; [by left; left|].
      apply elem_of_cons in He' as [->|He'].
      * left. right. split; [congruence|done].
      * right. exists e', y. rewrite Hfr by auto. done.
Qed.

(** * Writing a chunk *)

Lemma length_valid_prefix buf : (length (valid_prefix buf) <= length buf)%nat.
Proof. induction buf as [|e buf IH]; simpl; [done|]. destruct (_ =? _); simpl; lia. Qed.

Lemma length_sort_w_buffer buf : length (sort_w_buffer buf) = ENTRIES.
Proof.
  unfold sort_w_buffer. rewrite length_app, length_replicate, std_sort_length.
  pose proof (length_valid_prefix (take ENTRIES buf)) as Hl. rewrite length_take in Hl. lia.
Qed.

Lemma chunk_bytes qd n : ENTRIES = (n * qd)%nat -> (0 < qd)%nat ->
  MTS_VS_CHUNK_SIZE / Z.of_nat qd = Z.of_nat n * KV_SIZE /\
  Z.to_nat (MTS_VS_CHUNK_SIZE / Z.of_nat qd / sizeof_vs_entry) = n.
Proof.
  intros Hn Hq. pose proof wf_kv_pos. pose proof wf_chunk_size as Hc.
  assert (MTS_VS_CHUNK_SIZE / Z.of_nat qd = Z.of_nat n * KV_SIZE) as ->.
  { rewrite Hc, Hn, Nat2Z.inj_mul.
    replace (Z.of_nat n * Z.of_nat qd * KV_SIZE) with (Z.of_nat n * KV_SIZE * Z.of_nat qd) by lia.
    by rewrite Z.div_mul by lia. }
  split; [done|]. unfold sizeof_vs_entry. rewrite Z.div_mul by lia. lia.
Qed.

Lemma prep_writes_length sqes buf an off bytes n :
  length (prep_writes sqes buf an off bytes n) = sqes.
Proof. revert an off. induction sqes; intros; simpl; auto. Qed.

(** A ring whose depth divides the chunk writes exactly the chunk. *)
Lemma chunk_batch f qd buf c : (exists k, qd = (2 ^ k)%nat) -> (exists n, ENTRIES = n * qd)%nat ->
  length buf = ENTRIES ->
  complete_writes f (prep_writes (sq_entries qd) buf 0 (c * MTS_VS_CHUNK_SIZE)
    (MTS_VS_CHUNK_SIZE / Z.of_nat qd)
    (Z.to_nat (MTS_VS_CHUNK_SIZE / Z.of_nat qd / sizeof_vs_entry))) =
  write_slots f (c * Z.of_nat ENTRIES) buf.
Proof.
  intros [k ->] [n Hn] Hlen.
  assert (0 < 2 ^ k)%nat by (clear; induction k; simpl; lia).
  rewrite sq_entries_pow2. destruct (chunk_bytes (2 ^ k) n Hn) as [-> ->]; [done|].
  rewrite wf_chunk_size, Z.mul_assoc.
  rewrite complete_prep_writes by (rewrite Hlen, Hn; lia). rewrite drop_0, take_ge by lia. done.
Qed.

Definition written (w : w_chunk_t) : w_chunk_t :=
  WChunk (wc_id w) (wc_chunk_offset w) (wc_entry_offset w) true
    (sort_w_buffer (w_buffer w)) (sort_w_buffer (w_buffer w)) (moved_entry_list w).

Lemma write_chunk_spec v w : wc_bound w = true ->
  write_chunk v w = Ok (
    set_disk (write_slots (vs_disk v) (wc_chunk_offset w * Z.of_nat ENTRIES)
                (sort_w_buffer (w_buffer w)))
      (to_u64 (total_vs_write_count v + 1)) v, written w).
Proof.
  intros Hb. unfold write_chunk. rewrite Hb. cbn [negb]. rewrite uring_submit_all.
  pose proof (uring_wait_ok (Z.to_nat (Z.of_nat (length (prep_writes (sq_entries W_QD)
    (sort_w_buffer (w_buffer w)) 0 (wc_chunk_offset w * MTS_VS_CHUNK_SIZE)
    (MTS_VS_CHUNK_SIZE / Z.of_nat W_QD)
    (Z.to_nat (MTS_VS_CHUNK_SIZE / Z.of_nat W_QD / sizeof_vs_entry))))))).
  rewrite !(proj2 (Z.ltb_ge _ _)) by lia.
  rewrite Nat2Z.id, take_ge by lia.
  by rewrite chunk_batch by (apply wf_w_qd || apply wf_w_split || apply length_sort_w_buffer).
Qed.

(** * Moves of a chunk *)

(** The list of moves [put_vs_entry] builds for the entries of chunk [c]. *)
Definition moves (c : Z) (es : list vs_entry_t) : list moved_entry_t :=
  imap (fun i e => MovedEntry (ve_key e) (ve_at_entry e) c (Z.of_nat i) INSERT) es.

Lemma moves_pairs c es :
  (fun e => (me_key e, me_at_entry e)) <$> moves c es =
  (fun e => (ve_key e, ve_at_entry e)) <$> es.
Proof.
  apply list_eq. intros i. rewrite !list_lookup_fmap. unfold moves. rewrite list_lookup_imap.
  by destruct (es !! i).
Qed.

(** Sorting the [at_entry] column follows the sort of the chunk. *)
Lemma sort_moves_lookup c (es : list vs_entry_t) j e :
  NoDup (ve_key <$> es) -> std_sort ve_key es !! j = Some e ->
  exists k, sort_moved_entry (moves c es) !! j =
    Some (MovedEntry k (ve_at_entry e) c (Z.of_nat j) INSERT).
Proof.
  intros Hnd Hj. unfold sort_moved_entry. rewrite moves_pairs.
  rewrite std_sort_eq.
  2: { intros x y Hx Hy E. apply list_elem_of_fmap in Hx as (x' & -> & Hx').
    apply list_elem_of_fmap in Hy as (y' & -> & Hy'). cbn in E.
    by rewrite (nodup_key_inj _ _ Hnd x' y' Hx' Hy' E). }
  rewrite (sort_by_fmap _ ve_key) by done.
  rewrite std_sort_eq in Hj by (by apply nodup_key_inj).
  assert (j < length es)%nat as Hlt.
  { apply lookup_lt_Some in Hj. by rewrite sort_by_length in Hj. }
  destruct (lookup_lt_is_Some_2 es j Hlt) as [e0 He0]. exists (ve_key e0).
  rewrite lookup_zip_with, list_lookup_fmap, Hj. unfold moves. by rewrite list_lookup_imap, He0.
Qed.

Lemma length_sort_moves c es : length (sort_moved_entry (moves c es)) = length es.
Proof.
  unfold sort_moved_entry. rewrite length_zip_with, std_sort_length, length_fmap.
  unfold moves. rewrite length_imap. lia.
Qed.

Lemma sort_moves_inv c (es : list vs_entry_t) (x : moved_entry_t) :
  NoDup (ve_key <$> es) -> x ∈ sort_moved_entry (moves c es) ->
  exists j e, std_sort ve_key es !! j = Some e /\ (j < length es)%nat /\
    me_at_entry x = ve_at_entry e /\ me_chunk_offset x = c /\ me_entry_offset x = Z.of_nat j.
Proof.
  intros Hnd Hx. apply list_elem_of_lookup in Hx as [j Hj].
  assert (j < length es)%nat as Hlt.
  { apply lookup_lt_Some in Hj. by rewrite length_sort_moves in Hj. }
  destruct (lookup_lt_is_Some_2 (std_sort ve_key es) j) as [e He].
  { by rewrite std_sort_length. }
  destruct (sort_moves_lookup c es j e Hnd He) as [k Hk].
  exists j, e. rewrite Hk in Hj. injection Hj as <-. done.
Qed.

Lemma sort_moves_ats c (es : list vs_entry_t) : NoDup (ve_key <$> es) ->
  me_at_entry <$> sort_moved_entry (moves c es) = ve_at_entry <$> std_sort ve_key es.
Proof.
  intros Hnd. apply list_eq. intros j. rewrite !list_lookup_fmap.
  destruct (std_sort ve_key es !! j) as [e|] eqn:Hj.
  - destruct (sort_moves_lookup c es j e Hnd Hj) as [k ->]. done.
  - apply lookup_ge_None in Hj. rewrite std_sort_length in Hj.
    rewrite (proj2 (lookup_ge_None _ _)); [done|]. by rewrite length_sort_moves.
Qed.

Lemma valid_prefix_nonnull buf e : e ∈ valid_prefix buf -> ve_at_entry e <> 0.
Proof.
  induction buf as [|x buf IH]; simpl; [intros He; by apply elem_of_nil in He|].
  destruct (Z.eqb_spec (ve_at_entry x) 0); [intros He; by apply elem_of_nil in He|].
  intros He. apply elem_of_cons in He as [->|He]; auto.
Qed.

Lemma lookup_sort_w_buffer buf j e :
  std_sort ve_key (valid_prefix (take ENTRIES buf)) !! j = Some e ->
  sort_w_buffer buf !! j = Some e.
Proof.
  intros Hj. unfold sort_w_buffer. rewrite lookup_app_l; [done|]. by eapply lookup_lt_Some.
Qed.

(** The entries collected from a buffer fit in a chunk. *)
Lemma valid_prefix_fits buf : (length (valid_prefix (take ENTRIES buf)) <= ENTRIES)%nat.
Proof.
  pose proof (length_valid_prefix (take ENTRIES buf)) as Hl. rewrite length_take in Hl. lia.
Qed.

(** What holds of a chunk when it is written: it has been bound to a chunk of
    the file, its list of moves describes exactly the entries its buffer
    holds, with distinct keys and live, distinct address-table entries. *)
Record chunk_ready (m : memory) (w : w_chunk_t) (es : list vs_entry_t) : Prop := {
  cr_bound : wc_bound w = true;
  cr_chunk : chunk_in_range (wc_chunk_offset w);
  cr_buf : valid_prefix (take ENTRIES (w_buffer w)) = es;
  cr_moves : moved_entry_list w = moves (wc_chunk_offset w) es;
  cr_keys : NoDup (ve_key <$> es);
  cr_ats : NoDup (ve_at_entry <$> es);
  cr_live : Forall (fun e => is_Some (at_mem m !! ve_at_entry e)) es;
}.

Lemma ready_moves_ok m w es : chunk_ready m w es ->
  Forall (move_ok m) (sort_moved_entry (moved_entry_list w)) /\
  NoDup (me_at_entry <$> sort_moved_entry (moved_entry_list w)).
Proof.
  intros [Hb Hc Hbuf -> Hk Ha Hl]. split.
  - rewrite Forall_forall. intros x Hx.
    destruct (sort_moves_inv _ es x Hk Hx) as (j & e & Hj & Hlt & E1 & E2 & E3).
    assert (e ∈ es) as He.
    { rewrite <- (std_sort_perm ve_key es). by eapply list_elem_of_lookup_2. }
    unfold move_ok. rewrite E1, E2, E3. split; [done|]. split.
    { unfold entry_in_range. pose proof (valid_prefix_fits (w_buffer w)) as Hf.
      rewrite Hbuf in Hf. lia. }
    split; [|by eapply Forall_forall in Hl].
    rewrite <- Hbuf in He. by apply valid_prefix_nonnull in He.
  - rewrite sort_moves_ats by done. by rewrite std_sort_perm.
Qed.

(** The outcome of writing the entries [es] to chunk [c]: the storage [v] and
    memory [m] became [v'] and [m']. *)
Record chunk_linked (c : Z) (es : list vs_entry_t)
    (v : ValueStorage) (m : memory) (v' : ValueStorage) (m' : memory) : Prop := {
  (** an entry not updated meanwhile points at a valid slot that holds it *)
  cl_linked : forall e x, e ∈ es -> at_mem m !! ve_at_entry e = Some x -> superseded x = false ->
    exists j, entry_in_range j /\
      at_mem m' !! ve_at_entry e = Some (relinked (vs_self v) c j x) /\
      vs_disk v' !! (c * Z.of_nat ENTRIES + j) = Some e /\ valid_bit v' c j = true;
  (** an entry updated meanwhile and every other entry are untouched *)
  cl_superseded : forall e x, e ∈ es -> at_mem m !! ve_at_entry e = Some x ->
    superseded x = true -> at_mem m' !! ve_at_entry e = Some x;
  cl_frame : forall a, a ∉ ve_at_entry <$> es -> at_mem m' !! a = at_mem m !! a;
  cl_op : op_mem m' = op_mem m;
  cl_dc : dc_mem m' = dc_mem m;
  (** only the slots and the bits of the chunk change *)
  cl_disk : forall s, ~ (c * Z.of_nat ENTRIES <= s < (c + 1) * Z.of_nat ENTRIES) ->
    vs_disk v' !! s = vs_disk v !! s;
  cl_bits : forall c' j, 0 <= c' -> 0 <= j -> c' <> c -> valid_bit v' c' j = valid_bit v c' j;
  (** every new valid entry of the chunk is one that was linked *)
  cl_new : forall j, 0 <= j -> valid_bit v' c j = true -> valid_bit v c j = true \/
    exists e x, e ∈ es /\ at_mem m !! ve_at_entry e = Some x /\ superseded x = false /\
      at_mem m' !! ve_at_entry e = Some (relinked (vs_self v) c j x) /\
      vs_disk v' !! (c * Z.of_nat ENTRIES + j) = Some e;
  cl_self : vs_self v' = vs_self v;
  cl_free : free_chunk_list v' = free_chunk_list v;
  cl_gc : gc_w_chunk v' = gc_w_chunk v;
  cl_wf : bm_wf v';
}.

(** Linking the re-sorted moves in a storage [v1] to which the sorted chunk
    has been written. *)
Lemma write_sync_linked v v1 m w es : chunk_ready m w es -> bm_wf v ->
  vs_disk v1 = write_slots (vs_disk v) (wc_chunk_offset w * Z.of_nat ENTRIES)
    (sort_w_buffer (w_buffer w)) ->
  vs_self v1 = vs_self v -> vs_bitmap_info v1 = vs_bitmap_info v ->
  free_chunk_list v1 = free_chunk_list v -> gc_w_chunk v1 = gc_w_chunk v ->
  exists bm' m',
    sync_with_at v1 m (moved_entry_list w) = Ok (set_bitmap bm' v1, m') /\
    chunk_linked (wc_chunk_offset w) es v m (set_bitmap bm' v1) m'.
Proof.
  intros Hr Hwf Hd Hse Hbm Hfree Hgc. destruct (ready_moves_ok m w es Hr) as [Hok Hnd].
  assert (bm_wf v1) as Hwf1 by (destruct Hwf; split; by rewrite Hbm).
  assert (forall c j, valid_bit v1 c j = valid_bit v c j) as Hvb by (intros; unfold valid_bit; by rewrite Hbm).
  destruct (link_all_spec _ v1 m Hwf1 Hok Hnd) as (bm' & m' & Hl & Hwf' & Hop & Hdc & Hout & Hin & Hbit).
  destruct Hr as [Hb Hc Hbuf Hm Hk Ha Hlive]. rewrite Hm in *. set (c := wc_chunk_offset w) in *.
  assert (forall e, e ∈ es -> exists j, std_sort ve_key es !! j = Some e /\ (j < length es)%nat)
    as Hpos.
  { intros e He. rewrite <- (std_sort_perm ve_key es) in He.
    apply list_elem_of_lookup in He as [j Hj]. exists j. split; [done|].
    apply lookup_lt_Some in Hj. by rewrite std_sort_length in Hj. }
  assert (length es <= ENTRIES)%nat as Hfit by (rewrite <- Hbuf; apply valid_prefix_fits).
  assert (forall e, e ∈ es -> forall x, at_mem m !! ve_at_entry e = Some x ->
     exists j, std_sort ve_key es !! j = Some e /\ (j < length es)%nat /\
       at_mem m' !! ve_at_entry e = Some (if superseded x then x else
         relinked (vs_self v) c (Z.of_nat j) x) /\
       (superseded x = false -> valid_bit (set_bitmap bm' v1) c (Z.of_nat j) = true)) as Hent.
  { intros e He x Hx. destruct (Hpos e He) as (j & Hj & Hlt). exists j. do 2 (split; [done|]).
    destruct (sort_moves_lookup c es j e Hk Hj) as [k Hmv]. apply list_elem_of_lookup_2 in Hmv.
    split; [rewrite <- Hse; exact (Hin _ x Hmv Hx)|]. intros Hs. apply Hbit; [apply Hc|lia|].
    right. eexists _, x. split; [exact Hmv|]. done. }
  assert (forall j e, std_sort ve_key es !! j = Some e -> (j < length es)%nat ->
    write_slots (vs_disk v) (c * Z.of_nat ENTRIES) (sort_w_buffer (w_buffer w)) !!
      (c * Z.of_nat ENTRIES + Z.of_nat j) = Some e) as Hwr.
  { intros j e Hj Hlt. rewrite lookup_write_slots, length_sort_w_buffer, bool_decide_true by lia.
    replace (Z.to_nat _) with j by lia. apply lookup_sort_w_buffer. by rewrite Hbuf. }
  exists bm', m'. split; [exact Hl|]. split; cbn; try done.
  - intros e x He Hx Hs. destruct (Hent e He x Hx) as (j & Hj & Hlt & Hat & Hv).
    rewrite Hs in Hat. exists (Z.of_nat j). split; [unfold entry_in_range; lia|].
    split; [done|]. split; [|by apply Hv]. rewrite Hd. by apply Hwr.
  - intros e x He Hx Hs. destruct (Hent e He x Hx) as (j & _ & _ & Hat & _). by rewrite Hs in Hat.
  - intros a Hna. apply Hout. rewrite sort_moves_ats by done. by rewrite std_sort_perm.
  - intros s Hs. by rewrite Hd, lookup_write_slots, length_sort_w_buffer, bool_decide_false by lia.
  - intros c' j Hc' Hj Hne. apply Bool.eq_iff_eq_true. etransitivity; [by apply (Hbit c' j)|].
    rewrite Hvb. split; [|by left]. intros [?|(e & x & He & _ & _ & -> & _)]; [done|].
    destruct (sort_moves_inv c es e Hk He) as (? & ? & _ & _ & _ & E & _). by rewrite E in Hne.
  - intros j Hj Hv. apply Hbit in Hv as [Hv|(x & y & Hx & Hy & Hs & Ec & Ej)]; [|right|apply Hc|done].
    { left. by rewrite <- Hvb. }
    destruct (sort_moves_inv c es x Hk Hx) as (i & e & Hi & Hlt & Ea & _ & Eo). rewrite Ea in Hy.
    assert (e ∈ es) as He by (rewrite <- (std_sort_perm ve_key es); by eapply list_elem_of_lookup_2).
    exists e, y. do 3 (split; [done|]). rewrite Ej, Eo, Hd. split; [|by apply Hwr].
    destruct (Hent e He y Hy) as (i' & Hi' & _ & Hat & _). rewrite Hs in Hat.
    destruct (sort_moves_lookup c es i e Hk Hi) as [k Hmv]. apply list_elem_of_lookup_2 in Hmv.
    pose proof (Hin _ y Hmv Hy) as Hat'. cbn in Hat'. by rewrite Hs, Hse in Hat'.
Qed.

(** A storage after [flush_chunk]: chunk [oplog_id] has been written with its
    list of moves cleared; [chunk_linked] describes the rest. *)
Definition flushed (v v' : ValueStorage) (oplog_id : nat) (w : w_chunk_t) : Prop :=
  w_chunk v' = <[oplog_id := WChunk (wc_id w) (wc_chunk_offset w) (wc_entry_offset w) true
    (sort_w_buffer (w_buffer w)) (sort_w_buffer (w_buffer w)) []]> (w_chunk v).

Lemma flush_chunk_spec v m oplog_id w es :
  w_chunk v !! oplog_id = Some w -> chunk_ready m w es -> bm_wf v ->
  exists v' m', flush_chunk v m oplog_id = Ok (v', m') /\
    chunk_linked (wc_chunk_offset w) es v m v' m' /\ flushed v v' oplog_id w.
Proof.
  intros Hw Hr Hwf. unfold flush_chunk, get_w_chunk. rewrite Hw.
  cbn [of_option mbind res_bind]. rewrite write_chunk_spec by apply Hr. cbn [mbind res_bind].
  change (moved_entry_list (written w)) with (moved_entry_list w).
  destruct (write_sync_linked v (put_w_chunk (set_disk (write_slots (vs_disk v)
    (wc_chunk_offset w * Z.of_nat ENTRIES) (sort_w_buffer (w_buffer w)))
    (to_u64 (total_vs_write_count v + 1)) v) oplog_id (written w)) m w es Hr Hwf)
    as (bm' & m' & -> & Hl); [done..|].
  cbn. eexists _, m'. split; [done|]. split.
  - destruct Hl as [? ? ? ? ? ? ? ? ? ? ? [? ?]]. split; [assumption..|by split].
  - unfold flushed. cbn. by rewrite list_insert_insert_eq.
Qed.

(** C22. Writing a chunk.  [flush_chunk] on a chunk whose buffer holds exactly
    the entries its list of moves describes (a buffer with entries of an earlier
    chunk behind them is not such a chunk, [stale_buffer_wrong_value]) always
    returns, and then every
    address-table entry the chunk covers either was updated meanwhile and is
    untouched, or points at a slot, marked valid, which holds that entry's
    own key and value on disk; no other address-table entry, no other slot
    and no other chunk's bits change.  The disk order is by key while the
    moves are in arrival order: the theorem says the two sorts agree. *)
Theorem flush_chunk_links v m oplog_id w es :
  w_chunk v !! oplog_id = Some w -> chunk_ready m w es -> bm_wf v ->
  exists v' m', flush_chunk v m oplog_id = Ok (v', m') /\
    chunk_linked (wc_chunk_offset w) es v m v' m'.
Proof.
  intros Hw Hr Hwf. destruct (flush_chunk_spec v m oplog_id w es Hw Hr Hwf) as (v' & m' & ? & ? & _).
  eauto.
Qed.

(** * Filling a chunk *)

(** A chunk in which [put_vs_entry] has placed the entries [es]. *)
Record chunk_filling (m : memory) (w : w_chunk_t) (es : list vs_entry_t) : Prop := {
  cf_bound : wc_bound w = true;
  cf_chunk : chunk_in_range (wc_chunk_offset w);
  cf_offset : wc_entry_offset w = length es;
  cf_length : length (w_buffer w) = ENTRIES;
  cf_buf : take (length es) (w_buffer w) = es;
  cf_moves : moved_entry_list w = moves (wc_chunk_offset w) es;
  cf_keys : NoDup (ve_key <$> es);
  cf_ats : NoDup (ve_at_entry <$> es);
  cf_live : Forall (fun e => ve_at_entry e <> 0 /\ is_Some (at_mem m !! ve_at_entry e)) es;
}.

Lemma valid_prefix_all es : Forall (fun e => ve_at_entry e <> 0) es ->
  valid_prefix es = es.
Proof.
  induction 1 as [|e es He _ IH]; simpl; [done|].
  rewrite (proj2 (Z.eqb_neq _ _) He). by rewrite IH.
Qed.

Lemma valid_prefix_app es e rest : Forall (fun e => ve_at_entry e <> 0) es ->
  ve_at_entry e = 0 -> valid_prefix (es ++ e :: rest) = es.
Proof.
  intros Hes He. induction Hes as [|x es Hx _ IH]; simpl.
  - by rewrite He.
  - rewrite (proj2 (Z.eqb_neq _ _) Hx). by rewrite IH.
Qed.

(** When a filled chunk can be written: it is full, or the slot after its
    last entry is clear. *)
Definition buffer_clear_at (w : w_chunk_t) (n : nat) : Prop :=
  n = ENTRIES \/ ve_at_entry <$> w_buffer w !! n = Some 0.

Lemma filling_ready m w es : chunk_filling m w es -> buffer_clear_at w (length es) ->
  chunk_ready m w es.
Proof.
  intros [Hb Hc Ho Hl Hbuf Hm Hk Ha Hlive] Hclr.
  assert (Forall (fun e => ve_at_entry e <> 0) es) as Hnn
    by (eapply Forall_impl; [exact Hlive|]; naive_solver).
  split; try done.
  - rewrite take_ge by lia. destruct Hclr as [Hfull|Hz].
    + rewrite Hfull, take_ge in Hbuf by lia. rewrite Hbuf. by apply valid_prefix_all.
    + destruct (w_buffer w !! length es) as [z|] eqn:Hzz; [|done]. injection Hz as Hz.
      rewrite <- (take_drop_middle _ _ _ Hzz), Hbuf. by apply valid_prefix_app.
  - eapply Forall_impl; [exact Hlive|]. naive_solver.
Qed.

Lemma moves_snoc c es e :
  moves c (es ++ [e]) = moves c es ++ [MovedEntry (ve_key e) (ve_at_entry e) c
    (Z.of_nat (length es)) INSERT].
Proof. unfold moves. rewrite imap_app. cbn. by rewrite Nat.add_0_r. Qed.

Lemma alloc_spec m key val a x : a <> 0 -> at_mem m !! a = Some x ->
  alloc m key val a = Ok (VsEntry a key val, upd_at m a (set_vs_offset PRE_VALUESTORAGE_VAL x)).
Proof. intros Ha Hx. unfold alloc. by rewrite (store_at_some _ _ _ _ Ha Hx). Qed.

(** One more entry in a chunk that has room. *)
Lemma buffer_entry_fills v m oplog_id w es key val a x :
  w_chunk v !! oplog_id = Some w -> chunk_filling m w es -> (length es < ENTRIES)%nat ->
  a <> 0 -> at_mem m !! a = Some x -> key ∉ ve_key <$> es -> a ∉ ve_at_entry <$> es ->
  exists w', buffer_entry v m oplog_id key val a =
      Ok (put_w_chunk v oplog_id w', upd_at m a (set_vs_offset PRE_VALUESTORAGE_VAL x)) /\
    wc_chunk_offset w' = wc_chunk_offset w /\
    (forall n, (length es < n)%nat -> w_buffer w' !! n = w_buffer w !! n) /\
    chunk_filling (upd_at m a (set_vs_offset PRE_VALUESTORAGE_VAL x)) w' (es ++ [VsEntry a key val]).
Proof.
  intros Hw [Hb Hc Ho Hl Hbuf Hm Hk Hats Hlive] Hroom Ha Hx Hkey Hat.
  unfold buffer_entry. rewrite (alloc_spec _ _ _ _ _ Ha Hx). cbn [mbind res_bind].
  unfold get_w_chunk. rewrite Hw. cbn [mbind res_bind of_option]. rewrite Hb. cbn [negb].
  eexists. split; [done|]. split; [done|]. cbn [w_buffer]. rewrite Ho. split.
  { intros n Hn. by rewrite list_lookup_insert_ne by lia. }
  split; cbn; try done.
  - rewrite length_app. cbn. lia.
  - by rewrite length_insert.
  - rewrite length_app. cbn. rewrite Nat.add_1_r, (take_S_r _ _ (VsEntry a key val)).
    + rewrite take_insert_ge by lia. by rewrite Hbuf.
    + by rewrite list_lookup_insert_eq by lia.
  - unfold add_moved_entry. by rewrite moves_snoc, Hm.
  - by apply NoDup_fmap_snoc.
  - by apply NoDup_fmap_snoc.
  - apply Forall_app. split.
    + eapply Forall_impl; [exact Hlive|]. intros e [? He]. split; [done|].
      destruct (decide (ve_at_entry e = a)) as [->|].
      * by rewrite lookup_insert_eq.
      * by rewrite lookup_insert_ne.
    + constructor; [|constructor]. cbn. split; [done|]. by rewrite lookup_insert_eq.
Qed.
End chunk_write.
