(* ===== verification/ChunkAlloc.v ===== *)
(** Ownership of chunks ([ValueStorage.cpp]: [get_free_chunk_offset],
    [add_free_chunk_list], [unlink_to_at], [clear_vs_bitmap_info],
    [init_w_chunk], [put_vs_entry], [forced_write_chunk]).

    A chunk is on the free list, held by a writer that fills it, or on disk
    with valid entries.  [chunks_inv v held] says that the free list and the
    chunks [held] by writers are distinct chunks of the file without valid
    entries.  Every operation of the storage keeps it: no chunk is handed to
    two writers, none that holds a valid entry is handed out, and a chunk
    returns to the list exactly when its last valid entry is cleared. *)

From S2P Require Import Prelude Config TaggedPtr Objects IoUring ValueStorage ChunkWrite.

Local Open Scope Z_scope.

Section chunk_alloc.
Context `{Config} `{IoUring} `{StdSort}.
Context `{!WfConfig _} `{!IoUringOk _}.

Abbreviation ENTRIES := MTS_VS_ENTRIES_PER_CHUNK.

(** * Counting valid entries *)

Definition empty_chunk (v : ValueStorage) (c : Z) : Prop :=
  forall j, 0 <= j -> valid_bit v c j = false.

Lemma count_zero (b : list bool) : count b = 0 <-> forall i, b !! i <> Some true.
Proof.
  unfold count. split.
  - intros Hz i Hi. assert (true ∈ filter (fun x => x = true) b) as Hin.
    { apply list_elem_of_filter. split; [done|]. by eapply list_elem_of_lookup_2. }
    destruct (filter _ b); [by apply elem_of_nil in Hin|]. cbn in Hz. lia.
  - intros Hall. destruct (filter (fun x => x = true) b) as [|y l] eqn:E; [done|].
    assert (y ∈ filter (fun x => x = true) b) as Hin by (rewrite E; left).
    apply list_elem_of_filter in Hin as [-> Hin].
    apply list_elem_of_lookup in Hin as [i Hi]. by apply Hall in Hi.
Qed.

Lemma count_nonzero (b : list bool) : count b <> 0 -> exists i, b !! i = Some true.
Proof.
  intros Hn. unfold count in Hn. destruct (filter (fun x => x = true) b) as [|y l] eqn:E; [done|].
  assert (y ∈ filter (fun x => x = true) b) as Hin by (rewrite E; left).
  apply list_elem_of_filter in Hin as [-> Hin]. by apply list_elem_of_lookup in Hin.
Qed.

Lemma count_zero_empty v c b : vs_bitmap_info v !! Z.to_nat c = Some b ->
  count b = 0 <-> empty_chunk v c.
Proof.
  intros Hb. rewrite count_zero. unfold empty_chunk, valid_bit. rewrite Hb. cbn. split.
  - intros Hall j _. specialize (Hall (Z.to_nat j)). destruct (b !! Z.to_nat j) as [[]|]; done.
  - intros Hall i Hi. specialize (Hall (Z.of_nat i) ltac:(lia)). rewrite Nat2Z.id, Hi in Hall. done.
Qed.

Lemma is_empty_spec v c : bm_wf v -> chunk_in_range c ->
  exists r, is_empty v c = Ok r /\ (r = true <-> empty_chunk v c).
Proof.
  intros Hwf Hc. destruct (bitmap_at_ok v c Hwf Hc) as (b & Hat & Hb & _).
  unfold is_empty. rewrite Hat. cbn. eexists. split; [done|].
  rewrite Z.eqb_eq. by apply count_zero_empty.
Qed.

(** * The invariant *)

Record chunks_inv (v : ValueStorage) (held : list Z) : Prop := {
  ci_bm : bm_wf v;
  ci_nodup : NoDup (free_chunk_list v ++ held);
  ci_range : Forall chunk_in_range (free_chunk_list v ++ held);
  ci_empty : Forall (empty_chunk v) (free_chunk_list v ++ held);
}.

(** The head of the free list is taken: under the invariant the loop that
    skips chunks with valid entries never skips. *)
Lemma get_free_chunk_spec v held c l : chunks_inv v held -> free_chunk_list v = c :: l ->
  get_free_chunk_offset v = Ok (c, set_free_chunk_list l v) /\
  chunks_inv (set_free_chunk_list l v) (c :: held).
Proof.
  intros [Hwf Hnd Hr He] Hf. rewrite Hf in Hnd, Hr, He. cbn in Hnd, Hr, He.
  pose proof (Forall_inv Hr) as Hc. pose proof (Forall_inv He) as Hec.
  destruct (is_empty_spec v c Hwf Hc) as (r & Hie & Hr').
  split.
  - unfold get_free_chunk_offset. rewrite Hf. cbn [first_empty]. rewrite Hie. cbn.
    rewrite (proj2 Hr' Hec). cbn. pose proof chunk_num_int. unfold chunk_in_range in Hc.
    rewrite to_u_id by lia. rewrite (proj2 (Z.ltb_lt c _)) by lia. cbn.
    by rewrite (proj2 (Z.ltb_lt (-1) _)) by lia.
  - assert (free_chunk_list v ++ held ≡ₚ l ++ c :: held) as Hp
      by (rewrite Hf; cbn; apply Permutation_middle).
    rewrite Hf in Hp. cbn in Hp. split; cbn.
    + by destruct Hwf.
    + by rewrite <- Hp.
    + by rewrite <- Hp.
    + rewrite <- Hp. eapply Forall_impl; [exact He|]. done.
Qed.

(** Writing entries into a held chunk releases it. *)
Lemma chunks_inv_release v v' held c :
  chunks_inv v (c :: held) -> bm_wf v' -> free_chunk_list v' = free_chunk_list v ->
  (forall c' j, 0 <= c' -> 0 <= j -> c' <> c -> valid_bit v' c' j = valid_bit v c' j) ->
  chunks_inv v' held.
Proof.
  intros [Hwf Hnd Hr He] Hwf' Hf Hbit.
  assert (free_chunk_list v ++ c :: held ≡ₚ c :: (free_chunk_list v ++ held)) as Hp
    by (symmetry; apply Permutation_middle).
  rewrite Hp in Hnd, Hr, He. apply NoDup_cons in Hnd as [Hni Hnd].
  apply Forall_cons in Hr as [Hrc Hr]. apply Forall_cons in He as [Hec He].
  split; rewrite ?Hf; try done.
  rewrite Forall_forall in *. intros c' Hc' j Hj.
  rewrite Hbit; [by apply He|apply (Hr c' Hc')|done|congruence].
Qed.

(** Marking an entry of a chunk nobody else owns. *)
Lemma set_bit_inv v held c j :
  chunks_inv v held -> chunk_in_range c -> entry_in_range j -> c ∉ free_chunk_list v ++ held ->
  exists bm', set_vs_bitmap_info v c j = Ok (set_bitmap bm' v) /\
    chunks_inv (set_bitmap bm' v) held /\
    (forall c' j', 0 <= c' -> 0 <= j' -> valid_bit (set_bitmap bm' v) c' j' =
       valid_bit v c' j' || bool_decide (c' = c /\ j' = j)).
Proof.
  intros [Hwf Hnd Hr He] Hc Hj Hni.
  destruct (set_vs_bitmap_ok v c j Hwf Hc Hj) as (b & Hb & Hlen & Hset).
  assert (forall c' j', 0 <= c' -> 0 <= j' ->
    valid_bit (put_bitmap v c (<[Z.to_nat j := true]> b)) c' j' =
    valid_bit v c' j' || bool_decide (c' = c /\ j' = j)) as Hbits.
  { intros c' j' ? ?. rewrite (valid_bit_put v c j true b) by done.
    case_bool_decide; [by rewrite orb_true_r|by rewrite orb_false_r]. }
  exists (<[Z.to_nat c := <[Z.to_nat j := true]> b]> (vs_bitmap_info v)).
  split; [exact Hset|]. split; [|exact Hbits].
  split; [apply bm_wf_put; [done|by rewrite length_insert]|done|done|].
  cbn. rewrite Forall_forall in *. intros c' Hc' j' Hj'.
  etransitivity; [apply Hbits; [apply (Hr c' Hc')|done]|].
  rewrite (He c' Hc' j' Hj'), bool_decide_false; [done|]. intros [-> _]. done.
Qed.

(** Clearing one entry. *)
Lemma unlink_to_at_spec v held c j :
  chunks_inv v held -> chunk_in_range c -> entry_in_range j ->
  exists bm' l', unlink_to_at v c j = Ok (set_free_chunk_list l' (set_bitmap bm' v)) /\
    chunks_inv (set_free_chunk_list l' (set_bitmap bm' v)) held /\
    (forall c' j', 0 <= c' -> 0 <= j' ->
       valid_bit (set_free_chunk_list l' (set_bitmap bm' v)) c' j' =
       valid_bit v c' j' && negb (bool_decide (c' = c /\ j' = j))) /\
    (l' = free_chunk_list v /\ (valid_bit v c j = true ->
       exists j', 0 <= j' /\ valid_bit (set_free_chunk_list l' (set_bitmap bm' v)) c j' = true) \/
     l' = free_chunk_list v ++ [c] /\ valid_bit v c j = true /\
     empty_chunk (set_free_chunk_list l' (set_bitmap bm' v)) c).
Proof.
  intros [Hwf Hnd Hr He] Hc Hj. destruct (bitmap_at_ok v c Hwf Hc) as (b & Hat & Hb & Hlen).
  pose proof Hc as Hc0. pose proof Hj as Hj0. unfold chunk_in_range, entry_in_range in Hc0, Hj0.
  destruct (lookup_lt_is_Some_2 b (Z.to_nat j)) as [y Hy]; [lia|].
  unfold unlink_to_at. rewrite Hat. cbn. unfold bit_test.
  rewrite (proj2 (Z.ltb_ge j 0)) by lia. rewrite Hy. cbn.
  assert (valid_bit v c j = y) as Hvb by (unfold valid_bit; rewrite Hb; cbn; by rewrite Hy).
  destruct y; cbn [negb].
  2: { exists (vs_bitmap_info v), (free_chunk_list v). destruct v; cbn in *.
    split; [done|]. split; [by split|].
    split; [|left; split; [done|by rewrite Hvb]]. intros c' j' _ _.
    case_bool_decide as E; cbn; [|by rewrite andb_true_r].
    destruct E as [-> ->]. rewrite andb_false_r. exact Hvb. }
  unfold clear_vs_bitmap_info. rewrite Hat. cbn. rewrite bit_write_ok by done. cbn.
  set (b' := <[Z.to_nat j := false]> b). set (bm' := <[Z.to_nat c := b']> (vs_bitmap_info v)).
  assert (forall c' j', 0 <= c' -> 0 <= j' -> forall l', valid_bit (set_free_chunk_list l'
    (set_bitmap bm' v)) c' j' = valid_bit v c' j' && negb (bool_decide (c' = c /\ j' = j))) as Hbits.
  { intros c' j' ? ? l'. etransitivity; [by apply (valid_bit_put v c j false b c' j')|].
    case_bool_decide; cbn; [by rewrite andb_false_r|by rewrite andb_true_r]. }
  assert (forall l', bm_wf (set_free_chunk_list l' (set_bitmap bm' v))) as Hwf'.
  { intros l'. destruct (bm_wf_put v c b' Hwf) as [? ?]; [by unfold b'; rewrite length_insert|].
    by split. }
  assert (forall l', Forall (empty_chunk (set_free_chunk_list l' (set_bitmap bm' v)))
    (free_chunk_list v ++ held)) as He'.
  { intros l'. rewrite Forall_forall in *. intros c' Hc' j' Hj'.
    rewrite Hbits by (done || apply (Hr c' Hc')). by rewrite (He c' Hc' j' Hj'). }
  assert (c ∉ free_chunk_list v ++ held) as Hni.
  { intros Hin. rewrite Forall_forall in He. specialize (He c Hin j ltac:(lia)). congruence. }
  destruct (Z.eqb_spec (count b') 0) as [Hz|Hz].
  - assert (forall l', empty_chunk (set_free_chunk_list l' (set_bitmap bm' v)) c) as Hec.
    { intros l'. apply (count_zero_empty _ _ b'); [|done]. cbn. unfold bm'.
      apply list_lookup_insert_eq. by eapply lookup_lt_Some. }
    exists bm', (free_chunk_list v ++ [c]). split; [by destruct v|].
    assert ((free_chunk_list v ++ [c]) ++ held ≡ₚ c :: (free_chunk_list v ++ held)) as Hp.
    { rewrite <- app_assoc. cbn. symmetry. apply Permutation_middle. }
    split; [split; cbn; [apply Hwf'|rewrite Hp; by constructor|rewrite Hp; by constructor|]|].
    { rewrite Hp. constructor; [apply Hec|apply He']. }
    split; [intros; by apply Hbits|]. right. split; [done|]. split; [done|apply Hec].
  - exists bm', (free_chunk_list v). split; [by destruct v|].
    split; [by split; [apply Hwf'|..]|]. split; [intros; by apply Hbits|left]. split; [done|].
    intros _. destruct (count_nonzero b' Hz) as [i Hi]. exists (Z.of_nat i). split; [lia|].
    unfold valid_bit. cbn. unfold bm'. rewrite list_lookup_insert_eq by (by eapply lookup_lt_Some).
    cbn. by rewrite Nat2Z.id, Hi.
Qed.
End chunk_alloc.
