(* ===== verification/GarbageCollection.v ===== *)
(** Garbage collection of a value storage ([ValueStorage.cpp]:
    [garbage_collection], [gc_sync_with_at], [gc_link_to_at],
    [read_gc_r_chunk], [write_gc_w_chunk]).

    The collector copies the valid entries of the chunks with the fewest valid
    entries into fresh chunks, points the address table at the copies and
    clears the old places.  [entry_of_at v m a] is the entry the storage holds
    for address-table entry [a]; the theorems say that a collection always
    returns, changes it for no [a], keeps the ownership of chunks and never
    ends with fewer free chunks than it started with. *)

From S2P Require Import Prelude Config TaggedPtr Objects IoUring ValueStorage ChunkWrite.
From S2P Require Import ChunkAlloc.

Local Open Scope Z_scope.

Section garbage_collection.
Context `{Config} `{IoUring} `{StdSort}.
Context `{!WfConfig _} `{!IoUringOk _}.

Abbreviation ENTRIES := MTS_VS_ENTRIES_PER_CHUNK.

(** * What a storage holds *)

Definition slot (c j : Z) : Z := c * Z.of_nat ENTRIES + j.

(** Address-table entry [a] points at slot [s] of storage [v]. *)
Definition points_to (v : ValueStorage) (m : memory) (a s : Z) : Prop :=
  exists x, at_mem m !! a = Some x /\ vs_idx x = VsIdx (vs_self v) s.

(** The storage holds entry [e], at chunk [c] and position [j]. *)
Definition holds (v : ValueStorage) (c j : Z) (e : vs_entry_t) : Prop :=
  chunk_in_range c /\ entry_in_range j /\
  valid_bit v c j = true /\ vs_disk v !! slot c j = Some e.

(** Every valid slot belongs to an address-table entry that points at it, and
    keys and address-table entries of valid slots correspond. *)
Record linked_inv (v : ValueStorage) (m : memory) : Prop := {
  li_valid : forall c j, chunk_in_range c -> entry_in_range j -> valid_bit v c j = true ->
    exists e, vs_disk v !! slot c j = Some e /\ ve_at_entry e <> 0 /\
      points_to v m (ve_at_entry e) (slot c j);
  li_keys : forall c j c' j' e e', holds v c j e -> holds v c' j' e' ->
    ve_key e = ve_key e' -> ve_at_entry e = ve_at_entry e';
}.

(** The entry the storage holds for [a]: [a] points at a valid slot whose
    entry points back. *)
Definition entry_of_at (v : ValueStorage) (m : memory) (a : Z) (e : vs_entry_t) : Prop :=
  ve_at_entry e = a /\ exists c j, holds v c j e /\ points_to v m a (slot c j).

Lemma slot_inj c j c' j' : entry_in_range j -> entry_in_range j' ->
  slot c j = slot c' j' -> c = c' /\ j = j'.
Proof.
  unfold entry_in_range, slot. intros Hj Hj' E.
  assert ((c - c') * Z.of_nat ENTRIES = j' - j) as Ed by lia.
  assert (c - c' = 0) as Ez by nia. split; [lia|]. rewrite Ez in Ed. lia.
Qed.

Lemma holds_fun v c j e e' : holds v c j e -> holds v c j e' -> e = e'.
Proof. intros (_ & _ & _ & ?) (_ & _ & _ & ?). congruence. Qed.

(** Two valid slots with the same address-table entry are the same slot. *)
Lemma holds_at_inj v m c j c' j' e e' : linked_inv v m ->
  holds v c j e -> holds v c' j' e' -> ve_at_entry e = ve_at_entry e' -> c = c' /\ j = j'.
Proof.
  intros [Hl _] (Hc & Hj & Hv & Hd) (Hc' & Hj' & Hv' & Hd') E.
  destruct (Hl c j Hc Hj Hv) as (e1 & Hd1 & _ & x & Hx & Hp).
  destruct (Hl c' j' Hc' Hj' Hv') as (e2 & Hd2 & _ & x' & Hx' & Hp').
  assert (e1 = e) as -> by congruence. assert (e2 = e') as -> by congruence.
  rewrite E in Hx. rewrite Hx in Hx'. injection Hx' as <-. rewrite Hp in Hp'.
  injection Hp' as Hs. by apply slot_inj in Hs.
Qed.

(** A valid slot's entry is the entry of its address-table entry. *)
Lemma holds_entry_of_at v m c j e : linked_inv v m -> holds v c j e ->
  entry_of_at v m (ve_at_entry e) e.
Proof.
  intros [Hl _] Hh. pose proof Hh as (Hc & Hj & Hv & Hd). split; [done|]. exists c, j.
  split; [done|]. destruct (Hl c j Hc Hj Hv) as (e1 & Hd1 & _ & Hp). congruence.
Qed.

(** * The list of moves of a collection *)

(** An entry waiting in the collector's buffer, with the place it comes from. *)
Record pending := Pending { pd_entry : vs_entry_t; pd_chunk : Z; pd_index : Z }.

Fixpoint gc_moves (c : Z) (k : nat) (ps : list pending) : list moved_entry_t :=
  match ps with
  | [] => []
  | p :: ps' =>
      MovedEntry (ve_key (pd_entry p)) (ve_at_entry (pd_entry p)) c (Z.of_nat k) INSERT ::
      MovedEntry (ve_key (pd_entry p)) (ve_at_entry (pd_entry p)) (pd_chunk p) (pd_index p) REMOVE ::
      gc_moves c (S k) ps'
  end.

(** The same list once its [at_entry] column has been replaced by that of [ss]. *)
Fixpoint gc_rows (c : Z) (k : nat) (ps : list pending) (ss : list vs_entry_t)
  : list moved_entry_t :=
  match ps, ss with
  | p :: ps', s :: ss' =>
      MovedEntry (ve_key (pd_entry p)) (ve_at_entry s) c (Z.of_nat k) INSERT ::
      MovedEntry (ve_key (pd_entry p)) (ve_at_entry s) (pd_chunk p) (pd_index p) REMOVE ::
      gc_rows c (S k) ps' ss'
  | _, _ => []
  end.

Definition key_at (e : vs_entry_t) : Z * Z := (ve_key e, ve_at_entry e).

Lemma gc_moves_snoc c k ps p : gc_moves c k (ps ++ [p]) =
  gc_moves c k ps ++ gc_moves c (k + length ps) [p].
Proof.
  revert k. induction ps as [|q ps IH]; intros k; simpl; [by rewrite Nat.add_0_r|].
  rewrite IH. simpl. by rewrite Nat.add_succ_r.
Qed.

Lemma gc_moves_pairs c k ps :
  (fun e => (me_key e, me_at_entry e)) <$> gc_moves c k ps = twice (key_at <$> (pd_entry <$> ps)).
Proof. revert k. induction ps as [|p ps IH]; intros k; simpl; [done|]. by rewrite IH. Qed.

Lemma zip_gc_rows c k ps ss :
  zip_with (fun e p => set_me_at_entry p.2 e) (gc_moves c k ps) (twice (key_at <$> ss)) =
  gc_rows c k ps ss.
Proof.
  revert k ss. induction ps as [|p ps IH]; intros k [|s ss]; simpl; [done..|].
  by rewrite IH.
Qed.

Lemma elem_of_twice {A} (x : A) l : x ∈ twice l <-> x ∈ l.
Proof.
  induction l as [|y l IH]; simpl; [done|]. rewrite !elem_of_cons, IH. naive_solver.
Qed.

(** The re-sorted list: sorting the doubled column keeps the doubles adjacent,
    so that row [2 k] carries the [k]-th entry of the sorted chunk. *)
Lemma sort_gc_moves c ps : NoDup (ve_key <$> (pd_entry <$> ps)) ->
  sort_moved_entry (gc_moves c 0 ps) = gc_rows c 0 ps (std_sort ve_key (pd_entry <$> ps)).
Proof.
  intros Hnd. unfold sort_moved_entry. rewrite gc_moves_pairs.
  set (es := pd_entry <$> ps) in *. rewrite std_sort_eq.
  - rewrite sort_by_twice, (sort_by_fmap key_at ve_key) by done.
    rewrite (std_sort_eq ve_key es) by (by apply nodup_key_inj). apply zip_gc_rows.
  - intros x y Hx Hy E. rewrite elem_of_twice in Hx. rewrite elem_of_twice in Hy.
    apply list_elem_of_fmap in Hx as (x' & -> & Hx'). apply list_elem_of_fmap in Hy as (y' & -> & Hy').
    cbn in E. by rewrite (nodup_key_inj _ _ Hnd x' y' Hx' Hy' E).
Qed.

(** * Reporting the moves *)

(** A place outside the target chunk [c]. *)
Definition victim_place (c : Z) (p : pending) : Prop :=
  chunk_in_range (pd_chunk p) /\ entry_in_range (pd_index p) /\ pd_chunk p <> c.

(** The address-table entry of [s] is in this storage. *)
Definition resident (self : Z) (m : memory) (s : vs_entry_t) : Prop :=
  ve_at_entry s <> 0 /\ exists x, at_mem m !! ve_at_entry s = Some x /\
    vs_id (vs_idx x) = self /\ 0 <= vs_offset (vs_idx x).

Lemma gc_link_to_at_spec v m held c j s x :
  chunks_inv v held -> chunk_in_range c -> entry_in_range j -> c ∉ free_chunk_list v ++ held ->
  resident (vs_self v) m s -> at_mem m !! ve_at_entry s = Some x ->
  exists bm', gc_link_to_at v m c j (ve_at_entry s) =
      Ok (set_bitmap bm' v, upd_at m (ve_at_entry s) (relinked (vs_self v) c j x)) /\
    chunks_inv (set_bitmap bm' v) held /\
    (forall c' j', 0 <= c' -> 0 <= j' -> valid_bit (set_bitmap bm' v) c' j' =
       valid_bit v c' j' || bool_decide (c' = c /\ j' = j)).
Proof.
  intros Hinv Hc Hj Hni (Ha & x' & Hx' & Hid & Hoff) Hx.
  assert (x' = x) as -> by congruence.
  destruct (set_bit_inv v held c j Hinv Hc Hj Hni) as (bm' & Hset & Hinv' & Hbits).
  exists bm'. split; [|done]. unfold gc_link_to_at. rewrite (load_at_some _ _ _ Ha Hx). cbn.
  unfold NEWLY_UPDATED_VAL, PRE_VALUESTORAGE_VAL.
  rewrite !(proj2 (Z.eqb_neq _ _)) by lia. rewrite Hid, Z.eqb_refl. cbn.
  pose proof chunk_num_int. pose proof entries_int. unfold chunk_in_range, entry_in_range in *.
  rewrite !to_u_id by lia. rewrite !(proj2 (Z.ltb_lt _ _)) by lia. cbn.
  rewrite (store_at_some _ _ _ _ Ha Hx). cbn. rewrite Hset. cbn.
  by rewrite mk_vs_offset_small by done.
Qed.

(** What reporting the moves of [ps] to target [c] from position [k] does. *)
Record moves_reported (c : Z) (k : nat) (held : list Z) (ps : list pending) (ss : list vs_entry_t)
    (v : ValueStorage) (m : memory) (v' : ValueStorage) (m' : memory) : Prop := {
  mr_inv : chunks_inv v' held;
  mr_target : c ∉ free_chunk_list v' ++ held;
  mr_op : op_mem m' = op_mem m;
  mr_dc : dc_mem m' = dc_mem m;
  mr_frame : forall a, a ∉ ve_at_entry <$> ss -> at_mem m' !! a = at_mem m !! a;
  mr_linked : forall i s x, ss !! i = Some s -> at_mem m !! ve_at_entry s = Some x ->
    at_mem m' !! ve_at_entry s = Some (relinked (vs_self v) c (Z.of_nat (k + i)) x);
  mr_bits : forall c' j', 0 <= c' -> 0 <= j' -> valid_bit v' c' j' = true <->
    (c' = c /\ Z.of_nat k <= j' < Z.of_nat (k + length ps)) \/
    (valid_bit v c' j' = true /\ forall p, p ∈ ps -> ~ (c' = pd_chunk p /\ j' = pd_index p));
  mr_free : forall c', c' ∈ free_chunk_list v -> c' ∈ free_chunk_list v';
  mr_emptied : forall p, p ∈ ps -> valid_bit v (pd_chunk p) (pd_index p) = true ->
    pd_chunk p ∈ free_chunk_list v' \/
    exists j, 0 <= j /\ valid_bit v' (pd_chunk p) j = true;
}.

(** One entry: link the copy, clear the old place. *)
Lemma gc_pair_spec v m held c k p s :
  chunks_inv v held -> chunk_in_range c -> (k < ENTRIES)%nat -> c ∉ free_chunk_list v ++ held ->
  resident (vs_self v) m s -> victim_place c p ->
  exists bm' l' m', gc_link_all v m (gc_rows c k [p] [s]) =
      Ok (set_free_chunk_list l' (set_bitmap bm' v), m') /\
    moves_reported c k held [p] [s] v m (set_free_chunk_list l' (set_bitmap bm' v)) m'.
Proof.
  intros Hinv Hc Hk Hni Hs (Hpc & Hpi & Hpne). pose proof Hs as (Ha & x & Hx & Hid & Hoff).
  assert (entry_in_range (Z.of_nat k)) as Hkr by (unfold entry_in_range; lia).
  destruct (gc_link_to_at_spec v m held c (Z.of_nat k) s x Hinv Hc Hkr Hni Hs Hx)
    as (bm1 & Hl1 & Hinv1 & Hb1).
  destruct (unlink_to_at_spec (set_bitmap bm1 v) held (pd_chunk p) (pd_index p) Hinv1 Hpc Hpi)
    as (bm2 & l2 & Hu2 & Hinv2 & Hb2 & Hfree2).
  change (set_free_chunk_list l2 (set_bitmap bm2 (set_bitmap bm1 v)))
    with (set_free_chunk_list l2 (set_bitmap bm2 v)) in *.
  exists bm2, l2, (upd_at m (ve_at_entry s) (relinked (vs_self v) c (Z.of_nat k) x)). split.
  { cbn [gc_rows gc_link_all me_op_type me_chunk_offset me_entry_offset me_at_entry].
    rewrite Hl1. cbn [mbind res_bind]. rewrite Hu2. done. }
  split; try done.
  - cbn. rewrite elem_of_app in *. destruct Hfree2 as [[-> _]|[-> _]]; [done|]. cbn.
    rewrite elem_of_app, list_elem_of_singleton. naive_solver.
  - intros a Hna. cbn. apply not_elem_of_cons in Hna as [Hna _]. by rewrite lookup_insert_ne.
  - intros [|i] s' x' Hi Hx'; [|done]. injection Hi as <-. cbn. rewrite lookup_insert_eq.
    rewrite Nat.add_0_r. congruence.
  - intros c' j' Hc' Hj'. rewrite (Hb2 c' j' Hc' Hj'), (Hb1 c' j' Hc' Hj').
    rewrite andb_true_iff, orb_true_iff, negb_true_iff, bool_decide_eq_true, bool_decide_eq_false.
    cbn [length]. split.
    + intros [[?|[-> ->]] Hn]; [right|left; split; [done|lia]]. split; [done|].
      intros q Hq. apply list_elem_of_singleton in Hq as ->. done.
    + intros [[-> ?]|[? Hn]].
      * assert (j' = Z.of_nat k) as -> by lia. split; [by right|]. naive_solver.
      * split; [by left|]. apply Hn. left.
  - intros c' Hc'. cbn. destruct Hfree2 as [[-> _]|[-> _]]; [done|]. apply elem_of_app. by left.
  - intros q Hq Hv. apply list_elem_of_singleton in Hq as ->.
    assert (valid_bit (set_bitmap bm1 v) (pd_chunk p) (pd_index p) = true) as Hv1.
    { rewrite Hb1 by (apply Hpc || apply Hpi). by rewrite Hv. }
    destruct Hfree2 as [[_ Hex]|(-> & _)].
    + right. by apply Hex.
    + left. cbn. apply elem_of_app. right. left.
Qed.

Lemma moves_reported_cons c k held p ps s ss v m v1 m1 v' m' :
  moves_reported c k held [p] [s] v m v1 m1 -> moves_reported c (S k) held ps ss v1 m1 v' m' ->
  ve_at_entry s ∉ ve_at_entry <$> ss -> vs_self v1 = vs_self v ->
  Forall (victim_place c) (p :: ps) ->
  moves_reported c k held (p :: ps) (s :: ss) v m v' m'.
Proof.
  intros R1 R2 Hsni Hself Hvic. split; try apply R2.
  - by rewrite (mr_op _ _ _ _ _ _ _ _ _ R2), (mr_op _ _ _ _ _ _ _ _ _ R1).
  - by rewrite (mr_dc _ _ _ _ _ _ _ _ _ R2), (mr_dc _ _ _ _ _ _ _ _ _ R1).
  - intros a Hna. apply not_elem_of_cons in Hna as [Hna1 Hna2].
    rewrite (mr_frame _ _ _ _ _ _ _ _ _ R2) by done. apply (mr_frame _ _ _ _ _ _ _ _ _ R1).
    intros Hin. by apply list_elem_of_singleton in Hin.
  - intros [|i] s' x Hi Hx.
    + injection Hi as <-. rewrite (mr_frame _ _ _ _ _ _ _ _ _ R2) by done.
      by apply (mr_linked _ _ _ _ _ _ _ _ _ R1 0%nat).
    + cbn in Hi. rewrite Nat.add_succ_r, <- Nat.add_succ_l, <- Hself.
      apply (mr_linked _ _ _ _ _ _ _ _ _ R2); [done|].
      rewrite (mr_frame _ _ _ _ _ _ _ _ _ R1); [done|]. intros Hin.
      apply list_elem_of_singleton in Hin. apply Hsni. rewrite <- Hin.
      apply list_elem_of_fmap_2. by eapply list_elem_of_lookup_2.
  - intros c' j' Hc' Hj'. rewrite (mr_bits _ _ _ _ _ _ _ _ _ R2) by done.
    rewrite (mr_bits _ _ _ _ _ _ _ _ _ R1) by done. cbn [length].
    setoid_rewrite elem_of_cons. split.
    + intros [[-> ?]|[[[-> ?]|[Hv Hn1]] Hn2]]; [left; lia|left; lia|right]. split; [done|].
      intros q [->|Hq]; [apply Hn1; by left|by apply Hn2].
    + intros [[-> Hj]|[Hv Hn]]; [|right; split; [right; split; [done|]|]; [|by eauto]].
      * destruct (decide (j' = Z.of_nat k)) as [->|]; [|left; lia].
        right. split; [left; lia|]. intros q Hq [E _]. rewrite Forall_forall in Hvic.
        destruct (Hvic q) as (_ & _ & Hne); [by right|]. congruence.
      * intros q Hq. apply Hn. left. by destruct Hq as [->|Hq]; [|apply elem_of_nil in Hq].
  - intros c' Hc'. apply (mr_free _ _ _ _ _ _ _ _ _ R2). by apply (mr_free _ _ _ _ _ _ _ _ _ R1).
  - assert (forall j, 0 <= j -> chunk_in_range (pd_chunk p) -> valid_bit v1 (pd_chunk p) j = true ->
      pd_chunk p ∈ free_chunk_list v' \/ exists j, 0 <= j /\ valid_bit v' (pd_chunk p) j = true) as Hp.
    { intros j Hj Hr Hv.
      destruct (decide (Exists (fun q => pd_chunk p = pd_chunk q /\ j = pd_index q) ps)) as [Hex|Hno].
      - apply Exists_exists in Hex as (q & Hq & Ec & ->). rewrite Ec in Hv |- *.
        by apply (mr_emptied _ _ _ _ _ _ _ _ _ R2).
      - right. exists j. split; [done|]. apply (mr_bits _ _ _ _ _ _ _ _ _ R2); [apply Hr|done|].
        right. split; [done|]. intros q Hq E. apply Hno, Exists_exists. eauto. }
    apply Forall_cons in Hvic as [(Hr & _ & _) Hvic].
    assert (valid_bit v (pd_chunk p) (pd_index p) = true ->
      pd_chunk p ∈ free_chunk_list v' \/ exists j, 0 <= j /\ valid_bit v' (pd_chunk p) j = true) as Hhead.
    { intros Hv. destruct (mr_emptied _ _ _ _ _ _ _ _ _ R1 p) as [Hf|(j & Hj & Hb)]; [left|done| |].
      - left. by apply (mr_free _ _ _ _ _ _ _ _ _ R2).
      - by apply (Hp j). }
    intros q Hq Hv. apply elem_of_cons in Hq as [->|Hq]; [by apply Hhead|].
    destruct (decide (pd_chunk q = pd_chunk p /\ pd_index q = pd_index p)) as [[Ec Ei]|Hne].
    { rewrite Ec. apply Hhead. by rewrite <- Ec, <- Ei. }
    apply (mr_emptied _ _ _ _ _ _ _ _ _ R2); [done|].
    rewrite Forall_forall in Hvic. destruct (Hvic q Hq) as (Hrq & Hiq & _).
    apply (mr_bits _ _ _ _ _ _ _ _ _ R1); [apply Hrq|apply Hiq|]. right. split; [done|].
    intros q' Hq'. by apply list_elem_of_singleton in Hq' as ->.
Qed.

Lemma gc_link_all_app v m l1 l2 :
  gc_link_all v m (l1 ++ l2) = '(v', m') ← gc_link_all v m l1; gc_link_all v' m' l2.
Proof.
  revert v m. induction l1 as [|e l1 IH]; intros v m; [done|]. cbn [app gc_link_all].
  destruct (match me_op_type e with INSERT => _ | _ => _ end) as [[v' m']|f]; cbn; [apply IH|done].
Qed.

Lemma gc_link_rows c held ps : forall k ss v m,
  length ps = length ss -> chunk_in_range c -> (k + length ps <= ENTRIES)%nat ->
  chunks_inv v held -> c ∉ free_chunk_list v ++ held -> NoDup (ve_at_entry <$> ss) ->
  Forall (resident (vs_self v) m) ss -> Forall (victim_place c) ps ->
  exists bm' l' m',
    gc_link_all v m (gc_rows c k ps ss) = Ok (set_free_chunk_list l' (set_bitmap bm' v), m') /\
    moves_reported c k held ps ss v m (set_free_chunk_list l' (set_bitmap bm' v)) m'.
Proof.
  induction ps as [|p ps IH]; intros k [|s ss] v m Hlen Hc Hk Hinv Hni Hnd Hres Hvic; try done.
  { exists (vs_bitmap_info v), (free_chunk_list v), m. destruct v; cbn. split; [done|].
    split; cbn; try done.
    - intros c' j' _ _. rewrite Nat.add_0_r. split.
      + intros ?. right. split; [done|]. intros p Hp. by apply elem_of_nil in Hp.
      + intros [[_ ?]|[? _]]; [lia|done].
    - intros p Hp. by apply elem_of_nil in Hp. }
  cbn in Hlen, Hk, Hnd. apply NoDup_cons in Hnd as [Hsni Hnd].
  apply Forall_cons in Hres as [Hs Hres].
  destruct (gc_pair_spec v m held c k p s) as (bm1 & l1 & m1 & Hl1 & R1); try done; [lia| |].
  { by apply Forall_cons in Hvic as [? _]. }
  destruct (IH (S k) ss (set_free_chunk_list l1 (set_bitmap bm1 v)) m1)
    as (bm2 & l2 & m2 & Hl2 & R2); try done; [lia|lia|apply R1|apply R1| | |].
  { rewrite Forall_forall in *. intros s' Hs'. destruct (Hres s' Hs') as (? & x' & Hx' & Hr').
    split; [done|]. exists x'. rewrite (mr_frame _ _ _ _ _ _ _ _ _ R1); [done|]. intros Hin.
    apply list_elem_of_singleton in Hin. apply Hsni. rewrite <- Hin. by apply list_elem_of_fmap_2. }
  { by apply Forall_cons in Hvic as [_ ?]. }
  exists bm2, l2, m2. split.
  - change (gc_rows c k (p :: ps) (s :: ss)) with (gc_rows c k [p] [s] ++ gc_rows c (S k) ps ss).
    rewrite gc_link_all_app, Hl1. exact Hl2.
  - by eapply moves_reported_cons.
Qed.

(** * Writing the collector's chunk *)

Lemma write_gc_w_chunk_spec v c : wc_bound (gc_w_chunk v) = true ->
  write_gc_w_chunk v c = Ok (
    set_gc_w_chunk
      (WChunk (wc_id (gc_w_chunk v)) (wc_chunk_offset (gc_w_chunk v))
         (wc_entry_offset (gc_w_chunk v)) true (replicate ENTRIES zero_vs_entry)
         (sort_w_buffer (w_buffer (gc_w_chunk v))) (moved_entry_list (gc_w_chunk v)))
      (set_disk (write_slots (vs_disk v) (c * Z.of_nat ENTRIES)
         (sort_w_buffer (w_buffer (gc_w_chunk v)))) (total_vs_write_count v) v)).
Proof.
  intros Hb. unfold write_gc_w_chunk. rewrite Hb. cbn [negb]. rewrite uring_submit_all, Z.eqb_refl.
  cbn [negb]. set (n := Z.to_nat _) at 1. pose proof (uring_wait_ok n).
  rewrite (proj2 (Z.ltb_ge _ _)) by lia.
  by rewrite chunk_batch by (apply wf_gc_qd || apply wf_gc_split || apply length_sort_w_buffer).
Qed.

(** The places the pending entries come from. *)
Definition pd_place (p : pending) : Z * Z := (pd_chunk p, pd_index p).

(** A collection with entries [ps] waiting to be written to chunk [c]. *)
Record gc_ready (v : ValueStorage) (m : memory) (c : Z) (held : list Z) (ps : list pending) : Prop := {
  gr_inv : chunks_inv v (c :: held);
  gr_linked : linked_inv v m;
  gr_bound : wc_bound (gc_w_chunk v) = true;
  gr_fits : (length ps <= ENTRIES)%nat;
  gr_buf : w_buffer (gc_w_chunk v) =
    (pd_entry <$> ps) ++ replicate (ENTRIES - length ps) zero_vs_entry;
  gr_moves : gc_moved_entry_list v = gc_moves c 0 ps;
  gr_holds : Forall (fun p => holds v (pd_chunk p) (pd_index p) (pd_entry p)) ps;
  gr_places : NoDup (pd_place <$> ps);
}.

(** Entries at distinct valid places have distinct address-table entries and
    distinct keys. *)
Lemma ready_nodup v m c held ps : gc_ready v m c held ps ->
  NoDup (ve_at_entry <$> (pd_entry <$> ps)) /\ NoDup (ve_key <$> (pd_entry <$> ps)).
Proof.
  intros [_ Hli _ _ _ _ Hh Hp]. rewrite Forall_forall in Hh.
  assert (forall (f : vs_entry_t -> Z), (forall p q, p ∈ ps -> q ∈ ps ->
    f (pd_entry p) = f (pd_entry q) -> ve_at_entry (pd_entry p) = ve_at_entry (pd_entry q)) ->
    NoDup (f <$> (pd_entry <$> ps))) as Hgen.
  { intros f Hf. apply NoDup_alt. intros i j x Hi Hj. rewrite !list_lookup_fmap in Hi, Hj.
    destruct (ps !! i) as [p|] eqn:Ep; [|done]. destruct (ps !! j) as [q|] eqn:Eq; [|done].
    cbn in Hi, Hj. apply list_elem_of_lookup_2 in Ep as Hp1, Eq as Hq1.
    destruct (holds_at_inj v m _ _ _ _ _ _ Hli (Hh p Hp1) (Hh q Hq1)) as [E1 E2].
    { apply Hf; [done|done|congruence]. }
    eapply (NoDup_lookup _ i j (pd_place p) Hp); rewrite list_lookup_fmap; rewrite ?Ep, ?Eq; [done|].
    cbn. unfold pd_place. congruence. }
  split; apply Hgen; [done|]. intros p q Hp1 Hq1 E.
  by apply (li_keys v m Hli _ _ _ _ _ _ (Hh p Hp1) (Hh q Hq1)).
Qed.

Lemma ready_buffer v m c held ps : gc_ready v m c held ps ->
  valid_prefix (take ENTRIES (w_buffer (gc_w_chunk v))) = pd_entry <$> ps.
Proof.
  intros [_ Hli _ Hf Hb _ Hh _].
  assert (Forall (fun e => ve_at_entry e <> 0) (pd_entry <$> ps)) as Hnn.
  { apply Forall_fmap. eapply Forall_impl; [exact Hh|]. cbn. intros p (Hc & Hj & Hv & Hd).
    destruct (li_valid v m Hli _ _ Hc Hj Hv) as (e & He & Hnz & _). congruence. }
  rewrite Hb, take_ge by (rewrite length_app, length_replicate, length_fmap; lia).
  destruct (ENTRIES - length ps)%nat as [|n].
  - rewrite app_nil_r. by apply valid_prefix_all.
  - by apply valid_prefix_app.
Qed.

(** The target chunk has no valid entry, so no pending entry comes from it. *)
Lemma ready_victims v m c held ps : gc_ready v m c held ps -> Forall (victim_place c) ps.
Proof.
  intros [[_ _ _ He] _ _ _ _ _ Hh _]. eapply Forall_impl; [exact Hh|].
  intros p (Hc & Hj & Hv & _). do 2 (split; [done|]). intros E. rewrite E in Hv.
  rewrite Forall_app, Forall_cons in He. destruct He as (_ & He & _).
  rewrite He in Hv; [done|]. apply Hj.
Qed.

Lemma ready_resident v m c held ps : gc_ready v m c held ps ->
  Forall (resident (vs_self v) m) (pd_entry <$> ps).
Proof.
  intros [_ Hli _ _ _ _ Hh _]. apply Forall_fmap. eapply Forall_impl; [exact Hh|].
  cbn. intros p (Hc & Hj & Hv & Hd).
  destruct (li_valid v m Hli _ _ Hc Hj Hv) as (e & He & Hnz & x & Hx & Hp).
  assert (e = pd_entry p) as -> by congruence. split; [done|]. exists x. rewrite Hp. cbn.
  split; [done|]. split; [done|]. pose proof (slot_range _ _ Hc Hj). unfold slot. lia.
Qed.

Lemma entry_of_at_alt v m a e : linked_inv v m ->
  entry_of_at v m a e <-> ve_at_entry e = a /\ exists c j, holds v c j e.
Proof.
  intros Hli. split.
  - intros (E & c & j & Hh & _). eauto.
  - intros (<- & c & j & Hh). by eapply holds_entry_of_at.
Qed.

(** * A written chunk in the storage *)

Definition moved_from (ps : list pending) (c j : Z) : Prop :=
  exists p, p ∈ ps /\ pd_chunk p = c /\ pd_index p = j.

(** What the storage holds after the entries [ps] moved to chunk [c] in the
    order [ss]. *)
Definition holds_after (c : Z) (ps : list pending) (ss : list vs_entry_t)
    (v v' : ValueStorage) : Prop :=
  forall c' j e, holds v' c' j e <->
    (c' = c /\ 0 <= j /\ ss !! Z.to_nat j = Some e) \/ (holds v c' j e /\ ~ moved_from ps c' j).

Section after.
Context (v v' : ValueStorage) (m m' : memory) (c : Z) (held : list Z) (ps : list pending).
Context (Hready : gc_ready v m c held ps).
Let ss := std_sort ve_key (pd_entry <$> ps).
Context (Hafter : holds_after c ps ss v v').

Lemma after_origin c' j e : holds v' c' j e -> exists c0 j0, holds v c0 j0 e.
Proof.
  intros [(-> & Hj & Hs)|[Hh _]]%Hafter; [|eauto].
  apply list_elem_of_lookup_2 in Hs. unfold ss in Hs. rewrite std_sort_perm in Hs.
  apply list_elem_of_fmap in Hs as (p & -> & Hp).
  pose proof (gr_holds _ _ _ _ _ Hready) as Hh. rewrite Forall_forall in Hh. eauto.
Qed.

Lemma after_kept c0 j0 e : holds v c0 j0 e -> exists c' j, holds v' c' j e.
Proof.
  intros Hh. pose proof (gr_holds _ _ _ _ _ Hready) as Hps. rewrite Forall_forall in Hps.
  destruct (decide (Exists (fun p => pd_chunk p = c0 /\ pd_index p = j0) ps)) as [Hex|Hno].
  - apply Exists_exists in Hex as (p & Hp & E1 & E2).
    assert (pd_entry p = e) as <-.
    { eapply holds_fun; [apply (Hps p Hp)|]. by rewrite E1, E2. }
    assert (pd_entry p ∈ ss) as Hs.
    { unfold ss. rewrite std_sort_perm. by apply list_elem_of_fmap_2. }
    apply list_elem_of_lookup in Hs as [i Hi]. exists c, (Z.of_nat i). apply Hafter. left.
    split; [done|]. split; [lia|]. by rewrite Nat2Z.id.
  - exists c0, j0. apply Hafter. right. split; [done|]. intros (p & Hp & E1 & E2).
    apply Hno, Exists_exists. eauto.
Qed.

Context (Hat_new : forall i s x, ss !! i = Some s -> at_mem m !! ve_at_entry s = Some x ->
  at_mem m' !! ve_at_entry s = Some (relinked (vs_self v) c (Z.of_nat i) x)).
Context (Hat_old : forall a, a ∉ ve_at_entry <$> ss -> at_mem m' !! a = at_mem m !! a).
Context (Hself : vs_self v' = vs_self v).
Context (Hdisk : forall c' j, chunk_in_range c' -> entry_in_range j ->
  valid_bit v' c' j = true -> is_Some (vs_disk v' !! slot c' j)).

Lemma after_linked : linked_inv v' m'.
Proof.
  pose proof (gr_linked _ _ _ _ _ Hready) as Hli. pose proof (gr_holds _ _ _ _ _ Hready) as Hps.
  rewrite Forall_forall in Hps. split.
  - intros c' j Hc Hj Hv. destruct (Hdisk c' j Hc Hj Hv) as [e He].
    assert (holds v' c' j e) as Hh by done.
    destruct (after_origin c' j e Hh) as (c0 & j0 & Hh0). pose proof Hh0 as (Hc0 & Hj0 & Hv0 & Hd0).
    destruct (li_valid v m Hli c0 j0 Hc0 Hj0 Hv0) as (e0 & He0 & Hnz & x & Hx & Hp).
    assert (e0 = e) as -> by congruence. exists e. split; [done|]. split; [done|].
    apply Hafter in Hh as [(-> & Hj' & Hs)|[Hh Hnm]].
    + eexists. split; [by eapply Hat_new|]. cbn. unfold slot. rewrite Hself. do 2 f_equal. lia.
    + exists x. rewrite Hself. destruct (holds_at_inj v m _ _ _ _ _ _ Hli Hh Hh0) as [-> ->]; [done|].
      split; [|done]. rewrite Hat_old; [done|]. intros Hin. unfold ss in Hin.
      rewrite std_sort_perm in Hin. rewrite <- list_fmap_compose in Hin.
      apply list_elem_of_fmap in Hin as (p & Ea & Hpin). cbn in Ea.
      destruct (holds_at_inj v m _ _ _ _ _ _ Hli Hh0 (Hps p Hpin) Ea) as [E1 E2].
      apply Hnm. by exists p.
  - intros c1 j1 c2 j2 e1 e2 R1 R2.
    destruct (after_origin _ _ _ R1) as (? & ? & R1'), (after_origin _ _ _ R2) as (? & ? & R2').
    by apply (li_keys v m Hli _ _ _ _ _ _ R1' R2').
Qed.

Lemma after_values a e : entry_of_at v' m' a e <-> entry_of_at v m a e.
Proof.
  rewrite (entry_of_at_alt v' m') by apply after_linked.
  rewrite (entry_of_at_alt v m) by apply (gr_linked _ _ _ _ _ Hready).
  split; intros (E & c' & j & Hh); (split; [done|]).
  - by eapply after_origin.
  - by eapply after_kept.
Qed.
End after.

(** * The flush of a collection *)

(** What a collection never touches. *)
Record gc_same (v : ValueStorage) (m : memory) (v' : ValueStorage) (m' : memory) : Prop := {
  gs_self : vs_self v' = vs_self v;
  gs_w_chunk : w_chunk v' = w_chunk v;
  gs_used : used_chunk_list v' = used_chunk_list v;
  gs_op : op_mem m' = op_mem m;
  gs_dc : dc_mem m' = dc_mem m;
  gs_val_addr : forall a, val_addr <$> at_mem m' !! a = val_addr <$> at_mem m !! a;
  gs_at : forall a, (forall e, ~ entry_of_at v m a e) -> at_mem m' !! a = at_mem m !! a;
  gs_values : forall a e, entry_of_at v' m' a e <-> entry_of_at v m a e;
}.

Record gc_flushed (c : Z) (held : list Z) (ps : list pending)
    (v : ValueStorage) (m : memory) (v' : ValueStorage) (m' : memory) : Prop := {
  gf_inv : chunks_inv v' held;
  gf_linked : linked_inv v' m';
  gf_same : gc_same v m v' m';
  gf_bound : wc_bound (gc_w_chunk v') = true;
  gf_buf : w_buffer (gc_w_chunk v') = replicate ENTRIES zero_vs_entry;
  gf_moved : gc_moved_entry_list v' = [];
  gf_r_buffer : gc_r_buffer v' = gc_r_buffer v;
  gf_target : c ∉ free_chunk_list v' ++ held;
  gf_disk : forall c' j, entry_in_range j -> c' <> c ->
    vs_disk v' !! slot c' j = vs_disk v !! slot c' j;
  gf_bits : forall c' j, 0 <= c' -> 0 <= j -> valid_bit v' c' j = true <->
    (c' = c /\ 0 <= j < Z.of_nat (length ps)) \/ (valid_bit v c' j = true /\ ~ moved_from ps c' j);
  gf_free : forall c', c' ∈ free_chunk_list v -> c' ∈ free_chunk_list v';
  gf_emptied : forall p, p ∈ ps -> pd_chunk p ∈ free_chunk_list v' \/
    exists j, 0 <= j /\ valid_bit v' (pd_chunk p) j = true;
}.

Lemma held_release v c held : chunks_inv v (c :: held) ->
  chunks_inv v held /\ c ∉ free_chunk_list v ++ held /\ chunk_in_range c /\ empty_chunk v c.
Proof.
  intros Hinv. split; [by eapply chunks_inv_release; [exact Hinv|apply Hinv|..]|].
  destruct Hinv as [_ Hnd Hr He].
  assert (free_chunk_list v ++ c :: held ≡ₚ c :: (free_chunk_list v ++ held)) as Hp
    by (symmetry; apply Permutation_middle).
  rewrite Hp in Hnd, Hr, He. apply NoDup_cons in Hnd as [? _].
  apply Forall_cons in Hr as [? _]. by apply Forall_cons in He as [? _].
Qed.

Lemma lookup_written_out f c buf c' j : entry_in_range j -> c' <> c ->
  write_slots f (c * Z.of_nat ENTRIES) (sort_w_buffer buf) !! slot c' j = f !! slot c' j.
Proof.
  intros Hj Hne. rewrite lookup_write_slots, length_sort_w_buffer, bool_decide_false; [done|].
  unfold entry_in_range, slot in *. nia.
Qed.

Lemma lookup_written_in f c buf j : entry_in_range j ->
  write_slots f (c * Z.of_nat ENTRIES) (sort_w_buffer buf) !! slot c j =
  sort_w_buffer buf !! Z.to_nat j.
Proof.
  intros Hj. unfold entry_in_range, slot in *.
  rewrite lookup_write_slots, length_sort_w_buffer, bool_decide_true by lia. f_equal. lia.
Qed.

(** The bits and the disk after the flush determine what the storage holds. *)
Lemma flushed_holds_after v v' m c held ps : gc_ready v m c held ps ->
  vs_disk v' = write_slots (vs_disk v) (c * Z.of_nat ENTRIES)
    (sort_w_buffer (w_buffer (gc_w_chunk v))) ->
  (forall c' j, 0 <= c' -> 0 <= j -> valid_bit v' c' j = true <->
    (c' = c /\ 0 <= j < Z.of_nat (length ps)) \/ (valid_bit v c' j = true /\ ~ moved_from ps c' j)) ->
  holds_after c ps (std_sort ve_key (pd_entry <$> ps)) v v'.
Proof.
  intros Hr Hd Hbits c' j e. destruct (held_release _ _ _ (gr_inv _ _ _ _ _ Hr)) as (_ & _ & Hc & Hec).
  set (ss := std_sort ve_key (pd_entry <$> ps)).
  assert (length ss = length ps) as Hlss by (unfold ss; by rewrite std_sort_length, length_fmap).
  assert (forall i, (i < length ps)%nat -> sort_w_buffer (w_buffer (gc_w_chunk v)) !! i = ss !! i) as Hin.
  { intros i Hi. unfold sort_w_buffer. rewrite (ready_buffer _ _ _ _ _ Hr). fold ss.
    by rewrite lookup_app_l by lia. }
  pose proof (gr_fits _ _ _ _ _ Hr) as Hfit. split.
  - intros (Hc' & Hj & Hv & He). rewrite Hd in He.
    apply Hbits in Hv as [[-> Hlt]|[Hv Hnm]]; [left|right|apply Hc'|apply Hj].
    + rewrite lookup_written_in, Hin in He by (done || lia). split; [done|]. split; [lia|done].
    + assert (c' <> c) as Hne by (intros ->; rewrite (Hec j) in Hv; [done|apply Hj]).
      rewrite lookup_written_out in He by done. done.
  - intros [(-> & Hj & Hs)|[(Hc' & Hj & Hv & He) Hnm]].
    + pose proof (lookup_lt_Some _ _ _ Hs) as Hlt.
      assert (entry_in_range j) as Hjr by (unfold entry_in_range; lia).
      split; [done|]. split; [done|]. split; [apply Hbits; [apply Hc|done|left; lia]|].
      rewrite Hd, lookup_written_in, Hin by (done || lia). done.
    + assert (c' <> c) as Hne by (intros ->; rewrite (Hec j) in Hv; [done|apply Hj]).
      split; [done|]. split; [done|]. split; [apply Hbits; [apply Hc'|apply Hj|by right]|].
      by rewrite Hd, lookup_written_out.
Qed.

(** A flush of the collector's chunk from its parts. *)
Lemma flushed_from_parts v v' m m' c held ps : gc_ready v m c held ps ->
  vs_disk v' = write_slots (vs_disk v) (c * Z.of_nat ENTRIES)
    (sort_w_buffer (w_buffer (gc_w_chunk v))) ->
  vs_self v' = vs_self v ->
  (forall c' j, 0 <= c' -> 0 <= j -> valid_bit v' c' j = true <->
    (c' = c /\ 0 <= j < Z.of_nat (length ps)) \/ (valid_bit v c' j = true /\ ~ moved_from ps c' j)) ->
  (forall i s x, std_sort ve_key (pd_entry <$> ps) !! i = Some s ->
     at_mem m !! ve_at_entry s = Some x ->
     at_mem m' !! ve_at_entry s = Some (relinked (vs_self v) c (Z.of_nat i) x)) ->
  (forall a, a ∉ ve_at_entry <$> (pd_entry <$> ps) -> at_mem m' !! a = at_mem m !! a) ->
  linked_inv v' m' /\ (forall a e, entry_of_at v' m' a e <-> entry_of_at v m a e) /\
  (forall a, val_addr <$> at_mem m' !! a = val_addr <$> at_mem m !! a) /\
  (forall a, (forall e, ~ entry_of_at v m a e) -> at_mem m' !! a = at_mem m !! a).
Proof.
  intros Hr Hd Hself Hbits Hnew Hold.
  pose proof (flushed_holds_after v v' m c held ps Hr Hd Hbits) as Hafter.
  pose proof (gr_linked _ _ _ _ _ Hr) as Hli.
  assert (forall a, a ∉ ve_at_entry <$> std_sort ve_key (pd_entry <$> ps) ->
    at_mem m' !! a = at_mem m !! a) as Hold' by (intros a; rewrite std_sort_perm; apply Hold).
  assert (forall c' j, chunk_in_range c' -> entry_in_range j ->
    valid_bit v' c' j = true -> is_Some (vs_disk v' !! slot c' j)) as Hdisk.
  { intros c' j Hc' Hj Hv. rewrite Hd. apply Hbits in Hv as [[-> Hlt]|[Hv Hnm]]; [| |apply Hc'|apply Hj].
    - rewrite lookup_written_in by done. apply lookup_lt_is_Some. rewrite length_sort_w_buffer.
      unfold entry_in_range in Hj. lia.
    - destruct (held_release _ _ _ (gr_inv _ _ _ _ _ Hr)) as (_ & _ & _ & Hec).
      assert (c' <> c) as Hne by (intros ->; rewrite (Hec j) in Hv; [done|apply Hj]).
      rewrite lookup_written_out by done.
      destruct (li_valid v m Hli c' j Hc' Hj Hv) as (e & He & _). eauto. }
  split; [by eapply after_linked|]. split; [intros; by eapply after_values|].
  pose proof (ready_resident _ _ _ _ _ Hr) as Hres. rewrite Forall_forall in Hres. split; intros a.
  - destruct (decide (a ∈ ve_at_entry <$> (pd_entry <$> ps))) as [Hin|Hnin]; [|by rewrite Hold].
    apply list_elem_of_fmap in Hin as (s & -> & Hs). destruct (Hres s Hs) as (_ & x & Hx & _).
    rewrite <- (std_sort_perm ve_key (pd_entry <$> ps)) in Hs.
    apply list_elem_of_lookup in Hs as [i Hi]. by rewrite (Hnew i s x Hi Hx), Hx.
  - intros Hno. apply Hold. intros Hin. apply list_elem_of_fmap in Hin as (s & -> & Hs).
    apply list_elem_of_fmap in Hs as (p & -> & Hp).
    pose proof (gr_holds _ _ _ _ _ Hr) as Hh. rewrite Forall_forall in Hh.
    apply (Hno (pd_entry p)). by eapply holds_entry_of_at, (Hh p Hp).
Qed.

Lemma flush_gc_spec v m c held ps : gc_ready v m c held ps ->
  exists v' m', flush_gc v m c = Ok (v', m') /\ gc_flushed c held ps v m v' m'.
Proof.
  intros Hr. destruct (held_release _ _ _ (gr_inv _ _ _ _ _ Hr)) as (Hinv & Hni & Hc & Hec).
  destruct (ready_nodup _ _ _ _ _ Hr) as [Hats Hkeys].
  unfold flush_gc. rewrite write_gc_w_chunk_spec by apply Hr. cbn [mbind res_bind].
  set (disk := write_slots (vs_disk v) (c * Z.of_nat ENTRIES) (sort_w_buffer (w_buffer (gc_w_chunk v)))).
  set (v1 := set_gc_w_chunk _ _). set (ss := std_sort ve_key (pd_entry <$> ps)).
  assert (length ss = length ps) as Hlss by (unfold ss; by rewrite std_sort_length, length_fmap).
  unfold gc_sync_with_at.
  replace (gc_moved_entry_list v1) with (gc_moves c 0 ps) by (symmetry; apply (gr_moves _ _ _ _ _ Hr)).
  rewrite (sort_gc_moves c ps Hkeys). fold ss.
  assert (chunks_inv v1 held) as Hinv1 by (destruct Hinv as [[? ?] ? ? ?]; by repeat split).
  destruct (gc_link_rows c held ps 0 ss v1 m) as (bm' & l' & m' & Hl & HR); try done.
  { apply (gr_fits _ _ _ _ _ Hr). }
  { unfold ss. by rewrite std_sort_perm. }
  { unfold ss. rewrite std_sort_perm. by apply (ready_resident _ _ _ _ _ Hr). }
  { by eapply ready_victims. }
  rewrite Hl. cbn [mbind res_bind]. eexists _, m'. split; [done|].
  set (v2 := set_gc_moved [] _).
  pose proof (mr_frame _ _ _ _ _ _ _ _ _ HR) as Hfr. pose proof (mr_linked _ _ _ _ _ _ _ _ _ HR) as Hln.
  assert (forall c' j, 0 <= c' -> 0 <= j -> valid_bit v2 c' j = true <->
    (c' = c /\ 0 <= j < Z.of_nat (length ps)) \/ (valid_bit v c' j = true /\ ~ moved_from ps c' j))
    as Hbits.
  { intros c' j Hc' Hj. etransitivity; [by apply (mr_bits _ _ _ _ _ _ _ _ _ HR c' j)|].
    cbn [Nat.add]. unfold moved_from. naive_solver. }
  destruct (flushed_from_parts v v2 m m' c held ps) as (Hli & Hval & Hva & Hat); try done.
  { intros a. rewrite <- (std_sort_perm ve_key (pd_entry <$> ps)). apply Hfr. }
  destruct HR as [[[? ?] ? ? ?] ? ? ? _ _ _ Hf He].
  split; try done.
  - intros c' j Hj Hne. by apply lookup_written_out.
  - intros p Hp. apply (He p Hp). pose proof (gr_holds _ _ _ _ _ Hr) as Hh.
    rewrite Forall_forall in Hh. apply (Hh p Hp).
Qed.
End garbage_collection.
