(* ===== verification/GcLoop.v ===== *)
(** The loops of a collection ([ValueStorage.cpp]: [garbage_collection],
    [get_victim_chunk_offset], [create_used_chunk_list]).

    The collector visits victims in the order of their counts of valid
    entries.  The invariant of its loops says which entries wait in its
    buffer, that the chunks visited so far are back on the free list, are
    targets of the collection or still have entries waiting, and counts the
    entries moved: since a victim is never full, more victims than targets are
    emptied, so a free chunk is at hand whenever a new target is needed. *)

From S2P Require Import Prelude Config TaggedPtr Objects IoUring ValueStorage ChunkWrite.
From S2P Require Import ChunkAlloc GarbageCollection.

Local Open Scope Z_scope.

Section gc_loop.
Context `{Config} `{IoUring} `{StdSort}.
Context `{!WfConfig _} `{!IoUringOk _}.

Abbreviation ENTRIES := MTS_VS_ENTRIES_PER_CHUNK.

Lemma gc_same_refl v m : gc_same v m v m.
Proof. by split. Qed.

Lemma gc_same_trans v m v1 m1 v2 m2 :
  gc_same v m v1 m1 -> gc_same v1 m1 v2 m2 -> gc_same v m v2 m2.
Proof.
  intros [] []. split; try congruence.
  - intros a Hno. rewrite gs_at0 by (intros e He; by apply gs_values, Hno in He). by apply gs_at.
  - intros a e. by rewrite gs_values0, gs_values.
Qed.

(** [entry_of_at] reads only the bits, the disk and the address table. *)
Lemma entry_of_at_ext v v' m a e : vs_disk v' = vs_disk v -> vs_self v' = vs_self v ->
  vs_bitmap_info v' = vs_bitmap_info v -> entry_of_at v' m a e <-> entry_of_at v m a e.
Proof.
  intros Hd Hs Hb. unfold entry_of_at, holds, points_to, valid_bit. by rewrite Hd, Hs, Hb.
Qed.

Lemma linked_inv_ext v v' m : vs_disk v' = vs_disk v -> vs_self v' = vs_self v ->
  vs_bitmap_info v' = vs_bitmap_info v -> linked_inv v m -> linked_inv v' m.
Proof.
  intros Hd Hs Hb [R1 R2]. split.
  - intros c j. unfold points_to, valid_bit. rewrite Hd, Hs, Hb. apply R1.
  - intros c j c' j' e e'. unfold holds, valid_bit. rewrite Hd, Hb. apply R2.
Qed.

Lemma chunks_inv_ext v v' held : vs_bitmap_info v' = vs_bitmap_info v ->
  free_chunk_list v' = free_chunk_list v -> chunks_inv v held -> chunks_inv v' held.
Proof.
  intros Hb Hf [[? ?] ? ? He]. split; [split; by rewrite Hb|by rewrite Hf..|].
  rewrite Hf. eapply Forall_impl; [exact He|]. unfold empty_chunk, valid_bit. by rewrite Hb.
Qed.

(** * Between victims *)

(** [v0], [m0]: the start of the collection; [held]: chunks other writers fill;
    [vis]: victims visited; [rest]: victims to come; [ts]: targets so far. *)
Record gc_inv (v0 : ValueStorage) (m0 : memory) (held vis rest ts : list Z)
    (ps : list pending) (g : gc_state) : Prop := {
  gi_ready : gc_ready (g_vs g) (g_mem g) (g_w_chunk g) held ps;
  gi_offset : g_w_offset g = length ps;
  gi_same : gc_same v0 m0 (g_vs g) (g_mem g);
  gi_target : g_w_chunk g ∈ ts;
  gi_free0 : forall c, c ∈ free_chunk_list v0 -> c ∈ free_chunk_list (g_vs g) \/ c ∈ ts;
  gi_vis : forall c, c ∈ vis -> c ∈ ts \/
    ((c ∈ free_chunk_list (g_vs g) \/ exists p, p ∈ ps /\ pd_chunk p = c) /\
     forall j, 0 <= j -> valid_bit (g_vs g) c j = true -> moved_from ps c j);
  gi_rest : forall c, c ∈ rest -> chunk_in_range c /\ (exists j, 0 <= j /\ valid_bit v0 c j = true) /\
    forall j, 0 <= j -> valid_bit (g_vs g) c j = valid_bit v0 c j;
  gi_places : forall p, p ∈ ps -> pd_chunk p ∉ rest;
}.

(** After a flush every visited victim is free or a target. *)
Lemma vis_after_flush v0 m0 held vis rest ts ps g v' m' :
  gc_inv v0 m0 held vis rest ts ps g ->
  gc_flushed (g_w_chunk g) held ps (g_vs g) (g_mem g) v' m' ->
  forall c, c ∈ free_chunk_list v0 ++ vis -> c ∈ free_chunk_list v' ++ ts.
Proof.
  intros Hg Hf c Hc. rewrite elem_of_app in Hc |- *. destruct Hc as [Hc|Hc].
  - destruct (gi_free0 _ _ _ _ _ _ _ _ Hg c Hc); [left; by eapply gf_free|by right].
  - destruct (gi_vis _ _ _ _ _ _ _ _ Hg c Hc) as [?|[[?|(p & Hp & <-)] Hv]];
      [by right|left; by eapply gf_free|].
    destruct (gf_emptied _ _ _ _ _ _ _ Hf p Hp) as [?|(j & Hj & Hb)]; [by left|].
    pose proof (gr_holds _ _ _ _ _ (gi_ready _ _ _ _ _ _ _ _ Hg)) as Hh.
    rewrite Forall_forall in Hh. destruct (Hh p Hp) as (Hr & _).
    apply (gf_bits _ _ _ _ _ _ _ Hf) in Hb as [[-> _]|[Hb Hn]]; [| |apply Hr|done].
    + right. apply (gi_target _ _ _ _ _ _ _ _ Hg).
    + by apply Hv in Hb.
Qed.

(** Moved entries bound the targets used by the victims emptied. *)
Lemma free_enough (free0 vis free' ts : list Z) cur :
  NoDup (free0 ++ vis) -> (forall c, c ∈ free0 ++ vis -> c ∈ free' ++ ts) ->
  (length ts * ENTRIES <= length vis * (ENTRIES - 1) + cur)%nat -> (cur <= ENTRIES - 1)%nat ->
  (length free0 <= length free')%nat.
Proof.
  intros Hnd Hsub Hcnt Hcur. pose proof (nodup_subset_length _ _ Hnd Hsub) as Hl.
  rewrite !length_app in Hl. pose proof wf_entries.
  assert (length ts <= length vis)%nat; [|lia]. nia.
Qed.

(** * Inside a victim *)

(** Victim [r] with the positions [idxs] still to look at, [cur] of its
    entries moved so far. *)
Record gc_cur (r : Z) (rest : list Z) (idxs : list nat) (cur : nat) (ts : list Z)
    (ps : list pending) (g : gc_state) : Prop := {
  gu_range : chunk_in_range r;
  gu_rest : r ∉ rest;
  gu_buf : forall i, i ∈ idxs -> valid_bit (g_vs g) r (Z.of_nat i) = true ->
    exists e, gc_r_buffer (g_vs g) !! i = Some e /\ vs_disk (g_vs g) !! slot r (Z.of_nat i) = Some e;
  gu_valid : forall j, 0 <= j -> valid_bit (g_vs g) r j = true ->
    moved_from ps r j \/ exists i, i ∈ idxs /\ j = Z.of_nat i;
  gu_live : r ∈ ts \/ r ∈ free_chunk_list (g_vs g) \/ (exists p, p ∈ ps /\ pd_chunk p = r) \/
    exists i, i ∈ idxs /\ valid_bit (g_vs g) r (Z.of_nat i) = true;
  gu_new : forall i, i ∈ idxs -> ~ moved_from ps r (Z.of_nat i);
  gu_count : (cur + length (filter (fun i => valid_bit (g_vs g) r (Z.of_nat i) = true) idxs)
              <= ENTRIES - 1)%nat;
}.

(** An invalid position is skipped. *)
Lemma cur_skip r rest i idxs cur ts ps g :
  gc_cur r rest (i :: idxs) cur ts ps g -> valid_bit (g_vs g) r (Z.of_nat i) = false ->
  gc_cur r rest idxs cur ts ps g.
Proof.
  intros [Hr Hre Hb Hv Hl Hn Hc] Hi. split; try done.
  - intros i' Hi'. apply Hb. by right.
  - intros j Hj Hvj. destruct (Hv j Hj Hvj) as [?|(i' & Hi' & ->)]; [by left|].
    apply elem_of_cons in Hi' as [->|Hi']; [congruence|right; eauto].
  - destruct Hl as [?|[?|[?|(i' & Hi' & Hvi)]]]; [by left|by right; left|by right; right; left|].
    apply elem_of_cons in Hi' as [->|Hi']; [congruence|]. right. right. right. eauto.
  - intros i' Hi'. apply Hn. by right.
  - rewrite filter_cons_False in Hc; [done|]. congruence.
Qed.

(** The entry at a valid position is put in the collector's buffer. *)
Definition add_pending (g : gc_state) (r : Z) (i : nat) (e : vs_entry_t) : ValueStorage :=
  let v1 := set_gc_w_buffer (<[g_w_offset g := e]> (w_buffer (gc_w_chunk (g_vs g)))) (g_vs g) in
  let l1 := add_moved_entry (gc_moved_entry_list v1) (g_w_chunk g)
              (Z.of_nat (g_w_offset g)) e INSERT in
  set_gc_moved (add_moved_entry l1 r (Z.of_nat i) e REMOVE) v1.

Lemma moved_from_snoc ps p c j :
  moved_from (ps ++ [p]) c j <-> moved_from ps c j \/ (pd_chunk p = c /\ pd_index p = j).
Proof.
  unfold moved_from. setoid_rewrite elem_of_app. setoid_rewrite list_elem_of_singleton. naive_solver.
Qed.

Lemma insert_at_end {A} (l r : list A) x y n :
  r = replicate (S n) y -> <[length l := x]> (l ++ r) = (l ++ [x]) ++ replicate n y.
Proof.
  intros ->. rewrite insert_app_r_alt by lia. rewrite Nat.sub_diag. cbn. by rewrite <- app_assoc.
Qed.

Lemma ready_add v0 m0 held vis rest ts ps g r i e :
  gc_inv v0 m0 held vis rest ts ps g -> holds (g_vs g) r (Z.of_nat i) e ->
  ~ moved_from ps r (Z.of_nat i) -> (length ps < ENTRIES)%nat ->
  gc_ready (add_pending g r i e) (g_mem g) (g_w_chunk g) held (ps ++ [Pending e r (Z.of_nat i)]).
Proof.
  intros Hg Hh Hn Hroom. destruct (gi_ready _ _ _ _ _ _ _ _ Hg) as [Hinv Hli Hb Hf Hbuf Hmv Hho Hpl].
  pose proof (gi_offset _ _ _ _ _ _ _ _ Hg) as Ho.
  split.
  - by eapply chunks_inv_ext; [..|exact Hinv].
  - by eapply linked_inv_ext; [..|exact Hli].
  - done.
  - rewrite length_app. cbn. lia.
  - cbn. rewrite Ho, Hbuf, fmap_app, length_app. cbn.
    replace (length ps) with (length (pd_entry <$> ps)) at 1 by apply length_fmap.
    apply insert_at_end. f_equal. lia.
  - unfold add_pending, gc_moved_entry_list, set_gc_moved, add_moved_entry. cbn.
    unfold gc_moved_entry_list in Hmv. rewrite Hmv, Ho, gc_moves_snoc, <- app_assoc. done.
  - apply Forall_app. split; [eapply Forall_impl; [exact Hho|]; done|]. by constructor.
  - apply NoDup_fmap_snoc; [done|]. intros Hpl1. apply list_elem_of_fmap in Hpl1 as (p & E & Hp). apply Hn. exists p.
    unfold pd_place in E. cbn in E. injection E as -> ->. done.
Qed.

Lemma same_add v0 m0 g r i e : gc_same v0 m0 (g_vs g) (g_mem g) ->
  gc_same v0 m0 (add_pending g r i e) (g_mem g).
Proof. intros Hs. eapply gc_same_trans; [exact Hs|]. by split. Qed.

(** The entry joins the buffer and the buffer has room for more. *)
Lemma inv_add v0 m0 held vis rest ts ps g r i e used :
  gc_inv v0 m0 held vis rest ts ps g -> holds (g_vs g) r (Z.of_nat i) e -> r ∉ rest ->
  ~ moved_from ps r (Z.of_nat i) -> (length ps < ENTRIES)%nat ->
  gc_inv v0 m0 held vis rest ts (ps ++ [Pending e r (Z.of_nat i)])
    (GcState (add_pending g r i e) (g_mem g) (g_w_offset g + 1) (g_w_chunk g) used).
Proof.
  intros Hg Hh Hre Hn Hroom. pose proof Hg as [Hrd Ho Hs Ht Hf0 Hv Hrs Hp]. split; cbn.
  - by eapply ready_add.
  - rewrite length_app. cbn. lia.
  - by apply same_add.
  - done.
  - exact Hf0.
  - intros c Hc. destruct (Hv c Hc) as [?|[Hor Hall]]; [by left|]. right. split.
    + destruct Hor as [?|(p & Hpin & E)]; [by left|]. right. exists p. split; [|done].
      apply elem_of_app. by left.
    + intros j Hj Hvj. apply moved_from_snoc. left. by apply Hall.
  - exact Hrs.
  - intros p [Hpin|Hpin]%elem_of_app; [by apply Hp|]. by apply list_elem_of_singleton in Hpin as ->.
Qed.

Lemma cur_add r rest i idxs cur ts ps g e used :
  gc_cur r rest (i :: idxs) cur ts ps g -> NoDup (i :: idxs) ->
  valid_bit (g_vs g) r (Z.of_nat i) = true ->
  gc_cur r rest idxs (S cur) ts (ps ++ [Pending e r (Z.of_nat i)])
    (GcState (add_pending g r i e) (g_mem g) (g_w_offset g + 1) (g_w_chunk g) used).
Proof.
  intros [Hr Hre Hb Hv Hl Hn Hc] Hnd Hi. apply NoDup_cons in Hnd as [Hni Hnd]. split; cbn; try done.
  - intros i' Hi'. apply Hb. by right.
  - intros j Hj Hvj. rewrite moved_from_snoc. destruct (Hv j Hj Hvj) as [?|(i' & Hi' & ->)]; [by left; left|].
    apply elem_of_cons in Hi' as [->|Hi']; [by left; right|right; eauto].
  - right. right. left. eexists. split; [apply elem_of_app; right; left|done].
  - intros i' Hi' [Hm|[_ E]]%moved_from_snoc.
    + apply (Hn i'); [by right|done].
    + cbn in E. apply Nat2Z.inj in E. congruence.
  - rewrite filter_cons_True in Hc by done. cbn in Hc. unfold valid_bit in *. cbn in *. lia.
Qed.

(** What a finished collection guarantees. *)
Record gc_finished (v0 : ValueStorage) (m0 : memory) (held : list Z)
    (v' : ValueStorage) (m' : memory) : Prop := {
  gd_inv : chunks_inv v' held;
  gd_linked : linked_inv v' m';
  gd_same : gc_same v0 m0 v' m';
  gd_free : (length (free_chunk_list v0) <= length (free_chunk_list v'))%nat;
  gd_buf : w_buffer (gc_w_chunk v') = replicate ENTRIES zero_vs_entry;
  gd_moved : gc_moved_entry_list v' = [];
}.

(** A new target is taken from the free list after a flush. *)
Lemma init_gc_w_chunk_spec v held c l : chunks_inv v held -> free_chunk_list v = c :: l ->
  exists v', init_gc_w_chunk v = Ok v' /\ wc_chunk_offset (gc_w_chunk v') = c /\
    chunks_inv v' (c :: held) /\ free_chunk_list v' = l /\
    vs_disk v' = vs_disk v /\ vs_self v' = vs_self v /\ vs_bitmap_info v' = vs_bitmap_info v /\
    w_chunk v' = w_chunk v /\ used_chunk_list v' = used_chunk_list v /\
    gc_r_buffer v' = gc_r_buffer v /\ wc_bound (gc_w_chunk v') = true /\
    w_buffer (gc_w_chunk v') = w_buffer (gc_w_chunk v) /\
    gc_moved_entry_list v' = gc_moved_entry_list v.
Proof.
  intros Hinv Hf. destruct (get_free_chunk_spec v held c l Hinv Hf) as [Hg Hinv'].
  unfold init_gc_w_chunk. rewrite Hg. cbn [mbind res_bind]. eexists. split; [done|].
  split; [done|]. split; [|done]. by eapply chunks_inv_ext; [..|exact Hinv'].
Qed.

Lemma ready_empty v m c held : chunks_inv v (c :: held) -> linked_inv v m ->
  wc_bound (gc_w_chunk v) = true ->
  w_buffer (gc_w_chunk v) = replicate ENTRIES zero_vs_entry -> gc_moved_entry_list v = [] ->
  gc_ready v m c held [].
Proof.
  intros. split; try done.
  - cbn. lia.
  - cbn. by rewrite Nat.sub_0_r.
  - constructor.
Qed.

Lemma not_moved_nil c j : ~ moved_from [] c j.
Proof. intros (p & Hp & _). by apply elem_of_nil in Hp. Qed.

(** The invariants after a flush and the choice of a new target. *)
Lemma inv_retarget v0 m0 held vis rest ts ps g g1 v3 m3 v4 c l used :
  gc_inv v0 m0 held vis rest ts ps g1 -> gc_flushed (g_w_chunk g1) held ps (g_vs g1) (g_mem g1) v3 m3 ->
  free_chunk_list v3 = c :: l -> init_gc_w_chunk v3 = Ok v4 ->
  g = GcState v4 m3 0 (wc_chunk_offset (gc_w_chunk v4)) used ->
  gc_inv v0 m0 held vis rest (c :: ts) [] g.
Proof.
  intros Hg Hf Hfr Hi ->.
  destruct (init_gc_w_chunk_spec v3 held c l (gf_inv _ _ _ _ _ _ _ Hf) Hfr)
    as (v4' & Hi' & Hwc & Hinv & Hl & Hd & Hs & Hb & Hw & Hu & Hrb & Hbd & Hbuf & Hmv).
  assert (v4' = v4) as -> by congruence.
  assert (gc_same v0 m0 v4 m3) as Hsame.
  { eapply gc_same_trans; [|eapply gc_same_trans; [apply Hf|]]; [apply Hg|].
    split; try done. intros a e. by apply entry_of_at_ext. }
  assert (forall x, x ∈ free_chunk_list v3 ++ ts -> x ∈ l \/ x ∈ c :: ts) as Hsplit.
  { intros x. rewrite Hfr. rewrite elem_of_app, !elem_of_cons. naive_solver. }
  pose proof (vis_after_flush _ _ _ _ _ _ _ _ _ _ Hg Hf) as Hcov.
  split; cbn [g_vs g_mem g_w_offset g_w_chunk].
  - rewrite Hwc. apply ready_empty; try done.
    + eapply linked_inv_ext; [..|apply Hf]; done.
    + rewrite Hbuf. apply Hf.
    + rewrite Hmv. apply Hf.
  - done.
  - done.
  - rewrite Hwc. left.
  - intros x Hx. rewrite Hl. apply Hsplit, Hcov, elem_of_app. by left.
  - intros x Hx. rewrite Hl. destruct (Hsplit x) as [Hx1|Hx1];
      [apply Hcov, elem_of_app; by right| |by left].
    right. split; [by left|]. intros j Hj Hv. exfalso.
    pose proof (ci_empty _ _ Hinv) as He. rewrite Forall_forall in He.
    rewrite (He x) in Hv; [done|rewrite Hl; apply elem_of_app; by left|done].
  - intros x Hx. destruct (gi_rest _ _ _ _ _ _ _ _ Hg x Hx) as (Hr & Hex & Heq).
    split; [done|]. split; [done|]. intros j Hj. rewrite <- Heq by done.
    unfold valid_bit at 1. rewrite Hb. fold (valid_bit v3 x j).
    apply Bool.eq_iff_eq_true. rewrite (gf_bits _ _ _ _ _ _ _ Hf) by (apply Hr || done). split.
    + intros [[-> _]|[? _]]; [|done]. exfalso.
      destruct (held_release _ _ _ (gr_inv _ _ _ _ _ (gi_ready _ _ _ _ _ _ _ _ Hg))) as (_ & _ & _ & He).
      destruct Hex as (j' & Hj' & Hv'). rewrite <- Heq in Hv' by done. by rewrite He in Hv'.
    + intros Hv. right. split; [done|]. intros (p & Hp & E & _).
      apply (gi_places _ _ _ _ _ _ _ _ Hg p Hp). by rewrite E.
  - intros p Hp. by apply elem_of_nil in Hp.
Qed.

(** The current victim after a flush and the choice of a new target. *)
Lemma cur_retarget v0 m0 held vis rest ts ps g1 v3 m3 v4 c l r idxs cur used :
  gc_inv v0 m0 held vis rest ts ps g1 -> gc_flushed (g_w_chunk g1) held ps (g_vs g1) (g_mem g1) v3 m3 ->
  free_chunk_list v3 = c :: l -> init_gc_w_chunk v3 = Ok v4 ->
  gc_cur r rest idxs cur ts ps g1 -> (exists p, p ∈ ps /\ pd_chunk p = r) ->
  gc_cur r rest idxs cur (c :: ts) [] (GcState v4 m3 0 (wc_chunk_offset (gc_w_chunk v4)) used).
Proof.
  intros Hg Hf Hfr Hi [Hr Hre Hb Hv Hl Hn Hc] (p & Hp & Ep).
  destruct (init_gc_w_chunk_spec v3 held c l (gf_inv _ _ _ _ _ _ _ Hf) Hfr)
    as (v4' & Hi' & Hwc & Hinv & Hl' & Hd & Hs & Hbm & Hw & Hu & Hrb & Hbd & Hbuf & Hmv).
  assert (v4' = v4) as -> by congruence.
  assert (r <> g_w_chunk g1) as Hne.
  { pose proof (ready_victims _ _ _ _ _ (gi_ready _ _ _ _ _ _ _ _ Hg)) as Hvic.
    rewrite Forall_forall in Hvic. destruct (Hvic p Hp) as (_ & _ & ?). congruence. }
  assert (forall j, valid_bit v4 r j = valid_bit v3 r j) as Hv43 by (intros; unfold valid_bit; by rewrite Hbm).
  assert (forall j, 0 <= j -> valid_bit v3 r j = true <->
    valid_bit (g_vs g1) r j = true /\ ~ moved_from ps r j) as Hvb.
  { intros j Hj. rewrite (gf_bits _ _ _ _ _ _ _ Hf) by (apply Hr || done). naive_solver. }
  assert (forall i, i ∈ idxs -> valid_bit v3 r (Z.of_nat i) = valid_bit (g_vs g1) r (Z.of_nat i)) as Hsame.
  { intros i Hin. apply Bool.eq_iff_eq_true. rewrite Hvb by lia.
    split; [by intros [? _]|]. intros ?. split; [done|by apply Hn]. }
  split; cbn [g_vs]; try done.
  - intros i Hin. rewrite Hv43, Hsame by done. intros Hvi. destruct (Hb i Hin Hvi) as (e & R1 & R2).
    exists e. rewrite Hrb, (gf_r_buffer _ _ _ _ _ _ _ Hf), Hd. split; [done|].
    destruct (Hv (Z.of_nat i)) as [Hm|_]; [lia|done|by apply Hn in Hm|].
    rewrite (gf_disk _ _ _ _ _ _ _ Hf); [done| |done].
    destruct (decide (Z.of_nat i < Z.of_nat ENTRIES)); [unfold entry_in_range; lia|].
    exfalso. pose proof (ci_bm _ _ (gr_inv _ _ _ _ _ (gi_ready _ _ _ _ _ _ _ _ Hg))) as [Hbn Hbl].
    unfold valid_bit in Hvi. destruct (vs_bitmap_info (g_vs g1) !! Z.to_nat r) as [bm|] eqn:Eb; [|done].
    eapply Forall_lookup_1 in Hbl; [|exact Eb]. cbn in Hvi.
    rewrite lookup_ge_None_2 in Hvi by lia. done.
  - intros j Hj. rewrite Hv43. intros [R1 R2]%Hvb; [|done]. right.
    by destruct (Hv j Hj R1) as [?|?].
  - destruct (gf_emptied _ _ _ _ _ _ _ Hf p Hp) as [Hfree|(j & Hj & Hbj)]; rewrite Ep in *.
    + rewrite Hfr in Hfree. apply elem_of_cons in Hfree as [->|Hfree]; [left; left|].
      right. left. by rewrite Hl'.
    + right. right. right. pose proof Hbj as [R1 R2]%Hvb; [|done].
      destruct (Hv j Hj R1) as [?|(i & Hin & ->)]; [done|]. exists i. split; [done|]. by rewrite Hv43.
  - intros i _. apply not_moved_nil.
  - rewrite (filter_ext_in _ (fun i => valid_bit (g_vs g1) r (Z.of_nat i) = true)); [done|].
    intros i Hin. by rewrite Hv43, Hsame.
Qed.

(** * The loop over a victim *)

(** Entries moved so far: full targets and the waiting ones. *)
Definition moved_count (ts : list Z) (ps : list pending) : nat :=
  ((length ts - 1) * ENTRIES + length ps)%nat.

Lemma flushed_finished v0 m0 held vis rest ts ps g v' m' cur :
  gc_inv v0 m0 held vis rest ts ps g ->
  gc_flushed (g_w_chunk g) held ps (g_vs g) (g_mem g) v' m' ->
  NoDup (free_chunk_list v0 ++ vis) ->
  (length ts * ENTRIES <= length vis * (ENTRIES - 1) + cur)%nat -> (cur <= ENTRIES - 1)%nat ->
  gc_finished v0 m0 held v' m'.
Proof.
  intros Hg Hf Hnd Hcnt Hcur. split; try apply Hf.
  - eapply gc_same_trans; [apply Hg|apply Hf].
  - eapply free_enough; [exact Hnd| |exact Hcnt|exact Hcur]. by eapply vis_after_flush.
Qed.

(** The state of the loop over victim [r] after it has seen all positions. *)
Definition victim_done (v0 : ValueStorage) (m0 : memory) (held vis rest : list Z) (r : Z)
    (g : gc_state) : Prop :=
  exists ts ps cur, gc_inv v0 m0 held vis rest ts ps g /\ gc_cur r rest [] cur ts ps g /\
    (length ps < ENTRIES)%nat /\ (moved_count ts ps <= length vis * (ENTRIES - 1) + cur)%nat.

Lemma cur_holds r rest i idxs cur ts ps g : gc_cur r rest (i :: idxs) cur ts ps g ->
  (i < ENTRIES)%nat -> valid_bit (g_vs g) r (Z.of_nat i) = true ->
  exists e, gc_r_buffer (g_vs g) !! i = Some e /\ holds (g_vs g) r (Z.of_nat i) e.
Proof.
  intros Hc Hi Hv. destruct (gu_buf _ _ _ _ _ _ _ Hc i) as (e & R1 & R2); [left|done|].
  exists e. split; [done|]. split; [apply Hc|]. split; [unfold entry_in_range; lia|]. done.
Qed.

Lemma gc_entries_spec v0 m0 held vis rest r used_before : forall idxs ts ps cur g,
  NoDup (free_chunk_list v0 ++ vis) -> free_chunk_list v0 <> [] ->
  NoDup idxs -> Forall (fun i => i < ENTRIES)%nat idxs ->
  gc_inv v0 m0 held vis rest ts ps g -> gc_cur r rest idxs cur ts ps g ->
  (length ps < ENTRIES)%nat -> (moved_count ts ps <= length vis * (ENTRIES - 1) + cur)%nat ->
  exists ret g', gc_entries r used_before idxs g = Ok (ret, g') /\
    if ret : bool then gc_finished v0 m0 held (g_vs g') (g_mem g')
    else victim_done v0 m0 held vis rest r g'.
Proof.
  induction idxs as [|i idxs IH]; intros ts ps cur g Hnd Hf0 Hndi Hidx Hg Hc Hroom Hcnt.
  { exists false, g. split; [done|]. by exists ts, ps, cur. }
  pose proof Hndi as [_ Hndi']%NoDup_cons. pose proof Hidx as [Hi Hidx']%Forall_cons.
  destruct (bitmap_at_ok (g_vs g) r) as (b & Hat & Hb & Hlen).
  { apply (ci_bm _ _ (gr_inv _ _ _ _ _ (gi_ready _ _ _ _ _ _ _ _ Hg))). }
  { apply Hc. }
  assert (bit_test b (Z.of_nat i) = Ok (valid_bit (g_vs g) r (Z.of_nat i))) as Hbt.
  { unfold bit_test, valid_bit. rewrite (proj2 (Z.ltb_ge _ _)), Hb by lia. cbn.
    rewrite Nat2Z.id. destruct (lookup_lt_is_Some_2 b i) as [y Hy]; [lia|]. by rewrite Hy. }
  cbn [gc_entries]. rewrite Hat. cbn [mbind res_bind]. rewrite Hbt. cbn [mbind res_bind].
  destruct (valid_bit (g_vs g) r (Z.of_nat i)) eqn:Hv; cbn [negb].
  2: { eapply IH; try done. by eapply cur_skip. }
  destruct (cur_holds _ _ _ _ _ _ _ _ Hc Hi Hv) as (e & He & Hh). rewrite He.
  cbn [of_option mbind res_bind].
  assert (~ moved_from ps r (Z.of_nat i)) as Hnm by (apply Hc; left).
  set (p := Pending e r (Z.of_nat i)). fold (add_pending g r i e).
  pose proof (fun used => inv_add _ _ _ _ _ _ _ _ r i e used Hg Hh (gu_rest _ _ _ _ _ _ _ Hc) Hnm Hroom)
    as Hg1.
  pose proof (fun used => cur_add _ _ _ _ _ _ _ _ e used Hc Hndi Hv) as Hc1.
  pose proof (gi_offset _ _ _ _ _ _ _ _ Hg) as Ho. fold p in Hg1, Hc1.
  assert (length (ps ++ [p]) = S (length ps)) as Hlp by (rewrite length_app; cbn; lia).
  pose proof (gu_count _ _ _ _ _ _ _ (Hc1 0)) as Hcur.
  assert (0 < length ts)%nat as Hts.
  { pose proof (gi_target _ _ _ _ _ _ _ _ Hg) as Ht. destruct ts; [by apply elem_of_nil in Ht|cbn; lia]. }
  destruct (Z.eqb_spec (Z.of_nat (g_w_offset g)) (Z.of_nat ENTRIES - 1)) as [Hfull|Hnot].
  2: { eapply (IH ts (ps ++ [p]) (S cur)); try done; [|unfold moved_count in *; rewrite Hlp; lia].
    rewrite Hlp. lia. }
  destruct (flush_gc_spec _ _ _ _ _ (gi_ready _ _ _ _ _ _ _ _ (Hg1 0))) as (v3 & m3 & Hfl & Hf).
  cbn [g_vs g_mem g_w_chunk] in Hfl, Hf. rewrite Hfl. cbn [mbind res_bind].
  assert (gc_finished v0 m0 held v3 m3) as Hfin.
  { eapply (flushed_finished _ _ _ _ _ _ _ _ _ _ (S cur) (Hg1 0)); try done; [|lia].
    unfold moved_count in Hcnt. nia. }
  destruct (_ || _).
  { eexists true, _. split; [done|]. exact Hfin. }
  destruct (free_chunk_list v3) as [|c l] eqn:Hfr.
  { pose proof (gd_free _ _ _ _ _ Hfin) as Hl. rewrite Hfr in Hl. destruct (free_chunk_list v0); [done|].
    cbn in Hl. lia. }
  destruct (init_gc_w_chunk_spec v3 held c l (gf_inv _ _ _ _ _ _ _ Hf) Hfr) as (v4 & Hi4 & _).
  rewrite Hi4. cbn [mbind res_bind].
  eapply (IH (c :: ts) [] (S cur)); try done.
  - by eapply (inv_retarget _ _ _ _ _ _ _ _ _ v3 m3 v4 c l _ (Hg1 0)).
  - eapply (cur_retarget _ _ _ _ _ _ _ _ v3 m3 v4 c l _ _ _ _ (Hg1 0)); try done.
    exists p. split; [|done]. apply elem_of_app. right. left.
  - cbn. apply wf_entries.
  - unfold moved_count in *. cbn [length]. rewrite Nat.sub_succ, Nat.sub_0_r. nia.
Qed.

(** After its loop a victim counts as visited. *)
Lemma inv_visited v0 m0 held vis rest r cur ts ps g :
  gc_inv v0 m0 held vis rest ts ps g -> gc_cur r rest [] cur ts ps g ->
  gc_inv v0 m0 held (vis ++ [r]) rest ts ps g.
Proof.
  intros [] []. split; try done. intros c [Hc|Hc]%elem_of_app; [by apply gi_vis0|].
  apply list_elem_of_singleton in Hc as ->.
  destruct gu_live0 as [?|[?|[?|(i & Hi & _)]]]; [by left|right|right|by apply elem_of_nil in Hi].
  - split; [by left|]. intros j Hj Hv. destruct (gu_valid0 j Hj Hv) as [?|(i & Hi & _)]; [done|].
    by apply elem_of_nil in Hi.
  - split; [by right|]. intros j Hj Hv. destruct (gu_valid0 j Hj Hv) as [?|(i & Hi & _)]; [done|].
    by apply elem_of_nil in Hi.
Qed.

(** * The loop over victims *)

Lemma count_positions (b : list bool) :
  count b = Z.of_nat (length (filter (fun i => default false (b !! i) = true) (seq 0 (length b)))).
Proof.
  unfold count. assert (b = (fun i => default false (b !! i)) <$> seq 0 (length b)) as Hb.
  { apply list_eq. intros i. rewrite list_lookup_fmap. destruct (decide (i < length b)%nat).
    - rewrite lookup_seq_lt by lia. cbn. by destruct (lookup_lt_is_Some_2 b i) as [x ->].
    - rewrite lookup_seq_ge, lookup_ge_None_2 by lia. done. }
  rewrite Hb at 1. by rewrite filter_fmap, length_fmap.
Qed.

Lemma valid_bit_bound v c j : bm_wf v -> 0 <= j -> valid_bit v c j = true -> j < Z.of_nat ENTRIES.
Proof.
  intros [_ Hl] Hj Hv. unfold valid_bit in Hv.
  destruct (vs_bitmap_info v !! Z.to_nat c) as [b|] eqn:Hb; [|done].
  eapply Forall_lookup_1 in Hl; [|exact Hb]. cbn in Hv.
  destruct (b !! Z.to_nat j) eqn:E; [|done]. apply lookup_lt_Some in E. lia.
Qed.

Lemma read_gc_r_chunk_spec v c :
  exists buf, read_gc_r_chunk v c = Ok (set_gc_r_buffer buf v) /\
    forall i, (i < ENTRIES)%nat ->
      buf !! i = Some (default zero_vs_entry (vs_disk v !! slot c (Z.of_nat i))).
Proof.
  unfold read_gc_r_chunk. rewrite uring_submit_all, Z.eqb_refl. cbn [negb].
  set (n := Z.to_nat _) at 1. pose proof (uring_wait_ok n). rewrite (proj2 (Z.ltb_ge _ _)) by lia.
  eexists. split; [done|]. intros i Hi.
  destruct wf_gc_split as [k Hk]. destruct wf_gc_qd as [q Hq]. pose proof wf_gc_qd_pos.
  destruct (chunk_bytes GC_QD k Hk) as [-> ->]; [done|]. rewrite Hq at 1. rewrite sq_entries_pow2, <- Hq.
  rewrite wf_chunk_size, Z.mul_assoc.
  rewrite lookup_complete_prep_reads by (rewrite length_replicate; lia).
  rewrite bool_decide_true by lia. unfold slot. by rewrite Nat.sub_0_r.
Qed.

(** Moving on to victim [r] once its chunk has been read. *)
Lemma start_victim v0 m0 held vis r rest ts ps g v1 :
  gc_inv v0 m0 held vis (r :: rest) ts ps g -> NoDup (r :: rest) ->
  count (default [] (vs_bitmap_info v0 !! Z.to_nat r)) < Z.of_nat ENTRIES -> bm_wf v0 ->
  read_gc_r_chunk (g_vs g) r = Ok v1 ->
  let g1 := GcState v1 (g_mem g) (g_w_offset g) (g_w_chunk g) (g_used g) in
  gc_inv v0 m0 held vis rest ts ps g1 /\ gc_cur r rest (seq 0 ENTRIES) 0 ts ps g1.
Proof.
  intros Hg Hnd Hcnt Hwf0 Hrd. apply NoDup_cons in Hnd as [Hni Hnd].
  destruct (read_gc_r_chunk_spec (g_vs g) r) as (buf & Hrd' & Hbuf). rewrite Hrd' in Hrd.
  injection Hrd as <-. pose proof Hg as [Hr Ho Hs Ht Hf Hv Hre Hp].
  destruct (Hre r) as (Hrr & (j0 & Hj0 & Hv0) & Hsame); [left|].
  assert (forall j, valid_bit (set_gc_r_buffer buf (g_vs g)) r j = valid_bit (g_vs g) r j) as Hvb by done.
  pose proof (gr_linked _ _ _ _ _ Hr) as Hli. pose proof (ci_bm _ _ (gr_inv _ _ _ _ _ Hr)) as Hwf.
  assert (forall p, p ∈ ps -> pd_chunk p <> r) as Hpr.
  { intros p Hpin E. apply (Hp p Hpin). rewrite E. left. }
  split.
  - split; cbn; try done.
    + destruct Hr as [Hci _ ? ? ? ? ? ?]. split; try done.
      * by eapply chunks_inv_ext; [..|exact Hci].
      * by eapply linked_inv_ext; [..|exact Hli].
    + eapply gc_same_trans; [exact Hs|]. by split.
    + intros c Hc. apply (Hre c). by right.
    + intros p Hpin Hc. apply (Hp p Hpin). by right.
  - split; cbn [g_vs]; try done.
    + intros i Hi Hvi. apply elem_of_seq in Hi. rewrite Hvb in Hvi.
      destruct (li_valid _ _ Hli r (Z.of_nat i)) as (e & He & _); [done|unfold entry_in_range; lia|done|].
      exists e. cbn. rewrite Hbuf by lia. by rewrite He.
    + intros j Hj Hvj. right. exists (Z.to_nat j). rewrite Hvb in Hvj.
      pose proof (valid_bit_bound _ _ _ Hwf Hj Hvj). split; [apply elem_of_seq; lia|lia].
    + right. right. right. rewrite <- Hsame in Hv0 by done.
      pose proof (valid_bit_bound _ _ _ Hwf Hj0 Hv0). exists (Z.to_nat j0).
      split; [apply elem_of_seq; lia|]. rewrite Hvb, Z2Nat.id by lia. done.
    + intros i _ (p & Hpin & E & _). by apply (Hpr p).
    + destruct (bitmap_at_ok v0 r Hwf0 Hrr) as (b & _ & Hb & Hlen).
      rewrite Hb in Hcnt. cbn in Hcnt. rewrite count_positions, Hlen in Hcnt.
      rewrite (filter_ext_in _ (fun i => default false (b !! i) = true)); [lia|].
      intros i _. rewrite Hvb, Hsame by lia. unfold valid_bit. rewrite Hb. cbn. by rewrite Nat2Z.id.
Qed.

(** A target that received nothing goes back to the free list. *)
Lemma unused_target_finished v0 m0 held vis rest ts g :
  gc_inv v0 m0 held vis rest ts [] g -> NoDup (free_chunk_list v0 ++ vis) ->
  (moved_count ts [] <= length vis * (ENTRIES - 1))%nat ->
  gc_finished v0 m0 held (add_free_chunk_list (g_vs g) (g_w_chunk g)) (g_mem g).
Proof.
  intros Hg Hnd Hcnt. pose proof Hg as [Hr Ho Hs Ht Hf Hv Hre Hp].
  pose proof (gr_inv _ _ _ _ _ Hr) as Hci. pose proof (gr_linked _ _ _ _ _ Hr) as Hli. split.
  - destruct Hci as [[? ?] Hnd' Hr' He']. split; cbn.
    + by split.
    + by rewrite <- app_assoc.
    + by rewrite <- app_assoc.
    + rewrite <- app_assoc. eapply Forall_impl; [exact He'|]. done.
  - by eapply linked_inv_ext; [..|exact Hli].
  - eapply gc_same_trans; [exact Hs|]. by split.
  - cbn. rewrite length_app. cbn.
    assert (length (free_chunk_list v0 ++ vis) <= length (free_chunk_list (g_vs g) ++ ts))%nat as Hl.
    { apply nodup_subset_length; [done|]. intros c [Hc|Hc]%elem_of_app; apply elem_of_app.
      - by apply Hf.
      - destruct (Hv c Hc) as [?|[[?|(p & Hpin & _)] _]]; [by right|by left|by apply elem_of_nil in Hpin]. }
    rewrite !length_app in Hl. unfold moved_count in Hcnt. cbn in Hcnt. pose proof wf_entries.
    assert (length ts - 1 <= length vis)%nat by nia. lia.
  - cbn. rewrite (gr_buf _ _ _ _ _ Hr). cbn. by rewrite Nat.sub_0_r.
  - apply (gr_moves _ _ _ _ _ Hr).
Qed.

(** The victims a storage offers: distinct chunks with the number of their
    valid entries, which is positive. *)
Definition used_ok (v : ValueStorage) : Prop :=
  NoDup ((used_chunk_list v).*1) /\
  Forall (fun p => chunk_in_range p.1 /\ 0 < p.2 /\
    p.2 = count (default [] (vs_bitmap_info v !! Z.to_nat p.1))) (used_chunk_list v).

Lemma gc_victims_spec v0 m0 held used_before : used_ok v0 -> bm_wf v0 ->
  free_chunk_list v0 <> [] -> NoDup (free_chunk_list v0 ++ (used_chunk_list v0).*1) ->
  forall n order ts ps g,
  (length (used_chunk_list v0) < n + order)%nat -> (order <= length (used_chunk_list v0))%nat ->
  gc_inv v0 m0 held (take order ((used_chunk_list v0).*1)) (drop order ((used_chunk_list v0).*1)) ts ps g ->
  (length ps < ENTRIES)%nat -> (moved_count ts ps <= order * (ENTRIES - 1))%nat ->
  exists v' m', gc_victims n order used_before g = Ok (v', m') /\ gc_finished v0 m0 held v' m'.
Proof.
  intros [Hund Huok] Hwf0 Hf0 Hnd.
  induction n as [|n IH]; intros order ts ps g Hn Hord Hg Hroom Hcnt; [lia|].
  set (vis := take order _) in *. set (rest := drop order _) in *.
  assert (length vis = order) as Hlv by (unfold vis; rewrite length_take, length_fmap; lia).
  assert (NoDup (free_chunk_list v0 ++ vis)) as Hnd'.
  { rewrite <- (take_drop order ((used_chunk_list v0).*1)), app_assoc in Hnd.
    by apply NoDup_app in Hnd as [? _]. }
  assert (exists v' m', (match gc_moved_entry_list (g_vs g) with
      | [] => Ok (add_free_chunk_list (g_vs g) (g_w_chunk g), g_mem g)
      | _ => flush_gc (g_vs g) (g_mem g) (g_w_chunk g) end) = Ok (v', m') /\
    gc_finished v0 m0 held v' m') as Hend.
  { pose proof (gi_ready _ _ _ _ _ _ _ _ Hg) as Hr. rewrite (gr_moves _ _ _ _ _ Hr).
    destruct ps as [|p ps]; cbn [gc_moves].
    - eexists _, _. split; [done|]. eapply unused_target_finished; [exact Hg|done|]. by rewrite Hlv.
    - destruct (flush_gc_spec _ _ _ _ _ Hr) as (v' & m' & Hfl & Hf). exists v', m'. split; [done|].
      eapply (flushed_finished _ _ _ _ _ _ _ _ _ _ (ENTRIES - 1)%nat Hg Hf Hnd'); [|lia].
      rewrite Hlv. unfold moved_count in Hcnt. cbn [length] in Hcnt.
      pose proof (gi_target _ _ _ _ _ _ _ _ Hg) as Ht. destruct ts; [by apply elem_of_nil in Ht|].
      cbn [length] in *. rewrite Nat.sub_succ, Nat.sub_0_r in Hcnt. nia. }
  cbn [gc_victims]. unfold get_victim_chunk_offset.
  rewrite (gs_used _ _ _ _ (gi_same _ _ _ _ _ _ _ _ Hg)).
  destruct (used_chunk_list v0 !! order) as [[r cnt]|] eqn:Hu; [|exact Hend].
  destruct (Z.eqb_spec cnt (Z.of_nat ENTRIES)) as [_|Hnf]; [exact Hend|].
  rewrite Forall_forall in Huok.
  destruct (Huok (r, cnt)) as (Hrr & Hpos & Hc); [by eapply list_elem_of_lookup_2|]. cbn in Hrr, Hpos, Hc.
  rewrite (proj2 (Z.ltb_ge r 0)) by apply Hrr.
  assert (rest = r :: drop (S order) ((used_chunk_list v0).*1)) as Hrest.
  { unfold rest. apply drop_S. by rewrite list_lookup_fmap, Hu. }
  destruct (read_gc_r_chunk_spec (g_vs g) r) as (buf & Hrd & _). rewrite Hrd. cbn [mbind res_bind].
  assert (count (default [] (vs_bitmap_info v0 !! Z.to_nat r)) < Z.of_nat ENTRIES) as Hless.
  { rewrite <- Hc. destruct (bitmap_at_ok v0 r Hwf0 Hrr) as (b & _ & Hb & Hlen).
    rewrite Hb in Hc. cbn in Hc. pose proof (count_le b). lia. }
  assert (NoDup rest) as Hndr.
  { rewrite <- (take_drop order ((used_chunk_list v0).*1)) in Hund. by apply NoDup_app in Hund as (_ & _ & ?). }
  rewrite Hrest in Hg, Hndr.
  destruct (start_victim _ _ _ _ _ _ _ _ _ _ Hg Hndr Hless Hwf0 Hrd) as [Hg1 Hc1].
  assert (Forall (fun i => i < ENTRIES)%nat (seq 0 ENTRIES)) as Hseq.
  { apply Forall_forall. intros i Hi. apply elem_of_seq in Hi. lia. }
  destruct (gc_entries_spec v0 m0 held vis _ r used_before (seq 0 ENTRIES) ts ps 0 _ Hnd' Hf0
    (NoDup_seq _ _) Hseq Hg1 Hc1 Hroom) as (ret & g' & He & Hret); [rewrite Hlv; lia|].
  rewrite He. cbn [mbind res_bind]. destruct ret; [by eauto|].
  destruct Hret as (ts' & ps' & cur & Hg' & Hc' & Hroom' & Hcnt'). pose proof (gu_count _ _ _ _ _ _ _ Hc').
  eapply (IH (S order) ts' ps'); [lia| | |done|cbn in *; lia].
  - apply lookup_lt_Some in Hu. lia.
  - apply inv_visited with (1 := Hg') in Hc'. unfold vis in Hc'.
    rewrite (take_S_r _ _ r) by (by rewrite list_lookup_fmap, Hu). destruct Hc'. by split.
Qed.

(** * A collection *)

Lemma create_used_chunk_list_spec v : bm_wf v ->
  exists n l, create_used_chunk_list v = Ok (n, set_used_chunk_list l v) /\
    used_ok (set_used_chunk_list l v) /\ n = Z.of_nat (length l).
Proof.
  intros [Hn Hl]. unfold create_used_chunk_list. rewrite (proj2 (Z.ltb_ge _ _)) by lia.
  set (bm := take _ _). set (used := filter _ _). eexists _, _. split; [done|].
  assert (forall c n, (c, n) ∈ imap (fun i b => (Z.of_nat i, count b)) bm ->
    chunk_in_range c /\ n = count (default [] (vs_bitmap_info v !! Z.to_nat c))) as Hall.
  { intros c n (i & b & E & Hb)%elem_of_lookup_imap. injection E as -> ->.
    pose proof (lookup_lt_Some _ _ _ Hb) as Hlt. unfold bm in Hlt, Hb. rewrite length_take in Hlt.
    rewrite lookup_take_lt in Hb by lia. rewrite Nat2Z.id, Hb.
    split; [unfold chunk_in_range; lia|done]. }
  split; [split; cbn|by rewrite std_sort_length].
  - rewrite std_sort_perm. unfold used. eapply sublist_NoDup.
    2: { apply (fmap_sublist fst), sublist_filter. }
    rewrite fmap_imap.
    apply NoDup_alt. intros i j x Hi Hj. rewrite list_lookup_imap in Hi, Hj.
    destruct (bm !! i); [|done]. destruct (bm !! j); [|done]. cbn in Hi, Hj. simplify_eq. lia.
  - rewrite Forall_forall. intros [c n] Hin. rewrite std_sort_perm in Hin. unfold used in Hin.
    apply list_elem_of_filter in Hin as [Hpos Hin]. cbn in Hpos. by destruct (Hall c n Hin).
Qed.

(** The collector's buffer and list as every collection leaves them. *)
Definition gc_clean (v : ValueStorage) : Prop :=
  w_buffer (gc_w_chunk v) = replicate ENTRIES zero_vs_entry /\ gc_moved_entry_list v = [].

(** What a collection guarantees to the rest of the system. *)
Record collected (held : list Z) (v : ValueStorage) (m : memory)
    (v' : ValueStorage) (m' : memory) : Prop := {
  co_values : forall a e, entry_of_at v' m' a e <-> entry_of_at v m a e;
  co_inv : chunks_inv v' held;
  co_linked : linked_inv v' m';
  co_free : (length (free_chunk_list v) <= length (free_chunk_list v'))%nat;
  co_clean : gc_clean v';
  co_self : vs_self v' = vs_self v;
  co_w_chunk : w_chunk v' = w_chunk v;
  co_op : op_mem m' = op_mem m;
  co_dc : dc_mem m' = dc_mem m;
  co_val_addr : forall a, val_addr <$> at_mem m' !! a = val_addr <$> at_mem m !! a;
  co_at : forall a, (forall e, ~ entry_of_at v m a e) -> at_mem m' !! a = at_mem m !! a;
}.

Lemma collected_refl held v m l : chunks_inv v held -> linked_inv v m -> gc_clean v ->
  collected held v m (set_used_chunk_list l v) m.
Proof.
  intros Hci Hli Hcl. split; try done.
  - by eapply chunks_inv_ext; [..|exact Hci].
  - by eapply linked_inv_ext; [..|exact Hli].
Qed.

Lemma free_disjoint_used v held : chunks_inv v held -> used_ok v ->
  NoDup (free_chunk_list v ++ (used_chunk_list v).*1).
Proof.
  intros [Hwf Hnd Hr He] [Hund Huok]. apply NoDup_app in Hnd as (Hnf & _ & _).
  apply NoDup_app. split; [done|]. split; [|done]. intros c Hc Hu.
  apply list_elem_of_fmap in Hu as ([c' n] & -> & Hin). cbn in Hc.
  rewrite Forall_forall in Huok. destruct (Huok _ Hin) as (Hrc & Hpos & Hcnt). cbn in Hrc, Hpos, Hcnt.
  destruct (bitmap_at_ok v c' Hwf Hrc) as (b & _ & Hb & _). rewrite Hb in Hcnt. cbn in Hcnt.
  rewrite Forall_forall in He. assert (count b = 0); [|lia].
  apply (count_zero_empty v c' b Hb), He, elem_of_app. by left.
Qed.

(** The first target is chosen and nothing has been moved yet. *)
Lemma gc_start v m held c l v2 : chunks_inv v held -> linked_inv v m -> gc_clean v -> used_ok v ->
  free_chunk_list v = c :: l -> init_gc_w_chunk v = Ok v2 -> forall used,
  gc_inv v m held [] ((used_chunk_list v).*1) [c] []
    (GcState v2 m 0 (wc_chunk_offset (gc_w_chunk v2)) used).
Proof.
  intros Hci Hli [Hcb Hcm] [Hund Huok] Hfr Hi used.
  destruct (init_gc_w_chunk_spec v held c l Hci Hfr)
    as (v2' & Hi' & Hwc & Hinv & Hl & Hd & Hs & Hb & Hw & Hu & Hrb & Hbd & Hbuf & Hmv).
  assert (v2' = v2) as -> by congruence.
  split; cbn [g_vs g_mem g_w_offset g_w_chunk].
  - rewrite Hwc. apply ready_empty; try done; [|congruence..].
    by eapply linked_inv_ext; [..|exact Hli].
  - done.
  - split; try done. intros a e. by apply entry_of_at_ext.
  - rewrite Hwc. left.
  - intros x Hx. rewrite Hl. rewrite Hfr in Hx. apply elem_of_cons in Hx as [->|?]; [right; left|by left].
  - intros x Hx. by apply elem_of_nil in Hx.
  - intros x Hx. apply list_elem_of_fmap in Hx as ([x' n] & -> & Hin). rewrite Forall_forall in Huok.
    destruct (Huok _ Hin) as (Hrc & Hpos & Hcnt). cbn in Hrc, Hpos, Hcnt |- *. split; [done|].
    destruct (bitmap_at_ok v x' (ci_bm _ _ Hci) Hrc) as (b & _ & Hbb & _). rewrite Hbb in Hcnt. cbn in Hcnt.
    split; [|intros; unfold valid_bit; by rewrite Hb].
    destruct (count_nonzero b) as [i Hib]; [lia|]. exists (Z.of_nat i). split; [lia|].
    unfold valid_bit. rewrite Hbb. cbn. by rewrite Nat2Z.id, Hib.
  - intros p Hp. by apply elem_of_nil in Hp.
Qed.

Lemma garbage_collection_spec v m held :
  chunks_inv v held -> linked_inv v m -> gc_clean v -> free_chunk_list v <> [] ->
  exists v' m', garbage_collection v m = Ok (v', m') /\ collected held v m v' m'.
Proof.
  intros Hci Hli Hcl Hfree. unfold garbage_collection.
  destruct (create_used_chunk_list_spec v (ci_bm _ _ Hci)) as (n & l & Hcr & Hu & ->). rewrite Hcr.
  cbn [mbind res_bind]. set (v1 := set_used_chunk_list l v) in *.
  assert (chunks_inv v1 held) as Hci1 by (by eapply chunks_inv_ext; [..|exact Hci]).
  assert (linked_inv v1 m) as Hli1 by (by eapply linked_inv_ext; [..|exact Hli]).
  destruct (Z.ltb_spec (Z.of_nat (length l)) 2); [eexists _, _; split; [done|by apply collected_refl]|].
  change (used_chunk_list v1) with l.
  destruct l as [|c1 [|c2 l]]; [cbn in *; lia|cbn in *; lia|]. cbn [lookup list_lookup of_option mbind res_bind].
  destruct (_ <? _); [eexists _, _; split; [done|by apply collected_refl]|].
  destruct (free_chunk_list v) as [|c fl] eqn:Hfl; [done|].
  destruct (init_gc_w_chunk_spec v1 held c fl Hci1 Hfl) as (v2 & Hi & _). rewrite Hi. cbn [mbind res_bind].
  pose proof (gc_start v1 m held c fl v2 Hci1 Hli1 Hcl Hu Hfl Hi (to_i32 (get_used_chunk_num v))) as Hg.
  destruct (gc_victims_spec v1 m held (to_i32 (get_used_chunk_num v)) Hu (ci_bm _ _ Hci1)) with
    (n := S (length (used_chunk_list v2))) (order := 0%nat) (ts := [c]) (ps := @nil pending)
    (g := GcState v2 m 0 (wc_chunk_offset (gc_w_chunk v2)) (to_i32 (get_used_chunk_num v)))
    as (v' & m' & Hgv & Hfin).
  - change (free_chunk_list v1) with (free_chunk_list v). by rewrite Hfl.
  - by eapply free_disjoint_used.
  - pose proof (gs_used _ _ _ _ (gi_same _ _ _ _ _ _ _ _ Hg)) as E. cbn [g_vs] in E. rewrite E. lia.
  - lia.
  - exact Hg.
  - cbn. apply wf_entries.
  - cbn. lia.
  - exists v', m'. split; [exact Hgv|]. destruct Hfin as [? ? [] Hfr ? ?]. cbn in Hfr. rewrite Hfl in Hfr.
    split; try done. by rewrite Hfl.
Qed.

End gc_loop.
