(* ===== verification/Storage.v ===== *)
(** The value storage as a map ([ValueStorage.cpp]: [put_vs_entry],
    [init_w_chunk], [forced_write_chunk]).

    [stored v m a e]: the storage holds entry [e] for address-table entry [a],
    on disk or in the buffer of a writer.  [storage_inv] ties together the
    ownership of chunks, the links between slots and the address table, and
    the buffers being filled.  The theorems of this file say that
    [put_vs_entry], on every branch and whatever collection it triggers, adds
    one entry to that map and changes nothing else, and that writing out a
    buffer changes nothing. *)

From S2P Require Import Prelude Config TaggedPtr Objects IoUring ValueStorage ChunkWrite.
From S2P Require Import ChunkAlloc GarbageCollection GcLoop.

Local Open Scope Z_scope.

Section storage.
Context `{Config} `{IoUring} `{StdSort}.
Context `{!WfConfig _} `{!IoUringOk _}.

Abbreviation ENTRIES := MTS_VS_ENTRIES_PER_CHUNK.

(** * Writers *)

(** The chunk a writer holds and the entries waiting in its buffer. *)
Definition w_held (w : w_chunk_t) : list Z :=
  if (wc_entry_offset w =? 0)%nat then [] else [wc_chunk_offset w].
Definition w_pending (w : w_chunk_t) : list vs_entry_t := take (wc_entry_offset w) (w_buffer w).

Definition w_ok (m : memory) (w : w_chunk_t) : Prop :=
  length (w_buffer w) = ENTRIES /\
  if (wc_entry_offset w =? 0)%nat then moved_entry_list w = []
  else chunk_filling m w (w_pending w).

Definition all_held (ws : list w_chunk_t) : list Z := ws ≫= w_held.
Definition all_pending (ws : list w_chunk_t) : list vs_entry_t := ws ≫= w_pending.

(** * The invariant *)

Section inv.
(** The key of an address-table entry, as the index records it. *)
Context (K : gmap Z Z).

Definition keyed (e : vs_entry_t) : Prop := K !! ve_at_entry e = Some (ve_key e).

Definition K_inj : Prop := forall a b k, K !! a = Some k -> K !! b = Some k -> a = b.

(** The storage with writers [ws] and one more that holds [held] and has [pe]
    waiting. *)
Record sinv (held : list Z) (pe : list vs_entry_t) (ws : list w_chunk_t)
    (v : ValueStorage) (m : memory) : Prop := {
  si_inj : K_inj;
  si_chunks : chunks_inv v (held ++ all_held ws);
  si_linked : linked_inv v m;
  si_clean : gc_clean v;
  si_ws : Forall (w_ok m) ws;
  si_pe_live : Forall (fun e => ve_at_entry e <> 0 /\ is_Some (at_mem m !! ve_at_entry e)) pe;
  si_distinct : NoDup (ve_at_entry <$> (pe ++ all_pending ws));
  si_keyed : Forall keyed (pe ++ all_pending ws);
  si_keyed_disk : forall c j e, holds v c j e -> keyed e;
  si_apart : forall c j e, holds v c j e -> ve_at_entry e ∉ ve_at_entry <$> (pe ++ all_pending ws);
}.

Definition storage_inv (v : ValueStorage) (m : memory) : Prop := sinv [] [] (w_chunk v) v m.

Lemma chunks_inv_perm v held held' : held ≡ₚ held' -> chunks_inv v held -> chunks_inv v held'.
Proof. intros Hp [? Hnd Hr He]. rewrite Hp in Hnd, Hr, He. by split. Qed.

Lemma sinv_perm held pe ws ws' v m : ws ≡ₚ ws' -> sinv held pe ws v m -> sinv held pe ws' v m.
Proof.
  intros Hp []. assert (all_pending ws ≡ₚ all_pending ws') as Hpp by (unfold all_pending; by rewrite Hp).
  assert (all_held ws ≡ₚ all_held ws') as Hph by (unfold all_held; by rewrite Hp).
  split; try done.
  - eapply chunks_inv_perm; [|done]. by rewrite Hph.
  - by rewrite <- Hp.
  - by rewrite <- Hpp.
  - by rewrite <- Hpp.
  - intros c j e Hh. rewrite <- Hpp. by eapply si_apart0.
Qed.

(** One writer taken out of the list. *)
Lemma sinv_take w ws v m : sinv [] [] (w :: ws) v m -> sinv (w_held w) (w_pending w) ws v m.
Proof.
  intros []. apply Forall_cons in si_ws0 as [[Hl Hw] Hws]. split; try done.
  unfold w_pending. destruct (Nat.eqb_spec (wc_entry_offset w) 0) as [->|]; [by rewrite take_0|].
  apply Hw.
Qed.

Lemma sinv_put w ws v m : w_ok m w -> sinv (w_held w) (w_pending w) ws v m -> sinv [] [] (w :: ws) v m.
Proof. intros Hw []. split; try done. by constructor. Qed.

(** * What the storage holds *)

Definition stored_with (pe : list vs_entry_t) (ws : list w_chunk_t) (v : ValueStorage) (m : memory)
    (a : Z) (e : vs_entry_t) : Prop :=
  entry_of_at v m a e \/
  e ∈ pe ++ all_pending ws /\ ve_at_entry e = a /\
    exists x, at_mem m !! a = Some x /\ superseded x = false.

Definition stored (v : ValueStorage) (m : memory) (a : Z) (e : vs_entry_t) : Prop :=
  stored_with [] (w_chunk v) v m a e.

Lemma stored_perm pe pe' ws ws' v m a e : pe ++ all_pending ws ≡ₚ pe' ++ all_pending ws' ->
  stored_with pe ws v m a e <-> stored_with pe' ws' v m a e.
Proof. intros Hp. unfold stored_with. by rewrite Hp. Qed.

(** An entry waiting in a buffer is not on disk. *)
Lemma pending_no_entry held pe ws v m e : sinv held pe ws v m -> e ∈ pe ++ all_pending ws ->
  forall e', ~ entry_of_at v m (ve_at_entry e) e'.
Proof.
  intros Hi He e' (E & c & j & Hh & _). apply (si_apart _ _ _ _ _ Hi c j e' Hh).
  rewrite E. by apply list_elem_of_fmap_2.
Qed.

Lemma w_ok_mono m m' w : (forall a, is_Some (at_mem m !! a) -> is_Some (at_mem m' !! a)) ->
  w_ok m w -> w_ok m' w.
Proof.
  intros Hm [Hl Hw]. split; [done|]. destruct (_ =? _)%nat; [done|]. destruct Hw. split; try done.
  eapply Forall_impl; [exact cf_live|]. naive_solver.
Qed.

(** What the rest of the system sees of an operation of the storage. *)
Record mem_same (m m' : memory) : Prop := {
  ms_op : op_mem m' = op_mem m;
  ms_dc : dc_mem m' = dc_mem m;
  ms_val_addr : forall a, val_addr <$> at_mem m' !! a = val_addr <$> at_mem m !! a;
}.

Lemma mem_same_refl m : mem_same m m.
Proof. by split. Qed.

Lemma mem_same_trans m m1 m2 : mem_same m m1 -> mem_same m1 m2 -> mem_same m m2.
Proof. intros [] []. split; congruence. Qed.

Lemma mem_same_live m m' a : mem_same m m' -> is_Some (at_mem m !! a) -> is_Some (at_mem m' !! a).
Proof.
  intros [_ _ Hv] [x Hx]. specialize (Hv a). rewrite Hx in Hv. by destruct (at_mem m' !! a).
Qed.

Lemma mem_same_upd_at m a x x' : at_mem m !! a = Some x -> val_addr x' = val_addr x ->
  mem_same m (upd_at m a x').
Proof.
  intros Hx Hv. split; [done|done|]. intros b. cbn. destruct (decide (a = b)) as [<-|].
  - rewrite lookup_insert_eq, Hx. cbn. by rewrite Hv.
  - by rewrite lookup_insert_ne.
Qed.

(** ... and of the address table: an operation on a storage changes only the
    address-table entries whose value the storage holds afterwards. *)
Record vs_frame (v : ValueStorage) (m : memory) (v' : ValueStorage) (m' : memory) : Prop := {
  fr_self : vs_self v' = vs_self v;
  fr_at : forall a, (forall e, ~ stored v' m' a e) -> at_mem m' !! a = at_mem m !! a;
}.

Lemma vs_frame_refl v m : vs_frame v m v m.
Proof. by split. Qed.

Lemma vs_frame_trans v m v1 m1 v2 m2 : (forall a e, stored v1 m1 a e -> stored v2 m2 a e) ->
  vs_frame v m v1 m1 -> vs_frame v1 m1 v2 m2 -> vs_frame v m v2 m2.
Proof.
  intros Hst [S1 A1] [S2 A2]. split; [congruence|]. intros a Hno. rewrite A2 by done. apply A1.
  intros e He. by eapply Hno, Hst.
Qed.

(** * Changes that leave the buffers alone *)

(** When the disk part of a storage keeps its values and the address-table
    entries outside it, the invariant and the map are kept. *)
Lemma sinv_disk held held' pe ws v m v' m' :
  sinv held pe ws v m -> chunks_inv v' (held' ++ all_held ws) -> linked_inv v' m' -> gc_clean v' ->
  mem_same m m' -> (forall a e, entry_of_at v' m' a e <-> entry_of_at v m a e) ->
  (forall a, (forall e, ~ entry_of_at v m a e) -> at_mem m' !! a = at_mem m !! a) ->
  sinv held' pe ws v' m' /\ forall a e, stored_with pe ws v' m' a e <-> stored_with pe ws v m a e.
Proof.
  intros Hi Hch Hli Hcl Hms Hval Hat. pose proof Hi as [Hinj _ _ _ Hws Hpl Hnd Hk Hkd Hap]. split.
  - assert (forall c j e, holds v' c j e -> exists c0 j0, holds v c0 j0 e) as Hor.
    { intros c j e Hh. pose proof (holds_entry_of_at _ _ _ _ _ Hli Hh) as Hv.
      apply Hval in Hv as (_ & c0 & j0 & Hh0 & _). eauto. }
    split; try done.
    + eapply Forall_impl; [exact Hws|]. intros w. apply w_ok_mono. intros a. by apply mem_same_live.
    + eapply Forall_impl; [exact Hpl|]. intros e [? ?]. split; [done|]. by eapply mem_same_live.
    + intros c j e (c0 & j0 & Hh)%Hor. by eapply Hkd.
    + intros c j e (c0 & j0 & Hh)%Hor. by eapply Hap.
  - intros a e. unfold stored_with. rewrite Hval.
    assert (e ∈ pe ++ all_pending ws -> ve_at_entry e = a -> at_mem m' !! a = at_mem m !! a) as Hsame.
    { intros He <-. apply Hat. by eapply pending_no_entry. }
    split; (intros [?|(He & Ea & x & Hx & Hs)]; [by left|right]); (split; [done|split; [done|]]).
    + rewrite Hsame in Hx by done. eauto.
    + rewrite <- Hsame in Hx by done. eauto.
Qed.

Lemma collect_sinv held pe ws v m v' m' :
  sinv held pe ws v m -> collected (held ++ all_held ws) v m v' m' ->
  sinv held pe ws v' m' /\ forall a e, stored_with pe ws v' m' a e <-> stored_with pe ws v m a e.
Proof.
  intros Hi []. eapply sinv_disk; [exact Hi|done..| |done|done]. by split.
Qed.

(** [init_w_chunk]: whether or not it collects, the writer is given an empty
    chunk nobody holds and the map is unchanged. *)
Lemma init_w_chunk_spec ws v m i w :
  sinv [] [] ws v m -> w_chunk v !! i = Some w -> free_chunk_list v <> [] ->
  exists v' m' c, init_w_chunk v m i = Ok (v', m') /\ sinv [c] [] ws v' m' /\
    w_chunk v' = <[i := WChunk (Z.of_nat i) c 0 true (w_buffer w) (s_buffer w)
                          (moved_entry_list w)]> (w_chunk v) /\
    vs_self v' = vs_self v /\ (length (free_chunk_list v) <= S (length (free_chunk_list v')))%nat /\
    mem_same m m' /\
    (forall a e, stored_with [] ws v' m' a e <-> stored_with [] ws v m a e) /\
    (forall a, (forall e, ~ entry_of_at v m a e) -> at_mem m' !! a = at_mem m !! a) /\
    (forall a e, entry_of_at v' m' a e <-> entry_of_at v m a e).
Proof.
  intros Hi Hw Hfree.
  assert (exists v1 m1, (if not_enough_free_chunk v then garbage_collection (set_flags true true v) m
      else Ok (set_flags false true v, m)) = Ok (v1, m1) /\ collected (all_held ws) v m v1 m1) as Hgc.
  { destruct Hi as [_ Hch Hli Hcl _ _ _ _ _ _].
    assert (forall b1 b2, chunks_inv (set_flags b1 b2 v) (all_held ws)) as Hch'
      by (intros; by eapply chunks_inv_ext; [..|exact Hch]).
    assert (forall b1 b2, linked_inv (set_flags b1 b2 v) m) as Hli'
      by (intros; by eapply linked_inv_ext; [..|exact Hli]).
    destruct (not_enough_free_chunk v).
    - destruct (garbage_collection_spec (set_flags true true v) m (all_held ws) (Hch' _ _) (Hli' _ _) Hcl Hfree)
        as (v1 & m1 & Hg & Hc). exists v1, m1. split; [exact Hg|]. destruct Hc. by split.
    - eexists _, _. split; [done|]. by split. }
  destruct Hgc as (v1 & m1 & Hg & Hc). unfold init_w_chunk. rewrite Hg. cbn [mbind res_bind].
  destruct (collect_sinv [] [] ws v m v1 m1 Hi Hc) as [Hi1 Hst1].
  destruct (free_chunk_list v1) as [|c fl] eqn:Hfl.
  { pose proof (co_free _ _ _ _ _ Hc) as Hlen. rewrite Hfl in Hlen. cbn in Hlen.
    destruct (free_chunk_list v); [done|cbn in Hlen; lia]. }
  destruct (get_free_chunk_spec v1 (all_held ws) c fl) as [Hgf Hch]; [apply Hi1|done|].
  rewrite Hgf. cbn [mbind res_bind]. unfold get_w_chunk. cbn [w_chunk set_free_chunk_list].
  rewrite (co_w_chunk _ _ _ _ _ Hc), Hw. cbn [of_option mbind res_bind].
  set (v2 := set_flags _ _ _). exists v2, m1, c. split; [done|].
  assert (forall a e, entry_of_at v2 m1 a e <-> entry_of_at v1 m1 a e) as Heq
    by (intros; by apply entry_of_at_ext).
  destruct (sinv_disk [] [c] [] ws v1 m1 v2 m1 Hi1) as [Hi2 Hst2]; try done.
  { by eapply chunks_inv_ext; [..|exact Hch]. }
  { by eapply linked_inv_ext; [..|apply Hi1]. }
  { by destruct (co_clean _ _ _ _ _ Hc). }
  split; [exact Hi2|]. split; [cbn; by rewrite (co_w_chunk _ _ _ _ _ Hc)|].
  split; [apply (co_self _ _ _ _ _ Hc)|].
  split; [pose proof (co_free _ _ _ _ _ Hc) as Hlen; rewrite Hfl in Hlen; exact Hlen|].
  split; [destruct Hc; by split|].
  split; [intros; by rewrite Hst2, Hst1|]. split; [apply (co_at _ _ _ _ _ Hc)|].
  intros a e. by rewrite Heq, (co_values _ _ _ _ _ Hc).
Qed.

(** * Writing out a buffer *)

Section flush.
Context (c : Z) (es : list vs_entry_t) (ws : list w_chunk_t).
Context (v v' : ValueStorage) (m m' : memory).
Context (Hinv : sinv [c] es ws v m) (Hcl : chunk_linked c es v m v' m').

Lemma flush_c : chunk_in_range c /\ empty_chunk v c /\ chunks_inv v' (all_held ws).
Proof using Hcl Hinv.
  destruct (held_release v c (all_held ws) (si_chunks _ _ _ _ _ Hinv)) as (_ & _ & Hr & He).
  split; [done|]. split; [done|].
  eapply chunks_inv_release; [exact (si_chunks _ _ _ _ _ Hinv)|apply Hcl|apply Hcl|apply Hcl].
Qed.

Lemma flush_slot_out c' j : entry_in_range j -> c' <> c ->
  vs_disk v' !! slot c' j = vs_disk v !! slot c' j.
Proof using Hcl.
  intros Hj Hne. apply (cl_disk _ _ _ _ _ _ Hcl). unfold entry_in_range, slot in *. nia.
Qed.

(** What is on disk afterwards: what was, and the entries not updated since. *)
Lemma flush_holds c' j e : holds v' c' j e ->
  (holds v c' j e /\ c' <> c) \/
  (e ∈ es /\ c' = c /\ points_to v' m' (ve_at_entry e) (slot c j) /\
   exists x, at_mem m !! ve_at_entry e = Some x /\ superseded x = false).
Proof using Hcl Hinv.
  intros (Hc & Hj & Hv & Hd). destruct flush_c as (Hr & He & _).
  destruct (decide (c' = c)) as [->|Hne].
  - right. destruct (cl_new _ _ _ _ _ _ Hcl j) as [Hold|(e' & x & Hin & Hx & Hs & Hat & Hd')];
      [apply Hj|done| |].
    { rewrite (He j) in Hold; [done|apply Hj]. }
    unfold slot in Hd. assert (e' = e) as -> by congruence. split; [done|]. split; [done|].
    split; [|eauto]. eexists. split; [exact Hat|]. cbn. by rewrite (cl_self _ _ _ _ _ _ Hcl).
  - left. split; [|done]. split; [done|]. split; [done|].
    rewrite (cl_bits _ _ _ _ _ _ Hcl) in Hv by (done || apply Hc || apply Hj).
    by rewrite flush_slot_out in Hd.
Qed.

Lemma flush_kept c' j e : holds v c' j e -> holds v' c' j e /\ at_mem m' !! ve_at_entry e = at_mem m !! ve_at_entry e.
Proof using Hcl Hinv.
  intros Hh. pose proof Hh as (Hc & Hj & Hv & Hd). destruct flush_c as (Hr & He & _).
  assert (c' <> c) as Hne by (intros ->; rewrite (He j) in Hv; [done|apply Hj]). split.
  - split; [done|]. split; [done|].
    rewrite (cl_bits _ _ _ _ _ _ Hcl), flush_slot_out by (done || apply Hc || apply Hj). done.
  - apply (cl_frame _ _ _ _ _ _ Hcl). intros Hin.
    apply (si_apart _ _ _ _ _ Hinv c' j e Hh). rewrite fmap_app. apply elem_of_app. by left.
Qed.

Lemma flush_new e x : e ∈ es -> at_mem m !! ve_at_entry e = Some x -> superseded x = false ->
  exists j, holds v' c j e.
Proof using Hcl Hinv.
  intros He Hx Hs. destruct (cl_linked _ _ _ _ _ _ Hcl e x He Hx Hs) as (j & Hj & _ & Hd & Hv).
  exists j. split; [apply flush_c|]. done.
Qed.

Lemma flush_linked_inv : linked_inv v' m'.
Proof using Hcl Hinv.
  pose proof (si_linked _ _ _ _ _ Hinv) as Hli. split.
  - intros c' j Hc Hj Hv. destruct flush_c as (Hr & He & _).
    assert (exists e, vs_disk v' !! slot c' j = Some e) as [e Hd].
    { destruct (decide (c' = c)) as [->|Hne].
      - destruct (cl_new _ _ _ _ _ _ Hcl j) as [Hold|(e' & x & _ & _ & _ & _ & Hd')]; [apply Hj|done| |eauto].
        rewrite (He j) in Hold; [done|apply Hj].
      - rewrite (cl_bits _ _ _ _ _ _ Hcl) in Hv by (done || apply Hc || apply Hj).
        destruct (li_valid _ _ Hli c' j Hc Hj Hv) as (e & Hd & _). exists e. by rewrite flush_slot_out. }
    exists e. split; [done|]. assert (holds v' c' j e) as Hh by done.
    destruct (flush_holds c' j e Hh) as [[Hh0 Hne]|(Hin & -> & Hp & _)].
    + pose proof Hh0 as (_ & _ & Hv0 & Hd0).
      destruct (li_valid _ _ Hli c' j Hc Hj Hv0) as (e0 & Hd1 & Hnz & x & Hx & Hpt).
      assert (e0 = e) as -> by congruence. split; [done|]. exists x.
      rewrite (proj2 (flush_kept c' j e Hh0)), (cl_self _ _ _ _ _ _ Hcl). done.
    + split; [|done]. pose proof (si_pe_live _ _ _ _ _ Hinv) as Hpl. rewrite Forall_forall in Hpl.
      by apply Hpl.
  - intros c1 j1 c2 j2 e1 e2 R1 R2 E.
    assert (forall c' j e, holds v' c' j e -> keyed e) as Hk.
    { intros c' j e [[Hh _]|(Hin & _)]%flush_holds; [by eapply (si_keyed_disk _ _ _ _ _ Hinv)|].
      pose proof (si_keyed _ _ _ _ _ Hinv) as Hk. rewrite Forall_forall in Hk.
      apply Hk, elem_of_app. by left. }
    apply Hk in R1. apply Hk in R2. unfold keyed in *. rewrite E in R1.
    by eapply (si_inj _ _ _ _ _ Hinv).
Qed.

Lemma flush_mem_same : mem_same m m'.
Proof using Hcl Hinv.
  split; [apply Hcl|apply Hcl|]. intros a.
  destruct (decide (a ∈ ve_at_entry <$> es)) as [Hin|Hni]; [|by rewrite (cl_frame _ _ _ _ _ _ Hcl)].
  apply list_elem_of_fmap in Hin as (e & -> & He).
  destruct (at_mem m !! ve_at_entry e) as [x|] eqn:Hx.
  - destruct (superseded x) eqn:Hs.
    + by rewrite (cl_superseded _ _ _ _ _ _ Hcl e x He Hx Hs).
    + by destruct (cl_linked _ _ _ _ _ _ Hcl e x He Hx Hs) as (j & _ & -> & _).
  - exfalso. pose proof (si_pe_live _ _ _ _ _ Hinv) as Hpl. rewrite Forall_forall in Hpl.
    destruct (Hpl e He) as [_ [y Hy]]. congruence.
Qed.

(** The buffer's entries become entries on disk: the map is unchanged. *)
Lemma flush_sinv : gc_clean v' -> sinv [] [] ws v' m' /\
  (forall a e, stored_with [] ws v' m' a e <-> stored_with es ws v m a e).
Proof using Hcl Hinv.
  intros Hclean. pose proof Hinv as [Hinj Hch Hli Hgc Hws Hpl Hnd Hk Hkd Hap].
  rewrite fmap_app in Hnd. apply NoDup_app in Hnd as (Hnd1 & Hdis & Hnd2).
  apply Forall_app in Hk as [Hk1 Hk2]. rewrite Forall_forall in Hk1, Hpl.
  assert (forall e, e ∈ all_pending ws -> at_mem m' !! ve_at_entry e = at_mem m !! ve_at_entry e) as Hfr.
  { intros e He. apply (cl_frame _ _ _ _ _ _ Hcl). intros Hin.
    apply (Hdis _ Hin). by apply list_elem_of_fmap_2. }
  split.
  - split; try done.
    + apply flush_c.
    + apply flush_linked_inv.
    + eapply Forall_impl; [exact Hws|]. intros w. apply w_ok_mono. intros a.
      apply mem_same_live, flush_mem_same.
    + intros c' j e [[Hh _]|(Hin & _)]%flush_holds; [by eapply Hkd|by apply Hk1].
    + intros c' j e [[Hh _]|(Hin & _)]%flush_holds.
      * intros Hin. apply (Hap c' j e Hh). rewrite fmap_app. apply elem_of_app. by right.
      * apply Hdis. by apply list_elem_of_fmap_2.
  - intros a e. unfold stored_with. rewrite (entry_of_at_alt v' m') by apply flush_linked_inv.
    rewrite (entry_of_at_alt v m) by done. cbn [app]. rewrite elem_of_app. split.
    + intros [(Ea & c' & j & [[Hh _]|(Hin & _ & _ & x & Hx & Hs)]%flush_holds)|(Hin & Ea & x & Hx & Hs)].
      * left. eauto.
      * right. split; [by left|]. split; [done|]. rewrite <- Ea. eauto.
      * right. split; [by right|]. split; [done|]. subst a. rewrite Hfr in Hx by done. eauto.
    + intros [(Ea & c' & j & Hh)|([Hin|Hin] & Ea & x & Hx & Hs)].
      * left. split; [done|]. exists c', j. by apply flush_kept.
      * left. split; [done|]. subst a. destruct (flush_new e x Hin Hx Hs) as [j Hh]. eauto.
      * right. split; [done|]. split; [done|]. subst a. rewrite <- Hfr in Hx by done. eauto.
Qed.
End flush.

(** * One more entry in a buffer *)

Lemma buffer_sinv c es ws v m w i key val a x :
  sinv [c] es ws v m -> w_chunk v !! i = Some w -> chunk_filling m w es -> wc_chunk_offset w = c ->
  (length es < ENTRIES)%nat -> a <> 0 -> at_mem m !! a = Some x -> K !! a = Some key ->
  a ∉ ve_at_entry <$> (es ++ all_pending ws) -> (forall e, ~ entry_of_at v m a e) ->
  exists w' m', buffer_entry v m i key val a = Ok (put_w_chunk v i w', m') /\
    wc_chunk_offset w' = c /\ (forall n, (length es < n)%nat -> w_buffer w' !! n = w_buffer w !! n) /\
    m' = upd_at m a (set_vs_offset PRE_VALUESTORAGE_VAL x) /\
    chunk_filling m' w' (es ++ [VsEntry a key val]) /\
    sinv [c] (es ++ [VsEntry a key val]) ws (put_w_chunk v i w') m' /\
    (forall a' e', stored_with (es ++ [VsEntry a key val]) ws (put_w_chunk v i w') m' a' e' <->
       stored_with es ws v m a' e' \/ (a' = a /\ e' = VsEntry a key val)).
Proof.
  intros Hi Hw Hf Hc Hroom Ha Hx HK Hni Hno. pose proof Hi as [Hinj Hch Hli Hgc Hws Hpl Hnd Hk Hkd Hap].
  pose proof Hni as Hni'. rewrite fmap_app, not_elem_of_app in Hni. destruct Hni as [Hni1 Hni2].
  assert (key ∉ ve_key <$> es) as Hkey.
  { intros Hin. apply list_elem_of_fmap in Hin as (e & Ek & He). apply Hni1.
    rewrite Forall_app, Forall_forall in Hk. destruct Hk as [Hk _]. specialize (Hk e He).
    unfold keyed in Hk. rewrite <- Ek in Hk. rewrite (Hinj _ _ _ HK Hk). by apply list_elem_of_fmap_2. }
  destruct (buffer_entry_fills v m i w es key val a x Hw Hf Hroom Ha Hx Hkey Hni1)
    as (w' & Hb & Hc' & Hout & Hf').
  set (m' := upd_at m a (set_vs_offset PRE_VALUESTORAGE_VAL x)) in *. set (e0 := VsEntry a key val) in *.
  exists w', m'. split; [done|]. split; [congruence|]. split; [done|]. split; [done|]. split; [done|].
  assert (mem_same m m') as Hms by (by eapply mem_same_upd_at).
  assert (forall b, b <> a -> at_mem m' !! b = at_mem m !! b) as Hoth
    by (intros b Hb'; cbn; by rewrite lookup_insert_ne).
  assert (forall c' j e, holds v c' j e -> ve_at_entry e <> a) as Hne.
  { intros c' j e Hh E. apply (Hno e). rewrite <- E. by eapply holds_entry_of_at. }
  assert (linked_inv v m') as Hli'.
  { destruct Hli as [Hlv Hlk]. split; [|exact Hlk]. intros c' j Hc0 Hj0 Hv.
    destruct (Hlv c' j Hc0 Hj0 Hv) as (e & Hd & Hnz & y & Hy & Hp). exists e. do 2 (split; [done|]).
    exists y. rewrite Hoth; [done|]. by apply (Hne c' j). }
  assert (forall b e, entry_of_at v m' b e <-> entry_of_at v m b e) as Hval.
  { intros b e. by rewrite !entry_of_at_alt by done. }
  assert (es ++ [e0] ++ all_pending ws ≡ₚ e0 :: (es ++ all_pending ws)) as Hp
    by (symmetry; apply Permutation_middle).
  split.
  - assert (sinv [c] (es ++ [e0]) ws v m') as Hi'.
    2: { eapply sinv_disk; [exact Hi'|..]; try done.
      - by eapply chunks_inv_ext; [..|exact Hch].
      - by eapply linked_inv_ext; [..|exact Hli']. }
    split; try done; rewrite <- ?app_assoc, ?Hp; try done.
    + eapply Forall_impl; [exact Hws|]. intros w0. apply w_ok_mono. intros b. by apply mem_same_live.
    + apply Forall_app. split; [|constructor; [|done]].
      * eapply Forall_impl; [exact Hpl|]. intros e [? ?]. split; [done|]. by eapply mem_same_live.
      * split; [done|]. cbn. by rewrite lookup_insert_eq.
    + cbn. by constructor.
    + by constructor.
    + intros c' j e Hh. rewrite Hp. cbn. apply not_elem_of_cons.
      split; [by apply (Hne c' j)|by eapply Hap].
  - intros a' e'. unfold stored_with. rewrite <- (Hval a' e').
    change (entry_of_at (put_w_chunk v i w') m' a' e') with (entry_of_at v m' a' e').
    rewrite <- app_assoc, Hp, elem_of_cons. split.
    + intros [?|([->|Hin] & Ea & y & Hy & Hs)]; [by left; left|by right|left; right].
      split; [done|]. split; [done|]. exists y. split; [|done]. rewrite <- Hy. symmetry. apply Hoth.
      rewrite <- Ea. intros E. apply Hni'. rewrite <- E. by apply list_elem_of_fmap_2.
    + intros [[?|(Hin & Ea & y & Hy & Hs)]|[-> ->]]; [by left|right..].
      * split; [by right|]. split; [done|]. exists y. split; [|done]. rewrite <- Hy. apply Hoth.
        rewrite <- Ea. intros E. apply Hni'. rewrite <- E. by apply list_elem_of_fmap_2.
      * split; [by left|]. split; [done|]. cbn. rewrite lookup_insert_eq. by eexists.
Qed.

(** * [put_vs_entry] *)

Lemma writer_out v m i w : storage_inv v m -> w_chunk v !! i = Some w ->
  w_ok m w /\ sinv (w_held w) (w_pending w) (delete i (w_chunk v)) v m.
Proof.
  intros Hi Hw. apply (sinv_perm _ _ _ _ _ _ (delete_Permutation _ _ _ Hw)) in Hi.
  split; [|by apply sinv_take]. pose proof (si_ws _ _ _ _ _ Hi) as Hws.
  by apply Forall_cons in Hws as [? _].
Qed.

Lemma delete_insert_same {A} (l : list A) i x : delete i (<[i := x]> l) = delete i l.
Proof.
  revert i. induction l as [|y l IH]; intros [|i]; [done..|]. cbn. f_equal. apply IH.
Qed.

Lemma writer_in l v m i w w' : l !! i = Some w -> w_chunk v = <[i := w']> l -> w_ok m w' ->
  sinv (w_held w') (w_pending w') (delete i l) v m -> storage_inv v m.
Proof.
  intros Hl Hv Hok Hi. unfold storage_inv. rewrite Hv.
  eapply sinv_perm; [|by eapply sinv_put]. symmetry. rewrite <- (delete_insert_same l i w').
  apply delete_Permutation, list_lookup_insert_eq. by eapply lookup_lt_Some.
Qed.

Lemma stored_out v m i w a e : w_chunk v !! i = Some w ->
  stored v m a e <-> stored_with (w_pending w) (delete i (w_chunk v)) v m a e.
Proof.
  intros Hw. apply stored_perm. cbn [app]. unfold all_pending.
  rewrite (delete_Permutation _ _ _ Hw) at 1. done.
Qed.

Lemma filling_pending m w es : chunk_filling m w es -> w_pending w = es.
Proof. intros []. unfold w_pending. by rewrite cf_offset. Qed.

Lemma filling_ok m w es : chunk_filling m w es -> es <> [] ->
  w_ok m w /\ w_held w = [wc_chunk_offset w].
Proof.
  intros Hf Hne. pose proof (filling_pending _ _ _ Hf) as Hp. pose proof Hf as [? ? Ho ? ? ? ? ? ?].
  unfold w_ok, w_held. destruct es as [|e es]; [done|]. rewrite Ho. cbn. rewrite Hp. done.
Qed.

(** The buffered entry completes [put_vs_entry] on all branches. *)
Lemma put_finish l v m i w es key val a x c :
  w_chunk v !! i = Some w -> delete i (w_chunk v) = delete i l ->
  sinv [c] es (delete i l) v m -> chunk_filling m w es -> wc_chunk_offset w = c ->
  (length es < ENTRIES)%nat -> a <> 0 -> at_mem m !! a = Some x -> K !! a = Some key ->
  a ∉ ve_at_entry <$> (es ++ all_pending (delete i l)) -> (forall e, ~ entry_of_at v m a e) ->
  exists v' m' w', buffer_entry v m i key val a = Ok (v', m') /\ storage_inv v' m' /\ mem_same m m' /\
    (forall a' e', stored v' m' a' e' <->
       stored_with es (delete i l) v m a' e' \/ (a' = a /\ e' = VsEntry a key val)) /\
    w_chunk v' = <[i := w']> (w_chunk v) /\ w_pending w' = es ++ [VsEntry a key val] /\
    wc_entry_offset w' = S (length es) /\ free_chunk_list v' = free_chunk_list v /\
    vs_self v' = vs_self v /\ (forall b, b <> a -> at_mem m' !! b = at_mem m !! b).
Proof.
  intros Hw Hl Hi Hf Hc Hroom Ha Hx HK Hni Hno.
  destruct (buffer_sinv c es _ v m w i key val a x Hi Hw Hf Hc Hroom Ha Hx HK Hni Hno)
    as (w' & m' & Hb & Hc' & _ & Hm & Hf' & Hi' & Hst).
  pose proof (filling_pending _ _ _ Hf') as Hp.
  destruct (filling_ok _ _ _ Hf') as [Hok Hheld]; [by destruct es|].
  assert (w_chunk (put_w_chunk v i w') !! i = Some w') as Hw'
    by (cbn; apply list_lookup_insert_eq; by eapply lookup_lt_Some).
  exists (put_w_chunk v i w'), m', w'. split; [done|]. split; [|split; [|split]].
  - eapply (writer_in (w_chunk v)); [exact Hw|done|done|]. by rewrite Hheld, Hc', Hp, Hl.
  - rewrite Hm. by eapply mem_same_upd_at.
  - intros a' e'. rewrite (stored_out _ _ _ _ _ _ Hw'), Hp. cbn [w_chunk put_w_chunk set_w_chunk].
    by rewrite delete_insert_same, Hl, Hst.
  - split; [done|]. split; [done|]. split; [rewrite (cf_offset _ _ _ Hf'), length_app; cbn; lia|].
    split; [done|]. split; [done|]. intros b Hne. rewrite Hm. cbn. by rewrite lookup_insert_ne.
Qed.

Lemma init_filling m w i c : length (w_buffer w) = ENTRIES -> chunk_in_range c ->
  chunk_filling m (WChunk (Z.of_nat i) c 0 true (w_buffer w) (s_buffer w) []) [].
Proof. intros Hl Hc. split; try done; constructor. Qed.

(** A writer that holds nothing is given a chunk and the entry put in it. *)
Lemma put_fresh l v m i w key val a x :
  w_chunk v !! i = Some w -> delete i (w_chunk v) = delete i l -> free_chunk_list v <> [] ->
  sinv [] [] (delete i l) v m -> length (w_buffer w) = ENTRIES -> moved_entry_list w = [] ->
  a <> 0 -> at_mem m !! a = Some x -> K !! a = Some key ->
  a ∉ ve_at_entry <$> all_pending (delete i l) -> (forall e, ~ entry_of_at v m a e) ->
  exists v1 m1 v' m' w1 w', init_w_chunk v m i = Ok (v1, m1) /\ w_chunk v1 !! i = Some w1 /\
    wc_entry_offset w1 = 0%nat /\
    buffer_entry v1 m1 i key val a = Ok (v', m') /\ storage_inv v' m' /\ mem_same m m' /\
    (forall a' e', stored v' m' a' e' <->
       stored_with [] (delete i l) v m a' e' \/ (a' = a /\ e' = VsEntry a key val)) /\
    w_chunk v' = <[i := w']> (w_chunk v) /\ w_pending w' = [VsEntry a key val] /\
    wc_entry_offset w' = 1%nat /\
    (length (free_chunk_list v) <= S (length (free_chunk_list v')))%nat /\
    vs_self v' = vs_self v /\
    (forall b, b <> a -> (forall e, ~ entry_of_at v m b e) -> at_mem m' !! b = at_mem m !! b).
Proof.
  intros Hw Hl Hfree Hi Hlen Hmv Ha Hx HK Hni Hno.
  destruct (init_w_chunk_spec _ v m i w Hi Hw Hfree)
    as (v1 & m1 & c & Hin & Hi1 & Hwc & Hself & Hfr & Hms & Hst & Hat & Hval).
  rewrite Hmv in Hwc. set (w1 := WChunk _ _ _ _ _ _ _) in Hwc.
  assert (w_chunk v1 !! i = Some w1) as Hw1
    by (rewrite Hwc; apply list_lookup_insert_eq; by eapply lookup_lt_Some).
  destruct (put_finish l v1 m1 i w1 [] key val a x c)
    as (v' & m' & w' & Hb & Hi' & Hms' & Hst' & Hwc' & Hp' & Ho' & Hfr' & Hs' & Hat'); try done.
  - by rewrite Hwc, delete_insert_same.
  - apply init_filling; [done|]. pose proof (ci_range _ _ (si_chunks _ _ _ _ _ Hi1)) as Hr.
    rewrite Forall_app, Forall_app, Forall_singleton in Hr. apply Hr.
  - cbn. apply wf_entries.
  - by rewrite Hat.
  - intros e. rewrite Hval. apply Hno.
  - exists v1, m1, v', m', w1, w'. do 5 (split; [done|]). split; [by eapply mem_same_trans|].
    split; [intros a' e'; by rewrite Hst', Hst|].
    split; [by rewrite Hwc', Hwc, list_insert_insert_eq|]. split; [done|]. split; [done|].
    split; [by rewrite Hfr'|]. split; [congruence|]. intros b Hne Hb0. by rewrite Hat', Hat.
Qed.

(** Writing out the buffer of a writer that holds entries. *)
Lemma flush_writer v m i w : storage_inv v m -> w_chunk v !! i = Some w ->
  wc_entry_offset w <> 0%nat -> buffer_clear_at w (wc_entry_offset w) ->
  exists v1 m1 w1, flush_chunk v m i = Ok (v1, m1) /\ sinv [] [] (delete i (w_chunk v)) v1 m1 /\
    w_chunk v1 = <[i := w1]> (w_chunk v) /\ length (w_buffer w1) = ENTRIES /\
    moved_entry_list w1 = [] /\ wc_entry_offset w1 = wc_entry_offset w /\
    free_chunk_list v1 = free_chunk_list v /\ mem_same m m1 /\
    (forall a, a ∉ ve_at_entry <$> w_pending w -> at_mem m1 !! a = at_mem m !! a) /\
    (forall a e, stored_with [] (delete i (w_chunk v)) v1 m1 a e <-> stored v m a e) /\
    vs_self v1 = vs_self v /\
    (forall a, (forall e, ~ stored v m a e) -> at_mem m1 !! a = at_mem m !! a).
Proof.
  intros Hi Hw Hne Hclr. destruct (writer_out v m i w Hi Hw) as [[Hlen Hok] Hi1].
  destruct (Nat.eqb_spec (wc_entry_offset w) 0) as [|_]; [done|].
  assert (w_held w = [wc_chunk_offset w]) as Hheld.
  { unfold w_held. by destruct (Nat.eqb_spec (wc_entry_offset w) 0). }
  rewrite Hheld in Hi1. pose proof (cf_offset _ _ _ Hok) as Ho. rewrite Ho in Hclr.
  destruct (flush_chunk_spec v m i w (w_pending w)) as (v1 & m1 & Hfl & Hcl & Hw1); [done| | |].
  { by apply filling_ready. }
  { apply (si_chunks _ _ _ _ _ Hi1). }
  unfold flushed in Hw1. set (w1 := WChunk _ _ _ _ _ _ _) in Hw1. exists v1, m1, w1. split; [done|].
  destruct (flush_sinv _ _ _ _ _ _ _ Hi1 Hcl) as [Hi2 Hst].
  { destruct (si_clean _ _ _ _ _ Hi1) as [Hc1 Hc2]. unfold gc_clean, gc_moved_entry_list in *.
    by rewrite (cl_gc _ _ _ _ _ _ Hcl). }
  split; [done|]. split; [done|]. split; [apply length_sort_w_buffer|]. split; [done|]. split; [done|].
  split; [apply Hcl|]. split; [by eapply flush_mem_same|]. split; [apply Hcl|].
  split; [intros a e; by rewrite Hst, (stored_out _ _ _ _ _ _ Hw)|]. split; [apply Hcl|].
  intros a Hno. destruct (decide (a ∈ ve_at_entry <$> w_pending w)) as [Hin|Hni]; [|by apply Hcl].
  apply list_elem_of_fmap in Hin as (e & -> & He).
  pose proof (si_pe_live _ _ _ _ _ Hi1) as Hpl. rewrite Forall_forall in Hpl. destruct (Hpl e He) as [_ [x Hx]].
  destruct (superseded x) eqn:Hs; [by rewrite Hx, (cl_superseded _ _ _ _ _ _ Hcl e x He Hx Hs)|].
  exfalso. apply (Hno e). apply (stored_out _ _ _ _ _ _ Hw). right.
  split; [apply elem_of_app; by left|]. split; [done|]. by exists x.
Qed.

(** A new entry for address-table entry [a] may be put: [a] is live, known to
    the index under [key] and not in the storage. *)
Record put_pre (v : ValueStorage) (m : memory) (key a : Z) : Prop := {
  pp_nonnull : a <> 0;
  pp_live : is_Some (at_mem m !! a);
  pp_key : K !! a = Some key;
  pp_pending : a ∉ ve_at_entry <$> all_pending (w_chunk v);
  pp_disk : forall e, ~ entry_of_at v m a e;
}.

(** Entries a writer can still take before it needs a chunk. *)
Definition w_room (w : w_chunk_t) : nat :=
  if (wc_entry_offset w =? 0)%nat then 0%nat else (ENTRIES - wc_entry_offset w)%nat.

(** The position of the next entry, once room has been made for it. *)
Definition next_offset (w : w_chunk_t) : nat :=
  if (wc_entry_offset w =? ENTRIES)%nat then 1%nat else S (wc_entry_offset w).

(** What a put by writer [i], which was [w], does besides storing the entry. *)
Record put_writer (i : nat) (w : w_chunk_t) (a : Z) (v v' : ValueStorage) : Prop := {
  pw_writer : exists w', w_chunk v' = <[i := w']> (w_chunk v) /\
    wc_entry_offset w' = next_offset w /\
    (length (free_chunk_list v) * ENTRIES + w_room w <=
     S (length (free_chunk_list v') * ENTRIES + w_room w'))%nat;
  pw_pending : forall e, e ∈ all_pending (w_chunk v') ->
    e ∈ all_pending (w_chunk v) \/ ve_at_entry e = a;
}.

Lemma put_writer_intro i w w' e v v' pe :
  w_chunk v !! i = Some w -> w_chunk v' = <[i := w']> (w_chunk v) ->
  w_pending w' = pe ++ [e] -> (forall x, x ∈ pe -> x ∈ w_pending w) ->
  wc_entry_offset w' = next_offset w ->
  (length (free_chunk_list v) * ENTRIES + w_room w <=
   S (length (free_chunk_list v') * ENTRIES + w_room w'))%nat ->
  put_writer i w (ve_at_entry e) v v'.
Proof.
  intros Hw Hw' Hp Hsub Ho Hroom. split; [by exists w'|]. intros x Hx. rewrite Hw' in Hx.
  assert (<[i := w']> (w_chunk v) !! i = Some w') as Hl
    by (apply list_lookup_insert_eq; by eapply lookup_lt_Some).
  unfold all_pending in *. rewrite (delete_Permutation _ _ _ Hl), delete_insert_same in Hx.
  rewrite (delete_Permutation _ _ _ Hw). cbn in *. apply elem_of_app in Hx as [Hx|Hx].
  - rewrite Hp in Hx. apply elem_of_app in Hx as [Hx|Hx].
    + left. apply elem_of_app. left. by apply Hsub.
    + right. by apply list_elem_of_singleton in Hx as ->.
  - left. apply elem_of_app. by right.
Qed.

Lemma put_frame v m v' m' a e : vs_self v' = vs_self v ->
  (forall a' e', stored v' m' a' e' <-> stored v m a' e' \/ (a' = a /\ e' = e)) ->
  (forall b, b <> a -> (forall e, ~ stored v m b e) -> at_mem m' !! b = at_mem m !! b) -> vs_frame v m v' m'.
Proof.
  intros Hs Hst Hat. split; [done|]. intros b Hno. apply Hat.
  - intros ->. apply (Hno e), Hst. by right.
  - intros e' He. apply (Hno e'), Hst. by left.
Qed.

(** The three cases of [put_vs_entry]: the writer holds no chunk, its chunk has
    room, its chunk is full. *)
Section put_cases.
Context (v : ValueStorage) (m : memory) (i : nat) (w : w_chunk_t) (key val a : Z).
Context (Hi : storage_inv v m) (Hw : w_chunk v !! i = Some w) (Hfree : (0 < length (free_chunk_list v) * ENTRIES + w_room w)%nat).
Context (Hpre : put_pre v m key a).

Definition put_done : Prop :=
  exists v' m', put_vs_entry v m i key val a = Ok (v', m') /\ storage_inv v' m' /\ mem_same m m' /\
    (forall a' e', stored v' m' a' e' <-> stored v m a' e' \/ (a' = a /\ e' = VsEntry a key val)) /\
    put_writer i w a v v' /\ vs_frame v m v' m'.

Lemma put_not_pending : a ∉ ve_at_entry <$> (w_pending w ++ all_pending (delete i (w_chunk v))).
Proof. pose proof (pp_pending _ _ _ _ Hpre) as Hnp. unfold all_pending in *. by rewrite (delete_Permutation _ _ _ Hw) in Hnp. Qed.

Ltac put_start :=
  destruct Hpre as [Ha [x Hx] HK Hnp Hno]; destruct (writer_out v m i w Hi Hw) as [[Hlen Hok] Hi1];
  pose proof put_not_pending as Hni; pose proof wf_entries as HE; pose proof Hfree as Hfr0; unfold put_done;
  change a with (ve_at_entry (VsEntry a key val)) at 4;
  unfold put_vs_entry, get_w_chunk; rewrite Hw; cbn [of_option mbind res_bind]; unfold w_room in Hfr0.

Lemma put_no_chunk : wc_entry_offset w = 0%nat -> put_done.
Proof.
  intros Hz. put_start. destruct (Nat.eqb_spec (wc_entry_offset w) 0) as [_|]; [|done].
  assert (w_held w = [] /\ w_pending w = []) as [Hh Hp].
  { unfold w_held, w_pending. by rewrite Hz. }
  rewrite Hh, Hp in Hi1. rewrite Hp in Hni.
  destruct (put_fresh (w_chunk v) v m i w key val a x)
    as (v1 & m1 & v' & m' & w1 & w' & Hin & Hw1 & Ho & Hb & Hi' & Hms & Hst & Hwc & Hpw & How & Hfr & Hs & Hat); try done.
  { intros E. rewrite E in Hfr0. cbn in Hfr0. lia. }
  rewrite Hin. cbn [mbind res_bind]. rewrite Hw1. cbn [of_option mbind res_bind]. rewrite Ho.
  rewrite bool_decide_true by done. exists v', m'. do 3 (split; [done|]).
  assert (forall a' e', stored v' m' a' e' <-> stored v m a' e' \/ (a' = a /\ e' = VsEntry a key val)) as Hst'
    by (intros a' e'; by rewrite Hst, (stored_out v m i w a' e' Hw), Hp).
  split; [exact Hst'|]. split; [|eapply put_frame; [done|exact Hst'|]].
  2: { intros b Hb' Hnb. apply Hat; [done|]. intros e He. apply (Hnb e). by left. }
  eapply (put_writer_intro i w w' _ v v' []); try done.
  + intros y Hy. by apply elem_of_nil in Hy.
  + unfold next_offset. rewrite Hz. destruct (Nat.eqb_spec 0 ENTRIES); [lia|done].
  + unfold w_room. rewrite Hz, How. cbn. nia.
Qed.

Lemma put_held : wc_entry_offset w <> 0%nat -> w_held w = [wc_chunk_offset w].
Proof. intros Hnz. unfold w_held. by destruct (Nat.eqb_spec (wc_entry_offset w) 0). Qed.

Lemma put_with_room : wc_entry_offset w <> 0%nat -> (wc_entry_offset w < ENTRIES)%nat -> put_done.
Proof.
  intros Hnz Hroom. put_start. destruct (Nat.eqb_spec (wc_entry_offset w) 0) as [|_]; [done|]. cbn [mbind res_bind]. rewrite Hw. cbn [of_option mbind res_bind].
  pose proof (cf_offset _ _ _ Hok) as Ho. rewrite (put_held Hnz) in Hi1. rewrite bool_decide_true by done.
  destruct (put_finish (w_chunk v) v m i w (w_pending w) key val a x (wc_chunk_offset w))
    as (v' & m' & w' & Hb & Hi' & Hms & Hst & Hwc & Hpw & How & Hfr & Hs & Hat); try done; [lia|].
  exists v', m'. do 3 (split; [done|]).
  assert (forall a' e', stored v' m' a' e' <-> stored v m a' e' \/ (a' = a /\ e' = VsEntry a key val)) as Hst'
    by (intros a' e'; by rewrite Hst, (stored_out v m i w a' e' Hw)).
  split; [exact Hst'|]. split; [|eapply put_frame; [done|exact Hst'|auto]].
  eapply (put_writer_intro i w w' _ v v' (w_pending w)); try done.
  * unfold next_offset. destruct (Nat.eqb_spec (wc_entry_offset w) ENTRIES); [lia|congruence].
  * unfold w_room. rewrite How, <- Ho, Hfr. cbn.
    destruct (Nat.eqb_spec (wc_entry_offset w) 0); [done|]. lia.
Qed.

Lemma put_full : wc_entry_offset w <> 0%nat -> ~ (wc_entry_offset w < ENTRIES)%nat -> put_done.
Proof.
  intros Hnz Hroom. put_start. destruct (Nat.eqb_spec (wc_entry_offset w) 0) as [|_]; [done|]. cbn [mbind res_bind]. rewrite Hw. cbn [of_option mbind res_bind].
  pose proof (cf_offset _ _ _ Hok) as Ho. rewrite (put_held Hnz) in Hi1. rewrite bool_decide_false by done.
  assert (wc_entry_offset w = ENTRIES) as Hfull.
  { unfold w_pending in Ho. rewrite length_take in Ho. lia. }
  rewrite Hfull, Nat.eqb_refl.
  destruct (flush_writer v m i w Hi Hw Hnz)
    as (v1 & m1 & w1 & Hfl & Hi2 & Hwc & Hl1 & Hm1 & _ & Hfr & Hms & Hat & Hst1 & Hs1 & Hat1); [by left|].
  rewrite Hfl. cbn [mbind res_bind]. rewrite fmap_app, not_elem_of_app in Hni. destruct Hni as [Hni1 Hni2].
  assert (w_chunk v1 !! i = Some w1) as Hw1
    by (rewrite Hwc; apply list_lookup_insert_eq; by eapply lookup_lt_Some).
  destruct (put_fresh (w_chunk v) v1 m1 i w1 key val a x)
    as (v2 & m2 & v' & m' & w2 & w' & Hin & _ & _ & Hb & Hi' & Hms' & Hst & Hwc' & Hpw & How & Hfr' & Hs' & Hat'); try done.
  { by rewrite Hwc, delete_insert_same. }
  { rewrite Hfr. intros E. rewrite E in Hfr0. cbn in Hfr0. lia. }
  { by rewrite Hat. }
  { intros e He. destruct (Hst1 a e) as [Hs _]. destruct Hs as [Hs|(Hin & Ea & _)]; [by left|by eapply Hno|].
    cbn in Hin. apply Hnp. rewrite <- Ea. by apply list_elem_of_fmap_2. }
  rewrite Hin. cbn [mbind res_bind]. exists v', m'. split; [done|]. split; [done|].
  split; [by eapply mem_same_trans|].
  assert (forall a' e', stored v' m' a' e' <-> stored v m a' e' \/ (a' = a /\ e' = VsEntry a key val)) as Hst'
    by (intros a' e'; by rewrite Hst, Hst1).
  split; [exact Hst'|]. split; [|eapply put_frame; [congruence|exact Hst'|]].
  2: { intros b Hb' Hnb. rewrite Hat', Hat1; [done|exact Hnb|exact Hb'|].
       intros e He. apply (Hnb e), Hst1. by left. }
  eapply (put_writer_intro i w w' _ v v' []); try done.
  * by rewrite Hwc', Hwc, list_insert_insert_eq.
  * intros y Hy. by apply elem_of_nil in Hy.
  * unfold next_offset. by rewrite Hfull, Nat.eqb_refl.
  * unfold w_room. rewrite How, Hfull. cbn. rewrite Hfr in Hfr'.
    destruct (Nat.eqb_spec ENTRIES 0); [lia|]. nia.
Qed.
End put_cases.

Lemma put_vs_entry_spec v m i w key val a :
  storage_inv v m -> w_chunk v !! i = Some w -> (0 < length (free_chunk_list v) * ENTRIES + w_room w)%nat ->
  put_pre v m key a ->
  exists v' m', put_vs_entry v m i key val a = Ok (v', m') /\ storage_inv v' m' /\ mem_same m m' /\
    (forall a' e', stored v' m' a' e' <-> stored v m a' e' \/ (a' = a /\ e' = VsEntry a key val)) /\
    put_writer i w a v v' /\ vs_frame v m v' m'.
Proof.
  intros Hi Hw Hfree Hpre. destruct (decide (wc_entry_offset w = 0%nat)); [by apply put_no_chunk|].
  destruct (decide (wc_entry_offset w < ENTRIES)%nat); [by apply put_with_room|by apply put_full].
Qed.

(** [forced_write_chunk] writes out a partial buffer. *)
Lemma forced_write_chunk_spec v m i w :
  storage_inv v m -> w_chunk v !! i = Some w -> wc_entry_offset w <> 0%nat ->
  buffer_clear_at w (wc_entry_offset w) ->
  exists v' m', forced_write_chunk v m i = Ok (v', m') /\ storage_inv v' m' /\ mem_same m m' /\
    (exists w', w_chunk v' = <[i := w']> (w_chunk v) /\ w_pending w' = [] /\ wc_entry_offset w' = 0%nat) /\
    vs_frame v m v' m' /\ forall a e, stored v' m' a e <-> stored v m a e.
Proof.
  intros Hi Hw Hnz Hclr.
  destruct (flush_writer v m i w Hi Hw Hnz Hclr) as (v1 & m1 & w1 & Hfl & Hi2 & Hwc & Hl1 & Hm1 & _ & _ & Hms & _ & Hst & Hs1 & Hat1).
  assert (w_chunk v1 !! i = Some w1) as Hw1
    by (rewrite Hwc; apply list_lookup_insert_eq; by eapply lookup_lt_Some).
  unfold forced_write_chunk, get_w_chunk. rewrite Hfl. cbn [mbind res_bind]. rewrite Hw1.
  cbn [of_option mbind res_bind]. rewrite Hm1. set (w2 := WChunk _ _ _ _ _ _ _).
  assert (w_chunk (put_w_chunk v1 i w2) !! i = Some w2) as Hw2
    by (cbn; apply list_lookup_insert_eq; by eapply lookup_lt_Some).
  assert (forall a e, stored (put_w_chunk v1 i w2) m1 a e <-> stored v m a e) as Hst'.
  { intros a e. rewrite <- Hst, (stored_out _ _ _ _ _ _ Hw2). cbn [w_chunk put_w_chunk set_w_chunk].
    by rewrite Hwc, !delete_insert_same. }
  exists (put_w_chunk v1 i w2), m1. split; [done|]. split; [|split; [done|split; [|split; [|done]]]].
  - eapply (writer_in (w_chunk v1) _ _ i w1 w2); [done|done|done|].
    rewrite Hwc, delete_insert_same. change (w_held w2) with (@nil Z). change (w_pending w2) with (@nil vs_entry_t).
    eapply (sinv_disk [] [] [] _ v1 m1); [exact Hi2|..]; try done.
    + eapply chunks_inv_ext; [..|apply (si_chunks _ _ _ _ _ Hi2)]; done.
    + eapply linked_inv_ext; [..|apply (si_linked _ _ _ _ _ Hi2)]; done.
    + apply Hi2.
  - exists w2. cbn [w_chunk put_w_chunk set_w_chunk]. by rewrite Hwc, list_insert_insert_eq.
  - split; [done|]. intros a Hno. apply Hat1. intros e He. by apply (Hno e), Hst'.
Qed.

(** * The constructor *)

Lemma create_bit self f mem_w mem_gc c j : valid_bit (create self f mem_w mem_gc) c j = false.
Proof.
  unfold valid_bit. cbn [vs_bitmap_info create]. unfold init_vs_bitmap_info.
  destruct (_ !! Z.to_nat c) as [b|] eqn:Hb; [|done]. cbn.
  apply list_elem_of_lookup_2, elem_of_app in Hb.
  assert (b = replicate ENTRIES false) as -> by (by destruct Hb as [Hb|Hb]; apply elem_of_replicate in Hb as [? _]).
  destruct (replicate ENTRIES false !! Z.to_nat j) as [x|] eqn:Hx; [|done].
  by apply lookup_replicate in Hx as [-> _].
Qed.

Lemma bind_nil_all {A B} (f : A -> list B) l : Forall (fun x => f x = []) l -> l ≫= f = [].
Proof. induction 1 as [|x l Hx _ IH]; [done|]. rewrite bind_cons, Hx. exact IH. Qed.

Lemma create_storage_inv self f mem_w m :
  K_inj -> (forall i, length (mem_w i) = ENTRIES) ->
  storage_inv (create self f mem_w (replicate ENTRIES zero_vs_entry)) m.
Proof.
  intros HK Hlen. set (mem_gc := replicate ENTRIES zero_vs_entry). set (v := create self f mem_w mem_gc).
  assert (forall c j e, ~ holds v c j e) as Hno.
  { intros c j e (_ & _ & Hv & _). unfold v in Hv. by rewrite create_bit in Hv. }
  assert (all_held (w_chunk v) = [] /\ all_pending (w_chunk v) = []) as [Hh Hp].
  { split; apply bind_nil_all; apply Forall_fmap, Forall_forall; intros i _; done. }
  split; rewrite ?Hh, ?Hp; try done.
  - cbn [app]. split; cbn [free_chunk_list v create]; rewrite ?app_nil_r.
    + split; unfold v; cbn [vs_bitmap_info create]; unfold init_vs_bitmap_info.
      * rewrite length_app, length_replicate. pose proof wf_chunk_num. lia.
      * apply Forall_app. split; apply Forall_replicate, length_replicate.
    + unfold init_free_chunk_list. apply NoDup_fmap_2; [apply _|apply NoDup_seq].
    + unfold init_free_chunk_list. apply Forall_fmap, Forall_forall. intros i Hi.
      apply elem_of_seq in Hi. unfold chunk_in_range. cbn. lia.
    + apply Forall_forall. intros c _ j _. apply create_bit.
  - split; [|intros ? ? ? ? e ? Hh1; by apply Hno in Hh1].
    intros c j _ _ Hv. unfold v in Hv. by rewrite create_bit in Hv.
  - cbn [v create w_chunk]. apply Forall_fmap, Forall_forall. intros i _. split; [apply Hlen|done].
  - constructor.
  - intros c j e Hh1. by apply Hno in Hh1.
  - intros c j e Hh1. by apply Hno in Hh1.
Qed.

(** [put_vs_entry].  On a storage in which the invariant holds and a free
    chunk exists, putting an entry for an address-table entry that is not in
    the storage always returns, on every branch (the writer holds no chunk,
    its chunk has room, its chunk is full and is written out; with or without
    a collection): the invariant holds again and the map from address-table
    entries to stored entries is the old one with this entry added.  Write
    buffers, cache entries and value addresses are untouched.  Room for an
    entry is room in the writer's chunk or a free chunk, and each put uses up
    the room of one entry at most. *)
Theorem put_vs_entry_correct v m i w key val a :
  storage_inv v m -> w_chunk v !! i = Some w -> (0 < length (free_chunk_list v) * ENTRIES + w_room w)%nat ->
  put_pre v m key a ->
  exists v' m', put_vs_entry v m i key val a = Ok (v', m') /\ storage_inv v' m' /\ mem_same m m' /\
    (forall a' e', stored v' m' a' e' <-> stored v m a' e' \/ (a' = a /\ e' = VsEntry a key val)) /\
    put_writer i w a v v' /\ vs_frame v m v' m'.
Proof. apply put_vs_entry_spec. Qed.

(** [forced_write_chunk] on a writer with entries waiting, whose buffer is
    full or clear after them, returns, leaves the writer empty, and changes
    neither the invariant nor the map. *)
Theorem forced_write_chunk_correct v m i w :
  storage_inv v m -> w_chunk v !! i = Some w -> wc_entry_offset w <> 0%nat ->
  buffer_clear_at w (wc_entry_offset w) ->
  exists v' m', forced_write_chunk v m i = Ok (v', m') /\ storage_inv v' m' /\ mem_same m m' /\
    (exists w', w_chunk v' = <[i := w']> (w_chunk v) /\ w_pending w' = [] /\ wc_entry_offset w' = 0%nat) /\
    vs_frame v m v' m' /\ forall a e, stored v' m' a e <-> stored v m a e.
Proof. apply forced_write_chunk_spec. Qed.
End inv.
End storage.
