(* ===== verification/StorageIdle.v ===== *)
(** Storages between operations: no writer has entries waiting.

    An idle storage is the map of the entries on its disk.  This file says
    how its invariant depends on the rest of the system: on the index of keys,
    on the address table, and on [unlink_to_at], with which an update drops
    the old value of a key. *)

From S2P Require Import Prelude Config TaggedPtr Objects IoUring ValueStorage ChunkWrite.
From S2P Require Import ChunkAlloc GarbageCollection GcLoop Storage.

Local Open Scope Z_scope.

Section idle.
Context `{Config} `{IoUring} `{StdSort}.
Context `{!WfConfig _} `{!IoUringOk _}.

Definition idle (v : ValueStorage) : Prop := Forall (fun w => wc_entry_offset w = 0%nat) (w_chunk v).

Lemma idle_empty v : idle v -> all_held (w_chunk v) = [] /\ all_pending (w_chunk v) = [].
Proof.
  intros Hi. split; apply bind_nil_all; (eapply Forall_impl; [exact Hi|]); intros w Hw.
  - unfold w_held. by rewrite Hw.
  - unfold w_pending. by rewrite Hw.
Qed.

Lemma stored_idle v m a e : idle v -> stored v m a e <-> entry_of_at v m a e.
Proof.
  intros Hi. destruct (idle_empty v Hi) as [_ Hp]. unfold stored, stored_with. rewrite Hp. cbn.
  split; [|by left]. intros [?|(Hin & _)]; [done|by apply elem_of_nil in Hin].
Qed.

Lemma idle_insert v i w : idle v -> wc_entry_offset w = 0%nat -> Forall (fun w => wc_entry_offset w = 0%nat) (<[i := w]> (w_chunk v)).
Proof. intros Hi Hw. by apply Forall_insert. Qed.

(** The invariant of an idle storage, without its buffers. *)
Lemma storage_idle_intro K v m : K_inj K -> idle v -> chunks_inv v [] -> linked_inv v m -> gc_clean v ->
  Forall (w_ok m) (w_chunk v) -> (forall c j e, holds v c j e -> keyed K e) -> storage_inv K v m.
Proof.
  intros HK Hi Hch Hli Hcl Hws Hk. destruct (idle_empty v Hi) as [Hh Hp].
  split; rewrite ?Hh, ?Hp; try done; [constructor|].
  intros c j e _ Hin. by apply elem_of_nil in Hin.
Qed.

Lemma w_ok_idle v m m' : idle v -> Forall (w_ok m) (w_chunk v) -> Forall (w_ok m') (w_chunk v).
Proof.
  unfold idle. rewrite !Forall_forall. intros Hi Hw w Hin. specialize (Hw w Hin). specialize (Hi w Hin).
  unfold w_ok in *. by rewrite Hi in *.
Qed.

(** More keys in the index. *)
Lemma storage_keys K K' v m : storage_inv K v m -> K ⊆ K' -> K_inj K' -> storage_inv K' v m.
Proof.
  intros [? ? ? ? ? ? ? Hk Hkd ?] Hsub HK. split; try done.
  - eapply Forall_impl; [exact Hk|]. intros e He. by eapply lookup_weaken.
  - intros c j e Hh. eapply lookup_weaken; [by eapply Hkd|done].
Qed.

(** What the address table says of where values are is all that matters. *)
Lemma linked_at v m m' : linked_inv v m ->
  (forall c j e, holds v c j e -> vs_idx <$> at_mem m' !! ve_at_entry e = vs_idx <$> at_mem m !! ve_at_entry e) ->
  linked_inv v m'.
Proof.
  intros [Hl Hk] Hm. split; [|done]. intros c j Hc Hj Hv.
  destruct (Hl c j Hc Hj Hv) as (e & Hd & Hz & x & Hx & Hp). exists e. split; [done|]. split; [done|].
  specialize (Hm c j e ltac:(done)). rewrite Hx in Hm.
  destruct (at_mem m' !! ve_at_entry e) as [x'|] eqn:Hx'; [|done]. injection Hm as Hm.
  exists x'. split; [done|]. congruence.
Qed.

Lemma storage_at K v m m' : storage_inv K v m -> idle v ->
  (forall c j e, holds v c j e -> vs_idx <$> at_mem m' !! ve_at_entry e = vs_idx <$> at_mem m !! ve_at_entry e) ->
  storage_inv K v m' /\ forall a e, entry_of_at v m' a e <-> entry_of_at v m a e.
Proof.
  intros Hi Hid Hm. pose proof Hi as [HK Hch Hli Hcl Hws _ _ _ Hkd _].
  rewrite (proj1 (idle_empty v Hid)) in Hch.
  assert (linked_inv v m') as Hli' by (by eapply linked_at). split.
  - by eapply storage_idle_intro; [..|by eapply w_ok_idle|].
  - intros a e. by rewrite !entry_of_at_alt.
Qed.

(** Dropping one entry. *)
Lemma storage_unlink K v m c j e : storage_inv K v m -> idle v -> holds v c j e ->
  exists v', unlink_to_at v c j = Ok v' /\ idle v' /\ vs_self v' = vs_self v /\ vs_disk v' = vs_disk v /\
    w_chunk v' = w_chunk v /\
    forall m', (forall b, b <> ve_at_entry e -> vs_idx <$> at_mem m' !! b = vs_idx <$> at_mem m !! b) ->
      storage_inv K v' m' /\
      (forall b e', b <> ve_at_entry e -> entry_of_at v' m' b e' <-> entry_of_at v m b e').
Proof.
  intros Hi Hid Hh. pose proof Hi as [HK Hch Hli Hcl Hws _ _ _ Hkd _]. pose proof Hh as (Hc & Hj & Hv & Hd).
  rewrite (proj1 (idle_empty v Hid)) in Hch.
  destruct (unlink_to_at_spec v [] c j Hch Hc Hj) as (bm & l & Hun & Hch' & Hbit & _).
  set (v' := set_free_chunk_list l (set_bitmap bm v)) in *. exists v'. split; [done|].
  assert (forall c' j' e', holds v' c' j' e' <-> holds v c' j' e' /\ (c', j') <> (c, j)) as Hholds.
  { intros c' j' e'. unfold holds. split.
    - intros (Hc' & Hj' & Hv' & Hd'). rewrite Hbit in Hv' by (apply Hc' || apply Hj').
      apply andb_true_iff in Hv' as [Hv' Hb]. apply negb_true_iff, bool_decide_eq_false in Hb.
      split; [done|]. intros E. apply Hb. by injection E as -> ->.
    - intros [(Hc' & Hj' & Hv' & Hd') Hne]. split; [done|]. split; [done|]. split; [|done].
      rewrite Hbit, Hv' by (apply Hc' || apply Hj'). cbn. rewrite bool_decide_false; [done|].
      intros [-> ->]. done. }
  assert (forall c' j' e', holds v' c' j' e' -> ve_at_entry e' <> ve_at_entry e) as Hne.
  { intros c' j' e' [Hh' Hn]%Hholds E. apply Hn.
    pose proof Hh' as (Hc' & Hj' & Hv' & _).
    destruct (li_valid _ _ Hli c' j' Hc' Hj' Hv') as (e1 & Hd1 & _ & x & Hx & Hp).
    destruct (li_valid _ _ Hli c j Hc Hj Hv) as (e2 & Hd2 & _ & y & Hy & Hq).
    assert (e1 = e') as -> by (destruct Hh' as (_ & _ & _ & ?); congruence).
    assert (e2 = e) as -> by congruence. rewrite E, Hy in Hx. injection Hx as ->. rewrite Hq in Hp.
    injection Hp as Hp. by destruct (slot_inj _ _ _ _ Hj Hj' Hp) as [-> ->]. }
  split; [done|]. split; [done|]. split; [done|]. split; [done|]. intros m' Hm.
  assert (linked_inv v' m) as Hli1.
  { split.
    - intros c' j' Hc' Hj' Hv'. assert (exists e', vs_disk v !! slot c' j' = Some e') as [e' Hd'].
      { rewrite Hbit in Hv' by (apply Hc' || apply Hj'). apply andb_true_iff in Hv' as [Hv' _].
        destruct (li_valid _ _ Hli c' j' Hc' Hj' Hv') as (e' & ? & _). eauto. }
      assert (holds v' c' j' e') as [Hh' _]%Hholds by done. destruct Hh' as (_ & _ & Hv0 & _).
      exact (li_valid _ _ Hli c' j' Hc' Hj' Hv0).
    - intros c1 j1 c2 j2 e1 e2 [R1 _]%Hholds [R2 _]%Hholds. by eapply (li_keys _ _ Hli). }
  assert (linked_inv v' m') as Hli'.
  { eapply linked_at; [exact Hli1|]. intros c' j' e' Hh'. apply Hm. by eapply Hne. }
  split.
  - eapply storage_idle_intro; try done; [by eapply (w_ok_idle v)|].
    intros c' j' e' [Hh' _]%Hholds. by eapply Hkd.
  - intros b e' Hb. rewrite !entry_of_at_alt by done. split; intros (E & c' & j' & Hh').
    + split; [done|]. apply Hholds in Hh' as [Hh' _]. eauto.
    + split; [done|]. exists c', j'. apply Hholds. split; [done|]. intros [= -> ->].
      destruct Hh' as (_ & _ & _ & Hd'). congruence.
Qed.
End idle.
