(* ===== verification/StorageExamples.v ===== *)
(** The storage at a small configuration: runs that show the hypotheses of the
    storage's theorems can hold, and runs that show what happens outside them.

    [tiny_config] has four entries per chunk and eight chunks. *)

From S2P Require Import Prelude Config TaggedPtr Objects AddressTable IoUring ValueStorage.
From S2P Require Import ChunkWrite ChunkAlloc GarbageCollection GcLoop Storage.

Local Open Scope Z_scope.

#[local] Existing Instance tiny_config.
#[local] Existing Instance tiny_config_wf.
#[local] Existing Instance plain_uring.

(** * Checking the invariants of a concrete storage *)

Abbreviation ENTRIES := MTS_VS_ENTRIES_PER_CHUNK.

Section check.
Context `{Config}.

Definition places : list (Z * Z) :=
  c ← Z.of_nat <$> seq 0 (Z.to_nat MTS_VS_CHUNK_NUM); (fun j => (c, Z.of_nat j)) <$> seq 0 ENTRIES.

Lemma elem_of_places c j : chunk_in_range c -> entry_in_range j -> (c, j) ∈ places.
Proof.
  intros Hc Hj. unfold chunk_in_range, entry_in_range in *. unfold places.
  apply list_elem_of_bind. exists c. split.
  - apply list_elem_of_fmap. exists (Z.to_nat j). split; [f_equal; lia|apply elem_of_seq; lia].
  - apply list_elem_of_fmap. exists (Z.to_nat c). split; [lia|apply elem_of_seq; lia].
Qed.

Definition slot_linked (v : ValueStorage) (m : memory) (p : Z * Z) : bool :=
  negb (valid_bit v p.1 p.2) ||
  match vs_disk v !! slot p.1 p.2 with
  | Some e => negb (ve_at_entry e =? 0) &&
      bool_decide (vs_idx <$> at_mem m !! ve_at_entry e = Some (VsIdx (vs_self v) (slot p.1 p.2)))
  | None => false
  end.

Definition keys_agree (v : ValueStorage) (p q : Z * Z) : bool :=
  match vs_disk v !! slot p.1 p.2, vs_disk v !! slot q.1 q.2 with
  | Some e, Some e' =>
      negb (valid_bit v p.1 p.2) || negb (valid_bit v q.1 q.2) ||
      negb (ve_key e =? ve_key e') || (ve_at_entry e =? ve_at_entry e')
  | _, _ => true
  end.

Definition linked_check (v : ValueStorage) (m : memory) : bool :=
  forallb (slot_linked v m) places && forallb (fun p => forallb (keys_agree v p) places) places.

Lemma forallb_elem {A} (f : A -> bool) l x : forallb f l = true -> x ∈ l -> f x = true.
Proof. intros Hf Hx. apply list_elem_of_In in Hx. by eapply (proj1 (List.forallb_forall f l)). Qed.

Lemma linked_check_sound v m : linked_check v m = true -> linked_inv v m.
Proof.
  intros [R1 R2]%andb_true_iff. split.
  - intros c j Hc Hj Hv. apply (forallb_elem _ _ (c, j)) in R1; [|by apply elem_of_places].
    unfold slot_linked in R1. cbn [fst snd] in R1. rewrite Hv in R1. cbn in R1.
    destruct (vs_disk v !! slot c j) as [e|]; [|done]. apply andb_true_iff in R1 as [Hz Hb].
    exists e. split; [done|]. split; [by apply Z.eqb_neq, negb_true_iff|].
    apply bool_decide_eq_true in Hb. destruct (at_mem m !! ve_at_entry e) as [x|] eqn:Hx; [|done].
    injection Hb as Hb. by exists x.
  - intros c j c' j' e e' (Hc & Hj & Hv & Hd) (Hc' & Hj' & Hv' & Hd') E.
    apply (forallb_elem _ _ (c, j)) in R2; [|by apply elem_of_places].
    apply (forallb_elem _ _ (c', j')) in R2; [|by apply elem_of_places].
    unfold keys_agree in R2. cbn [fst snd] in R2.
    rewrite Hd, Hd', Hv, Hv', E, Z.eqb_refl in R2. cbn in R2. by apply Z.eqb_eq.
Qed.

Definition chunks_check (v : ValueStorage) (held : list Z) : bool :=
  bool_decide (MTS_VS_CHUNK_NUM <= Z.of_nat (length (vs_bitmap_info v))) &&
  bool_decide (Forall (fun b => length b = ENTRIES) (vs_bitmap_info v)) &&
  bool_decide (NoDup (free_chunk_list v ++ held)) &&
  forallb (fun c => (0 <=? c) && (c <? MTS_VS_CHUNK_NUM) &&
    (count (default [] (vs_bitmap_info v !! Z.to_nat c)) =? 0)) (free_chunk_list v ++ held).

Lemma chunks_check_sound v held : chunks_check v held = true -> chunks_inv v held.
Proof.
  intros [[[R1 R2]%andb_true_iff R3]%andb_true_iff R4]%andb_true_iff.
  apply bool_decide_eq_true in R1, R2, R3. split; [by split|done| |]; apply Forall_forall; intros c Hc;
    apply (forallb_elem _ _ c) in R4; [|done| |done];
    apply andb_true_iff in R4 as [[Hlo Hhi]%andb_true_iff Hcnt];
    apply Z.leb_le in Hlo; apply Z.ltb_lt in Hhi; apply Z.eqb_eq in Hcnt; [done|].
  destruct (vs_bitmap_info v !! Z.to_nat c) as [b|] eqn:Hb.
  - by apply (count_zero_empty v c b Hb).
  - intros j _. unfold valid_bit. by rewrite Hb.
Qed.
End check.

(** * Runs *)

Definition fresh_at : at_entry_t := AtEntry (VsIdx (-1) (-1)) 0.

(** Forty live address-table entries at 100, 116, 132, ... *)
Definition m0 : memory :=
  Memory (list_to_map ((fun i => (100 + 16 * Z.of_nat i, fresh_at)) <$> seq 0 40)) ∅ ∅.

Definition v0 : ValueStorage :=
  create 0 ∅ (fun _ => replicate ENTRIES zero_vs_entry) (replicate ENTRIES zero_vs_entry).

(** [put_vs_entry] for a list of (key, value, address-table entry). *)
Fixpoint puts (v : ValueStorage) (m : memory) (i : nat) (l : list (Z * Z * Z))
  : res (ValueStorage * memory) :=
  match l with
  | [] => Ok (v, m)
  | (k, x, a) :: l' => '(v', m') ← put_vs_entry v m i k x a; puts v' m' i l'
  end.

(** The entry the address table leads to for [a]. *)
Definition read_at (r : res (ValueStorage * memory)) (a : Z) : option vs_entry_t :=
  match r with
  | Ok (v, m) => x ← at_mem m !! a; vs_disk v !! vs_offset (vs_idx x)
  | Err _ => None
  end.

(** Two half-full chunks on disk: a collection merges them. *)
Definition two_halves : res (ValueStorage * memory) :=
  '(v, m) ← puts v0 m0 0 [(5, 50, 100); (3, 30, 116)];
  '(v, m) ← forced_write_chunk v m 0;
  '(v, m) ← puts v m 1 [(8, 80, 132); (1, 10, 148)];
  forced_write_chunk v m 1.

Definition halves_v : ValueStorage :=
  match two_halves with Ok (v, _) => v | Err _ => v0 end.
Definition halves_m : memory :=
  match two_halves with Ok (_, m) => m | Err _ => m0 end.


(** The collection of the example moves all four entries into one chunk. *)
Example halves_collected :
  read_at (garbage_collection halves_v halves_m) 148 = Some (VsEntry 148 1 10) /\
  match garbage_collection halves_v halves_m with
  | Ok (v, m) => vs_offset <$> (vs_idx <$> at_mem m !! 148) = Some 8 /\ length (free_chunk_list v) = 7%nat
  | Err _ => False
  end.
Proof. by vm_compute. Qed.

Definition K0 : gmap Z Z := <[100 := 5]> ∅.

Lemma K0_inj : K_inj K0.
Proof.
  unfold K_inj, K0. intros a b k Ha Hb. apply lookup_insert_Some in Ha as [[<- _]|[_ Ha]]; [|by rewrite lookup_empty in Ha].
  by apply lookup_insert_Some in Hb as [[<- _]|[_ Hb]]; [|rewrite lookup_empty in Hb].
Qed.

Lemma v0_inv : storage_inv K0 v0 m0.
Proof. apply create_storage_inv; [apply K0_inj|]. intros i. by vm_compute. Qed.

Lemma v0_pre : put_pre K0 v0 m0 5 100.
Proof.
  split; [lia|by exists fresh_at; vm_compute|by vm_compute|vm_compute; apply not_elem_of_nil|].
  intros e (_ & c & j & (_ & _ & Hv & _) & _). unfold v0 in Hv. by rewrite create_bit in Hv.
Qed.

Lemma put_vs_entry_correct_witness :
  exists v' m', put_vs_entry v0 m0 0 5 50 100 = Ok (v', m') /\ storage_inv K0 v' m' /\ mem_same m0 m' /\
    (forall a' e', stored v' m' a' e' <-> stored v0 m0 a' e' \/ (a' = 100 /\ e' = VsEntry 100 5 50)) /\
    put_writer 0 (WChunk 0 0 0 false (replicate 4 zero_vs_entry) (replicate 4 zero_vs_entry) []) 100 v0 v' /\
    vs_frame v0 m0 v' m'.
Proof.
  apply (put_vs_entry_correct K0 v0 m0 0 _ 5 50 100).
  - apply v0_inv.
  - reflexivity.
  - vm_compute. lia.
  - apply v0_pre.
Defined.

Definition one_put : ValueStorage * memory :=
  match put_vs_entry v0 m0 0 5 50 100 with Ok r => r | Err _ => (v0, m0) end.

Lemma one_put_inv : storage_inv K0 one_put.1 one_put.2.
Proof.
  destruct (put_vs_entry_spec K0 v0 m0 0 (WChunk 0 0 0 false (replicate 4 zero_vs_entry)
    (replicate 4 zero_vs_entry) []) 5 50 100) as (v' & m' & Hp & Hi & _).
  - apply v0_inv.
  - reflexivity.
  - vm_compute. lia.
  - apply v0_pre.
  - unfold one_put. by rewrite Hp.
Qed.

Lemma forced_write_chunk_correct_witness :
  exists v' m', forced_write_chunk one_put.1 one_put.2 0 = Ok (v', m') /\ storage_inv K0 v' m' /\
    mem_same one_put.2 m' /\
    (exists w', w_chunk v' = <[0%nat := w']> (w_chunk one_put.1) /\ w_pending w' = [] /\ wc_entry_offset w' = 0%nat) /\
    vs_frame one_put.1 one_put.2 v' m' /\ forall a e, stored v' m' a e <-> stored one_put.1 one_put.2 a e.
Proof.
  eapply (forced_write_chunk_correct K0 one_put.1 one_put.2 0).
  - apply one_put_inv.
  - by vm_compute.
  - by vm_compute.
  - right. by vm_compute.
Defined.

(** A chunk as [put_vs_entry] leaves it, ready to be written. *)
Definition ready_w : w_chunk_t :=
  WChunk 0 2 2 true [VsEntry 100 5 50; VsEntry 116 3 30; zero_vs_entry; zero_vs_entry]
    (replicate 4 zero_vs_entry) (moves 2 [VsEntry 100 5 50; VsEntry 116 3 30]).

Definition ready_v : ValueStorage := put_w_chunk v0 0 ready_w.

Lemma flush_chunk_links_witness :
  exists v' m', flush_chunk ready_v m0 0 = Ok (v', m') /\
    chunk_linked 2 [VsEntry 100 5 50; VsEntry 116 3 30] ready_v m0 v' m'.
Proof.
  eapply (flush_chunk_links ready_v m0 0 ready_w).
  - by vm_compute.
  - split; (by vm_compute) || (by apply (bool_decide_unpack _); vm_compute).
  - split; [by vm_compute|]. by apply (bool_decide_unpack _); vm_compute.
Defined.

Lemma vs_offset_roundtrip_witness :
  mk_vs_offset 7 3 = 7 * Z.of_nat ENTRIES + 3 /\ 0 <= mk_vs_offset 7 3 < 2 ^ 31 /\
  chunk_of (mk_vs_offset 7 3) = 7 /\ entry_of (mk_vs_offset 7 3) = 3.
Proof. apply (vs_offset_roundtrip 7 3); by vm_compute. Defined.

(** * Outside the theorems' hypotheses *)

(** A partial chunk written after a full one.  [init_w_chunk] does not
    clear the write buffer and [sort_w_buffer] collects up to the first null
    [at_entry], so a buffer with one new entry still shows the three stale
    ones of the chunk before it; they are sorted into the chunk, and the new
    entry's address-table entry is linked to the place of a stale one.  After
    five puts and a forced write, looking up key 7 (at 164, value 70) reads
    key 3's entry. *)
Theorem stale_buffer_wrong_value :
  read_at ('(v, m) ← puts v0 m0 0 [(5, 50, 100); (3, 30, 116); (1, 10, 132); (9, 90, 148); (7, 70, 164)];
           forced_write_chunk v m 0) 164 = Some (VsEntry 116 3 30).
Proof. by vm_compute. Qed.

(** A forced write with nothing waiting.  [reclaim] ends with
    [forced_write_chunk] even when no entry of the write buffer was live; the
    writer then writes its old buffer to the chunk it held last, which may
    belong to another writer by then.  Writer 0 writes one entry to chunk 0,
    the entry is removed, writer 1 fills all chunks, and writer 0's idle
    forced write destroys entries of writer 1. *)
Theorem idle_forced_write_clobbers :
  let run :=
    ('(v, m) ← puts v0 m0 0 [(5, 50, 100)];
     '(v, m) ← forced_write_chunk v m 0;
     v ← unlink_to_at v 0 0;
     '(v, m) ← puts v m 1 ((fun i => (100 + Z.of_nat i, 1000 + Z.of_nat i, 116 + 16 * Z.of_nat i))
                             <$> seq 0 32);
     forced_write_chunk v m 1) in
  read_at run 612 = Some (VsEntry 612 131 1031) /\
  read_at ('(v, m) ← run; forced_write_chunk v m 0) 612 = Some zero_vs_entry.
Proof. by vm_compute. Qed.

(** One key waiting in two writers.  [link_to_at] refuses only entries
    marked [NEWLY_UPDATED_VAL]; when a key updated between two puts waits in
    the chunks of two writers, both are [PRE_VALUESTORAGE_VAL] and the last
    chunk written wins, here the older value. *)
Theorem two_writers_lost_update :
  read_at ('(v, m) ← puts v0 m0 0 [(5, 50, 100)];
           m ← store_at m 100 (set_vs_offset NEWLY_UPDATED_VAL);
           '(v, m) ← puts v m 1 [(5, 51, 100)];
           '(v, m) ← forced_write_chunk v m 1;
           forced_write_chunk v m 0) 100 = Some (VsEntry 100 5 50).
Proof. by vm_compute. Qed.

(** The write of a chunk no put has initialised uses an unset buffer. *)
Example forced_write_uninitialised : forced_write_chunk v0 m0 0 = Err Uninitialised.
Proof. by vm_compute. Qed.
