(* ===== verification/OpLog.v ===== *)
(** The persistent write buffer ([src/PRISM/src/OpLog.h], [OpLog.cpp]; the
    log's creation from [src/PRISM/lib/TSOpLog/nvlog.c], [util.h]).

    Every thread owns an [OpLog] of two logs.  Values are appended to the
    working log; when it is full the logs are exchanged and a reclaim thread
    moves the values of the full one to a value storage.  A log is a ring of
    fixed-size entries addressed by two byte counters.

    This file holds the data and the operations, the theory of one log (a
    queue of entries) and of the double buffer; the reclaim of a log against
    the value storage is in Reclaim.v. *)

From S2P Require Import Prelude Config TaggedPtr Objects IoUring ValueStorage.

Local Open Scope Z_scope.

(** [ts_nvlog_t] with the counters of its persistent half, [ts_nvlog_store_t]. *)
Record ts_oplog := TsOplog {
  ol_id : Z;
  ready : bool;
  reclaimed : bool;
  head_cnt : Z;
  tail_cnt : Z;
  log_size : Z;
  mask : Z;
  buffer : Z;
  store_head_cnt : Z;
  store_tail_cnt : Z;
}.

Definition set_head (h : Z) (o : ts_oplog) : ts_oplog :=
  TsOplog (ol_id o) (ready o) (reclaimed o) h (tail_cnt o) (log_size o) (mask o) (buffer o)
    (store_head_cnt o) (store_tail_cnt o).
Definition set_tail (t : Z) (o : ts_oplog) : ts_oplog :=
  TsOplog (ol_id o) (ready o) (reclaimed o) (head_cnt o) t (log_size o) (mask o) (buffer o)
    (store_head_cnt o) (store_tail_cnt o).
Definition set_ready (r c : bool) (o : ts_oplog) : ts_oplog :=
  TsOplog (ol_id o) r c (head_cnt o) (tail_cnt o) (log_size o) (mask o) (buffer o)
    (store_head_cnt o) (store_tail_cnt o).

(** [working] says whether [working_oplog] is [oplog1]; [reclaim_thread] is
    the log given to the reclaim thread in flight. *)
Record OpLog := MkOpLog {
  reclaim_lock : bool;
  g_oplog_id : nat;
  working1 : bool;
  oplog1 : ts_oplog;
  oplog2 : ts_oplog;
  reclaim_thread : option Z;
  total_ol_write_count : Z;
}.

Section oplog.
Context `{Config} `{IoUring} `{StdSort}.

(** * Creation *)

Definition align_uint_to_cacheline (unum : Z) : Z := Z.land (to_u32 (unum + 63)) (Z.lnot 63).

(** [x && !(x & (x - 1))] *)
Definition is_power_of_2 (x : Z) : bool := negb (x =? 0) && (Z.land x (to_u64 (x - 1)) =? 0).

Definition nextPowerOf2 (n : Z) : Z :=
  let n := to_u32 (n - 1) in
  let n := Z.lor n (Z.shiftr n 1) in
  let n := Z.lor n (Z.shiftr n 2) in
  let n := Z.lor n (Z.shiftr n 4) in
  let n := Z.lor n (Z.shiftr n 8) in
  let n := Z.lor n (Z.shiftr n 16) in
  to_u32 (n + 1).

(** [nvlog_create] with a buffer of [size] bytes at [buf] ([None]: no memory);
    [ENOMEM] is [None]. *)
Definition nvlog_create (buf : option Z) (size id : Z) : option ts_oplog :=
  let size := if is_power_of_2 size then size else nextPowerOf2 (to_u32 size) in
  if negb (is_power_of_2 size) then None
  else
    b ← buf;
    Some (TsOplog id false false 0 0 size (to_u64 (Z.lnot (size - 1))) b 0 0).

(** The constructor; the results of the two creations are only traced. *)
Definition create (buf1 buf2 : Z) (id : nat) : option OpLog :=
  o1 ← nvlog_create (Some buf1) MTS_OPLOG_SIZE 0;
  o2 ← nvlog_create (Some buf2) MTS_OPLOG_SIZE 1;
  Some (MkOpLog false id true (set_ready true false o1) (set_ready false false o2) None 0).

(** * One log *)

Definition nvlog_index (o : ts_oplog) (cnt : Z) : Z := Z.land cnt (to_u64 (Z.lnot (mask o))).

Definition oplog_at (o : ts_oplog) (cnt : Z) : Z := buffer o + nvlog_index o cnt.

Definition oplog_used (o : ts_oplog) : Z := to_u64 (tail_cnt o - head_cnt o).

(** Reserves an entry at the tail; the overflow exit asserts. *)
Definition nvlog_enq (o : ts_oplog) (m : memory) (obj_size : Z) : res (Z * ts_oplog * memory) :=
  let entry_size := align_uint_to_cacheline obj_size in
  _ ← assert_ (KV_SIZE =? entry_size);
  if log_size o <? entry_size then Err AssertFailure
  else if log_size o <? to_u64 (to_u64 (tail_cnt o + entry_size) - head_cnt o)
  then Err AssertFailure
  else
    let p := oplog_at o (tail_cnt o) in
    m' ← store_op m p (fun e => OpEntry (op_val e) (opa e) (op_key e) entry_size);
    Ok (p, set_tail (to_u64 (tail_cnt o + entry_size)) o, m').

Definition oplog_enq_persist (o : ts_oplog) : ts_oplog :=
  TsOplog (ol_id o) (ready o) (reclaimed o) (head_cnt o) (tail_cnt o) (log_size o) (mask o)
    (buffer o) (store_head_cnt o) (tail_cnt o).

Definition oplog_deq_persist (o : ts_oplog) : ts_oplog :=
  TsOplog (ol_id o) (ready o) (reclaimed o) (head_cnt o) (tail_cnt o) (log_size o) (mask o)
    (buffer o) (head_cnt o) (store_tail_cnt o).

Definition oplog_enq (o : ts_oplog) (m : memory) (entry_size key val : Z)
  : res (Z * ts_oplog * memory) :=
  '(p, o1, m1) ← nvlog_enq o m entry_size;
  m2 ← store_op m1 p (fun e => OpEntry val (opa e) key (op_size e));
  Ok (p, oplog_enq_persist o1, m2).

(** [NEED_RECLAIM] is the null pointer. *)
Definition NEED_RECLAIM : Z := 0.

Definition put_ol_entry (o : ts_oplog) (m : memory) (key val : Z) : res (Z * ts_oplog * memory) :=
  let entry_size := align_uint_to_cacheline KV_SIZE in
  let oplog_index := to_u64 (tail_cnt o - head_cnt o + entry_size) in
  if MTS_OPLOG_HIGH_MARK <? oplog_index then Ok (NEED_RECLAIM, o, m)
  else
    '(p, o', m') ← oplog_enq o m entry_size key val;
    _ ← assert_ (negb (p =? 0));
    Ok (p, o', m').

(** Both return null on an empty log. *)
Definition oplog_peek_head (o : ts_oplog) : Z :=
  if head_cnt o =? tail_cnt o then 0 else oplog_at o (head_cnt o).

Definition oplog_deq (o : ts_oplog) (m : memory) : res (Z * ts_oplog) :=
  if head_cnt o =? tail_cnt o then Ok (0, o)
  else
    let p := oplog_at o (head_cnt o) in
    e ← load_op m p;
    Ok (p, set_head (to_u64 (head_cnt o + op_size e)) o).

(** * Links with the address table *)

Definition link_to_at (m : memory) (op_entry at_entry : Z) : res memory :=
  store_op m op_entry (fun e => OpEntry (op_val e) at_entry (op_key e) (op_size e)).

Definition unlink_to_at (m : memory) (at_entry : Z) : res memory :=
  x ← load_at m at_entry;
  let op_entry := get_untagged_ptr (val_addr x) in
  m1 ← store_op m op_entry (fun e => OpEntry (op_val e) 0 (op_key e) (op_size e));
  store_at m1 at_entry (set_val_addr 0).

(** * Double buffering *)

Definition get_another_oplog (id : Z) : bool := negb (id =? 0).   (** [true]: [oplog1] *)

Definition the_oplog (L : OpLog) (one : bool) : ts_oplog := if one then oplog1 L else oplog2 L.
Definition put_oplog (L : OpLog) (one : bool) (o : ts_oplog) : OpLog :=
  MkOpLog (reclaim_lock L) (g_oplog_id L) (working1 L)
    (if one then o else oplog1 L) (if one then oplog2 L else o)
    (reclaim_thread L) (total_ol_write_count L).

(** [enq].  [None]: blocked in [join] on the reclaim thread. *)
Definition enq (L : OpLog) (m : memory) (key val : Z) : res (option (Z * OpLog * memory)) :=
  let w := working1 L in
  '(p, o, m1) ← put_ol_entry (the_oplog L w) m key val;
  if negb (p =? NEED_RECLAIM) then Ok (Some (p, put_oplog L w o, m1))
  else if reclaim_lock L then Ok None
  else
    let reclaimed_oplog := the_oplog L w in
    let w' := get_another_oplog (ol_id reclaimed_oplog) in
    '(p2, o2, m2) ← put_ol_entry (the_oplog L w') m1 key val;
    Ok (Some (p2,
      put_oplog (MkOpLog (reclaim_lock L) (g_oplog_id L) w' (oplog1 L) (oplog2 L)
                   (Some (ol_id reclaimed_oplog)) (total_ol_write_count L)) w' o2, m2)).

(** * Reclaiming a log *)

(** The entry at the head: moved to the storage if the address table still
    leads to it, then dequeued. *)
Definition reclaim_one (o : ts_oplog) (v : ValueStorage) (m : memory) (writer : nat) (op_entry : Z)
  : res (ts_oplog * ValueStorage * memory) :=
  e ← load_op m op_entry;
  let at_entry := opa e in
  x ← load_at m at_entry;
  '(v1, m1) ← (if op_entry =? get_untagged_ptr (val_addr x)
               then put_vs_entry v m writer (op_key e) (op_val e) at_entry
               else Ok (v, m));
  '(_, o1) ← oplog_deq o m1;
  Ok (o1, v1, m1).

(** The loop; [n] bounds the entries of the log. *)
Fixpoint reclaim_loop (n : nat) (o : ts_oplog) (v : ValueStorage) (m : memory) (writer : nat)
  : res (ts_oplog * ValueStorage * memory) :=
  match n with
  | O => Err NoReturn
  | S n' =>
      let op_entry := oplog_peek_head o in
      if op_entry =? 0 then Ok (o, v, m)
      else
        '(o1, v1, m1) ← reclaim_one o v m writer op_entry;
        _ ← assert_ (head_cnt o1 <=? tail_cnt o1);
        if oplog_used o1 =? MTS_OPLOG_LOW_MARK then
          '(v2, m2) ← forced_write_chunk v1 m1 writer;
          Ok (o1, v2, m2)
        else reclaim_loop n' o1 v1 m1 writer
  end.

(** [reclaim], once the storage has been picked. *)
Definition reclaim (L : OpLog) (v : ValueStorage) (m : memory) (oplog_id : Z)
  : res (OpLog * ValueStorage * memory) :=
  let one := oplog_id =? 0 in
  let o := set_ready false true (the_oplog L one) in
  let old_head_cnt := head_cnt o in
  '(o1, v1, m1) ← reclaim_loop (S (Z.to_nat (log_size o / KV_SIZE))) o v m (g_oplog_id L);
  _ ← assert_ (old_head_cnt <=? head_cnt o1);
  let o2 :=
    if negb (head_cnt o1 =? old_head_cnt) then
      oplog_deq_persist (if MTS_OPLOG_LOW_MARK =? 0 then set_tail 0 (set_head 0 o1) else o1)
    else o1 in
  let L1 := put_oplog L one (set_ready true (reclaimed o2) o2) in
  Ok (MkOpLog false (g_oplog_id L1) (working1 L1) (oplog1 L1) (oplog2 L1) None
        (total_ol_write_count L1), v1, m1).

(** * Choice of a storage

    [rnd] are the random draws; the last loop draws until a storage is not
    being written, [n] bounding the draws looked at. *)
Fixpoint pick_idle (vss : list ValueStorage) (n : nat) (rnd : nat -> nat) (k : nat) (vs_id : nat)
  : res nat :=
  match n with
  | O => Err NoReturn
  | S n' =>
      v ← of_option OutOfRange (vss !! vs_id);
      if negb (is_writing v) then Ok vs_id else pick_idle vss n' rnd (S k) (rnd k)
  end.

Definition pick_valuestorage (vss : list ValueStorage) (n : nat) (rnd : nat -> nat) : res nat :=
  let vs_id1 := rnd 1%nat in
  let vs_id2 := rnd 2%nat in
  vs1 ← of_option OutOfRange (vss !! vs_id1);
  vs2 ← of_option OutOfRange (vss !! vs_id2);
  let vs_id :=
    if need_gc vs1 && need_gc vs2 then Nat.min vs_id1 vs_id2
    else if get_used_chunk_num vs1 <? get_used_chunk_num vs2 then vs_id1
    else vs_id2 in
  pick_idle vss n rnd 3 vs_id.

(** * A log is a queue *)

Context `{!WfConfig _}.

Record log_ok (o : ts_oplog) (m : memory) : Prop := {
  lo_size : log_size o = MTS_OPLOG_SIZE;
  lo_mask : mask o = to_u64 (Z.lnot (log_size o - 1));
  lo_buffer : 0 < buffer o /\ buffer o + log_size o < 2 ^ 47;
  lo_head : 0 <= head_cnt o /\ (KV_SIZE | head_cnt o);
  lo_tail : head_cnt o <= tail_cnt o < 2 ^ 62 /\ (KV_SIZE | tail_cnt o);
  lo_fits : tail_cnt o - head_cnt o <= log_size o;
  lo_mapped : forall i, 0 <= i < log_size o -> (KV_SIZE | i) -> is_Some (op_mem m !! (buffer o + i));
}.

(** The entries in the log, oldest first. *)
Definition log_length (o : ts_oplog) : nat := Z.to_nat ((tail_cnt o - head_cnt o) / KV_SIZE).
Definition log_addr (o : ts_oplog) (cnt : Z) : Z := buffer o + cnt mod log_size o.
Definition log_entries (o : ts_oplog) : list Z :=
  (fun i => log_addr o (head_cnt o + Z.of_nat i * KV_SIZE)) <$> seq 0 (log_length o).

Lemma wf_log : exists k j, 0 <= j <= k /\ k < 63 /\ MTS_OPLOG_SIZE = 2 ^ k /\ KV_SIZE = 2 ^ j /\ 6 <= j.
Proof. destruct wf_oplog as (k & Hk & Hs & j & Hj & HK). exists k, j. repeat split; lia || done. Qed.

Lemma kv_divides_size : (KV_SIZE | MTS_OPLOG_SIZE).
Proof.
  destruct wf_log as (k & j & Hj & _ & -> & -> & _). exists (2 ^ (k - j)).
  rewrite <- Z.pow_add_r by lia. f_equal. lia.
Qed.

Lemma size_pos : 0 < MTS_OPLOG_SIZE < 2 ^ 63.
Proof.
  destruct wf_log as (k & j & Hj & Hk & -> & _). split; [lia|]. by apply Z.pow_lt_mono_r; lia.
Qed.

Lemma align_kv : align_uint_to_cacheline KV_SIZE = KV_SIZE.
Proof.
  pose proof wf_kv as Hkv. destruct wf_log as (k & j & Hj & _ & _ & HK & H6).
  unfold align_uint_to_cacheline. rewrite to_u_id by lia. rewrite HK.
  replace 63 with (Z.ones 6) at 2 by done. rewrite <- Z.ldiff_land, Z.ldiff_ones_r by lia.
  rewrite Z.shiftr_div_pow2, Z.shiftl_mul_pow2 by lia.
  replace (2 ^ j) with (2 ^ (j - 6) * 2 ^ 6) by (rewrite <- Z.pow_add_r by lia; f_equal; lia).
  rewrite Z.add_comm, Z.div_add by lia. done.
Qed.

Lemma oplog_at_addr o m cnt : log_ok o m -> 0 <= cnt -> oplog_at o cnt = log_addr o cnt.
Proof.
  intros [Hs Hm _ _ _ _ _] Hc. unfold oplog_at, nvlog_index, log_addr. f_equal.
  destruct wf_log as (k & j & Hj & Hk & Hsz & _). rewrite Hm, Hs, Hsz.
  assert (0 < 2 ^ k < 2 ^ 63) as Hp by (rewrite <- Hsz; apply size_pos).
  assert (to_u64 (Z.lnot (to_u64 (Z.lnot (2 ^ k - 1)))) = 2 ^ k - 1) as ->.
  { set (n := 2 ^ k) in *. change (2 ^ 63) with 9223372036854775808 in Hp.
    unfold to_u. change (2 ^ 64) with 18446744073709551616. unfold Z.lnot.
    assert (Z.pred (- (n - 1)) mod 18446744073709551616 = 18446744073709551616 - n) as ->.
    { rewrite <- (Z.mod_add _ 1) by lia. rewrite Z.mod_small; lia. }
    rewrite <- (Z.mod_add _ 1) by lia. rewrite Z.mod_small; lia. }
  rewrite <- Z.land_ones by lia. f_equal. by rewrite Z.ones_equiv, Z.sub_1_r.
Qed.

(** Two counters within one window of the ring have different places. *)
Lemma log_addr_inj o m a b : log_ok o m -> a <= b < a + log_size o ->
  log_addr o a = log_addr o b -> a = b.
Proof.
  intros [Hs _ _ _ _ _ _] Hab E. pose proof size_pos. rewrite <- Hs in *. unfold log_addr in E.
  assert (a mod log_size o = b mod log_size o) as Em by lia.
  pose proof (Z.div_mod a (log_size o) ltac:(lia)) as Ha. pose proof (Z.div_mod b (log_size o) ltac:(lia)) as Hb.
  assert (b / log_size o - a / log_size o = 0) as Ed by nia. nia.
Qed.

Lemma log_addr_mapped o m cnt : log_ok o m -> (KV_SIZE | cnt) ->
  is_Some (op_mem m !! log_addr o cnt) /\ user_addr (log_addr o cnt) /\ log_addr o cnt <> 0.
Proof.
  intros [Hs _ Hb _ _ _ Hm] Hd. pose proof size_pos. rewrite <- Hs in *. unfold log_addr, user_addr.
  pose proof (Z.mod_pos_bound cnt (log_size o) ltac:(lia)). split; [|lia].
  apply Hm; [done|]. apply Z.mod_divide; [pose proof wf_kv_pos; lia|].
  rewrite <- Znumtheory.Zmod_div_mod; [by apply Z.mod_divide; [pose proof wf_kv_pos; lia|]|apply wf_kv_pos|lia|].
  rewrite Hs. apply kv_divides_size.
Qed.

(** Every entry in the log records the entry size, which [oplog_deq] trusts. *)
Definition log_sized (o : ts_oplog) (m : memory) : Prop :=
  forall p, p ∈ log_entries o -> exists e, op_mem m !! p = Some e /\ op_size e = KV_SIZE.

Lemma log_length_mul o m : log_ok o m ->
  Z.of_nat (log_length o) * KV_SIZE = tail_cnt o - head_cnt o.
Proof.
  intros [_ _ _ [Hh [a Ha]] [Ht [b Hb]] _ _]. pose proof wf_kv_pos. unfold log_length.
  rewrite Ha, Hb in *. rewrite <- Z.mul_sub_distr_r, Z.div_mul by lia. nia.
Qed.

Lemma log_length_S o m : log_ok o m -> tail_cnt o - head_cnt o + KV_SIZE <= log_size o ->
  log_length (set_tail (tail_cnt o + KV_SIZE) o) = S (log_length o).
Proof.
  intros Hok Hr. pose proof (log_length_mul o m Hok) as Hl. pose proof wf_kv_pos.
  unfold log_length at 1. cbn. rewrite <- (Nat2Z.id (S (log_length o))). f_equal.
  replace (tail_cnt o + KV_SIZE - head_cnt o) with (Z.of_nat (S (log_length o)) * KV_SIZE) by lia.
  by rewrite Z.div_mul by lia.
Qed.

Lemma log_ok_mem o m m' : (forall p, is_Some (op_mem m !! p) -> is_Some (op_mem m' !! p)) ->
  log_ok o m -> log_ok o m'.
Proof. intros Hm []. split; try done. auto. Qed.

(** Key [key] and value [val] have been appended to [o] at [p], in memory [m],
    where [e] was. *)
Record appended (o : ts_oplog) (m : memory) (key val p : Z) (e : op_entry_t)
    (o' : ts_oplog) (m' : memory) : Prop := {
  ap_old : op_mem m !! p = Some e;
  ap_mem : m' = upd_op m p (OpEntry val (opa e) key KV_SIZE);
  ap_addr : p <> 0 /\ user_addr p;
  ap_fresh : p ∉ log_entries o;
  ap_entries : log_entries o' = log_entries o ++ [p];
  ap_ok : log_ok o' m';
  ap_head : head_cnt o' = head_cnt o;
  ap_tail : tail_cnt o' = tail_cnt o + KV_SIZE;
  ap_persist : store_tail_cnt o' = tail_cnt o';
  ap_id : ol_id o' = ol_id o;
  ap_buffer : buffer o' = buffer o;
}.

Definition has_room (o : ts_oplog) : Prop := tail_cnt o - head_cnt o + KV_SIZE <= MTS_OPLOG_SIZE.

#[export] Instance has_room_dec o : Decision (has_room o).
Proof. unfold has_room. apply _. Defined.

Lemma put_ol_entry_spec o m key val :
  log_ok o m -> tail_cnt o + KV_SIZE < 2 ^ 62 ->
  if bool_decide (has_room o)
  then exists p e o' m', put_ol_entry o m key val = Ok (p, o', m') /\
         appended o m key val p e o' m'
  else put_ol_entry o m key val = Ok (NEED_RECLAIM, o, m).
Proof.
  intros Hok Hbig. pose proof Hok as [Hs Hm Hb [Hh Hhd] [Ht Htd] Hf Hmap]. pose proof wf_kv as Hkv.
  unfold put_ol_entry. rewrite align_kv, to_u_id by lia. unfold MTS_OPLOG_HIGH_MARK.
  case_bool_decide as Hroom; unfold has_room in Hroom.
  2: { by rewrite (proj2 (Z.ltb_lt _ _)) by lia. }
  rewrite (proj2 (Z.ltb_ge MTS_OPLOG_SIZE _)) by lia.
  unfold oplog_enq, nvlog_enq. rewrite align_kv, Z.eqb_refl. cbn [assert_ mbind res_bind].
  rewrite !(to_u_id 64 (tail_cnt o + KV_SIZE)) by lia. rewrite to_u_id by lia.
  rewrite !(proj2 (Z.ltb_ge (log_size o) _)) by lia.
  rewrite (oplog_at_addr o m) by (done || lia). set (p := log_addr o (tail_cnt o)).
  destruct (log_addr_mapped o m (tail_cnt o) Hok Htd) as ([e He] & Hu & Hnz). fold p in He, Hu, Hnz.
  rewrite (store_op_some _ _ _ _ Hnz He). cbn [mbind res_bind].
  erewrite store_op_some; [|done|cbn; apply lookup_insert_eq]. cbn [mbind res_bind].
  rewrite (proj2 (Z.eqb_neq p 0)) by done. cbn [negb assert_ mbind res_bind].
  unfold upd_op. cbn [at_mem op_mem dc_mem op_val opa op_key op_size]. rewrite insert_insert_eq.
  eexists p, e, _, _. split; [done|]. split; try done.
  - unfold log_entries. intros Hin. apply list_elem_of_fmap in Hin as (i & E & Hi).
    apply elem_of_seq in Hi. pose proof (log_length_mul o m Hok).
    symmetry in E. apply (log_addr_inj o m) in E; [nia|done|]. rewrite Hs. nia.
  - unfold log_entries. change (log_length (oplog_enq_persist (set_tail (tail_cnt o + KV_SIZE) o)))
      with (log_length (set_tail (tail_cnt o + KV_SIZE) o)).
    rewrite (log_length_S o m) by (done || lia). rewrite seq_S, fmap_app. cbn. do 2 f_equal.
    unfold p. f_equal. pose proof (log_length_mul o m Hok). lia.
  - apply (log_ok_mem _ m).
    + intros q Hq. cbn. destruct (decide (p = q)) as [->|]; [by rewrite lookup_insert_eq|].
      by rewrite lookup_insert_ne.
    + split; cbn; try done; [|lia]. split; [lia|]. apply Z.divide_add_r; [done|apply Z.divide_refl].
Qed.

(** The head of the queue. *)
Lemma log_entries_cons o m : log_ok o m -> head_cnt o <> tail_cnt o ->
  log_entries o = log_addr o (head_cnt o) :: log_entries (set_head (head_cnt o + KV_SIZE) o) /\
  log_ok (set_head (head_cnt o + KV_SIZE) o) m.
Proof.
  intros Hok Hne. pose proof (log_length_mul o m Hok) as Hl. pose proof wf_kv_pos.
  pose proof Hok as [Hs Hm Hb [Hh Hhd] [Ht Htd] Hf Hmap].
  destruct (log_length o) as [|n] eqn:En; [lia|].
  assert (log_length (set_head (head_cnt o + KV_SIZE) o) = n) as Hn.
  { unfold log_length. cbn. replace (tail_cnt o - (head_cnt o + KV_SIZE)) with (Z.of_nat n * KV_SIZE) by lia.
    rewrite Z.div_mul by lia. lia. }
  split.
  - unfold log_entries at 1. rewrite En. cbn [seq fmap list_fmap].
    f_equal; [f_equal; lia|]. unfold log_entries. rewrite Hn, <- fmap_S_seq, <- list_fmap_compose.
    apply list_fmap_ext. intros i x _. cbn. unfold log_addr. cbn. do 2 f_equal. lia.
  - split; cbn; try done.
    + split; [lia|]. apply Z.divide_add_r; [done|apply Z.divide_refl].
    + split; [nia|done].
    + lia.
Qed.

Lemma log_entries_nil o m : log_ok o m -> head_cnt o = tail_cnt o <-> log_entries o = [].
Proof.
  intros Hok. pose proof (log_length_mul o m Hok) as Hl. pose proof wf_kv_pos. split.
  - intros E. unfold log_entries. replace (log_length o) with 0%nat by nia. done.
  - intros E. destruct (decide (head_cnt o = tail_cnt o)); [done|].
    destruct (log_entries_cons o m Hok) as [E' _]; [done|]. by rewrite E in E'.
Qed.

(** [put_ol_entry] on a log with room appends: the entry it returns is at
    a place no entry of the log occupies, carries the key, the value and the
    entry size, and becomes the youngest of the log; nothing else in memory
    changes and the persistent tail covers it.  On a full log it returns
    [NEED_RECLAIM] and changes nothing. *)
Theorem put_ol_entry_appends o m key val :
  log_ok o m -> tail_cnt o + KV_SIZE < 2 ^ 62 ->
  if bool_decide (has_room o)
  then exists p e o' m', put_ol_entry o m key val = Ok (p, o', m') /\
         appended o m key val p e o' m'
  else put_ol_entry o m key val = Ok (NEED_RECLAIM, o, m).
Proof. apply put_ol_entry_spec. Qed.

Lemma oplog_fifo_spec o m : log_ok o m -> log_sized o m ->
  match log_entries o with
  | [] => oplog_peek_head o = 0 /\ oplog_deq o m = Ok (0, o)
  | p :: rest => p <> 0 /\ oplog_peek_head o = p /\
      exists o', oplog_deq o m = Ok (p, o') /\ log_entries o' = rest /\ log_ok o' m /\
        tail_cnt o' = tail_cnt o
  end.
Proof.
  intros Hok Hsz. pose proof Hok as [Hs Hm Hb [Hh Hhd] [Ht Htd] Hf Hmap].
  unfold oplog_peek_head, oplog_deq. destruct (Z.eqb_spec (head_cnt o) (tail_cnt o)) as [E|Hne].
  - by rewrite (proj1 (log_entries_nil o m Hok) E).
  - destruct (log_entries_cons o m Hok Hne) as [E Hok']. rewrite E.
    rewrite (oplog_at_addr o m) by (done || lia).
    destruct (log_addr_mapped o m (head_cnt o) Hok Hhd) as (_ & _ & Hnz).
    split; [done|]. split; [done|]. destruct (Hsz (log_addr o (head_cnt o))) as (e & He & Hse).
    { rewrite E. left. }
    rewrite (load_op_some _ _ _ Hnz He). cbn [mbind res_bind]. rewrite Hse.
    pose proof wf_kv. rewrite to_u_id by lia. eauto.
Qed.

(** A log is a first-in first-out queue: [oplog_peek_head] returns the
    oldest entry and [oplog_deq] removes exactly it; on an empty log both
    return null. *)
Theorem oplog_fifo o m : log_ok o m -> log_sized o m ->
  match log_entries o with
  | [] => oplog_peek_head o = 0 /\ oplog_deq o m = Ok (0, o)
  | p :: rest => p <> 0 /\ oplog_peek_head o = p /\
      exists o', oplog_deq o m = Ok (p, o') /\ log_entries o' = rest /\ log_ok o' m /\
        tail_cnt o' = tail_cnt o
  end.
Proof. apply oplog_fifo_spec. Qed.

(** * The double buffer *)

(** Two logs in memory that does not overlap. *)
Definition disjoint_logs (o o' : ts_oplog) : Prop :=
  buffer o + log_size o <= buffer o' \/ buffer o' + log_size o' <= buffer o.

Lemma log_addr_range o m c : log_ok o m -> buffer o <= log_addr o c < buffer o + log_size o.
Proof.
  intros Hok. pose proof size_pos. unfold log_addr. rewrite (lo_size _ _ Hok).
  pose proof (Z.mod_pos_bound c MTS_OPLOG_SIZE). lia.
Qed.

Lemma disjoint_logs_addr o o' m m' c c' : log_ok o m -> log_ok o' m' -> disjoint_logs o o' ->
  log_addr o c <> log_addr o' c'.
Proof.
  intros Hok Hok' Hd. pose proof (log_addr_range o m c Hok). pose proof (log_addr_range o' m' c' Hok').
  destruct Hd; lia.
Qed.

(** Entries of one log are not in the memory of the other. *)
Lemma disjoint_entries o o' m m' p : log_ok o m -> log_ok o' m' -> disjoint_logs o o' -> p ∈ log_entries o -> p ∉ log_entries o'.
Proof.
  intros Hok Hok' Hd (i & -> & _)%list_elem_of_fmap (i' & E & _)%list_elem_of_fmap. by eapply disjoint_logs_addr in E.
Qed.

(** No entry of either log is written. *)
Definition entries_kept (L : OpLog) (m m' : memory) : Prop :=
  forall b q, q ∈ log_entries (the_oplog L b) -> op_mem m' !! q = op_mem m !! q.

Record oplog_ok (L : OpLog) (m : memory) : Prop := {
  ol_ok1 : log_ok (oplog1 L) m;
  ol_ok2 : log_ok (oplog2 L) m;
  ol_id1 : ol_id (oplog1 L) = 0;
  ol_id2 : ol_id (oplog2 L) = 1;
  ol_small1 : tail_cnt (oplog1 L) + KV_SIZE < 2 ^ 62;
  ol_small2 : tail_cnt (oplog2 L) + KV_SIZE < 2 ^ 62;
}.

Lemma the_oplog_ok L m b : oplog_ok L m ->
  log_ok (the_oplog L b) m /\ tail_cnt (the_oplog L b) + KV_SIZE < 2 ^ 62 /\
  get_another_oplog (ol_id (the_oplog L b)) = negb b.
Proof.
  intros [? ? E1 E2 ? ?]. destruct b; cbn; rewrite ?E1, ?E2; done.
Qed.

(** An empty log has room. *)
Lemma empty_has_room o m : log_ok o m -> log_entries o = [] -> has_room o.
Proof.
  intros Hok E. apply (log_entries_nil o m Hok) in E. unfold has_room.
  pose proof kv_divides_size as Hd. apply Z.divide_pos_le in Hd; [lia|apply size_pos].
Qed.

Lemma enq_cases L m key val : oplog_ok L m ->
  let w := working1 L in
  if bool_decide (has_room (the_oplog L w)) then
    exists p e o' m', enq L m key val = Ok (Some (p, put_oplog L w o', m')) /\
      appended (the_oplog L w) m key val p e o' m'
  else if reclaim_lock L then enq L m key val = Ok None
  else log_entries (the_oplog L (negb w)) = [] ->
    exists p e o' m' L', enq L m key val = Ok (Some (p, L', m')) /\
      appended (the_oplog L (negb w)) m key val p e o' m' /\
      working1 L' = negb w /\ the_oplog L' (negb w) = o' /\ log_entries o' = [p] /\
      the_oplog L' w = the_oplog L w /\ reclaim_thread L' = Some (ol_id (the_oplog L w)) /\
      g_oplog_id L' = g_oplog_id L.
Proof.
  intros Hok w. destruct (the_oplog_ok L m w Hok) as (Hl & Hsm & Hid).
  pose proof (put_ol_entry_spec _ m key val Hl Hsm) as Hput. unfold enq. fold w.
  case_bool_decide as Hroom.
  - destruct Hput as (p & e & o' & m' & -> & Ha). cbn [mbind res_bind].
    destruct (ap_addr _ _ _ _ _ _ _ _ Ha) as [Hnz _]. unfold NEED_RECLAIM.
    rewrite (proj2 (Z.eqb_neq p 0)) by done. cbn [negb]. by exists p, e, o', m'.
  - rewrite Hput. cbn [mbind res_bind]. unfold NEED_RECLAIM. cbn.
    destruct (reclaim_lock L); [done|]. intros Hemp. rewrite Hid.
    destruct (the_oplog_ok L m (negb w) Hok) as (Hl' & Hsm' & _).
    pose proof (put_ol_entry_spec _ m key val Hl' Hsm') as Hput'.
    rewrite bool_decide_true in Hput' by (by eapply empty_has_room).
    destruct Hput' as (p & e & o' & m' & -> & Ha). cbn [mbind res_bind].
    eexists p, e, o', m', _. split; [done|]. split; [done|]. split; [done|].
    pose proof (ap_entries _ _ _ _ _ _ _ _ Ha) as E. rewrite Hemp in E.
    by destruct w.
Qed.

Lemma appended_kept L m key val b p e o' m' : oplog_ok L m -> disjoint_logs (oplog1 L) (oplog2 L) ->
  appended (the_oplog L b) m key val p e o' m' -> entries_kept L m m'.
Proof.
  intros Hok Hd Ha b' q Hq. rewrite (ap_mem _ _ _ _ _ _ _ _ Ha). cbn. apply lookup_insert_ne. intros <-.
  destruct (decide (b' = b)) as [->|Hne]; [by apply (ap_fresh _ _ _ _ _ _ _ _ Ha)|].
  assert (p ∈ log_entries o') as Hp by (rewrite (ap_entries _ _ _ _ _ _ _ _ Ha); apply elem_of_app; right; left).
  revert Hq. eapply (disjoint_entries o' _ m' m); [exact (ap_ok _ _ _ _ _ _ _ _ Ha)|apply the_oplog_ok, Hok| |exact Hp].
  unfold disjoint_logs in *. rewrite (ap_buffer _ _ _ _ _ _ _ _ Ha), (lo_size _ _ (ap_ok _ _ _ _ _ _ _ _ Ha)).
  rewrite (lo_size _ _ (ol_ok1 _ _ Hok)), (lo_size _ _ (ol_ok2 _ _ Hok)) in Hd.
  destruct b, b'; try done; cbn; rewrite ?(lo_size _ _ (ol_ok1 _ _ Hok)), ?(lo_size _ _ (ol_ok2 _ _ Hok)); tauto.
Qed.

(** C32. [enq] and double buffering, with the two logs in separate memory.  If the working log has room the value
    goes there and the other log is as before.  If it is full and no reclaim is running, the logs are
    exchanged, the full one is handed to the reclaim thread, and the value
    goes to the other, provided that one is empty, that is, has been reclaimed ([enq_before_reclaim_starts] shows what
    happens otherwise).  If it is full and a reclaim is running, [enq] waits for it.  Whenever the value is written, every
    entry of both logs keeps its content, and the entries of the log written are the old ones and the new one. *)
Theorem enq_double_buffer L m key val : oplog_ok L m -> disjoint_logs (oplog1 L) (oplog2 L) ->
  let w := working1 L in
  if bool_decide (has_room (the_oplog L w)) then
    exists p e o' m', enq L m key val = Ok (Some (p, put_oplog L w o', m')) /\
      appended (the_oplog L w) m key val p e o' m' /\ the_oplog (put_oplog L w o') (negb w) = the_oplog L (negb w) /\ entries_kept L m m'
  else if reclaim_lock L then enq L m key val = Ok None
  else log_entries (the_oplog L (negb w)) = [] ->
    exists p e o' m' L', enq L m key val = Ok (Some (p, L', m')) /\
      appended (the_oplog L (negb w)) m key val p e o' m' /\
      working1 L' = negb w /\ the_oplog L' (negb w) = o' /\ log_entries o' = [p] /\
      the_oplog L' w = the_oplog L w /\ reclaim_thread L' = Some (ol_id (the_oplog L w)) /\
      g_oplog_id L' = g_oplog_id L /\ entries_kept L m m'.
Proof.
  intros Hok Hd w. pose proof (enq_cases L m key val Hok) as Hc. cbv zeta in Hc. fold w in Hc. case_bool_decide.
  - destruct Hc as (p & e & o' & m' & E & Ha). exists p, e, o', m'. split_and!; [done|done|by destruct w|by eapply appended_kept].
  - destruct (reclaim_lock L); [done|]. intros He. destruct (Hc He) as (p & e & o' & m' & L' & E & Ha & R).
    exists p, e, o', m', L'. split_and!; try apply R; [done|done|by eapply appended_kept].
Qed.

(** [enq] does not have to wait and finds room. *)
Definition enq_ready (L : OpLog) : Prop :=
  has_room (the_oplog L (working1 L)) \/
  reclaim_lock L = false /\ log_entries (the_oplog L (negb (working1 L))) = [].

(** Then one log has one more entry and the other is as it was. *)
Lemma enq_spec L m key val : oplog_ok L m -> enq_ready L ->
  exists b p e o' m' L', enq L m key val = Ok (Some (p, L', m')) /\
    appended (the_oplog L b) m key val p e o' m' /\ the_oplog L' b = o' /\
    the_oplog L' (negb b) = the_oplog L (negb b) /\ g_oplog_id L' = g_oplog_id L.
Proof.
  intros Hok Hr. pose proof (enq_cases L m key val Hok) as Hc. cbv zeta in Hc. case_bool_decide as Hroom.
  - destruct Hc as (p & e & o' & m' & -> & Ha). eexists (working1 L), p, e, o', m', _. split; [done|].
    split; [done|]. by destruct (working1 L).
  - destruct Hr as [?|[Hl He]]; [done|]. rewrite Hl in Hc.
    destruct (Hc He) as (p & e & o' & m' & L' & -> & Ha & _ & E1 & _ & E2 & _ & E3).
    exists (negb (working1 L)), p, e, o', m', L'. rewrite negb_involutive. done.
Qed.

(** The reclaim thread raises [reclaim_lock] itself, after it has been
    started.  If the second log fills up before the thread has begun, [enq]
    sees the lock down, does not wait, finds the other log still full, and
    returns a null entry, which the callers dereference. *)
Theorem enq_before_reclaim_starts L m key val : oplog_ok L m ->
  reclaim_lock L = false -> ~ has_room (oplog1 L) -> ~ has_room (oplog2 L) ->
  exists L', enq L m key val = Ok (Some (NEED_RECLAIM, L', m)) /\
    forall at_entry, link_to_at m NEED_RECLAIM at_entry = Err NullDeref.
Proof.
  intros Hok Hlock R1 R2.
  assert (forall b, put_ol_entry (the_oplog L b) m key val = Ok (NEED_RECLAIM, the_oplog L b, m)) as Hput.
  { intros b. destruct (the_oplog_ok L m b Hok) as (Hl & Hsm & _).
    pose proof (put_ol_entry_spec _ m key val Hl Hsm) as Hput.
    rewrite bool_decide_false in Hput by (by destruct b). done. }
  unfold enq. rewrite Hput. cbn [mbind res_bind]. rewrite Z.eqb_refl, Hlock. cbn [negb].
  rewrite Hput. cbn [mbind res_bind]. eexists. split; [done|]. done.
Qed.
End oplog.
