(* ===== verification/Reclaim.v ===== *)
(** Reclaiming a log ([OpLog.cpp]: [reclaim]): the write buffer against the
    value storage.

    [reclaim] walks the log; an entry is live if its address-table entry still
    leads to it.  The theorem says that a reclaim moves every live value to
    the storage, under its own address-table entry, leaves the storage's other
    entries alone, and empties the log, so that the log can be reused.  The
    last chunk is written by [forced_write_chunk]; the theorem asks that it be
    full, which is when that write is right (StorageExamples.v has the run in
    which it is not). *)

From S2P Require Import Prelude Config TaggedPtr Objects IoUring ValueStorage.
From S2P Require Import ChunkWrite ChunkAlloc GarbageCollection GcLoop Storage OpLog.

Local Open Scope Z_scope.

Section reclaim.
Context `{Config} `{IoUring} `{StdSort}.
Context `{!WfConfig _} `{!IoUringOk _}.
Context (K : gmap Z Z).

Abbreviation ENTRIES := MTS_VS_ENTRIES_PER_CHUNK.

(** * Live entries *)

(** The log entry at [p] and the address-table entry it belongs to exist. *)
Definition op_linked (m : memory) (p : Z) : Prop :=
  exists e x, op_mem m !! p = Some e /\ opa e <> 0 /\ at_mem m !! opa e = Some x.

Definition op_live (m : memory) (p : Z) : bool :=
  match op_mem m !! p with
  | Some e =>
      match at_mem m !! opa e with
      | Some x => p =? get_untagged_ptr (val_addr x)
      | None => false
      end
  | None => false
  end.

Definition live_count (m : memory) (ps : list Z) : nat := length (filter (fun p => op_live m p = true) ps).

Lemma op_live_same m m' p : mem_same m m' -> op_live m' p = op_live m p.
Proof.
  intros [Hop _ Hva]. unfold op_live. rewrite Hop. destruct (op_mem m !! p) as [e|]; [|done].
  specialize (Hva (opa e)). destruct (at_mem m' !! opa e), (at_mem m !! opa e); cbn in Hva; congruence.
Qed.

Lemma op_linked_same m m' p : mem_same m m' -> op_linked m p -> op_linked m' p.
Proof.
  intros Hms (e & x & He & Ha & Hx). pose proof (mem_same_live m m' (opa e) Hms) as [x' Hx']; [eauto|].
  exists e, x'. by rewrite (ms_op _ _ Hms).
Qed.

Lemma live_count_same m m' ps : mem_same m m' -> live_count m' ps = live_count m ps.
Proof.
  intros Hms. unfold live_count. f_equal. apply filter_ext_in. intros p _. by rewrite (op_live_same m m').
Qed.

(** Different live entries belong to different address-table entries. *)
Lemma op_live_inj m p q e e' : op_live m p = true -> op_live m q = true ->
  op_mem m !! p = Some e -> op_mem m !! q = Some e' -> opa e = opa e' -> p = q.
Proof.
  unfold op_live. intros Hp Hq He He' E. rewrite He in Hp. rewrite He' in Hq. rewrite E in Hp.
  destruct (at_mem m !! opa e'); [|done]. apply Z.eqb_eq in Hp, Hq. congruence.
Qed.

(** The entry a live log entry becomes in the storage. *)
Definition reclaimed_entry (m : memory) (ps : list Z) (a : Z) (e : vs_entry_t) : Prop :=
  exists p oe, p ∈ ps /\ op_live m p = true /\ op_mem m !! p = Some oe /\
    a = opa oe /\ e = VsEntry (opa oe) (op_key oe) (op_val oe).

(** * Positions in the chunk *)

Definition next_pos (k : nat) : nat := if (k =? ENTRIES)%nat then 1%nat else S k.
Definition pos_after (n k : nat) : nat := Nat.iter n next_pos k.

Lemma pos_after_S n k : pos_after (S n) k = pos_after n (next_pos k).
Proof. unfold pos_after. by rewrite Nat.iter_succ_r. Qed.

Lemma pos_after_0 n : pos_after n 0 = match n with O => 0%nat | S n' => S (n' mod ENTRIES) end.
Proof.
  pose proof wf_entries as HE. induction n as [|n IH]; [done|].
  change (pos_after (S n) 0) with (next_pos (pos_after n 0)). rewrite IH.
  destruct n as [|n].
  - unfold next_pos. rewrite (proj2 (Nat.eqb_neq _ _)) by lia. by rewrite Nat.Div0.mod_0_l.
  - unfold next_pos. pose proof (Nat.mod_upper_bound n ENTRIES ltac:(lia)).
    pose proof (Nat.div_mod n ENTRIES ltac:(lia)) as Hn.
    destruct (Nat.eqb_spec (S (n mod ENTRIES)) ENTRIES) as [E|Hne]; f_equal.
    + symmetry. apply Nat.Div0.mod_divides. exists (S (n / ENTRIES)). nia.
    + apply (Nat.mod_unique _ _ (n / ENTRIES)); [lia|]. lia.
Qed.

(** A positive multiple of the chunk fills the last chunk. *)
Lemma pos_after_full n : (0 < n)%nat -> (n mod ENTRIES = 0)%nat -> pos_after n 0 = ENTRIES.
Proof.
  intros Hn Hm. pose proof wf_entries. rewrite pos_after_0. destruct n as [|n]; [lia|].
  apply Nat.Div0.mod_divides in Hm as [c Hc]. destruct c as [|c]; [lia|].
  rewrite <- (Nat.mod_unique n ENTRIES c (ENTRIES - 1)); nia.
Qed.

(** * The loop *)

(** What each live entry of the log needs to be moved. *)
Definition movable (v : ValueStorage) (m : memory) (ps : list Z) : Prop :=
  forall p e, p ∈ ps -> op_live m p = true -> op_mem m !! p = Some e ->
    put_pre K v m (op_key e) (opa e).

(** After one entry has been put the others can still be. *)
Lemma movable_put v m v' m' p e i w rest :
  movable v m (p :: rest) -> p ∉ rest -> op_live m p = true -> op_mem m !! p = Some e -> mem_same m m' ->
  (forall a' e', stored v' m' a' e' <-> stored v m a' e' \/
     (a' = opa e /\ e' = VsEntry (opa e) (op_key e) (op_val e))) ->
  put_writer i w (opa e) v v' -> movable v' m' rest.
Proof.
  intros Hmv Hni Hl He Hms Hst Hpw q e' Hq Hlq Heq.
  rewrite (op_live_same m m') in Hlq by done. rewrite (ms_op _ _ Hms) in Heq.
  assert (opa e' <> opa e) as Hne.
  { intros E. apply Hni. by rewrite (op_live_inj m p q e e' Hl Hlq He Heq). }
  destruct (Hmv q e') as [Hnz Hlive HK Hnp Hno]; [by right|done|done|]. split; try done.
  - by eapply mem_same_live.
  - intros Hin. apply list_elem_of_fmap in Hin as (x & E & Hx).
    apply (pw_pending _ _ _ _ _ Hpw) in Hx as [Hx|Hx]; [|congruence].
    apply Hnp. rewrite E. by apply list_elem_of_fmap_2.
  - intros x Hx. assert (stored v' m' (opa e') x) as Hs by (by left).
    apply Hst in Hs as [[Hs|(Hin & E & _)]|[E _]]; [by eapply Hno| |congruence].
    apply Hnp. cbn in Hin. rewrite <- E. by apply list_elem_of_fmap_2.
Qed.

Lemma movable_skip v m p rest : movable v m (p :: rest) -> movable v m rest.
Proof. intros Hmv q e Hq. apply Hmv. by right. Qed.

(** One turn of the loop. *)
Lemma reclaim_one_spec o v m i w p rest :
  log_ok o m -> log_sized o m -> log_entries o = p :: rest -> op_linked m p -> p ∉ rest ->
  storage_inv K v m -> w_chunk v !! i = Some w -> movable v m (p :: rest) ->
  (live_count m (p :: rest) <= length (free_chunk_list v) * ENTRIES + w_room w)%nat ->
  exists o1 v1 m1 w1, reclaim_one o v m i p = Ok (o1, v1, m1) /\
    oplog_deq o m = Ok (p, o1) /\ storage_inv K v1 m1 /\ mem_same m m1 /\ movable v1 m1 rest /\
    w_chunk v1 = <[i := w1]> (w_chunk v) /\ vs_frame v m v1 m1 /\
    wc_entry_offset w1 = (if op_live m p then next_pos (wc_entry_offset w) else wc_entry_offset w) /\
    (live_count m1 rest <= length (free_chunk_list v1) * ENTRIES + w_room w1)%nat /\
    (forall a e, stored v1 m1 a e <-> stored v m a e \/ reclaimed_entry m [p] a e).
Proof.
  intros Hok Hsz He (oe & x & Hop & Ha & Hx) Hni Hi Hw Hmv Hroom.
  pose proof (oplog_fifo_spec o m Hok Hsz) as Hf. rewrite He in Hf.
  destruct Hf as (Hnz & _ & o1 & Hdeq & Hrest & Hok1 & Htail).
  assert (forall m', mem_same m m' -> oplog_deq o m' = oplog_deq o m) as Hdeq'.
  { intros m' Hms. unfold oplog_deq, load_op. by rewrite (ms_op _ _ Hms). }
  assert (op_live m p = (p =? get_untagged_ptr (val_addr x))) as Hlv by (unfold op_live; by rewrite Hop, Hx).
  unfold reclaim_one. rewrite (load_op_some _ _ _ Hnz Hop). cbn [mbind res_bind].
  rewrite (load_at_some _ _ _ Ha Hx). cbn [mbind res_bind]. rewrite <- Hlv.
  destruct (op_live m p) eqn:Hl.
  - assert (live_count m (p :: rest) = S (live_count m rest)) as Hlc.
    { unfold live_count. by rewrite filter_cons_True. }
    destruct (put_vs_entry_spec K v m i w (op_key oe) (op_val oe) (opa oe) Hi Hw)
      as (v1 & m1 & Hput & Hi1 & Hms & Hst & Hpw & Hfrm); [lia|by eapply Hmv; [left|..]|].
    rewrite Hput. cbn [mbind res_bind]. rewrite Hdeq' by done. rewrite Hdeq. cbn [mbind res_bind].
    pose proof (pw_writer _ _ _ _ _ Hpw) as (w1 & Hw1 & Ho1 & Hr1). exists o1, v1, m1, w1.
    do 4 (split; [done|]). split; [by eapply movable_put|].
    do 3 (split; [done|]).
    split; [rewrite (live_count_same m m1) by done; lia|].
    intros a e. rewrite Hst. unfold reclaimed_entry. split.
    + intros [?|[-> ->]]; [by left|]. right. exists p, oe. split; [left|]. done.
    + intros [?|(q & oe' & Hq & _ & Hoq & -> & ->)]; [by left|]. right.
      apply list_elem_of_singleton in Hq as ->. assert (oe' = oe) as -> by congruence. done.
  - assert (live_count m (p :: rest) = live_count m rest) as Hlc.
    { unfold live_count. rewrite filter_cons_False; [done|congruence]. }
    cbn [mbind res_bind]. rewrite Hdeq. cbn [mbind res_bind]. exists o1, v, m, w.
    do 3 (split; [done|]). split; [by apply mem_same_refl|]. split; [by eapply movable_skip|].
    split; [by rewrite list_insert_id|]. split; [apply vs_frame_refl|].
    split; [done|]. split; [lia|]. intros a e. split; [by left|].
    intros [?|(q & oe' & Hq & Hlq & _)]; [done|]. apply list_elem_of_singleton in Hq as ->. congruence.
Qed.

Lemma log_entries_nodup o m : log_ok o m -> NoDup (log_entries o).
Proof.
  intros Hok. unfold log_entries. apply NoDup_alt. intros i j x Hi Hj.
  rewrite list_lookup_fmap in Hi, Hj. destruct (seq 0 (log_length o) !! i) as [i'|] eqn:Ei; [|done].
  destruct (seq 0 (log_length o) !! j) as [j'|] eqn:Ej; [|done]. cbn in Hi, Hj.
  apply lookup_seq in Ei as [-> Hi'], Ej as [-> Hj'].
  pose proof (log_length_mul o m Hok). pose proof (lo_fits _ _ Hok). pose proof wf_kv_pos.
  assert (log_addr o (head_cnt o + Z.of_nat (0 + i) * KV_SIZE) =
          log_addr o (head_cnt o + Z.of_nat (0 + j) * KV_SIZE)) as E by congruence.
  destruct (decide (i <= j)%nat).
  - apply (log_addr_inj o m _ _ Hok) in E; nia.
  - symmetry in E. apply (log_addr_inj o m _ _ Hok) in E; nia.
Qed.

Lemma deq_facts o m p o1 rest : log_ok o m -> log_sized o m -> log_entries o = p :: rest ->
  oplog_deq o m = Ok (p, o1) ->
  log_ok o1 m /\ log_entries o1 = rest /\ log_sized o1 m /\
  o1 = set_head (head_cnt o1) o /\ head_cnt o <= head_cnt o1 <= tail_cnt o1 /\
  oplog_used o1 = tail_cnt o1 - head_cnt o1.
Proof.
  intros Hok Hsz He Hd. pose proof (oplog_fifo_spec o m Hok Hsz) as Hf. rewrite He in Hf.
  destruct Hf as (Hnz & _ & o1' & Hdeq & Hrest & Hok1 & Htail). assert (o1' = o1) as -> by congruence.
  split; [done|]. split; [done|]. split.
  { intros q Hq. apply Hsz. rewrite He. right. by rewrite <- Hrest. }
  unfold oplog_deq in Hd. destruct (head_cnt o =? tail_cnt o) eqn:E.
  { apply Z.eqb_eq in E. apply (log_entries_nil o m Hok) in E. by rewrite He in E. }
  inv_res. split; [done|]. pose proof (lo_tail _ _ Hok1) as [Ht _]. pose proof (lo_tail _ _ Hok) as [Ht0 _].
  pose proof (lo_head _ _ Hok1) as [Hh _]. pose proof (lo_head _ _ Hok) as [Hh0 _]. cbn in *.
  rename select (load_op _ _ = _) into Hld. apply load_op_ok in Hld as [_ Hld].
  destruct (Hsz (oplog_at o (head_cnt o))) as (e' & He' & Hs').
  { rewrite He. left. }
  assert (e' = x) as -> by congruence. pose proof wf_kv. rewrite Hs' in *.
  rewrite to_u_id in Ht, Hh |- * by lia. split; [lia|]. unfold oplog_used. cbn.
  rewrite to_u_id by lia. done.
Qed.

Lemma log_same o m m' : mem_same m m' -> log_ok o m -> log_sized o m ->
  log_ok o m' /\ log_sized o m'.
Proof.
  intros Hms Hok Hsz. split.
  - eapply log_ok_mem; [|exact Hok]. by rewrite (ms_op _ _ Hms).
  - intros q Hq. rewrite (ms_op _ _ Hms). by apply Hsz.
Qed.

Lemma reclaimed_entry_cons m m' p rest a e : mem_same m m' ->
  reclaimed_entry m [p] a e \/ reclaimed_entry m' rest a e <-> reclaimed_entry m (p :: rest) a e.
Proof.
  intros Hms. unfold reclaimed_entry. setoid_rewrite elem_of_cons.
  setoid_rewrite (ms_op _ _ Hms). setoid_rewrite (fun q => op_live_same m m' q Hms).
  setoid_rewrite elem_of_nil. naive_solver.
Qed.

(** The log is empty after the loop. *)
Lemma reclaim_loop_spec i : forall n o v m w,
  log_ok o m -> log_sized o m -> log_entries o <> [] -> (length (log_entries o) <= n)%nat ->
  Forall (op_linked m) (log_entries o) -> storage_inv K v m -> w_chunk v !! i = Some w ->
  movable v m (log_entries o) ->
  (live_count m (log_entries o) <= length (free_chunk_list v) * ENTRIES + w_room w)%nat ->
  pos_after (live_count m (log_entries o)) (wc_entry_offset w) = ENTRIES ->
  exists o' v' m', reclaim_loop n o v m i = Ok (o', v', m') /\
    o' = set_head (tail_cnt o) o /\ storage_inv K v' m' /\ mem_same m m' /\
    (exists w', w_chunk v' = <[i := w']> (w_chunk v) /\ w_pending w' = [] /\ wc_entry_offset w' = 0%nat) /\
    vs_frame v m v' m' /\
    (forall a e, stored v' m' a e <-> stored v m a e \/ reclaimed_entry m (log_entries o) a e).
Proof.
  induction n as [|n IH]; intros o v m w Hok Hsz Hne Hn Hlk Hi Hw Hmv Hroom Hpos.
  { destruct (log_entries o); [done|cbn in Hn; lia]. }
  destruct (log_entries o) as [|p rest] eqn:He; [done|]. apply Forall_cons in Hlk as [Hlp Hlk].
  pose proof (log_entries_nodup o m Hok) as Hnd. rewrite He in Hnd. apply NoDup_cons in Hnd as [Hni _].
  pose proof (oplog_fifo_spec o m Hok Hsz) as Hf. rewrite He in Hf. destruct Hf as (Hnz & Hpk & _).
  cbn [reclaim_loop]. rewrite Hpk, (proj2 (Z.eqb_neq p 0)) by done.
  destruct (reclaim_one_spec o v m i w p rest Hok Hsz He Hlp Hni Hi Hw Hmv Hroom)
    as (o1 & v1 & m1 & w1 & Hone & Hd & Hi1 & Hms & Hmv1 & Hwc1 & Hfr1 & Ho1 & Hroom1 & Hst).
  assert (w_chunk v1 !! i = Some w1) as Hw1
    by (rewrite Hwc1; apply list_lookup_insert_eq; by eapply lookup_lt_Some).
  rewrite Hone. cbn [mbind res_bind].
  destruct (deq_facts o m p o1 rest Hok Hsz He Hd) as (Hok1 & He1 & Hsz1 & Eo1 & Hht & Hused).
  rewrite (proj2 (Z.leb_le _ _)) by lia. cbn [assert_ mbind res_bind]. rewrite Hused.
  assert (pos_after (live_count m1 rest) (wc_entry_offset w1) = ENTRIES) as Hpos1.
  { rewrite (live_count_same m m1), Ho1 by done. unfold live_count in *. rewrite <- Hpos.
    destruct (op_live m p) eqn:Hl.
    - rewrite filter_cons_True by done. cbn [length]. by rewrite pos_after_S.
    - by rewrite filter_cons_False by congruence. }
  assert (tail_cnt o1 = tail_cnt o) as Ht by (by rewrite Eo1).
  destruct (log_same o1 m m1 Hms Hok1 Hsz1) as [Hok1' Hsz1'].
  unfold MTS_OPLOG_LOW_MARK. destruct (Z.eqb_spec (tail_cnt o1 - head_cnt o1) 0) as [Hz|Hnz'].
  - assert (rest = []) as -> by (rewrite <- He1; apply (log_entries_nil o1 m Hok1); lia).
    cbn in Hpos1. pose proof wf_entries.
    destruct (forced_write_chunk_spec K v1 m1 i w1 Hi1 Hw1) as (v2 & m2 & Hfw & Hi2 & Hms2 & (w2 & Hwc2 & Hp2 & Ho2) & Hfr2 & Hst2).
    { lia. }
    { left. lia. }
    rewrite Hfw. cbn [mbind res_bind]. exists o1, v2, m2. split; [done|].
    split; [rewrite Eo1 at 1; f_equal; lia|]. split; [done|]. split; [by eapply mem_same_trans|].
    split; [exists w2; by rewrite Hwc2, Hwc1, list_insert_insert_eq|].
    split; [eapply vs_frame_trans; [|exact Hfr1|exact Hfr2]; intros a e; by rewrite Hst2|].
    intros a e. by rewrite Hst2, Hst.
  - destruct (IH o1 v1 m1 w1) as (o' & v' & m' & Hloop & Eo' & Hi' & Hms' & (w' & Hwc' & Hp') & Hfr' & Hst'); rewrite ?He1; try done.
    + intros ->. apply Hnz'. apply (log_entries_nil o1 m Hok1) in He1. lia.
    + cbn in Hn. lia.
    + eapply Forall_impl; [exact Hlk|]. intros q. by apply op_linked_same.
    + exists o', v', m'. split; [done|]. split; [rewrite Eo', Ht; by rewrite Eo1|]. split; [done|].
      split; [by eapply mem_same_trans|].
      split; [exists w'; by rewrite Hwc', Hwc1, list_insert_insert_eq|].
      split; [eapply vs_frame_trans; [|exact Hfr1|exact Hfr']; intros a e Hse; apply Hst'; by left|].
      intros a e. rewrite Hst', Hst, He1, <- (reclaimed_entry_cons m m1 p rest) by done. tauto.
Qed.

(** * Reclaim *)

(** The log before a reclaim: what it needs of the log, the storage and the
    writer. *)
Record reclaim_pre (o : ts_oplog) (v : ValueStorage) (m : memory) (i : nat) : Prop := {
  rp_ok : log_ok o m;
  rp_sized : log_sized o m;
  rp_linked : Forall (op_linked m) (log_entries o);
  rp_storage : storage_inv K v m;
  rp_movable : movable v m (log_entries o);
  rp_writer : exists w, w_chunk v !! i = Some w /\ wc_entry_offset w = 0%nat;
  rp_room : (live_count m (log_entries o) <= length (free_chunk_list v) * ENTRIES)%nat;
  rp_full : (0 < live_count m (log_entries o))%nat /\
            (live_count m (log_entries o) mod ENTRIES = 0)%nat;
}.

Lemma log_length_bound o m : log_ok o m ->
  (length (log_entries o) <= Z.to_nat (log_size o / KV_SIZE))%nat.
Proof.
  intros Hok. unfold log_entries. rewrite length_fmap, length_seq.
  pose proof (log_length_mul o m Hok) as Hm. pose proof (lo_fits _ _ Hok) as Hf. pose proof wf_kv_pos.
  assert (Z.of_nat (log_length o) <= log_size o / KV_SIZE); [|lia].
  apply Z.div_le_lower_bound; lia.
Qed.

(** The log [id] of [L] has been moved to the storage: it is empty and ready,
    the other log is untouched, and the storage holds what it held and the
    live entries of the log. *)
Record log_moved (L : OpLog) (v : ValueStorage) (m : memory) (id : Z)
    (L' : OpLog) (v' : ValueStorage) (m' : memory) : Prop := {
  lm_empty : log_entries (the_oplog L' (id =? 0)) = [];
  lm_head : head_cnt (the_oplog L' (id =? 0)) = 0 /\ store_head_cnt (the_oplog L' (id =? 0)) = 0;
  lm_ok : log_ok (the_oplog L' (id =? 0)) m';
  lm_id : ol_id (the_oplog L' (id =? 0)) = ol_id (the_oplog L (id =? 0));
  lm_buffer : buffer (the_oplog L' (id =? 0)) = buffer (the_oplog L (id =? 0));
  lm_ready : ready (the_oplog L' (id =? 0)) = true;
  lm_other : the_oplog L' (negb (id =? 0)) = the_oplog L (negb (id =? 0));
  lm_working : working1 L' = working1 L /\ g_oplog_id L' = g_oplog_id L;
  lm_lock : reclaim_lock L' = false;
  lm_storage : storage_inv K v' m';
  lm_mem : mem_same m m';
  lm_flushed : exists w', w_chunk v' = <[g_oplog_id L := w']> (w_chunk v) /\
    w_pending w' = [] /\ wc_entry_offset w' = 0%nat;
  lm_frame : vs_frame v m v' m';
  lm_stored : forall a e, stored v' m' a e <->
    stored v m a e \/ reclaimed_entry m (log_entries (the_oplog L (id =? 0))) a e;
}.

Lemma reclaim_spec L v m id :
  reclaim_pre (the_oplog L (id =? 0)) v m (g_oplog_id L) ->
  exists L' v' m', reclaim L v m id = Ok (L', v', m') /\ log_moved L v m id L' v' m'.
Proof.
  set (one := id =? 0). set (o := the_oplog L one).
  intros [Hok Hsz Hlk Hi Hmv (w & Hw & Ho) Hroom [Hpos Hdiv]].
  set (o0 := set_ready false true o).
  assert (log_entries o0 = log_entries o) as He0 by done.
  assert (log_ok o0 m) as Hok0 by (destruct Hok; by split).
  assert (log_entries o <> []) as Hne by (intros E; rewrite E in Hpos; cbn in Hpos; lia).
  destruct (reclaim_loop_spec (g_oplog_id L) (S (Z.to_nat (log_size o0 / KV_SIZE))) o0 v m w)
    as (o1 & v1 & m1 & Hloop & Eo1 & Hi1 & Hms & Hp & Hfr & Hst); rewrite ?He0; try done.
  { pose proof (log_length_bound o m Hok). cbn. lia. }
  { lia. }
  { rewrite Ho. by apply pos_after_full. }
  unfold reclaim. fold one. fold o. fold o0. rewrite Hloop. cbn [mbind res_bind].
  pose proof (lo_tail _ _ Hok) as [Ht Htd]. pose proof (lo_head _ _ Hok) as [Hh Hhd].
  assert (head_cnt o1 = tail_cnt o) as Eh by (by rewrite Eo1).
  assert (head_cnt o <> tail_cnt o) as Hht by (intros E; by apply (log_entries_nil o m Hok) in E).
  change (head_cnt o0) with (head_cnt o). rewrite (proj2 (Z.leb_le _ _)) by lia.
  cbn [assert_ mbind res_bind]. rewrite (proj2 (Z.eqb_neq _ _)) by lia. cbn [negb].
  change (MTS_OPLOG_LOW_MARK =? 0) with true. cbn iota. set (o2 := set_ready true _ _).
  eexists _, v1, m1. split; [done|].
  assert (log_ok o2 m1) as Hok2.
  { destruct (log_same o m m1 Hms Hok Hsz) as [[Hs Hm Hb _ _ _ Hmap] _].
    pose proof size_pos. subst o2 o1. split; cbn in *; try done; [| |lia]; (split; [lia|apply Z.divide_0_r]). }
  assert (log_entries o2 = []) as He2 by (apply (log_entries_nil o2 m1 Hok2); done).
  assert (ol_id o2 = ol_id o /\ buffer o2 = buffer o) as [Ei2 Eb2] by (by subst o2; rewrite Eo1).
  split; fold one; try done; unfold the_oplog, put_oplog; try (by destruct one).
Qed.

(** C23. [reclaim] of a log whose live entries fill whole chunks (their number
    is a positive multiple of the entries of a chunk), with free chunks for them, by
    a writer whose chunk is empty, returns (with a chunk filled in part it can
    link a key to another key's value, [stale_buffer_wrong_value]): every live value is moved to the storage under its own
    address-table entry, nothing else in the storage changes, value addresses
    and cache are untouched, nothing is left waiting in the writer's buffer,
    the log is empty with its counters back at zero, the other log is as it
    was. *)
Theorem reclaim_moves_live L v m id :
  reclaim_pre (the_oplog L (id =? 0)) v m (g_oplog_id L) ->
  exists L' v' m', reclaim L v m id = Ok (L', v', m') /\ log_moved L v m id L' v' m'.
Proof. apply reclaim_spec. Qed.

(** [unlink_to_at] (used when a key is removed) clears the log entry's
    back pointer; a reclaim that reaches the entry follows that null pointer. *)
Theorem reclaim_unlinked_faults o v m m' i a p e tg :
  user_addr p -> at_mem m !! a = Some e -> a <> 0 -> p <> 0 -> is_Some (op_mem m !! p) ->
  val_addr e = p + tg * 2 ^ 56 ->
  unlink_to_at m a = Ok m' -> reclaim_one o v m' i p = Err NullDeref.
Proof.
  intros Hu He Ha Hp [oe Hoe] Hv Hun. unfold unlink_to_at in Hun.
  rewrite (load_at_some _ _ _ Ha He) in Hun. cbn in Hun. rewrite Hv, get_untagged_shape in Hun by done.
  rewrite (store_op_some _ _ _ _ Hp Hoe) in Hun. cbn in Hun.
  erewrite store_at_some in Hun by done. injection Hun as <-. unfold reclaim_one.
  erewrite load_op_some; [|done|cbn; apply lookup_insert_eq]. done.
Qed.
End reclaim.
