(* ===== verification/BufferExamples.v ===== *)
(** The write buffer at a small configuration: runs that show the hypotheses
    of the theorems of OpLog.v and Reclaim.v can hold.

    A log holds four entries, as a chunk does. *)

From S2P Require Import Prelude Config TaggedPtr Objects IoUring ValueStorage.
From S2P Require Import ChunkWrite ChunkAlloc GarbageCollection GcLoop Storage StorageExamples OpLog Reclaim.

Local Open Scope Z_scope.

#[local] Existing Instance tiny_config.
#[local] Existing Instance tiny_config_wf.
#[local] Existing Instance plain_uring.

Ltac divides := match goal with |- (64 | ?n) => exists (n / 64); by vm_compute end.

(** Two mapped buffers, four address-table entries linked to the first. *)
Definition buf_op (i : nat) : Z * op_entry_t :=
  (4096 + 64 * Z.of_nat i, OpEntry (50 + Z.of_nat i) (100 + 16 * Z.of_nat i) (5 + Z.of_nat i) 64).
Definition buf_at (i : nat) : Z * at_entry_t :=
  (100 + 16 * Z.of_nat i, AtEntry (VsIdx (-1) (-1)) (4096 + 64 * Z.of_nat i + OPLOG_VAL * 2 ^ 56)).
Definition buf_m : memory :=
  Memory (list_to_map (buf_at <$> seq 0 4)) (list_to_map (buf_op <$> seq 0 8)) ∅.

Definition buf_log (id h t : Z) : ts_oplog :=
  TsOplog id true false h t 256 (to_u64 (Z.lnot 255)) (4096 + 256 * id) h t.

Definition buf_L (lock : bool) (t1 t2 : Z) : OpLog :=
  MkOpLog lock 0 true (buf_log 0 0 t1) (buf_log 1 0 t2) None 0.

Lemma buf_log_ok id h t : (id = 0 \/ id = 1) -> 0 <= h <= t -> t < 1024 -> t - h <= 256 ->
  (64 | h) -> (64 | t) -> log_ok (buf_log id h t) buf_m.
Proof.
  intros Hid Hh Ht Hf Dh Dt. split; try done; unfold buf_log; cbn [log_size mask buffer head_cnt tail_cnt].
  1: lia. 1: (split; [lia|done]). 1: (split; [lia|done]).
  intros i Hi [k ->]. change KV_SIZE with 64 in *.
  assert (k = 0 \/ k = 1 \/ k = 2 \/ k = 3) as Hk by lia.
  destruct Hid as [-> | ->], Hk as [-> | [-> | [-> | ->]]]; eexists; by vm_compute.
Qed.

Lemma put_ol_entry_appends_witness :
  exists p e o' m', put_ol_entry (buf_log 0 128 320) buf_m 9 90 = Ok (p, o', m') /\
    appended (buf_log 0 128 320) buf_m 9 90 p e o' m'.
Proof.
  pose proof (put_ol_entry_appends (buf_log 0 128 320) buf_m 9 90) as R.
  rewrite bool_decide_true in R by (by vm_compute).
  apply R; [|by vm_compute]. apply buf_log_ok; try lia; divides.
Defined.

Lemma oplog_fifo_witness :
  4096 <> 0 /\ oplog_peek_head (buf_log 0 0 128) = 4096 /\
  exists o', oplog_deq (buf_log 0 0 128) buf_m = Ok (4096, o') /\ log_entries o' = [4160] /\
    log_ok o' buf_m /\ tail_cnt o' = 128.
Proof.
  pose proof (oplog_fifo (buf_log 0 0 128) buf_m) as R.
  change (log_entries (buf_log 0 0 128)) with [4096; 4160] in R. apply R; clear R.
  - apply buf_log_ok; try lia; divides.
  - intros p Hp. change (log_entries (buf_log 0 0 128)) with [4096; 4160] in Hp.
    apply elem_of_cons in Hp as [->|[->|Hp]%elem_of_cons]; [eexists; by vm_compute..|].
    by apply elem_of_nil in Hp.
Defined.

Lemma buf_L_ok lock t1 t2 : 0 <= t1 <= 256 -> 0 <= t2 <= 256 -> (64 | t1) -> (64 | t2) ->
  oplog_ok (buf_L lock t1 t2) buf_m.
Proof.
  intros R1 R2 D1 D2. split; try done; try (cbn; lia); apply buf_log_ok; try lia; try done; apply Z.divide_0_r.
Qed.

(** Log 1 is full, log 2 empty: the logs are exchanged. *)
Lemma enq_double_buffer_witness :
  exists p e o' m' L', enq (buf_L false 256 0) buf_m 9 90 = Ok (Some (p, L', m')) /\
    appended (buf_log 1 0 0) buf_m 9 90 p e o' m' /\
    working1 L' = false /\ the_oplog L' false = o' /\ log_entries o' = [p] /\
    the_oplog L' true = buf_log 0 0 256 /\ reclaim_thread L' = Some 0 /\ g_oplog_id L' = 0%nat /\ entries_kept (buf_L false 256 0) buf_m m'.
Proof.
  pose proof (enq_double_buffer (buf_L false 256 0) buf_m 9 90) as R. cbv zeta in R.
  rewrite bool_decide_false in R by (by vm_compute). apply R; [|left; by vm_compute|reflexivity].
  apply buf_L_ok; try lia; divides.
Defined.

Lemma enq_before_reclaim_starts_witness :
  exists L', enq (buf_L false 256 256) buf_m 9 90 = Ok (Some (NEED_RECLAIM, L', buf_m)) /\
    forall at_entry, link_to_at buf_m NEED_RECLAIM at_entry = Err NullDeref.
Proof.
  apply (enq_before_reclaim_starts (buf_L false 256 256) buf_m 9 90).
  - apply buf_L_ok; try lia; divides.
  - reflexivity.
  - by vm_compute.
  - by vm_compute.
Defined.

(** * Reclaiming the four live entries of log 1 *)

Definition buf_K : gmap Z Z := list_to_map [(100, 5); (116, 6); (132, 7); (148, 8)].

Lemma buf_K_cases a k : buf_K !! a = Some k ->
  (a = 100 /\ k = 5) \/ (a = 116 /\ k = 6) \/ (a = 132 /\ k = 7) \/ (a = 148 /\ k = 8).
Proof.
  unfold buf_K. cbn [list_to_map foldr]. rewrite !lookup_insert_Some, lookup_empty. cbn. intros Hk.
  destruct Hk as [[<- <-]|[_ [[<- <-]|[_ [[<- <-]|[_ [[<- <-]|[_ Hk]]]]]]]]; [lia..|done].
Qed.

Lemma buf_K_inj : K_inj buf_K.
Proof. intros a b k Ha Hb. apply buf_K_cases in Ha, Hb. lia. Qed.

Lemma buf_pre : reclaim_pre buf_K (buf_log 0 0 256) v0 buf_m 0.
Proof.
  assert (log_entries (buf_log 0 0 256) = [4096; 4160; 4224; 4288]) as E by (by vm_compute).
  split; rewrite ?E.
  - apply buf_log_ok; try lia; divides.
  - intros p. rewrite E, !elem_of_cons, elem_of_nil. intros [->|[->|[->|[->|[]]]]]; eexists; by vm_compute.
  - repeat constructor; eexists _, _; (split; [reflexivity|]; split; [done|reflexivity]).
  - apply create_storage_inv; [apply buf_K_inj|]. intros i. by vm_compute.
  - intros p e. rewrite !elem_of_cons, elem_of_nil.
    intros [->|[->|[->|[->|[]]]]] _ He; injection He as <-;
      (split; [done|by eexists; vm_compute|by vm_compute|vm_compute; apply not_elem_of_nil|];
       intros e (_ & c & j & (_ & _ & Hv & _) & _); unfold v0 in Hv; by rewrite create_bit in Hv).
  - eexists. split; [reflexivity|done].
  - vm_compute. lia.
  - vm_compute. split; [lia|done].
Qed.

Lemma reclaim_moves_live_witness :
  exists L' v' m', reclaim (buf_L true 256 64) v0 buf_m 0 = Ok (L', v', m') /\
    log_moved buf_K (buf_L true 256 64) v0 buf_m 0 L' v' m'.
Proof. apply (reclaim_moves_live buf_K (buf_L true 256 64) v0 buf_m 0). apply buf_pre. Defined.

Lemma reclaim_unlinked_faults_witness : exists m',
  unlink_to_at buf_m 100 = Ok m' /\ reclaim_one (buf_log 0 0 256) v0 m' 0 4096 = Err NullDeref.
Proof.
  eexists. split; [reflexivity|].
  eapply (reclaim_unlinked_faults (buf_log 0 0 256) v0 buf_m _ 0 100 4096 _ OPLOG_VAL);
    [by vm_compute|reflexivity|done|done|by eexists; vm_compute|by vm_compute|reflexivity].
Defined.
