(* ===== verification/LRUList.v ===== *)
(** The lists of the DRAM cache ([src/PRISM/src/LRUList.h], [LRUList.cpp]).

    A list is a doubly linked list of cache entries threaded through the
    entries themselves.  [lru d m l] says that the list [d] represents, in
    memory [m], the sequence of entries [l], most recently used first; every
    operation refines the operation on sequences. *)

From S2P Require Import Prelude Config TaggedPtr Objects.

Local Open Scope Z_scope.

(** [cache_t] *)
Record LRUList := MkLRUList {
  head : Z; tail : Z; max_size : Z; cur_size : Z; list_type : Z }.

Definition set_ends (h t n : Z) (d : LRUList) : LRUList :=
  MkLRUList h t (max_size d) n (list_type d).

Definition set_prev (p : Z) (e : dc_entry_t) : dc_entry_t :=
  DcEntry (dc_at_entry e) p (dc_next e) (dc_s_prev e) (dc_s_next e) (dc_list_type e) (dc_key e) (dc_val e).
Definition set_next (p : Z) (e : dc_entry_t) : dc_entry_t :=
  DcEntry (dc_at_entry e) (dc_prev e) p (dc_s_prev e) (dc_s_next e) (dc_list_type e) (dc_key e) (dc_val e).
Definition set_s_prev (p : Z) (e : dc_entry_t) : dc_entry_t :=
  DcEntry (dc_at_entry e) (dc_prev e) (dc_next e) p (dc_s_next e) (dc_list_type e) (dc_key e) (dc_val e).
Definition set_s_next (p : Z) (e : dc_entry_t) : dc_entry_t :=
  DcEntry (dc_at_entry e) (dc_prev e) (dc_next e) (dc_s_prev e) p (dc_list_type e) (dc_key e) (dc_val e).
Definition set_list_type (t : Z) (e : dc_entry_t) : dc_entry_t :=
  DcEntry (dc_at_entry e) (dc_prev e) (dc_next e) (dc_s_prev e) (dc_s_next e) t (dc_key e) (dc_val e).

Section lru.
Context `{Config}.

Definition create (list_type : Z) : LRUList :=
  MkLRUList 0 0
    (to_i32 ((if list_type =? ACTIVE_LIST then MTS_ACTIVE_LIST_SIZE else MTS_INACTIVE_LIST_SIZE)
             / sizeof_dc_entry))
    0 list_type.

Definition get_cur_size (d : LRUList) : Z := cur_size d.
Definition get_max_size (d : LRUList) : Z := max_size d.
Definition get_tail (d : LRUList) : Z := tail d.
Definition iter_dcache (d : LRUList) : Z := head d.

(** [malloc] gives address [p] ([0]: failure). *)
Definition alloc_entry (d : LRUList) (m : memory) (p : Z) (cq : cq_entry_t) : res memory :=
  if p =? 0 then Err ExitFailure
  else Ok (upd_dc m p (DcEntry (cq_at_entry cq) 0 0 0 0 (list_type d) (cq_key cq) (cq_val cq))).

Definition chain_has_active_entry (m : memory) (p : Z) : res bool :=
  e ← load_dc m p; Ok (negb (dc_s_prev e =? 0) || negb (dc_s_next e =? 0)).

Definition free_entry (m : memory) (p : Z) : res memory :=
  e ← load_dc m p;
  m1 ← (if negb (dc_s_prev e =? 0) then store_dc m (dc_s_prev e) (set_s_next (dc_s_next e)) else Ok m);
  e1 ← load_dc m1 p;
  m2 ← (if negb (dc_s_next e1 =? 0) then store_dc m1 (dc_s_next e1) (set_s_prev (dc_s_prev e1)) else Ok m1);
  Ok (free_dc m2 p).

Definition insert_head (d : LRUList) (m : memory) (p : Z) : res (LRUList * memory) :=
  '(d1, m1) ←
    (if head d =? 0 then
       m1 ← store_dc m p (fun e => set_prev 0 (set_next 0 e));
       Ok (set_ends p p (cur_size d) d, m1)
     else
       m1 ← store_dc m (head d) (set_prev p);
       m2 ← store_dc m1 p (fun e => set_prev 0 (set_next (head d) e));
       Ok (set_ends p (tail d) (cur_size d) d, m2));
  m2 ← store_dc m1 p (set_list_type (list_type d));
  Ok (set_ends (head d1) (tail d1) (to_i32 (cur_size d + 1)) d, m2).

Definition move_to_head (d : LRUList) (m : memory) (p : Z) : res (LRUList * memory) :=
  if p =? head d then Ok (d, m)
  else
    e ← load_dc m p;
    '(t, m1) ←
      (if p =? tail d then
         m1 ← store_dc m (dc_prev e) (set_next 0); Ok (dc_prev e, m1)
       else
         m1 ← store_dc m (dc_prev e) (set_next (dc_next e));
         m2 ← store_dc m1 (dc_next e) (set_prev (dc_prev e));
         Ok (tail d, m2));
    m2 ← store_dc m1 p (set_next (head d));
    m3 ← store_dc m2 (head d) (set_prev p);
    m4 ← store_dc m3 p (set_prev 0);
    Ok (set_ends p t (cur_size d) d, m4).

Definition move_to_tail (d : LRUList) (m : memory) (p : Z) : res (LRUList * memory) :=
  if p =? tail d then Ok (d, m)
  else
    e ← load_dc m p;
    '(h, m1) ←
      (if p =? head d then
         m1 ← store_dc m (dc_next e) (set_prev 0); Ok (dc_next e, m1)
       else
         m1 ← store_dc m (dc_next e) (set_prev (dc_prev e));
         m2 ← store_dc m1 (dc_prev e) (set_next (dc_next e));
         Ok (head d, m2));
    m2 ← store_dc m1 p (set_prev (tail d));
    m3 ← store_dc m2 (tail d) (set_next p);
    m4 ← store_dc m3 p (set_next 0);
    Ok (set_ends h p (cur_size d) d, m4).

Definition remove_tail (d : LRUList) (m : memory) : res (Z * LRUList * memory) :=
  let old_tail := tail d in
  e ← load_dc m old_tail;
  m1 ← store_dc m (dc_prev e) (set_next 0);
  Ok (old_tail, set_ends (head d) (dc_prev e) (to_i32 (cur_size d - 1)) d, m1).

(** The end of [remove_entry]: a cached address becomes a value-storage one. *)
Definition uncache (m : memory) (at_entry : Z) : res memory :=
  x ← load_at m at_entry;
  if get_tag (val_addr x) =? DCACHE_VAL
  then store_at m at_entry (set_val_addr (put_tagged_ptr (val_addr x) VALUESTORAGE_VAL))
  else Ok m.

Definition remove_entry (d : LRUList) (m : memory) (p : Z) : res (LRUList * memory) :=
  '(h, t, m1) ←
    (if head d =? tail d then Ok (0, 0, m)
     else if head d =? p then
       e ← load_dc m p;
       m1 ← store_dc m (dc_next e) (set_prev 0); Ok (dc_next e, tail d, m1)
     else if tail d =? p then
       e ← load_dc m p;
       m1 ← store_dc m (dc_prev e) (set_next 0); Ok (head d, dc_prev e, m1)
     else
       e ← load_dc m p;
       m1 ← store_dc m (dc_prev e) (set_next (dc_next e));
       m2 ← store_dc m1 (dc_next e) (set_prev (dc_prev e));
       Ok (head d, tail d, m2));
  e ← load_dc m1 p;
  m2 ← uncache m1 (dc_at_entry e);
  Ok (set_ends h t (to_i32 (cur_size d - 1)) d, m2).

(** The destructor: [n] bounds the entries. *)
Fixpoint destroy (n : nat) (d : LRUList) (m : memory) (cur_entry : Z) : res (LRUList * memory) :=
  match n with
  | O => if cur_size d =? 0 then Ok (d, m) else Err NoReturn
  | S n' =>
      if cur_size d =? 0 then Ok (d, m)
      else
        e ← load_dc m cur_entry;
        '(d1, m1) ← remove_entry d m cur_entry;
        m2 ← free_entry m1 cur_entry;
        destroy n' d1 m2 (dc_next e)
  end.

(** * Segments *)

Definition first (l : list Z) (d : Z) : Z := match l with [] => d | a :: _ => a end.
Definition final (d : Z) (l : list Z) : Z := List.last l d.

Fixpoint seg (m : memory) (pr : Z) (l : list Z) (nx : Z) : Prop :=
  match l with
  | [] => True
  | a :: l' => a <> 0 /\
      (exists e, dc_mem m !! a = Some e /\ dc_prev e = pr /\ dc_next e = first l' nx) /\
      seg m a l' nx
  end.

Lemma final_cons d a l : final d (a :: l) = final a l.
Proof.
  revert d a. induction l as [|b l IH]; intros d a; [done|].
  change (final d (b :: l) = final a (b :: l)). by rewrite !IH.
Qed.

Lemma final_app d l a : final d (l ++ [a]) = a.
Proof. unfold final. by rewrite List.last_last. Qed.

Lemma first_app l1 l2 d : first (l1 ++ l2) d = first l1 (first l2 d).
Proof. by destruct l1. Qed.

Lemma seg_app m pr l1 l2 nx :
  seg m pr (l1 ++ l2) nx <-> seg m pr l1 (first l2 nx) /\ seg m (final pr l1) l2 nx.
Proof.
  revert pr. induction l1 as [|a l1 IH]; intros pr; cbn [app seg]; [unfold final; cbn; tauto|].
  rewrite IH, final_cons, first_app. tauto.
Qed.

(** A segment reads only its own entries. *)
Lemma seg_frame m m' pr l nx : (forall a, a ∈ l -> dc_mem m' !! a = dc_mem m !! a) ->
  seg m pr l nx -> seg m' pr l nx.
Proof.
  revert pr. induction l as [|a l IH]; intros pr Hf; [done|]. cbn. intros (Hz & (e & He & R) & Hs).
  split; [done|]. split; [|apply IH; [intros b Hb; apply Hf; by right|done]].
  exists e. rewrite Hf; [done|left].
Qed.

Lemma seg_nonzero m pr l nx a : seg m pr l nx -> a ∈ l -> a <> 0 /\ is_Some (dc_mem m !! a).
Proof.
  revert pr. induction l as [|b l IH]; intros pr; cbn; [intros _ Ha; by apply elem_of_nil in Ha|].
  intros (Hz & (e & He & _) & Hs) [->|Ha]%elem_of_cons; [by rewrite He|by eapply IH].
Qed.

Lemma upd_dc_frame m p e (l : list Z) : p ∉ l -> forall a, a ∈ l -> dc_mem (upd_dc m p e) !! a = dc_mem m !! a.
Proof. intros Hp a Ha. cbn. rewrite lookup_insert_ne; [done|]. by intros ->. Qed.

(** Redirecting the ends of a segment. *)
Lemma seg_set_next m pr l a nx nx' e : a ∉ l -> seg m pr (l ++ [a]) nx -> dc_mem m !! a = Some e ->
  seg (upd_dc m a (set_next nx' e)) pr (l ++ [a]) nx'.
Proof.
  intros Hn [Hs1 Hs2]%seg_app He. apply seg_app. split.
  - eapply seg_frame; [|exact Hs1]. by apply upd_dc_frame.
  - cbn in *. destruct Hs2 as (Hz & (e' & He' & Hp & _) & _). split; [done|]. split; [|done].
    exists (set_next nx' e). rewrite lookup_insert_eq. assert (e' = e) as -> by congruence. done.
Qed.

Lemma seg_set_prev m pr pr' a l nx e : a ∉ l -> seg m pr (a :: l) nx -> dc_mem m !! a = Some e ->
  seg (upd_dc m a (set_prev pr' e)) pr' (a :: l) nx.
Proof.
  intros Hn (Hz & (e' & He' & _ & Hnx) & Hs) He. cbn. split; [done|]. split.
  - exists (set_prev pr' e). rewrite lookup_insert_eq. assert (e' = e) as -> by congruence. done.
  - eapply seg_frame; [|exact Hs]. by apply upd_dc_frame.
Qed.

(** * The representation *)

(** [d] represents [l] in [m]. *)
Record lru (d : LRUList) (m : memory) (l : list Z) : Prop := {
  lru_head : head d = first l 0;
  lru_tail : tail d = final 0 l;
  lru_seg : seg m 0 l 0;
  lru_nodup : NoDup l;
  lru_size : cur_size d = Z.of_nat (length l);
  lru_type : Forall (fun a => dc_list_type <$> dc_mem m !! a = Some (list_type d)) l;
  lru_int : Z.of_nat (length l) < 2 ^ 31 - 1;
}.

(** Two memories agree on what a list's operations do not touch. *)
Record dc_same (m m' : memory) (l : list Z) : Prop := {
  ds_at : at_mem m' = at_mem m;
  ds_op : op_mem m' = op_mem m;
  ds_out : forall a, a ∉ l -> dc_mem m' !! a = dc_mem m !! a;
  ds_in : forall a e, dc_mem m !! a = Some e -> exists e', dc_mem m' !! a = Some e' /\
    dc_at_entry e' = dc_at_entry e /\ dc_key e' = dc_key e /\ dc_val e' = dc_val e /\
    dc_s_prev e' = dc_s_prev e /\ dc_s_next e' = dc_s_next e;
}.

Lemma dc_same_refl m l : dc_same m m l.
Proof. split; try done. intros a e He. by exists e. Qed.

Lemma dc_same_trans m m1 m2 l : dc_same m m1 l -> dc_same m1 m2 l -> dc_same m m2 l.
Proof.
  intros [A1 B1 C1 D1] [A2 B2 C2 D2]. split; try congruence.
  - intros a Ha. by rewrite C2, C1.
  - intros a e He. destruct (D1 a e He) as (e1 & He1 & ? & ? & ? & ? & ?).
    destruct (D2 a e1 He1) as (e2 & He2 & ? & ? & ? & ? & ?). exists e2. split; [done|]. repeat split; congruence.
Qed.

Lemma dc_same_upd m (l : list Z) p e e' : dc_mem m !! p = Some e -> p ∈ l ->
  dc_at_entry e' = dc_at_entry e -> dc_key e' = dc_key e -> dc_val e' = dc_val e ->
  dc_s_prev e' = dc_s_prev e -> dc_s_next e' = dc_s_next e -> dc_same m (upd_dc m p e') l.
Proof.
  intros He Hp ? ? ? ? ?. split; try done.
  - intros a Ha. cbn. rewrite lookup_insert_ne; [done|]. by intros ->.
  - intros a e0 He0. cbn. destruct (decide (p = a)) as [<-|].
    + rewrite lookup_insert_eq. exists e'. split; [done|]. assert (e0 = e) as -> by congruence. done.
    + rewrite lookup_insert_ne by done. by exists e0.
Qed.

(** Links change, types do not. *)
Definition types_same (m m' : memory) : Prop :=
  forall a, dc_list_type <$> dc_mem m' !! a = dc_list_type <$> dc_mem m !! a.

Lemma types_same_upd m p e e' : dc_mem m !! p = Some e -> dc_list_type e' = dc_list_type e ->
  types_same m (upd_dc m p e').
Proof.
  intros He Ht a. cbn. destruct (decide (p = a)) as [<-|].
  - rewrite lookup_insert_eq, He. cbn. by rewrite Ht.
  - by rewrite lookup_insert_ne.
Qed.

Lemma lru_types d m m' l : types_same m m' ->
  Forall (fun a => dc_list_type <$> dc_mem m !! a = Some (list_type d)) l ->
  Forall (fun a => dc_list_type <$> dc_mem m' !! a = Some (list_type d)) l.
Proof. intros Ht Hl. eapply Forall_impl; [exact Hl|]. intros a. cbn. by rewrite Ht. Qed.

(** A list whose entries another list's operation did not touch is kept. *)
Lemma lru_frame d m m' l l' : dc_same m m' l' -> (forall a, a ∈ l -> a ∉ l') -> lru d m l -> lru d m' l.
Proof.
  intros Hs Hd []. split; try done.
  - eapply seg_frame; [|done]. intros a Ha. apply (ds_out _ _ _ Hs). by apply Hd.
  - rewrite Forall_forall in *. intros a Ha. rewrite (ds_out _ _ _ Hs) by (by apply Hd). by apply lru_type0.
Qed.

Lemma lru_empty t : lru (create t) (Memory ∅ ∅ ∅) [].
Proof. split; cbn; try done; constructor. Qed.

(** * Operations *)

Lemma to_i32_small z : 0 <= z < 2 ^ 31 -> to_i32 z = z.
Proof. intros. apply to_s_id; lia. Qed.

(** A new entry at the front. *)
Lemma insert_head_spec d m l p e : lru d m l -> p <> 0 -> p ∉ l -> dc_mem m !! p = Some e ->
  Z.of_nat (length l) + 1 < 2 ^ 31 - 1 ->
  exists d' m', insert_head d m p = Ok (d', m') /\ lru d' m' (p :: l) /\ dc_same m m' (p :: l) /\
    max_size d' = max_size d /\ list_type d' = list_type d.
Proof.
  intros [Hh Ht Hs Hnd Hsz Hty Hi] Hp Hn He Hint. unfold insert_head. rewrite Hh, Hsz.
  rewrite (to_i32_small (_ + 1)) by lia.
  destruct l as [|a l]; cbn [first].
  - cbn. rewrite (store_dc_some _ _ _ _ Hp He). cbn. erewrite store_dc_some; [|done|cbn; apply lookup_insert_eq].
    cbn. eexists _, _. split; [done|]. unfold upd_dc. cbn. rewrite insert_insert_eq.
    split; [split; cbn; try done|split; [|done]].
    + split; [done|]. split; [|done]. eexists. by rewrite lookup_insert_eq.
    + apply NoDup_singleton.
    + constructor; [|constructor]. by rewrite lookup_insert_eq.
    + by eapply (dc_same_upd m [p] p e); [|left|..].
  - pose proof Hs as (Ha & (ea & Hea & Hpa & Hna) & Hs'). apply NoDup_cons in Hnd as [Hani Hnd'].
    apply not_elem_of_cons in Hn as [Hpa' Hpl]. rewrite (proj2 (Z.eqb_neq a 0)) by done.
    rewrite (store_dc_some _ _ _ _ Ha Hea). cbn [mbind res_bind].
    set (m1 := upd_dc m a (set_prev p ea)).
    assert (dc_mem m1 !! p = Some e) as Hp1 by (cbn; by rewrite lookup_insert_ne).
    rewrite (store_dc_some _ _ _ _ Hp Hp1). cbn [mbind res_bind].
    erewrite store_dc_some; [|done|cbn; apply lookup_insert_eq]. cbn [mbind res_bind set_ends head tail].
    unfold upd_dc at 1 2. cbn [at_mem op_mem dc_mem]. rewrite insert_insert_eq.
    set (e' := set_list_type _ _). change (Memory _ _ _) with (upd_dc m1 p e').
    assert (seg m1 p (a :: l) 0) as Hs1 by (by eapply seg_set_prev).
    assert (seg (upd_dc m1 p e') p (a :: l) 0) as Hs2.
    { eapply seg_frame; [|exact Hs1]. apply upd_dc_frame. by apply not_elem_of_cons. }
    eexists _, _. split; [done|]. split; [split; cbn [head tail set_ends cur_size list_type max_size]|split; [|done]].
    + done.
    + by rewrite Ht, !final_cons.
    + cbn. split; [done|]. split; [|done]. exists e'. by rewrite lookup_insert_eq.
    + constructor; [by apply not_elem_of_cons|by constructor].
    + cbn [length]. lia.
    + constructor; [by cbn; rewrite lookup_insert_eq|]. rewrite Forall_forall in *. intros b Hb.
      cbn. rewrite lookup_insert_ne by (intros ->; by apply elem_of_cons in Hb as [->|]).
      specialize (Hty b Hb). destruct (decide (a = b)) as [<-|].
      * rewrite lookup_insert_eq. rewrite Hea in Hty. exact Hty.
      * by rewrite lookup_insert_ne.
    + cbn [length]. cbn [length] in Hint. lia.
    + apply (dc_same_trans m m1).
      * eapply (dc_same_upd m _ a ea); [done|right; left|done..].
      * by eapply (dc_same_upd m1 _ p e); [done|left|..].
Qed.

(** Unlinking one entry: what [move_to_head], [move_to_tail] and
    [remove_entry] do to its neighbours. *)
Lemma seg_node m l1 p l2 : seg m 0 (l1 ++ p :: l2) 0 ->
  exists e, dc_mem m !! p = Some e /\ dc_prev e = final 0 l1 /\ dc_next e = first l2 0 /\
    p <> 0 /\ seg m 0 l1 p /\ seg m p l2 0.
Proof. intros [Hs1 (Hz & (e & He & Hp & Hn) & Hs2)]%seg_app. exists e. done. Qed.

Lemma final_in d l : final d l = d /\ l = [] \/ exists l' a, l = l' ++ [a] /\ final d l = a.
Proof.
  destruct l as [|b l _] using rev_ind; [by left|]. right. exists l, b. by rewrite final_app.
Qed.

Lemma final_nonzero m l nx : seg m 0 l nx -> l <> [] -> final 0 l <> 0 /\ final 0 l ∈ l.
Proof.
  intros Hs Hne. destruct (final_in 0 l) as [[_ ->]|(l' & a & -> & ->)]; [done|].
  assert (a ∈ l' ++ [a]) as Hin by (apply elem_of_app; right; left).
  split; [|done]. by apply (seg_nonzero _ _ _ _ _ Hs Hin).
Qed.

(** The links after [p] has been taken out from between [l1] and [l2], when
    the neighbours that exist have been redirected. *)
Definition bridged (m : memory) (l1 : list Z) (l2 : list Z) : res memory :=
  m1 ← (if final 0 l1 =? 0 then Ok m else store_dc m (final 0 l1) (set_next (first l2 0)));
  (if first l2 0 =? 0 then Ok m1 else store_dc m1 (first l2 0) (set_prev (final 0 l1))).

Lemma bridged_spec m l1 p l2 : seg m 0 (l1 ++ p :: l2) 0 -> NoDup (l1 ++ p :: l2) ->
  exists m', bridged m l1 l2 = Ok m' /\ seg m' 0 (l1 ++ l2) 0 /\ dc_same m m' (l1 ++ l2) /\
    types_same m m' /\ dc_mem m' !! p = dc_mem m !! p.
Proof.
  intros Hs Hnd. destruct (seg_node m l1 p l2 Hs) as (e & He & Hpr & Hnx & Hz & Hs1 & Hs2).
  assert (NoDup (p :: (l1 ++ l2))) as Hnd' by (by rewrite Permutation_middle).
  apply NoDup_cons in Hnd' as [Hpn Hnd12]. rewrite not_elem_of_app in Hpn. destruct Hpn as [Hp1 Hp2].
  apply NoDup_app in Hnd12 as (Hd1 & Hdis & Hd2).
  assert (exists m1, (if final 0 l1 =? 0 then Ok m else store_dc m (final 0 l1) (set_next (first l2 0))) = Ok m1 /\
    seg m1 0 l1 (first l2 0) /\ seg m1 p l2 0 /\ dc_same m m1 (l1 ++ l2) /\ types_same m m1 /\
    dc_mem m1 !! p = dc_mem m !! p) as (m1 & Hm1 & Hs1' & Hs2' & Hsame1 & Hty1 & Hp1').
  { destruct (final_in 0 l1) as [[E1 ->]|(l' & a & -> & Ea)].
    - exists m. cbn. split; [done|]. do 3 (split; [done || apply dc_same_refl|]). done.
    - rewrite Ea. assert (a ∈ l' ++ [a]) as Hin by (apply elem_of_app; right; left).
      destruct (seg_nonzero _ _ _ _ _ Hs1 Hin) as [Ha [ea Hea]].
      rewrite (proj2 (Z.eqb_neq a 0)) by done. rewrite (store_dc_some _ _ _ _ Ha Hea).
      assert (a ∉ l') as Hal.
      { apply NoDup_app in Hd1 as (_ & Hd & _). intros Hx. apply (Hd a Hx). left. }
      eexists. split; [done|]. split; [by eapply seg_set_next|]. split.
      { eapply seg_frame; [|exact Hs2]. apply upd_dc_frame. by apply Hdis. }
      split; [eapply dc_same_upd; [done|apply elem_of_app; by left|done..]|].
      split; [by eapply types_same_upd|]. cbn. rewrite lookup_insert_ne; [done|]. by intros ->. }
  unfold bridged. rewrite Hm1. cbn [mbind res_bind]. destruct l2 as [|b l2]; cbn [first] in *.
  - exists m1. cbn. rewrite app_nil_r in *. done.
  - assert (b ∈ b :: l2) as Hin by left. destruct (seg_nonzero _ _ _ _ _ Hs2' Hin) as [Hb [eb Heb]].
    rewrite (proj2 (Z.eqb_neq b 0)) by done. rewrite (store_dc_some _ _ _ _ Hb Heb).
    apply NoDup_cons in Hd2 as [Hbn _]. eexists. split; [done|]. split.
    { apply seg_app. split; [|by eapply seg_set_prev].
      cbn [first]. eapply seg_frame; [|exact Hs1']. apply upd_dc_frame. intros Hx. by apply (Hdis b Hx). }
    split; [eapply dc_same_trans; [exact Hsame1|]; eapply dc_same_upd; [done|apply elem_of_app; right; left|done..]|].
    split. { intros a. rewrite (types_same_upd m1 b eb) by done. apply Hty1. }
    cbn. rewrite lookup_insert_ne; [done|]. intros ->. apply Hp2. left.
Qed.

(** Facts about the ends of a list split at [p]. *)
Lemma ends_split m l1 p l2 : seg m 0 (l1 ++ p :: l2) 0 -> NoDup (l1 ++ p :: l2) ->
  (first (l1 ++ p :: l2) 0 = p <-> l1 = []) /\ (final 0 (l1 ++ p :: l2) = p <-> l2 = []) /\
  (first (l1 ++ p :: l2) 0 = final 0 (l1 ++ p :: l2) <-> l1 = [] /\ l2 = []) /\
  (l1 <> [] -> final 0 l1 <> 0) /\ (l2 <> [] -> first l2 0 <> 0) /\
  first (l1 ++ p :: l2) 0 = first l1 p /\ final 0 (l1 ++ p :: l2) = final p l2.
Proof.
  intros Hs Hnd. destruct (seg_node m l1 p l2 Hs) as (e & He & Hpr & Hnx & Hz & Hs1 & Hs2).
  assert (NoDup (p :: (l1 ++ l2))) as Hnd' by (by rewrite Permutation_middle).
  apply NoDup_cons in Hnd' as [Hpn Hnd12]. rewrite not_elem_of_app in Hpn. destruct Hpn as [Hp1 Hp2].
  apply NoDup_app in Hnd12 as (Hd1 & Hdis & Hd2).
  assert (first (l1 ++ p :: l2) 0 = first l1 p) as Ef by (by rewrite first_app).
  assert (final 0 (l1 ++ p :: l2) = final p l2) as El.
  { clear. revert p. induction l2 as [|b l2 IH] using rev_ind; intros p; [by rewrite final_app|].
    rewrite app_comm_cons, app_assoc, !final_app. done. }
  assert (l2 <> [] -> final p l2 ∈ l2) as Hin2.
  { intros Hne. destruct (final_in p l2) as [[_ ->]|(l' & a & -> & ->)]; [done|].
    apply elem_of_app. right. left. }
  assert (l1 <> [] -> first l1 p ∈ l1) as Hin1 by (destruct l1; [done|intros _; left]).
  rewrite Ef, El. split; [|split; [|split; [|split; [|split; [|done]]]]].
  - destruct l1; [done|]. split; [|done]. intros E. exfalso. apply Hp1. rewrite <- E. by apply Hin1.
  - destruct l2; [done|]. split; [|done]. intros E. exfalso. apply Hp2. rewrite <- E. by apply Hin2.
  - split; [|by intros [-> ->]]. intros E. destruct l1 as [|a l1], l2 as [|b l2]; [done|..]; exfalso.
    + apply Hp2. cbn [first] in E. rewrite E. by apply Hin2.
    + apply Hp1. change (final p []) with p in E. rewrite <- E. by apply Hin1.
    + apply (Hdis a); [left|]. cbn [first] in E. rewrite E. by apply Hin2.
  - intros Hne. by apply (final_nonzero m l1 p).
  - intros Hne. destruct l2 as [|b l2]; [done|]. cbn. apply (seg_nonzero _ _ _ _ _ Hs2). left.
Qed.

(** The pointer surgery of [remove_entry]. *)
Lemma remove_links_spec d m l1 p l2 : lru d m (l1 ++ p :: l2) ->
  exists m', (if head d =? tail d then Ok (0, 0, m)
     else if head d =? p then
       e ← load_dc m p;
       m1 ← store_dc m (dc_next e) (set_prev 0); Ok (dc_next e, tail d, m1)
     else if tail d =? p then
       e ← load_dc m p;
       m1 ← store_dc m (dc_prev e) (set_next 0); Ok (head d, dc_prev e, m1)
     else
       e ← load_dc m p;
       m1 ← store_dc m (dc_prev e) (set_next (dc_next e));
       m2 ← store_dc m1 (dc_next e) (set_prev (dc_prev e));
       Ok (head d, tail d, m2)) = Ok (first (l1 ++ l2) 0, final 0 (l1 ++ l2), m') /\
    bridged m l1 l2 = Ok m'.
Proof.
  intros [Hh Ht Hs Hnd _ _ _]. destruct (bridged_spec m l1 p l2 Hs Hnd) as (m' & Hb & _).
  exists m'. split; [|done]. destruct (ends_split m l1 p l2 Hs Hnd) as (E1 & E2 & E3 & N1 & N2 & Ef & El).
  destruct (seg_node m l1 p l2 Hs) as (e & He & Hpr & Hnx & Hz & _).
  rewrite (load_dc_some _ _ _ Hz He). cbn [mbind res_bind]. rewrite Hpr, Hnx, Hh, Ht.
  unfold bridged in Hb.
  destruct (Z.eqb_spec (first (l1 ++ p :: l2) 0) (final 0 (l1 ++ p :: l2))) as [E|Hne].
  { apply E3 in E as [-> ->]. cbn in Hb. by injection Hb as ->. }
  destruct (Z.eqb_spec (first (l1 ++ p :: l2) 0) p) as [E|Hne1].
  { apply E1 in E as ->. cbn [app] in *. destruct l2 as [|b l2]; [by destruct Hne; apply E3|].
    rewrite El. change (final 0 []) with 0 in Hb. cbn [Z.eqb mbind res_bind first] in Hb |- *.
    rewrite (proj2 (Z.eqb_neq b 0)) in Hb by (by apply N2). rewrite Hb. cbn [mbind res_bind].
    by rewrite !final_cons. }
  destruct (Z.eqb_spec (final 0 (l1 ++ p :: l2)) p) as [E|Hne2].
  { apply E2 in E as ->. rewrite app_nil_r. assert (l1 <> []) as H1 by (intros ->; by apply Hne1, E1).
    rewrite (proj2 (Z.eqb_neq (final 0 l1) 0)) in Hb by (by apply N1). cbn [first] in *.
    destruct (store_dc m (final 0 l1) (set_next 0)) as [m1|]; [|done]. cbn in Hb |- *. injection Hb as ->.
    rewrite Ef. by destruct l1. }
  assert (l1 <> []) as Hl1 by (intros ->; by apply Hne1, E1).
  assert (l2 <> []) as Hl2 by (intros ->; by apply Hne2, E2).
  rewrite (proj2 (Z.eqb_neq (final 0 l1) 0)) in Hb by (by apply N1).
  rewrite (proj2 (Z.eqb_neq (first l2 0) 0)) in Hb by (by apply N2).
  destruct (store_dc m (final 0 l1) (set_next (first l2 0))) as [m1|]; [|done]. cbn in Hb |- *.
  rewrite Hb. cbn. rewrite Ef, El. do 3 f_equal.
  - by destruct l1.
  - destruct l2 as [|b l2 _] using rev_ind; [done|]. by rewrite app_assoc, !final_app.
Qed.

(** The address-table entry after its value has left the cache. *)
Definition uncached (x : at_entry_t) : at_entry_t :=
  if get_tag (val_addr x) =? DCACHE_VAL
  then set_val_addr (put_tagged_ptr (val_addr x) VALUESTORAGE_VAL) x else x.

Lemma uncache_spec m a x : a <> 0 -> at_mem m !! a = Some x ->
  uncache m a = Ok (upd_at m a (uncached x)).
Proof.
  intros Ha Hx. unfold uncache, uncached. rewrite (load_at_some _ _ _ Ha Hx). cbn [mbind res_bind].
  destruct (_ =? _).
  - by rewrite (store_at_some _ _ _ _ Ha Hx).
  - f_equal. destruct m; cbn in *. unfold upd_at. cbn. by rewrite insert_id.
Qed.

Lemma lru_upd_at d m l a x : lru d m l -> lru d (upd_at m a x) l.
Proof.
  intros []. split; try done. eapply seg_frame; [|done]. done.
Qed.

Lemma lru_removed d m l1 p l2 m' : lru d m (l1 ++ p :: l2) -> seg m' 0 (l1 ++ l2) 0 -> types_same m m' ->
  lru (set_ends (first (l1 ++ l2) 0) (final 0 (l1 ++ l2)) (to_i32 (cur_size d - 1)) d) m' (l1 ++ l2).
Proof.
  intros [Hh Ht Hs Hnd Hsz Hty Hi] Hs' Hts.
  assert (l1 ++ p :: l2 ≡ₚ p :: (l1 ++ l2)) as Hp by (symmetry; apply Permutation_middle).
  rewrite Hp in Hnd, Hty, Hsz, Hi. cbn [length] in Hsz, Hi. apply NoDup_cons in Hnd as [_ Hnd].
  apply Forall_cons in Hty as [_ Hty]. split; cbn [head tail set_ends cur_size list_type]; try done.
  - rewrite to_i32_small by lia. lia.
  - by eapply lru_types.
  - lia.
Qed.

Lemma remove_entry_spec d m l1 p l2 e x :
  lru d m (l1 ++ p :: l2) -> dc_mem m !! p = Some e ->
  dc_at_entry e <> 0 -> at_mem m !! dc_at_entry e = Some x ->
  exists d' m1, remove_entry d m p = Ok (d', upd_at m1 (dc_at_entry e) (uncached x)) /\
    lru d' (upd_at m1 (dc_at_entry e) (uncached x)) (l1 ++ l2) /\ dc_same m m1 (l1 ++ l2) /\
    dc_mem m1 !! p = Some e /\ types_same m m1 /\ max_size d' = max_size d /\ list_type d' = list_type d.
Proof.
  intros Hl He Ha Hx. destruct (remove_links_spec d m l1 p l2 Hl) as (m1 & Hr & Hb).
  destruct (bridged_spec m l1 p l2 (lru_seg _ _ _ Hl) (lru_nodup _ _ _ Hl)) as (m1' & Hb' & Hs & Hsame & Hty & Hp).
  assert (m1' = m1) as -> by congruence. unfold remove_entry. rewrite Hr. cbn [mbind res_bind].
  destruct (seg_node m l1 p l2 (lru_seg _ _ _ Hl)) as (_ & _ & _ & _ & Hz & _).
  rewrite He in Hp. rewrite (load_dc_some _ _ _ Hz Hp). cbn [mbind res_bind].
  assert (at_mem m1 !! dc_at_entry e = Some x) as Hx1 by (by rewrite (ds_at _ _ _ Hsame)).
  rewrite (uncache_spec _ _ _ Ha Hx1). cbn [mbind res_bind].
  eexists _, m1. split; [done|]. split; [|done]. apply lru_upd_at. by eapply lru_removed.
Qed.

(** [remove_entry] takes exactly the given entry out of the list, wherever
    it stands, keeps the order of the others, and turns the entry's
    address-table entry from a cache address into a value-storage one; entries
    outside the list are untouched. *)
Theorem remove_entry_refines d m l1 p l2 e x :
  lru d m (l1 ++ p :: l2) -> dc_mem m !! p = Some e ->
  dc_at_entry e <> 0 -> at_mem m !! dc_at_entry e = Some x ->
  exists d' m1, remove_entry d m p = Ok (d', upd_at m1 (dc_at_entry e) (uncached x)) /\
    lru d' (upd_at m1 (dc_at_entry e) (uncached x)) (l1 ++ l2) /\ dc_same m m1 (l1 ++ l2) /\
    dc_mem m1 !! p = Some e /\ types_same m m1 /\ max_size d' = max_size d /\ list_type d' = list_type d.
Proof. apply remove_entry_spec. Qed.

Lemma remove_tail_spec d m l p : lru d m (l ++ [p]) ->
  match l with
  | [] => remove_tail d m = Err NullDeref
  | _ => exists d' m', remove_tail d m = Ok (p, d', m') /\ lru d' m' l /\ dc_same m m' l /\
           dc_mem m' !! p = dc_mem m !! p /\ types_same m m' /\
           max_size d' = max_size d /\ list_type d' = list_type d
  end.
Proof.
  intros Hl. pose proof Hl as [Hh Ht Hs Hnd Hsz Hty Hi].
  destruct (seg_node m l p [] Hs) as (e & He & Hpr & Hnx & Hz & Hs1 & _).
  destruct (bridged_spec m l p [] Hs Hnd) as (m1 & Hb & Hs' & Hsame & Hts & Hp).
  unfold remove_tail. rewrite Ht, final_app, (load_dc_some _ _ _ Hz He). cbn [mbind res_bind]. rewrite Hpr.
  destruct l as [|a l]; [reflexivity|]. unfold bridged in Hb.
  destruct (final_nonzero m (a :: l) p Hs1) as [Hfz _]; [done|].
  rewrite (proj2 (Z.eqb_neq (final 0 (a :: l)) 0)) in Hb by done. cbn [first] in Hb.
  destruct (store_dc m (final 0 (a :: l)) (set_next 0)) as [m2|]; [|done]. cbn in Hb. injection Hb as ->.
  cbn [mbind res_bind]. rewrite app_nil_r in Hs', Hsame. eexists _, m1. split; [done|]. split; [|done].
  pose proof (lru_removed d m (a :: l) p [] m1 Hl) as Hrm. rewrite app_nil_r in Hrm. specialize (Hrm Hs' Hts).
  assert (first (a :: l) 0 = head d) as E by (by rewrite Hh). by rewrite E in Hrm.
Qed.

(** [remove_tail] returns the least recently used entry of a list of at
    least two and leaves the rest in order; on a one-entry list it follows a
    null pointer. *)
Theorem remove_tail_refines d m l p : lru d m (l ++ [p]) ->
  match l with
  | [] => remove_tail d m = Err NullDeref
  | _ => exists d' m', remove_tail d m = Ok (p, d', m') /\ lru d' m' l /\ dc_same m m' l /\
           dc_mem m' !! p = dc_mem m !! p /\ types_same m m' /\
           max_size d' = max_size d /\ list_type d' = list_type d
  end.
Proof. apply remove_tail_spec. Qed.

(** The part of [move_to_head] that takes the entry out. *)
Lemma head_unlink m m1 l1 p l2 : seg m 0 (l1 ++ p :: l2) 0 -> NoDup (l1 ++ p :: l2) -> l1 <> [] -> bridged m l1 l2 = Ok m1 ->
  (if p =? final 0 (l1 ++ p :: l2) then
     m2 ← store_dc m (final 0 l1) (set_next 0); Ok (final 0 l1, m2)
   else
     m2 ← store_dc m (final 0 l1) (set_next (first l2 0));
     m3 ← store_dc m2 (first l2 0) (set_prev (final 0 l1));
     Ok (final 0 (l1 ++ p :: l2), m3)) = Ok (final p (l1 ++ l2), m1).
Proof.
  intros Hs Hnd Hl1 Hb. destruct (ends_split m l1 p l2 Hs Hnd) as (_ & E2 & _ & N1 & N2 & _ & El). unfold bridged in Hb.
  rewrite (proj2 (Z.eqb_neq (final 0 l1) 0)) in Hb by (by apply N1).
  destruct (Z.eqb_spec p (final 0 (l1 ++ p :: l2))) as [E|Hne2].
  - symmetry in E. apply E2 in E as ->. cbn [first] in Hb. destruct (store_dc m _ _) as [m2|]; [|done].
    cbn in Hb |- *. injection Hb as ->. rewrite app_nil_r. do 2 f_equal.
    destruct (final_in 0 l1) as [[_ ->]|(l' & a & -> & ->)]; [done|]. by rewrite final_app.
  - assert (l2 <> []) as Hl2 by (intros ->; by apply Hne2; symmetry; apply E2).
    rewrite (proj2 (Z.eqb_neq (first l2 0) 0)) in Hb by (by apply N2).
    destruct (store_dc m (final 0 l1) _) as [m2|]; [|done]. cbn in Hb |- *. rewrite Hb. cbn.
    rewrite El. do 2 f_equal. destruct l2 as [|b l2 _] using rev_ind; [done|].
    by rewrite app_assoc, !final_app.
Qed.

(** An entry that is in no list goes before the head [h]. *)
Lemma link_before m1 p h l e : seg m1 0 (h :: l) 0 -> NoDup (p :: h :: l) -> p <> 0 -> dc_mem m1 !! p = Some e ->
  exists m4, (m2 ← store_dc m1 p (set_next h); m3 ← store_dc m2 h (set_prev p); store_dc m3 p (set_prev 0)) = Ok m4 /\
    seg m4 0 (p :: h :: l) 0 /\ types_same m1 m4 /\ dc_same m1 m4 (p :: h :: l).
Proof.
  intros Hs' [Hpn Hnd2]%NoDup_cons Hz Hp. pose proof Hpn as [Hph _]%not_elem_of_cons.
  pose proof Hnd2 as [Hhn _]%NoDup_cons. destruct (seg_nonzero _ _ _ _ h Hs') as [Hhz [eh Heh]]; [left|].
  rewrite (store_dc_some _ _ _ _ Hz Hp). cbn [mbind res_bind]. set (m2 := upd_dc m1 p (set_next h e)).
  assert (dc_mem m2 !! h = Some eh) as Heh2 by (cbn; by rewrite lookup_insert_ne).
  rewrite (store_dc_some _ _ _ _ Hhz Heh2). cbn [mbind res_bind]. set (m3 := upd_dc m2 h (set_prev p eh)).
  assert (dc_mem m3 !! p = Some (set_next h e)) as Hp3.
  { cbn. rewrite lookup_insert_ne by done. by rewrite lookup_insert_eq. }
  rewrite (store_dc_some _ _ _ _ Hz Hp3). set (m4 := upd_dc m3 p (set_prev 0 (set_next h e))).
  exists m4. split_and!; [done| | |].
  - assert (seg m4 p (h :: l) 0) as Hs4.
    { eapply seg_frame; [by apply upd_dc_frame|]. eapply seg_set_prev; [done| |done].
      eapply seg_frame; [by apply upd_dc_frame|]. exact Hs'. }
    split; [done|]. split; [|done]. eexists. cbn. by rewrite lookup_insert_eq.
  - intros a. unfold m4. rewrite (types_same_upd m3 p (set_next h e)) by done. unfold m3.
    rewrite (types_same_upd m2 h eh) by done. unfold m2. by rewrite (types_same_upd m1 p e) by done.
  - apply (dc_same_trans m1 m2); [by eapply (dc_same_upd m1 _ p e); [done|left|..]|].
    apply (dc_same_trans m2 m3); [eapply (dc_same_upd m2 _ h eh); [done|right; left|done..]|].
    by eapply (dc_same_upd m3 _ p); [done|left|..].
Qed.

Lemma move_to_head_spec d m l1 p l2 : lru d m (l1 ++ p :: l2) ->
  exists d' m', move_to_head d m p = Ok (d', m') /\ lru d' m' (p :: (l1 ++ l2)) /\
    dc_same m m' (p :: (l1 ++ l2)) /\ max_size d' = max_size d /\ list_type d' = list_type d.
Proof.
  intros Hl. pose proof Hl as [Hh Ht Hs Hnd Hsz Hty Hi].
  destruct (ends_split m l1 p l2 Hs Hnd) as (E1 & _ & _ & _ & _ & Ef & _).
  destruct (seg_node m l1 p l2 Hs) as (e & He & Hpr & Hnx & Hz & _ & _).
  unfold move_to_head. rewrite Hh. destruct (Z.eqb_spec p (first (l1 ++ p :: l2) 0)) as [E|Hne].
  { symmetry in E. apply E1 in E as ->. eexists _, _. split; [done|]. split; [done|].
    split; [apply dc_same_refl|done]. }
  assert (l1 <> []) as Hl1 by (intros ->; by apply Hne; symmetry; apply E1).
  destruct (bridged_spec m l1 p l2 Hs Hnd) as (m1 & Hb & Hs' & Hsame & Hts & Hp).
  rewrite (load_dc_some _ _ _ Hz He). cbn [mbind res_bind]. rewrite Hpr, Hnx, Ht.
  rewrite (head_unlink _ _ _ _ _ Hs Hnd Hl1 Hb). cbn [mbind res_bind]. rewrite Ef. destruct l1 as [|h l1]; [done|]. cbn [first app] in *.
  assert (p :: h :: l1 ++ l2 ≡ₚ h :: l1 ++ p :: l2) as Hperm by apply (Permutation_middle (h :: l1) l2 p).
  rewrite He in Hp. destruct (link_before m1 p h (l1 ++ l2) e Hs') as (m4 & Hm4 & Hs4 & Ht4 & Hsame4); [by rewrite Hperm|done|done|].
  destruct (store_dc m1 p (set_next h)) as [m2|]; [|done]. cbn [mbind res_bind] in Hm4 |- *.
  destruct (store_dc m2 h (set_prev p)) as [m3|]; [|done]. cbn [mbind res_bind] in Hm4 |- *. rewrite Hm4. cbn [mbind res_bind].
  eexists _, m4. split; [done|]. split; [|split; [|done]].
  - split; cbn [head tail set_ends cur_size list_type]; [done|symmetry; apply final_cons|done|by rewrite Hperm|by rewrite Hsz, Hperm| |by rewrite Hperm].
    eapply lru_types; [|rewrite Hperm; exact Hty]. intros a. by rewrite Ht4, Hts.
  - apply (dc_same_trans m m1); [|done]. destruct Hsame as [? ? Hout ?]. split; try done. intros a [_ Ha]%not_elem_of_cons. by apply Hout.
Qed.

(** [move_to_head] makes the entry the most recently used one and keeps
    the order of the others. *)
Theorem move_to_head_refines d m l1 p l2 : lru d m (l1 ++ p :: l2) ->
  exists d' m', move_to_head d m p = Ok (d', m') /\ lru d' m' (p :: (l1 ++ l2)) /\
    dc_same m m' (p :: (l1 ++ l2)) /\ max_size d' = max_size d /\ list_type d' = list_type d.
Proof. apply move_to_head_spec. Qed.
End lru.

(** * A list of three entries *)

Section example.
#[local] Existing Instance tiny_config.

Definition ex_dc (pr nx at_entry : Z) : dc_entry_t := DcEntry at_entry pr nx 0 0 ACTIVE_LIST 1 2.
Definition ex_at : at_entry_t := AtEntry (VsIdx 0 5) (20 + DCACHE_VAL * 2 ^ 56).
Definition ex_mem : memory :=
  Memory {[ 100 := ex_at ]} ∅ (list_to_map [(10, ex_dc 0 20 100); (20, ex_dc 10 30 100); (30, ex_dc 20 0 100)]).
Definition ex_list : LRUList := MkLRUList 10 30 7 3 ACTIVE_LIST.
Definition ex_one : LRUList := MkLRUList 10 10 7 1 ACTIVE_LIST.

Lemma ex_lru : lru ex_list ex_mem ([10] ++ 20 :: [30]).
Proof.
  split; try done; try (by vm_compute).
  - cbn. split; [done|]. split; [eexists; by vm_compute|]. split; [done|]. split; [eexists; by vm_compute|].
    split; [done|]. split; [eexists; by vm_compute|done].
  - by apply (bool_decide_unpack _); vm_compute.
  - by apply (bool_decide_unpack _); vm_compute.
Qed.

Lemma remove_entry_refines_witness :
  exists d' m1, remove_entry ex_list ex_mem 20 = Ok (d', upd_at m1 100 (uncached ex_at)) /\
    lru d' (upd_at m1 100 (uncached ex_at)) [10; 30] /\ dc_same ex_mem m1 [10; 30] /\
    dc_mem m1 !! 20 = Some (ex_dc 10 30 100) /\ types_same ex_mem m1 /\
    max_size d' = 7 /\ list_type d' = ACTIVE_LIST.
Proof.
  apply (remove_entry_refines ex_list ex_mem [10] 20 [30] (ex_dc 10 30 100) ex_at);
    [apply ex_lru|by vm_compute..].
Defined.

Lemma remove_tail_refines_witness :
  exists d' m', remove_tail ex_list ex_mem = Ok (30, d', m') /\ lru d' m' [10; 20] /\
    dc_same ex_mem m' [10; 20] /\ dc_mem m' !! 30 = dc_mem ex_mem !! 30 /\ types_same ex_mem m' /\
    max_size d' = 7 /\ list_type d' = ACTIVE_LIST.
Proof. apply (remove_tail_refines ex_list ex_mem [10; 20] 30). apply ex_lru. Defined.

Lemma move_to_head_refines_witness :
  exists d' m', move_to_head ex_list ex_mem 20 = Ok (d', m') /\ lru d' m' [20; 10; 30] /\
    dc_same ex_mem m' [20; 10; 30] /\ max_size d' = 7 /\ list_type d' = ACTIVE_LIST.
Proof. apply (move_to_head_refines ex_list ex_mem [10] 20 [30]). apply ex_lru. Defined.
End example.
