(* ===== verification/CacheThread.v ===== *)
(** The cache thread ([src/PRISM/src/CacheThread.h], [CacheThread.cpp]).

    One thread owns the DRAM cache: two lists, active and inactive.  Threads
    that have read values from a value storage queue them; the cache thread
    enters them ([cacheOperation]), moves hits to the active list and evicts
    from the tail of the inactive one ([evict_entry]).  Entries read by one
    scan are meant to be chained and written back together when the chain is
    evicted.

    This file holds the operations; CacheInvariant.v their properties. *)

From S2P Require Import Prelude Config TaggedPtr Objects IoUring ValueStorage OpLog LRUList.

Local Open Scope Z_scope.

(** The C library as this component uses it: the draws of the random
    generator [ct_gen], and [malloc] for cache entries ([0]: no memory). *)
Class CacheEnv := {
  ct_rand : nat -> nat;
  dc_malloc : memory -> Z;
}.

(** malloc(3): a result other than null is the address of no live object; it
    is null only when memory runs out, not before [dc_heap] objects. *)
Class CacheEnvOk (E : CacheEnv) := {
  dc_heap : nat;
  malloc_fresh : forall m, dc_malloc m <> 0 ->
    dc_mem m !! dc_malloc m = None /\ op_mem m !! dc_malloc m = None /\ user_addr (dc_malloc m);
  malloc_room : forall m, (size (dc_mem m) + size (op_mem m) < dc_heap)%nat -> dc_malloc m <> 0;
}.

(** [ct_gen] is the number of draws made so far. *)
Record CacheThread := MkCacheThread {
  active_list : LRUList;
  inactive_list : LRUList;
  ct_gen : nat;
}.

Definition set_active (d : LRUList) (c : CacheThread) : CacheThread :=
  MkCacheThread d (inactive_list c) (ct_gen c).
Definition set_inactive (d : LRUList) (c : CacheThread) : CacheThread :=
  MkCacheThread (active_list c) d (ct_gen c).
Definition set_gen (k : nat) (c : CacheThread) : CacheThread :=
  MkCacheThread (active_list c) (inactive_list c) k.

Section cache_thread.
Context `{Config} `{IoUring} `{StdSort} `{CacheEnv}.

Definition create : CacheThread :=
  MkCacheThread (LRUList.create ACTIVE_LIST) (LRUList.create INACTIVE_LIST) 0.

Definition which_list (m : memory) (dc_entry : Z) : res Z :=
  if dc_entry =? 0 then Ok NONE_LIST else e ← load_dc m dc_entry; Ok (dc_list_type e).

(** The [smp_cas] succeeds: no other thread writes [val_addr] in between. *)
Definition link_to_at (m : memory) (dc_entry : Z) : res memory :=
  e ← load_dc m dc_entry;
  let at_entry := dc_at_entry e in
  x ← load_at m at_entry;
  if (vs_id (vs_idx x) <? 0) && (get_tag (val_addr x) =? OPLOG_VAL) then Ok m
  else store_at m at_entry (set_val_addr (put_tagged_ptr dc_entry DCACHE_VAL)).

(** A draw of [uniform_int_distribution(0, n - 1)]. *)
Definition draw (c : CacheThread) (n : nat) : nat * CacheThread :=
  ((ct_rand (ct_gen c) mod n)%nat, set_gen (S (ct_gen c)) c).

(** Draws until a storage is not being written; [n] bounds the draws. *)
Fixpoint wait_idle (n : nat) (c : CacheThread) (vss : list ValueStorage) (vs_id : nat)
  : res (nat * CacheThread) :=
  match n with
  | O => Err NoReturn
  | S n' =>
      vs ← of_option OutOfRange (vss !! vs_id);
      if negb (is_writing vs) then Ok (vs_id, c)
      else let '(k, c') := draw c MTS_VS_NUM in wait_idle n' c' vss k
  end.

Definition pick_valuestorage (fuel : nat) (c : CacheThread) (vss : list ValueStorage)
  : res (nat * CacheThread) :=
  let '(vs_id1, c1) := draw c MTS_VS_NUM in
  let '(vs_id2, c2) := draw c1 MTS_VS_NUM in
  vs1 ← of_option OutOfRange (vss !! vs_id1);
  vs2 ← of_option OutOfRange (vss !! vs_id2);
  wait_idle fuel c2 vss
    (if get_used_chunk_num vs1 <? get_used_chunk_num vs2 then vs_id1 else vs_id2).

(** Everything the cache thread changes. *)
Record cstate := CState { cs_ct : CacheThread; cs_vss : list ValueStorage; cs_mem : memory }.

(** [inactive_list->remove_entry(p); inactive_list->free_entry(p)] *)
Definition drop_inactive (s : cstate) (p : Z) : res cstate :=
  '(d, m1) ← remove_entry (inactive_list (cs_ct s)) (cs_mem s) p;
  m2 ← free_entry m1 p;
  Ok (CState (set_inactive d (cs_ct s)) (cs_vss s) m2).

(** Follows [s_prev] to the first entry of a chain; says whether an entry
    passed on the way is in the active list. *)
Fixpoint chain_first (n : nat) (m : memory) (p : Z) (has_active : bool) : res (Z * bool) :=
  match n with
  | O => Err NoReturn
  | S n' =>
      e ← load_dc m p;
      if dc_s_prev e =? 0 then Ok (p, has_active)
      else
        e' ← load_dc m (dc_s_prev e);
        chain_first n' m (dc_s_prev e) (has_active || (dc_list_type e' =? ACTIVE_LIST))
  end.

(** Evicts a chain from its first entry on; [vs] is the storage and the
    writer the values go to when the chain has an active entry. *)
Fixpoint evict_chain (n : nat) (s : cstate) (p : Z) (vs : option nat) (writer : nat) (i : Z)
  : res (cstate * Z) :=
  match n with
  | O => Err NoReturn
  | S n' =>
      if p =? 0 then Ok (s, i)
      else
        e ← load_dc (cs_mem s) p;
        s1 ← (match vs with
              | None => Ok s
              | Some k =>
                  v ← of_option OutOfRange (cs_vss s !! k);
                  '(v', m') ← put_vs_entry v (cs_mem s) writer (dc_key e) (dc_val e) (dc_at_entry e);
                  Ok (CState (cs_ct s) (<[k := v']> (cs_vss s)) m')
              end);
        s2 ← (if dc_list_type e =? INACTIVE_LIST then drop_inactive s1 p else Ok s1);
        if get_cur_size (inactive_list (cs_ct s2)) =? 0 then Ok (s2, i)
        else evict_chain n' s2 (dc_s_next e) vs writer (i + 1)
  end.

(** The loop of [evict_entry], whose variable [i] both the body and the loop
    header increment. [vs] is the last storage picked ([NULL] before). *)
Fixpoint evict_loop (n : nat) (s : cstate) (i : Z) (written : bool) (vs : option nat) (writer : nat)
  : res cstate :=
  if negb (i <? Z.of_nat MTS_RECLAIM_PAGES_NUM) then Ok s
  else
    match n with
    | O => Err NoReturn
    | S n' =>
        let removed_entry := get_tail (inactive_list (cs_ct s)) in
        e ← load_dc (cs_mem s) removed_entry;
        x ← load_at (cs_mem s) (dc_at_entry e);
        if negb (removed_entry =? get_untagged_ptr (val_addr x)) then
          s' ← drop_inactive s removed_entry;
          evict_loop n' s' (i + 2) written vs writer
        else if dc_s_prev e =? 0 then
          s' ← drop_inactive s removed_entry;
          evict_loop n' s' (i + 2) written vs writer
        else
          '(p, has_active) ← chain_first (S (size (dc_mem (cs_mem s)))) (cs_mem s) removed_entry false;
          '(vs1, c1) ← (if (has_active : bool)
                        then '(k, c) ← pick_valuestorage (S MTS_VS_NUM) (cs_ct s) (cs_vss s); Ok (Some k, c)
                        else Ok (vs, cs_ct s));
          let written1 := written || has_active in
          '(s2, i2) ← evict_chain (S (size (dc_mem (cs_mem s)))) (CState c1 (cs_vss s) (cs_mem s)) p
                        (if has_active then vs1 else None) writer i;
          if get_cur_size (inactive_list (cs_ct s2)) =? 0 then Ok s2
          else
            s3 ← (match vs1 with
                  | Some k =>
                      if written1 then
                        v ← of_option OutOfRange (cs_vss s2 !! k);
                        '(v', m') ← forced_write_chunk v (cs_mem s2) writer;
                        Ok (CState (cs_ct s2) (<[k := v']> (cs_vss s2)) m')
                      else Ok s2
                  | None => Ok s2
                  end);
            evict_loop n' s3 (i2 + 1) written1 vs1 writer
    end.

Definition evict_entry (s : cstate) : res cstate :=
  let '(writer, c) := draw (cs_ct s) MTS_THREAD_NUM in
  evict_loop MTS_RECLAIM_PAGES_NUM (CState c (cs_vss s) (cs_mem s)) 0 false None writer.

(** The pointer is used with its tag. *)
Definition freeOperation (s : cstate) (at_entry : Z) : res cstate :=
  x ← load_at (cs_mem s) at_entry;
  let dc_entry := val_addr x in
  if dc_entry =? 0 then Ok s
  else
    m1 ← store_at (cs_mem s) at_entry (set_val_addr 0);
    e ← load_dc m1 dc_entry;
    if dc_list_type e =? ACTIVE_LIST then
      '(d, m2) ← remove_entry (active_list (cs_ct s)) m1 dc_entry;
      m3 ← free_entry m2 dc_entry;
      Ok (CState (set_active d (cs_ct s)) (cs_vss s) m3)
    else
      '(d, m2) ← remove_entry (inactive_list (cs_ct s)) m1 dc_entry;
      m3 ← free_entry m2 dc_entry;
      Ok (CState (set_inactive d (cs_ct s)) (cs_vss s) m3).

(** Chains [dc_entry] before the entry of the scan that precedes it. *)
Definition chain_scanned (m : memory) (scan_ops : bool) (s_dc_entry dc_entry : Z) : res (Z * memory) :=
  if negb scan_ops then Ok (s_dc_entry, m)
  else if s_dc_entry =? 0 then Ok (dc_entry, m)
  else
    se ← load_dc m s_dc_entry;
    m1 ← (if negb (dc_s_prev se =? 0) then store_dc m s_dc_entry (set_s_prev dc_entry) else Ok m);
    e ← load_dc m1 dc_entry;
    m2 ← (if negb (dc_s_next e =? 0) then store_dc m1 dc_entry (set_s_next s_dc_entry) else Ok m1);
    Ok (dc_entry, m2).

(** Hit on the inactive list. *)
Definition hit_inactive (s : cstate) (scan_ops : bool) (s_dc_entry dc_entry : Z) : res (Z * cstate) :=
  '(di, m1) ← remove_entry (inactive_list (cs_ct s)) (cs_mem s) dc_entry;
  '(da, m2) ← insert_head (active_list (cs_ct s)) m1 dc_entry;
  '(sd, m3) ← chain_scanned m2 scan_ops s_dc_entry dc_entry;
  m4 ← link_to_at m3 dc_entry;
  let c := set_inactive di (set_active da (cs_ct s)) in
  if get_max_size da <? get_cur_size da then
    '(moved_entry, da', m5) ← remove_tail da m4;
    '(di', m6) ← insert_head di m5 moved_entry;
    let s' := CState (set_inactive di' (set_active da' c)) (cs_vss s) m6 in
    if get_max_size di' <? get_cur_size di' then s'' ← evict_entry s'; Ok (sd, s'')
    else Ok (sd, s')
  else Ok (sd, CState c (cs_vss s) m4).

(** Hit on the active list. *)
Definition hit_active (s : cstate) (scan_ops : bool) (s_dc_entry dc_entry : Z) : res (Z * cstate) :=
  '(da, m1) ← move_to_head (active_list (cs_ct s)) (cs_mem s) dc_entry;
  '(sd, m2) ← chain_scanned m1 scan_ops s_dc_entry dc_entry;
  m3 ← link_to_at m2 dc_entry;
  Ok (sd, CState (set_active da (cs_ct s)) (cs_vss s) m3).

(** First access. *)
Definition first_access (s : cstate) (scan_ops : bool) (s_dc_entry : Z) (cq : cq_entry_t)
  : res (Z * cstate) :=
  let dc_entry := dc_malloc (cs_mem s) in
  m1 ← alloc_entry (inactive_list (cs_ct s)) (cs_mem s) dc_entry cq;
  '(di, m2) ← insert_head (inactive_list (cs_ct s)) m1 dc_entry;
  '(sd, m3) ← chain_scanned m2 scan_ops s_dc_entry dc_entry;
  m4 ← link_to_at m3 dc_entry;
  let s' := CState (set_inactive di (cs_ct s)) (cs_vss s) m4 in
  if get_max_size di <? get_cur_size di then s'' ← evict_entry s'; Ok (sd, s'')
  else Ok (sd, s').

(** One request. *)
Definition cache_one (s : cstate) (scan_ops : bool) (s_dc_entry : Z) (cq : cq_entry_t)
  : res (Z * cstate) :=
  let at_entry := cq_at_entry cq in
  if at_entry =? 0 then Ok (s_dc_entry, s)
  else
    x ← load_at (cs_mem s) at_entry;
    if (vs_id (vs_idx x) <? 0) && (get_tag (val_addr x) =? OPLOG_VAL) then Ok (s_dc_entry, s)
    else if get_tag (val_addr x) =? DCACHE_VAL then
      let dc_entry := get_untagged_ptr (val_addr x) in
      cur_list_type ← which_list (cs_mem s) dc_entry;
      if cur_list_type =? INACTIVE_LIST then hit_inactive s scan_ops s_dc_entry dc_entry
      else if cur_list_type =? ACTIVE_LIST then hit_active s scan_ops s_dc_entry dc_entry
      else Ok (s_dc_entry, s)
    else first_access s scan_ops s_dc_entry cq.

Fixpoint cache_all (s : cstate) (scan_ops : bool) (s_dc_entry : Z) (vec : list cq_entry_t)
  : res cstate :=
  match vec with
  | [] => Ok s
  | cq :: vec' => '(sd, s') ← cache_one s scan_ops s_dc_entry cq; cache_all s' scan_ops sd vec'
  end.

(** [front()] of an empty vector is undefined. *)
Definition cacheOperation (s : cstate) (vec : list cq_entry_t) : res cstate :=
  match vec with
  | [] => Err OutOfRange
  | cq :: _ => cache_all s (bool_decide (cq_ops cq = CT_SCAN)) 0 vec
  end.

(** The destructor frees both lists. *)
Definition destroy (s : cstate) : res cstate :=
  let c := cs_ct s in
  '(da, m1) ← LRUList.destroy (Z.to_nat (cur_size (active_list c))) (active_list c) (cs_mem s)
                (iter_dcache (active_list c));
  '(di, m2) ← LRUList.destroy (Z.to_nat (cur_size (inactive_list c))) (inactive_list c) m1
                (iter_dcache (inactive_list c));
  Ok (CState (set_inactive di (set_active da c)) (cs_vss s) m2).
End cache_thread.
