(* ===== verification/CacheInvariant.v ===== *)
(** Correctness of the cache thread.

    [cache_inv cur s la li]: the active list represents [la], the inactive
    list [li], the live cache entries are exactly those, and every
    address-table entry tagged [DCACHE_VAL] leads to one of them, which leads
    back and holds the entry's current value [cur].  So a cached address never
    dangles and never shows another value. *)

From S2P Require Import Prelude Config TaggedPtr Objects IoUring ValueStorage LRUList CacheThread.

Local Open Scope Z_scope.

(** Words of the address table are tagged user-space addresses. *)
Definition word_ok (x : at_entry_t) : Prop :=
  exists p t, user_addr p /\ 0 <= t < 128 /\ val_addr x = p + t * 2 ^ 56.

(** A cache entry's address: not that of a write-buffer entry. *)
Definition dc_place (m : memory) (p : Z) : Prop := user_addr p /\ op_mem m !! p = None.

(** What the cache entries in [l] and the address table say of each other. *)
Record cached (cur : Z -> option Z) (m : memory) (l : list Z) : Prop := {
  ca_entry : forall p, p ∈ l -> exists e x, dc_mem m !! p = Some e /\ dc_s_prev e = 0 /\ dc_s_next e = 0 /\
    dc_at_entry e <> 0 /\ at_mem m !! dc_at_entry e = Some x /\ dc_place m p;
  ca_link : forall a x, at_mem m !! a = Some x -> get_tag (val_addr x) = DCACHE_VAL ->
    exists e, get_untagged_ptr (val_addr x) ∈ l /\ dc_mem m !! get_untagged_ptr (val_addr x) = Some e /\
      dc_at_entry e = a /\ cur a = Some (dc_val e);
  ca_word : forall a x, at_mem m !! a = Some x -> word_ok x;
}.

(** What the cache may change in the address table: tags of values that are
    in a storage, and where they point: to no write-buffer entry. *)
Record at_kept (m m' : memory) : Prop := {
  ak_op : op_mem m' = op_mem m;
  ak_idx : forall a, vs_idx <$> at_mem m' !! a = vs_idx <$> at_mem m !! a;
  ak_log : forall a x, at_mem m !! a = Some x -> vs_id (vs_idx x) < 0 ->
    get_tag (val_addr x) = OPLOG_VAL -> at_mem m' !! a = Some x;
  ak_word : forall a x x', at_mem m !! a = Some x -> at_mem m' !! a = Some x' ->
    val_addr x' = val_addr x \/ op_mem m !! get_untagged_ptr (val_addr x') = None;
}.

Lemma at_kept_refl m : at_kept m m.
Proof. split; try done. intros a x x' Hx Hx'. left. congruence. Qed.

Lemma at_kept_trans m m1 m2 : at_kept m m1 -> at_kept m1 m2 -> at_kept m m2.
Proof.
  intros [A1 B1 C1 D1] [A2 B2 C2 D2]. split; [congruence| |by eauto|].
  - intros a. by rewrite B2, B1.
  - intros a x x2 Hx Hx2. pose proof (B1 a) as Hi. rewrite Hx in Hi.
    destruct (at_mem m1 !! a) as [x1|] eqn:Hx1; [|done].
    rewrite A1 in D2. destruct (D2 a x1 x2 Hx1 Hx2) as [->|?]; [|by right]. by eapply D1.
Qed.

Lemma at_kept_same m m' : at_mem m' = at_mem m -> op_mem m' = op_mem m -> at_kept m m'.
Proof.
  intros E1 E2. split; [done| | |]; intros; rewrite ?E1; try done.
  left. rewrite E1 in *. congruence.
Qed.

Lemma at_kept_upd m a x y : at_mem m !! a = Some x -> vs_idx y = vs_idx x ->
  (vs_id (vs_idx x) < 0 -> get_tag (val_addr x) = OPLOG_VAL -> y = x) ->
  (val_addr y = val_addr x \/ op_mem m !! get_untagged_ptr (val_addr y) = None) -> at_kept m (upd_at m a y).
Proof.
  intros Hx Hi Hn Hw. split; [done| | |].
  - intros b. cbn. destruct (decide (a = b)) as [<-|]; [|by rewrite lookup_insert_ne].
    rewrite lookup_insert_eq, Hx. cbn. by rewrite Hi.
  - intros b z Hz Hv Ht. cbn. destruct (decide (a = b)) as [<-|]; [|by rewrite lookup_insert_ne].
    assert (z = x) as -> by congruence. by rewrite lookup_insert_eq, Hn.
  - intros b z z' Hz Hz'. cbn in Hz'. apply lookup_insert_Some in Hz' as [[<- <-]|[_ Hz']]; [|left; congruence].
    by assert (z = x) as -> by congruence.
Qed.

Section cached.
Context (cur : Z -> option Z).

Lemma cached_perm m l l' : l ≡ₚ l' -> cached cur m l -> cached cur m l'.
Proof.
  intros Hp [A B C]. split; [| |done].
  - intros p Hin. apply A. by rewrite Hp.
  - intros a x Hx Ht. destruct (B a x Hx Ht) as (e & Hin & R). exists e. by rewrite <- Hp.
Qed.

Lemma cached_same m m' l l0 : dc_same m m' l0 -> cached cur m l -> cached cur m' l.
Proof.
  intros [Eat Eop _ Hin] [A B C]. split; rewrite Eat; [| |done].
  - intros p Hp. destruct (A p Hp) as (e & x & He & S1 & S2 & Hz & Hx & Hu).
    destruct (Hin p e He) as (e' & He' & Ea & _ & _ & Es1 & Es2).
    exists e', x. rewrite Ea, Es1, Es2. unfold dc_place. by rewrite Eop.
  - intros a x Hx Ht. destruct (B a x Hx Ht) as (e & Hp & He & Ha & Hc).
    destruct (Hin _ e He) as (e' & He' & Ea & _ & Ev & _). exists e'. by rewrite Ea, Ev.
Qed.

Lemma uncached_idx x : vs_idx (uncached x) = vs_idx x.
Proof. unfold uncached. by destruct (_ =? _). Qed.

Lemma uncached_word x : word_ok x ->
  word_ok (uncached x) /\ get_tag (val_addr (uncached x)) <> DCACHE_VAL.
Proof.
  intros (p & t & Hp & Ht & E). unfold uncached. destruct (Z.eqb_spec (get_tag (val_addr x)) DCACHE_VAL) as [Hd|Hd].
  - cbn. rewrite E, put_tagged_shape by (done || lia). split.
    + exists p, VALUESTORAGE_VAL. done.
    + by rewrite get_tag_shape by (done || lia).
  - split; [|done]. by exists p, t.
Qed.

(** Taking the address-table entry of [p] out of the cache. *)
Lemma cached_uncached m l p e x : cached cur m l -> p ∈ l -> dc_mem m !! p = Some e ->
  at_mem m !! dc_at_entry e = Some x ->
  let m' := upd_at m (dc_at_entry e) (uncached x) in
  cached cur m' l /\ at_kept m m' /\
  forall a y, at_mem m' !! a = Some y -> get_tag (val_addr y) = DCACHE_VAL -> get_untagged_ptr (val_addr y) <> p.
Proof.
  intros [A B C] Hp He Hx m'. destruct (uncached_word x (C _ _ Hx)) as [Hw Hnt].
  assert (forall a y, at_mem m' !! a = Some y ->
    a = dc_at_entry e /\ y = uncached x \/ a <> dc_at_entry e /\ at_mem m !! a = Some y) as Hcase.
  { intros a y Hy. cbn in Hy. apply lookup_insert_Some in Hy as [[<- <-]|[Hn Hy]]; [by left|by right]. }
  split; [split|split].
  - intros q Hq. destruct (A q Hq) as (eq & xq & Heq & S1 & S2 & Hz & Hxq & Hu). cbn.
    destruct (decide (dc_at_entry e = dc_at_entry eq)) as [E|Hne].
    + exists eq, (uncached x). rewrite <- E, lookup_insert_eq. by rewrite E.
    + exists eq, xq. by rewrite lookup_insert_ne.
  - intros a y Hy Ht. apply Hcase in Hy as [[-> ->]|[_ Hy]]; [done|]. by apply B.
  - intros a y Hy. apply Hcase in Hy as [[-> ->]|[_ Hy]]; [done|]. by apply (C a).
  - apply (at_kept_upd _ _ x); [done|apply uncached_idx| |].
    { intros _ Ht. unfold uncached. by rewrite Ht. }
    unfold uncached. destruct (Z.eqb_spec (get_tag (val_addr x)) DCACHE_VAL) as [Ht|]; [right|by left].
    destruct (B _ x Hx Ht) as (e1 & Hin & _). destruct (A _ Hin) as (_ & _ & _ & _ & _ & _ & _ & _ & Hop).
    destruct (C _ x Hx) as (q & t & Hq & Htt & E). cbn. rewrite E in Hop |- *.
    rewrite get_untagged_shape in Hop by done. by rewrite put_tagged_shape, get_untagged_shape.
  - intros a y Hy Ht E. apply Hcase in Hy as [[-> ->]|[Hn Hy]]; [done|].
    destruct (B a y Hy Ht) as (e' & _ & He' & Ha & _). rewrite E in He'. congruence.
Qed.

(** Dropping an entry no tag leads to. *)
Lemma cached_free m l p : p ∉ l -> cached cur m (p :: l) ->
  (forall a y, at_mem m !! a = Some y -> get_tag (val_addr y) = DCACHE_VAL -> get_untagged_ptr (val_addr y) <> p) ->
  cached cur (free_dc m p) l.
Proof.
  intros Hni [A B C] Hno. split; [| |done].
  - intros q Hq. destruct (A q) as (e & x & He & R); [by right|]. exists e, x. cbn.
    rewrite lookup_delete_ne; [done|]. by intros ->.
  - intros a x Hx Ht. destruct (B a x Hx Ht) as (e & Hin & He & R). specialize (Hno a x Hx Ht).
    exists e. cbn. rewrite lookup_delete_ne by done.
    apply elem_of_cons in Hin as [Hin|Hin]; [by destruct Hno|]. done.
Qed.

(** Entering a new entry, not yet linked. *)
Lemma cached_alloc m l p e x : cached cur m l -> dc_mem m !! p = None -> dc_place m p ->
  dc_s_prev e = 0 -> dc_s_next e = 0 -> dc_at_entry e <> 0 -> at_mem m !! dc_at_entry e = Some x ->
  cached cur (upd_dc m p e) (p :: l).
Proof.
  intros [A B C] Hf Hu S1 S2 Ha Hx.
  assert (forall q e', dc_mem m !! q = Some e' -> dc_mem (upd_dc m p e) !! q = Some e') as Hold.
  { intros q e' Hq. cbn. rewrite lookup_insert_ne; [done|]. intros <-. by rewrite Hf in Hq. }
  split; [| |done].
  - intros q [->|Hq]%elem_of_cons.
    + exists e, x. cbn. by rewrite lookup_insert_eq.
    + destruct (A q Hq) as (e' & x' & He' & R). exists e', x'. split; [by apply Hold|done].
  - intros a y Hy Ht. destruct (B a y Hy Ht) as (e' & Hin & He' & R). exists e'. split; [by right|].
    split; [by apply Hold|done].
Qed.

(** Linking an entry whose value is current. *)
Lemma cached_link m l p e : cached cur m l -> p ∈ l -> dc_mem m !! p = Some e ->
  cur (dc_at_entry e) = Some (dc_val e) -> p <> 0 ->
  exists m', link_to_at m p = Ok m' /\ cached cur m' l /\ at_kept m m' /\ dc_mem m' = dc_mem m.
Proof.
  intros [A B C] Hp He Hc Hz. destruct (A p Hp) as (e' & x & He' & S1 & S2 & Ha & Hx & Hu).
  assert (e' = e) as -> by congruence. unfold link_to_at.
  rewrite (load_dc_some _ _ _ Hz He). cbn [mbind res_bind]. rewrite (load_at_some _ _ _ Ha Hx). cbn [mbind res_bind].
  destruct (_ && _) eqn:Hskip.
  { exists m. split; [done|]. split; [done|]. split; [apply at_kept_refl|done]. }
  rewrite (store_at_some _ _ _ _ Ha Hx). rewrite put_tagged_plain by (apply Hu || (unfold DCACHE_VAL; lia)).
  set (y := set_val_addr (p + DCACHE_VAL * 2 ^ 56) x).
  assert (get_tag (val_addr y) = DCACHE_VAL /\ get_untagged_ptr (val_addr y) = p) as [Ht Hup].
  { cbn. by rewrite get_tag_shape, get_untagged_shape by (apply Hu || (unfold DCACHE_VAL; lia)). }
  eexists. split; [done|]. split; [|split; [|done]].
  - split.
    + intros q Hq. destruct (A q Hq) as (eq & xq & Heq & S1' & S2' & Hz' & Hxq & Hu').
      exists eq. cbn. destruct (decide (dc_at_entry e = dc_at_entry eq)) as [E|Hne].
      * exists y. rewrite E, lookup_insert_eq. by rewrite <- E.
      * exists xq. by rewrite lookup_insert_ne.
    + intros a z Hz1 Htz. cbn in Hz1. apply lookup_insert_Some in Hz1 as [[<- <-]|[Hn Hz1]]; [|by apply B].
      rewrite Hup. by exists e.
    + intros a z Hz1. cbn in Hz1. apply lookup_insert_Some in Hz1 as [[<- <-]|[Hn Hz1]]; [|by apply (C a)].
      exists p, DCACHE_VAL. split; [apply Hu|done].
  - apply (at_kept_upd _ _ x); [done|done| |right; rewrite Hup; apply Hu]. intros Hv Hto. exfalso.
    rewrite Hto in Hskip. apply andb_false_iff in Hskip as [Hs|Hs]; [|done]. apply Z.ltb_ge in Hs. lia.
Qed.
End cached.

Section cache.
Context `{Config} `{IoUring} `{StdSort} `{E : CacheEnv} `{!CacheEnvOk E}.
Context (cur : Z -> option Z).

(** * Invariant *)

Record cache_inv (s : cstate) (la li : list Z) : Prop := {
  ci_active : lru (active_list (cs_ct s)) (cs_mem s) la;
  ci_inactive : lru (inactive_list (cs_ct s)) (cs_mem s) li;
  ci_active_type : list_type (active_list (cs_ct s)) = ACTIVE_LIST;
  ci_inactive_type : list_type (inactive_list (cs_ct s)) = INACTIVE_LIST;
  ci_nodup : NoDup (la ++ li);
  ci_heap : forall p, is_Some (dc_mem (cs_mem s) !! p) <-> p ∈ la ++ li;
  ci_cached : cached cur (cs_mem s) (la ++ li);
}.

(** What no operation of the cache changes. *)
Record cs_same (s s' : cstate) : Prop := {
  ss_vss : cs_vss s' = cs_vss s;
  ss_at : at_kept (cs_mem s) (cs_mem s');
  ss_max_a : max_size (active_list (cs_ct s')) = max_size (active_list (cs_ct s));
  ss_max_i : max_size (inactive_list (cs_ct s')) = max_size (inactive_list (cs_ct s));
}.

Lemma cs_same_refl s : cs_same s s.
Proof. split; try done. apply at_kept_refl. Qed.

Lemma cs_same_trans s s1 s2 : cs_same s s1 -> cs_same s1 s2 -> cs_same s s2.
Proof. intros [] []. split; try congruence. by eapply at_kept_trans. Qed.

(** A fresh cache. *)
Lemma create_inv vss m : dc_mem m = ∅ ->
  (forall a x, at_mem m !! a = Some x -> word_ok x /\ get_tag (val_addr x) <> DCACHE_VAL) ->
  cache_inv (CState create vss m) [] [].
Proof.
  intros Hd Hat. split; cbn; try done; try (by split; cbn; try done; constructor).
  - constructor.
  - intros p. rewrite Hd, lookup_empty. split; [by intros [? ?]|by intros ?%elem_of_nil].
  - split; [by intros p ?%elem_of_nil| |].
    + intros a x Hx Ht. by destruct (Hat a x Hx).
    + intros a x Hx. by apply (Hat a).
Qed.

Lemma nodup_mid (la l1 l2 : list Z) p : NoDup (la ++ l1 ++ p :: l2) ->
  p ∉ la ++ l1 ++ l2 /\ NoDup (la ++ l1 ++ l2).
Proof.
  intros Hn. assert (la ++ l1 ++ p :: l2 ≡ₚ p :: la ++ l1 ++ l2) as Hp by solve_Permutation.
  rewrite Hp in Hn. by apply NoDup_cons in Hn.
Qed.

(** * Eviction *)

(** Removing and freeing an entry of the list [d]; [o] is the other list. *)
Lemma drop_lists d o m l1 p l2 lo :
  lru d m (l1 ++ p :: l2) -> lru o m lo -> NoDup (lo ++ l1 ++ p :: l2) ->
  (forall q, is_Some (dc_mem m !! q) <-> q ∈ lo ++ l1 ++ p :: l2) -> cached cur m (lo ++ l1 ++ p :: l2) ->
  exists d' m1 m2, remove_entry d m p = Ok (d', m1) /\ free_entry m1 p = Ok m2 /\
    lru d' m2 (l1 ++ l2) /\ lru o m2 lo /\ (forall q, is_Some (dc_mem m2 !! q) <-> q ∈ lo ++ l1 ++ l2) /\
    cached cur m2 (lo ++ l1 ++ l2) /\ at_kept m m2 /\ max_size d' = max_size d /\ list_type d' = list_type d.
Proof.
  intros Ld Lo Hnd Hheap Hc. destruct (nodup_mid lo l1 l2 p Hnd) as [Hni Hnd'].
  assert (p ∈ lo ++ l1 ++ p :: l2) as Hpin by (rewrite !elem_of_app, elem_of_cons; tauto).
  destruct (ca_entry _ _ _ Hc p Hpin) as (e & x & He & S1 & S2 & Ha & Hx & Hu).
  destruct (remove_entry_spec _ _ l1 p l2 e x Ld He Ha Hx) as (d' & m1 & Hr & Hl & Hsame & Hp & Hty & Hmax & Hlt).
  set (m2 := upd_at m1 _ _) in *.
  assert (cached cur m1 (lo ++ l1 ++ p :: l2)) as Hc1 by (by eapply cached_same).
  assert (at_mem m1 !! dc_at_entry e = Some x) as Hx1 by (by rewrite (ds_at _ _ _ Hsame)).
  destruct (cached_uncached cur m1 _ p e x Hc1 Hpin Hp Hx1) as (Hc2 & Hk & Hno). fold m2 in Hc2, Hk, Hno.
  destruct (seg_node _ l1 p l2 (lru_seg _ _ _ Ld)) as (_ & _ & _ & _ & Hz & _).
  assert (free_entry m2 p = Ok (free_dc m2 p)) as Hfree.
  { unfold free_entry. rewrite (load_dc_some m2 _ _ Hz Hp). cbn [mbind res_bind]. rewrite S1. cbn.
    rewrite (load_dc_some m2 _ _ Hz Hp). cbn [mbind res_bind]. by rewrite S2. }
  exists d', m2, (free_dc m2 p). split; [done|]. split; [done|].
  assert (forall q, q ∈ lo ++ l1 ++ l2 -> dc_mem (free_dc m2 p) !! q = dc_mem m1 !! q) as Hfr.
  { intros q Hq. cbn. rewrite lookup_delete_ne; [done|]. by intros ->. }
  split; [|split; [|split; [|split; [|split; [|done]]]]].
  - destruct Hl as [? ? ? ? ? Hty0 ?]. split; try done.
    + eapply seg_frame; [|done]. intros q Hq. rewrite Hfr by (rewrite elem_of_app; tauto). done.
    + rewrite Forall_forall in *. intros q Hq. rewrite Hfr by (rewrite elem_of_app; tauto). by apply Hty0.
  - destruct Lo as [? ? ? ? ? Hty0 ?]. split; try done.
    + eapply seg_frame; [|done]. intros q Hq. rewrite Hfr by (rewrite elem_of_app; tauto).
      apply (ds_out _ _ _ Hsame). apply NoDup_app in Hnd' as (_ & Hd & _). by apply Hd.
    + rewrite Forall_forall in *. intros q Hq. rewrite Hfr by (rewrite elem_of_app; tauto).
      rewrite Hty. by apply Hty0.
  - intros q. cbn. destruct (decide (p = q)) as [<-|Hne].
    + rewrite lookup_delete_eq. split; [by intros [? ?]|done].
    + rewrite lookup_delete_ne by done.
      assert (is_Some (dc_mem m1 !! q) <-> is_Some (dc_mem m !! q)) as ->.
      { specialize (Hty q). destruct (dc_mem m1 !! q), (dc_mem m !! q); cbn in Hty;
          (split; intros [? ?]; (done || eauto)). }
      rewrite Hheap, !elem_of_app, elem_of_cons. naive_solver.
  - apply cached_free; [done| |done]. eapply cached_perm; [|exact Hc2]. solve_Permutation.
  - eapply at_kept_trans; [|eapply at_kept_trans; [exact Hk|by apply at_kept_same]].
    apply at_kept_same; [apply (ds_at _ _ _ Hsame)|apply (ds_op _ _ _ Hsame)].
Qed.

Lemma drop_inactive_spec s la l1 p l2 : cache_inv s la (l1 ++ p :: l2) ->
  exists s', drop_inactive s p = Ok s' /\ cache_inv s' la (l1 ++ l2) /\ cs_same s s'.
Proof.
  intros [La Li Ta Ti Hnd Hheap Hc].
  destruct (drop_lists _ _ _ l1 p l2 la Li La Hnd Hheap Hc)
    as (d & m1 & m2 & R1 & R2 & Li' & La' & Hheap' & Hc' & Hk & Hmax & Hlt).
  unfold drop_inactive. rewrite R1. cbn [mbind res_bind]. rewrite R2. cbn [mbind res_bind].
  eexists. split; [done|]. split; [|by split]. split; cbn; try done; [by rewrite Hlt|].
  by apply (nodup_mid la l1 l2 p).
Qed.

(** One turn of the loop removes the last entry of the inactive list, on
    either branch, and advances its variable by two. *)
Lemma evict_loop_step s la l p n i writer : cache_inv s la (l ++ [p]) -> i < Z.of_nat MTS_RECLAIM_PAGES_NUM ->
  exists s', evict_loop (S n) s i false None writer = evict_loop n s' (i + 2) false None writer /\
    cache_inv s' la l /\ cs_same s s'.
Proof.
  intros Hinv Hi. destruct (drop_inactive_spec s la l p []) as (s1 & Hd & Hinv1 & Hss); [done|].
  rewrite app_nil_r in Hinv1. exists s1. split; [|done].
  cbn [evict_loop]. rewrite (proj2 (Z.ltb_lt i _)) by lia. cbn [negb].
  pose proof (lru_tail _ _ _ (ci_inactive _ _ _ Hinv)) as Ht. rewrite final_app in Ht.
  unfold get_tail. rewrite Ht.
  destruct (ca_entry _ _ _ (ci_cached _ _ _ Hinv) p) as (e & x & He & S1 & S2 & Ha & Hx & Hu).
  { rewrite !elem_of_app, list_elem_of_singleton. tauto. }
  destruct (seg_node _ _ p [] (lru_seg _ _ _ (ci_inactive _ _ _ Hinv))) as (_ & _ & _ & _ & Hz & _).
  rewrite (load_dc_some _ _ _ Hz He). cbn [mbind res_bind]. rewrite (load_at_some _ _ _ Ha Hx). cbn [mbind res_bind].
  rewrite S1, Hd. cbn [mbind res_bind Z.eqb]. by destruct (negb _).
Qed.

Lemma evict_loop_spec la l n r : forall s i writer,
  cache_inv s la (l ++ r) -> (length r <= n)%nat ->
  Z.of_nat MTS_RECLAIM_PAGES_NUM - i <= 2 * Z.of_nat (length r) <= Z.of_nat MTS_RECLAIM_PAGES_NUM - i + 1 ->
  exists s', evict_loop n s i false None writer = Ok s' /\ cache_inv s' la l /\ cs_same s s'.
Proof.
  revert n. induction r as [|p r IH] using rev_ind; intros n s i writer Hinv Hn Hi.
  - cbn in Hi. rewrite app_nil_r in Hinv. exists s. split; [|split; [done|apply cs_same_refl]].
    destruct n; cbn [evict_loop]; by rewrite (proj2 (Z.ltb_ge i _)) by lia.
  - rewrite length_app in Hi, Hn. cbn [length] in Hi, Hn. destruct n as [|n]; [lia|].
    rewrite app_assoc in Hinv.
    destruct (evict_loop_step s la (l ++ r) p n i writer) as (s1 & -> & Hinv1 & Hss); [done|lia|].
    destruct (IH n s1 (i + 2) writer) as (s2 & Hl & Hinv2 & Hss2); [done|lia|lia|].
    exists s2. split; [done|]. split; [done|]. by eapply cs_same_trans.
Qed.

(** On too short a list the loop reaches the null tail. *)
Lemma evict_loop_short la n r : forall s i writer,
  cache_inv s la r -> (length r < n)%nat -> 2 * Z.of_nat (length r) < Z.of_nat MTS_RECLAIM_PAGES_NUM - i ->
  evict_loop n s i false None writer = Err NullDeref.
Proof.
  revert n. induction r as [|p r IH] using rev_ind; intros n s i writer Hinv Hn Hi; (destruct n as [|n]; [lia|]).
  - cbn [evict_loop]. cbn in Hi. rewrite (proj2 (Z.ltb_lt i _)) by lia. cbn [negb].
    unfold get_tail. by rewrite (lru_tail _ _ _ (ci_inactive _ _ _ Hinv)).
  - rewrite length_app in Hi, Hn. cbn [length] in Hi, Hn.
    destruct (evict_loop_step s la r p n i writer) as (s1 & -> & Hinv1 & Hss); [done|lia|].
    apply IH; [done|lia|lia].
Qed.

(** How many entries one eviction removes. *)
Definition evict_count : nat := Z.to_nat ((Z.of_nat MTS_RECLAIM_PAGES_NUM + 1) / 2).

Lemma evict_entry_spec s la l r : cache_inv s la (l ++ r) -> length r = evict_count ->
  exists s', evict_entry s = Ok s' /\ cache_inv s' la l /\ cs_same s s'.
Proof.
  intros Hinv Hr. unfold evict_entry, draw. cbn -[Nat.modulo]. unfold evict_count in Hr.
  set (s0 := CState (set_gen (S (ct_gen (cs_ct s))) (cs_ct s)) (cs_vss s) (cs_mem s)).
  assert (cache_inv s0 la (l ++ r)) as Hinv0 by (by destruct Hinv).
  pose proof (Z.div_mod (Z.of_nat MTS_RECLAIM_PAGES_NUM + 1) 2 ltac:(lia)) as Hdiv.
  pose proof (Z.mod_pos_bound (Z.of_nat MTS_RECLAIM_PAGES_NUM + 1) 2 ltac:(lia)) as Hmod.
  destruct (evict_loop_spec la l MTS_RECLAIM_PAGES_NUM r s0 0
    (ct_rand (ct_gen (cs_ct s)) mod MTS_THREAD_NUM)) as (s' & Hl & Hinv' & Hss); [done|lia|lia|].
  exists s'. split; [done|]. split; [done|]. destruct Hss. by split.
Qed.

(** * Requests *)

(** Sizes for which the cache works: room for an active entry besides the one
    just hit, an eviction that leaves the entry just entered, and memory for
    both lists. *)
Record cache_sized (s : cstate) : Prop := {
  cz_active : 1 <= max_size (active_list (cs_ct s)) < 2 ^ 31 - 3;
  cz_inactive : max_size (inactive_list (cs_ct s)) < 2 ^ 31 - 3;
  cz_evict : 1 <= Z.of_nat evict_count <= max_size (inactive_list (cs_ct s));
  cz_heap : max_size (active_list (cs_ct s)) + max_size (inactive_list (cs_ct s)) +
    Z.of_nat (size (op_mem (cs_mem s))) < Z.of_nat dc_heap;
}.

Lemma cache_sized_same s s' : cs_same s s' -> cache_sized s -> cache_sized s'.
Proof. intros [_ [Eo _ _ _] Ea Ei] []. split; rewrite ?Ea, ?Ei, ?Eo; done. Qed.

Definition fits (s : cstate) (la li : list Z) : Prop :=
  Z.of_nat (length la) <= max_size (active_list (cs_ct s)) /\
  Z.of_nat (length li) <= max_size (inactive_list (cs_ct s)).

(** The entry of the scan last entered is live. *)
Definition scan_ok (ops : bool) (sd : Z) (l : list Z) : Prop := sd = 0 \/ ops = true /\ sd ∈ l.

(** What serving one request leaves. *)
Definition served (s : cstate) (ops : bool) (r : res (Z * cstate)) : Prop :=
  exists sd s' la li, r = Ok (sd, s') /\ cache_inv s' la li /\ fits s' la li /\ cs_same s s' /\
    scan_ok ops sd (la ++ li).

Lemma chain_scanned_spec m l ops sd p : cached cur m l -> p ∈ l -> p <> 0 -> scan_ok ops sd l ->
  chain_scanned m ops sd p = Ok (if ops then p else sd, m).
Proof.
  intros Hc Hp Hz Hsd. unfold chain_scanned. destruct ops; [|done]. cbn [negb].
  destruct (Z.eqb_spec sd 0) as [->|Hn]; [done|]. destruct Hsd as [->|[_ Hsd]]; [done|].
  destruct (ca_entry _ _ _ Hc sd Hsd) as (e & x & He & S1 & _).
  destruct (ca_entry _ _ _ Hc p Hp) as (e' & x' & He' & _ & S2' & _).
  rewrite (load_dc_some _ _ _ Hn He). cbn [mbind res_bind]. rewrite S1. cbn.
  rewrite (load_dc_some _ _ _ Hz He'). cbn [mbind res_bind]. by rewrite S2'.
Qed.

Lemma lru_dc_mem d m m' l : dc_mem m' = dc_mem m -> lru d m l -> lru d m' l.
Proof.
  intros Ed [? ? ? ? ? ? ?]. split; try done; [|by rewrite Ed].
  eapply seg_frame; [|done]. intros. by rewrite Ed.
Qed.

Lemma dc_same_dom m m' l q : dc_same m m' l -> (forall p, p ∈ l -> is_Some (dc_mem m !! p)) ->
  is_Some (dc_mem m' !! q) <-> is_Some (dc_mem m !! q).
Proof.
  intros Hs Hl. split.
  - intros Hq. destruct (decide (q ∈ l)); [auto|]. by rewrite <- (ds_out _ _ _ Hs).
  - intros [e He]. destruct (ds_in _ _ _ Hs _ _ He) as (e' & ? & _). eauto.
Qed.

Lemma at_kept_dc m m' l : dc_same m m' l -> at_kept m m'.
Proof. intros []. by apply at_kept_same. Qed.

Lemma hit_active_spec s la li l1 p l2 e ops sd :
  cache_inv s la li -> la = l1 ++ p :: l2 -> fits s la li -> dc_mem (cs_mem s) !! p = Some e ->
  cur (dc_at_entry e) = Some (dc_val e) -> scan_ok ops sd (la ++ li) ->
  served s ops (hit_active s ops sd p).
Proof.
  intros [La Li Ta Ti Hnd Hheap Hc] -> [Fa Fi] He Hcur Hsd.
  assert ((l1 ++ p :: l2) ++ li ≡ₚ (p :: l1 ++ l2) ++ li) as Hperm by (by rewrite <- Permutation_middle).
  destruct (seg_node _ l1 p l2 (lru_seg _ _ _ La)) as (_ & _ & _ & _ & Hz & _).
  destruct (move_to_head_spec _ _ l1 p l2 La) as (da & m1 & Hm & La1 & Hs1 & Hmax & Hlt).
  unfold hit_active. rewrite Hm. cbn [mbind res_bind].
  assert (cached cur m1 ((p :: l1 ++ l2) ++ li)) as Hc1 by (eapply cached_perm; [exact Hperm|by eapply cached_same]).
  assert (p ∈ (p :: l1 ++ l2) ++ li) as Hpin by left.
  rewrite (chain_scanned_spec m1 _ ops sd p Hc1) by (done || by unfold scan_ok in *; rewrite <- Hperm). cbn [mbind res_bind].
  destruct (ds_in _ _ _ Hs1 _ _ He) as (e1 & He1 & Ea & _ & Ev & _).
  destruct (cached_link cur m1 _ p e1 Hc1) as (m2 & Hk & Hc2 & Hat & Hdc); [done|done|by rewrite Ea, Ev|done|].
  rewrite Hk. cbn [mbind res_bind]. eexists _, _, (p :: l1 ++ l2), li. split; [done|].
  assert (lru (inactive_list (cs_ct s)) m1 li) as Li1.
  { eapply lru_frame; [exact Hs1| |done]. intros q Hq Hq'. rewrite Hperm in Hnd.
    apply NoDup_app in Hnd as (_ & Hd & _). by apply (Hd q). }
  split; [split|split; [|split]]; cbn [cs_ct cs_mem active_list inactive_list set_active].
  - by eapply lru_dc_mem.
  - by eapply lru_dc_mem.
  - by rewrite Hlt.
  - done.
  - by rewrite <- Hperm.
  - intros q. rewrite Hdc, <- Hperm, <- Hheap. eapply dc_same_dom; [exact Hs1|]. intros q' Hq'.
    apply Hheap. rewrite Hperm, elem_of_app. by left.
  - done.
  - split; cbn; [|done]. rewrite Hmax. rewrite length_app in Fa. cbn [length] in *. rewrite length_app. lia.
  - split; cbn; try done. eapply at_kept_trans; [by eapply at_kept_dc|done].
  - destruct ops; [by right|]. unfold scan_ok in *. by rewrite <- Hperm.
Qed.

Lemma disjoint_frame (l1 l2 : list Z) : NoDup (l1 ++ l2) ->
  (forall q, q ∈ l2 -> q ∉ l1) /\ (forall q, q ∈ l1 -> q ∉ l2).
Proof. intros (_ & Hd & _)%NoDup_app. split; intros q Hq Hq'; by apply (Hd q). Qed.

(** An inactive entry moves to the front of the active list. *)
Lemma promote_spec s la l1 p l2 e ops sd :
  cache_inv s la (l1 ++ p :: l2) -> dc_mem (cs_mem s) !! p = Some e ->
  cur (dc_at_entry e) = Some (dc_val e) -> scan_ok ops sd (la ++ l1 ++ p :: l2) ->
  Z.of_nat (length la) + 1 < 2 ^ 31 - 1 ->
  exists di m1 da m2 m3, remove_entry (inactive_list (cs_ct s)) (cs_mem s) p = Ok (di, m1) /\
    insert_head (active_list (cs_ct s)) m1 p = Ok (da, m2) /\
    chain_scanned m2 ops sd p = Ok (if ops then p else sd, m2) /\ link_to_at m2 p = Ok m3 /\
    let s' := CState (set_inactive di (set_active da (cs_ct s))) (cs_vss s) m3 in
    cache_inv s' (p :: la) (l1 ++ l2) /\ cs_same s s'.
Proof.
  intros [La Li Ta Ti Hnd Hheap Hc] He Hcur Hsd Hlen.
  assert (la ++ l1 ++ p :: l2 ≡ₚ (p :: la) ++ l1 ++ l2) as Hperm by solve_Permutation.
  destruct (seg_node _ l1 p l2 (lru_seg _ _ _ Li)) as (_ & _ & _ & _ & Hz & _).
  destruct (ca_entry _ _ _ Hc p) as (e' & x & He' & S1 & S2 & Ha & Hx & Hu).
  { rewrite Hperm. left. }
  assert (e' = e) as -> by congruence.
  destruct (remove_entry_spec _ _ l1 p l2 e x Li He Ha Hx) as (di & m1 & Hr & Ldi & Hsame & Hp & Hty & Hmaxi & Hlti).
  set (m1' := upd_at m1 (dc_at_entry e) (uncached x)) in *.
  rewrite Hperm in Hnd. pose proof Hnd as [D1 D2]%(disjoint_frame (p :: la)).
  assert (p ∉ la) as Hpla by (apply NoDup_cons in Hnd as [Hn _]; by intros Hq; apply Hn, elem_of_app; left).
  assert (lru (active_list (cs_ct s)) m1' la) as La1.
  { apply lru_upd_at. eapply lru_frame; [exact Hsame| |done]. intros q Hq. apply D2. by right. }
  destruct (insert_head_spec _ m1' la p e La1) as (da & m2 & Hi & La2 & Hsame2 & Hmaxa & Hlta); [done..|].
  assert (cached cur m1 ((p :: la) ++ l1 ++ l2)) as Hc1 by (eapply cached_perm; [exact Hperm|by eapply cached_same]).
  assert (p ∈ (p :: la) ++ l1 ++ l2) as Hpin by left.
  assert (at_mem m1 !! dc_at_entry e = Some x) as Hx1 by (by rewrite (ds_at _ _ _ Hsame)).
  destruct (cached_uncached cur m1 _ p e x Hc1 Hpin Hp Hx1) as (Hc1' & Hk1 & _). fold m1' in Hc1', Hk1.
  assert (cached cur m2 ((p :: la) ++ l1 ++ l2)) as Hc2 by (by eapply cached_same).
  destruct (ds_in _ _ _ Hsame2 _ _ Hp) as (e2 & He2 & Ea & _ & Ev & _).
  destruct (cached_link cur m2 _ p e2 Hc2) as (m3 & Hk & Hc3 & Hat & Hdc); [done|done|by rewrite Ea, Ev|done|].
  exists di, m1', da, m2, m3. split; [done|]. split; [done|].
  split; [apply (chain_scanned_spec m2 _ ops sd p Hc2); try done; unfold scan_ok in *; by rewrite <- Hperm|]. split; [done|].
  intros s'. split; [split|]; subst s'; cbn [cs_ct cs_mem cs_vss active_list inactive_list set_active set_inactive].
  - by eapply lru_dc_mem.
  - eapply lru_dc_mem; [done|]. by eapply lru_frame.
  - by rewrite Hlta.
  - by rewrite Hlti.
  - done.
  - intros q. rewrite Hdc, <- Hperm, <- Hheap. rewrite (dc_same_dom m1' m2 _ q Hsame2).
    + apply (dc_same_dom _ _ _ q Hsame). intros r Hr'. apply Hheap. rewrite Hperm, elem_of_app. by right.
    + intros r [->|Hr']%elem_of_cons; [by exists e|]. cbn.
      apply (dc_same_dom _ _ _ r Hsame).
      * intros r' ?. apply Hheap. rewrite Hperm, elem_of_app. by right.
      * apply Hheap. rewrite elem_of_app. by left.
  - done.
  - split; cbn; try done. eapply at_kept_trans; [by eapply at_kept_dc|].
    eapply at_kept_trans; [exact Hk1|]. eapply at_kept_trans; [by eapply at_kept_dc|done].
Qed.

(** The last active entry moves to the front of the inactive list. *)
Lemma demote_spec s a la q li : cache_inv s ((a :: la) ++ [q]) li -> Z.of_nat (length li) + 1 < 2 ^ 31 - 1 ->
  exists da m1 di m2, remove_tail (active_list (cs_ct s)) (cs_mem s) = Ok (q, da, m1) /\
    insert_head (inactive_list (cs_ct s)) m1 q = Ok (di, m2) /\
    let s' := CState (set_inactive di (set_active da (cs_ct s))) (cs_vss s) m2 in
    cache_inv s' (a :: la) (q :: li) /\ cs_same s s'.
Proof.
  intros [La Li Ta Ti Hnd Hheap Hc] Hlen.
  assert (((a :: la) ++ [q]) ++ li ≡ₚ (a :: la) ++ q :: li) as Hperm by solve_Permutation.
  destruct (seg_node _ (a :: la) q [] (lru_seg _ _ _ La)) as (e & He & _ & _ & Hz & _).
  destruct (remove_tail_spec _ _ (a :: la) q La) as (da & m1 & Hr & La1 & Hsame & Hq & Hty & Hmaxa & Hlta).
  rewrite Hperm in Hnd. pose proof Hnd as [D1 D2]%disjoint_frame.
  assert (q ∉ li) as Hqli by (apply NoDup_app in Hnd as (_ & _ & [? _]%NoDup_cons); done).
  assert (lru (inactive_list (cs_ct s)) m1 li) as Li1.
  { eapply lru_frame; [exact Hsame| |done]. intros r Hr'. apply D1. by right. }
  rewrite He in Hq. destruct (insert_head_spec _ m1 li q e Li1) as (di & m2 & Hi & Li2 & Hsame2 & Hmaxi & Hlti); [done..|].
  exists da, m1, di, m2. split; [done|]. split; [done|].
  intros s'. split; [split|]; subst s'; cbn [cs_ct cs_mem cs_vss active_list inactive_list set_active set_inactive].
  - by eapply lru_frame.
  - done.
  - by rewrite Hlta.
  - by rewrite Hlti.
  - done.
  - assert (forall r, r ∈ (a :: la) ++ q :: li -> is_Some (dc_mem m1 !! r)) as Hin.
    { intros r Hr'. apply (dc_same_dom _ _ _ r Hsame).
      - intros r' ?. apply Hheap. rewrite Hperm, elem_of_app. by left.
      - apply Hheap. by rewrite Hperm. }
    intros r. rewrite <- Hperm, <- Hheap. rewrite (dc_same_dom m1 m2 _ r Hsame2).
    + apply (dc_same_dom _ _ _ r Hsame). intros r' ?. apply Hheap. rewrite Hperm, elem_of_app. by left.
    + intros r' ?. apply Hin. rewrite elem_of_app. by right.
  - eapply cached_perm; [exact Hperm|]. eapply cached_same; [exact Hsame2|]. by eapply cached_same.
  - split; cbn; try done. eapply at_kept_trans; by eapply at_kept_dc.
Qed.

Lemma hit_inactive_spec s la l1 p l2 e ops sd :
  cache_inv s la (l1 ++ p :: l2) -> fits s la (l1 ++ p :: l2) -> cache_sized s ->
  dc_mem (cs_mem s) !! p = Some e ->
  cur (dc_at_entry e) = Some (dc_val e) -> scan_ok ops sd (la ++ l1 ++ p :: l2) ->
  served s ops (hit_inactive s ops sd p).
Proof.
  intros Hinv [Fa Fi] [Za Zi _ _] He Hcur Hsd. rewrite length_app in Fi. cbn [length] in Fi.
  destruct (promote_spec s la l1 p l2 e ops sd) as (di & m1 & da & m2 & m3 & R1 & R2 & R3 & R4 & Hinv' & Hss);
    [done..|lia|].
  unfold hit_inactive. rewrite R1. cbn [mbind res_bind]. rewrite R2. cbn [mbind res_bind].
  rewrite R3. cbn [mbind res_bind]. rewrite R4. cbn [mbind res_bind].
  assert (get_cur_size da = Z.of_nat (length (p :: la))) as Hca by apply (lru_size _ _ _ (ci_active _ _ _ Hinv')).
  pose proof (ss_max_a _ _ Hss) as Ma. pose proof (ss_max_i _ _ Hss) as Mi. cbn in Ma, Mi.
  unfold get_max_size. rewrite Hca. destruct (Z.ltb_spec (max_size da) (Z.of_nat (length (p :: la)))) as [Hgt|Hle].
  - assert (la <> []) as Hne by (intros ->; cbn in Hgt; lia).
    destruct la as [|q la _] using rev_ind; [done|]. clear Hne.
    destruct (demote_spec _ p la q (l1 ++ l2) Hinv') as (da' & m5 & di' & m6 & Q1 & Q2 & Hinv2 & Hss2).
    { rewrite length_app. lia. }
    cbn [cs_ct cs_mem cs_vss active_list inactive_list set_active set_inactive] in *.
    rewrite Q1. cbn [mbind res_bind]. rewrite Q2. cbn [mbind res_bind].
    assert (get_cur_size di' = Z.of_nat (length (q :: l1 ++ l2))) as Hci by apply (lru_size _ _ _ (ci_inactive _ _ _ Hinv2)).
    pose proof (ss_max_a _ _ Hss2) as Ma2. pose proof (ss_max_i _ _ Hss2) as Mi2. cbn in Ma2, Mi2.
    rewrite length_app in Fa. cbn [length] in Fa, Hci. rewrite length_app in Hci. cbn in Hci.
    rewrite Hci, (proj2 (Z.ltb_ge _ _)) by lia.
    eexists _, _, (p :: la), (q :: l1 ++ l2). split; [done|]. split; [done|]. split; [split; cbn; rewrite ?length_app; lia|].
    split; [by eapply cs_same_trans|].
    destruct ops; [right; by split; [|left]|]. left. by destruct Hsd as [?|[? _]].
  - eexists _, _, (p :: la), (l1 ++ l2). split; [done|]. split; [done|]. split; [split; cbn -[length]; rewrite ?length_app; lia|].
    split; [done|]. destruct ops; [right; by split; [|left]|]. left. by destruct Hsd as [?|[? _]].
Qed.

(** A live entry of a list is another one than a newly allocated one. *)
Lemma lru_alloc d m l p e : dc_mem m !! p = None -> (forall q, q ∈ l -> is_Some (dc_mem m !! q)) ->
  lru d m l -> lru d (upd_dc m p e) l.
Proof.
  intros Hf Hl [? ? ? ? ? Hty ?].
  assert (forall q, q ∈ l -> dc_mem (upd_dc m p e) !! q = dc_mem m !! q) as Hfr.
  { intros q Hq. cbn. rewrite lookup_insert_ne; [done|]. intros ->. destruct (Hl _ Hq). congruence. }
  split; try done.
  - eapply seg_frame; [|done]. exact Hfr.
  - rewrite Forall_forall in *. intros q Hq. rewrite Hfr by done. by apply Hty.
Qed.

(** A new entry at the front of the inactive list. *)
Lemma enter_spec s la li cq x ops sd :
  let p := dc_malloc (cs_mem s) in
  cache_inv s la li -> p <> 0 -> Z.of_nat (length li) + 1 < 2 ^ 31 - 1 ->
  cq_at_entry cq <> 0 -> at_mem (cs_mem s) !! cq_at_entry cq = Some x ->
  cur (cq_at_entry cq) = Some (cq_val cq) -> scan_ok ops sd (la ++ li) ->
  exists m1 di m2 m3, alloc_entry (inactive_list (cs_ct s)) (cs_mem s) p cq = Ok m1 /\
    insert_head (inactive_list (cs_ct s)) m1 p = Ok (di, m2) /\
    chain_scanned m2 ops sd p = Ok (if ops then p else sd, m2) /\ link_to_at m2 p = Ok m3 /\
    let s' := CState (set_inactive di (cs_ct s)) (cs_vss s) m3 in
    cache_inv s' la (p :: li) /\ cs_same s s'.
Proof.
  intros p [La Li Ta Ti Hnd Hheap Hc] Hz Hlen Ha Hx Hcur Hsd.
  destruct (malloc_fresh _ Hz) as (Hf & Ho & Hu). fold p in Hf, Ho, Hu.
  unfold alloc_entry. rewrite (proj2 (Z.eqb_neq p 0)) by done.
  set (e := DcEntry _ _ _ _ _ _ _ _). set (m1 := upd_dc (cs_mem s) p e).
  assert (p ∉ la ++ li) as Hni by (rewrite <- Hheap, Hf; by intros [? ?]).
  assert (forall q, q ∈ li -> is_Some (dc_mem (cs_mem s) !! q)) as Hli by (intros; apply Hheap, elem_of_app; by right).
  assert (lru (inactive_list (cs_ct s)) m1 li) as Li1 by (by apply lru_alloc).
  assert (lru (active_list (cs_ct s)) m1 la) as La1 by (apply lru_alloc; [done| |done]; intros; apply Hheap, elem_of_app; by left).
  assert (p ∉ li) as Hpi by (rewrite elem_of_app in Hni; tauto).
  destruct (insert_head_spec _ m1 li p e Li1) as (di & m2 & Hi & Li2 & Hsame & Hmax & Hlt);
    [done|done|cbn; apply lookup_insert_eq|lia|].
  assert (p :: la ++ li ≡ₚ la ++ p :: li) as Hperm by solve_Permutation.
  assert (cached cur m2 (la ++ p :: li)) as Hc2.
  { eapply cached_perm; [exact Hperm|]. eapply cached_same; [exact Hsame|]. by apply (cached_alloc cur _ _ p e x). }
  assert (p ∈ la ++ p :: li) as Hpin by (rewrite <- Hperm; left).
  assert (scan_ok ops sd (la ++ p :: li)) as Hsd1.
  { destruct Hsd as [?|[? ?]]; [by left|right]. rewrite <- Hperm. split; [done|by right]. }
  destruct (ds_in _ _ _ Hsame p e) as (e2 & He2 & Ea & _ & Ev & _); [apply lookup_insert_eq|].
  destruct (cached_link cur m2 _ p e2 Hc2) as (m3 & Hk & Hc3 & Hat & Hdc); [done|done|by rewrite Ea, Ev|done|].
  exists m1, di, m2, m3. split; [done|]. split; [done|]. split; [by apply (chain_scanned_spec m2 _ ops sd p Hc2)|].
  split; [done|]. assert (NoDup (la ++ p :: li)) as Hnd1 by (rewrite <- Hperm; by constructor).
  pose proof Hnd1 as [D1 D2]%disjoint_frame. split; [split|]; cbn; try done.
  - eapply lru_dc_mem; [done|]. by eapply lru_frame.
  - by eapply lru_dc_mem.
  - by rewrite Hlt.
  - intros q. rewrite Hdc, <- Hperm, (dc_same_dom m1 m2 _ q Hsame).
    + rewrite elem_of_cons, <- Hheap. cbn. destruct (decide (p = q)) as [<-|Hne].
      * rewrite lookup_insert_eq. split; [by left|eauto].
      * rewrite lookup_insert_ne by done. split; [by right|]. by intros [->|?].
    + intros r [->|Hr]%elem_of_cons; [exists e; apply lookup_insert_eq|].
      cbn. rewrite lookup_insert_ne; [by apply Hli|]. by intros ->.
  - split; cbn; try done. eapply at_kept_trans; [|exact Hat].
    eapply at_kept_trans; [|by eapply at_kept_dc]. by apply at_kept_same.
Qed.

Lemma first_access_spec s la li cq x ops sd :
  cache_inv s la li -> fits s la li -> cache_sized s ->
  cq_at_entry cq <> 0 -> at_mem (cs_mem s) !! cq_at_entry cq = Some x ->
  cur (cq_at_entry cq) = Some (cq_val cq) -> scan_ok ops sd (la ++ li) ->
  served s ops (first_access s ops sd cq).
Proof.
  intros Hinv [Fa Fi] [Za Zi Ze Zh] Ha Hx Hcur Hsd.
  assert (dc_malloc (cs_mem s) <> 0) as Hz.
  { apply malloc_room. pose proof (map_size_keys (dc_mem (cs_mem s)) (la ++ li)) as Hsz.
    rewrite length_app in Hsz. specialize (Hsz (fun k => proj1 (ci_heap _ _ _ Hinv k))). lia. }
  destruct (enter_spec s la li cq x ops sd) as (m1 & di & m2 & m3 & R1 & R2 & R3 & R4 & Hinv1 & Hss1); [done|done|lia|done..|].
  unfold first_access. set (p := dc_malloc (cs_mem s)) in *.
  rewrite R1. cbn [mbind res_bind]. rewrite R2. cbn [mbind res_bind].
  rewrite R3. cbn [mbind res_bind]. rewrite R4. cbn [mbind res_bind]. set (s1 := CState _ _ _) in *.
  assert (get_cur_size di = Z.of_nat (length (p :: li))) as Hci by apply (lru_size _ _ _ (ci_inactive _ _ _ Hinv1)).
  assert (max_size di = max_size (inactive_list (cs_ct s))) as Hmax by apply (ss_max_i _ _ Hss1).
  unfold get_max_size. rewrite Hci. destruct (Z.ltb_spec (max_size di) (Z.of_nat (length (p :: li)))) as [Hgt|Hle].
  - cbn [length] in Hgt. set (k := (length (p :: li) - evict_count)%nat).
    assert (1 <= k <= length (p :: li))%nat as Hk1 by (unfold k; cbn [length]; lia).
    destruct (evict_entry_spec s1 la (take k (p :: li)) (drop k (p :: li))) as (s2 & Hev & Hinv2 & Hss2).
    + by rewrite take_drop.
    + rewrite length_drop. unfold k. cbn [length]. lia.
    + rewrite Hev. cbn [mbind res_bind]. exists (if ops then p else sd), s2, la, (take k (p :: li)).
      pose proof (ss_max_a _ _ Hss2) as Ma. pose proof (ss_max_i _ _ Hss2) as Mi. cbn in Ma, Mi.
      split; [done|]. split; [done|]. split; [|split; [by eapply cs_same_trans|]].
      * split; [by rewrite Ma|]. rewrite Mi, Hmax, length_take. unfold k. cbn [length]. lia.
      * destruct ops; [|left; by destruct Hsd as [?|[? _]]]. right. split; [done|].
        rewrite elem_of_app. right. destruct k as [|k']; [lia|]. left.
  - exists (if ops then p else sd), s1, la, (p :: li). split; [done|]. split; [done|].
    split; [split; cbn -[length]; lia|]. split; [done|].
    destruct ops; [|left; by destruct Hsd as [?|[? _]]]. right. split; [done|]. apply elem_of_app. right. left.
Qed.

(** A request carries the current value of its entry, or is for an entry that
    has been updated since. *)
Definition request_ok (m : memory) (cq : cq_entry_t) : Prop :=
  cq_at_entry cq = 0 \/ exists x, at_mem m !! cq_at_entry cq = Some x /\
    (vs_id (vs_idx x) < 0 /\ get_tag (val_addr x) = OPLOG_VAL \/ cur (cq_at_entry cq) = Some (cq_val cq)).

Lemma request_kept m m' cq : at_kept m m' -> request_ok m cq -> request_ok m' cq.
Proof.
  intros Hk [?|(x & Hx & Hr)]; [by left|right]. pose proof (ak_idx _ _ Hk (cq_at_entry cq)) as Hi.
  rewrite Hx in Hi. destruct (at_mem m' !! cq_at_entry cq) as [x'|] eqn:Hx'; [|done].
  exists x'. split; [done|]. destruct Hr as [[Hv Ht]|?]; [left|by right].
  rewrite (ak_log _ _ Hk _ _ Hx Hv Ht) in Hx'. by injection Hx' as <-.
Qed.

Lemma cache_one_spec s la li ops sd cq :
  cache_inv s la li -> fits s la li -> cache_sized s -> request_ok (cs_mem s) cq -> scan_ok ops sd (la ++ li) ->
  served s ops (cache_one s ops sd cq).
Proof.
  intros Hinv Hfit Hsz Hreq Hsd.
  assert (served s ops (Ok (sd, s))) as Hskip.
  { exists sd, s, la, li. split; [done|]. split; [done|]. split; [done|]. split; [apply cs_same_refl|done]. }
  unfold cache_one. destruct (Z.eqb_spec (cq_at_entry cq) 0) as [|Ha]; [done|].
  destruct Hreq as [?|(x & Hx & Hreq)]; [done|]. rewrite (load_at_some _ _ _ Ha Hx). cbn [mbind res_bind].
  destruct (_ && _) eqn:Hb; [done|].
  assert (cur (cq_at_entry cq) = Some (cq_val cq)) as Hcur.
  { destruct Hreq as [[Hv Ht]|?]; [|done]. rewrite Ht in Hb. apply andb_false_iff in Hb as [Hb|Hb]; [|done].
    apply Z.ltb_ge in Hb. lia. }
  destruct (Z.eqb_spec (get_tag (val_addr x)) DCACHE_VAL) as [Hd|Hd]; [|by eapply first_access_spec].
  destruct (ca_link _ _ _ (ci_cached _ _ _ Hinv) _ _ Hx Hd) as (e & Hin & He & Hea & Hval).
  set (p := get_untagged_ptr (val_addr x)) in *. rewrite <- Hea in Hval. unfold which_list.
  apply elem_of_app in Hin as [Hin|Hin]; apply list_elem_of_split in Hin as (l1 & l2 & El).
  - pose proof (ci_active _ _ _ Hinv) as La. rewrite El in La.
    destruct (seg_node _ l1 p l2 (lru_seg _ _ _ La)) as (_ & _ & _ & _ & Hz & _).
    pose proof (lru_type _ _ _ La) as Hty. apply Forall_app in Hty as [_ [Hty _]%Forall_cons].
    rewrite He in Hty. injection Hty as Hty. rewrite (ci_active_type _ _ _ Hinv) in Hty.
    rewrite (proj2 (Z.eqb_neq p 0)) by done. rewrite (load_dc_some _ _ _ Hz He). cbn [mbind res_bind].
    rewrite Hty. cbn. by eapply hit_active_spec.
  - subst li. pose proof (ci_inactive _ _ _ Hinv) as Li.
    destruct (seg_node _ l1 p l2 (lru_seg _ _ _ Li)) as (_ & _ & _ & _ & Hz & _).
    pose proof (lru_type _ _ _ Li) as Hty. apply Forall_app in Hty as [_ [Hty _]%Forall_cons].
    rewrite He in Hty. injection Hty as Hty. rewrite (ci_inactive_type _ _ _ Hinv) in Hty.
    rewrite (proj2 (Z.eqb_neq p 0)) by done. rewrite (load_dc_some _ _ _ Hz He). cbn [mbind res_bind].
    rewrite Hty. cbn. by eapply hit_inactive_spec.
Qed.

Lemma cache_all_spec vec ops : forall s la li sd,
  cache_inv s la li -> fits s la li -> cache_sized s -> Forall (request_ok (cs_mem s)) vec ->
  scan_ok ops sd (la ++ li) ->
  exists s' la' li', cache_all s ops sd vec = Ok s' /\ cache_inv s' la' li' /\ fits s' la' li' /\ cs_same s s'.
Proof.
  induction vec as [|cq vec IH]; intros s la li sd Hinv Hfit Hsz Hreq Hsd.
  { exists s, la, li. split; [done|]. split; [done|]. split; [done|apply cs_same_refl]. }
  apply Forall_cons in Hreq as [Hr Hreq]. cbn [cache_all].
  destruct (cache_one_spec s la li ops sd cq) as (sd' & s1 & la1 & li1 & -> & Hinv1 & Hfit1 & Hss & Hsd1); [done..|].
  cbn [mbind res_bind]. destruct (IH s1 la1 li1 sd') as (s2 & la2 & li2 & -> & ? & ? & Hss2); [done|done| | |done|].
  - by eapply cache_sized_same.
  - eapply Forall_impl; [exact Hreq|]. intros cq' Hq. eapply request_kept; [apply (ss_at _ _ Hss)|done].
  - exists s2, la2, li2. split; [done|]. split; [done|]. split; [done|]. by eapply cs_same_trans.
Qed.

Lemma cacheOperation_spec s la li vec :
  cache_inv s la li -> fits s la li -> cache_sized s -> vec <> [] -> Forall (request_ok (cs_mem s)) vec ->
  exists s' la' li', cacheOperation s vec = Ok s' /\ cache_inv s' la' li' /\ fits s' la' li' /\ cs_same s s'.
Proof.
  intros Hinv Hfit Hsz Hne Hreq. destruct vec as [|cq vec]; [done|].
  destruct (cache_all_spec (cq :: vec) (bool_decide (cq_ops cq = CT_SCAN)) s la li 0)
    as (s' & la' & li' & Hop & Hinv' & Hfit' & Hss); [done..|by left|].
  by exists s', la', li'.
Qed.

(** C24. [cacheOperation] serves every batch of requests, from lookups and
    from scans alike: it returns, no list grows beyond its size, every address
    tagged as cached leads to a live cache entry that leads back and holds the
    current value, exactly the listed entries are allocated, values in write
    buffers are not touched, and no storage is written: chains of scanned
    entries, whose eviction would write, never come about. *)
Theorem cacheOperation_correct s la li vec :
  cache_inv s la li -> fits s la li -> cache_sized s -> vec <> [] -> Forall (request_ok (cs_mem s)) vec ->
  exists s' la' li', cacheOperation s vec = Ok s' /\ cache_inv s' la' li' /\ fits s' la' li' /\
    cs_vss s' = cs_vss s /\ at_kept (cs_mem s) (cs_mem s').
Proof.
  intros Hinv Hfit Hsz Hne Hreq. destruct (cacheOperation_spec s la li vec) as (s' & la' & li' & ? & ? & ? & []); [done..|].
  by exists s', la', li'.
Qed.

(** One eviction removes the least recently used entries of the inactive
    list, in order, and keeps the active list: one entry for every two of
    [MTS_RECLAIM_PAGES_NUM], because the loop variable is incremented twice
    for each. *)
Theorem evict_entry_half s la l r : cache_inv s la (l ++ r) ->
  length r = Z.to_nat ((Z.of_nat MTS_RECLAIM_PAGES_NUM + 1) / 2) ->
  exists s', evict_entry s = Ok s' /\ cache_inv s' la l /\ cs_vss s' = cs_vss s.
Proof.
  intros Hinv Hr. destruct (evict_entry_spec s la l r Hinv Hr) as (s' & Hev & Hinv' & Hss).
  exists s'. split; [done|]. split; [done|]. by destruct Hss.
Qed.

(** On an inactive list shorter than that, the eviction follows the null
    tail pointer of the emptied list. *)
Theorem evict_entry_short s la r : cache_inv s la r ->
  (length r < Z.to_nat ((Z.of_nat MTS_RECLAIM_PAGES_NUM + 1) / 2))%nat ->
  evict_entry s = Err NullDeref.
Proof.
  intros Hinv Hr. unfold evict_entry, draw. cbn -[Nat.modulo].
  pose proof (Z.div_mod (Z.of_nat MTS_RECLAIM_PAGES_NUM + 1) 2 ltac:(lia)) as Hdiv.
  pose proof (Z.mod_pos_bound (Z.of_nat MTS_RECLAIM_PAGES_NUM + 1) 2 ltac:(lia)) as Hmod.
  eapply (evict_loop_short la _ r); [by destruct Hinv|lia|lia].
Qed.

(** * Freeing *)

(** The removed key's word is cleared before its cache entry is freed. *)
Lemma cleared_inv s la li a x : cache_inv s la li -> at_mem (cs_mem s) !! a = Some x ->
  cache_inv (CState (cs_ct s) (cs_vss s) (upd_at (cs_mem s) a (set_val_addr 0 x))) la li.
Proof.
  intros [La Li Ta Ti Hnd Hheap [A B C]] Hx. split; cbn; try done; try by apply lru_upd_at.
  assert (word_ok (set_val_addr 0 x)) as Hw by (by exists 0, 0).
  split; cbn [at_mem dc_mem upd_at].
  - intros q Hq. destruct (A q Hq) as (e & y & He & S1 & S2 & Hz & Hy & Hu). exists e.
    destruct (decide (a = dc_at_entry e)) as [->|Hne].
    + exists (set_val_addr 0 x). by rewrite lookup_insert_eq.
    + exists y. by rewrite lookup_insert_ne.
  - intros b y [[<- <-]|[_ Hy]]%lookup_insert_Some Ht; [done|by apply B].
  - intros b y [[<- <-]|[_ Hy]]%lookup_insert_Some; [done|by apply (C b)].
Qed.

(** [freeOperation] uses the word of the address-table entry as a pointer
    without removing its tag.  On an entry the address table has already freed
    (tag [CLEAN_ENTRY]) it takes the cache entry out of its list and frees it;
    on an entry still tagged as cached it faults. *)
Theorem freeOperation_tag s la li a x p e :
  cache_inv s la li -> a <> 0 -> at_mem (cs_mem s) !! a = Some x -> user_addr p -> p <> 0 ->
  dc_mem (cs_mem s) !! p = Some e ->
  (val_addr x = p + CLEAN_ENTRY * 2 ^ 56 ->
     exists s' la' li', freeOperation s a = Ok s' /\ cache_inv s' la' li' /\
       p :: la' ++ li' ≡ₚ la ++ li /\ cs_vss s' = cs_vss s) /\
  (val_addr x = p + DCACHE_VAL * 2 ^ 56 -> freeOperation s a = Err BadAddress).
Proof.
  intros Hinv Ha Hx Hu Hz He. unfold freeOperation. rewrite (load_at_some _ _ _ Ha Hx). cbn [mbind res_bind].
  split; intros ->.
  - change (CLEAN_ENTRY * 2 ^ 56) with 0. rewrite Z.add_0_r, (proj2 (Z.eqb_neq p 0)) by done.
    rewrite (store_at_some _ _ _ _ Ha Hx). cbn [mbind res_bind].
    rewrite (load_dc_some (upd_at _ _ _) p e Hz He). cbn [mbind res_bind].
    destruct (cleared_inv s la li a x Hinv Hx) as [La Li Ta Ti Hnd Hheap Hc]. cbn [cs_mem cs_ct] in *.
    set (m1 := upd_at (cs_mem s) a (set_val_addr 0 x)) in *.
    assert (p ∈ la ++ li) as [Hin|Hin]%elem_of_app by (apply Hheap; by exists e);
      apply list_elem_of_split in Hin as (l1 & l2 & ->).
    + pose proof (lru_type _ _ _ La) as Hty. apply Forall_app in Hty as [_ [Hty _]%Forall_cons].
      cbn in Hty. rewrite He in Hty. injection Hty as Hty. rewrite Hty, Ta. cbn -[remove_entry].
      assert ((l1 ++ p :: l2) ++ li ≡ₚ li ++ l1 ++ p :: l2) as Hperm by apply Permutation_app_comm.
      destruct (drop_lists (active_list (cs_ct s)) (inactive_list (cs_ct s)) m1 l1 p l2 li)
        as (d & m2 & m3 & R1 & R2 & La' & Li' & Hheap' & Hc' & Hk & Hmax & Hlt);
        [done|done|by rewrite <- Hperm|intros q; by rewrite <- Hperm|by eapply cached_perm|].
      rewrite R1. cbn [mbind res_bind]. rewrite R2. cbn [mbind res_bind].
      eexists _, (l1 ++ l2), li. split; [done|]. split; [|split; [solve_Permutation|done]].
      rewrite Hperm in Hnd. apply nodup_mid in Hnd as [_ Hnd].
      split; cbn; try done; [by rewrite Hlt| | |].
      * assert ((l1 ++ l2) ++ li ≡ₚ li ++ l1 ++ l2) as -> by apply Permutation_app_comm. exact Hnd.
      * intros q. by rewrite Hheap', (Permutation_app_comm li).
      * eapply cached_perm; [|exact Hc']. apply Permutation_app_comm.
    + pose proof (lru_type _ _ _ Li) as Hty. apply Forall_app in Hty as [_ [Hty _]%Forall_cons].
      cbn in Hty. rewrite He in Hty. injection Hty as Hty. rewrite Hty, Ti. cbn -[remove_entry].
      destruct (drop_lists (inactive_list (cs_ct s)) (active_list (cs_ct s)) m1 l1 p l2 la)
        as (d & m2 & m3 & R1 & R2 & Li' & La' & Hheap' & Hc' & Hk & Hmax & Hlt); [done..|].
      rewrite R1. cbn [mbind res_bind]. rewrite R2. cbn [mbind res_bind].
      eexists _, la, (l1 ++ l2). split; [done|]. split; [|split; [solve_Permutation|done]].
      apply nodup_mid in Hnd as [_ Hnd]. split; cbn; try done. by rewrite Hlt.
  - set (w := p + DCACHE_VAL * 2 ^ 56).
    assert (w <> 0 /\ ~ user_addr w) as [Hwz Hwu] by (unfold w, user_addr, DCACHE_VAL in *; lia).
    rewrite (proj2 (Z.eqb_neq w 0)) by done. rewrite (store_at_some _ _ _ _ Ha Hx). cbn [mbind res_bind].
    unfold load_dc, load. rewrite (proj2 (Z.eqb_neq w 0)) by done. cbn [dc_mem upd_at].
    destruct (dc_mem (cs_mem s) !! w) as [e'|] eqn:He'; [|done]. destruct Hwu.
    assert (w ∈ la ++ li) as Hin by (apply (ci_heap _ _ _ Hinv); eauto).
    by destruct (ca_entry _ _ _ (ci_cached _ _ _ Hinv) _ Hin) as (_ & _ & _ & _ & _ & _ & _ & Hu' & _).
Qed.
End cache.
