(* ===== verification/ReadPath.v ===== *)
(** Reading values from a value storage ([ValueStorage.cpp]:
    [get_val_ccsync], [get_val_scan], [make_cq_entry]; [MTS.cpp]:
    [cache_kv_items], [complete_pending_ios]).

    Reads are asynchronous.  A batch of address-table entries is turned into
    read requests on a ring and submitted; a completer thread later collects
    the entries read and queues them for the cache.  The theorem says that the
    two halves together read, for every requested entry in the storage, its
    own key and value. *)

From S2P Require Import Prelude Config TaggedPtr Objects IoUring ValueStorage.
From S2P Require Import ChunkWrite ChunkAlloc GarbageCollection.

Local Open Scope Z_scope.

(** A read ring: the requests in flight (index of the buffer, byte offset in
    the file) and the counter the submitter and the completer share. *)
Record read_ring := ReadRing { rr_flight : list (nat * Z); pending_ios : Z }.

Section read_path.
Context `{Config} `{IoUring} `{StdSort}.

(** The loop over the batch.  An entry that has moved to a write buffer is
    skipped, after a look at its value there; the loop stops when the ring
    has no submission entry left. *)
Fixpoint prep_vals (sqes : nat) (m : memory) (vec : list Z) (entry_idx : nat) : res (list (nat * Z)) :=
  match vec with
  | [] => Ok []
  | at_entry :: vec' =>
      x ← load_at m at_entry;
      if vs_offset (vs_idx x) <? 0 then
        _ ← load_op m (get_untagged_ptr (val_addr x));
        prep_vals sqes m vec' entry_idx
      else
        match sqes with
        | O => Ok []
        | S sqes' =>
            let r_chunk_offset := chunk_of (vs_offset (vs_idx x)) in
            let r_vs_entry_offset := entry_of (vs_offset (vs_idx x)) in
            let offset := to_i64 (r_chunk_offset * MTS_VS_CHUNK_SIZE + r_vs_entry_offset * sizeof_vs_entry) in
            reqs ← prep_vals sqes' m vec' (S entry_idx);
            Ok ((entry_idx, offset) :: reqs)
        end
  end.

(** Submits what the loop prepared; the batch is cleared in any case. *)
Definition submit_vals (ring : read_ring) (reqs : list (nat * Z)) : res read_ring :=
  let pending := Z.of_nat (length reqs) in
  if pending =? 0 then Ok ring
  else if negb (uring_submit (length reqs) =? pending) then Err ExitFailure
  else Ok (ReadRing (rr_flight ring ++ reqs) pending).

Definition get_val_ccsync (m : memory) (ring : read_ring) (at_entry_vec : list Z) : res read_ring :=
  reqs ← prep_vals (sq_entries R_QD) m at_entry_vec 0; submit_vals ring reqs.

Definition get_val_scan (m : memory) (ring : read_ring) (at_entry_vec : list Z) : res read_ring :=
  reqs ← prep_vals (sq_entries R_QD) m at_entry_vec 0; submit_vals ring reqs.

(** [key] and [ops] are not set: [junk] is what the new object holds. *)
Definition make_cq_entry (junk : cq_entry_t) (at_entry val : Z) : cq_entry_t :=
  CqEntry at_entry (cq_key junk) val (cq_ops junk).

(** [cache_kv_items(cq_entry_vec, vs_entry, ops)] *)
Definition cache_kv_entry (cq_entry_vec : list cq_entry_t) (vs_entry : vs_entry_t) (ops : bool)
  : list cq_entry_t :=
  cq_entry_vec ++ [CqEntry (ve_at_entry vs_entry) (ve_key vs_entry) (ve_val vs_entry) ops].

(** What a completed read finds at its offset. *)
Definition read_entry (v : ValueStorage) (r : nat * Z) : vs_entry_t :=
  default zero_vs_entry (vs_disk v !! (r.2 / sizeof_vs_entry)).

(** The loop of [complete_pending_ios]. *)
Fixpoint complete_loop (v : ValueStorage) (reqs : list (nat * Z)) (ops : bool) (vec : list cq_entry_t)
  : res (list cq_entry_t) :=
  match reqs with
  | [] => Ok vec
  | r :: reqs' =>
      if uring_wait 1 <? 0 then Err ExitFailure
      else if uring_res r <? 0 then Err ExitFailure
      else complete_loop v reqs' ops (cache_kv_entry vec (read_entry v r) ops)
  end.

(** [complete_pending_ios] for a scan: fills the caller's vector. *)
Definition complete_pending_scan (v : ValueStorage) (ring : read_ring) (ops : bool) (vec : list cq_entry_t)
  : res (list cq_entry_t * read_ring) :=
  let done := take (Z.to_nat (pending_ios ring)) (uring_order (rr_flight ring)) in
  vec' ← complete_loop v done ops vec;
  Ok (vec', ReadRing (drop (Z.to_nat (pending_ios ring)) (uring_order (rr_flight ring))) 0).

(** [complete_pending_ios] for lookups: the vector to queue, if not empty. *)
Definition complete_pending_ios (v : ValueStorage) (ring : read_ring)
  : res (option (list cq_entry_t) * read_ring) :=
  '(vec, ring') ← complete_pending_scan v ring CT_LOOKUP [];
  Ok (match vec with [] => None | _ => Some vec end, ring').

(** * Correctness *)

Context `{!WfConfig _} `{!IoUringOk _}.

(** The entry of a batch that is in the storage. *)
Definition in_storage (v : ValueStorage) (m : memory) (a : Z) (e : vs_entry_t) : Prop :=
  a <> 0 /\ entry_of_at v m a e.

Lemma offset_of_slot v m a e x : entry_of_at v m a e -> at_mem m !! a = Some x ->
  0 <= vs_offset (vs_idx x) /\
  let off := to_i64 (chunk_of (vs_offset (vs_idx x)) * MTS_VS_CHUNK_SIZE +
                     entry_of (vs_offset (vs_idx x)) * sizeof_vs_entry) in
  vs_disk v !! (off / sizeof_vs_entry) = Some e.
Proof.
  intros (_ & c & j & (Hc & Hj & Hv & Hd) & x' & Hx' & Hp) Hx.
  assert (x' = x) as -> by congruence. rewrite Hp. cbn [vs_offset].
  pose proof (slot_range c j Hc Hj) as Hr. pose proof (mk_vs_offset_small c j Hc Hj) as Hs.
  destruct (vs_offset_decode c j Hc Hj) as [Ec Ej].
  unfold slot in *. rewrite Ec, Ej. split; [lia|]. rewrite wf_chunk_size. unfold sizeof_vs_entry.
  pose proof wf_kv as Hkv.
  replace (c * (Z.of_nat MTS_VS_ENTRIES_PER_CHUNK * KV_SIZE) + j * KV_SIZE)
    with ((c * Z.of_nat MTS_VS_ENTRIES_PER_CHUNK + j) * KV_SIZE) by lia.
  rewrite to_s_id by nia. by rewrite Z.div_mul by lia.
Qed.

(** The requests read the entries of the batch, as many as the ring takes. *)
Lemma prep_vals_spec v m vec es : Forall2 (in_storage v m) vec es -> forall sqes k,
  exists reqs, prep_vals sqes m vec k = Ok reqs /\ read_entry v <$> reqs = take sqes es.
Proof.
  induction 1 as [|a e vec es [Ha He] _ IH]; intros sqes k.
  { exists []. by rewrite take_nil. }
  pose proof He as (_ & c & j & _ & x & Hx & _). destruct (offset_of_slot v m a e x He Hx) as [Hz Hd].
  cbn [prep_vals]. rewrite (load_at_some _ _ _ Ha Hx). cbn [mbind res_bind].
  rewrite (proj2 (Z.ltb_ge _ 0)) by done. destruct sqes as [|sqes]; [by exists []|].
  destruct (IH sqes (S k)) as (reqs & -> & Hr). cbn [mbind res_bind]. eexists. split; [done|].
  cbn [fmap list_fmap take]. f_equal; [|exact Hr]. unfold read_entry. cbn [snd]. by rewrite Hd.
Qed.

Lemma r_qd_entries : sq_entries R_QD = R_QD.
Proof. destruct wf_r_qd as [k ->]. apply sq_entries_pow2. Qed.

Lemma submit_vals_spec ring reqs : reqs <> [] ->
  submit_vals ring reqs = Ok (ReadRing (rr_flight ring ++ reqs) (Z.of_nat (length reqs))).
Proof.
  intros Hne. unfold submit_vals. rewrite uring_submit_all, Z.eqb_refl. cbn [negb].
  rewrite (proj2 (Z.eqb_neq _ 0)); [done|]. destruct reqs; [done|]. cbn. lia.
Qed.

Definition cq_of (ops : bool) (e : vs_entry_t) : cq_entry_t :=
  CqEntry (ve_at_entry e) (ve_key e) (ve_val e) ops.

Lemma complete_loop_spec v reqs ops vec :
  complete_loop v reqs ops vec = Ok (vec ++ (cq_of ops <$> (read_entry v <$> reqs))).
Proof.
  revert vec. induction reqs as [|r reqs IH]; intros vec; cbn [complete_loop]; [by rewrite app_nil_r|].
  pose proof (uring_wait_ok 1). pose proof (uring_res_ok r).
  rewrite !(proj2 (Z.ltb_ge _ 0)) by done. rewrite IH. unfold cache_kv_entry. by rewrite <- app_assoc.
Qed.

(** The requests in flight on a ring read [es]. *)
Definition ring_holds (v : ValueStorage) (ring : read_ring) (es : list vs_entry_t) : Prop :=
  pending_ios ring = Z.of_nat (length (rr_flight ring)) /\ read_entry v <$> rr_flight ring = es.

(** A ring completed. *)
Lemma complete_ring v ring es ops vec : ring_holds v ring es ->
  exists cqs, cqs ≡ₚ es /\ complete_pending_scan v ring ops vec = Ok (vec ++ (cq_of ops <$> cqs), ReadRing [] 0).
Proof.
  intros [Hp <-]. exists (read_entry v <$> uring_order (rr_flight ring)). split; [by rewrite uring_order_perm|].
  unfold complete_pending_scan. rewrite Hp, Nat2Z.id.
  rewrite take_ge, drop_ge by (by rewrite uring_order_perm). by rewrite complete_loop_spec.
Qed.

(** A batch submitted on an idle ring and completed. *)
Lemma read_batch_spec v m vec es : Forall2 (in_storage v m) vec es -> vec <> [] -> (0 < R_QD)%nat ->
  exists ring, get_val_ccsync m (ReadRing [] 0) vec = Ok ring /\
    get_val_scan m (ReadRing [] 0) vec = Ok ring /\ ring_holds v ring (take R_QD es).
Proof.
  intros Hf Hne Hq. destruct (prep_vals_spec v m vec es Hf (sq_entries R_QD) 0) as (reqs & Hp & Hr).
  rewrite r_qd_entries in Hr.
  assert (reqs <> []) as Hreqs.
  { intros ->. destruct Hf as [|a e vec es _ _]; [done|]. destruct R_QD; [lia|done]. }
  unfold get_val_ccsync, get_val_scan. rewrite Hp. cbn [mbind res_bind]. rewrite submit_vals_spec by done.
  cbn [rr_flight app]. eexists. split; [done|]. split; [done|]. by split.
Qed.

Lemma read_idle v m vec es : Forall2 (in_storage v m) vec es -> vec <> [] -> (length vec <= R_QD)%nat ->
  exists ring cqs, get_val_ccsync m (ReadRing [] 0) vec = Ok ring /\
    complete_pending_ios v ring = Ok (Some (cq_of CT_LOOKUP <$> cqs), ReadRing [] 0) /\ cqs ≡ₚ es.
Proof.
  intros Hf Hne Hlen. pose proof (Forall2_length _ _ _ Hf) as Hl.
  destruct (read_batch_spec v m vec es Hf Hne) as (ring & Hg & _ & Hh); [destruct vec; [done|cbn in *; lia]|].
  destruct (complete_ring v ring _ CT_LOOKUP [] Hh) as (cqs & Hp & Hc).
  exists ring, cqs. split; [done|]. rewrite take_ge in Hp by lia. split; [|done].
  unfold complete_pending_ios. rewrite Hc. cbn [mbind res_bind app]. destruct cqs; [|done].
  apply Permutation_nil_l in Hp as <-. by destruct vec.
Qed.

(** C35. Reading a batch.  For a batch of at most [R_QD] address-table entries
    whose values are in the storage, submitting it on an idle ring succeeds,
    and the completer hands the cache exactly one item per entry, with the
    entry's own address-table entry, key and value; completions may come in
    any order.  Afterwards the ring is idle again. *)
Theorem read_batch v m vec es : Forall2 (in_storage v m) vec es -> vec <> [] -> (length vec <= R_QD)%nat ->
  exists ring cqs, get_val_ccsync m (ReadRing [] 0) vec = Ok ring /\
    complete_pending_ios v ring = Ok (Some (cq_of CT_LOOKUP <$> cqs), ReadRing [] 0) /\ cqs ≡ₚ es.
Proof. apply read_idle. Qed.

(** A scan that finds more than [R_QD] values in one storage reads only
    the first [R_QD] of them: the loop stops when the ring is full, the batch
    is cleared and nothing reads the rest. *)
Theorem scan_reads_at_most_r_qd v m vec es : Forall2 (in_storage v m) vec es -> (0 < R_QD < length vec)%nat ->
  exists ring cqs, get_val_scan m (ReadRing [] 0) vec = Ok ring /\
    complete_pending_scan v ring CT_SCAN [] = Ok (cq_of CT_SCAN <$> cqs, ReadRing [] 0) /\
    cqs ≡ₚ take R_QD es /\ (length cqs < length vec)%nat.
Proof.
  intros Hf Hlen. pose proof (Forall2_length _ _ _ Hf) as Hl.
  destruct (read_batch_spec v m vec es Hf) as (ring & _ & Hg & Hh); [by destruct vec; [cbn in *; lia|]|lia|].
  destruct (complete_ring v ring _ CT_SCAN [] Hh) as (cqs & Hp & Hc).
  exists ring, cqs. split; [done|]. split; [done|]. split; [done|].
  rewrite Hp, length_take. lia.
Qed.
End read_path.
