(* ===== verification/AIO.v ===== *)
(** The combining queue of asynchronous reads ([AIO.cpp], [AIO.h]).

    Threads whose lookups find their value in a value storage call
    [apply_ops].  A call swaps a fresh node into the tail of a queue, leaves
    its request in the node it got, and spins on that node.  The thread whose
    node is unlocked without being completed leads: it collects the requests
    of the nodes behind its own, at most [R_QD] of them, waits until the ring
    is idle, submits the batch and unlocks the next node.

    The threads are modelled at the grain of their accesses to shared memory,
    interleaved in any order and sequentially consistent; the code uses
    volatile accesses on x86, where a store may be delayed but stores of one
    thread are never reordered.  A thread may join with a node of its own and
    leave with the node it has (its next call may be on another queue, which
    takes the node with it). *)

From S2P Require Import Prelude Config TaggedPtr Objects IoUring ValueStorage ReadPath.

Local Open Scope Z_scope.

Record aio_node := AioNode { next : Z; arg_ret : Z; tmp : Z; locked : bool; completed : bool }.

Definition set_next (p : Z) (n : aio_node) : aio_node := AioNode p (arg_ret n) (tmp n) (locked n) (completed n).
Definition set_arg_ret (a : Z) (n : aio_node) : aio_node := AioNode (next n) a (tmp n) (locked n) (completed n).
Definition set_tmp (a : Z) (n : aio_node) : aio_node := AioNode (next n) (arg_ret n) a (locked n) (completed n).
Definition set_locked (b : bool) (n : aio_node) : aio_node := AioNode (next n) (arg_ret n) (tmp n) b (completed n).
Definition set_completed (b : bool) (n : aio_node) : aio_node := AioNode (next n) (arg_ret n) (tmp n) (locked n) b.

(** Where a thread is in [apply_ops], with its local variables.  [Prepared]:
    [next_node] is initialised; [Swapped]: [cur] is taken from the tail;
    [Stored]: [cur->tmp] is set; [Spin]: [cur] is linked and the thread waits;
    [Checking]: [cur->locked] was false; [Lead]: the head of the inner loop;
    [Served]: the request of [p] is in the batch; [Marked]: [p] is completed;
    [Polling]: the inner loop is left; [Submitting]: the ring was idle;
    [Unlocking]: the batch is submitted. *)
Inductive aio_pc :=
  | Idle
  | Prepared (at_entry next_node : Z)
  | Swapped (at_entry next_node cur : Z)
  | Stored (next_node cur : Z)
  | Spin (cur : Z)
  | Checking (cur : Z)
  | Lead (p : Z) (counter : nat)
  | Served (p tmp_next : Z) (counter : nat)
  | Marked (p tmp_next : Z) (counter : nat)
  | Polling (p : Z) (counter : nat)
  | Submitting (p : Z) (counter : nat)
  | Unlocking (p : Z) (counter : nat).

(** [aio_thread_state_t] and the thread's position. *)
Record aio_thread := AioThread { st_next : Z; st_pc : aio_pc }.

(** One combiner: its nodes, the tail, the threads, the batch being collected
    ([src_at_entry_vec]) and the ring it goes to. *)
Record aio_struct := Aio {
  nodes : gmap Z aio_node;
  tail : Z;
  threads : gmap nat aio_thread;
  src_at_entry_vec : list Z;
  ring : read_ring }.

Definition set_nodes (f : gmap Z aio_node -> gmap Z aio_node) (s : aio_struct) : aio_struct :=
  Aio (f (nodes s)) (tail s) (threads s) (src_at_entry_vec s) (ring s).
Definition set_thread (t : nat) (th : aio_thread) (s : aio_struct) : aio_struct :=
  Aio (nodes s) (tail s) (<[t := th]> (threads s)) (src_at_entry_vec s) (ring s).
Definition set_batch (v : list Z) (s : aio_struct) : aio_struct :=
  Aio (nodes s) (tail s) (threads s) v (ring s).
Definition set_ring (r : read_ring) (s : aio_struct) : aio_struct :=
  Aio (nodes s) (tail s) (threads s) (src_at_entry_vec s) r.

Definition load_node (s : aio_struct) (p : Z) : res aio_node := of_option NullDeref (nodes s !! p).
Definition store_node (s : aio_struct) (p : Z) (f : aio_node -> aio_node) : res aio_struct :=
  n ← load_node s p; Ok (set_nodes <[p := f n]> s).

(** What an outside observer sees of a step. *)
Inductive event :=
  | Enqueued (t : nat) (at_entry : Z)
  | Submitted (batch : list Z)
  | Returned (t : nat) (counter : nat).

(** [aio_struct_init]; [p] is the node it allocates. *)
Definition aio_struct_init (p : Z) (junk : aio_node) : aio_struct :=
  Aio {[p := AioNode 0 (arg_ret junk) (tmp junk) false false]} p ∅ [] (ReadRing [] 0).

Section apply_ops.
Context `{Config} `{IoUring} `{StdSort}.

(** [batching_io] *)
Definition batching_io (at_entry : Z) (cur_at_entry_vec : list Z) : Z * list Z :=
  (at_entry, cur_at_entry_vec ++ [at_entry]).

(** The call: [next_node] is still the thread's own. *)
Definition apply_ops (s : aio_struct) (t : nat) (at_entry : Z) : res (option aio_struct) :=
  match threads s !! t with
  | Some (AioThread next_node Idle) =>
      s1 ← store_node s next_node (fun n => AioNode 0 (arg_ret n) (tmp n) true false);
      Ok (Some (set_thread t (AioThread next_node (Prepared at_entry next_node)) s1))
  | _ => Ok None
  end.

(** The next access of thread [t] in its call; [m] is the memory as the
    thread finds it.  A spinning thread stays where it is. *)
Definition thread_step (m : memory) (s : aio_struct) (t : nat) : res (aio_struct * list event) :=
  th ← of_option OutOfRange (threads s !! t);
  let goto pc s := set_thread t (AioThread (st_next th) pc) s in
  match st_pc th with
  | Idle => Ok (s, [])
  | Prepared at_entry next_node =>
      let cur := tail s in
      Ok (goto (Swapped at_entry next_node cur)
            (Aio (nodes s) next_node (threads s) (src_at_entry_vec s) (ring s)), [Enqueued t at_entry])
  | Swapped at_entry next_node cur =>
      s1 ← store_node s cur (set_tmp at_entry); Ok (goto (Stored next_node cur) s1, [])
  | Stored next_node cur =>
      s1 ← store_node s cur (set_next next_node); Ok (set_thread t (AioThread cur (Spin cur)) s1, [])
  | Spin cur =>
      n ← load_node s cur; Ok (if locked n then s else goto (Checking cur) s, [])
  | Checking cur =>
      n ← load_node s cur;
      if completed n then Ok (goto Idle s, [Returned t 0]) else Ok (goto (Lead cur 0) s, [])
  | Lead p counter =>
      n ← load_node s p;
      if negb (next n =? 0) && (counter <? R_QD)%nat then
        let '(a, vec) := batching_io (tmp n) (src_at_entry_vec s) in
        s1 ← store_node s p (set_arg_ret a);
        Ok (goto (Served p (next n) (S counter)) (set_batch vec s1), [])
      else Ok (goto (Polling p counter) s, [])
  | Served p tmp_next counter =>
      s1 ← store_node s p (set_completed true); Ok (goto (Marked p tmp_next counter) s1, [])
  | Marked p tmp_next counter =>
      s1 ← store_node s p (set_locked false); Ok (goto (Lead tmp_next counter) s1, [])
  | Polling p counter =>
      Ok (goto (if pending_ios (ring s) =? 0 then Submitting p counter else Lead p counter) s, [])
  | Submitting p counter =>
      r ← get_val_ccsync m (ring s) (src_at_entry_vec s);
      Ok (goto (Unlocking p counter) (set_batch [] (set_ring r s)), [Submitted (src_at_entry_vec s)])
  | Unlocking p counter =>
      s1 ← store_node s p (set_locked false); Ok (goto Idle s1, [Returned t counter])
  end.

(** The steps of the system: a call, an access of a thread, a completion of
    the ring's reads, a thread that comes and one that goes
    ([aio_thread_state_init], or a call on another queue). *)
Inductive aio_step : aio_struct -> list event -> aio_struct -> Prop :=
  | as_call s t a s' : apply_ops s t a = Ok (Some s') -> aio_step s [] s'
  | as_thread m s t s' ev : thread_step m s t = Ok (s', ev) -> aio_step s ev s'
  | as_complete s v out r : complete_pending_ios v (ring s) = Ok (out, r) -> aio_step s [] (set_ring r s)
  | as_join s t p n : threads s !! t = None -> nodes s !! p = None -> p <> 0 ->
      aio_step s [] (set_thread t (AioThread p Idle) (set_nodes <[p := n]> s))
  | as_leave s t p : threads s !! t = Some (AioThread p Idle) ->
      aio_step s [] (Aio (delete p (nodes s)) (tail s) (delete t (threads s)) (src_at_entry_vec s) (ring s)).

(** Runs, with everything observed so far. *)
Inductive aio_run (s0 : aio_struct) : list event -> aio_struct -> Prop :=
  | ar_start : aio_run s0 [] s0
  | ar_step tr s ev s' : aio_run s0 tr s -> aio_step s ev s' -> aio_run s0 (tr ++ ev) s'.

(** [n] accesses of one thread in a row. *)
Fixpoint thread_steps (m : memory) (n : nat) (s : aio_struct) (t : nat) : res (aio_struct * list event) :=
  match n with
  | O => Ok (s, [])
  | S n' => '(s1, e1) ← thread_step m s t; '(s2, e2) ← thread_steps m n' s1 t; Ok (s2, e1 ++ e2)
  end.

Definition enqueued (tr : list event) : list (nat * Z) :=
  omap (fun e => match e with Enqueued t a => Some (t, a) | _ => None end) tr.
Definition submitted (tr : list event) : list (list Z) :=
  omap (fun e => match e with Submitted b => Some b | _ => None end) tr.

End apply_ops.
