(* ===== verification/AioInvariant.v ===== *)
(** The invariant of the combining queue: which node and which thread stands
    where, and that every step keeps it. *)

From S2P Require Import Prelude Config TaggedPtr Objects IoUring ValueStorage ReadPath AIO.

Local Open Scope Z_scope.

(** A request in the queue: its node, its argument, the thread that waits. *)
Record req := Req { r_node : Z; r_entry : Z; r_thread : nat }.

Definition r_pair (r : req) : nat * Z := (r_thread r, r_entry r).

(** * The books: every request so far is in a batch or waits, in order *)

Definition accounts (tr : list event) (vec : list Z) (waiting : list (nat * Z)) : Prop :=
  exists served, enqueued tr = served ++ waiting /\ served.*2 = concat (submitted tr) ++ vec.

Lemma accounts_enqueue tr vec w t a : accounts tr vec w -> accounts (tr ++ [Enqueued t a]) vec (w ++ [(t, a)]).
Proof.
  intros (sv & He & Hs). exists sv. unfold enqueued, submitted in *. rewrite !omap_app, He. cbn.
  by rewrite app_nil_r, app_assoc.
Qed.

Lemma accounts_serve tr vec t a w : accounts tr vec ((t, a) :: w) -> accounts tr (vec ++ [a]) w.
Proof. intros (sv & He & Hs). exists (sv ++ [(t, a)]). rewrite He, fmap_app, Hs, <- !app_assoc. done. Qed.

Lemma accounts_submit tr vec w : accounts tr vec w -> accounts (tr ++ [Submitted vec]) [] w.
Proof.
  intros (sv & He & Hs). exists sv. unfold enqueued, submitted in *. rewrite !omap_app, He, concat_app. cbn.
  by rewrite !app_nil_r.
Qed.

Lemma accounts_quiet tr ev vec w : enqueued ev = [] -> submitted ev = [] -> accounts tr vec w -> accounts (tr ++ ev) vec w.
Proof.
  intros E1 E2 (sv & He & Hs). exists sv. unfold enqueued, submitted in *. by rewrite !omap_app, E1, E2, !app_nil_r.
Qed.

Section aio_queue.
Implicit Types (s : aio_struct) (r : req) (ch : list req).

Definition node_is s (p : Z) (lk cm : bool) : Prop :=
  exists n, nodes s !! p = Some n /\ locked n = lk /\ completed n = cm.

(** The state of a thread whose request is in the queue, before it is served;
    [p'] is the node the thread put behind its own. *)
Definition wait_pc (pc : aio_pc) (x : Z) (n : aio_node) r (p' : Z) : Prop :=
  match pc with
  | Swapped a nn cur => a = r_entry r /\ nn = p' /\ cur = r_node r /\ next n = 0
  | Stored nn cur => nn = p' /\ cur = r_node r /\ next n = 0 /\ tmp n = r_entry r
  | Spin cur => cur = r_node r /\ x = cur /\ next n = p' /\ tmp n = r_entry r
  | Checking cur => cur = r_node r /\ x = cur /\ next n = p' /\ tmp n = r_entry r /\ locked n = false
  | _ => False
  end.

Definition waits s r (p' : Z) : Prop :=
  exists n x pc, nodes s !! r_node r = Some n /\ threads s !! r_thread r = Some (AioThread x pc) /\ wait_pc pc x n r p'.

(** The queue from node [p] on: every node but the first is locked and not
    completed, and the last one is the tail. *)
Fixpoint queue s (p : Z) ch : Prop :=
  match ch with
  | [] => p = tail s /\ exists n, nodes s !! p = Some n /\ next n = 0
  | r :: ch' => r_node r = p /\ exists p', node_is s p' true false /\ waits s r p' /\ queue s p' ch'
  end.

Definition q_nodes s ch : list Z := (r_node <$> ch) ++ [tail s].

(** ** Changes that the queue does not see *)

Definition agree s s' (ps : list Z) (ts : list nat) : Prop :=
  (forall p, p ∈ ps -> nodes s' !! p = nodes s !! p) /\ (forall t, t ∈ ts -> threads s' !! t = threads s !! t).

Lemma queue_first s p ch : queue s p ch -> p ∈ q_nodes s ch.
Proof. destruct ch as [|r ch]; cbn; [by intros [-> _]; left|]. by intros [<- _]; left. Qed.

Lemma queue_frame s s' p ch : queue s p ch -> tail s' = tail s ->
  agree s s' (q_nodes s ch) (r_thread <$> ch) -> queue s' p ch.
Proof.
  intros Hq Ht. revert p Hq. induction ch as [|r ch IH]; intros p Hq [Hn Hth].
  { destruct Hq as [-> Hx]. split; [by rewrite Ht|]. rewrite Hn; [exact Hx|by left]. }
  destruct Hq as (Hr & p' & (n' & Hn' & Hl) & (n & x & pc & Hnd & Hpc & Hw) & Hq). split; [done|]. exists p'.
  assert (nodes s' !! p' = nodes s !! p') as Ep by (apply Hn; right; by apply queue_first).
  split; [exists n'; by rewrite Ep|]. split.
  - exists n, x, pc. rewrite Hn by (by left). rewrite Hth by (by left). done.
  - apply IH; [done|]. split; [intros; apply Hn; by right|intros; apply Hth; by right].
Qed.

(** A change of the first node that keeps its links. *)
Lemma queue_first_node s s' p ch n n' : queue s p ch -> tail s' = tail s -> NoDup (q_nodes s ch) ->
  nodes s !! p = Some n -> nodes s' !! p = Some n' -> next n' = next n -> tmp n' = tmp n ->
  (locked n = false -> locked n' = false) ->
  agree s s' (filter (fun q => q <> p) (q_nodes s ch)) (r_thread <$> ch) -> queue s' p ch.
Proof.
  intros Hq Ht Hnd Hn Hn' En Et El [Ha Hth]. destruct ch as [|r ch].
  { destruct Hq as [-> (n0 & Hn0 & Hz)]. split; [by rewrite Ht|]. exists n'. split; [done|]. congruence. }
  destruct Hq as (Hr & p' & (n1 & Hn1 & Hl1) & (n0 & x & pc & Hn0 & Hpc & Hw) & Hq).
  assert (n0 = n) as -> by congruence. rewrite Hr in *. cbn in Hnd. rewrite Hr in Hnd. apply NoDup_cons in Hnd as [Hni Hnd].
  assert (forall q, q ∈ q_nodes s ch -> nodes s' !! q = nodes s !! q) as Hrest.
  { intros q Hin. apply Ha, list_elem_of_filter. split; [by intros ->|by right]. }
  split; [done|]. exists p'. split; [exists n1; rewrite Hrest; [done|by apply queue_first]|]. split.
  - exists n', x, pc. rewrite Hr, Hth by (by left). split; [done|]. split; [done|].
    destruct pc; cbn in *; rewrite ?En, ?Et; naive_solver.
  - eapply queue_frame; [done|done|]. split; [done|]. intros t Hin. apply Hth. by right.
Qed.

(** A thread of the queue and the node it got. *)
Lemma queue_waits s p ch r : queue s p ch -> r ∈ ch ->
  exists p', waits s r p' /\ p' ∈ q_nodes s ch /\ (r_node r = p \/ node_is s (r_node r) true false).
Proof.
  revert p. induction ch as [|r0 ch IH]; intros p Hq; [by intros ?%elem_of_nil|].
  destruct Hq as (Hr & p' & Hl & Hw & Hq). intros [->|Hin]%elem_of_cons.
  - exists p'. split; [done|]. split; [right; by apply queue_first|by left].
  - destruct (IH p' Hq Hin) as (p1 & ? & ? & [E|?]); exists p1; (split; [done|]); (split; [by right|]); right; [by rewrite E|done].
Qed.

Lemma queue_node s p ch q : queue s p ch -> q ∈ q_nodes s ch -> exists n, nodes s !! q = Some n.
Proof.
  revert p. induction ch as [|r ch IH]; intros p Hq; cbn.
  - intros [->|?%elem_of_nil]%elem_of_cons; [|done]. destruct Hq as [-> (n & ? & _)]. by exists n.
  - destruct Hq as (_ & p' & _ & (n & ? & ? & ? & _) & Hq). intros [->|Hin]%elem_of_cons; [by exists n|by eapply IH].
Qed.

(** A step of one of the waiting threads. *)
Lemma queue_progress s s' p ch r n n' : queue s p ch -> tail s' = tail s -> NoDup (q_nodes s ch) -> NoDup (r_thread <$> ch) ->
  r ∈ ch -> (forall p', waits s r p' -> waits s' r p') ->
  nodes s !! r_node r = Some n -> nodes s' !! r_node r = Some n' -> locked n' = locked n -> completed n' = completed n ->
  agree s s' (filter (fun q => q <> r_node r) (q_nodes s ch)) (filter (fun t => t <> r_thread r) (r_thread <$> ch)) ->
  queue s' p ch.
Proof.
  intros Hq Ht Hnd Hndt Hin Hw Hn Hn' El Ec. revert p Hq Hnd Hndt Hin.
  induction ch as [|r0 ch IH]; intros p Hq Hnd Hndt Hin [Ha Hth]; [by apply elem_of_nil in Hin|].
  destruct Hq as (Hr & p' & (n1 & Hn1 & Hl1) & Hw0 & Hq). cbn in Hnd, Hndt.
  apply NoDup_cons in Hnd as [Hni Hnd]. apply NoDup_cons in Hndt as [Hti Hndt].
  assert (node_is s' p' true false) as Hp'.
  { destruct (decide (p' = r_node r)) as [->|Hne].
    - exists n'. split; [done|]. rewrite El, Ec. by replace n with n1 by congruence.
    - exists n1. split; [|done]. rewrite Ha; [done|]. apply list_elem_of_filter. split; [done|]. right. by apply queue_first. }
  split; [done|]. exists p'. split; [done|]. apply elem_of_cons in Hin as [<-|Hin].
  - split; [by apply Hw|]. eapply queue_frame; [done|done|]. split.
    + intros q Hq'. apply Ha, list_elem_of_filter. split; [by intros ->|by right].
    + intros t Ht'. apply Hth, list_elem_of_filter. split; [by intros ->|by right].
  - assert (r_node r ∈ q_nodes s ch) as Hrn by (apply elem_of_app; left; by apply list_elem_of_fmap_2).
    assert (r_thread r ∈ r_thread <$> ch) as Hrt by (by apply list_elem_of_fmap_2). split.
    + destruct Hw0 as (n0 & x & pc & ? & ? & ?). exists n0, x, pc. rewrite Ha, Hth; [done| |].
      * apply list_elem_of_filter. split; [by intros E; rewrite E in Hti|by left].
      * apply list_elem_of_filter. split; [by intros E; rewrite E in Hni|by left].
    + apply IH; [done..|]. split.
      * intros q [? ?]%list_elem_of_filter. apply Ha, list_elem_of_filter. split; [done|by right].
      * intros t [? ?]%list_elem_of_filter. apply Hth, list_elem_of_filter. split; [done|by right].
Qed.

(** A node swapped in at the tail. *)
Lemma queue_snoc s s' p ch t a x nn : queue s p ch ->
  agree s s' (q_nodes s ch) (r_thread <$> ch) -> tail s' = nn ->
  threads s' !! t = Some (AioThread x (Swapped a nn (tail s))) ->
  node_is s' nn true false -> (exists n, nodes s' !! nn = Some n /\ next n = 0) ->
  queue s' p (ch ++ [Req (tail s) a t]).
Proof.
  intros Hq [Hn Hth] Htl Ht Hnn Hz. revert p Hq. induction ch as [|r ch IH]; intros p Hq; cbn [app].
  { destruct Hq as [-> (n & Hp & Hn0)]. split; [done|]. exists nn. split; [done|]. split; [|by split].
    exists n, x, (Swapped a nn (tail s)). rewrite Hn by (by left). done. }
  destruct Hq as (Hr & p' & (n1 & Hn1 & Hl1) & (n0 & x0 & pc & ? & ? & ?) & Hq). split; [done|]. exists p'.
  split; [exists n1; rewrite Hn; [done|right; by apply queue_first]|]. split.
  - exists n0, x0, pc. rewrite Hn, Hth by (by left). done.
  - apply IH; [|intros; apply Hth; by right|done]. intros; apply Hn; by right.
Qed.
End aio_queue.

(** * The leader *)

Section aio_inv.
Context `{Config} `{IoUring} `{StdSort}.
Implicit Types (s : aio_struct) (r : req) (ch : list req).

(** Who leads ([ld]), the request the leader is dealing with ([pre], whose node
    is in front of [p]), which of it is not in the batch yet, and how far the
    batch is. *)
Inductive leading s : option nat -> option req -> list (nat * Z) -> Z -> Prop :=
  | l_free p : src_at_entry_vec s = [] -> leading s None None [] p
  | l_own r n p :
      threads s !! r_thread r = Some (AioThread (r_node r) (Lead (r_node r) 0)) ->
      nodes s !! r_node r = Some n -> next n = p -> tmp n = r_entry r -> locked n = false -> completed n = false ->
      src_at_entry_vec s = [] ->
      leading s (Some (r_thread r)) (Some r) [r_pair r] p
  | l_serve L x r n k p pc :
      threads s !! L = Some (AioThread x pc) -> nodes s !! r_node r = Some n -> next n = p ->
      (pc = Served (r_node r) p k /\ completed n = false \/ pc = Marked (r_node r) p k /\ completed n = true) ->
      (k = 1%nat /\ r_thread r = L /\ x = r_node r /\ locked n = false \/
       r_thread r <> L /\ threads s !! r_thread r = Some (AioThread (r_node r) (Spin (r_node r))) /\ locked n = true) ->
      length (src_at_entry_vec s) = k -> (0 < k <= R_QD)%nat ->
      leading s (Some L) (Some r) [] p
  | l_help L x k p pc :
      threads s !! L = Some (AioThread x pc) ->
      (pc = Lead p k \/ pc = Polling p k \/ pc = Submitting p k /\ pending_ios (ring s) = 0) ->
      length (src_at_entry_vec s) = k -> (0 < k <= R_QD)%nat ->
      leading s (Some L) None [] p
  | l_unlock L x k p :
      threads s !! L = Some (AioThread x (Unlocking p k)) -> src_at_entry_vec s = [] ->
      leading s (Some L) None [] p.

(** A thread outside of the queue, and its node. *)
Definition private_pc (pc : aio_pc) (x : Z) (n : aio_node) (is_leader : Prop) : Prop :=
  match pc with
  | Idle => True
  | Prepared _ nn => nn = x /\ next n = 0 /\ locked n = true /\ completed n = false
  | Spin c | Checking c => c = x /\ locked n = false /\ completed n = true
  | Swapped _ _ _ | Stored _ _ => False
  | _ => is_leader
  end.

(** The invariant. [q] is the queue: the request the leader deals with, and
    the others from [p] on. *)
Record aio_ok (tr : list event) s (ld : option nat) (pre : option req) (w : list (nat * Z)) (p : Z) ch := {
  ao_queue : queue s p ch;
  ao_front : node_is s p (bool_decide (is_Some ld)) false;
  ao_lead : leading s ld pre w p;
  ao_nodes : NoDup (q_nodes s (option_list pre ++ ch));
  ao_zero : nodes s !! 0 = None;
  ao_threads : NoDup (r_thread <$> option_list pre ++ ch);
  ao_leader : forall L, ld = Some L -> L ∉ r_thread <$> ch;
  ao_private : forall t x pc, threads s !! t = Some (AioThread x pc) -> t ∉ r_thread <$> option_list pre ++ ch ->
    x ∉ q_nodes s (option_list pre ++ ch) /\ exists n, nodes s !! x = Some n /\ private_pc pc x n (ld = Some t);
  ao_distinct : forall t1 t2 x pc1 pc2, t1 <> t2 ->
    threads s !! t1 = Some (AioThread x pc1) -> threads s !! t2 = Some (AioThread x pc2) ->
    t1 ∈ r_thread <$> option_list pre ++ ch \/ t2 ∈ r_thread <$> option_list pre ++ ch;
  ao_ring : pending_ios (ring s) = Z.of_nat (length (rr_flight (ring s)));
  ao_trace : accounts tr (src_at_entry_vec s) (w ++ (r_pair <$> ch));
  ao_batches : Forall (fun b => (0 < length b <= R_QD)%nat) (submitted tr) }.


(** ** Steps that leave the roles as they are *)

Lemma private_pc_mono pc x n (A B : Prop) : (A -> B) -> private_pc pc x n A -> private_pc pc x n B.
Proof. destruct pc; cbn; tauto. Qed.

Definition others_same {A} (f g : gmap nat A) (t : nat) : Prop := forall t', t' <> t -> f !! t' = g !! t'.

Lemma same_node (ts : gmap nat aio_thread) L x pc0 pc1 t y pc : ts !! L = Some (AioThread x pc0) ->
  <[L := AioThread x pc1]> ts !! t = Some (AioThread y pc) -> exists pc', ts !! t = Some (AioThread y pc').
Proof.
  intros HL E. destruct (decide (t = L)) as [->|Hne]; [|rewrite lookup_insert_ne in E by done; by exists pc].
  rewrite lookup_insert_eq in E. injection E as <- <-. by eexists.
Qed.

Lemma not_in_queue t (pre : option req) ch : t ∉ r_thread <$> option_list pre ++ ch ->
  t ∉ r_thread <$> ch /\ forall r, pre = Some r -> r_thread r <> t.
Proof. rewrite fmap_app, not_elem_of_app. intros [Hp Hc]. split; [done|]. intros r -> <-. apply Hp. by left. Qed.

Lemma pre_in_queue r ch : r_node r ∈ r_node <$> option_list (Some r) ++ ch.
Proof. by left. Qed.

Lemma leading_frame s s' ld pre w p :
  leading s ld pre w p -> src_at_entry_vec s' = src_at_entry_vec s -> ring s' = ring s ->
  (forall L, ld = Some L -> threads s' !! L = threads s !! L) ->
  (forall r, pre = Some r -> threads s' !! r_thread r = threads s !! r_thread r /\ nodes s' !! r_node r = nodes s !! r_node r) ->
  leading s' ld pre w p.
Proof.
  intros Hl Ev Er HL Hpre. destruct Hl as [p Hv|r n p Ht Hn|L x r n k p pc Ht Hn ? ? Ho|L x k p pc Ht|L x k p Ht].
  - apply l_free. congruence.
  - destruct (Hpre r eq_refl) as [E1 E2]. eapply l_own; rewrite ?E1, ?E2, ?Ev; done.
  - destruct (Hpre r eq_refl) as [E1 E2]. eapply l_serve; rewrite ?E1, ?E2, ?Ev, ?(HL L) by done; done.
  - eapply l_help; rewrite ?(HL L), ?Ev, ?Er by done; done.
  - eapply l_unlock; rewrite ?(HL L), ?Ev by done; done.
Qed.

Lemma leading_pre_node s ld r w p : leading s ld (Some r) w p -> exists n, nodes s !! r_node r = Some n.
Proof. inversion 1; subst; by eexists. Qed.

Lemma q_nodes_app s (pre : option req) ch : q_nodes s (option_list pre ++ ch) = (r_node <$> option_list pre) ++ q_nodes s ch.
Proof. unfold q_nodes. by rewrite fmap_app, app_assoc. Qed.

Lemma q_nodes_tail s s' ch : tail s' = tail s -> q_nodes s' ch = q_nodes s ch.
Proof. unfold q_nodes. by intros ->. Qed.

(** A step of a thread outside of the queue that does not lead, on its own node. *)
Lemma quiet_step tr s s' ld pre w p ch t x : aio_ok tr s ld pre w p ch ->
  t ∉ r_thread <$> option_list pre ++ ch -> ld <> Some t ->
  others_same (threads s') (threads s) t -> (forall y, y <> x -> nodes s' !! y = nodes s !! y) ->
  x <> 0 -> x ∉ q_nodes s (option_list pre ++ ch) ->
  (forall t' pc', t' <> t -> threads s !! t' = Some (AioThread x pc') -> t' ∈ r_thread <$> option_list pre ++ ch) ->
  tail s' = tail s -> src_at_entry_vec s' = src_at_entry_vec s -> ring s' = ring s ->
  (forall x' pc', threads s' !! t = Some (AioThread x' pc') -> x' = x /\ exists n, nodes s' !! x = Some n /\ private_pc pc' x n False) ->
  aio_ok tr s' ld pre w p ch.
Proof.
  intros [Hq Hf Hl Hn Hz Ht Hlt Hp Hd Hr Htr Hb] Htn Hld Hth Hnd Hx0 Hxq Hxo Etl Ev Er Hnew.
  destruct (not_in_queue _ _ _ Htn) as [Htc Htp].
  assert (forall y, y ∈ q_nodes s (option_list pre ++ ch) -> nodes s' !! y = nodes s !! y) as Hqn
    by (intros y Hy; apply Hnd; by intros ->).
  assert (forall y, y ∈ q_nodes s ch -> nodes s' !! y = nodes s !! y) as Hqc
    by (intros y Hy; apply Hqn; rewrite q_nodes_app; apply elem_of_app; by right).
  assert (forall t', t' ∈ r_thread <$> option_list pre ++ ch -> threads s' !! t' = threads s !! t') as Hqt
    by (intros t' Hin; apply Hth; by intros ->).
  split.
  - eapply queue_frame; [done|done|]. split; [done|]. intros t' Hin. apply Hth. by intros ->.
  - destruct Hf as (n & ? & ?). exists n. rewrite Hqc by (by apply queue_first). done.
  - eapply leading_frame; [done..| |].
    + intros L ->. apply Hth. congruence.
    + intros r ->. split; [apply Hqt; by left|apply Hqn; by left].
  - by rewrite (q_nodes_tail s s').
  - by rewrite Hnd.
  - done.
  - done.
  - intros t' x' pc' Ht' Hin. rewrite (q_nodes_tail s s') by done. destruct (decide (t' = t)) as [->|Hne].
    + destruct (Hnew _ _ Ht') as [-> (n & ? & Hpc)]. split; [done|]. exists n. split; [done|]. by eapply private_pc_mono; [|exact Hpc].
    + rewrite Hth in Ht' by done. destruct (Hp _ _ _ Ht' Hin) as [Hni (n & ? & ?)]. split; [done|]. exists n.
      split; [|done]. rewrite Hnd; [done|]. intros ->. by destruct (Hin (Hxo _ _ Hne Ht')).
  - intros t1 t2 y pc1 pc2 Hne E1 E2. destruct (decide (t1 = t)) as [->|Ne1].
    + rewrite Hth in E2 by done. destruct (Hnew _ _ E1) as [-> _]. right. by eapply Hxo.
    + rewrite Hth in E1 by done. destruct (decide (t2 = t)) as [->|Ne2].
      * destruct (Hnew _ _ E2) as [-> _]. left. by eapply Hxo.
      * rewrite Hth in E2 by done. by eapply Hd.
  - by rewrite Er.
  - by rewrite Ev.
  - done.
Qed.

(** A step of a waiting thread on the node it got. *)
Lemma waiting_step tr s s' ld pre w p ch r n n' : aio_ok tr s ld pre w p ch -> r ∈ ch ->
  (forall p', waits s r p' -> waits s' r p') ->
  nodes s !! r_node r = Some n -> nodes s' = <[r_node r := n']> (nodes s) -> locked n' = locked n -> completed n' = completed n ->
  others_same (threads s') (threads s) (r_thread r) ->
  tail s' = tail s -> src_at_entry_vec s' = src_at_entry_vec s -> ring s' = ring s ->
  aio_ok tr s' ld pre w p ch.
Proof.
  intros [Hq Hf Hl Hn Hz Ht Hlt Hp Hd Hr Htr Hb] Hin Hw Hnr En El Ec Hth Etl Ev Er.
  assert (r_thread r ∈ r_thread <$> ch) as Hrt by (by apply list_elem_of_fmap_2).
  assert (r_node r ∈ q_nodes s ch) as Hrn by (apply elem_of_app; left; by apply list_elem_of_fmap_2).
  pose proof Hn as Hn0. rewrite q_nodes_app in Hn0. apply NoDup_app in Hn0 as (_ & Hnp & Hnc).
  pose proof Ht as Ht0. rewrite fmap_app in Ht0. apply NoDup_app in Ht0 as (_ & Htp & Htc).
  assert (forall y, y <> r_node r -> nodes s' !! y = nodes s !! y) as Hnd by (intros y Hy; by rewrite En, lookup_insert_ne).
  split.
  - eapply queue_progress; [done..|by rewrite En, lookup_insert_eq|done|done|]. split.
    + intros y [Hy _]%list_elem_of_filter. by apply Hnd.
    + intros t [Hy _]%list_elem_of_filter. by apply Hth.
  - destruct Hf as (nf & Hf & Hl1 & Hc1). destruct (decide (p = r_node r)) as [->|Hne].
    + exists n'. rewrite En, lookup_insert_eq, El, Ec. by replace n with nf by congruence.
    + exists nf. by rewrite Hnd.
  - eapply leading_frame; [done..| |].
    + intros L ->. apply Hth. intros ->. by apply (Hlt (r_thread r)).
    + intros r0 ->. split; [apply Hth; intros E; apply (Htp (r_thread r0)); [by left|by rewrite E]|].
      apply Hnd. intros E. apply (Hnp (r_node r0)); [by left|by rewrite E].
  - by rewrite (q_nodes_tail s s').
  - rewrite Hnd; [done|]. intros E. congruence.
  - done.
  - done.
  - intros t x pc Htx Hni. rewrite (q_nodes_tail s s') by done. rewrite Hth in Htx
      by (intros ->; apply Hni; rewrite fmap_app; apply elem_of_app; by right).
    destruct (Hp _ _ _ Htx Hni) as [Hx (nx & ? & ?)]. split; [done|]. exists nx. rewrite Hnd; [done|].
    intros ->. apply Hx. rewrite q_nodes_app. apply elem_of_app. by right.
  - intros t1 t2 y pc1 pc2 Hne E1 E2. rewrite !fmap_app, !elem_of_app.
    destruct (decide (t1 = r_thread r)) as [->|Ne1]; [left; by right|].
    destruct (decide (t2 = r_thread r)) as [->|Ne2]; [right; by right|].
    rewrite Hth in E1, E2 by done. rewrite <- !elem_of_app, <- !fmap_app. by eapply Hd.
  - by rewrite Er.
  - by rewrite Ev.
  - done.
Qed.

(** A step of the leader that changes at most the node it deals with. *)
Lemma leader_step tr tr' s s' L pre w w' p ch x pc pc' : aio_ok tr s (Some L) pre w p ch ->
  threads s !! L = Some (AioThread x pc) -> threads s' = <[L := AioThread x pc']> (threads s) ->
  (forall n, private_pc pc' x n (Some L = Some L)) ->
  (forall y, (forall r, pre = Some r -> y <> r_node r) -> nodes s' !! y = nodes s !! y) ->
  tail s' = tail s -> leading s' (Some L) pre w' p ->
  pending_ios (ring s') = Z.of_nat (length (rr_flight (ring s'))) ->
  accounts tr' (src_at_entry_vec s') (w' ++ (r_pair <$> ch)) ->
  Forall (fun b => (0 < length b <= R_QD)%nat) (submitted tr') ->
  aio_ok tr' s' (Some L) pre w' p ch.
Proof.
  intros [Hq Hf Hl Hn Hz Ht Hlt Hp Hd Hr Htr Hb] HL Eth Hpc Hnd Etl Hl' Hr' Htr' Hb'.
  pose proof Hn as Hn0. rewrite q_nodes_app in Hn0. apply NoDup_app in Hn0 as (_ & Hnp & _).
  assert (forall y, y ∈ q_nodes s ch -> nodes s' !! y = nodes s !! y) as Hqc.
  { intros y Hy. apply Hnd. intros r -> ->. apply (Hnp (r_node r)); [by left|done]. }
  assert (forall t, t <> L -> threads s' !! t = threads s !! t) as Hth by (intros t Hne; by rewrite Eth, lookup_insert_ne).
  assert (forall y, y ∉ q_nodes s (option_list pre ++ ch) -> nodes s' !! y = nodes s !! y) as Hout.
  { intros y Hy. apply Hnd. intros r -> ->. apply Hy. by left. }
  assert (forall t y pc0, threads s' !! t = Some (AioThread y pc0) -> exists pc1, threads s !! t = Some (AioThread y pc1)) as Hold.
  { intros t y pc0 E. rewrite Eth in E. by eapply same_node. }
  split; try done.
  - eapply queue_frame; [done|done|]. split; [done|]. intros t Hin. apply Hth. intros ->. by apply (Hlt L).
  - destruct Hf as (n & ? & ?). exists n. rewrite Hqc by (by apply queue_first). done.
  - by rewrite (q_nodes_tail s s').
  - rewrite Hnd; [done|]. intros r -> E. destruct (leading_pre_node _ _ _ _ _ Hl) as [n Hpn]. congruence.
  - intros t y pc0 E Hni. rewrite (q_nodes_tail s s') by done. destruct (Hold _ _ _ E) as [pc1 E1].
    destruct (Hp _ _ _ E1 Hni) as [Hx (n & En & Hpr)]. split; [done|]. exists n. rewrite Hout by done. split; [done|].
    rewrite Eth in E. destruct (decide (t = L)) as [->|Hne].
    + rewrite lookup_insert_eq in E. injection E as <- <-. apply Hpc.
    + rewrite lookup_insert_ne in E by done. by replace pc0 with pc1 by congruence.
  - intros t1 t2 y pc1 pc2 Hne E1 E2. destruct (Hold _ _ _ E1), (Hold _ _ _ E2). by eapply Hd.
Qed.
End aio_inv.
