(* ===== verification/AioSteps.v ===== *)
(** Every step of the combining queue keeps its invariant. *)

From S2P Require Import Prelude Config TaggedPtr Objects IoUring ValueStorage ReadPath AIO AioInvariant.

Local Open Scope Z_scope.

Section aio_steps.
Context `{Config} `{IoUring} `{StdSort} `{!WfConfig _} `{!IoUringOk _}.
Implicit Types (s : aio_struct) (r : req) (ch : list req).

(** The invariant with its parameters hidden. *)
Definition aio_inv (tr : list event) s : Prop := exists ld pre w p ch, aio_ok tr s ld pre w p ch.

Definition leads (pc : aio_pc) : bool :=
  match pc with Lead _ _ | Served _ _ _ | Marked _ _ _ | Polling _ _ | Submitting _ _ | Unlocking _ _ => true | _ => false end.

(** ** Roles *)

Lemma thread_role tr s ld pre w p ch t : aio_ok tr s ld pre w p ch ->
  t ∉ r_thread <$> option_list pre ++ ch \/ (exists r, r ∈ ch /\ r_thread r = t) \/ (exists r, pre = Some r /\ r_thread r = t).
Proof.
  intros _. destruct (decide (t ∈ r_thread <$> option_list pre ++ ch)) as [Hin|]; [right|by left].
  rewrite fmap_app in Hin. apply elem_of_app in Hin as [Hin|Hin].
  - destruct pre as [r|]; [|by apply elem_of_nil in Hin]. apply list_elem_of_singleton in Hin as ->. right. by exists r.
  - apply list_elem_of_fmap in Hin as (r & -> & Hin). left. by exists r.
Qed.

Lemma leading_pc s ld pre w p t x pc : leading s ld pre w p -> threads s !! t = Some (AioThread x pc) ->
  (ld = Some t -> leads pc = true) /\ (forall r, pre = Some r -> r_thread r = t -> ld = Some t \/ pc = Spin (r_node r)).
Proof.
  intros Hl E. inversion Hl as [|r n ? Et|L y r n k ? pc0 Et ? ? Hpc Ho|L y k ? pc0 Et Hpc|L y k ? Et]; subst.
  - by split.
  - split; [intros [= <-]; rewrite Et in E; by injection E as <- <-|]. intros r0 [= <-] <-. by left.
  - split.
    + intros [= ->]. rewrite Et in E. injection E as <- <-. by destruct Hpc as [[-> _]|[-> _]].
    + intros r0 [= <-] <-. destruct Ho as [(_ & -> & _)|(_ & Hs & _)]; [by left|]. right. rewrite Hs in E. by injection E as <- <-.
  - split; [intros [= ->]; rewrite Et in E; injection E as <- <-; by destruct Hpc as [->|[->|[-> _]]]|done].
  - split; [intros [= ->]; rewrite Et in E; by injection E as <- <-|done].
Qed.

(** A thread in the leading part of the code is the leader. *)
Lemma leads_leader tr s ld pre w p ch t x pc : aio_ok tr s ld pre w p ch ->
  threads s !! t = Some (AioThread x pc) -> leads pc = true -> ld = Some t.
Proof.
  intros Hi E Hpc. destruct (thread_role _ _ _ _ _ _ _ t Hi) as [Hn|[(r & Hin & <-)|(r & -> & <-)]].
  - destruct (ao_private _ _ _ _ _ _ _ Hi _ _ _ E Hn) as (_ & n & _ & Hpr). by destruct pc.
  - destruct (queue_waits _ _ _ _ (ao_queue _ _ _ _ _ _ _ Hi) Hin) as (p' & (n & y & pc' & _ & E' & Hw) & _).
    rewrite E' in E. injection E as <- <-. by destruct pc'.
  - destruct (proj2 (leading_pc _ _ _ _ _ _ _ _ (ao_lead _ _ _ _ _ _ _ Hi) E) r eq_refl eq_refl) as [Hd|Hd]; [done|by rewrite Hd in Hpc].
Qed.

(** A thread outside of the leading part is private, waits, or is being served. *)
Lemma not_leads tr s ld pre w p ch t x pc : aio_ok tr s ld pre w p ch ->
  threads s !! t = Some (AioThread x pc) -> leads pc = false ->
  ld <> Some t /\
  ((t ∉ r_thread <$> option_list pre ++ ch /\ x ∉ q_nodes s (option_list pre ++ ch) /\ x <> 0 /\
    exists n, nodes s !! x = Some n /\ private_pc pc x n False) \/
   (exists r p' n, r ∈ ch /\ r_thread r = t /\ nodes s !! r_node r = Some n /\ wait_pc pc x n r p' /\
      (r_node r = p \/ node_is s (r_node r) true false)) \/
   (exists r cm, pre = Some r /\ pc = Spin (r_node r) /\ node_is s (r_node r) true cm)).
Proof.
  intros Hi E Hpc. pose proof (ao_lead _ _ _ _ _ _ _ Hi) as Hl.
  assert (ld <> Some t) as Hld.
  { intros ->. destruct (leading_pc _ _ _ _ _ _ _ _ Hl E) as [Hc _]. rewrite Hc in Hpc; done. }
  split; [done|]. destruct (thread_role _ _ _ _ _ _ _ t Hi) as [Hn|[(r & Hin & <-)|(r & -> & <-)]].
  - left. destruct (ao_private _ _ _ _ _ _ _ Hi _ _ _ E Hn) as (Hx & n & En & Hpr). split; [done|]. split; [done|].
    split; [intros ->; pose proof (ao_zero _ _ _ _ _ _ _ Hi); congruence|]. exists n. split; [done|]. by eapply private_pc_mono; [|exact Hpr].
  - right; left. destruct (queue_waits _ _ _ _ (ao_queue _ _ _ _ _ _ _ Hi) Hin) as (p' & (n & y & pc' & En & E' & Hw) & _ & Hc).
    rewrite E' in E. injection E as <- <-. by exists r, p', n.
  - right; right. inversion Hl as [|r0 n0 ? Et|L y r0 n k ? pc0 Et En ? Hp0 Ho| |]; subst.
    + by destruct Hld.
    + destruct Ho as [(_ & Eo & _)|(_ & Hs & Hk)]; [by destruct Hld; rewrite Eo|]. rewrite Hs in E. injection E as <- <-.
      exists r, (completed n). split; [done|]. split; [done|]. by exists n.
Qed.

Lemma private_alone tr s ld pre w p ch t x pc : aio_ok tr s ld pre w p ch ->
  threads s !! t = Some (AioThread x pc) -> t ∉ r_thread <$> option_list pre ++ ch ->
  forall t' pc', t' <> t -> threads s !! t' = Some (AioThread x pc') -> t' ∈ r_thread <$> option_list pre ++ ch.
Proof.
  intros Hi E Hn t' pc' Hne E'. by destruct (ao_distinct _ _ _ _ _ _ _ Hi _ _ _ _ _ Hne E' E) as [|].
Qed.

(** Events that are neither requests nor batches. *)
Lemma aio_inv_quiet tr ev s : enqueued ev = [] /\ submitted ev = [] -> aio_inv tr s -> aio_inv (tr ++ ev) s.
Proof.
  intros [He Hs] (ld & pre & w & p & ch & [? ? ? ? ? ? ? ? ? ? Htr Hb]). exists ld, pre, w, p, ch. split; try done.
  - by apply accounts_quiet.
  - unfold submitted in *. by rewrite omap_app, Hs, app_nil_r.
Qed.

(** ** Calls, arrivals and departures *)

Lemma call_inv tr s t a s' : aio_inv tr s -> apply_ops s t a = Ok (Some s') -> aio_inv tr s'.
Proof.
  intros (ld & pre & w & p & ch & Hi) E. unfold apply_ops in E.
  destruct (threads s !! t) as [[x pc]|] eqn:Et; [|done]. destruct pc; try done.
  destruct (not_leads _ _ _ _ _ _ _ _ _ _ Hi Et eq_refl) as [Hld [(Hn & Hx & H0x & n & En & _)|Hno]].
  2: { destruct Hno as [(r & p' & n & _ & _ & _ & [] & _)|(r & cm & _ & ? & _)]; done. }
  unfold store_node, load_node in E. rewrite En in E. cbn in E. injection E as <-.
  exists ld, pre, w, p, ch. eapply (quiet_step _ _ _ _ _ _ _ _ t x); [exact Hi|done|done| | |done|done| |done|done|done|]; cbn.
  - intros t' Hne. by rewrite lookup_insert_ne.
  - intros y Hne. by rewrite lookup_insert_ne.
  - by eapply private_alone.
  - rewrite lookup_insert_eq. intros x' pc' [= <- <-]. split; [done|]. rewrite lookup_insert_eq. by eexists.
Qed.

Lemma join_inv tr s t x n : aio_inv tr s -> threads s !! t = None -> nodes s !! x = None -> x <> 0 ->
  aio_inv tr (set_thread t (AioThread x Idle) (set_nodes <[x := n]> s)).
Proof.
  intros (ld & pre & w & p & ch & Hi) Et Ex Hx0. exists ld, pre, w, p, ch.
  assert (t ∉ r_thread <$> option_list pre ++ ch /\ ld <> Some t) as [Hn Hld].
  { pose proof (ao_lead _ _ _ _ _ _ _ Hi) as Hl. split.
    - destruct (thread_role _ _ _ _ _ _ _ t Hi) as [Hn|[(r & Hin & <-)|(r & -> & <-)]]; [done|exfalso..].
      + destruct (queue_waits _ _ _ _ (ao_queue _ _ _ _ _ _ _ Hi) Hin) as (p' & (? & ? & ? & ? & ? & _) & _). congruence.
      + inversion Hl as [| ? ? ? ?|L y r0 n0 k ? pc0 ? ? ? ? Ho| |]; subst; [congruence|].
        destruct Ho as [(_ & <- & _)|(_ & ? & _)]; congruence.
    - intros ->. inversion Hl; subst; congruence. }
  assert (x ∉ q_nodes s (option_list pre ++ ch)) as Hxq.
  { intros Hin. rewrite q_nodes_app in Hin. apply elem_of_app in Hin as [Hin|Hin].
    - destruct pre as [r|]; [|by apply elem_of_nil in Hin]. apply list_elem_of_singleton in Hin as ->.
      destruct (leading_pre_node _ _ _ _ _ (ao_lead _ _ _ _ _ _ _ Hi)). congruence.
    - by destruct (queue_node _ _ _ _ (ao_queue _ _ _ _ _ _ _ Hi) Hin) as [? ?]; congruence. }
  eapply (quiet_step _ _ _ _ _ _ _ _ t x); [exact Hi|done|done| | |done|done| |done|done|done|]; cbn.
  - intros t' Hne. by rewrite lookup_insert_ne.
  - intros y Hne. by rewrite lookup_insert_ne.
  - intros t' pc' Hne E'. destruct (decide (t' ∈ r_thread <$> option_list pre ++ ch)) as [|Hni]; [done|].
    destruct (ao_private _ _ _ _ _ _ _ Hi _ _ _ E' Hni) as (_ & ? & ? & _). congruence.
  - rewrite lookup_insert_eq. intros x' pc' [= <- <-]. split; [done|]. rewrite lookup_insert_eq. by eexists.
Qed.

Lemma leave_inv tr s t x : aio_inv tr s -> threads s !! t = Some (AioThread x Idle) ->
  aio_inv tr (Aio (delete x (nodes s)) (tail s) (delete t (threads s)) (src_at_entry_vec s) (ring s)).
Proof.
  intros (ld & pre & w & p & ch & Hi) Et.
  destruct (not_leads _ _ _ _ _ _ _ _ _ _ Hi Et eq_refl) as [Hld [(Hn & Hx & H0x & n & En & _)|Hno]].
  2: { destruct Hno as [(r & p' & n & _ & _ & _ & [] & _)|(r & cm & _ & ? & _)]; done. }
  exists ld, pre, w, p, ch. eapply (quiet_step _ _ _ _ _ _ _ _ t x); [exact Hi|done|done| | |done|done| |done|done|done|]; cbn.
  - intros t' Hne. by rewrite lookup_delete_ne.
  - intros y Hne. by rewrite lookup_delete_ne.
  - by eapply private_alone.
  - by rewrite lookup_delete_eq.
Qed.

(** ** Steps of a call until it waits *)

Lemma swap_inv m tr s t x a nn s' ev : aio_inv tr s -> threads s !! t = Some (AioThread x (Prepared a nn)) ->
  thread_step m s t = Ok (s', ev) -> aio_inv (tr ++ ev) s'.
Proof.
  intros (ld & pre & w & p & ch & Hi) Et E. unfold thread_step in E. rewrite Et in E. cbn in E. injection E as <- <-.
  destruct (not_leads _ _ _ _ _ _ _ _ _ _ Hi Et eq_refl) as [Hld [(Hn & Hx & H0x & n & En & -> & Hnx & Hlk & Hcm)|Hno]].
  2: { destruct Hno as [(r & p' & n & _ & _ & _ & [] & _)|(r & cm & _ & ? & _)]; done. }
  pose proof (private_alone _ _ _ _ _ _ _ _ _ _ Hi Et Hn) as Halone.
  destruct Hi as [Hq Hf Hl Hnd Hz Ht Hlt Hp Hd Hr Htr Hb]. destruct (not_in_queue _ _ _ Hn) as [Hnc Hnp].
  set (r := Req (tail s) a t). exists ld, pre, w, p, (ch ++ [r]).
  assert (forall t', t' <> t -> forall th, <[t := th]> (threads s) !! t' = threads s !! t') as Hth
    by (intros; by rewrite lookup_insert_ne).
  split; cbn.
  - eapply (queue_snoc s _ _ _ t a x x); [done|split; [done|]|done|by cbn; rewrite lookup_insert_eq|by exists n|by exists n].
    intros t' Hin. cbn. rewrite lookup_insert_ne; [done|]. by intros ->.
  - exact Hf.
  - eapply leading_frame; [done..| |]; cbn.
    + intros L ->. rewrite lookup_insert_ne; [done|]. by intros ->.
    + intros r0 ->. split; [|done]. rewrite lookup_insert_ne; [done|]. intros ->. by eapply Hnp.
  - unfold q_nodes in *. cbn. rewrite app_assoc, fmap_app. cbn [fmap list_fmap r_node r].
    apply NoDup_app. split; [done|]. split; [|apply NoDup_singleton].
    intros y Hy ->%list_elem_of_singleton. by apply Hx.
  - done.
  - rewrite app_assoc, fmap_app. apply NoDup_app. split; [done|]. split; [|apply NoDup_singleton].
    intros y Hy ->%list_elem_of_singleton. done.
  - intros L HL. rewrite fmap_app, not_elem_of_app. split; [by apply Hlt|]. intros ->%list_elem_of_singleton. done.
  - intros t' y pc E' Hni. rewrite app_assoc, fmap_app, not_elem_of_app in Hni. destruct Hni as [Hni Hne].
    assert (t' <> t) as Hne' by (intros ->; apply Hne; by left). rewrite Hth in E' by done.
    destruct (Hp _ _ _ E' Hni) as [Hy Hex]. split; [|done]. unfold q_nodes in *. cbn. rewrite app_assoc, fmap_app. cbn.
    rewrite not_elem_of_app. split; [done|]. intros ->%list_elem_of_singleton. by apply Hni, (Halone t' pc).
  - intros t1 t2 y pc1 pc2 Hne E1 E2. rewrite !app_assoc, !fmap_app, !elem_of_app.
    destruct (decide (t1 = t)) as [->|Ne1]; [left; right; by left|].
    destruct (decide (t2 = t)) as [->|Ne2]; [right; right; by left|].
    rewrite Hth in E1, E2 by done. destruct (Hd _ _ _ _ _ Hne E1 E2) as [Hi|Hi]; rewrite fmap_app, elem_of_app in Hi; tauto.
  - done.
  - rewrite fmap_app, app_assoc. by apply accounts_enqueue.
  - unfold submitted in *. rewrite omap_app. cbn. by rewrite app_nil_r.
Qed.

(** The thread of a waiting request goes on. *)
Lemma link_inv m tr s t x pc s' ev : aio_inv tr s -> threads s !! t = Some (AioThread x pc) ->
  (exists a nn cur, pc = Swapped a nn cur) \/ (exists nn cur, pc = Stored nn cur) ->
  thread_step m s t = Ok (s', ev) -> aio_inv (tr ++ ev) s'.
Proof.
  intros (ld & pre & w & p & ch & Hi) Et Hpc E. exists ld, pre, w, p, ch.
  assert (leads pc = false) as Hnl by (by destruct Hpc as [(? & ? & ? & ->)|(? & ? & ->)]).
  destruct (not_leads _ _ _ _ _ _ _ _ _ _ Hi Et Hnl) as [_ [(_ & _ & _ & n & _ & Hpr)|[(r & p0 & n & Hin & <- & En & Hw & _)|(r & cm & _ & -> & _)]]].
  { by destruct Hpc as [(? & ? & ? & ->)|(? & ? & ->)]. }
  2: { by destruct Hpc as [(? & ? & ? & ?)|(? & ? & ?)]. }
  unfold thread_step in E. rewrite Et in E. cbn in E. unfold store_node, load_node in E.
  destruct Hpc as [(a & nn & cur & ->)|(nn & cur & ->)]; cbn in Hw.
  - destruct Hw as (-> & -> & -> & Hz). rewrite En in E. cbn in E. injection E as <- <-. rewrite app_nil_r.
    eapply (waiting_step _ s _ _ _ _ _ _ r n); [done|done| |done|done|done|done| |done|done|done]; cbn.
    + intros p' (n1 & y & pc1 & En1 & Et1 & Hw1). rewrite Et in Et1. injection Et1 as <- <-. destruct Hw1 as (_ & <- & _ & _).
      eexists _, _, _. cbn. rewrite !lookup_insert_eq. split; [done|]. split; [done|]. by cbn.
    + intros t' Hne. by rewrite lookup_insert_ne.
  - destruct Hw as (-> & -> & Hz & Htm). rewrite En in E. cbn in E. injection E as <- <-. rewrite app_nil_r.
    eapply (waiting_step _ s _ _ _ _ _ _ r n); [done|done| |done|done|done|done| |done|done|done]; cbn.
    + intros p' (n1 & y & pc1 & En1 & Et1 & Hw1). rewrite Et in Et1. injection Et1 as <- <-. destruct Hw1 as (<- & _ & _ & _).
      eexists _, _, _. cbn. rewrite !lookup_insert_eq. split; [done|]. split; [done|]. by cbn.
    + intros t' Hne. by rewrite lookup_insert_ne.
Qed.

Lemma spin_inv m tr s t x cur s' ev : aio_inv tr s -> threads s !! t = Some (AioThread x (Spin cur)) ->
  thread_step m s t = Ok (s', ev) -> aio_inv (tr ++ ev) s'.
Proof.
  intros (ld & pre & w & p & ch & Hi) Et E. exists ld, pre, w, p, ch. unfold thread_step in E. rewrite Et in E. cbn in E.
  unfold load_node in E.
  destruct (not_leads _ _ _ _ _ _ _ _ _ _ Hi Et eq_refl)
    as [Hld [(Hn & Hx & H0x & n & En & -> & Hlk & Hcm)|[(r & p0 & n & Hin & <- & En & (-> & -> & Hnx & Htm) & _)|(r & cm & -> & [= ->] & n & En & Hlk & _)]]].
  - rewrite En in E. cbn in E. rewrite Hlk in E. injection E as <- <-. rewrite app_nil_r.
    eapply (quiet_step _ _ _ _ _ _ _ _ t x); [exact Hi|done|done| |done|done|done| |done|done|done|]; cbn.
    + intros t' Hne. by rewrite lookup_insert_ne.
    + by eapply private_alone.
    + rewrite lookup_insert_eq. intros x' pc' [= <- <-]. split; [done|]. by exists n.
  - rewrite En in E. cbn in E. destruct (locked n) eqn:Hlk; injection E as <- <-; rewrite app_nil_r; [done|].
    eapply (waiting_step _ s _ _ _ _ _ _ r n n); [done|done| |done| |done|done| |done|done|done]; cbn.
    + intros p' (n1 & y & pc1 & En1 & Et1 & Hw1). rewrite Et in Et1. injection Et1 as <- <-. destruct Hw1 as (_ & _ & Hnx1 & _).
      exists n, (r_node r), (Checking (r_node r)). cbn. rewrite lookup_insert_eq. split; [done|]. split; [done|]. cbn.
      replace n1 with n in * by congruence. done.
    + by rewrite insert_id.
    + intros t' Hne. by rewrite lookup_insert_ne.
  - rewrite En in E. cbn in E. rewrite Hlk in E. injection E as <- <-. by rewrite app_nil_r.
Qed.

(** ** Taking the lead *)

(** The first node's thread, when nobody leads, finds its node unlocked. *)
Lemma lead_inv tr s pre w p ch r x n : aio_ok tr s None pre w p ch -> r ∈ ch -> r_node r = p ->
  nodes s !! p = Some n -> threads s !! r_thread r = Some (AioThread x (Checking p)) ->
  aio_inv tr (set_thread (r_thread r) (AioThread x (Lead p 0)) s).
Proof.
  intros [Hq Hf Hl Hnd Hz Ht Hlt Hp Hd Hr Htr Hb] Hin Hrp En Et.
  inversion Hl as [? Hv| | | |]; subst pre w. cbn [option_list app] in *.
  destruct ch as [|r0 ch]; [by apply elem_of_nil in Hin|].
  destruct Hq as (Hr0 & p' & Hp' & (n0 & x0 & pc0 & En0 & Et0 & Hw) & Hq).
  assert (r0 = r) as ->.
  { apply elem_of_cons in Hin as [->|Hin]; [done|]. exfalso. unfold q_nodes in Hnd. cbn in Hnd. apply NoDup_cons in Hnd as [Hnd _].
    apply Hnd, elem_of_app. left. rewrite Hr0, <- Hrp. by apply list_elem_of_fmap_2. }
  rewrite Et in Et0. injection Et0 as <- <-. rewrite Hrp in En0. assert (n0 = n) as -> by congruence.
  destruct Hw as (_ & -> & Hnx & Htm & Hlk). destruct Hf as (n1 & En1 & _ & Hcm). assert (n1 = n) as -> by congruence.
  apply NoDup_cons in Hnd as Hnd'. cbn in Ht. apply NoDup_cons in Ht as Ht'. rewrite Hrp in *.
  assert (forall t, t <> r_thread r -> forall th, <[r_thread r := th]> (threads s) !! t = threads s !! t) as Hth
    by (intros; by rewrite lookup_insert_ne).
  exists (Some (r_thread r)), (Some r), [r_pair r], p', ch. split; cbn; try done.
  - eapply queue_frame; [done|done|]. split; [done|]. intros t Hi. cbn. apply Hth. intros ->. by apply Ht'.
  - rewrite <- Hrp. eapply (l_own _ r n); cbn; rewrite ?Hrp, ?lookup_insert_eq; done.
  - intros L [= <-]. apply Ht'.
  - intros t y pc E Hni. rewrite Hth in E by (intros ->; apply Hni; by left). destruct (Hp _ _ _ E Hni) as [Hy (ny & Eny & Hpr)].
    split; [done|]. exists ny. split; [done|]. by eapply private_pc_mono; [|exact Hpr].
  - intros t1 t2 y pc1 pc2 Hne E1 E2. destruct (decide (t1 = r_thread r)) as [->|Ne1]; [left; by left|].
    destruct (decide (t2 = r_thread r)) as [->|Ne2]; [right; by left|].
    rewrite Hth in E1, E2 by done. by eapply Hd.
Qed.

Lemma checking_inv m tr s t x cur s' ev : aio_inv tr s -> threads s !! t = Some (AioThread x (Checking cur)) ->
  thread_step m s t = Ok (s', ev) -> aio_inv (tr ++ ev) s'.
Proof.
  intros (ld & pre & w & p & ch & Hi) Et E. unfold thread_step in E. rewrite Et in E. cbn in E. unfold load_node in E.
  destruct (not_leads _ _ _ _ _ _ _ _ _ _ Hi Et eq_refl)
    as [Hld [(Hn & Hx & H0x & n & En & -> & Hlk & Hcm)|[(r & p0 & n & Hin & <- & En & (-> & -> & Hnx & Htm & Hlk) & Hc)|(r & cm & _ & ? & _)]]]; [| |done].
  - rewrite En in E. cbn in E. rewrite Hcm in E. injection E as <- <-. apply aio_inv_quiet; [done|].
    exists ld, pre, w, p, ch. eapply (quiet_step _ _ _ _ _ _ _ _ t x); [exact Hi|done|done| |done|done|done| |done|done|done|]; cbn.
    + intros t' Hne. by rewrite lookup_insert_ne.
    + by eapply private_alone.
    + rewrite lookup_insert_eq. intros x' pc' [= <- <-]. split; [done|]. by exists n.
  - destruct Hc as [Hp|(n' & En' & Hl' & _)]; [|congruence].
    pose proof (ao_front _ _ _ _ _ _ _ Hi) as (n' & En' & Hl' & Hc'). rewrite <- Hp, En in En'. injection En' as <-.
    rewrite En in E. cbn in E. rewrite Hc' in E. injection E as <- <-. rewrite app_nil_r.
    destruct ld as [L|]; [by rewrite Hl' in Hlk|]. rewrite Hp in *. by eapply lead_inv.
Qed.
End aio_steps.
