(* ===== verification/AioLeader.v ===== *)
(** The steps of the leader of the combining queue, and what all runs have in
    common. *)

From S2P Require Import Prelude Config TaggedPtr Objects IoUring ValueStorage ReadPath AIO AioInvariant AioSteps.

Local Open Scope Z_scope.

Section aio_leader.
Context `{Config} `{IoUring} `{StdSort} `{!WfConfig _} `{!IoUringOk _}.
Implicit Types (s : aio_struct) (r : req) (ch : list req).

#[local] Arguments Nat.ltb : simpl never.
#[local] Arguments get_val_ccsync : simpl never.

Lemma queue_depth_pos : (0 < R_QD)%nat.
Proof. destruct wf_r_qd as [k ->]. apply Nat.neq_0_lt_0, Nat.pow_nonzero. lia. Qed.

Lemma front_nonzero tr s ld pre w p ch : aio_ok tr s ld pre w p ch -> p <> 0.
Proof. intros Hi ->. destruct (ao_front _ _ _ _ _ _ _ Hi) as (n & E & _). pose proof (ao_zero _ _ _ _ _ _ _ Hi). congruence. Qed.

(** The leader puts its own request into the batch. *)
Lemma own_inv m tr s r p ch x s' ev : aio_ok tr s (Some (r_thread r)) (Some r) [r_pair r] p ch ->
  leading s (Some (r_thread r)) (Some r) [r_pair r] p -> threads s !! r_thread r = Some (AioThread x (Lead (r_node r) 0)) ->
  thread_step m s (r_thread r) = Ok (s', ev) -> aio_inv (tr ++ ev) s'.
Proof.
  intros Hi Hl Et E. pose proof (front_nonzero _ _ _ _ _ _ _ Hi) as Hp0. pose proof queue_depth_pos as Hq.
  inversion Hl as [|? n ? Et' En Enx Etm Elk Ecm Ev| | |]; subst.
  rewrite Et in Et'. injection Et' as ->. unfold thread_step, store_node, load_node in E. rewrite Et in E. cbn in E. rewrite En in E. cbn in E.
  rewrite (proj2 (Z.eqb_neq _ 0) Hp0), (proj2 (Nat.ltb_lt 0 R_QD) Hq) in E. cbn in E. injection E as <- <-. rewrite app_nil_r.
  exists (Some (r_thread r)), (Some r), [], (next n), ch.
  eapply leader_step; [exact Hi|exact Et|done|done| |done| |exact (ao_ring _ _ _ _ _ _ _ Hi)| |exact (ao_batches _ _ _ _ _ _ _ Hi)]; cbn.
  - intros y Hy. rewrite lookup_insert_ne; [done|]. by apply not_eq_sym, Hy.
  - eapply (l_serve _ _ _ _ (set_arg_ret (tmp n) n) 1); cbn; rewrite ?lookup_insert_eq, ?Ev; try done; [by left|by left|lia].
  - rewrite Etm. apply (accounts_serve _ _ (r_thread r)). exact (ao_trace _ _ _ _ _ _ _ Hi).
Qed.

(** The served node is marked as completed. *)
Lemma mark_inv m tr s L r p ch x k s' ev : aio_ok tr s (Some L) (Some r) [] p ch ->
  threads s !! L = Some (AioThread x (Served (r_node r) p k)) ->
  thread_step m s L = Ok (s', ev) -> aio_inv (tr ++ ev) s'.
Proof.
  intros Hi Et E. pose proof (ao_lead _ _ _ _ _ _ _ Hi) as Hl.
  inversion Hl as [| |? x' ? n k' ? pc Et' En Enx Hpc Ho Hv Hk| |]; subst.
  rewrite Et in Et'. injection Et' as <- <-. destruct Hpc as [[[= ->] Hc]|[? _]]; [|done].
  unfold thread_step, store_node, load_node in E. rewrite Et in E. cbn in E. rewrite En in E. cbn in E. injection E as <- <-. rewrite app_nil_r.
  exists (Some L), (Some r), [], (next n), ch.
  eapply leader_step; [exact Hi|exact Et|done|done| |done| |exact (ao_ring _ _ _ _ _ _ _ Hi)|exact (ao_trace _ _ _ _ _ _ _ Hi)|exact (ao_batches _ _ _ _ _ _ _ Hi)]; cbn.
  - intros y Hy. rewrite lookup_insert_ne; [done|]. by apply not_eq_sym, Hy.
  - eapply (l_serve _ _ _ _ (set_completed true n)); cbn; rewrite ?lookup_insert_eq; try done; [by right|].
    destruct Ho as [?|(Hne & Hs & Hlk)]; [by left|right]. rewrite lookup_insert_ne by done. done.
Qed.

(** The served node is unlocked; its thread has left the queue. *)
Lemma release_inv m tr s L r p ch x k s' ev : aio_ok tr s (Some L) (Some r) [] p ch ->
  threads s !! L = Some (AioThread x (Marked (r_node r) p k)) ->
  thread_step m s L = Ok (s', ev) -> aio_inv (tr ++ ev) s'.
Proof.
  intros [Hq Hf Hl Hnd Hz Ht Hlt Hp Hd Hr Htr Hb] Et E.
  inversion Hl as [| |? x' ? n k' ? pc Et' En Enx Hpc Ho Hv Hk| |]; subst.
  rewrite Et in Et'. injection Et' as <- <-. destruct Hpc as [[? _]|[[= ->] Hc]]; [done|].
  unfold thread_step, store_node, load_node in E. rewrite Et in E. cbn in E. rewrite En in E. cbn in E. injection E as <- <-. rewrite app_nil_r.
  unfold q_nodes in Hnd. cbn in Hnd, Ht. apply NoDup_cons in Hnd as [Hnr Hnd], Ht as [Htr' Ht].
  assert (forall t, t <> L -> forall th, <[L := th]> (threads s) !! t = threads s !! t) as Hth by (intros; by rewrite lookup_insert_ne).
  assert (forall y, y <> r_node r -> forall nd, <[r_node r := nd]> (nodes s) !! y = nodes s !! y) as Hno by (intros; by rewrite lookup_insert_ne).
  assert (forall t y pc, <[L := AioThread x (Lead (next n) (length (src_at_entry_vec s)))]> (threads s) !! t = Some (AioThread y pc) ->
            exists pc', threads s !! t = Some (AioThread y pc')) as Hold.
  { intros t y pc E. by eapply same_node. }
  (* the released thread has the released node *)
  assert (forall y pc, threads s !! r_thread r = Some (AioThread y pc) -> y = r_node r) as Hrel.
  { intros y pc E. destruct Ho as [(_ & <- & -> & _)|(_ & Es & _)]; [rewrite Et in E|rewrite Es in E]; by injection E as <- <-. }
  exists (Some L), None, [], (next n), ch. split; cbn; try done.
  - eapply queue_frame; [done|done|]. split; cbn.
    + intros y Hy. apply Hno. intros ->. by apply Hnr.
    + intros t Hin. apply Hth. intros ->. by apply (Hlt L).
  - destruct Hf as (nf & Ef & ?). exists nf. cbn. rewrite Hno; [done|]. intros Eq. apply Hnr. rewrite <- Eq. by apply queue_first.
  - eapply (l_help _ _ x (length (src_at_entry_vec s))); cbn; [by rewrite lookup_insert_eq|by left|done|done].
  - rewrite Hno; [done|]. intros Eq. congruence.
  - intros t y pc E Hni. destruct (decide (t = r_thread r)) as [->|Hne].
    + destruct (Hold _ _ _ E) as [pc0 E0]. pose proof (Hrel _ _ E0) as ->. split; [done|].
      exists (set_locked false n). rewrite lookup_insert_eq. split; [done|].
      destruct Ho as [(_ & <- & -> & _)|(HneL & Es & _)].
      * rewrite lookup_insert_eq in E. by injection E as <-.
      * rewrite Hth in E by done. rewrite Es in E. by injection E as <-.
    + destruct (Hold _ _ _ E) as [pc0 E0]. assert (t ∉ r_thread <$> r :: ch) as Hni' by (cbn; by rewrite not_elem_of_cons).
      destruct (Hp _ _ _ E0 Hni') as [Hy (ny & Eny & Hpr)]. unfold q_nodes in Hy. cbn in Hy. rewrite not_elem_of_cons in Hy. destruct Hy as [Hy1 Hy2].
      split; [done|]. exists ny. rewrite Hno by done. split; [done|]. destruct (decide (t = L)) as [->|HneL].
      * rewrite lookup_insert_eq in E. by injection E as <- <-.
      * rewrite Hth in E by done. by replace pc with pc0 by congruence.
  - intros t1 t2 y pc1 pc2 Hne E1 E2. destruct (Hold _ _ _ E1) as [pc1' E1'], (Hold _ _ _ E2) as [pc2' E2'].
    destruct (Hd _ _ _ _ _ Hne E1' E2') as [Hin|Hin]; cbn in Hin; apply elem_of_cons in Hin as [->|Hin]; [|by left| |by right].
    + pose proof (Hrel _ _ E1') as ->. destruct (decide (t2 ∈ r_thread <$> ch)) as [|Hni]; [by right|exfalso].
      destruct (Hp _ _ _ E2') as [Hy _]; [cbn; by rewrite not_elem_of_cons|]. apply Hy. by left.
    + pose proof (Hrel _ _ E2') as ->. destruct (decide (t1 ∈ r_thread <$> ch)) as [|Hni]; [by left|exfalso].
      destruct (Hp _ _ _ E1') as [Hy _]; [cbn; by rewrite not_elem_of_cons|]. apply Hy. by left.
Qed.

(** The leader puts the next request into the batch. *)
Lemma take_inv tr s L p ch x k n : aio_ok tr s (Some L) None [] p ch ->
  threads s !! L = Some (AioThread x (Lead p k)) -> length (src_at_entry_vec s) = k -> (k < R_QD)%nat ->
  nodes s !! p = Some n -> next n <> 0 ->
  aio_inv tr (set_thread L (AioThread x (Served p (next n) (S k)))
                (set_batch (src_at_entry_vec s ++ [tmp n]) (set_nodes <[p := set_arg_ret (tmp n) n]> s))).
Proof.
  intros [Hq Hf Hl Hnd Hz Ht Hlt Hp Hd Hr Htr Hb] Et Hk Hlt' En Hnx. cbn [option_list app] in *.
  destruct ch as [|r ch]; [destruct Hq as [_ (n' & En' & ?)]; congruence|].
  destruct Hq as (<- & p' & Hp' & (n' & y & pc & En' & Er & Hw) & Hq). assert (n' = n) as -> by congruence.
  destruct Hf as (n' & En'' & Hlk & Hcm). assert (n' = n) as -> by congruence. rewrite bool_decide_true in Hlk by done.
  assert (pc = Spin (r_node r) /\ y = r_node r /\ next n = p' /\ tmp n = r_entry r) as (-> & -> & <- & Htm).
  { destruct pc; cbn in Hw; try done; destruct Hw as (? & ? & Hw); [by destruct Hw|by destruct Hw|by subst|].
    destruct Hw as (_ & _ & Hw). congruence. }
  pose proof Hnd as Hnd0. unfold q_nodes in Hnd0. cbn in Hnd0, Ht. apply NoDup_cons in Hnd0 as [Hnr _]. apply NoDup_cons in Ht as Ht'.
  assert (r_thread r <> L) as HrL by (intros Eq; rewrite Eq in *; congruence).
  assert (forall t, t <> L -> forall th, <[L := th]> (threads s) !! t = threads s !! t) as Hth by (intros; by rewrite lookup_insert_ne).
  assert (forall z, z <> r_node r -> forall nd, <[r_node r := nd]> (nodes s) !! z = nodes s !! z) as Hno by (intros; by rewrite lookup_insert_ne).
  assert (L ∉ r_thread <$> r :: ch) as HL by (by apply Hlt).
  exists (Some L), (Some r), [], (next n), ch. split; cbn; try done.
  - eapply queue_frame; [done|done|]. split; cbn.
    + intros z Hz'. apply Hno. intros ->. by apply Hnr.
    + intros t Hin. apply Hth. intros ->. apply HL. by right.
  - destruct Hp' as (nf & Ef & ?). exists nf. cbn. rewrite Hno; [done|]. intros Eq. apply Hnr. rewrite <- Eq. by apply queue_first.
  - eapply (l_serve _ L x r (set_arg_ret (tmp n) n) (S k)); cbn; rewrite ?lookup_insert_eq; try done; [by left| |rewrite length_app; cbn; lia|lia].
    right. rewrite Hth by done. done.
  - rewrite Hno; [done|]. intros Eq. congruence.
  - intros L0 [= <-] Hin. apply HL. by right.
  - intros t z pc E Hni. destruct (decide (t = L)) as [->|Hne].
    + rewrite lookup_insert_eq in E. injection E as <- <-. destruct (Hp _ _ _ Et Hni) as [Hx (nx & Enx & _)]. split; [done|].
      exists nx. rewrite Hno; [done|]. intros ->. apply Hx. by left.
    + rewrite Hth in E by done. destruct (Hp _ _ _ E Hni) as [Hx (nx & Enx & Hpr)]. split; [done|].
      exists nx. rewrite Hno; [done|]. intros ->. apply Hx. by left.
  - intros t1 t2 z pc1 pc2 Hne E1 E2.
    destruct (same_node _ _ _ _ _ _ _ _ Et E1), (same_node _ _ _ _ _ _ _ _ Et E2). by eapply Hd.
  - rewrite Htm. by apply (accounts_serve _ _ (r_thread r)).
Qed.

(** The leader has the batch submitted: the next node's thread may lead. *)
Lemma unlock_inv tr s L p ch x k n : aio_ok tr s (Some L) None [] p ch ->
  threads s !! L = Some (AioThread x (Unlocking p k)) -> src_at_entry_vec s = [] -> nodes s !! p = Some n ->
  aio_inv tr (set_thread L (AioThread x Idle) (set_nodes <[p := set_locked false n]> s)).
Proof.
  intros [Hq Hf Hl Hnd Hz Ht Hlt Hp Hd Hr Htr Hb] Et Hv En. cbn [option_list app] in *.
  assert (L ∉ r_thread <$> ch) as HL by (by apply Hlt).
  assert (forall t, t <> L -> forall th, <[L := th]> (threads s) !! t = threads s !! t) as Hth by (intros; by rewrite lookup_insert_ne).
  assert (p ∈ q_nodes s ch) as Hpq by (by apply queue_first).
  exists None, None, [], p, ch. split; cbn; try done.
  - eapply (queue_first_node s _ _ _ n (set_locked false n)); [done|done|done|done|by cbn; rewrite lookup_insert_eq|done|done|done|].
    split; cbn; [intros y [Hy _]%list_elem_of_filter; by rewrite lookup_insert_ne|]. intros t Hin. apply Hth. by intros ->.
  - destruct Hf as (n' & En' & _ & Hc). exists (set_locked false n). cbn. rewrite lookup_insert_eq. by replace n with n' by congruence.
  - by apply l_free.
  - rewrite lookup_insert_ne; [done|]. intros ->. congruence.
  - intros t y pc E Hni. destruct (same_node _ _ _ _ _ _ _ _ Et E) as [pc' E'].
    destruct (Hp _ _ _ E' Hni) as [Hy (ny & Eny & Hpr)]. split; [done|]. exists ny.
    split; [rewrite lookup_insert_ne; [done|]; intros ->; by apply Hy|].
    destruct (decide (t = L)) as [->|Hne]; [rewrite lookup_insert_eq in E; by injection E as <- <-|].
    rewrite Hth in E by done. replace pc with pc' by congruence. eapply private_pc_mono; [|exact Hpr]. congruence.
  - intros t1 t2 y pc1 pc2 Hne E1 E2.
    destruct (same_node _ _ _ _ _ _ _ _ Et E1), (same_node _ _ _ _ _ _ _ _ Et E2). by eapply Hd.
Qed.

(** A batch submitted on an idle ring. *)
Lemma submit_ring m rg vec rg' : pending_ios rg = 0 -> pending_ios rg = Z.of_nat (length (rr_flight rg)) ->
  get_val_ccsync m rg vec = Ok rg' -> pending_ios rg' = Z.of_nat (length (rr_flight rg')).
Proof.
  intros Hp Hl E. destruct rg as [fl pd]. cbn in *. subst pd. destruct fl; [|done].
  unfold get_val_ccsync in E. apply bind_ok in E as (reqs & _ & E). unfold submit_vals in E. cbn in E.
  destruct (_ =? 0); [by injection E as <-|]. destruct (negb _); [done|]. by injection E as <-.
Qed.

Lemma complete_ring_idle v rg out rg' : pending_ios rg = Z.of_nat (length (rr_flight rg)) ->
  complete_pending_ios v rg = Ok (out, rg') -> rg' = ReadRing [] 0.
Proof.
  intros Hl E. destruct (complete_ring v rg _ CT_LOOKUP [] (conj Hl eq_refl)) as (cqs & _ & Hc).
  unfold complete_pending_ios in E. rewrite Hc in E. cbn in E. by injection E as _ <-.
Qed.

(** What the leader's position says of its role. *)
Lemma leading_at s t pre w p x pc : leading s (Some t) pre w p -> threads s !! t = Some (AioThread x pc) ->
  match pc with
  | Lead q k => k = 0%nat /\ (exists r, pre = Some r /\ t = r_thread r /\ q = r_node r /\ w = [r_pair r]) \/
                pre = None /\ w = [] /\ q = p /\ length (src_at_entry_vec s) = k /\ (0 < k <= R_QD)%nat
  | Served q p' k | Marked q p' k => exists r, pre = Some r /\ w = [] /\ q = r_node r /\ p' = p
  | Polling q k => pre = None /\ w = [] /\ q = p /\ length (src_at_entry_vec s) = k /\ (0 < k <= R_QD)%nat
  | Submitting q k => pre = None /\ w = [] /\ q = p /\ length (src_at_entry_vec s) = k /\ (0 < k <= R_QD)%nat /\ pending_ios (ring s) = 0
  | Unlocking q k => pre = None /\ w = [] /\ q = p /\ src_at_entry_vec s = []
  | _ => False
  end.
Proof.
  intros Hl Et.
  inversion Hl as [|r n ? Et'|? x' r n k ? pc0 Et' ? ? Hpc|? x' k ? pc0 Et' Hpc|? x' k ? Et']; subst; rewrite Et in Et'; injection Et' as -> ->.
  - left. split; [done|]. by exists r.
  - destruct Hpc as [[-> _]|[-> _]]; by exists r.
  - destruct Hpc as [->|[->|[-> ?]]]; [by right|done|done].
  - done.
Qed.

Lemma poll_inv m tr s t x p k s' ev : aio_inv tr s -> threads s !! t = Some (AioThread x (Polling p k)) ->
  thread_step m s t = Ok (s', ev) -> aio_inv (tr ++ ev) s'.
Proof.
  intros (ld & pre & w & p0 & ch & Hi) Et E. pose proof (leads_leader _ _ _ _ _ _ _ _ _ _ Hi Et eq_refl) as ->.
  unfold thread_step in E. rewrite Et in E. cbn in E. injection E as <- <-. rewrite app_nil_r.
  destruct (leading_at _ _ _ _ _ _ _ (ao_lead _ _ _ _ _ _ _ Hi) Et) as (-> & -> & <- & Hv & Hk).
  exists (Some t), None, [], p, ch.
  eapply leader_step; [exact Hi|exact Et|reflexivity|by intros; case_match|done|done| |exact (ao_ring _ _ _ _ _ _ _ Hi)|exact (ao_trace _ _ _ _ _ _ _ Hi)|exact (ao_batches _ _ _ _ _ _ _ Hi)].
  eapply l_help; cbn; [by rewrite lookup_insert_eq| |done|done].
  destruct (pending_ios (ring s) =? 0) eqn:Ep; [|by left]. right; right. split; [done|]. by apply Z.eqb_eq.
Qed.

Lemma submit_inv m tr s t x p k s' ev : aio_inv tr s -> threads s !! t = Some (AioThread x (Submitting p k)) ->
  thread_step m s t = Ok (s', ev) -> aio_inv (tr ++ ev) s'.
Proof.
  intros (ld & pre & w & p0 & ch & Hi) Et E. pose proof (leads_leader _ _ _ _ _ _ _ _ _ _ Hi Et eq_refl) as ->.
  unfold thread_step in E. rewrite Et in E. cbn [of_option mbind res_bind st_pc st_next] in E. apply bind_ok in E as (rg & Eg & E).
  injection E as <- <-. destruct (leading_at _ _ _ _ _ _ _ (ao_lead _ _ _ _ _ _ _ Hi) Et) as (-> & -> & <- & Hv & Hk & Hpend).
  exists (Some t), None, [], p, ch.
  eapply leader_step; [exact Hi|exact Et|reflexivity|done|done|done| | | |]; cbn.
  - eapply l_unlock; cbn; [by rewrite lookup_insert_eq|done].
  - eapply submit_ring; [done|exact (ao_ring _ _ _ _ _ _ _ Hi)|done].
  - apply accounts_submit. exact (ao_trace _ _ _ _ _ _ _ Hi).
  - unfold submitted. rewrite omap_app. cbn. apply Forall_app. split; [exact (ao_batches _ _ _ _ _ _ _ Hi)|]. constructor; [lia|done].
Qed.

Lemma lead_step_inv m tr s t x p k s' ev : aio_inv tr s -> threads s !! t = Some (AioThread x (Lead p k)) ->
  thread_step m s t = Ok (s', ev) -> aio_inv (tr ++ ev) s'.
Proof.
  intros (ld & pre & w & p0 & ch & Hi) Et E. pose proof (leads_leader _ _ _ _ _ _ _ _ _ _ Hi Et eq_refl) as ->.
  pose proof (ao_lead _ _ _ _ _ _ _ Hi) as Hl.
  destruct (leading_at _ _ _ _ _ _ _ Hl Et) as [(-> & r & -> & -> & -> & ->)|(-> & -> & <- & Hv & Hk)].
  { by eapply own_inv. }
  destruct (ao_front _ _ _ _ _ _ _ Hi) as (n & En & _ & _).
  unfold thread_step, store_node, load_node in E. rewrite Et in E. cbn in E. rewrite En in E. cbn in E.
  destruct (negb (next n =? 0) && _) eqn:Ec.
  - cbn in E. injection E as <- <-. apply andb_true_iff in Ec as [Ez%negb_true_iff%Z.eqb_neq Ek%Nat.ltb_lt].
    rewrite app_nil_r. by eapply take_inv.
  - injection E as <- <-. rewrite app_nil_r. exists (Some t), None, [], p, ch.
    eapply leader_step; [exact Hi|exact Et|reflexivity|done|done|done| |exact (ao_ring _ _ _ _ _ _ _ Hi)|exact (ao_trace _ _ _ _ _ _ _ Hi)|exact (ao_batches _ _ _ _ _ _ _ Hi)].
    eapply l_help; cbn; [by rewrite lookup_insert_eq|right; by left|done|done].
Qed.

(** ** All steps *)

Lemma thread_step_inv m tr s t s' ev : aio_inv tr s -> thread_step m s t = Ok (s', ev) -> aio_inv (tr ++ ev) s'.
Proof.
  intros Hi E. destruct (threads s !! t) as [[x pc]|] eqn:Et; [|unfold thread_step in E; by rewrite Et in E].
  assert (leads pc = true -> exists pre w p ch, aio_ok tr s (Some t) pre w p ch /\ leading s (Some t) pre w p) as Hlead.
  { intros Hpc. destruct Hi as (ld & pre & w & p0 & ch & Hi). pose proof (leads_leader _ _ _ _ _ _ _ _ _ _ Hi Et Hpc) as ->.
    exists pre, w, p0, ch. split; [done|exact (ao_lead _ _ _ _ _ _ _ Hi)]. }
  destruct pc as [|a nn|a nn cur|nn cur|cur|cur|p k|p q k|p q k|p k|p k|p k].
  - unfold thread_step in E. rewrite Et in E. cbn in E. injection E as <- <-. by rewrite app_nil_r.
  - by eapply swap_inv.
  - eapply link_inv; [done..| |done]. left. by eexists _, _, _.
  - eapply link_inv; [done..| |done]. right. by eexists _, _.
  - by eapply spin_inv.
  - by eapply checking_inv.
  - by eapply lead_step_inv.
  - destruct (Hlead eq_refl) as (pre & w & p0 & ch & Ho & Hl).
    destruct (leading_at _ _ _ _ _ _ _ Hl Et) as (r & -> & -> & -> & ->). by eapply mark_inv.
  - destruct (Hlead eq_refl) as (pre & w & p0 & ch & Ho & Hl).
    destruct (leading_at _ _ _ _ _ _ _ Hl Et) as (r & -> & -> & -> & ->). by eapply release_inv.
  - by eapply poll_inv.
  - by eapply submit_inv.
  - destruct (Hlead eq_refl) as (pre & w & p0 & ch & Ho & Hl).
    destruct (leading_at _ _ _ _ _ _ _ Hl Et) as (-> & -> & -> & Hv).
    destruct (ao_front _ _ _ _ _ _ _ Ho) as (n & En & _ & _).
    unfold thread_step, store_node, load_node in E. rewrite Et in E. cbn in E. rewrite En in E. cbn in E. injection E as <- <-.
    apply aio_inv_quiet; [done|]. by eapply unlock_inv.
Qed.

Lemma leading_idle s ld pre w p : leading s ld pre w p -> leading (set_ring (ReadRing [] 0) s) ld pre w p.
Proof.
  intros [? Hv|r n ? ? ? ? ? ? ? ?|L x r n k ? pc ? ? ? ? Ho ? ?|L x k ? pc ? Hpc ? ?|L x k ? ? ?].
  - by apply l_free.
  - by apply (l_own _ _ n).
  - by apply (l_serve _ _ x _ n k _ pc).
  - apply (l_help _ _ x k _ pc); [done| |done|done]. destruct Hpc as [?|[?|[? _]]]; [by left|right; by left|right; by right].
  - by apply (l_unlock _ _ x k).
Qed.

Lemma step_inv tr s ev s' : aio_inv tr s -> aio_step s ev s' -> aio_inv (tr ++ ev) s'.
Proof.
  intros Hi Hs. destruct Hs as [s t a s' E|m s t s' ev E|s v out rg E|s t p n Et En Hp|s t p Et]; rewrite ?app_nil_r.
  - by eapply call_inv.
  - by eapply thread_step_inv.
  - destruct Hi as (ld & pre & w & p & ch & [Hq Hf Hl ? ? ? ? ? ? Hr ? ?]).
    apply complete_ring_idle in E as ->; [|done]. exists ld, pre, w, p, ch. split; try done.
    + by eapply queue_frame.
    + by apply leading_idle.
  - by apply join_inv.
  - by eapply leave_inv.
Qed.

Lemma init_inv p junk : p <> 0 -> aio_inv [] (aio_struct_init p junk).
Proof.
  intros Hp. exists None, None, [], p, []. split; cbn; try done.
  - split; [done|]. eexists. by rewrite lookup_singleton_eq.
  - eexists. cbn. by rewrite lookup_singleton_eq.
  - by apply l_free.
  - apply NoDup_singleton.
  - by rewrite lookup_singleton_ne.
  - constructor.
  - by exists [].
Qed.

Lemma run_inv p junk tr s : p <> 0 -> aio_run (aio_struct_init p junk) tr s -> aio_inv tr s.
Proof. intros Hp. induction 1 as [|tr s ev s' _ IH Hs]; [by apply init_inv|by eapply step_inv]. Qed.

(** * What the queue promises *)

Lemma waiting_thread tr s ld pre w p ch t : aio_ok tr s ld pre w p ch -> t ∈ (w ++ (r_pair <$> ch)).*1 ->
  exists x pc, threads s !! t = Some (AioThread x pc) /\ pc <> Idle.
Proof.
  intros Hi. rewrite fmap_app, elem_of_app. intros [Hw|Hin].
  - pose proof (ao_lead _ _ _ _ _ _ _ Hi) as Hl. inversion Hl; subst; try (by apply elem_of_nil in Hw).
    apply list_elem_of_singleton in Hw as ->. by eexists _, _.
  - rewrite <- list_fmap_compose in Hin. apply list_elem_of_fmap in Hin as (r & -> & Hin).
    destruct (queue_waits _ _ _ _ (ao_queue _ _ _ _ _ _ _ Hi) Hin) as (p' & (n & x & pc & _ & Et & Hw) & _).
    exists x, pc. split; [done|]. by intros ->.
Qed.

Lemma waiting_nodup tr s ld pre w p ch : aio_ok tr s ld pre w p ch -> NoDup (w ++ (r_pair <$> ch)).*1.
Proof.
  intros Hi. pose proof (ao_threads _ _ _ _ _ _ _ Hi) as Ht. rewrite fmap_app, <- list_fmap_compose.
  pose proof (ao_lead _ _ _ _ _ _ _ Hi) as Hl. inversion Hl; subst; cbn in *; try done. by apply NoDup_cons in Ht as [_ Ht].
Qed.

(** C25. Combining loses and repeats nothing and keeps the order.  In every run,
    the requests in the order in which the calls swapped themselves into the
    queue are those of the batches submitted so far, then those of the batch
    being collected, then those still waiting; the waiting ones belong to
    different threads, which are all inside of their call (so a call that has
    returned has its request in a batch); and every batch has at least one
    and at most [R_QD] requests. *)
Theorem apply_ops_combines p junk tr s : p <> 0 -> aio_run (aio_struct_init p junk) tr s ->
  exists served waiting, enqueued tr = served ++ waiting /\
    served.*2 = concat (submitted tr) ++ src_at_entry_vec s /\
    NoDup waiting.*1 /\
    (forall t, t ∈ waiting.*1 -> exists x pc, threads s !! t = Some (AioThread x pc) /\ pc <> Idle) /\
    Forall (fun b => (0 < length b <= R_QD)%nat) (submitted tr).
Proof.
  intros Hp Hrun. destruct (run_inv _ _ _ _ Hp Hrun) as (ld & pre & w & q & ch & Hi).
  destruct (ao_trace _ _ _ _ _ _ _ Hi) as (sv & He & Hs). exists sv, (w ++ (r_pair <$> ch)).
  split; [done|]. split; [done|]. split; [by eapply waiting_nodup|]. split; [intros t; by eapply waiting_thread|exact (ao_batches _ _ _ _ _ _ _ Hi)].
Qed.

(** A submission, when the values of the batch are in the storage. *)
Lemma submit_ok v m tr s t x q k es : aio_inv tr s -> threads s !! t = Some (AioThread x (Submitting q k)) ->
  Forall2 (in_storage v m) (src_at_entry_vec s) es ->
  pending_ios (ring s) = 0 /\
  exists s' cqs, thread_step m s t = Ok (s', [Submitted (src_at_entry_vec s)]) /\ threads s' !! t = Some (AioThread x (Unlocking q k)) /\
    complete_pending_ios v (ring s') = Ok (Some (cq_of CT_LOOKUP <$> cqs), ReadRing [] 0) /\ cqs ≡ₚ es.
Proof.
  intros (ld & pre & w & f & ch & Hi) E1 Hes. pose proof (leads_leader _ _ _ _ _ _ _ _ _ _ Hi E1 eq_refl) as ->.
  destruct (leading_at _ _ _ _ _ _ _ (ao_lead _ _ _ _ _ _ _ Hi) E1) as (_ & _ & _ & Hv & Hk & Hz).
  pose proof (ao_ring _ _ _ _ _ _ _ Hi) as Hr. split; [done|]. destruct (ring s) as [fl pd] eqn:Erg. cbn in *. subst pd. destruct fl; [|done].
  destruct (read_idle v m (src_at_entry_vec s) es Hes) as (rg & cqs & Hg & Hc & Hperm); [by intros Hn; rewrite Hn in Hv; cbn in *; lia|lia|].
  exists (set_thread t (AioThread x (Unlocking q k)) (set_batch [] (set_ring rg s))), cqs. split; [|split; [|by split]].
  - unfold thread_step. rewrite E1. cbn [of_option mbind res_bind st_pc st_next]. by rewrite Erg, Hg.
  - cbn. by rewrite lookup_insert_eq.
Qed.

(** C26. One leader.  In every reachable state at most one thread is in the
    leading part of [apply_ops] (collecting requests, waiting for the ring, submitting or handing over); when a thread is
    about to submit, the ring is idle, the batch has between 1 and [R_QD] requests, and if their values are in the storage
    the submission succeeds and its completion hands over exactly the requested entries. *)
Theorem apply_ops_exclusive p junk tr s : p <> 0 -> aio_run (aio_struct_init p junk) tr s ->
  (forall t1 t2 x1 x2 pc1 pc2, threads s !! t1 = Some (AioThread x1 pc1) -> threads s !! t2 = Some (AioThread x2 pc2) ->
    leads pc1 = true -> leads pc2 = true -> t1 = t2) /\
  (forall t x q k, threads s !! t = Some (AioThread x (Submitting q k)) ->
    pending_ios (ring s) = 0 /\ (0 < length (src_at_entry_vec s) <= R_QD)%nat /\
    forall v m es, Forall2 (in_storage v m) (src_at_entry_vec s) es ->
      exists s' cqs, thread_step m s t = Ok (s', [Submitted (src_at_entry_vec s)]) /\
        complete_pending_ios v (ring s') = Ok (Some (cq_of CT_LOOKUP <$> cqs), ReadRing [] 0) /\ cqs ≡ₚ es).
Proof.
  intros Hp Hrun. pose proof (run_inv _ _ _ _ Hp Hrun) as HI. split.
  - destruct HI as (ld & pre & w & f & ch & Hi). intros t1 t2 x1 x2 pc1 pc2 E1 E2 L1 L2.
    pose proof (leads_leader _ _ _ _ _ _ _ _ _ _ Hi E1 L1) as ->. by pose proof (leads_leader _ _ _ _ _ _ _ _ _ _ Hi E2 L2) as [= ->].
  - intros t x q k E1. assert (pending_ios (ring s) = 0 /\ (0 < length (src_at_entry_vec s) <= R_QD)%nat) as [Hz Hk].
    { destruct HI as (ld & pre & w & f & ch & Hi). pose proof (leads_leader _ _ _ _ _ _ _ _ _ _ Hi E1 eq_refl) as ->.
      destruct (leading_at _ _ _ _ _ _ _ (ao_lead _ _ _ _ _ _ _ Hi) E1) as (_ & _ & _ & Hv & Hk & Hz). split; [done|lia]. }
    split; [done|]. split; [done|]. intros v m es Hes. destruct (submit_ok v m tr s t x q k es HI E1 Hes) as (_ & s' & cqs & E & _ & Hc). by exists s', cqs.
Qed.

(** The position of a thread whose next access finds the node it names. *)
Definition node_there s (pc : aio_pc) : Prop :=
  match pc with
  | Idle | Prepared _ _ | Polling _ _ | Submitting _ _ => True
  | Swapped _ _ q | Stored _ q | Spin q | Checking q | Lead q _ | Served q _ _ | Marked q _ _ | Unlocking q _ => is_Some (nodes s !! q)
  end.

Lemma nodes_there tr s t x pc : aio_inv tr s -> threads s !! t = Some (AioThread x pc) -> node_there s pc.
Proof.
  intros (ld & pre & w & f & ch & Hi) Et. destruct (leads pc) eqn:Hl.
  - pose proof (leads_leader _ _ _ _ _ _ _ _ _ _ Hi Et Hl) as ->. pose proof (ao_lead _ _ _ _ _ _ _ Hi) as HL.
    pose proof (leading_at _ _ _ _ _ _ _ HL Et) as Ha. destruct (ao_front _ _ _ _ _ _ _ Hi) as (n & En & _).
    destruct pc; cbn in Hl |- *; try done.
    + destruct Ha as [(_ & r & -> & _ & -> & ->)|(_ & _ & -> & _)]; [by eapply leading_pre_node|by exists n].
    + destruct Ha as (r & -> & -> & -> & ->). by eapply leading_pre_node.
    + destruct Ha as (r & -> & -> & -> & ->). by eapply leading_pre_node.
    + destruct Ha as (_ & _ & -> & _). by exists n.
  - destruct (not_leads _ _ _ _ _ _ _ _ _ _ Hi Et Hl) as [_ [(_ & _ & _ & n & En & Hpr)|[(r & p' & n & _ & _ & En & Hw & _)|(r & cm & _ & -> & n & En & _)]]].
    + destruct pc; cbn in *; try done; destruct Hpr as (-> & _); by exists n.
    + destruct pc; cbn in *; try done; destruct_and?; subst; by exists n.
    + by exists n.
Qed.

(** No access faults. *)
Lemma step_safe v m tr s t x pc : aio_inv tr s -> threads s !! t = Some (AioThread x pc) ->
  Forall (fun a => exists e, in_storage v m a e) (src_at_entry_vec s) -> exists s' ev, thread_step m s t = Ok (s', ev).
Proof.
  intros HI Et Hst. pose proof (nodes_there _ _ _ _ _ HI Et) as Hn.
  destruct pc; cbn in Hn; try (destruct Hn as [n En]);
    try (unfold thread_step, store_node, load_node; rewrite Et; cbn [of_option mbind res_bind st_pc st_next]; try rewrite En; cbn; repeat case_match; by eexists _, _).
  apply Forall_exists_Forall2_l in Hst as (es & Hes). destruct (submit_ok v m tr s t x p counter es HI Et Hes) as (_ & s' & _ & E & _). by eexists _, _.
Qed.

(** The position of a thread that can go on. *)
Definition can_go s (pc : aio_pc) : Prop :=
  match pc with
  | Idle => False
  | Spin cur => exists n, nodes s !! cur = Some n /\ locked n = false
  | _ => True
  end.

Lemma can_go_moves m s t x pc s' ev : threads s !! t = Some (AioThread x pc) -> can_go s pc ->
  thread_step m s t = Ok (s', ev) -> threads s' !! t <> threads s !! t.
Proof.
  intros Et Hg. unfold thread_step, store_node, load_node. rewrite Et. cbn [of_option mbind res_bind st_pc st_next].
  destruct pc as [| | | |cur| | | | | | |]; cbn in Hg; try done;
    [..|intros E; apply bind_ok in E as (rg & _ & [= <- _]); cbn; rewrite lookup_insert_eq; by intros [=]|];
    try (destruct Hg as (n & En & Hlk); rewrite En; cbn; rewrite Hlk);
    try match goal with |- context [nodes s !! ?q] => destruct (nodes s !! q) as [nq|] eqn:Eq; [|done] end; cbn; rewrite ?Eq; cbn;
    repeat case_match; try done; intros [= <- _]; cbn; rewrite lookup_insert_eq; by intros [=].
Qed.

(** Some thread of a call can go on. *)
Lemma someone_goes tr s t x pc : aio_inv tr s -> threads s !! t = Some (AioThread x pc) -> pc <> Idle ->
  exists t' x' pc', threads s !! t' = Some (AioThread x' pc') /\ pc' <> Idle /\ can_go s pc'.
Proof.
  intros (ld & pre & w & f & ch & Hi) Et Hpc. pose proof (ao_lead _ _ _ _ _ _ _ Hi) as Hl.
  destruct (ao_front _ _ _ _ _ _ _ Hi) as (n & En & Hlk & _). destruct ld as [L|].
  - assert (exists x' pc', threads s !! L = Some (AioThread x' pc')) as (x' & pc' & EL) by (inversion Hl; subst; by eexists _, _).
    exists L, x', pc'. split; [done|]. pose proof (leading_at _ _ _ _ _ _ _ Hl EL) as Ha. split; [by intros ->|]. by destruct pc'.
  - inversion Hl; subst. destruct ch as [|r ch].
    + destruct (ao_private _ _ _ _ _ _ _ Hi _ _ _ Et ltac:(by apply not_elem_of_nil)) as (_ & n' & En' & Hpr).
      exists t, x, pc. split; [done|]. split; [done|]. destruct pc; cbn in *; try done. destruct Hpr as (-> & Hpr & _). by exists n'.
    + destruct (ao_queue _ _ _ _ _ _ _ Hi) as (Hr & p' & _ & (n' & x' & pc' & En' & Er & Hw) & _). exists (r_thread r), x', pc'.
      split; [done|]. split; [by intros ->|]. rewrite Hr in *. assert (n' = n) as -> by congruence.
      destruct pc'; cbn in *; naive_solver.
Qed.

(** C27. No fault and no deadlock.  In every reachable state, if the values of the requests collected so far are in the
    storage: a call of [apply_ops] does not fault; no thread's next access faults, wherever it is; and while some thread
    is inside of a call, the next access of one of those threads brings it forward, so that the threads never all spin
    on locked nodes. *)
Theorem apply_ops_progress p junk tr s v m : p <> 0 -> aio_run (aio_struct_init p junk) tr s ->
  Forall (fun a => exists e, in_storage v m a e) (src_at_entry_vec s) ->
  (forall t a, exists o, apply_ops s t a = Ok o) /\
  (forall t, is_Some (threads s !! t) -> exists s' ev, thread_step m s t = Ok (s', ev)) /\
  (forall t x pc, threads s !! t = Some (AioThread x pc) -> pc <> Idle ->
    exists t' x' pc' s' ev, threads s !! t' = Some (AioThread x' pc') /\ pc' <> Idle /\
      thread_step m s t' = Ok (s', ev) /\ threads s' !! t' <> threads s !! t').
Proof.
  intros Hp Hrun Hst. pose proof (run_inv _ _ _ _ Hp Hrun) as HI. split_and!.
  - intros t a. unfold apply_ops. destruct (threads s !! t) as [[x pc]|] eqn:Et; [|by eexists]. destruct pc; try by eexists.
    destruct HI as (ld & pre & w & f & ch & Hi).
    destruct (not_leads _ _ _ _ _ _ _ _ _ _ Hi Et eq_refl) as [_ [(_ & _ & _ & n & En & _)|[(r & p' & n & _ & _ & _ & [] & _)|(r & cm & _ & [=] & _)]]].
    unfold store_node, load_node. rewrite En. by eexists.
  - intros t [[x pc] Et]. by eapply step_safe.
  - intros t x pc Et Hpc. destruct (someone_goes _ _ _ _ _ HI Et Hpc) as (t' & x' & pc' & Et' & Hne & Hg).
    destruct (step_safe v m _ _ _ _ _ HI Et' Hst) as (s' & ev & E). exists t', x', pc', s', ev. split_and!; [done|done|done|]. by eapply can_go_moves.
Qed.

(** ** One caller *)

Lemma thread_steps_S m n s t s1 e1 : thread_step m s t = Ok (s1, e1) ->
  thread_steps m (S n) s t = '(s2, e2) ← thread_steps m n s1 t; Ok (s2, e1 ++ e2).
Proof. intros E. cbn [thread_steps]. by rewrite E. Qed.

Ltac run_node :=
  unfold thread_step, store_node, load_node; cbn;
  repeat (rewrite lookup_insert_eq || (rewrite lookup_insert_ne by done); cbn).

(** A call that finds nobody else in the queue and an idle ring submits a
    batch of exactly its own request and returns 1, in twelve accesses after
    the initialisation of its node, and leaves the queue free again with the
    nodes exchanged. *)
Theorem apply_ops_alone m s t a x q nx nq rg : threads s !! t = Some (AioThread x Idle) -> x <> q -> x <> 0 ->
  nodes s !! x = Some nx -> tail s = q -> nodes s !! q = Some nq -> locked nq = false -> completed nq = false ->
  src_at_entry_vec s = [] -> pending_ios (ring s) = 0 -> get_val_ccsync m (ring s) [a] = Ok rg ->
  exists s1 s2, apply_ops s t a = Ok (Some s1) /\
    thread_steps m 12 s1 t = Ok (s2, [Enqueued t a; Submitted [a]; Returned t 1]) /\
    ring s2 = rg /\ tail s2 = x /\ threads s2 = <[t := AioThread q Idle]> (threads s) /\ src_at_entry_vec s2 = [] /\
    exists nx', nodes s2 !! x = Some nx' /\ locked nx' = false /\ completed nx' = false.
Proof.
  intros Et Hxq Hx0 Enx <- Enq Hlk Hcm Hv Hpd Hg. pose proof queue_depth_pos as Hqd.
  unfold apply_ops, store_node, load_node. rewrite Et, Enx. cbn [of_option mbind res_bind].
  eexists _, _. split; [reflexivity|]. split; [|].
  { erewrite thread_steps_S; [|run_node; reflexivity].
    erewrite thread_steps_S; [|run_node; rewrite Enq; cbn; reflexivity].
    erewrite thread_steps_S; [|run_node; reflexivity].
    erewrite thread_steps_S; [|run_node; rewrite Hlk; reflexivity].
    erewrite thread_steps_S; [|run_node; rewrite Hcm; reflexivity].
    erewrite thread_steps_S; [|run_node; rewrite (proj2 (Z.eqb_neq x 0) Hx0), (proj2 (Nat.ltb_lt 0 R_QD) Hqd); cbn; run_node; rewrite Hv; reflexivity].
    erewrite thread_steps_S; [|run_node; reflexivity].
    erewrite thread_steps_S; [|run_node; reflexivity].
    erewrite thread_steps_S; [|run_node; reflexivity].
    erewrite thread_steps_S; [|run_node; rewrite Hpd; reflexivity].
    erewrite thread_steps_S; [|run_node; rewrite Hg; reflexivity].
    erewrite thread_steps_S; [|run_node; reflexivity].
    reflexivity. }
  cbn. split; [done|]. split; [done|]. split; [by rewrite !insert_insert_eq|]. split; [done|].
  rewrite lookup_insert_eq. by eexists.
Qed.
End aio_leader.
