(* ===== verification/CacheExamples.v ===== *)
(** The cache and the read path at a small configuration: runs that show the
    hypotheses of the theorems of CacheInvariant.v and ReadPath.v can hold.  Then
    two callers on one combining queue, step by step, for those of
    AioLeader.v. *)

From S2P Require Import Prelude Config TaggedPtr Objects IoUring ValueStorage.
From S2P Require Import ChunkWrite ChunkAlloc GarbageCollection GcLoop Storage StorageExamples.
From S2P Require Import OpLog LRUList CacheThread CacheInvariant ReadPath.

Local Open Scope Z_scope.

#[local] Existing Instance tiny_config.
#[local] Existing Instance tiny_config_wf.
#[local] Existing Instance plain_uring.

(** * An allocator *)

(** Forty addresses; [malloc] returns the first that holds no object. *)
Definition arena : list Z := (fun i => 8192 + 64 * Z.of_nat i) <$> seq 0 40.

Fixpoint first_free (l : list Z) (m : memory) : Z :=
  match l with
  | [] => 0
  | a :: l' =>
      match dc_mem m !! a, op_mem m !! a with None, None => a | _, _ => first_free l' m end
  end.

#[export] Instance arena_env : CacheEnv := {| ct_rand := fun _ => 0%nat; dc_malloc := first_free arena |}.

Lemma first_free_spec l m : first_free l m <> 0 ->
  first_free l m ∈ l /\ dc_mem m !! first_free l m = None /\ op_mem m !! first_free l m = None.
Proof.
  induction l as [|a l IH]; cbn; [done|].
  destruct (dc_mem m !! a) eqn:Ed, (op_mem m !! a) eqn:Eo; intros Hz;
    try (destruct (IH Hz) as [Hin Hr]; split; [by right|done]).
  split; [left|done].
Qed.

Lemma first_free_zero l m : 0 ∉ l -> first_free l m = 0 ->
  forall a, a ∈ l -> a ∈ (map_to_list (dc_mem m)).*1 ++ (map_to_list (op_mem m)).*1.
Proof.
  induction l as [|b l IH]; cbn; intros Hz Hf a Ha; [by apply elem_of_nil in Ha|].
  apply not_elem_of_cons in Hz as [Hb Hz].
  apply elem_of_cons in Ha as [->|Ha]; [|apply IH; [done| |done]; by destruct (dc_mem m !! b), (op_mem m !! b)].
  apply elem_of_app. rewrite !list_elem_of_fmap.
  destruct (dc_mem m !! b) as [e|] eqn:Ed; [left; exists (b, e); by rewrite elem_of_map_to_list|].
  destruct (op_mem m !! b) as [e|] eqn:Eo; [|done]. right. exists (b, e). by rewrite elem_of_map_to_list.
Qed.

Lemma arena_fresh m : first_free arena m <> 0 ->
  dc_mem m !! first_free arena m = None /\ op_mem m !! first_free arena m = None /\
  user_addr (first_free arena m).
Proof.
  intros Hz. destruct (first_free_spec arena m Hz) as (Hin & Hd & Ho). split; [done|]. split; [done|].
  apply list_elem_of_fmap in Hin as (i & -> & Hi%elem_of_seq). unfold user_addr. lia.
Qed.

Lemma arena_room m : (size (dc_mem m) + size (op_mem m) < 40)%nat -> first_free arena m <> 0.
Proof.
  intros Hs Hz. assert (length arena <= size (dc_mem m) + size (op_mem m))%nat as Hl; [|cbn in Hl; lia].
  rewrite <- (length_map_to_list (dc_mem m)), <- (length_map_to_list (op_mem m)).
  rewrite <- (length_fmap fst (map_to_list (dc_mem m))), <- (length_fmap fst (map_to_list (op_mem m))).
  rewrite <- length_app. apply nodup_subset_length; [apply (bool_decide_unpack _); by vm_compute|].
  apply first_free_zero; [apply (bool_decide_unpack _); by vm_compute|done].
Qed.

#[export] Instance arena_env_ok : CacheEnvOk arena_env :=
  {| dc_heap := 40; malloc_fresh := arena_fresh; malloc_room := arena_room |}.

(** * Checking the invariant of a concrete cache *)

Fixpoint seg_check (m : memory) (pr : Z) (l : list Z) (nx : Z) : bool :=
  match l with
  | [] => true
  | a :: l' =>
      negb (a =? 0) &&
      match dc_mem m !! a with
      | Some e => (dc_prev e =? pr) && (dc_next e =? first l' nx)
      | None => false
      end && seg_check m a l' nx
  end.

Lemma seg_check_sound m l nx : forall pr, seg_check m pr l nx = true -> seg m pr l nx.
Proof.
  induction l as [|a l IH]; intros pr Hc; [done|]. cbn in Hc |- *.
  apply andb_true_iff in Hc as [[Hz He]%andb_true_iff Hl]. destruct (dc_mem m !! a) as [e|]; [|done].
  apply andb_true_iff in He as [Ep%Z.eqb_eq En%Z.eqb_eq].
  split; [by apply Z.eqb_neq, negb_true_iff|]. split; [by exists e|by apply IH].
Qed.

Definition lru_check (d : LRUList) (m : memory) (l : list Z) : bool :=
  bool_decide (head d = first l 0 /\ tail d = final 0 l /\ NoDup l /\ cur_size d = Z.of_nat (length l) /\
    Forall (fun a => dc_list_type <$> dc_mem m !! a = Some (list_type d)) l /\
    Z.of_nat (length l) < 2 ^ 31 - 1) && seg_check m 0 l 0.

Lemma lru_check_sound d m l : lru_check d m l = true -> lru d m l.
Proof.
  intros [Hb Hs]%andb_true_iff. apply bool_decide_eq_true in Hb as (A & B & C & D & E & F).
  split; try done. by apply seg_check_sound.
Qed.

Definition entry_check (m : memory) (p : Z) : bool :=
  match dc_mem m !! p with
  | Some e =>
      bool_decide (dc_s_prev e = 0 /\ dc_s_next e = 0 /\ dc_at_entry e <> 0 /\ user_addr p /\ op_mem m !! p = None) &&
      bool_decide (is_Some (at_mem m !! dc_at_entry e))
  | None => false
  end.

Definition word_check (x : at_entry_t) : bool :=
  bool_decide (user_addr (get_untagged_ptr (val_addr x)) /\ 0 <= get_tag (val_addr x) < 128 /\
    val_addr x = get_untagged_ptr (val_addr x) + get_tag (val_addr x) * 2 ^ 56).

Definition link_check (cur : Z -> option Z) (m : memory) (l : list Z) (p : Z * at_entry_t) : bool :=
  word_check p.2 &&
  (negb (get_tag (val_addr p.2) =? DCACHE_VAL) ||
   let q := get_untagged_ptr (val_addr p.2) in
   match dc_mem m !! q with
   | Some e => bool_decide (q ∈ l /\ dc_at_entry e = p.1 /\ cur p.1 = Some (dc_val e))
   | None => false
   end).

Definition cached_check (cur : Z -> option Z) (m : memory) (l : list Z) : bool :=
  forallb (entry_check m) l && forallb (link_check cur m l) (map_to_list (at_mem m)).

Lemma cached_check_sound cur m l : cached_check cur m l = true -> cached cur m l.
Proof.
  intros [R1 R2]%andb_true_iff.
  assert (forall a x, at_mem m !! a = Some x -> link_check cur m l (a, x) = true) as Hl.
  { intros a x Hx. apply (forallb_elem _ _ (a, x) R2). by apply elem_of_map_to_list. }
  split.
  - intros p Hp. apply (forallb_elem _ _ p) in R1; [|done]. unfold entry_check in R1.
    destruct (dc_mem m !! p) as [e|]; [|done]. apply andb_true_iff in R1 as [Ha Hb].
    apply bool_decide_eq_true in Ha as (S1 & S2 & Hz & Hu). apply bool_decide_eq_true in Hb as [x Hx].
    by exists e, x.
  - intros a x Hx Ht. apply Hl, andb_true_iff in Hx as [_ Hx]. cbn [fst snd] in Hx.
    rewrite Ht, Z.eqb_refl in Hx. cbn in Hx.
    destruct (dc_mem m !! get_untagged_ptr (val_addr x)) as [e|]; [|done].
    apply bool_decide_eq_true in Hx as (Hin & Ha & Hc). by exists e.
  - intros a x Hx. apply Hl, andb_true_iff in Hx as [Hx _].
    apply bool_decide_eq_true in Hx as (Hu & Ht & E). by eexists _, _.
Qed.

Definition inv_check (cur : Z -> option Z) (s : cstate) (la li : list Z) : bool :=
  lru_check (active_list (cs_ct s)) (cs_mem s) la && lru_check (inactive_list (cs_ct s)) (cs_mem s) li &&
  bool_decide (list_type (active_list (cs_ct s)) = ACTIVE_LIST /\
    list_type (inactive_list (cs_ct s)) = INACTIVE_LIST /\ NoDup (la ++ li) /\
    dom (dc_mem (cs_mem s)) = (list_to_set (la ++ li) : gset Z)) &&
  cached_check cur (cs_mem s) (la ++ li).

Lemma inv_check_sound cur s la li : inv_check cur s la li = true -> cache_inv cur s la li.
Proof.
  intros [[[R1 R2]%andb_true_iff R3]%andb_true_iff R4]%andb_true_iff.
  apply bool_decide_eq_true in R3 as (Ta & Ti & Hnd & Hd).
  split; try done; [by apply lru_check_sound..| |by apply cached_check_sound].
  intros p. by rewrite <- elem_of_dom, Hd, elem_of_list_to_set.
Qed.

(** * Runs *)

(** The storage of StorageExamples.v with four values in it; the address
    table entries 100, 116, 132 and 148 hold 50, 30, 80 and 10. *)
Definition cur_val (a : Z) : option Z :=
  x ← at_mem halves_m !! a; e ← vs_disk halves_v !! vs_offset (vs_idx x); Some (ve_val e).

Definition cs0 : cstate := CState create [halves_v] halves_m.
Definition batch : list cq_entry_t :=
  [CqEntry 100 5 50 CT_SCAN; CqEntry 116 3 30 CT_SCAN; CqEntry 100 5 50 CT_SCAN].

(** After the batch: 100 was hit and is active, 116 is inactive. *)
Definition cs1 : cstate := match cacheOperation cs0 batch with Ok s => s | Err _ => cs0 end.

Lemma cs1_inv : cache_inv cur_val cs1 [8192] [8256].
Proof. apply inv_check_sound. by vm_compute. Qed.

Lemma cacheOperation_correct_witness :
  exists s' la' li', cacheOperation cs0 batch = Ok s' /\ cache_inv cur_val s' la' li' /\ fits s' la' li' /\
    cs_vss s' = [halves_v] /\ at_kept halves_m (cs_mem s').
Proof.
  apply (cacheOperation_correct cur_val cs0 [] []); [by apply inv_check_sound; vm_compute|by vm_compute| |done|].
  - split; vm_compute; done.
  - apply Forall_forall. intros cq Hcq. repeat apply elem_of_cons in Hcq as [->|Hcq]; [| | |by apply elem_of_nil in Hcq];
      right; eexists; (split; [by vm_compute|right; by vm_compute]).
Defined.

Lemma evict_entry_half_witness :
  exists s', evict_entry cs1 = Ok s' /\ cache_inv cur_val s' [8192] [] /\ cs_vss s' = [halves_v].
Proof. apply (evict_entry_half cur_val cs1 [8192] [] [8256]); [apply cs1_inv|reflexivity]. Defined.

Lemma evict_entry_short_witness : evict_entry cs0 = Err NullDeref.
Proof. apply (evict_entry_short cur_val cs0 [] []); [by apply inv_check_sound; vm_compute|vm_compute; lia]. Defined.

(** Entry 100 has a tagged pointer to its cache entry.  In [cs2] entry 132 has
    an untagged one. *)
Definition cs2 : cstate :=
  CState (cs_ct cs1) (cs_vss cs1) (upd_at (cs_mem cs1) 132 (AtEntry (VsIdx 0 4) 8192)).

Lemma freeOperation_tag_witness :
  freeOperation cs1 100 = Err BadAddress /\
  exists s' la' li', freeOperation cs2 132 = Ok s' /\ cache_inv cur_val s' la' li' /\
    8192 :: la' ++ li' ≡ₚ [8192; 8256] /\ cs_vss s' = [halves_v].
Proof.
  split.
  - eapply (freeOperation_tag cur_val cs1 [8192] [8256] 100 _ 8192);
      [apply cs1_inv|done|by vm_compute|by vm_compute|done|by vm_compute|by vm_compute].
  - eapply (freeOperation_tag cur_val cs2 [8192] [8256] 132 _ 8192);
      [by apply inv_check_sound; vm_compute|done|by vm_compute|by vm_compute|done|by vm_compute|by vm_compute].
Defined.

(** * Reads *)

Definition read_check (v : ValueStorage) (m : memory) (a : Z) (e : vs_entry_t) : bool :=
  match at_mem m !! a with
  | Some x =>
      let c := chunk_of (vs_offset (vs_idx x)) in let j := entry_of (vs_offset (vs_idx x)) in
      bool_decide (a <> 0 /\ ve_at_entry e = a /\ 0 <= c < MTS_VS_CHUNK_NUM /\ 0 <= j < Z.of_nat ENTRIES /\
        valid_bit v c j = true /\ vs_disk v !! slot c j = Some e /\ vs_idx x = VsIdx (vs_self v) (slot c j))
  | None => false
  end.

Lemma read_check_sound v m a e : read_check v m a e = true -> in_storage v m a e.
Proof.
  unfold read_check. destruct (at_mem m !! a) as [x|] eqn:Hx; [|done].
  intros (Ha & He & Hc & Hj & Hv & Hd & Hi)%bool_decide_eq_true. split; [done|]. split; [done|].
  eexists _, _. split; [by split|]. by exists x.
Qed.

Definition stored_entries : list vs_entry_t :=
  [VsEntry 100 5 50; VsEntry 116 3 30; VsEntry 132 8 80; VsEntry 148 1 10].

Lemma read_batch_witness :
  exists ring cqs, get_val_ccsync halves_m (ReadRing [] 0) [100; 116; 132; 148] = Ok ring /\
    complete_pending_ios halves_v ring = Ok (Some (cq_of CT_LOOKUP <$> cqs), ReadRing [] 0) /\
    cqs ≡ₚ stored_entries.
Proof.
  apply (read_batch halves_v halves_m [100; 116; 132; 148] stored_entries); [|done|vm_compute; lia].
  repeat (apply Forall2_cons; split; [apply read_check_sound; by vm_compute|]). done.
Defined.

Lemma scan_reads_at_most_r_qd_witness :
  exists ring cqs, get_val_scan halves_m (ReadRing [] 0) [100; 116; 132; 148; 100] = Ok ring /\
    complete_pending_scan halves_v ring CT_SCAN [] = Ok (cq_of CT_SCAN <$> cqs, ReadRing [] 0) /\
    cqs ≡ₚ take R_QD (stored_entries ++ [VsEntry 100 5 50]) /\ (length cqs < 5)%nat.
Proof.
  apply (scan_reads_at_most_r_qd halves_v halves_m [100; 116; 132; 148; 100]
    (stored_entries ++ [VsEntry 100 5 50])); [|vm_compute; lia].
  repeat (apply Forall2_cons; split; [apply read_check_sound; by vm_compute|]). done.
Defined.

(** * Schedules of the combining queue *)

From S2P Require Import AIO AioInvariant AioSteps AioLeader.

Inductive act := Join (t : nat) (p : Z) | Call (t : nat) (a : Z) | Go (t : nat).

Definition blank : aio_node := AioNode 0 0 0 false false.

Definition act_step (m : memory) (s : aio_struct) (a : act) : option (aio_struct * list event) :=
  match a with
  | Join t p =>
      match threads s !! t, nodes s !! p with
      | None, None => if p =? 0 then None else Some (set_thread t (AioThread p Idle) (set_nodes <[p := blank]> s), [])
      | _, _ => None
      end
  | Call t e => match apply_ops s t e with Ok (Some s') => Some (s', []) | _ => None end
  | Go t => match thread_step m s t with Ok r => Some r | _ => None end
  end.

Fixpoint act_steps (m : memory) (s : aio_struct) (l : list act) : option (aio_struct * list event) :=
  match l with
  | [] => Some (s, [])
  | a :: l' =>
      match act_step m s a with
      | Some (s1, e1) => match act_steps m s1 l' with Some (s2, e2) => Some (s2, e1 ++ e2) | None => None end
      | None => None
      end
  end.

Lemma act_step_sound m s a s' ev : act_step m s a = Some (s', ev) -> aio_step s ev s'.
Proof.
  destruct a as [t p|t e|t]; cbn.
  - destruct (threads s !! t) eqn:Et; [done|]. destruct (nodes s !! p) eqn:Ep; [done|].
    destruct (p =? 0) eqn:Ez; [done|]. intros [= <- <-]. apply as_join; [done|done|]. by apply Z.eqb_neq.
  - destruct (apply_ops s t e) as [[s1|]|] eqn:E; [|done|done]. intros [= <- <-]. by eapply as_call.
  - destruct (thread_step m s t) as [[s1 e1]|] eqn:E; [|done]. intros [= <- <-]. by eapply as_thread.
Qed.

Lemma act_steps_sound m s0 l : forall s tr s' ev, aio_run s0 tr s -> act_steps m s l = Some (s', ev) -> aio_run s0 (tr ++ ev) s'.
Proof.
  induction l as [|a l IH]; intros s tr s' ev Hr; cbn.
  - intros [= <- <-]. by rewrite app_nil_r.
  - destruct (act_step m s a) as [[s1 e1]|] eqn:E; [|done]. destruct (act_steps m s1 l) as [[s2 e2]|] eqn:E2; [|done].
    intros [= <- <-]. rewrite app_assoc. eapply IH; [|exact E2]. eapply ar_step; [done|]. by eapply act_step_sound.
Qed.

(** * Two callers *)

(** Thread 1 enqueues a request for the entry at 100 and thread 2 one for the
    entry at 116; thread 1 leads, serves both and is about to submit. *)
Definition queue0 : aio_struct := aio_struct_init 64 blank.
Definition meet : list act :=
  [Join 1 128; Join 2 192; Call 1 100; Call 2 116; Go 1; Go 1; Go 2; Go 1; Go 2; Go 2; Go 2;
   Go 1; Go 1; Go 1; Go 1; Go 1; Go 1; Go 1; Go 1; Go 1; Go 1].

Definition met : aio_struct * list event := default (queue0, []) (act_steps halves_m queue0 meet).

Lemma met_run : aio_run queue0 met.2 met.1.
Proof.
  apply (act_steps_sound halves_m _ meet queue0 []); [apply ar_start|]. by vm_compute.
Qed.

Example met_state : src_at_entry_vec met.1 = [100; 116] /\ submitted met.2 = [] /\
  st_pc <$> (threads met.1 !! 1%nat) = Some (Submitting 192 2) /\ st_pc <$> (threads met.1 !! 2%nat) = Some (Spin 128).
Proof. by vm_compute. Qed.

Lemma apply_ops_combines_witness : exists served waiting, enqueued met.2 = served ++ waiting /\
  served.*2 = concat (submitted met.2) ++ src_at_entry_vec met.1 /\
  NoDup waiting.*1 /\
  (forall t, t ∈ waiting.*1 -> exists x pc, threads met.1 !! t = Some (AioThread x pc) /\ pc <> Idle) /\
  Forall (fun b => (0 < length b <= R_QD)%nat) (submitted met.2).
Proof. apply (apply_ops_combines 64 blank met.2 met.1); [done|exact met_run]. Defined.

Definition met_entries : list vs_entry_t := [VsEntry 100 5 50; VsEntry 116 3 30].

Lemma met_stored : Forall2 (in_storage halves_v halves_m) (src_at_entry_vec met.1) met_entries.
Proof.
  replace (src_at_entry_vec met.1) with [100; 116] by by vm_compute.
  repeat (apply Forall2_cons; split; [apply read_check_sound; by vm_compute|]). done.
Qed.

Lemma apply_ops_exclusive_witness : pending_ios (ring met.1) = 0 /\ exists s' cqs,
  thread_step halves_m met.1 1 = Ok (s', [Submitted (src_at_entry_vec met.1)]) /\
  complete_pending_ios halves_v (ring s') = Ok (Some (cq_of CT_LOOKUP <$> cqs), ReadRing [] 0) /\ cqs ≡ₚ met_entries.
Proof.
  destruct (apply_ops_exclusive 64 blank met.2 met.1) as [_ Hs]; [done|exact met_run|].
  destruct (Hs 1%nat 64 192 2%nat) as (Hz & _ & Hc); [by vm_compute|]. split; [exact Hz|]. exact (Hc halves_v halves_m met_entries met_stored).
Defined.

Lemma apply_ops_progress_witness : (exists s' ev, thread_step halves_m met.1 2 = Ok (s', ev)) /\
  exists t' x' pc' s' ev, threads met.1 !! t' = Some (AioThread x' pc') /\ pc' <> Idle /\
    thread_step halves_m met.1 t' = Ok (s', ev) /\ threads s' !! t' <> threads met.1 !! t'.
Proof.
  destruct (apply_ops_progress 64 blank met.2 met.1 halves_v halves_m) as (_ & Hs & Hg); [done|exact met_run| |].
  - apply (Forall2_Forall_l _ _ _ _ met_stored). apply Forall_true. by eauto.
  - split; [apply Hs; by apply not_eq_None_Some; vm_compute|].
    assert (exists x, threads met.1 !! 2%nat = Some (AioThread x (Spin 128))) as [x Ex] by (eexists; by vm_compute).
    by apply (Hg 2%nat x (Spin 128)).
Defined.

(** * One caller *)

Definition lone : aio_struct := set_thread 1 (AioThread 128 Idle) (set_nodes <[128 := blank]> queue0).
Definition lone_ring : read_ring :=
  match get_val_ccsync halves_m (ReadRing [] 0) [100] with Ok rg => rg | _ => ReadRing [] 0 end.

Lemma apply_ops_alone_witness : exists s1 s2, apply_ops lone 1 100 = Ok (Some s1) /\
  thread_steps halves_m 12 s1 1 = Ok (s2, [Enqueued 1 100; Submitted [100]; Returned 1 1]) /\
  ring s2 = lone_ring /\ tail s2 = 128 /\ threads s2 = <[1%nat := AioThread 64 Idle]> (threads lone) /\ src_at_entry_vec s2 = [] /\
  exists nx', nodes s2 !! 128 = Some nx' /\ locked nx' = false /\ completed nx' = false.
Proof.
  apply (apply_ops_alone halves_m lone 1 100 128 64 blank blank lone_ring);
    [by vm_compute|lia|lia|by vm_compute|reflexivity|by vm_compute|reflexivity|reflexivity|reflexivity|reflexivity|by vm_compute].
Defined.
