(* ===== verification/MTS.v ===== *)
(** The key-value store ([src/PRISM/src/MTS.cpp], [MTSImpl.h], [MTSThread.h],
    [KeyIndex.h]).

    [Prism] is the whole state: key index, address tables, write buffers,
    storages with their read rings, cache thread and its queues.  The
    operations of the interface ([insert], [update], [lookup], [scan],
    [remove], [recover]) and the steps of the background threads (reclaim, I/O
    completion, cache) are functions on it.  An operation that would spin or
    wait for another thread returns [None]; it is repeated after that thread
    has made a step. *)

From S2P Require Import Prelude Config TaggedPtr Objects AddressTable IoUring ValueStorage.
From S2P Require Import OpLog LRUList CacheThread ReadPath.

Local Open Scope Z_scope.

(** * The key index

    What [MTSImpl] asks of the index (KeyIndex.h): a map from keys to
    address-table entries with ordered range queries.  A lookup of an absent
    key gives 0.  Of the insertion of a key that is there nothing is
    promised.  [PACTREEIndex], the index that is shipped, is not an instance:
    it holds the key 0 from the start and some removals break it.
    [PacIndex.v] shows that for the other calls with keys that are not 0 it
    answers as an instance that starts empty. *)
Class KeyIndex (I : Type) := {
  ki_insert : I -> Z -> Z -> I;
  ki_remove : I -> Z -> I;
  ki_lookup : I -> Z -> Z;
  ki_lookupRange : I -> Z -> nat -> list Z;
  ki_map : I -> gmap Z Z;
}.

(** The keys of a map from [start] on, in order. *)
Definition keys_from (m : gmap Z Z) (start : Z) : list Z :=
  sort_by (fun k => k) (filter (fun k => start <= k) (map_to_list m).*1).

(** Its laws. *)
Class KeyIndexOk (I : Type) `{KeyIndex I} : Prop := {
  ki_lookup_spec : forall i k, ki_lookup i k = default 0 (ki_map i !! k);
  ki_insert_spec : forall i k a, ki_map i !! k = None -> ki_map (ki_insert i k a) = <[k := a]> (ki_map i);
  ki_remove_spec : forall i k, ki_map (ki_remove i k) = delete k (ki_map i);
  ki_range_spec : forall i start n,
    ki_lookupRange i start n = (fun k => default 0 (ki_map i !! k)) <$> take n (keys_from (ki_map i) start);
}.

(** A map as an index. *)
#[export] Instance gmap_index : KeyIndex (gmap Z Z) := {|
  ki_insert := fun i k a => <[k := a]> i;
  ki_remove := fun i k => delete k i;
  ki_lookup := fun i k => default 0 (i !! k);
  ki_lookupRange := fun i start n => (fun k => default 0 (i !! k)) <$> take n (keys_from i start);
  ki_map := fun i => i;
|}.

#[export] Instance gmap_index_ok : KeyIndexOk (gmap Z Z).
Proof. by split. Qed.

(** * State *)

Record Prism (I : Type) := MkPrism {
  g_perNumaKeyIndex : I;
  g_perNumaAddressTable : list AddressTable;
  g_perNumaOpLog : list OpLog;
  g_perNumaValueStorage : list ValueStorage;
  r_ring : list (list read_ring);           (** by storage, then ring *)
  g_cacheQueue : list (list (list cq_entry_t));
  g_cacheFreeQueue : list (list Z);
  DramCacheThread : CacheThread;
  p_mem : memory;
}.
Arguments MkPrism {_}.
Arguments g_perNumaKeyIndex {_}. Arguments g_perNumaAddressTable {_}. Arguments g_perNumaOpLog {_}.
Arguments g_perNumaValueStorage {_}. Arguments r_ring {_}. Arguments g_cacheQueue {_}.
Arguments g_cacheFreeQueue {_}. Arguments DramCacheThread {_}. Arguments p_mem {_}.

Section setters.
Context {I : Type}.
Definition set_index (i : I) (w : Prism I) : Prism I :=
  MkPrism i (g_perNumaAddressTable w) (g_perNumaOpLog w) (g_perNumaValueStorage w) (r_ring w)
    (g_cacheQueue w) (g_cacheFreeQueue w) (DramCacheThread w) (p_mem w).
Definition set_table (k : nat) (t : AddressTable) (w : Prism I) : Prism I :=
  MkPrism (g_perNumaKeyIndex w) (<[k := t]> (g_perNumaAddressTable w)) (g_perNumaOpLog w)
    (g_perNumaValueStorage w) (r_ring w) (g_cacheQueue w) (g_cacheFreeQueue w) (DramCacheThread w) (p_mem w).
Definition set_oplog (k : nat) (o : OpLog) (w : Prism I) : Prism I :=
  MkPrism (g_perNumaKeyIndex w) (g_perNumaAddressTable w) (<[k := o]> (g_perNumaOpLog w))
    (g_perNumaValueStorage w) (r_ring w) (g_cacheQueue w) (g_cacheFreeQueue w) (DramCacheThread w) (p_mem w).
Definition set_vss (l : list ValueStorage) (w : Prism I) : Prism I :=
  MkPrism (g_perNumaKeyIndex w) (g_perNumaAddressTable w) (g_perNumaOpLog w) l (r_ring w)
    (g_cacheQueue w) (g_cacheFreeQueue w) (DramCacheThread w) (p_mem w).
Definition set_vs (k : nat) (v : ValueStorage) (w : Prism I) : Prism I :=
  set_vss (<[k := v]> (g_perNumaValueStorage w)) w.
Definition set_ring (k j : nat) (r : read_ring) (w : Prism I) : Prism I :=
  MkPrism (g_perNumaKeyIndex w) (g_perNumaAddressTable w) (g_perNumaOpLog w) (g_perNumaValueStorage w)
    (alter (<[j := r]>) k (r_ring w)) (g_cacheQueue w) (g_cacheFreeQueue w) (DramCacheThread w) (p_mem w).
Definition set_queues (q : list (list (list cq_entry_t))) (f : list (list Z)) (w : Prism I) : Prism I :=
  MkPrism (g_perNumaKeyIndex w) (g_perNumaAddressTable w) (g_perNumaOpLog w) (g_perNumaValueStorage w)
    (r_ring w) q f (DramCacheThread w) (p_mem w).
Definition set_cache (c : CacheThread) (w : Prism I) : Prism I :=
  MkPrism (g_perNumaKeyIndex w) (g_perNumaAddressTable w) (g_perNumaOpLog w) (g_perNumaValueStorage w)
    (r_ring w) (g_cacheQueue w) (g_cacheFreeQueue w) c (p_mem w).
Definition set_mem (m : memory) (w : Prism I) : Prism I :=
  MkPrism (g_perNumaKeyIndex w) (g_perNumaAddressTable w) (g_perNumaOpLog w) (g_perNumaValueStorage w)
    (r_ring w) (g_cacheQueue w) (g_cacheFreeQueue w) (DramCacheThread w) m.

(** [container[k]], a [std::vector] or array indexed by thread or storage. *)
Definition nth_of {A} (l : list A) (k : nat) : res A := of_option OutOfRange (l !! k).

(** [g_perNumaValueStorage[vs_id]] for an [int]. *)
Definition vs_of (w : Prism I) (vs_id : Z) : res (nat * ValueStorage) :=
  if vs_id <? 0 then Err OutOfRange
  else v ← nth_of (g_perNumaValueStorage w) (Z.to_nat vs_id); Ok (Z.to_nat vs_id, v).
Definition ring_of (w : Prism I) (k j : nat) : res read_ring :=
  rings ← nth_of (r_ring w) k; nth_of rings j.
End setters.

Section mts.
Context `{Config} `{IoUring} `{StdSort} `{CacheEnv}.
Context {I : Type} `{KeyIndex I}.

(** * Construction

    [MTSImpl::MTSImpl].  What the system returns is an argument: the address
    tables' mappings ([None]: failed), the two buffers of each write buffer,
    the storage files and freshly allocated write buffers. *)
Definition create (keyindex : I) (hsit : nat -> option Z) (pwb : nat -> Z * Z)
    (disk : nat -> vs_file) (mem_w : nat -> nat -> list vs_entry_t) (mem_gc : list vs_entry_t) (m : memory)
  : res (Prism I) :=
  _ ← assert_ (0 <? MTS_VS_HIGH_MARK);
  logs ← mapM (fun i => of_option NullDeref (OpLog.create (pwb i).1 (pwb i).2 i)) (seq 0 MTS_THREAD_NUM);
  tables ← mapM (fun i => AddressTable.create (hsit i) (Z.of_nat i)) (seq 0 MTS_THREAD_NUM);
  let vss := (fun i => ValueStorage.create (Z.of_nat i) (disk i) (mem_w i) mem_gc) <$> seq 0 MTS_VS_NUM in
  let rings := replicate MTS_VS_NUM (replicate MTS_THREAD_NUM (ReadRing [] 0)) in
  Ok (MkPrism keyindex tables logs vss rings (replicate MTS_THREAD_NUM []) (replicate MTS_THREAD_NUM [])
        CacheThread.create m).

(** * Where a value is *)

(** [get_val_pos]: the position, with [*cur_vs_id] when it is set.  The
    function has no [return] for an entry with neither a storage index nor a
    write-buffer tag. *)
Definition get_val_pos (m : memory) (at_entry : Z) : res (Z * option Z) :=
  x ← load_at m at_entry;
  let tag := get_tag (val_addr x) in
  if (-1 <? vs_id (vs_idx x)) && (-1 <? vs_offset (vs_idx x)) then
    if tag =? DCACHE_VAL then Ok (DCACHE_VAL, None)
    else Ok (VALUESTORAGE_VAL, Some (vs_id (vs_idx x)))
  else if tag =? OPLOG_VAL then Ok (OPLOG_VAL, None)
  else Err NoReturn.

Definition is_cached (m : memory) (at_entry : Z) : res bool :=
  x ← load_at m at_entry; Ok (get_tag (val_addr x) =? DCACHE_VAL).

(** * Queues of the cache thread

    [cqReady] and [fqReady] guard the queues; a step below holds the guard
    from its compare-and-swap to its release. *)

(** [key] is not set: [junk_key] is what the new object holds. *)
Definition cache_kv_item (w : Prism I) (junk_key val at_entry : Z) (qid : nat) : Prism I :=
  set_queues (alter (fun q => q ++ [[CqEntry at_entry junk_key val CT_LOOKUP]]) qid (g_cacheQueue w))
    (g_cacheFreeQueue w) w.

Definition cache_kv_items (w : Prism I) (vec : list cq_entry_t) (qid : nat) : Prism I :=
  set_queues (alter (fun q => q ++ [vec]) qid (g_cacheQueue w)) (g_cacheFreeQueue w) w.

Definition cache_free_kv_items (w : Prism I) (at_entry : Z) (qid : nat) : res (Prism I) :=
  c ← is_cached (p_mem w) at_entry;
  Ok (if (c : bool)
      then set_queues (g_cacheQueue w) (alter (fun q => q ++ [at_entry]) qid (g_cacheFreeQueue w)) w
      else w).

(** * Operations of the interface; [tid] is the calling thread *)

Definition insert (w : Prism I) (tid : nat) (key val : Z) : res (option (bool * Prism I)) :=
  addresstable ← nth_of (g_perNumaAddressTable w) tid;
  oplog ← nth_of (g_perNumaOpLog w) tid;
  r ← enq oplog (p_mem w) key val;
  match r with
  | None => Ok None
  | Some (op_entry, oplog', m1) =>
      '(at_entry, addresstable', m2) ← assign addresstable m1;
      m3 ← OpLog.link_to_at m2 op_entry at_entry;
      m4 ← link_to_ol m3 at_entry op_entry;
      Ok (Some (true,
        set_index (ki_insert (g_perNumaKeyIndex w) key at_entry)
          (set_table tid addresstable' (set_oplog tid oplog' (set_mem m4 w)))))
  end.

Definition update (w : Prism I) (tid : nat) (key val : Z) : res (option (bool * Prism I)) :=
  oplog ← nth_of (g_perNumaOpLog w) tid;
  let at_entry := ki_lookup (g_perNumaKeyIndex w) key in
  if at_entry =? 0 then Ok (Some (false, w))
  else
    r ← enq oplog (p_mem w) key val;
    match r with
    | None => Ok None
    | Some (op_entry, oplog', m1) =>
        m2 ← OpLog.link_to_at m1 op_entry at_entry;
        '(past, m3) ← link_to_ol_past m2 at_entry op_entry;
        let w1 := set_oplog tid oplog' (set_mem m3 w) in
        w2 ← (if negb (vs_offset past <? 0) && negb (vs_id past <? 0) then
                '(k, v) ← vs_of w1 (vs_id past);
                v' ← ValueStorage.unlink_to_at v (chunk_of (vs_offset past)) (entry_of (vs_offset past));
                Ok (set_vs k v' w1)
              else Ok w1);
        w3 ← cache_free_kv_items w2 at_entry tid;
        Ok (Some (true, w3))
    end.

(** A value in the cache or in a write buffer; [None]: the entry belongs to
    another address-table entry by now and the caller retries. *)
Definition get_dcache_val (m : memory) (at_entry : Z) : res (option Z) :=
  x ← load_at m at_entry;
  let dc_entry := get_untagged_ptr (val_addr x) in
  if dc_entry =? 0 then Ok None
  else
    e ← load_dc m dc_entry;
    Ok (if dc_at_entry e =? at_entry then Some (dc_val e) else None).

Definition get_oplog_val (m : memory) (at_entry : Z) : res (option Z) :=
  x ← load_at m at_entry;
  e ← load_op m (get_untagged_ptr (val_addr x));
  Ok (if opa e =? at_entry then Some (op_val e) else None).

(** A value in a storage is requested by a batch of one on ring 0 (one
    caller at a time: [apply_ops] of the combining queue then forms exactly
    that batch) and the call returns 0; the value arrives in the cache. *)
Definition lookup (w : Prism I) (key : Z) : res (option (Z * Prism I)) :=
  let at_entry := ki_lookup (g_perNumaKeyIndex w) key in
  if at_entry =? 0 then Ok (Some (0, w))
  else
    '(val_pos, cur_vs_id) ← get_val_pos (p_mem w) at_entry;
    if val_pos =? DCACHE_VAL then
      v ← get_dcache_val (p_mem w) at_entry; Ok (option_map (fun z => (z, w)) v)
    else if val_pos =? OPLOG_VAL then
      v ← get_oplog_val (p_mem w) at_entry; Ok (option_map (fun z => (z, w)) v)
    else
      '(k, _) ← vs_of w (default 0 cur_vs_id);
      ring ← ring_of w k 0;
      if negb (pending_ios ring =? 0) then Ok None
      else
        ring' ← get_val_ccsync (p_mem w) ring [at_entry];
        Ok (Some (0, set_ring k 0 ring' w)).

(** The first loop of [scan]: values found at once, and the entries to read
    from each storage. *)
Fixpoint scan_entries (m : memory) (results : list Z) (vec_result : list Z) (vs_at_vec : list (Z * Z))
  : res (option (list Z * list (Z * Z))) :=
  match results with
  | [] => Ok (Some (vec_result, vs_at_vec))
  | at_entry :: results' =>
      '(val_pos, cur_vs_id) ← get_val_pos m at_entry;
      if val_pos =? VALUESTORAGE_VAL
      then scan_entries m results' vec_result (vs_at_vec ++ [(default 0 cur_vs_id, at_entry)])
      else
        v ← (if val_pos =? DCACHE_VAL then get_dcache_val m at_entry else get_oplog_val m at_entry);
        match v with
        | None => Ok None
        | Some z => scan_entries m results' (vec_result ++ [z]) vs_at_vec
        end
  end.

(** The second loop: a batch per storage on the caller's ring. *)
Fixpoint scan_storages (w : Prism I) (ring_idx : nat) (vs_at_vec : list (Z * Z)) (vs_ids : list nat)
    (batched : Z) : res (option (Z * Prism I)) :=
  match vs_ids with
  | [] => Ok (Some (batched, w))
  | vs_id :: vs_ids' =>
      let vec := snd <$> filter (fun p => p.1 = Z.of_nat vs_id) vs_at_vec in
      match vec with
      | [] => scan_storages w ring_idx vs_at_vec vs_ids' batched
      | _ =>
          ring ← ring_of w vs_id ring_idx;
          if negb (pending_ios ring =? 0) then Ok None
          else
            ring' ← get_val_scan (p_mem w) ring vec;
            scan_storages (set_ring vs_id ring_idx ring' w) ring_idx vs_at_vec vs_ids'
              (batched + Z.of_nat (length vec))
      end
  end.

(** Returns the number of items and the values found at once. *)
Definition scan (w : Prism I) (tid : nat) (startKey : Z) (range : nat)
  : res (option (Z * list Z * Prism I)) :=
  let results := ki_lookupRange (g_perNumaKeyIndex w) startKey range in
  r ← scan_entries (p_mem w) results [] [];
  match r with
  | None => Ok None
  | Some (vec_result, vs_at_vec) =>
      r2 ← scan_storages w tid vs_at_vec (seq 0 MTS_VS_NUM) 0;
      Ok (option_map (fun p => (Z.of_nat (length vec_result) + p.1, vec_result, p.2)) r2)
  end.

(** The table of an entry: the first that claims it, else the last. *)
Fixpoint find_table (ts : list AddressTable) (k : nat) (at_entry : Z) : res (nat * AddressTable) :=
  match ts with
  | [] => Err OutOfRange
  | [t] => Ok (k, t)
  | t :: ts' => if -1 <? get_at_id t at_entry then Ok (k, t) else find_table ts' (S k) at_entry
  end.

(** [&at_entry->val_addr] read as a [vs_idx_t]: the second [int] is the upper
    half of the word. *)
Definition val_addr_as_vs_offset (x : at_entry_t) : Z := to_i32 (Z.shiftr (val_addr x) 32).

(** [vs_id] is set by [get_val_pos] only for a value in a storage. *)
Definition remove (w : Prism I) (tid : nat) (key : Z) : res (bool * Prism I) :=
  let at_entry := ki_lookup (g_perNumaKeyIndex w) key in
  '(val_pos, cur_vs_id) ← get_val_pos (p_mem w) at_entry;
  w1 ← (if val_pos =? OPLOG_VAL then
          m1 ← OpLog.unlink_to_at (p_mem w) at_entry; Ok (set_mem m1 w)
        else
          vs_id ← of_option Uninitialised cur_vs_id;
          '(k, v) ← vs_of w vs_id;
          x ← load_at (p_mem w) at_entry;
          let off := val_addr_as_vs_offset x in
          v' ← ValueStorage.unlink_to_at v (chunk_of off) (entry_of off);
          let w1 := set_vs k v' w in
          if val_pos =? DCACHE_VAL then cache_free_kv_items w1 at_entry tid else Ok w1);
  '(k, t) ← find_table (g_perNumaAddressTable w1) 0 at_entry;
  '(_, t', m2) ← AddressTable.free t (p_mem w1) at_entry;
  Ok (true, set_index (ki_remove (g_perNumaKeyIndex w1) key) (set_table k t' (set_mem m2 w1))).

(** After a restart: rebuilds the validity bit of one key. The case of a
    cached value falls through to that of a stored one. *)
Definition recover (w : Prism I) (key : Z) : res (bool * Prism I) :=
  let at_entry := ki_lookup (g_perNumaKeyIndex w) key in
  if at_entry =? 0 then Ok (false, w)
  else
    '(val_pos, _) ← get_val_pos (p_mem w) at_entry;
    if val_pos =? OPLOG_VAL then Ok (true, w)
    else
      m1 ← (if val_pos =? DCACHE_VAL then store_at (p_mem w) at_entry (set_val_addr 0) else Ok (p_mem w));
      x ← load_at m1 at_entry;
      '(k, v) ← vs_of w (vs_id (vs_idx x));
      v' ← set_vs_bitmap_info v (chunk_of (vs_offset (vs_idx x))) (entry_of (vs_offset (vs_idx x)));
      Ok (true, set_vs k v' (set_mem m1 w)).

(** * Background threads *)

(** The reclaim thread of log [tid], on the storage [k] it picked. *)
Definition reclaim_step (w : Prism I) (tid k : nat) : res (Prism I) :=
  L ← nth_of (g_perNumaOpLog w) tid;
  id ← of_option OutOfRange (reclaim_thread L);
  v ← nth_of (g_perNumaValueStorage w) k;
  '(L', v', m') ← reclaim L v (p_mem w) id;
  Ok (set_oplog tid L' (set_vs k v' (set_mem m' w))).

(** [IOCompleterThreadExec] while lookups run: ring 0 of storage [k]. *)
Definition completer_step (w : Prism I) (k : nat) : res (Prism I) :=
  v ← nth_of (g_perNumaValueStorage w) k;
  ring ← ring_of w k 0;
  if pending_ios ring =? 0 then Ok w
  else
    '(vec, ring') ← complete_pending_ios v ring;
    let w1 := set_ring k 0 ring' w in
    Ok (match vec with Some l => cache_kv_items w1 l 0 | None => w1 end).

(** The same once scans have begun: ring [ring_idx] of every storage. *)
Fixpoint completer_scan_loop (w : Prism I) (ring_idx : nat) (vs_ids : list nat) (vec : list cq_entry_t)
  : res (list cq_entry_t * Prism I) :=
  match vs_ids with
  | [] => Ok (vec, w)
  | k :: vs_ids' =>
      v ← nth_of (g_perNumaValueStorage w) k;
      ring ← ring_of w k ring_idx;
      if pending_ios ring =? 0 then completer_scan_loop w ring_idx vs_ids' vec
      else
        '(vec', ring') ← complete_pending_scan v ring CT_SCAN vec;
        completer_scan_loop (set_ring k ring_idx ring' w) ring_idx vs_ids' vec'
  end.

Definition completer_scan_step (w : Prism I) (ring_idx : nat) : res (Prism I) :=
  '(vec, w1) ← completer_scan_loop w ring_idx (seq 0 MTS_VS_NUM) [];
  Ok (match vec with [] => w1 | _ => cache_kv_items w1 vec ring_idx end).

(** [DramCacheThreadExec]: one entry of a free queue, one batch of a cache
    queue. *)
Definition run_cache (w : Prism I) (op : cstate -> res cstate) : res (Prism I) :=
  s ← op (CState (DramCacheThread w) (g_perNumaValueStorage w) (p_mem w));
  Ok (set_cache (cs_ct s) (set_vss (cs_vss s) (set_mem (cs_mem s) w))).

Definition cache_free_step (w : Prism I) (i : nat) : res (Prism I) :=
  q ← nth_of (g_cacheFreeQueue w) i;
  match q with
  | [] => Ok w
  | at_entry :: q' =>
      run_cache (set_queues (g_cacheQueue w) (<[i := q']> (g_cacheFreeQueue w)) w)
        (fun s => freeOperation s at_entry)
  end.

Definition cache_step (w : Prism I) (j : nat) : res (Prism I) :=
  q ← nth_of (g_cacheQueue w) j;
  match q with
  | [] => Ok w
  | vec :: q' =>
      run_cache (set_queues (<[j := q']> (g_cacheQueue w)) (g_cacheFreeQueue w) w)
        (fun s => cacheOperation s vec)
  end.
End mts.
