(* ===== verification/MtsInvariant.v ===== *)
(** The invariant of the key-value store, and the map it implements.

    [kv w] is the abstract state: the value of a key is the one its
    address-table entry leads to, in a value storage or in a write buffer.
    [mts_inv] says how index, address tables, write buffers, storages and
    cache fit together.  The central lemma, [repoint], is the step insertion
    and update share: a new value goes to a write buffer and an address-table
    entry is pointed at it. *)

From S2P Require Import Prelude Config TaggedPtr Objects AddressTable IoUring ValueStorage.
From S2P Require Import ChunkWrite ChunkAlloc GarbageCollection GcLoop Storage StorageIdle.
From S2P Require Import OpLog Reclaim LRUList CacheThread CacheInvariant ReadPath MTS.

Local Open Scope Z_scope.

(** * The abstract state *)

(** The address-table entry leads to a storage. *)
Definition in_vs (x : at_entry_t) : bool := (-1 <? vs_id (vs_idx x)) && (-1 <? vs_offset (vs_idx x)).

Definition disk_value (vss : list ValueStorage) (m : memory) (a : Z) : option Z :=
  x ← at_mem m !! a;
  if in_vs x
  then v ← vss !! Z.to_nat (vs_id (vs_idx x)); ve_val <$> vs_disk v !! vs_offset (vs_idx x)
  else None.

(** The value a cached entry must have: that of a key of the index. *)
Definition cur_value (K : gmap Z Z) (vss : list ValueStorage) (m : memory) (a : Z) : option Z :=
  _ ← K !! a; disk_value vss m a.

Definition value_of (vss : list ValueStorage) (m : memory) (a : Z) : option Z :=
  x ← at_mem m !! a;
  if in_vs x then disk_value vss m a
  else if get_tag (val_addr x) =? OPLOG_VAL
  then op_val <$> op_mem m !! get_untagged_ptr (val_addr x)
  else None.

Definition kv {I} `{KeyIndex I} (w : Prism I) (k : Z) : option Z :=
  a ← ki_map (g_perNumaKeyIndex w) !! k; value_of (g_perNumaValueStorage w) (p_mem w) a.

Section inv.
Context `{Config} `{IoUring} `{StdSort}.
Context `{!WfConfig _} `{!IoUringOk _}.

(** * Write buffers *)

(** [p] is an entry of log [b] of thread [j]. *)
Definition in_log (logs : list OpLog) (j : nat) (b : bool) (p : Z) : Prop :=
  exists L, logs !! j = Some L /\ p ∈ log_entries (the_oplog L b).

Record logs_inv (K : gmap Z Z) (logs : list OpLog) (m : memory) : Prop := {
  lg_ok : forall j L, logs !! j = Some L ->
    oplog_ok L m /\ (forall b, head_cnt (the_oplog L b) = 0) /\ g_oplog_id L = j;
  lg_apart : forall j L b j' L' b', logs !! j = Some L -> logs !! j' = Some L' -> (j, b) <> (j', b') ->
    disjoint_logs (the_oplog L b) (the_oplog L' b');
  lg_entry : forall j b p, in_log logs j b p ->
    exists e, op_mem m !! p = Some e /\ op_size e = KV_SIZE /\ K !! opa e = Some (op_key e);
  (** an entry its address-table entry leads to holds the current value *)
  lg_live : forall j b p e x, in_log logs j b p -> op_mem m !! p = Some e -> at_mem m !! opa e = Some x ->
    p = get_untagged_ptr (val_addr x) -> vs_idx x = VsIdx (-1) (-1) /\ get_tag (val_addr x) = OPLOG_VAL;
}.

(** * Where values are *)

Definition stored_at (vss : list ValueStorage) (m : memory) (a k : Z) (x : at_entry_t) : Prop :=
  exists v e, vss !! Z.to_nat (vs_id (vs_idx x)) = Some v /\ entry_of_at v m a e /\ ve_key e = k.

Definition logged_at (logs : list OpLog) (m : memory) (a k : Z) (x : at_entry_t) : Prop :=
  vs_idx x = VsIdx (-1) (-1) /\ exists j b p e, in_log logs j b p /\ user_addr p /\
    val_addr x = p + OPLOG_VAL * 2 ^ 56 /\ op_mem m !! p = Some e /\ opa e = a /\ op_key e = k.

Record data_inv (K : gmap Z Z) (logs : list OpLog) (vss : list ValueStorage) (m : memory) : Prop := {
  di_inj : K_inj K;
  di_logs : logs_inv K logs m;
  di_vss : forall j v, vss !! j = Some v -> vs_self v = Z.of_nat j /\ storage_inv K v m /\ idle v;
  di_placed : forall a k, K !! a = Some k -> a <> 0 /\
    exists x, at_mem m !! a = Some x /\ (stored_at vss m a k x \/ logged_at logs m a k x);
}.

(** * Facts *)

Lemma in_log_addr K logs m j b p : logs_inv K logs m -> in_log logs j b p ->
  exists L c, logs !! j = Some L /\ p = log_addr (the_oplog L b) c /\ (KV_SIZE | c).
Proof.
  intros Hl (L & HL & Hp). apply list_elem_of_fmap in Hp as (i & -> & _).
  destruct (lg_ok _ _ _ Hl j L HL) as (Hok & Hh & _).
  exists L, (head_cnt (the_oplog L b) + Z.of_nat i * KV_SIZE).
  split; [done|]. split; [done|]. rewrite Hh. apply Z.divide_add_r; [apply Z.divide_0_r|apply Z.divide_factor_r].
Qed.

(** A place in a log that is not one of its entries is an entry of no log. *)
Lemma fresh_in_no_log K logs m j L b p c : logs_inv K logs m -> logs !! j = Some L ->
  p = log_addr (the_oplog L b) c -> p ∉ log_entries (the_oplog L b) -> forall j' b', ~ in_log logs j' b' p.
Proof.
  intros Hl HL -> Hni j' b' Hin. destruct (decide ((j, b) = (j', b'))) as [[= <- <-]|Hne].
  - destruct Hin as (L' & HL' & Hin). by assert (L' = L) as -> by congruence.
  - destruct (in_log_addr _ _ _ _ _ _ Hl Hin) as (L' & c' & HL' & E & _).
    destruct (lg_ok _ _ _ Hl j L HL) as (Hok & _). destruct (lg_ok _ _ _ Hl j' L' HL') as (Hok' & _).
    pose proof (lg_apart _ _ _ Hl j L b j' L' b' HL HL' Hne) as Hd.
    eapply (disjoint_logs_addr _ _ m m c c'); [apply the_oplog_ok, Hok|apply the_oplog_ok, Hok'|done|done].
Qed.

Lemma slot_nonneg c j : chunk_in_range c -> entry_in_range j -> 0 <= slot c j.
Proof. intros Hc Hj. pose proof (slot_range c j Hc Hj) as Hr. unfold slot. lia. Qed.

Lemma entry_of_at_vs v m a e x : entry_of_at v m a e -> at_mem m !! a = Some x -> 0 <= vs_self v ->
  exists c j, vs_idx x = VsIdx (vs_self v) (slot c j) /\ holds v c j e /\ in_vs x = true.
Proof.
  intros (_ & c & j & Hh & x' & Hx' & Hp) Hx Hs. assert (x' = x) as -> by congruence. exists c, j.
  split; [done|]. split; [done|]. destruct Hh as (Hc & Hj & _). pose proof (slot_nonneg c j Hc Hj).
  unfold in_vs. rewrite Hp. cbn. rewrite !(proj2 (Z.ltb_lt (-1) _)) by lia. done.
Qed.

(** The value of a stored key. *)
Lemma disk_value_stored vss m a e v : vss !! Z.to_nat (vs_self v) = Some v -> 0 <= vs_self v ->
  entry_of_at v m a e -> disk_value vss m a = Some (ve_val e).
Proof.
  intros Hv Hs He. pose proof He as (_ & _ & _ & _ & x & Hx & _).
  destruct (entry_of_at_vs v m a e x He Hx Hs) as (c & j & Hi & Hh & Hin).
  unfold disk_value. rewrite Hx. cbn. rewrite Hin, Hi. cbn. rewrite Hv. cbn.
  destruct Hh as (_ & _ & _ & Hd). by rewrite Hd.
Qed.

(** A value is in one storage at most, and in none while it is logged. *)
Lemma holds_unique K logs vss m j v c i e a x : data_inv K logs vss m -> vss !! j = Some v ->
  holds v c i e -> ve_at_entry e = a -> at_mem m !! a = Some x ->
  vs_idx x = VsIdx (Z.of_nat j) (slot c i) /\ entry_of_at v m a e.
Proof.
  intros Hd Hv Hh <- Hx. destruct (di_vss _ _ _ _ Hd j v Hv) as (Hs & Hi & _).
  pose proof (holds_entry_of_at v m c i e (si_linked _ _ _ _ _ _ Hi) Hh) as He. split; [|done].
  pose proof Hh as (Hc & Hj & Hb & Hdk).
  destruct (li_valid _ _ (si_linked _ _ _ _ _ _ Hi) c i Hc Hj Hb) as (e' & Hd' & _ & x' & Hx' & Hp).
  assert (e' = e) as -> by congruence. assert (x' = x) as -> by congruence. by rewrite Hp, Hs.
Qed.

(** * Pointing an address-table entry at a new value *)

Definition repointed (m : memory) (a p key val : Z) : memory :=
  Memory (<[a := AtEntry (VsIdx (-1) (-1)) (p + OPLOG_VAL * 2 ^ 56)]> (at_mem m))
    (<[p := OpEntry val a key KV_SIZE]> (op_mem m)) (dc_mem m).

Lemma oplog_ok_intro L m :
  (forall b, log_ok (the_oplog L b) m /\ ol_id (the_oplog L b) = (if b then 0 else 1) /\
     tail_cnt (the_oplog L b) + KV_SIZE < 2 ^ 62) -> oplog_ok L m.
Proof.
  intros Hb. destruct (Hb true) as (? & ? & ?), (Hb false) as (? & ? & ?). by split.
Qed.

Lemma oplog_ok_elim L m b : oplog_ok L m ->
  log_ok (the_oplog L b) m /\ ol_id (the_oplog L b) = (if b then 0 else 1) /\
  tail_cnt (the_oplog L b) + KV_SIZE < 2 ^ 62.
Proof. intros []. by destruct b. Qed.

Lemma log_tail_small o m : log_ok o m -> head_cnt o = 0 -> tail_cnt o + KV_SIZE < 2 ^ 62.
Proof.
  intros Hok Hh. pose proof (lo_fits _ _ Hok). pose proof (lo_buffer _ _ Hok). pose proof wf_kv. lia.
Qed.

(** What happens to a storage: the entry of [a] is dropped, if it is there. *)
Record dropped (K' : gmap Z Z) (a : Z) (m m' : memory) (v v' : ValueStorage) : Prop := {
  dr_self : vs_self v' = vs_self v;
  dr_disk : vs_disk v' = vs_disk v;
  dr_idle : idle v';
  dr_inv : storage_inv K' v' m';
  dr_entries : forall d e, d <> a -> entry_of_at v' m' d e <-> entry_of_at v m d e;
}.

Section repoint.
Context (K : gmap Z Z) (logs : list OpLog) (vss : list ValueStorage) (m : memory).
Context (Hinv : data_inv K logs vss m).
Context (tid : nat) (L L' : OpLog) (b : bool) (p : Z) (e0 : op_entry_t) (m1 : memory).
Context (key val a : Z).
Context (HL : logs !! tid = Some L).
Context (Happ : appended (the_oplog L b) m key val p e0 (the_oplog L' b) m1).
Context (Hother : the_oplog L' (negb b) = the_oplog L (negb b)) (Hid : g_oplog_id L' = g_oplog_id L).
Context (Ha : a <> 0) (HaK : K !! a = None \/ K !! a = Some key).

Abbreviation m' := (repointed m a p key val).
Abbreviation K' := (<[a := key]> K).
Context (HK' : K_inj K').

Lemma repoint_fresh j c : ~ in_log logs j c p.
Proof.
  destruct (lg_ok _ _ _ (di_logs _ _ _ _ Hinv) tid L HL) as (Hok & Hh & _).
  eapply (fresh_in_no_log K logs m tid L b p (tail_cnt (the_oplog L b))); [apply Hinv|done| |apply Happ].
  destruct (oplog_ok_elim L m b Hok) as (Hl & _). pose proof (ap_entries _ _ _ _ _ _ _ _ Happ) as E.
  pose proof (ap_ok _ _ _ _ _ _ _ _ Happ) as Hl'.
  pose proof (log_length_mul _ _ Hl) as Hlen. pose proof (log_length_mul _ _ Hl') as Hlen'.
  rewrite (ap_tail _ _ _ _ _ _ _ _ Happ), (ap_head _ _ _ _ _ _ _ _ Happ), Hh in Hlen'. rewrite Hh in Hlen.
  pose proof wf_kv_pos. assert (log_length (the_oplog L' b) = S (log_length (the_oplog L b))) as ES by nia.
  unfold log_entries in E. rewrite ES, seq_S, fmap_app in E. apply app_inj_2 in E as [_ E]; [|done].
  cbn in E. injection E as E. rewrite <- E. unfold log_addr.
  rewrite (ap_buffer _ _ _ _ _ _ _ _ Happ), (ap_head _ _ _ _ _ _ _ _ Happ), Hh.
  rewrite (lo_size _ _ Hl), (lo_size _ _ Hl'). do 2 f_equal. lia.
Qed.

Lemma repoint_in_log j c q : in_log (<[tid := L']> logs) j c q <->
  in_log logs j c q \/ (j = tid /\ c = b /\ q = p).
Proof.
  pose proof (ap_entries _ _ _ _ _ _ _ _ Happ) as E.
  assert (tid < length logs)%nat as Hlt by (by eapply lookup_lt_Some). unfold in_log.
  destruct (decide (j = tid)) as [->|Hne].
  - rewrite list_lookup_insert_eq by done. split.
    + intros (L1 & [= <-] & Hq). destruct (decide (c = b)) as [->|Hc].
      * rewrite E in Hq. apply elem_of_app in Hq as [Hq|Hq%list_elem_of_singleton]; [left; eauto|by right].
      * left. exists L. split; [done|]. assert (c = negb b) as -> by (by destruct c, b). congruence.
    + intros [(L1 & HL1 & Hq)|(_ & -> & ->)]; exists L'; (split; [done|]).
      * assert (L1 = L) as -> by congruence. destruct (decide (c = b)) as [->|Hc].
        -- rewrite E. apply elem_of_app. by left.
        -- assert (c = negb b) as -> by (by destruct c, b). congruence.
      * rewrite E. apply elem_of_app. right. by apply list_elem_of_singleton.
  - rewrite list_lookup_insert_ne by done. split; [by left|]. intros [?|(? & _)]; done.
Qed.

Lemma repoint_op q e : op_mem m !! q = Some e -> q <> p -> op_mem m' !! q = Some e.
Proof. intros Hq Hne. cbn. by rewrite lookup_insert_ne. Qed.

Lemma repoint_at d : d <> a -> at_mem m' !! d = at_mem m !! d.
Proof. intros Hne. cbn. by rewrite lookup_insert_ne. Qed.

Lemma repoint_K d k : K !! d = Some k -> K' !! d = Some k.
Proof.
  intros Hd. destruct (decide (a = d)) as [<-|]; [|by rewrite lookup_insert_ne].
  rewrite lookup_insert_eq. destruct HaK; congruence.
Qed.

Lemma repoint_oplog_ok j L1 : <[tid := L']> logs !! j = Some L1 ->
  exists L0, logs !! j = Some L0 /\ oplog_ok L1 m' /\ (forall c, head_cnt (the_oplog L1 c) = 0) /\
    g_oplog_id L1 = j /\
    forall c, buffer (the_oplog L1 c) = buffer (the_oplog L0 c) /\ log_size (the_oplog L1 c) = log_size (the_oplog L0 c).
Proof.
  assert (forall o, log_ok o m -> log_ok o m') as Hmono.
  { intros o. apply log_ok_mem. intros q [e Hq]. cbn. destruct (decide (p = q)) as [<-|].
    - by rewrite lookup_insert_eq.
    - by rewrite lookup_insert_ne. }
  pose proof (di_logs _ _ _ _ Hinv) as Hlg. intros Hj.
  assert (tid < length logs)%nat as Hlt by (by eapply lookup_lt_Some).
  destruct (decide (j = tid)) as [->|Hne].
  - rewrite list_lookup_insert_eq in Hj by done. injection Hj as <-. exists L.
    destruct (lg_ok _ _ _ Hlg tid L HL) as (Hok & Hh & Hg).
    assert (forall c, log_ok (the_oplog L' c) m' /\ ol_id (the_oplog L' c) = (if c then 0 else 1) /\
      head_cnt (the_oplog L' c) = 0 /\ buffer (the_oplog L' c) = buffer (the_oplog L c)) as Hc.
    { intros c. destruct (oplog_ok_elim L m c Hok) as (Hl & Hi & _). destruct (decide (c = b)) as [->|Hc].
      - destruct Happ as [_ Em _ _ _ Hl' Eh _ _ Ei Eb]. rewrite Eh, Ei, Eb. split; [|done].
        eapply log_ok_mem; [|exact Hl']. intros q Hq. rewrite Em in Hq. cbn in *.
        destruct (decide (p = q)) as [<-|]; [by rewrite lookup_insert_eq|].
        by rewrite lookup_insert_ne in * by done.
      - assert (c = negb b) as -> by (by destruct c, b). rewrite Hother. split; [by apply Hmono|done]. }
    split; [done|]. split; [|split; [|split; [congruence|]]].
    + apply oplog_ok_intro. intros c. destruct (Hc c) as (? & ? & ? & ?).
      split; [done|]. split; [done|]. by eapply log_tail_small.
    + intros c. apply Hc.
    + intros c. destruct (Hc c) as (Hl & _ & _ & ?). split; [done|].
      rewrite (lo_size _ _ Hl). destruct (oplog_ok_elim L m c Hok) as (Hl0 & _). by rewrite (lo_size _ _ Hl0).
  - rewrite list_lookup_insert_ne in Hj by done. exists L1.
    destruct (lg_ok _ _ _ Hlg j L1 Hj) as (Hok & Hh & Hg). split; [done|]. split; [|done].
    apply oplog_ok_intro. intros c. destruct (oplog_ok_elim L1 m c Hok) as (? & ? & ?). auto.
Qed.

Lemma repoint_logs : logs_inv K' (<[tid := L']> logs) m'.
Proof.
  pose proof (di_logs _ _ _ _ Hinv) as Hlg. destruct (ap_addr _ _ _ _ _ _ _ _ Happ) as [Hpz Hpu]. split.
  - intros j L1 Hj. destruct (repoint_oplog_ok j L1 Hj) as (L0 & _ & ? & ? & ? & _). done.
  - intros j L1 c j2 L2 c2 Hj Hj2 Hne. destruct (repoint_oplog_ok j L1 Hj) as (L10 & H10 & _ & _ & _ & B1).
    destruct (repoint_oplog_ok j2 L2 Hj2) as (L20 & H20 & _ & _ & _ & B2).
    pose proof (lg_apart _ _ _ Hlg j L10 c j2 L20 c2 H10 H20 Hne) as Hd. unfold disjoint_logs in *.
    destruct (B1 c) as [-> ->], (B2 c2) as [-> ->]. done.
  - intros j c q [Hq|(-> & -> & ->)]%repoint_in_log.
    + destruct (lg_entry _ _ _ Hlg j c q Hq) as (e & He & Hs & Hk). exists e.
      split; [apply repoint_op; [done|]; intros ->; by eapply repoint_fresh|]. split; [done|by apply repoint_K].
    + exists (OpEntry val a key KV_SIZE). cbn. by rewrite !lookup_insert_eq.
  - intros j c q e x [Hq|(-> & -> & ->)]%repoint_in_log He Hx E.
    + assert (q <> p) as Hne by (intros ->; by eapply repoint_fresh).
      cbn in He. rewrite lookup_insert_ne in He by done.
      destruct (decide (opa e = a)) as [Eo|Hna].
      * cbn in Hx. rewrite Eo, lookup_insert_eq in Hx. injection Hx as <-. cbn in E.
        rewrite get_untagged_shape in E by done. done.
      * rewrite repoint_at in Hx by done. by eapply (lg_live _ _ _ Hlg j c q).
    + cbn in He. rewrite lookup_insert_eq in He. injection He as <-. cbn in Hx.
      rewrite lookup_insert_eq in Hx. injection Hx as <-. cbn. split; [done|].
      by rewrite get_tag_shape by (done || (unfold OPLOG_VAL; lia)).
Qed.

(** Storages without an entry of [a] are as they were. *)
Lemma dropped_same j v : vss !! j = Some v -> (forall c i e, holds v c i e -> ve_at_entry e <> a) ->
  dropped K' a m m' v v.
Proof.
  intros Hv Hno. destruct (di_vss _ _ _ _ Hinv j v Hv) as (_ & Hi & Hid0).
  assert (K ⊆ K') as Hsub by (apply map_subseteq_spec; intros; by apply repoint_K).
  destruct (storage_at K' v m m') as [Hi' Hent]; [by eapply storage_keys|done| |].
  { intros c i e Hh. rewrite repoint_at; [done|]. by eapply Hno. }
  by split.
Qed.

Lemma dropped_unlink j v c i e : vss !! j = Some v -> holds v c i e -> ve_at_entry e = a ->
  exists v', ValueStorage.unlink_to_at v c i = Ok v' /\ dropped K' a m m' v v'.
Proof.
  intros Hv Hh Hea. destruct (di_vss _ _ _ _ Hinv j v Hv) as (_ & Hi & Hid0).
  assert (K ⊆ K') as Hsub by (apply map_subseteq_spec; intros; by apply repoint_K).
  destruct (storage_unlink K' v m c i e) as (v' & Hun & Hid1 & Hs & Hd & _ & Hm); [by eapply storage_keys|done|done|].
  exists v'. split; [done|]. destruct (Hm m') as [Hi' Hent].
  { intros d Hne. rewrite repoint_at; [done|congruence]. }
  split; try done. intros d e' Hne. apply Hent. congruence.
Qed.

Context (vss' : list ValueStorage) (Hvss : Forall2 (dropped K' a m m') vss vss').

Lemma repoint_vs j v' : vss' !! j = Some v' -> exists v, vss !! j = Some v /\ dropped K' a m m' v v'.
Proof. intros Hj. by destruct (Forall2_lookup_r _ _ _ _ _ Hvss Hj) as (v & ? & ?); eauto. Qed.

Lemma repoint_vs_l j v : vss !! j = Some v -> exists v', vss' !! j = Some v' /\ dropped K' a m m' v v'.
Proof. intros Hj. by destruct (Forall2_lookup_l _ _ _ _ _ Hvss Hj) as (v' & ? & ?); eauto. Qed.

Lemma repoint_placed d k : K' !! d = Some k -> d <> 0 /\
  exists x, at_mem m' !! d = Some x /\
    (stored_at vss' m' d k x \/ logged_at (<[tid := L']> logs) m' d k x).
Proof.
  destruct (ap_addr _ _ _ _ _ _ _ _ Happ) as [Hpz Hpu].
  intros [[<- <-]|[Hne Hd]]%lookup_insert_Some.
  - split; [done|]. eexists. split; [cbn; apply lookup_insert_eq|]. right. split; [done|].
    exists tid, b, p, (OpEntry val a key KV_SIZE). split; [apply repoint_in_log; by right|].
    split; [done|]. split; [done|]. split; [cbn; apply lookup_insert_eq|done].
  - destruct (di_placed _ _ _ _ Hinv d k Hd) as (Hz & x & Hx & Hp). split; [done|]. exists x.
    rewrite repoint_at by done. split; [done|]. destruct Hp as [(v & e & Hv & He & Hk)|(Hi & j & c & q & e & Hq & R)].
    + left. destruct (repoint_vs_l _ _ Hv) as (v' & Hv' & Hdr). exists v', e. split; [done|].
      split; [by apply (dr_entries _ _ _ _ _ _ Hdr)|done].
    + right. split; [done|]. exists j, c, q, e. split; [apply repoint_in_log; by left|].
      destruct R as (? & ? & He & ?). split; [done|]. split; [done|]. split; [|done].
      apply repoint_op; [done|]. intros ->. by eapply repoint_fresh.
Qed.

Lemma repoint_data : data_inv K' (<[tid := L']> logs) vss' m'.
Proof.
  split; [done|apply repoint_logs| |apply repoint_placed].
  intros j v' Hv'. destruct (repoint_vs j v' Hv') as (v & Hv & [Hs _ Hi Hst _]).
  destruct (di_vss _ _ _ _ Hinv j v Hv) as (Hsv & _). rewrite Hs. done.
Qed.

(** The new value is there and the others are as they were. *)
Lemma repoint_disk d : d <> a -> disk_value vss' m' d = disk_value vss m d.
Proof.
  intros Hne. unfold disk_value. rewrite repoint_at by done. destruct (at_mem m !! d) as [x|]; [|done]. cbn.
  destruct (in_vs x); [|done]. destruct (vss !! Z.to_nat (vs_id (vs_idx x))) as [v|] eqn:Hv.
  - destruct (repoint_vs_l _ _ Hv) as (v' & -> & Hdr). cbn. by rewrite (dr_disk _ _ _ _ _ _ Hdr).
  - destruct (vss' !! Z.to_nat (vs_id (vs_idx x))) as [v'|] eqn:Hv'; [|done].
    destruct (repoint_vs _ _ Hv') as (v & Hv0 & _). congruence.
Qed.

Lemma repoint_value : value_of vss' m' a = Some val.
Proof.
  destruct (ap_addr _ _ _ _ _ _ _ _ Happ) as [Hpz Hpu]. unfold value_of. cbn. rewrite lookup_insert_eq. cbn.
  rewrite get_tag_shape, get_untagged_shape by (done || (unfold OPLOG_VAL; lia)). cbn.
  by rewrite lookup_insert_eq.
Qed.

Lemma repoint_value_other d k : d <> a -> K !! d = Some k -> value_of vss' m' d = value_of vss m d.
Proof.
  intros Hne Hd. destruct (di_placed _ _ _ _ Hinv d k Hd) as (_ & x & Hx & Hp).
  unfold value_of. rewrite repoint_disk, repoint_at by done. rewrite Hx. cbn.
  destruct (in_vs x) eqn:Hin; [done|]. destruct Hp as [(v & e & Hv & He & _)|(Hi & j & c & q & e & Hq & Hu & Hw & Hop & _)].
  - exfalso. destruct (di_vss _ _ _ _ Hinv _ _ Hv) as (Hs & _).
    destruct (entry_of_at_vs v m d e x He Hx) as (_ & _ & _ & _ & ?); [lia|congruence].
  - rewrite Hw, get_untagged_shape by done. destruct (_ =? _); [|done]. f_equal. cbn.
    apply lookup_insert_ne. intros <-. by eapply repoint_fresh.
Qed.

(** The cache loses [a] and keeps the rest. *)
Lemma repoint_cached l : cached (cur_value K vss m) m l -> cached (cur_value K' vss' m') m' l.
Proof.
  destruct (ap_addr _ _ _ _ _ _ _ _ Happ) as [Hpz Hpu]. intros [A B C]. split.
  - intros q Hq. destruct (A q Hq) as (e & x & He & S1 & S2 & Hz & Hx & Hu & Hop). exists e.
    assert (dc_place m' q) as Hpl.
    { split; [done|]. cbn. rewrite lookup_insert_ne; [done|]. intros <-.
      by rewrite (ap_old _ _ _ _ _ _ _ _ Happ) in Hop. }
    destruct (decide (dc_at_entry e = a)) as [E|Hne].
    + exists (AtEntry (VsIdx (-1) (-1)) (p + OPLOG_VAL * 2 ^ 56)). rewrite E.
      split; [done|]. split; [done|]. split; [done|]. split; [done|]. split; [cbn; apply lookup_insert_eq|done].
    + exists x. by rewrite repoint_at.
  - intros d x Hx Ht. destruct (decide (d = a)) as [->|Hne].
    + cbn in Hx. rewrite lookup_insert_eq in Hx. injection Hx as <-. cbn in Ht.
      rewrite get_tag_shape in Ht by (done || (unfold OPLOG_VAL; lia)). done.
    + rewrite repoint_at in Hx by done. unfold cur_value. rewrite repoint_disk, lookup_insert_ne by done.
      by apply B.
  - intros d x Hx. cbn in Hx. apply lookup_insert_Some in Hx as [[<- <-]|[_ Hx]]; [|by apply (C d)].
    by exists p, OPLOG_VAL.
Qed.
End repoint.
End inv.
