(* ===== verification/MtsOps.v ===== *)
(** The operations of the key-value store refine a map.

    [prism_ok] is the invariant of the whole state.  [insert] and [update]
    change the map [kv] at one key; [lookup] and [scan] report it. *)

From S2P Require Import Prelude Config TaggedPtr Objects AddressTable IoUring ValueStorage.
From S2P Require Import ChunkWrite ChunkAlloc GarbageCollection GcLoop Storage StorageIdle.
From S2P Require Import OpLog Reclaim LRUList CacheThread CacheInvariant ReadPath MTS MtsInvariant.

Local Open Scope Z_scope.

Section ops.
Context `{Config} `{IoUring} `{StdSort} `{CE : CacheEnv} `{!CacheEnvOk CE}.
Context `{!WfConfig _} `{!IoUringOk _}.
Context {I : Type} `{KeyIndex I} `{!KeyIndexOk I}.

(** * Address tables *)

Record tables_inv (K : gmap Z Z) (ts : list AddressTable) (m : memory) : Prop := {
  tb_inv : forall j t, ts !! j = Some t -> at_inv t m;
  tb_apart : forall j t j' t', ts !! j = Some t -> ts !! j' = Some t' -> j <> j' ->
    forall i i', 0 <= i < MTS_AT_ENTRY_NUM -> 0 <= i' < MTS_AT_ENTRY_NUM -> entry_addr t i <> entry_addr t' i';
  tb_live : forall a k, K !! a = Some k -> exists j t i, ts !! j = Some t /\ live t i /\ a = entry_addr t i;
}.

Lemma tables_inv_dom K ts m m' : tables_inv K ts m ->
  (forall a, is_Some (at_mem m !! a) -> is_Some (at_mem m' !! a)) -> tables_inv K ts m'.
Proof. intros [A B C] Hd. split; [|done|done]. intros j t Ht. by eapply at_inv_dom; [eapply A|]. Qed.

(** * The invariant *)

Record mts_inv (w : Prism I) (K : gmap Z Z) (la li : list Z) : Prop := {
  mi_index : forall a k, K !! a = Some k <-> ki_map (g_perNumaKeyIndex w) !! k = Some a;
  mi_tables : tables_inv K (g_perNumaAddressTable w) (p_mem w);
  mi_data : data_inv K (g_perNumaOpLog w) (g_perNumaValueStorage w) (p_mem w);
  mi_cache : cache_inv (cur_value K (g_perNumaValueStorage w) (p_mem w))
    (CState (DramCacheThread w) (g_perNumaValueStorage w) (p_mem w)) la li;
  mi_fits : fits (CState (DramCacheThread w) (g_perNumaValueStorage w) (p_mem w)) la li;
  mi_sized : cache_sized (CState (DramCacheThread w) (g_perNumaValueStorage w) (p_mem w));
}.

Definition prism_ok (w : Prism I) : Prop := exists K la li, mts_inv w K la li.

(** A key of the index has a value. *)
Lemma kv_value w K la li a k : mts_inv w K la li -> K !! a = Some k ->
  kv w k = value_of (g_perNumaValueStorage w) (p_mem w) a.
Proof. intros Hm Ha. unfold kv. apply (mi_index _ _ _ _ Hm) in Ha. by rewrite Ha. Qed.

(** * Insertion *)

Lemma at_room_mem t m m' : at_mem m' = at_mem m -> at_room t m -> at_room t m'.
Proof.
  intros E. assert (forall i, AddressTable.is_empty t m' i = AddressTable.is_empty t m i) as Ei
    by (intros i; unfold AddressTable.is_empty, load_at; by rewrite E).
  unfold at_room. destruct (whole_file_written t); [done|]. intros (i & Hi & He). exists i. by rewrite Ei.
Qed.

(** The entry [assign] hands out belongs to no key. *)
Lemma assigned_unused K ts m tid t off : tables_inv K ts m -> ts !! tid = Some t ->
  0 <= off < MTS_AT_ENTRY_NUM -> ~ live t off -> K !! entry_addr t off = None.
Proof.
  intros Ht Htid Hoff Hnl. destruct (K !! entry_addr t off) as [k|] eqn:E; [|done]. exfalso.
  destruct (tb_live _ _ _ Ht _ _ E) as (j & t2 & i & Hj & Hl & Ha).
  pose proof (inv_next _ _ (tb_inv _ _ _ Ht j t2 Hj)) as Hn. destruct (Hl) as [Hr _].
  destruct (decide (j = tid)) as [->|Hne].
  - assert (t2 = t) as -> by congruence. apply entry_addr_inj in Ha as ->. done.
  - symmetry in Ha. eapply (tb_apart _ _ _ Ht j t2 tid t); [done|done|done| |exact Hoff|exact Ha]. lia.
Qed.

Lemma tables_assigned K ts m m' tid t t' off key : tables_inv K ts m -> ts !! tid = Some t ->
  0 <= off < MTS_AT_ENTRY_NUM -> live t' off -> (forall i, live t i -> live t' i) -> at_inv t' m' ->
  at_starting_addr t' = at_starting_addr t -> (forall a, is_Some (at_mem m !! a) -> is_Some (at_mem m' !! a)) ->
  tables_inv (<[entry_addr t off := key]> K) (<[tid := t']> ts) m'.
Proof.
  intros Ht Htid Hoff Hl Hmono Hi Hs Hdom.
  assert (tid < length ts)%nat as Hlt by (by eapply lookup_lt_Some).
  assert (forall i, entry_addr t' i = entry_addr t i) as Ea by (intros i; unfold entry_addr; by rewrite Hs).
  split.
  - intros j t2 Hj. apply list_lookup_insert_Some in Hj as [(<- & <- & _)|(_ & Hj)]; [done|].
    eapply at_inv_dom; [by eapply (tb_inv _ _ _ Ht)|done].
  - intros j t1 j' t2 Hj Hj' Hne i i'.
    apply list_lookup_insert_Some in Hj as [(<- & <- & _)|(Hn & Hj)];
      apply list_lookup_insert_Some in Hj' as [(<- & <- & _)|(Hn' & Hj')]; rewrite ?Ea; try done;
      by eapply (tb_apart _ _ _ Ht).
  - intros a k [[<- <-]|[Hn Hk]]%lookup_insert_Some.
    + exists tid, t', off. by rewrite list_lookup_insert_eq, Ea.
    + destruct (tb_live _ _ _ Ht a k Hk) as (j & t2 & i & Hj & Hli & ->).
      destruct (decide (j = tid)) as [->|Hne].
      * assert (t2 = t) as -> by congruence. exists tid, t', i. rewrite list_lookup_insert_eq by done.
        split; [done|]. split; [by apply Hmono|]. by rewrite Ea.
      * exists j, t2, i. by rewrite list_lookup_insert_ne.
Qed.

(** * The step insertion and update share *)

Lemma lru_cached cur cur' ct vss vss' m m' la li : dc_mem m' = dc_mem m ->
  (forall l, cached cur m l -> cached cur' m' l) ->
  cache_inv cur (CState ct vss m) la li -> cache_inv cur' (CState ct vss' m') la li.
Proof.
  intros Hd Hc [La Li Ta Ti Hnd Hh Hca]. split; cbn in *; try done.
  - by eapply lru_dc_mem.
  - by eapply lru_dc_mem.
  - by rewrite Hd.
  - by apply Hc.
Qed.

Lemma cache_sized_ext s s' : cs_ct s' = cs_ct s -> size (op_mem (cs_mem s')) = size (op_mem (cs_mem s)) ->
  cache_sized s -> cache_sized s'.
Proof. intros E1 E2 []. split; rewrite ?E1, ?E2; done. Qed.

Lemma index_inj K (idx : gmap Z Z) : (forall a k, K !! a = Some k <-> idx !! k = Some a) -> K_inj K.
Proof. intros Hi a d k Ha Hd. apply Hi in Ha, Hd. congruence. Qed.

(** A new key. *)
Lemma index_insert (K idx : gmap Z Z) a key : (forall d k, K !! d = Some k <-> idx !! k = Some d) ->
  K !! a = None -> idx !! key = None ->
  forall d k, <[a := key]> K !! d = Some k <-> <[key := a]> idx !! k = Some d.
Proof.
  intros Hi Ha Hk d k. rewrite !lookup_insert_Some, Hi.
  split; (intros [[-> ->]|[Hn Hd]]; [by left|right]); (split; [|done]).
  - intros ->. congruence.
  - intros <-. apply Hi in Hd. congruence.
Qed.

(** [val] has been written for [key], whose address-table entry is [a]. *)
Record written (K : gmap Z Z) (w w' : Prism I) (a p key val : Z) : Prop := {
  wr_mem : p_mem w' = repointed (p_mem w) a p key val;
  wr_addr : user_addr p;
  wr_key : K !! a = None \/ K !! a = Some key;
  wr_vss : Forall2 (dropped (<[a := key]> K) a (p_mem w) (p_mem w'))
    (g_perNumaValueStorage w) (g_perNumaValueStorage w');
  wr_rings : r_ring w' = r_ring w;
  wr_queue : g_cacheQueue w' = g_cacheQueue w;
  wr_free : g_cacheFreeQueue w' = g_cacheFreeQueue w;
}.

Definition maps_to (w w' : Prism I) (key val : Z) : Prop :=
  forall k, kv w' k = if decide (k = key) then Some val else kv w k.

Lemma repoint_world w w' K la li tid L L' b p e0 m1 key val a :
  mts_inv w K la li -> g_perNumaOpLog w !! tid = Some L ->
  appended (the_oplog L b) (p_mem w) key val p e0 (the_oplog L' b) m1 ->
  the_oplog L' (negb b) = the_oplog L (negb b) -> g_oplog_id L' = g_oplog_id L ->
  a <> 0 -> written K w w' a p key val ->
  (forall d k, <[a := key]> K !! d = Some k <-> ki_map (g_perNumaKeyIndex w') !! k = Some d) ->
  tables_inv (<[a := key]> K) (g_perNumaAddressTable w') (p_mem w') ->
  g_perNumaOpLog w' = <[tid := L']> (g_perNumaOpLog w) -> DramCacheThread w' = DramCacheThread w ->
  mts_inv w' (<[a := key]> K) la li /\ maps_to w w' key val.
Proof.
  intros Hm HL Ha Ho Hi Hz [Em _ HaK Hv _ _ _] Hidx Htb El Ec. rewrite Em in *.
  pose proof (mi_data _ _ _ _ Hm) as Hd. pose proof (index_inj _ _ Hidx) as HK.
  split.
  - split; rewrite ?Em, ?El, ?Ec; try done.
    + by eapply repoint_data.
    + eapply lru_cached; [| |apply (mi_cache _ _ _ _ Hm)]; [done|]. intros l. by eapply repoint_cached.
    + apply (mi_fits _ _ _ _ Hm).
    + eapply cache_sized_ext; [| |apply (mi_sized _ _ _ _ Hm)]; [done|]. cbn.
      apply map_size_insert_Some. rewrite (ap_old _ _ _ _ _ _ _ _ Ha). done.
  - intros k. unfold kv at 1. rewrite Em. case_decide as Hk.
    + subst k. assert (<[a := key]> K !! a = Some key) as Hka by apply lookup_insert_eq.
      apply Hidx in Hka. rewrite Hka. cbn. by eapply repoint_value.
    + destruct (ki_map (g_perNumaKeyIndex w') !! k) as [d|] eqn:Ek.
      * apply Hidx, lookup_insert_Some in Ek as [[_ ?]|[Hne HdK]]; [done|]. cbn.
        rewrite (kv_value w K la li d k Hm HdK). by eapply repoint_value_other.
      * unfold kv. cbn. destruct (ki_map (g_perNumaKeyIndex w) !! k) as [d|] eqn:Ed; [|done]. exfalso.
        apply (mi_index _ _ _ _ Hm) in Ed. assert (a <> d) as Hne by (intros ->; destruct HaK; congruence).
        rewrite <- (lookup_insert_ne K a d key Hne) in Ed. apply Hidx in Ed. congruence.
Qed.

(** Linking the new log entry and the address-table entry, after [enq]. *)
Lemma link_entries o m key val p e o' m1 a m2 y : appended o m key val p e o' m1 -> a <> 0 ->
  m2 = upd_at m1 a y -> vs_idx y = VsIdx (-1) (-1) ->
  exists m3, OpLog.link_to_at m2 p a = Ok m3 /\ link_to_ol m3 a p = Ok (repointed m a p key val).
Proof.
  intros [Hold Em [Hpz Hpu] _ _ _ _ _ _ _ _] Ha -> Hy. subst m1. unfold OpLog.link_to_at, link_to_ol.
  erewrite store_op_some; [|done|cbn; apply lookup_insert_eq]. eexists. split; [done|].
  erewrite store_at_some; [|done|cbn; apply lookup_insert_eq].
  unfold repointed, upd_at, upd_op. cbn. rewrite !insert_insert_eq. unfold set_val_addr. rewrite Hy.
  by rewrite put_tagged_plain by (done || (unfold OPLOG_VAL; lia)).
Qed.

Definition log_ready (w : Prism I) (tid : nat) : Prop :=
  exists L, g_perNumaOpLog w !! tid = Some L /\ enq_ready L.
Definition table_ready (w : Prism I) (tid : nat) : Prop :=
  exists t, g_perNumaAddressTable w !! tid = Some t /\ at_room t (p_mem w).

Lemma insert_spec w K la li tid key val : mts_inv w K la li -> ki_map (g_perNumaKeyIndex w) !! key = None ->
  log_ready w tid -> table_ready w tid ->
  exists w' a p, insert w tid key val = Ok (Some (true, w')) /\ mts_inv w' (<[a := key]> K) la li /\
    maps_to w w' key val /\ written K w w' a p key val.
Proof.
  intros Hm Hnew (L & HL & Hrdy) (t & Ht & Hroom).
  pose proof (mi_data _ _ _ _ Hm) as Hd. pose proof (mi_tables _ _ _ _ Hm) as Htb.
  destruct (lg_ok _ _ _ (di_logs _ _ _ _ Hd) tid L HL) as (Hok & _).
  destruct (enq_spec L (p_mem w) key val Hok Hrdy) as (b & p & e0 & o' & m1 & L' & Henq & Ha & <- & Ho & Hi).
  pose proof (tb_inv _ _ _ Htb tid t Ht) as Hinv.
  assert (at_mem m1 = at_mem (p_mem w)) as Eat by (by rewrite (ap_mem _ _ _ _ _ _ _ _ Ha)).
  assert (at_inv t m1) as Hinv1 by (eapply at_inv_dom; [done|]; by rewrite Eat).
  destruct (assign_succeeds t m1 Hinv1) as (a & t' & m2 & Has).
  { by eapply at_room_mem. }
  destruct (assign_spec t m1 a t' m2 Hinv1 Has) as (off & Hoff & -> & Hnl & Hl & Hmono & Em2 & Hinv2 & Hs).
  assert (entry_addr t off <> 0) as Hz by (eapply entry_addr_nonnull; [done|lia]).
  destruct (link_entries _ _ _ _ _ _ _ _ (entry_addr t off) m2 AddressTable.alloc Ha Hz Em2) as (m3 & R1 & R2); [done|].
  pose proof (assigned_unused K _ _ tid t off Htb Ht Hoff Hnl) as HaK.
  pose proof (index_insert K _ (entry_addr t off) key (mi_index _ _ _ _ Hm) HaK Hnew) as Hidx.
  unfold insert, nth_of. rewrite Ht, HL. cbn [of_option mbind res_bind]. rewrite Henq. cbn [mbind res_bind].
  rewrite Has. cbn [mbind res_bind]. rewrite R1. cbn [mbind res_bind]. rewrite R2. cbn [mbind res_bind].
  eexists _, (entry_addr t off), p. split; [done|]. set (w' := set_index _ _).
  assert (written K w w' (entry_addr t off) p key val) as Hwr.
  { split; try done; [apply (ap_addr _ _ _ _ _ _ _ _ Ha)|by left|].
    apply Forall2_same_length_lookup. split; [done|]. intros j v v' Hv Hv'. cbn in Hv'.
    assert (v' = v) as -> by congruence.
    eapply dropped_same; try done; [by left|by eapply index_inj|].
    intros c i e Hh Ee. destruct (di_vss _ _ _ _ Hd j v Hv) as (_ & Hsi & _).
    pose proof (si_keyed_disk _ _ _ _ _ _ Hsi c i e Hh) as Hke. unfold keyed in Hke. rewrite Ee in Hke. congruence. }
  enough (mts_inv w' (<[entry_addr t off := key]> K) la li /\ maps_to w w' key val) as [? ?] by done.
  eapply (repoint_world w w' K la li tid L L' b p e0 m1 key val (entry_addr t off)); try done; cbn.
  - rewrite ki_insert_spec by exact Hnew. exact Hidx.
  - eapply tables_assigned; try done.
    + eapply at_inv_dom; [exact Hinv2|]. rewrite Em2. intros d. cbn. rewrite Eat.
      intros Hsd. destruct (decide (entry_addr t off = d)) as [->|]; [by rewrite lookup_insert_eq|].
      by rewrite lookup_insert_ne in * by done.
    + intros d Hsd. cbn. destruct (decide (entry_addr t off = d)) as [->|]; [by rewrite lookup_insert_eq|].
      by rewrite lookup_insert_ne.
Qed.

(** * Update *)

Lemma link_past o m key val p e o' m1 a x : appended o m key val p e o' m1 -> a <> 0 -> at_mem m !! a = Some x ->
  exists m2, OpLog.link_to_at m1 p a = Ok m2 /\ link_to_ol_past m2 a p = Ok (vs_idx x, repointed m a p key val).
Proof.
  intros [Hold Em [Hpz Hpu] _ _ _ _ _ _ _ _] Ha Hx. subst m1. unfold OpLog.link_to_at, link_to_ol_past.
  erewrite store_op_some; [|done|cbn; apply lookup_insert_eq]. eexists. split; [done|].
  rewrite (load_at_some _ _ x) by done. cbn [mbind res_bind].
  rewrite (store_at_some _ _ _ x) by done. cbn [mbind res_bind].
  unfold repointed, upd_at, upd_op. cbn. rewrite !insert_insert_eq.
  by rewrite put_tagged_plain by (done || (unfold OPLOG_VAL; lia)).
Qed.

(** The entry of an index key. *)
Lemma index_entry w K la li key a : mts_inv w K la li -> ki_map (g_perNumaKeyIndex w) !! key = Some a ->
  K !! a = Some key /\ ki_lookup (g_perNumaKeyIndex w) key = a /\ a <> 0.
Proof.
  intros Hm Ha. rewrite ki_lookup_spec, Ha. apply (mi_index _ _ _ _ Hm) in Ha.
  split; [done|]. split; [done|]. by destruct (di_placed _ _ _ _ (mi_data _ _ _ _ Hm) a key Ha).
Qed.

(** Dropping the old value: at most one storage has it. *)
Lemma update_storages w K la li p key val a x : mts_inv w K la li -> K !! a = Some key ->
  at_mem (p_mem w) !! a = Some x ->
  if in_vs x then
    exists j v v', vs_of w (vs_id (vs_idx x)) = Ok (j, v) /\
      ValueStorage.unlink_to_at v (chunk_of (vs_offset (vs_idx x))) (entry_of (vs_offset (vs_idx x))) = Ok v' /\
      Forall2 (dropped K a (p_mem w) (repointed (p_mem w) a p key val))
        (g_perNumaValueStorage w) (<[j := v']> (g_perNumaValueStorage w))
  else
    vs_id (vs_idx x) = -1 /\
    Forall2 (dropped K a (p_mem w) (repointed (p_mem w) a p key val))
      (g_perNumaValueStorage w) (g_perNumaValueStorage w).
Proof.
  intros Hm Ha Hx. pose proof (mi_data _ _ _ _ Hm) as Hd. pose proof (insert_id K a key Ha) as EK.
  assert (forall j v, g_perNumaValueStorage w !! j = Some v -> vs_id (vs_idx x) <> Z.of_nat j ->
    dropped K a (p_mem w) (repointed (p_mem w) a p key val) v v) as Hsame.
  { intros j v Hv Hne. rewrite <- EK.
    eapply dropped_same; [exact Hd|by right|by rewrite EK; apply Hd|exact Hv|].
    intros c i e Hh E. destruct (holds_unique _ _ _ _ j v c i e a x Hd Hv Hh E Hx) as [Hi _].
    rewrite Hi in Hne. done. }
  destruct (di_placed _ _ _ _ Hd a key Ha) as (_ & x' & Hx' & Hp). assert (x' = x) as -> by congruence.
  destruct Hp as [(v & e & Hv & He & _)|(Hi & _)].
  - destruct (di_vss _ _ _ _ Hd _ _ Hv) as (Hs & _).
    destruct (entry_of_at_vs v _ a e x He Hx) as (c & i & Hi & Hh & ->); [lia|].
    pose proof Hh as (Hc & Hj & _). destruct (vs_offset_decode c i Hc Hj) as [Ec Ej].
    unfold vs_of, nth_of. rewrite Hi in Hv, Hs, Hsame |- *. cbn [vs_id vs_offset] in *.
    rewrite (proj2 (Z.ltb_ge _ 0)) by lia. rewrite Hv. cbn [of_option mbind res_bind].
    unfold slot. rewrite Ec, Ej. destruct He as (Hea & _).
    destruct (dropped_unlink K _ _ _ Hd p key val a (or_intror Ha)) with (Z.to_nat (vs_self v)) v c i e
      as (v' & Hun & Hdr); [by rewrite EK; apply Hd|done|done|done|].
    rewrite EK in Hdr. eexists _, _, v'. split; [done|]. split; [done|].
    apply Forall2_same_length_lookup. split; [by rewrite length_insert|].
    intros j v1 v2 Q1 Q2. apply list_lookup_insert_Some in Q2 as [(<- & <- & _)|(Hne & Q2)].
    + by assert (v1 = v) as -> by congruence.
    + assert (v2 = v1) as -> by congruence. apply (Hsame j); [done|]. lia.
  - unfold in_vs. rewrite Hi in Hsame |- *. cbn. split; [done|]. apply Forall2_same_length_lookup. split; [done|].
    intros j v1 v2 Q1 Q2. assert (v2 = v1) as -> by congruence. apply (Hsame j); [done|]. cbn. lia.
Qed.

Lemma update_spec w K la li tid key val a : mts_inv w K la li ->
  ki_map (g_perNumaKeyIndex w) !! key = Some a -> log_ready w tid ->
  exists w' p, update w tid key val = Ok (Some (true, w')) /\ mts_inv w' K la li /\ maps_to w w' key val /\
    written K w w' a p key val /\ g_perNumaKeyIndex w' = g_perNumaKeyIndex w.
Proof.
  intros Hm Hkey (L & HL & Hrdy). destruct (index_entry w K la li key a Hm Hkey) as (Ha & Hlk & Hz).
  pose proof (mi_data _ _ _ _ Hm) as Hd. destruct (di_placed _ _ _ _ Hd a key Ha) as (_ & x & Hx & _).
  destruct (lg_ok _ _ _ (di_logs _ _ _ _ Hd) tid L HL) as (Hok & _).
  destruct (enq_spec L (p_mem w) key val Hok Hrdy) as (b & p & e0 & o' & m1 & L' & Henq & Hap & <- & Ho & Hi).
  destruct (link_past _ _ _ _ _ _ _ _ a x Hap Hz Hx) as (m2 & R1 & R2).
  unfold update, nth_of. rewrite HL. cbn [of_option mbind res_bind]. rewrite Hlk.
  rewrite (proj2 (Z.eqb_neq a 0)) by done. rewrite Henq. cbn [mbind res_bind]. rewrite R1. cbn [mbind res_bind].
  rewrite R2. cbn [mbind res_bind]. set (m3 := repointed _ _ _ _ _). set (w1 := set_oplog tid L' (set_mem m3 w)).
  assert (forall w2 : Prism I, p_mem w2 = m3 -> cache_free_kv_items w2 a tid = Ok w2) as Hfree.
  { intros w2 E. unfold cache_free_kv_items, is_cached. rewrite E.
    erewrite load_at_some; [|done|cbn; apply lookup_insert_eq]. cbn [mbind res_bind val_addr].
    rewrite get_tag_shape by (apply (ap_addr _ _ _ _ _ _ _ _ Hap) || (unfold OPLOG_VAL; lia)). done. }
  assert (forall vss', Forall2 (dropped K a (p_mem w) m3) (g_perNumaValueStorage w) vss' ->
    let w' := set_vss vss' w1 in mts_inv w' K la li /\ maps_to w w' key val /\ written K w w' a p key val) as Hdone.
  { intros vss' Hv w'. pose proof (insert_id K a key Ha) as EK.
    assert (written K w w' a p key val) as Hwr
      by (split; rewrite ?EK; try done; [apply (ap_addr _ _ _ _ _ _ _ _ Hap)|by right]).
    enough (mts_inv w' K la li /\ maps_to w w' key val) as [? ?] by done. rewrite <- EK at 1.
    eapply (repoint_world w w' K la li tid L L' b p e0 m1 key val a); try done; rewrite ?EK.
    - apply (mi_index _ _ _ _ Hm).
    - eapply tables_inv_dom; [apply (mi_tables _ _ _ _ Hm)|]. intros d Hsd. cbn.
      destruct (decide (a = d)) as [->|]; [by rewrite lookup_insert_eq|by rewrite lookup_insert_ne]. }
  pose proof (update_storages w K la li p key val a x Hm Ha Hx) as Hst. unfold in_vs in Hst.
  destruct (_ && _) eqn:Hin.
  - apply andb_true_iff in Hin as [Hin1%Z.ltb_lt Hin2%Z.ltb_lt].
    rewrite !(proj2 (Z.ltb_ge _ 0)) by lia. cbn [negb andb].
    destruct Hst as (j & v & v' & Hvs & Hun & Hdr). change (vs_of w1) with (vs_of w). rewrite Hvs. cbn [mbind res_bind].
    rewrite Hun. cbn [mbind res_bind]. rewrite Hfree by done. cbn [mbind res_bind].
    destruct (Hdone _ Hdr) as (? & ? & ?). by eexists _, p.
  - destruct Hst as [Hneg Hdr]. rewrite Hneg. rewrite andb_false_r. cbn [mbind res_bind].
    rewrite Hfree by done. cbn [mbind res_bind]. destruct (Hdone _ Hdr) as (? & ? & ?).
    by eexists _, p.
Qed.
(** C5. Inserting a key the store does not hold, on a thread whose write
    buffer and address table have room, returns true, keeps the invariant of
    the whole store, maps the key to the value and changes no other key. *)
Theorem insert_refines w tid key val : prism_ok w -> ki_map (g_perNumaKeyIndex w) !! key = None ->
  log_ready w tid -> table_ready w tid ->
  exists w', insert w tid key val = Ok (Some (true, w')) /\ prism_ok w' /\ maps_to w w' key val.
Proof.
  intros (K & la & li & Hm) Hnew Hl Ht.
  destruct (insert_spec w K la li tid key val Hm Hnew Hl Ht) as (w' & a & p & E & Hm' & Hkv & _).
  exists w'. split; [done|]. split; [by exists (<[a := key]> K), la, li|done].
Qed.

(** C4. Updating a key: an absent key leaves the store as it is and returns
    false; for a key of the index the call returns true, keeps the invariant
    of the whole store (the value's old place in a storage is unlinked), maps
    the key to the new value and changes no other key. *)
Theorem update_refines w tid key val : prism_ok w -> log_ready w tid ->
  match ki_map (g_perNumaKeyIndex w) !! key with
  | None => update w tid key val = Ok (Some (false, w))
  | Some _ => exists w', update w tid key val = Ok (Some (true, w')) /\ prism_ok w' /\ maps_to w w' key val /\
      g_perNumaKeyIndex w' = g_perNumaKeyIndex w
  end.
Proof.
  intros (K & la & li & Hm) Hl. destruct (ki_map (g_perNumaKeyIndex w) !! key) as [a|] eqn:Hkey.
  - destruct (update_spec w K la li tid key val a Hm Hkey Hl) as (w' & p & E & Hm' & Hkv & _ & Hi).
    exists w'. split; [done|]. split; [by exists K, la, li|done].
  - destruct Hl as (L & HL & _). unfold update, nth_of. rewrite HL, ki_lookup_spec, Hkey. done.
Qed.
End ops.
