(* ===== verification/MtsReads.v ===== *)
(** Reading the key-value store: [lookup] and [scan] report the map [kv].

    A value in a write buffer or in the cache is returned at once; one in a
    storage is requested on a ring, and what the completer then hands to the
    cache is that value. *)

From S2P Require Import Prelude Config TaggedPtr Objects AddressTable IoUring ValueStorage.
From S2P Require Import ChunkWrite ChunkAlloc GarbageCollection GcLoop Storage StorageIdle.
From S2P Require Import OpLog Reclaim LRUList CacheThread CacheInvariant ReadPath MTS MtsInvariant MtsOps.

Local Open Scope Z_scope.

Section reads.
Context `{Config} `{IoUring} `{StdSort} `{CE : CacheEnv} `{!CacheEnvOk CE}.
Context `{!WfConfig _} `{!IoUringOk _}.
Context {I : Type} `{KeyIndex I} `{!KeyIndexOk I}.

(** The value has to be read from a storage. *)
Definition on_disk (x : at_entry_t) : bool := in_vs x && negb (get_tag (val_addr x) =? DCACHE_VAL).

Lemma get_val_pos_spec m a x : a <> 0 -> at_mem m !! a = Some x ->
  in_vs x = true \/ get_tag (val_addr x) = OPLOG_VAL ->
  get_val_pos m a = Ok (if on_disk x then (VALUESTORAGE_VAL, Some (vs_id (vs_idx x)))
                        else (if in_vs x then DCACHE_VAL else OPLOG_VAL, None)).
Proof.
  intros Ha Hx Hw. unfold get_val_pos. rewrite (load_at_some _ _ _ Ha Hx). cbn [mbind res_bind].
  change ((-1 <? vs_id (vs_idx x)) && (-1 <? vs_offset (vs_idx x))) with (in_vs x). unfold on_disk.
  destruct (in_vs x); cbn [andb].
  - by destruct (get_tag (val_addr x) =? DCACHE_VAL).
  - destruct Hw as [?|Ht]; [done|]. by rewrite Ht, Z.eqb_refl.
Qed.

(** Where the value of a key is, and how it is found. *)
Lemma key_located w K la li a k : mts_inv w K la li -> K !! a = Some k ->
  exists x val, at_mem (p_mem w) !! a = Some x /\ a <> 0 /\ kv w k = Some val /\
    (in_vs x = true \/ get_tag (val_addr x) = OPLOG_VAL) /\
    if on_disk x then
      exists v, g_perNumaValueStorage w !! Z.to_nat (vs_id (vs_idx x)) = Some v /\ 0 <= vs_id (vs_idx x) /\
        entry_of_at v (p_mem w) a (VsEntry a k val)
    else if in_vs x then get_dcache_val (p_mem w) a = Ok (Some val)
    else get_oplog_val (p_mem w) a = Ok (Some val).
Proof.
  intros Hm Ha. pose proof (mi_data _ _ _ _ Hm) as Hd. rewrite (kv_value w K la li a k Hm Ha).
  destruct (di_placed _ _ _ _ Hd a k Ha) as (Hz & x & Hx & Hp). exists x.
  destruct Hp as [(v & e & Hv & He & Hk)|(Hi & j & b & p & e & Hp & Hu & Hw & Hop & Hoa & Hok)].
  - destruct (di_vss _ _ _ _ Hd _ _ Hv) as (Hs & _).
    destruct (entry_of_at_vs v _ a e x He Hx) as (c & i & Hi & Hh & Hin); [lia|].
    pose proof Hv as Hv'. rewrite Hi in Hv'. cbn in Hv'.
    assert (disk_value (g_perNumaValueStorage w) (p_mem w) a = Some (ve_val e)) as Hdv
      by (eapply disk_value_stored; [done|lia|done]).
    exists (ve_val e). split; [done|]. split; [done|]. split; [unfold value_of; rewrite Hx; cbn; by rewrite Hin|].
    split; [by left|]. unfold on_disk. rewrite Hin. cbn [andb].
    destruct (Z.eqb_spec (get_tag (val_addr x)) DCACHE_VAL) as [Ht|_]; cbn [negb].
    + destruct (mi_cache _ _ _ _ Hm) as [La Li _ _ _ _ Hca]. cbn [cs_mem cs_ct] in *.
      destruct (ca_link _ _ _ Hca a x Hx Ht) as (de & Hin' & Hde & Hda & Hcur).
      assert (get_untagged_ptr (val_addr x) <> 0) as Hpz.
      { apply elem_of_app in Hin' as [Hin'|Hin'];
          [eapply (seg_nonzero _ _ _ _ _ (lru_seg _ _ _ La))|eapply (seg_nonzero _ _ _ _ _ (lru_seg _ _ _ Li))]; done. }
      unfold get_dcache_val. rewrite (load_at_some _ _ _ Hz Hx). cbn [mbind res_bind].
      rewrite (proj2 (Z.eqb_neq _ 0)) by done. rewrite (load_dc_some _ _ _ Hpz Hde). cbn [mbind res_bind].
      unfold cur_value in Hcur. rewrite Ha in Hcur. cbn in Hcur.
      rewrite Hda, Z.eqb_refl. congruence.
    + exists v. split; [done|]. split; [rewrite Hi; cbn; lia|]. destruct e as [ea ek ev]. cbn in *. subst ek.
      pose proof He as (Ea & _). cbn in Ea. by subst ea.
  - assert (get_tag (val_addr x) = OPLOG_VAL) as Ht
      by (rewrite Hw; apply get_tag_shape; [done|unfold OPLOG_VAL; lia]).
    assert (p <> 0) as Hpz.
    { destruct (in_log_addr _ _ _ _ _ _ (di_logs _ _ _ _ Hd) Hp) as (L & c & HL & -> & Hdv).
      destruct (lg_ok _ _ _ (di_logs _ _ _ _ Hd) j L HL) as (Hlok & _).
      destruct (oplog_ok_elim L _ b Hlok) as (Hl & _). by eapply log_addr_mapped. }
    exists (op_val e). split; [done|]. split; [done|]. unfold on_disk, in_vs, value_of. rewrite Hx. cbn.
    unfold in_vs. rewrite Hi. cbn. rewrite Hw, get_untagged_shape by done. rewrite <- Hw, Ht, Hop. cbn.
    split; [done|]. split; [by right|]. unfold get_oplog_val. rewrite (load_at_some _ _ _ Hz Hx). cbn [mbind res_bind].
    rewrite Hw, get_untagged_shape by done. rewrite (load_op_some _ _ _ Hpz Hop). cbn [mbind res_bind].
    by rewrite Hoa, Z.eqb_refl.
Qed.

Lemma r_qd_pos : (0 < R_QD)%nat.
Proof. destruct wf_r_qd as [k ->]. clear. induction k; simpl; lia. Qed.

(** A batch of one. *)
Lemma read_one v m a e : in_storage v m a e ->
  exists ring, get_val_ccsync m (ReadRing [] 0) [a] = Ok ring /\ ring_holds v ring [e] /\
    complete_pending_ios v ring = Ok (Some [cq_of CT_LOOKUP e], ReadRing [] 0).
Proof.
  intros Hs. destruct (read_batch_spec v m [a] [e]) as (ring & Hg & _ & Hh); [by constructor|done|apply r_qd_pos|].
  pose proof r_qd_pos. rewrite take_ge in Hh by (cbn; lia). exists ring. split; [done|]. split; [done|].
  destruct (complete_ring v ring _ CT_LOOKUP [] Hh) as (cqs & Hp & Hc).
  apply Permutation_singleton_r in Hp as ->. unfold complete_pending_ios. by rewrite Hc.
Qed.

Lemma lookup_spec w K la li key a : mts_inv w K la li -> ki_map (g_perNumaKeyIndex w) !! key = Some a ->
  exists x val, at_mem (p_mem w) !! a = Some x /\ kv w key = Some val /\
    if on_disk x then
      exists j v, g_perNumaValueStorage w !! j = Some v /\
        forall ring, ring_of w j 0 = Ok ring ->
          (pending_ios ring <> 0 -> lookup w key = Ok None) /\
          (ring = ReadRing [] 0 -> exists ring', lookup w key = Ok (Some (0, set_ring j 0 ring' w)) /\
             ring_holds v ring' [VsEntry a key val] /\
             complete_pending_ios v ring' = Ok (Some [CqEntry a key val CT_LOOKUP], ReadRing [] 0))
    else lookup w key = Ok (Some (val, w)).
Proof.
  intros Hm Hkey. destruct (index_entry w K la li key a Hm Hkey) as (Ha & Hlk & Hz).
  destruct (key_located w K la li a key Hm Ha) as (x & val & Hx & _ & Hkv & Hpos & Hloc).
  exists x, val. split; [done|]. split; [done|]. unfold lookup. rewrite Hlk, (proj2 (Z.eqb_neq a 0)) by done.
  rewrite (get_val_pos_spec _ a x Hz Hx Hpos). cbn [mbind res_bind].
  destruct (on_disk x).
  - destruct Hloc as (v & Hv & Hnn & He). exists (Z.to_nat (vs_id (vs_idx x))), v. split; [done|]. intros ring Hr.
    change (VALUESTORAGE_VAL =? DCACHE_VAL) with false. change (VALUESTORAGE_VAL =? OPLOG_VAL) with false.
    cbn [from_option id]. unfold vs_of, nth_of. rewrite (proj2 (Z.ltb_ge _ 0)) by done. rewrite Hv.
    cbn [of_option mbind res_bind]. rewrite Hr. cbn [mbind res_bind]. split.
    + intros Hp. by rewrite (proj2 (Z.eqb_neq _ 0)).
    + intros ->. cbn [pending_ios]. rewrite Z.eqb_refl. cbn [negb].
      destruct (read_one v (p_mem w) a (VsEntry a key val)) as (ring' & Hg & Hh & Hc); [by split|].
      rewrite Hg. cbn [mbind res_bind]. exists ring'. split; [done|]. split; [done|exact Hc].
  - destruct (in_vs x).
    + rewrite Z.eqb_refl, Hloc. done.
    + change (OPLOG_VAL =? DCACHE_VAL) with false. rewrite Z.eqb_refl, Hloc. done.
Qed.

(** * Range scans *)

Definition key_entry (w : Prism I) (k : Z) : Z * at_entry_t :=
  let a := default 0 (ki_map (g_perNumaKeyIndex w) !! k) in
  (a, default (AtEntry (VsIdx (-1) (-1)) 0) (at_mem (p_mem w) !! a)).
Definition key_on_disk (w : Prism I) (k : Z) : bool := on_disk (key_entry w k).2.
Definition key_read (w : Prism I) (k : Z) : Z * Z := (vs_id (vs_idx (key_entry w k).2), (key_entry w k).1).

(** The keys found at once, and those to read from storage [j]. *)
Definition now_keys (w : Prism I) (ks : list Z) : list Z := filter (fun k => key_on_disk w k = false) ks.
Definition disk_keys (w : Prism I) (ks : list Z) : list Z := filter (fun k => key_on_disk w k = true) ks.
Definition keys_in (w : Prism I) (j : nat) (ks : list Z) : list Z :=
  filter (fun k => (key_read w k).1 = Z.of_nat j) (disk_keys w ks).

Definition key_of_index (w : Prism I) (k : Z) : Prop := is_Some (ki_map (g_perNumaKeyIndex w) !! k).

Lemma scan_entries_spec w ks : prism_ok w -> Forall (key_of_index w) ks -> forall acc pend,
  exists vals, scan_entries (p_mem w) ((fun k => (key_entry w k).1) <$> ks) acc pend =
      Ok (Some (acc ++ vals, pend ++ (key_read w <$> disk_keys w ks))) /\
    Forall2 (fun k v => kv w k = Some v) (now_keys w ks) vals.
Proof.
  intros (K & la & li & Hm). induction 1 as [|k ks [a Ha] _ IH]; intros acc pend.
  { exists []. cbn. by rewrite !app_nil_r. }
  destruct (index_entry w K la li k a Hm Ha) as (HK & _ & Hz).
  destruct (key_located w K la li a k Hm HK) as (x & val & Hx & _ & Hkv & Hpos & Hloc).
  assert (key_entry w k = (a, x)) as Ek by (unfold key_entry; rewrite Ha; cbn; by rewrite Hx).
  unfold now_keys, disk_keys, key_on_disk, key_read in *. cbn [fmap list_fmap scan_entries].
  rewrite !filter_cons, Ek. cbn [fst snd].
  rewrite (get_val_pos_spec _ a x Hz Hx Hpos). cbn [mbind res_bind]. destruct (on_disk x).
  - rewrite decide_True, decide_False by done. rewrite Z.eqb_refl. cbn [from_option id].
    destruct (IH acc (pend ++ [(vs_id (vs_idx x), a)])) as (vals & -> & Hv). exists vals. split; [|done].
    cbn [fmap list_fmap]. rewrite Ek. by rewrite <- app_assoc.
  - rewrite decide_False, decide_True by done.
    assert ((if (if in_vs x then DCACHE_VAL else OPLOG_VAL) =? DCACHE_VAL then get_dcache_val (p_mem w) a
             else get_oplog_val (p_mem w) a) = Ok (Some val)) as Hval by (by destruct (in_vs x)).
    assert ((if in_vs x then DCACHE_VAL else OPLOG_VAL) =? VALUESTORAGE_VAL = false) as -> by (by destruct (in_vs x)).
    rewrite Hval. cbn [mbind res_bind]. destruct (IH (acc ++ [val]) pend) as (vals & -> & Hv).
    exists (val :: vals). split; [by rewrite <- app_assoc|by constructor].
Qed.

Definition with_rings (rr : list (list read_ring)) (w : Prism I) : Prism I :=
  MkPrism (g_perNumaKeyIndex w) (g_perNumaAddressTable w) (g_perNumaOpLog w) (g_perNumaValueStorage w) rr
    (g_cacheQueue w) (g_cacheFreeQueue w) (DramCacheThread w) (p_mem w).

Lemma ring_of_set (w : Prism I) k j r r0 : ring_of w k j = Ok r0 ->
  ring_of (set_ring k j r w) k j = Ok r /\
  forall k' j', (k', j') <> (k, j) -> ring_of (set_ring k j r w) k' j' = ring_of w k' j'.
Proof.
  unfold ring_of, nth_of. intros Hr. inv_res. rename select (r_ring w !! k = _) into Hk.
  cbn [r_ring set_ring]. split.
  - rewrite list_lookup_alter_eq, Hk. cbn [fmap option_fmap option_map of_option mbind res_bind].
    by rewrite list_lookup_insert_eq by (by eapply lookup_lt_Some).
  - intros k' j' Hne. destruct (decide (k' = k)) as [->|]; [|by rewrite list_lookup_alter_ne].
    rewrite list_lookup_alter_eq, Hk. cbn [fmap option_fmap option_map of_option mbind res_bind].
    rewrite list_lookup_insert_ne; [done|]. congruence.
Qed.

(** The batches of the storages [ids]. *)
Definition batch_of (pend : list (Z * Z)) (j : nat) : list Z := snd <$> filter (fun p => p.1 = Z.of_nat j) pend.
Definition batched (pend : list (Z * Z)) (ids : list nat) : nat := sum_list ((fun j => length (batch_of pend j)) <$> ids).

Definition ring_reads (w : Prism I) (i j : nat) (es : list vs_entry_t) : Prop :=
  forall v, g_perNumaValueStorage w !! j = Some v ->
  exists ring, ring_of w j i = Ok ring /\ ring_holds v ring (take R_QD es).

Lemma scan_storages_spec i pend (es : nat -> list vs_entry_t) ids : NoDup ids -> forall (w : Prism I) n,
  (forall j, j ∈ ids -> ring_of w j i = Ok (ReadRing [] 0) /\
     exists v, g_perNumaValueStorage w !! j = Some v /\ Forall2 (in_storage v (p_mem w)) (batch_of pend j) (es j)) ->
  exists rr, let w' := with_rings rr w in
    scan_storages w i pend ids n = Ok (Some (n + Z.of_nat (batched pend ids), w')) /\
    (forall j, j ∈ ids -> es j <> [] -> ring_reads w' i j (es j)) /\
    (forall j i', j ∉ ids \/ es j = [] \/ i' <> i -> ring_of w' j i' = ring_of w j i').
Proof.
  induction 1 as [|j ids Hni Hnd IH]; intros w n Hall.
  { exists (r_ring w). assert (with_rings (r_ring w) w = w) as -> by (by destruct w). cbn. rewrite Z.add_0_r.
    split; [done|]. split; [|done]. intros j Hj. by apply elem_of_nil in Hj. }
  destruct (Hall j) as [Hr (v & Hv & Hf)]; [left|]. cbn [scan_storages].
  change (snd <$> filter (fun p => p.1 = Z.of_nat j) pend) with (batch_of pend j).
  assert (batched pend (j :: ids) = length (batch_of pend j) + batched pend ids)%nat as Eb by done.
  rewrite Eb. destruct (batch_of pend j) as [|a vec] eqn:Evec.
  - apply Forall2_nil_inv_l in Hf. destruct (IH w n) as (rr & Hs & R1 & R2).
    { intros j' Hj'. apply Hall. by right. }
    exists rr. split; [by rewrite Hs|]. split.
    + intros j' [->|Hj']%elem_of_cons Hne; [done|by apply R1].
    + intros j' i' [Hj'|Hj']; apply R2; [left|by right]. by apply not_elem_of_cons in Hj' as [_ ?].
  - rewrite <- Evec in *. assert (batch_of pend j <> []) as Hne by (by rewrite Evec).
    destruct (read_batch_spec v (p_mem w) _ _ Hf Hne r_qd_pos) as (ring & _ & Hg & Hh).
    rewrite Hr. cbn [mbind res_bind pending_ios]. rewrite Z.eqb_refl. cbn [negb]. rewrite Hg. cbn [mbind res_bind].
    destruct (ring_of_set w j i ring _ Hr) as [Hsj Hso].
    destruct (IH (set_ring j i ring w) (n + Z.of_nat (length (batch_of pend j)))) as (rr & Hs & R1 & R2).
    { intros j' Hj'. rewrite Hso by (intros [= ->]; done). apply Hall. by right. }
    exists rr. split; [rewrite Hs; do 3 f_equal; lia|]. split.
    + intros j' [->|Hj']%elem_of_cons Hne'; [|by apply R1]. intros v' Hv'. cbn in Hv'.
      assert (v' = v) as -> by congruence. exists ring. split; [|done].
      by rewrite <- Hsj, <- (R2 j i (or_introl Hni)).
    + intros j' i' Hj'. destruct (decide ((j', i') = (j, i))) as [[= -> ->]|Hn].
      * destruct Hj' as [Hj'|[Hj'|?]]; [by apply not_elem_of_cons in Hj' as [? _]| |done].
        rewrite Hj' in Hf. apply Forall2_nil_inv_r in Hf. done.
      * transitivity (ring_of (set_ring j i ring w) j' i'); [|by apply Hso].
        rewrite <- R2; [done|]. destruct Hj' as [Hj'|?]; [left|by right]. by apply not_elem_of_cons in Hj' as [_ ?].
Qed.

Lemma batched_cons p pend ids : batched (p :: pend) ids =
  (length (filter (fun j => p.1 = Z.of_nat j) ids) + batched pend ids)%nat.
Proof.
  induction ids as [|j ids IH]; [done|].
  change (batched (p :: pend) (j :: ids)) with (length (batch_of (p :: pend) j) + batched (p :: pend) ids)%nat.
  change (batched pend (j :: ids)) with (length (batch_of pend j) + batched pend ids)%nat. rewrite IH.
  unfold batch_of. rewrite !filter_cons. destruct (decide (p.1 = Z.of_nat j)); cbn; lia.
Qed.

(** Every entry to read is in the batch of one storage. *)
Lemma batched_total n pend : Forall (fun p => 0 <= p.1 < Z.of_nat n) pend ->
  batched pend (seq 0 n) = length pend.
Proof.
  induction 1 as [|p pend Hp _ IH].
  - unfold batched. change (batch_of []) with (fun _ : nat => @nil Z). generalize (seq 0 n) as l.
    intros l. induction l as [|j l IHl]; [done|]. cbn. exact IHl.
  - rewrite batched_cons, IH. cbn [length]. f_equal.
    replace n with (Z.to_nat p.1 + (1 + (n - 1 - Z.to_nat p.1)))%nat by lia.
    rewrite seq_app, filter_app, length_app, Nat.add_0_l. cbn [seq Nat.add]. rewrite filter_cons_True by lia.
    cbn [length]. rewrite !filter_none; [done|..]; intros j Hj%elem_of_seq; lia.
Qed.

(** What is requested for one key. *)
Definition key_request (w : Prism I) (k : Z) : vs_entry_t :=
  VsEntry (key_entry w k).1 k (default 0 (kv w k)).

Lemma disk_request w k : prism_ok w -> key_of_index w k -> key_on_disk w k = true ->
  exists v, g_perNumaValueStorage w !! Z.to_nat (key_read w k).1 = Some v /\
    0 <= (key_read w k).1 /\ in_storage v (p_mem w) (key_entry w k).1 (key_request w k).
Proof.
  intros (K & la & li & Hm) [a Ha] Hd. destruct (index_entry w K la li k a Hm Ha) as (HK & _ & Hz).
  destruct (key_located w K la li a k Hm HK) as (x & val & Hx & _ & Hkv & Hpos & Hloc).
  assert (key_entry w k = (a, x)) as Ek by (unfold key_entry; rewrite Ha; cbn; by rewrite Hx).
  unfold key_on_disk, key_read, key_request in *. rewrite Ek in *. cbn [fst snd] in *. rewrite Hd in Hloc.
  destruct Hloc as (v & Hv & Hnn & He). exists v. by rewrite Hkv.
Qed.

(** The requests of a batch. *)
Lemma disk_requests w v j ks : prism_ok w -> Forall (key_of_index w) ks -> g_perNumaValueStorage w !! j = Some v ->
  Forall2 (in_storage v (p_mem w)) (batch_of (key_read w <$> disk_keys w ks) j) (key_request w <$> keys_in w j ks).
Proof.
  intros Hok Hks Hv. unfold batch_of. rewrite filter_fmap, <- list_fmap_compose.
  change (filter (fun x => (key_read w x).1 = Z.of_nat j) (disk_keys w ks)) with (keys_in w j ks).
  apply Forall2_fmap, Forall_Forall2_diag, Forall_forall.
  intros k [Ej [Hd Hk]%list_elem_of_filter]%list_elem_of_filter. rewrite Forall_forall in Hks.
  destruct (disk_request w k Hok (Hks k Hk) Hd) as (v' & Hv' & _ & Hin).
  rewrite Ej, Nat2Z.id in Hv'. by assert (v' = v) as -> by congruence.
Qed.

Lemma keys_from_index w start : Forall (key_of_index w) (keys_from (ki_map (g_perNumaKeyIndex w)) start).
Proof.
  apply Forall_forall. intros k Hk. unfold keys_from in Hk. rewrite sort_by_perm in Hk.
  apply list_elem_of_filter in Hk as [_ Hk]. apply list_elem_of_fmap in Hk as ([k' a] & -> & Hk).
  apply elem_of_map_to_list in Hk. by exists a.
Qed.

Lemma now_disk_length w ks : (length (now_keys w ks) + length (disk_keys w ks) = length ks)%nat.
Proof.
  unfold now_keys, disk_keys. induction ks as [|k ks IH]; [done|]. rewrite !filter_cons.
  destruct (key_on_disk w k).
  - rewrite decide_False, decide_True by done. cbn. lia.
  - rewrite decide_True, decide_False by done. cbn. lia.
Qed.

Definition rings_idle (w : Prism I) (i : nat) : Prop :=
  forall j, (j < MTS_VS_NUM)%nat -> ring_of w j i = Ok (ReadRing [] 0).

Lemma kv_of_index w k : prism_ok w -> key_of_index w k -> is_Some (kv w k).
Proof.
  intros (K & la & li & Hm) [a Ha]. destruct (index_entry w K la li k a Hm Ha) as (HK & _).
  destruct (key_located w K la li a k Hm HK) as (x & val & _ & _ & Hkv & _). by exists val.
Qed.

Lemma scan_spec w tid startKey n : prism_ok w -> length (g_perNumaValueStorage w) = MTS_VS_NUM ->
  rings_idle w tid ->
  let ks := take n (keys_from (ki_map (g_perNumaKeyIndex w)) startKey) in
  exists vals rr, let w' := with_rings rr w in
    scan w tid startKey n = Ok (Some (Z.of_nat (length ks), vals, w')) /\
    Forall (fun k => is_Some (kv w k)) ks /\
    Forall2 (fun k v => kv w k = Some v) (now_keys w ks) vals /\
    (forall j, (j < MTS_VS_NUM)%nat -> keys_in w j ks <> [] -> ring_reads w' tid j (key_request w <$> keys_in w j ks)) /\
    (forall j i, (MTS_VS_NUM <= j)%nat \/ keys_in w j ks = [] \/ i <> tid -> ring_of w' j i = ring_of w j i).
Proof.
  intros Hok Hlen Hidle ks.
  assert (Forall (key_of_index w) ks) as Hks by (apply Forall_take, keys_from_index).
  destruct (scan_entries_spec w ks Hok Hks [] []) as (vals & Hse & Hv). cbn [app] in Hse.
  set (pend := key_read w <$> disk_keys w ks) in *.
  destruct (scan_storages_spec tid pend (fun j => key_request w <$> keys_in w j ks) (seq 0 MTS_VS_NUM)
    (NoDup_seq _ _) w 0) as (rr & Hst & Hr & Hfr).
  { intros j Hj%elem_of_seq. split; [apply Hidle; lia|].
    destruct (lookup_lt_is_Some_2 (g_perNumaValueStorage w) j) as [v Hvj]; [lia|]. exists v.
    split; [done|]. by apply disk_requests. }
  exists vals, rr. cbv zeta. split; [|split; [|split; [done|split]]].
  - unfold scan. rewrite ki_range_spec. fold ks. unfold key_entry in Hse. cbn [fst] in Hse. rewrite Hse.
    cbn [mbind res_bind]. rewrite Hst. cbn [mbind res_bind option_map fst snd]. do 4 f_equal.
    rewrite batched_total.
    + unfold pend. rewrite length_fmap, <- (Forall2_length _ _ _ Hv), <- (now_disk_length w ks). lia.
    + apply Forall_fmap, Forall_forall. intros k [Hd Hk]%list_elem_of_filter. rewrite Forall_forall in Hks.
      destruct (disk_request w k Hok (Hks k Hk) Hd) as (v & Hvk & Hnn & _).
      change (0 <= (key_read w k).1 < Z.of_nat MTS_VS_NUM). apply lookup_lt_Some in Hvk. lia.
  - eapply Forall_impl; [exact Hks|]. intros k. by apply kv_of_index.
  - intros j Hj Hne. apply Hr; [apply elem_of_seq; lia|]. by destruct (keys_in w j ks).
  - intros j i Hj. apply Hfr. destruct Hj as [Hj|[->|?]]; [left; rewrite elem_of_seq; lia|by right; left|by right; right].
Qed.
(** C6. Looking a key up.  An absent key gives 0.  A key whose value is in the
    cache or in a write buffer gives its value at once.  A key whose value is
    only on disk gives 0 after placing a read on ring 0 of the storage that
    holds it: completing that ring delivers exactly the key's value to the
    cache queue.  While the ring is busy the caller waits. *)
Theorem lookup_correct w key : prism_ok w ->
  match ki_map (g_perNumaKeyIndex w) !! key with
  | None => kv w key = None /\ lookup w key = Ok (Some (0, w))
  | Some a => exists x val, at_mem (p_mem w) !! a = Some x /\ kv w key = Some val /\
      if on_disk x then
        exists j v, g_perNumaValueStorage w !! j = Some v /\
          forall ring, ring_of w j 0 = Ok ring ->
            (pending_ios ring <> 0 -> lookup w key = Ok None) /\
            (ring = ReadRing [] 0 -> exists ring', lookup w key = Ok (Some (0, set_ring j 0 ring' w)) /\
               complete_pending_ios v ring' = Ok (Some [CqEntry a key val CT_LOOKUP], ReadRing [] 0))
      else lookup w key = Ok (Some (val, w))
  end.
Proof.
  intros (K & la & li & Hm). destruct (ki_map (g_perNumaKeyIndex w) !! key) as [a|] eqn:Hkey.
  2: { unfold kv, lookup. by rewrite ki_lookup_spec, Hkey. }
  destruct (lookup_spec w K la li key a Hm Hkey) as (x & val & Hx & Hkv & Hl). exists x, val. split; [done|].
  split; [done|]. destruct (on_disk x); [|done]. destruct Hl as (j & v & Hv & Hl). exists j, v. split; [done|].
  intros ring Hr. destruct (Hl ring Hr) as [Hb Hi]. split; [done|]. intros Hz.
  destruct (Hi Hz) as (ring' & E & _ & Hc). by exists ring'.
Qed.

(** C7. A scan of [n] keys from [startKey] visits the first [n] keys of the
    index that are not smaller, in order; it returns their number and the
    values of those in the cache or a write buffer, and for every storage with
    more of them it places one batch of reads on the caller's idle ring, for
    the values of the first [R_QD] of these keys; the values of the others are
    counted but never read ([scan_reads_at_most_r_qd]).  No other ring
    changes. *)
Theorem scan_correct w tid startKey n : prism_ok w -> length (g_perNumaValueStorage w) = MTS_VS_NUM ->
  rings_idle w tid ->
  let ks := take n (keys_from (ki_map (g_perNumaKeyIndex w)) startKey) in
  exists vals rr, let w' := with_rings rr w in
    scan w tid startKey n = Ok (Some (Z.of_nat (length ks), vals, w')) /\
    Forall (fun k => is_Some (kv w k)) ks /\
    Forall2 (fun k v => kv w k = Some v) (now_keys w ks) vals /\
    (forall j, (j < MTS_VS_NUM)%nat -> keys_in w j ks <> [] -> ring_reads w' tid j (key_request w <$> keys_in w j ks)) /\
    (forall j i, (MTS_VS_NUM <= j)%nat \/ keys_in w j ks = [] \/ i <> tid -> ring_of w' j i = ring_of w j i).
Proof. apply scan_spec. Qed.

(** [remove] does not check the key: an absent key makes it dereference a
    null address-table entry, and for a cached value it indexes the storages
    with [vs_id] before it has been set. *)
Theorem remove_absent_or_cached w tid key : prism_ok w ->
  match ki_map (g_perNumaKeyIndex w) !! key with
  | None => remove w tid key = Err NullDeref
  | Some a => forall x, at_mem (p_mem w) !! a = Some x -> in_vs x = true -> get_tag (val_addr x) = DCACHE_VAL ->
      remove w tid key = Err Uninitialised
  end.
Proof.
  intros (K & la & li & Hm). destruct (ki_map (g_perNumaKeyIndex w) !! key) as [a|] eqn:Hkey.
  2: { unfold remove. by rewrite ki_lookup_spec, Hkey. }
  intros x Hx Hin Ht. destruct (index_entry w K la li key a Hm Hkey) as (Ha & Hlk & Hz).
  unfold remove. rewrite Hlk, (get_val_pos_spec _ a x Hz Hx) by (by left). cbn [mbind res_bind].
  unfold on_disk. rewrite Hin, Ht. done.
Qed.
End reads.
