(* ===== verification/MtsBackground.v ===== *)
(** The background threads keep the map: reclaiming a write buffer, completing
    reads and caching change where values are, never what they are. *)

From S2P Require Import Prelude Config TaggedPtr Objects AddressTable IoUring ValueStorage.
From S2P Require Import ChunkWrite ChunkAlloc GarbageCollection GcLoop Storage StorageIdle.
From S2P Require Import OpLog Reclaim LRUList CacheThread CacheInvariant ReadPath MTS MtsInvariant MtsOps MtsReads.

Local Open Scope Z_scope.

Section background.
Context `{Config} `{IoUring} `{StdSort}.
Context `{!WfConfig _} `{!IoUringOk _}.

(** An address is an entry of one log at most. *)
Lemma in_log_unique K logs m j b j' b' p : logs_inv K logs m -> in_log logs j b p -> in_log logs j' b' p ->
  (j, b) = (j', b').
Proof.
  intros Hl Hp Hp'. destruct (decide ((j, b) = (j', b'))) as [|Hne]; [done|]. exfalso.
  destruct (in_log_addr _ _ _ _ _ _ Hl Hp) as (L & c & HL & E & _).
  destruct (in_log_addr _ _ _ _ _ _ Hl Hp') as (L' & c' & HL' & E' & _).
  destruct (lg_ok _ _ _ Hl j L HL) as (Hok & _). destruct (lg_ok _ _ _ Hl j' L' HL') as (Hok' & _).
  destruct (oplog_ok_elim L m b Hok) as (Hlo & _). destruct (oplog_ok_elim L' m b' Hok') as (Hlo' & _).
  eapply (disjoint_logs_addr _ _ m m c c' Hlo Hlo'); [by eapply (lg_apart _ _ _ Hl)|congruence].
Qed.

(** * Reclaim *)

(** What a reclaim of log [b] of thread [tid] to storage [v] needs besides the
    invariant: a writer, room, and live entries that fill whole chunks. *)
Record reclaimable (m : memory) (L : OpLog) (b : bool) (v : ValueStorage) (tid : nat) : Prop := {
  rc_writer : (tid < length (w_chunk v))%nat;
  rc_room : (live_count m (log_entries (the_oplog L b)) <=
             length (free_chunk_list v) * MTS_VS_ENTRIES_PER_CHUNK)%nat;
  rc_full : (0 < live_count m (log_entries (the_oplog L b)))%nat /\
            (live_count m (log_entries (the_oplog L b)) mod MTS_VS_ENTRIES_PER_CHUNK = 0)%nat;
}.

Section reclaim.
Context (K : gmap Z Z) (logs : list OpLog) (vss : list ValueStorage) (m : memory).
Context (Hinv : data_inv K logs vss m).
Context (tid k : nat) (L : OpLog) (v : ValueStorage) (id : Z).
Context (HL : logs !! tid = Some L) (Hv : vss !! k = Some v).

Abbreviation one := (id =? 0).

Lemma not_stored_logged j w a e x : vss !! j = Some w -> at_mem m !! a = Some x ->
  vs_idx x = VsIdx (-1) (-1) -> ~ entry_of_at w m a e.
Proof.
  intros Hw Hx Hi He. destruct (di_vss _ _ _ _ Hinv j w Hw) as (Hs & _).
  destruct (entry_of_at_vs w m a e x He Hx) as (c & i & Hp & Hh & _); [lia|].
  rewrite Hi in Hp. injection Hp as Hp _. lia.
Qed.

Lemma reclaim_ready : reclaimable m L one v tid -> reclaim_pre K (the_oplog L one) v m (g_oplog_id L).
Proof.
  intros [Hw Hr Hf]. pose proof (di_logs _ _ _ _ Hinv) as Hlg.
  destruct (lg_ok _ _ _ Hlg tid L HL) as (Hok & _ & Hid). destruct (di_vss _ _ _ _ Hinv k v Hv) as (_ & Hst & Hidle).
  destruct (oplog_ok_elim L m one Hok) as (Hl & _). rewrite Hid.
  assert (forall p, p ∈ log_entries (the_oplog L one) -> in_log logs tid one p) as Hin by (intros p Hp; by exists L).
  split; try done.
  - intros p Hp. destruct (lg_entry _ _ _ Hlg tid one p (Hin p Hp)) as (e & He & Hs & _). eauto.
  - apply Forall_forall. intros p Hp. destruct (lg_entry _ _ _ Hlg tid one p (Hin p Hp)) as (e & He & _ & Hk).
    destruct (di_placed _ _ _ _ Hinv _ _ Hk) as (Hz & x & Hx & _). by exists e, x.
  - intros p e Hp Hlv He. destruct (lg_entry _ _ _ Hlg tid one p (Hin p Hp)) as (e' & He' & _ & Hk).
    assert (e' = e) as -> by congruence. destruct (di_placed _ _ _ _ Hinv _ _ Hk) as (Hz & x & Hx & _).
    unfold op_live in Hlv. rewrite He, Hx in Hlv. apply Z.eqb_eq in Hlv.
    destruct (lg_live _ _ _ Hlg tid one p e x (Hin p Hp) He Hx Hlv) as [Hi _]. split; try done.
    + rewrite (proj2 (idle_empty v Hidle)). by intros ?%elem_of_nil.
    + intros e0. by eapply not_stored_logged.
  - destruct (lookup_lt_is_Some_2 (w_chunk v) tid Hw) as [w Hwk]. exists w. split; [done|].
    unfold idle in Hidle. rewrite Forall_forall in Hidle. apply Hidle. by eapply list_elem_of_lookup_2.
Qed.

Context (L' : OpLog) (v' : ValueStorage) (m' : memory).
Context (Hmv : log_moved K L v m id L' v' m').

Abbreviation logs' := (<[tid := L']> logs).
Abbreviation vss' := (<[k := v']> vss).

Lemma moved_idle : idle v'.
Proof.
  destruct (lm_flushed _ _ _ _ _ _ _ _ Hmv) as (w & Ew & _ & Ho). unfold idle. rewrite Ew.
  apply idle_insert; [|done]. by destruct (di_vss _ _ _ _ Hinv k v Hv) as (_ & _ & ?).
Qed.

(** Which values the storage holds afterwards. *)
Lemma moved_entry a e : entry_of_at v' m' a e <->
  entry_of_at v m a e \/ reclaimed_entry m (log_entries (the_oplog L one)) a e.
Proof.
  rewrite <- (stored_idle v' m') by apply moved_idle. rewrite (lm_stored _ _ _ _ _ _ _ _ Hmv).
  rewrite stored_idle; [done|]. by destruct (di_vss _ _ _ _ Hinv k v Hv) as (_ & _ & ?).
Qed.

(** A value that is elsewhere stays where it is. *)
Lemma moved_frame a : (forall e, ~ entry_of_at v m a e) ->
  (forall e, ~ reclaimed_entry m (log_entries (the_oplog L one)) a e) -> at_mem m' !! a = at_mem m !! a.
Proof.
  intros H1' H2'. apply (fr_at _ _ _ _ (lm_frame _ _ _ _ _ _ _ _ Hmv)). intros e He.
  apply (stored_idle v' m' a e moved_idle), moved_entry in He as [He|He]; [by eapply H1'|by eapply H2'].
Qed.

Lemma reclaimed_facts a e : reclaimed_entry m (log_entries (the_oplog L one)) a e ->
  exists p x, in_log logs tid one p /\ at_mem m !! a = Some x /\ p = get_untagged_ptr (val_addr x) /\
    vs_idx x = VsIdx (-1) (-1) /\ get_tag (val_addr x) = OPLOG_VAL.
Proof.
  intros (p & oe & Hp & Hlv & Hoe & -> & _). assert (in_log logs tid one p) as Hin by (by exists L).
  unfold op_live in Hlv. rewrite Hoe in Hlv. destruct (at_mem m !! opa oe) as [x|] eqn:Hx; [|done].
  apply Z.eqb_eq in Hlv. exists p, x. split; [done|]. split; [done|]. split; [done|].
  by eapply (lg_live _ _ _ (di_logs _ _ _ _ Hinv)).
Qed.

Lemma moved_other_log j b p a x : in_log logs j b p -> (j, b) <> (tid, one) -> at_mem m !! a = Some x ->
  vs_idx x = VsIdx (-1) (-1) -> p = get_untagged_ptr (val_addr x) -> at_mem m' !! a = Some x.
Proof.
  intros Hp Hne Hx Hi Hpx. rewrite moved_frame; [done| |].
  - intros e. by eapply not_stored_logged.
  - intros e (q & y & Hq & Hy & Hqy & _)%reclaimed_facts. assert (y = x) as -> by congruence.
    apply Hne. eapply in_log_unique; [apply Hinv|exact Hp|]. congruence.
Qed.

Lemma moved_other_vs j w a e : vss !! j = Some w -> j <> k -> entry_of_at w m a e -> at_mem m' !! a = at_mem m !! a.
Proof.
  intros Hw Hne He. pose proof He as (_ & _ & _ & _ & x & Hx & _).
  destruct (di_vss _ _ _ _ Hinv j w Hw) as (Hs & _). destruct (di_vss _ _ _ _ Hinv k v Hv) as (Hsv & _).
  destruct (entry_of_at_vs w m a e x He Hx) as (c & i & Hp & _); [lia|]. apply moved_frame.
  - intros e' He'. destruct (entry_of_at_vs v m a e' x He' Hx) as (c' & i' & Hp' & _); [lia|].
    rewrite Hp in Hp'. injection Hp' as Hp' _. lia.
  - intros e' (q & y & _ & Hy & _ & Hi & _)%reclaimed_facts. assert (y = x) as -> by congruence.
    rewrite Hi in Hp. injection Hp as Hp _. lia.
Qed.

Lemma moved_in_log j b p : in_log logs' j b p <-> in_log logs j b p /\ (j, b) <> (tid, one).
Proof.
  assert (tid < length logs)%nat as Hlt by (by eapply lookup_lt_Some).
  pose proof (lm_empty _ _ _ _ _ _ _ _ Hmv) as He. pose proof (lm_other _ _ _ _ _ _ _ _ Hmv) as Ho. unfold in_log.
  destruct (decide (j = tid)) as [->|Hne].
  - rewrite list_lookup_insert_eq by done. split.
    + intros (L1 & [= <-] & Hp). destruct (decide (b = one)) as [->|Hb].
      * rewrite He in Hp. by apply elem_of_nil in Hp.
      * split; [|congruence]. exists L. split; [done|]. assert (b = negb one) as -> by (by destruct b, one). congruence.
    + intros ((L1 & HL1 & Hp) & Hb). assert (L1 = L) as -> by congruence. exists L'. split; [done|].
      assert (b = negb one) as -> by (destruct b, one; congruence || done). congruence.
  - rewrite list_lookup_insert_ne by done. split; [intros Hp; split; [done|congruence]|by intros [? _]].
Qed.

Lemma moved_same : mem_same m m'.
Proof. apply Hmv. Qed.

Lemma moved_logs : logs_inv K logs' m'.
Proof.
  pose proof (di_logs _ _ _ _ Hinv) as Hlg. pose proof moved_same as Hms.
  assert (tid < length logs)%nat as Hlt by (by eapply lookup_lt_Some).
  destruct (lg_ok _ _ _ Hlg tid L HL) as (HokL & HhL & HidL).
  assert (forall o, log_ok o m -> log_ok o m') as Hmono.
  { intros o. apply log_ok_mem. by rewrite (ms_op _ _ Hms). }
  assert (forall b, log_ok (the_oplog L' b) m' /\ ol_id (the_oplog L' b) = ol_id (the_oplog L b) /\
    head_cnt (the_oplog L' b) = 0 /\ buffer (the_oplog L' b) = buffer (the_oplog L b)) as Hb.
  { intros b. destruct (decide (b = one)) as [->|Hb]; [by destruct Hmv; destruct lm_head|].
    assert (b = negb one) as -> by (by destruct b, one). rewrite (lm_other _ _ _ _ _ _ _ _ Hmv).
    destruct (oplog_ok_elim L m (negb one) HokL) as (? & _). auto. }
  assert (forall j L1, logs' !! j = Some L1 -> exists L0, logs !! j = Some L0 /\
    (oplog_ok L1 m' /\ (forall b, head_cnt (the_oplog L1 b) = 0) /\ g_oplog_id L1 = j) /\
    forall b, buffer (the_oplog L1 b) = buffer (the_oplog L0 b) /\ log_size (the_oplog L1 b) = log_size (the_oplog L0 b)) as Hall.
  { intros j L1 [(<- & <- & _)|(Hn & Hj)]%list_lookup_insert_Some.
    - exists L. split; [done|]. split; [split; [|split]|].
      + apply oplog_ok_intro. intros b. destruct (Hb b) as (Hl & -> & Hh & _).
        destruct (oplog_ok_elim L m b HokL) as (_ & -> & _). split; [done|]. split; [done|]. by eapply log_tail_small.
      + intros b. by destruct (Hb b) as (_ & _ & ? & _).
      + destruct (lm_working _ _ _ _ _ _ _ _ Hmv) as [_ ->]. done.
      + intros b. destruct (Hb b) as (Hl & _ & _ & ->). split; [done|]. rewrite (lo_size _ _ Hl).
        destruct (oplog_ok_elim L m b HokL) as (Hl0 & _). by rewrite (lo_size _ _ Hl0).
    - exists L1. split; [done|]. destruct (lg_ok _ _ _ Hlg j L1 Hj) as (Hok & Hh & Hg). split; [|done]. split; [|done].
      apply oplog_ok_intro. intros b. destruct (oplog_ok_elim L1 m b Hok) as (? & ? & ?). auto. }
  split.
  - intros j L1 Hj. by destruct (Hall j L1 Hj) as (L0 & _ & ? & _).
  - intros j L1 b j2 L2 b2 Hj Hj2 Hne. destruct (Hall j L1 Hj) as (L10 & H10 & _ & B1).
    destruct (Hall j2 L2 Hj2) as (L20 & H20 & _ & B2).
    pose proof (lg_apart _ _ _ Hlg j L10 b j2 L20 b2 H10 H20 Hne) as Hd. unfold disjoint_logs in *.
    by destruct (B1 b) as [-> ->], (B2 b2) as [-> ->].
  - intros j b p [Hp _]%moved_in_log. rewrite (ms_op _ _ Hms). by eapply (lg_entry _ _ _ Hlg).
  - intros j b p e x' [Hp Hne]%moved_in_log He Hx' Hpx. rewrite (ms_op _ _ Hms) in He.
    pose proof (ms_val_addr _ _ Hms (opa e)) as Hw. rewrite Hx' in Hw.
    destruct (at_mem m !! opa e) as [x|] eqn:Hx; [|done]. injection Hw as Hw. rewrite Hw in Hpx.
    destruct (lg_live _ _ _ Hlg j b p e x Hp He Hx Hpx) as [Hi Ht].
    rewrite (moved_other_log j b p (opa e) x) in Hx' by done. by injection Hx' as <-.
Qed.

Lemma moved_vss j w : vss' !! j = Some w -> vs_self w = Z.of_nat j /\ storage_inv K w m' /\ idle w.
Proof.
  intros [(<- & <- & _)|(Hn & Hj)]%list_lookup_insert_Some.
  - destruct (di_vss _ _ _ _ Hinv k v Hv) as (Hs & _).
    rewrite (fr_self _ _ _ _ (lm_frame _ _ _ _ _ _ _ _ Hmv)). split; [done|]. split; [apply Hmv|apply moved_idle].
  - destruct (di_vss _ _ _ _ Hinv j w Hj) as (Hs & Hi & Hidle). split; [done|]. split; [|done].
    eapply (storage_at K w m m'); [done|done|]. intros c i e Hh.
    rewrite (moved_other_vs j w _ e); [done|done|done|]. eapply holds_entry_of_at; [apply Hi|done].
Qed.

(** Where each value is afterwards, and that it is the same. *)
Definition kept (a key : Z) (x : at_entry_t) : Prop :=
  value_of vss' m' a = value_of vss m a /\ exists x', at_mem m' !! a = Some x' /\
    (get_tag (val_addr x) = OPLOG_VAL \/ in_vs x = true /\ in_vs x' = true) /\
    (stored_at vss' m' a key x' \/ logged_at logs' m' a key x').

Lemma moved_self : vs_self v' = Z.of_nat k.
Proof.
  rewrite (fr_self _ _ _ _ (lm_frame _ _ _ _ _ _ _ _ Hmv)). by destruct (di_vss _ _ _ _ Hinv k v Hv).
Qed.

Lemma moved_stored a e : entry_of_at v' m' a e ->
  exists x', at_mem m' !! a = Some x' /\ in_vs x' = true /\ stored_at vss' m' a (ve_key e) x' /\
    value_of vss' m' a = Some (ve_val e).
Proof.
  intros He. pose proof moved_self as Hs. pose proof He as (_ & _ & _ & _ & x' & Hx' & _). exists x'.
  assert (k < length vss)%nat as Hk by (by eapply lookup_lt_Some).
  destruct (entry_of_at_vs v' m' a e x' He Hx') as (c & i & Hi & _ & Hin); [lia|].
  split; [done|]. split; [done|]. split.
  - exists v', e. rewrite Hi. cbn [vs_id]. by rewrite Hs, Nat2Z.id, list_lookup_insert_eq.
  - unfold value_of. rewrite Hx'. cbn. rewrite Hin. apply (disk_value_stored _ _ a e v'); [|lia|exact He].
    rewrite Hs, Nat2Z.id. by apply list_lookup_insert_eq.
Qed.

Lemma kept_stored a key x : at_mem m !! a = Some x -> stored_at vss m a key x -> kept a key x.
Proof.
  intros Hx (w & e & Hw & He & <-). destruct (di_vss _ _ _ _ Hinv _ w Hw) as (Hsw & _).
  destruct (entry_of_at_vs w m a e x He Hx) as (c & i & Hi & _ & Hin); [lia|].
  destruct (decide (Z.to_nat (vs_id (vs_idx x)) = k)) as [Ek|Hne].
  - assert (w = v) as -> by (rewrite Ek in Hw; congruence).
    destruct (moved_stored a e) as (x' & Hx' & Hin' & Hst & Hval); [apply moved_entry; by left|]. split.
    + rewrite Hval. unfold value_of. rewrite Hx. cbn. rewrite Hin. symmetry.
      apply (disk_value_stored _ _ a e v); [|lia|exact He]. rewrite Hi in Hw. exact Hw.
    + exists x'. split; [done|]. split; [by right|by left].
  - pose proof (moved_other_vs _ w a e Hw Hne He) as Eat. rewrite Hx in Eat. split.
    + unfold value_of. rewrite Hx, Eat. cbn. rewrite Hin. unfold disk_value. rewrite Hx, Eat. cbn. rewrite Hin.
      by rewrite list_lookup_insert_ne by done.
    + exists x. split; [done|]. split; [by right|]. left. exists w, e.
      rewrite list_lookup_insert_ne by done. split; [done|]. split; [|done].
      destruct He as (Ea & c' & i' & Hh & y & Hy & Hpt). split; [done|]. exists c', i'. split; [done|].
      exists y. split; [congruence|done].
Qed.

Lemma kept_logged a key x : at_mem m !! a = Some x -> logged_at logs m a key x -> kept a key x.
Proof.
  intros Hx (Hi & j & b & p & e & Hp & Hu & Hw & Hop & Hoa & Hok).
  assert (get_tag (val_addr x) = OPLOG_VAL) as Ht
    by (rewrite Hw; apply get_tag_shape; [done|unfold OPLOG_VAL; lia]).
  assert (get_untagged_ptr (val_addr x) = p) as Hpx by (rewrite Hw; by apply get_untagged_shape).
  assert (value_of vss m a = Some (op_val e)) as Hval.
  { unfold value_of. rewrite Hx. cbn. unfold in_vs. rewrite Hi. cbn. by rewrite Ht, Hpx, Hop. }
  destruct (decide ((j, b) = (tid, one))) as [[= -> ->]|Hne].
  - destruct (moved_stored a (VsEntry a key (op_val e))) as (x' & Hx' & Hin' & Hst & Hval').
    { apply moved_entry. right. destruct Hp as (L1 & HL1 & Hp). assert (L1 = L) as -> by congruence.
      exists p, e. split; [done|]. split; [|by rewrite Hoa, Hok]. unfold op_live. rewrite Hop, Hoa, Hx.
      by apply Z.eqb_eq. }
    split; [by rewrite Hval, Hval'|]. exists x'. split; [done|]. split; [by left|by left].
  - pose proof (moved_other_log j b p a x Hp Hne Hx Hi (eq_sym Hpx)) as Eat. split.
    + rewrite Hval. unfold value_of. rewrite Eat. cbn. unfold in_vs. rewrite Hi. cbn.
      by rewrite Ht, Hpx, (ms_op _ _ moved_same), Hop.
    + exists x. split; [done|]. split; [by left|]. right. split; [done|].
      exists j, b, p, e. rewrite (ms_op _ _ moved_same). split; [by apply moved_in_log|]. done.
Qed.

Lemma moved_key a key : K !! a = Some key -> a <> 0 /\ exists x, at_mem m !! a = Some x /\ kept a key x.
Proof.
  intros Ha. destruct (di_placed _ _ _ _ Hinv a key Ha) as (Hz & x & Hx & Hp). split; [done|]. exists x.
  split; [done|]. destruct Hp; [by apply kept_stored|by apply kept_logged].
Qed.

Lemma moved_data : data_inv K logs' vss' m'.
Proof.
  split; [apply Hinv|apply moved_logs|apply moved_vss|].
  intros a key Ha. destruct (moved_key a key Ha) as (Hz & x & _ & _ & x' & Hx' & _ & Hp). eauto.
Qed.

Lemma moved_cached l : cached (cur_value K vss m) m l -> cached (cur_value K vss' m') m' l.
Proof.
  pose proof moved_same as [Eop Edc Hva].
  assert (forall a x', at_mem m' !! a = Some x' -> exists x, at_mem m !! a = Some x /\ val_addr x' = val_addr x) as Hold.
  { intros a x' Hx'. specialize (Hva a). rewrite Hx' in Hva. destruct (at_mem m !! a) as [x|]; [|done].
    exists x. split; [done|]. by injection Hva. }
  intros [A B C]. split.
  - intros p Hp. destruct (A p Hp) as (e & x & He & S1 & S2 & Hz & Hx & Hpl).
    destruct (mem_same_live m m' (dc_at_entry e) moved_same) as [x' Hx']; [eauto|].
    exists e, x'. unfold dc_place in *. rewrite Edc, Eop. done.
  - intros a x' Hx' Ht. destruct (Hold a x' Hx') as (x & Hx & Ew). rewrite Ew in Ht |- *.
    destruct (B a x Hx Ht) as (e & Hin & He & Hae & Hc). exists e. rewrite Edc. split; [done|].
    split; [done|]. split; [done|]. unfold cur_value in *. destruct (K !! a) as [key|] eqn:HK; [|done]. cbn in *.
    destruct (moved_key a key HK) as (_ & y & Hy & Hval & y' & Hy' & Hcase & _).
    assert (y = x) as -> by congruence. assert (y' = x') as -> by congruence.
    destruct Hcase as [Ho|[Hi Hi']]; [rewrite Ht in Ho; done|]. unfold value_of in Hval.
    rewrite Hx, Hx' in Hval. cbn in Hval. rewrite Hi, Hi' in Hval. congruence.
  - intros a x' Hx'. destruct (Hold a x' Hx') as (x & Hx & Ew). unfold word_ok. rewrite Ew. by apply (C a).
Qed.
End reclaim.

Context `{CE : CacheEnv} `{!CacheEnvOk CE} {I : Type} `{KeyIndex I} `{!KeyIndexOk I}.

(** The reclaim thread can run on log [tid] with storage [k]. *)
Definition reclaim_ok (w : Prism I) (tid k : nat) : Prop :=
  exists L v id, g_perNumaOpLog w !! tid = Some L /\ reclaim_thread L = Some id /\
    g_perNumaValueStorage w !! k = Some v /\ reclaimable (p_mem w) L (id =? 0) v tid.

Lemma reclaim_step_spec w tid k : prism_ok w -> reclaim_ok w tid k ->
  exists w', reclaim_step w tid k = Ok w' /\ prism_ok w' /\ (forall key, kv w' key = kv w key) /\
    g_perNumaKeyIndex w' = g_perNumaKeyIndex w /\ r_ring w' = r_ring w /\ g_cacheQueue w' = g_cacheQueue w.
Proof.
  intros (K & la & li & Hm) (L & v & id & HL & Hid & Hv & Hrc). pose proof (mi_data _ _ _ _ Hm) as Hd.
  pose proof (reclaim_ready K _ _ _ Hd tid k L v id HL Hv Hrc) as Hpre.
  destruct (reclaim_spec K L v (p_mem w) id Hpre) as (L' & v' & m' & Hr & Hmv).
  unfold reclaim_step, nth_of. rewrite HL. cbn [of_option mbind res_bind]. rewrite Hid. cbn [of_option mbind res_bind].
  rewrite Hv. cbn [of_option mbind res_bind]. rewrite Hr. cbn [mbind res_bind]. eexists. split; [done|].
  split; [|split; [|done]].
  - exists K, la, li. split; cbn.
    + apply (mi_index _ _ _ _ Hm).
    + eapply tables_inv_dom; [apply (mi_tables _ _ _ _ Hm)|]. intros a. eapply mem_same_live, Hmv.
    + by eapply moved_data.
    + eapply lru_cached; [apply (ms_dc _ _ (lm_mem _ _ _ _ _ _ _ _ Hmv))| |apply (mi_cache _ _ _ _ Hm)].
      intros l. by eapply moved_cached.
    + apply (mi_fits _ _ _ _ Hm).
    + eapply cache_sized_ext; [| |apply (mi_sized _ _ _ _ Hm)]; [done|]. cbn.
      by rewrite (ms_op _ _ (lm_mem _ _ _ _ _ _ _ _ Hmv)).
  - intros key. unfold kv. cbn. destruct (ki_map (g_perNumaKeyIndex w) !! key) as [a|] eqn:Ha; [|done]. cbn.
    apply (mi_index _ _ _ _ Hm) in Ha. by destruct (moved_key K _ _ _ Hd tid k L v id HL Hv L' v' m' Hmv a key Ha)
      as (_ & x & _ & Hval & _).
Qed.

(** * The cache *)

Section cache.
Context (K : gmap Z Z) (logs : list OpLog) (vss : list ValueStorage) (m m' : memory).
Context (Hinv : data_inv K logs vss m) (Hk : at_kept m m').

Lemma kept_entry a x : at_mem m !! a = Some x -> exists x', at_mem m' !! a = Some x' /\ vs_idx x' = vs_idx x.
Proof.
  intros Hx. pose proof (ak_idx _ _ Hk a) as Hi. rewrite Hx in Hi.
  destruct (at_mem m' !! a) as [x'|]; [|done]. exists x'. split; [done|]. by injection Hi.
Qed.

Lemma kept_entry_inv a x' : at_mem m' !! a = Some x' -> exists x, at_mem m !! a = Some x /\ vs_idx x' = vs_idx x.
Proof.
  intros Hx'. pose proof (ak_idx _ _ Hk a) as Hi. rewrite Hx' in Hi.
  destruct (at_mem m !! a) as [x|]; [|done]. exists x. split; [done|]. by injection Hi.
Qed.

Lemma kept_disk a : disk_value vss m' a = disk_value vss m a.
Proof.
  unfold disk_value. pose proof (ak_idx _ _ Hk a) as Hi.
  destruct (at_mem m' !! a) as [x'|], (at_mem m !! a) as [x|]; try done. injection Hi as Hi. cbn.
  unfold in_vs. by rewrite Hi.
Qed.

Lemma kept_placed a key : K !! a = Some key -> value_of vss m' a = value_of vss m a /\
  exists x', at_mem m' !! a = Some x' /\ (stored_at vss m' a key x' \/ logged_at logs m' a key x').
Proof.
  intros Ha. destruct (di_placed _ _ _ _ Hinv a key Ha) as (Hz & x & Hx & Hp).
  destruct (kept_entry a x Hx) as (x' & Hx' & Hi).
  destruct Hp as [(v & e & Hv & He & Hke)|(Hl & j & b & p & e & R)].
  - destruct (di_vss _ _ _ _ Hinv _ _ Hv) as (Hs & Hst & Hid).
    destruct (entry_of_at_vs v m a e x He Hx) as (_ & _ & _ & _ & Hin); [lia|]. split.
    + unfold value_of. rewrite kept_disk, Hx, Hx'. cbn. assert (in_vs x' = in_vs x) as -> by (unfold in_vs; by rewrite Hi).
      by rewrite Hin.
    + exists x'. split; [done|]. left. exists v, e. rewrite Hi. split; [done|]. split; [|done].
      apply (storage_at K v m m' Hst Hid); [|done]. intros c i e' _. apply (ak_idx _ _ Hk).
  - destruct R as (Hp & Hu & Hw & R). assert (at_mem m' !! a = Some x) as Eat.
    { apply (ak_log _ _ Hk); [done|by rewrite Hl|]. rewrite Hw. apply get_tag_shape; [done|unfold OPLOG_VAL; lia]. }
    split; [unfold value_of; by rewrite kept_disk, Eat, Hx, (ak_op _ _ Hk)|].
    exists x. split; [done|]. right. split; [done|]. exists j, b, p, e. by rewrite (ak_op _ _ Hk).
Qed.

Lemma kept_data : data_inv K logs vss m'.
Proof.
  pose proof (di_logs _ _ _ _ Hinv) as Hlg. split; [apply Hinv| | |].
  - split.
    + intros j L HL. destruct (lg_ok _ _ _ Hlg j L HL) as (Hok & R). split; [|done].
      apply oplog_ok_intro. intros b. destruct (oplog_ok_elim L m b Hok) as (Hl & ? & ?). split; [|done].
      eapply log_ok_mem; [|exact Hl]. by rewrite (ak_op _ _ Hk).
    + apply Hlg.
    + intros j b p Hp. rewrite (ak_op _ _ Hk). by eapply (lg_entry _ _ _ Hlg).
    + intros j b p e x' Hp He Hx' Hpx. rewrite (ak_op _ _ Hk) in He.
      destruct (kept_entry_inv _ x' Hx') as (x & Hx & _).
      destruct (ak_word _ _ Hk _ x x' Hx Hx') as [Ew|Hno]; [|rewrite <- Hpx in Hno; congruence].
      rewrite Ew in Hpx. destruct (lg_live _ _ _ Hlg j b p e x Hp He Hx Hpx) as [Hi Ht].
      rewrite (ak_log _ _ Hk _ x Hx) in Hx' by (done || by rewrite Hi). by injection Hx' as <-.
  - intros j v Hv. destruct (di_vss _ _ _ _ Hinv j v Hv) as (Hs & Hst & Hid). split; [done|]. split; [|done].
    apply (storage_at K v m m' Hst Hid). intros c i e _. apply (ak_idx _ _ Hk).
  - intros a key Ha. split; [by destruct (di_placed _ _ _ _ Hinv a key Ha)|]. by apply kept_placed.
Qed.
End cache.

Lemma cached_ext cur cur' m l : (forall a, cur' a = cur a) -> cached cur m l -> cached cur' m l.
Proof.
  intros E [A B C]. split; [done| |done]. intros a x Hx Ht. destruct (B a x Hx Ht) as (e & R). exists e. by rewrite E.
Qed.

(** The head of cache queue [j] is served. *)
Lemma cache_step_spec w K la li j vec q : mts_inv w K la li -> g_cacheQueue w !! j = Some (vec :: q) -> vec <> [] ->
  Forall (request_ok (cur_value K (g_perNumaValueStorage w) (p_mem w)) (p_mem w)) vec ->
  exists w' la' li', cache_step w j = Ok w' /\ mts_inv w' K la' li' /\ (forall key, kv w' key = kv w key) /\
    g_cacheQueue w' = <[j := q]> (g_cacheQueue w) /\ r_ring w' = r_ring w /\
    g_perNumaValueStorage w' = g_perNumaValueStorage w /\ g_perNumaKeyIndex w' = g_perNumaKeyIndex w /\
    at_kept (p_mem w) (p_mem w').
Proof.
  intros Hm Hq Hne Hreq.
  destruct (cacheOperation_spec _ _ la li vec (mi_cache _ _ _ _ Hm) (mi_fits _ _ _ _ Hm) (mi_sized _ _ _ _ Hm) Hne Hreq)
    as (s' & la' & li' & Hop & Hc & Hf & Hss). pose proof Hss as [Evs Hk _ _]. cbn [cs_vss cs_mem] in Evs, Hk.
  pose proof (mi_data _ _ _ _ Hm) as Hd. unfold cache_step, nth_of, run_cache. rewrite Hq.
  cbn [of_option mbind res_bind DramCacheThread g_perNumaValueStorage p_mem set_queues]. rewrite Hop.
  cbn [mbind res_bind]. eexists _, la', li'. split; [done|].
  split; [|split; [|repeat (split; [done|]); done]].
  - split; cbn; rewrite ?Evs.
    + apply (mi_index _ _ _ _ Hm).
    + eapply tables_inv_dom; [apply (mi_tables _ _ _ _ Hm)|]. intros a [x Hx].
      destruct (kept_entry _ _ Hk a x Hx) as (x' & Hx' & _). by exists x'.
    + by eapply kept_data.
    + destruct s' as [ct vs m']. cbn in *. subst vs. eapply lru_cached; [done| |exact Hc].
      intros l. apply cached_ext. intros a. unfold cur_value. by rewrite (kept_disk _ _ _ Hk).
    + destruct s' as [ct vs m']. cbn in *. by subst vs.
    + destruct s' as [ct vs m']. cbn in *. subst vs. eapply cache_sized_same; [exact Hss|apply (mi_sized _ _ _ _ Hm)].
  - intros key. unfold kv. cbn. rewrite Evs. destruct (ki_map (g_perNumaKeyIndex w) !! key) as [a|] eqn:Ha; [|done]. cbn.
    apply (mi_index _ _ _ _ Hm) in Ha. by eapply (kept_placed K (g_perNumaOpLog w)).
Qed.
(** C8. A reclaim thread moves a write buffer's live values to a storage:
    whenever the storage has room for them and they fill whole chunks, the
    step succeeds, keeps the invariant of the whole store and changes no
    key's value. *)
Theorem reclaim_step_refines w tid k : prism_ok w -> reclaim_ok w tid k ->
  exists w', reclaim_step w tid k = Ok w' /\ prism_ok w' /\ (forall key, kv w' key = kv w key) /\
    g_perNumaKeyIndex w' = g_perNumaKeyIndex w.
Proof.
  intros Hok Hr. destruct (reclaim_step_spec w tid k Hok Hr) as (w' & E & Hok' & Hkv & Hi & _). by exists w'.
Qed.
End background.
