(* ===== verification/MtsTrace.v ===== *)
(** Runs of the key-value store.

    An action is an operation of the interface or a step of a background
    thread; [exec] performs it.  [system_ok] extends the invariant by the
    reads in flight and the requests queued for the cache: each carries the
    current value of its key, or that of a key that has been written to a
    write buffer since, which the cache skips.  The step theorem says that an
    allowed action never faults, keeps the invariant and acts on the map [kv]
    as its specification does; the run theorem follows by induction. *)

From S2P Require Import Prelude Config TaggedPtr Objects AddressTable IoUring ValueStorage.
From S2P Require Import ChunkWrite ChunkAlloc GarbageCollection GcLoop Storage StorageIdle.
From S2P Require Import OpLog Reclaim LRUList CacheThread CacheInvariant ReadPath.
From S2P Require Import MTS MtsInvariant MtsOps MtsReads MtsBackground.

Local Open Scope Z_scope.

Inductive action :=
  | Insert (tid : nat) (key val : Z)
  | Update (tid : nat) (key val : Z)
  | Lookup (key : Z)
  | Scan (tid : nat) (startKey : Z) (range : nat)
  | Reclaim (tid k : nat)
  | Complete (k : nat)
  | CompleteScan (ring_idx : nat)
  | Cache (j : nat).

Section trace.
Context `{Config} `{IoUring} `{StdSort} `{CE : CacheEnv} `{!CacheEnvOk CE}.
Context `{!WfConfig _} `{!IoUringOk _}.
Context {I : Type} `{KeyIndex I} `{!KeyIndexOk I}.

(** The state after an action; [None]: the caller waits and tries again. *)
Definition after {A} (r : res (option (A * Prism I))) : res (option (Prism I)) :=
  o ← r; Ok (option_map snd o).
Definition stepped (r : res (Prism I)) : res (option (Prism I)) := w' ← r; Ok (Some w').

Definition exec (w : Prism I) (act : action) : res (option (Prism I)) :=
  match act with
  | Insert tid key val => after (MTS.insert w tid key val)
  | Update tid key val => after (MTS.update w tid key val)
  | Lookup key => after (MTS.lookup w key)
  | Scan tid startKey range => after (MTS.scan w tid startKey range)
  | Reclaim tid k => stepped (reclaim_step w tid k)
  | Complete k => stepped (completer_step w k)
  | CompleteScan i => stepped (completer_scan_step w i)
  | Cache j => stepped (cache_step w j)
  end.

(** Its effect on the map. *)
Definition spec (act : action) (f : Z -> option Z) : Z -> option Z :=
  match act with
  | Insert _ key val => fun k => if decide (k = key) then Some val else f k
  | Update _ key val =>
      fun k => if decide (k = key) then (match f key with Some _ => Some val | None => None end) else f k
  | _ => f
  end.

(** * Reads in flight and queued requests *)

Definition current (K : gmap Z Z) (w : Prism I) (cq : cq_entry_t) : Prop :=
  request_ok (cur_value K (g_perNumaValueStorage w) (p_mem w)) (p_mem w) cq.

Record requests_ok (K : gmap Z Z) (w : Prism I) : Prop := {
  rq_rings : forall k j r, ring_of w k j = Ok r -> pending_ios r = Z.of_nat (length (rr_flight r));
  rq_flight : forall k v j r q ops, ring_of w k j = Ok r -> g_perNumaValueStorage w !! k = Some v ->
    q ∈ rr_flight r -> current K w (cq_of ops (read_entry v q));
  rq_queue : forall j q vec, g_cacheQueue w !! j = Some q -> vec ∈ q -> vec <> [] /\ Forall (current K w) vec;
}.

Definition system_ok (w : Prism I) : Prop := exists K la li, mts_inv w K la li /\ requests_ok K w.

(** Nothing is in flight or queued. *)
Definition quiet (w : Prism I) : Prop :=
  (forall k j r, ring_of w k j = Ok r -> r = ReadRing [] 0) /\ Forall (fun q => q = []) (g_cacheQueue w).

Lemma quiet_ok K w : quiet w -> requests_ok K w.
Proof.
  intros [Hr Hq]. split.
  - intros k j r E. by rewrite (Hr k j r E).
  - intros k v j r q ops E _ Hin. rewrite (Hr k j r E) in Hin. by apply elem_of_nil in Hin.
  - intros j q vec E Hin. rewrite Forall_forall in Hq. rewrite (Hq q) in Hin; [by apply elem_of_nil in Hin|].
    by eapply list_elem_of_lookup_2.
Qed.

(** The requests stay good when each does and rings, queues and disks are the
    same. *)
Lemma requests_step K K' w w' : requests_ok K w ->
  (forall cq, current K w cq -> current K' w' cq) -> r_ring w' = r_ring w -> g_cacheQueue w' = g_cacheQueue w ->
  (forall k v', g_perNumaValueStorage w' !! k = Some v' -> exists v, g_perNumaValueStorage w !! k = Some v /\
     vs_disk v' = vs_disk v) -> requests_ok K' w'.
Proof.
  intros [R1 R2 R3] Hc Er Eq Hv.
  assert (forall k j, ring_of w' k j = ring_of w k j) as Ero by (intros; unfold ring_of; by rewrite Er).
  split.
  - intros k j r E. rewrite Ero in E. by eapply R1.
  - intros k v' j r q ops E Hv' Hin. rewrite Ero in E. destruct (Hv k v' Hv') as (v & Hv0 & Ed).
    assert (read_entry v' q = read_entry v q) as -> by (unfold read_entry; by rewrite Ed). eapply Hc, R2; done.
  - intros j q vec E Hin. rewrite Eq in E. destruct (R3 j q vec E Hin) as [Hne Hf]. split; [done|].
    eapply Forall_impl; [exact Hf|]. done.
Qed.

(** A write: requests for the written key will be skipped. *)
Lemma written_requests K w w' a p key val : written K w w' a p key val -> requests_ok K w ->
  requests_ok (<[a := key]> K) w'.
Proof.
  intros [Em Hu HaK Hv Er Eq _] Hr. eapply requests_step; [exact Hr| |done|done|].
  - intros cq [?|(x & Hx & Hcq)]; [by left|right]. rewrite Em. cbn.
    destruct (decide (a = cq_at_entry cq)) as [<-|Hne].
    + eexists. split; [apply lookup_insert_eq|]. left. cbn. split; [lia|].
      apply get_tag_shape; [done|unfold OPLOG_VAL; lia].
    + exists x. rewrite lookup_insert_ne by done. split; [done|]. destruct Hcq as [?|Hc]; [by left|right].
      unfold cur_value in *. rewrite lookup_insert_ne by done.
      destruct (K !! cq_at_entry cq); [|done]. cbn in *. rewrite <- Hc. rewrite Em in Hv. by eapply repoint_disk.
  - intros k v' Hv'. destruct (Forall2_lookup_r _ _ _ _ _ Hv Hv') as (v & Hv0 & Hd). exists v. split; [done|].
    apply Hd.
Qed.

(** The cache. *)
Lemma cached_requests K w w' j vec q : at_kept (p_mem w) (p_mem w') -> g_cacheQueue w !! j = Some (vec :: q) ->
  g_cacheQueue w' = <[j := q]> (g_cacheQueue w) -> r_ring w' = r_ring w ->
  g_perNumaValueStorage w' = g_perNumaValueStorage w -> requests_ok K w -> requests_ok K w'.
Proof.
  intros Hk Hq Eq Er Ev [R1 R2 R3].
  assert (forall k i, ring_of w' k i = ring_of w k i) as Ero by (intros; unfold ring_of; by rewrite Er).
  assert (forall cq, current K w cq -> current K w' cq) as Hc.
  { intros cq Hcq. unfold current in *. eapply request_kept in Hcq; [|exact Hk].
    destruct Hcq as [?|(x & Hx & Hcq)]; [by left|right]. exists x. split; [done|].
    destruct Hcq as [?|Hcq]; [by left|right]. unfold cur_value in *. rewrite Ev.
    destruct (K !! cq_at_entry cq); [|done]. cbn in *. by rewrite (kept_disk _ _ _ Hk). }
  split.
  - intros k i r E. rewrite Ero in E. by eapply R1.
  - intros k v i r r0 ops E Hv Hin. rewrite Ero in E. rewrite Ev in Hv. eapply Hc, R2; done.
  - intros i q' vec' E Hin. rewrite Eq in E.
    assert (exists q0, g_cacheQueue w !! i = Some q0 /\ vec' ∈ q0) as (q0 & E0 & Hin0).
    { apply list_lookup_insert_Some in E as [(<- & <- & _)|(_ & E)]; [|by exists q'].
      exists (vec :: q). split; [done|by right]. }
    destruct (R3 i q0 vec' E0 Hin0) as [Hne Hf]. split; [done|]. eapply Forall_impl; [exact Hf|]. done.
Qed.

(** * Reads *)

(** A value read from the disk of its storage is current. *)
Lemma disk_current w K la li a k x val key ops : mts_inv w K la li -> K !! a = Some k ->
  at_mem (p_mem w) !! a = Some x -> in_vs x = true -> kv w k = Some val -> current K w (CqEntry a key val ops).
Proof.
  intros Hm HK Hx Hin Hkv. right. exists x. split; [done|]. right. cbn. unfold cur_value. rewrite HK. cbn.
  rewrite (kv_value w K la li a k Hm HK) in Hkv. unfold value_of in Hkv. rewrite Hx in Hkv. cbn in Hkv.
  by rewrite Hin in Hkv.
Qed.

(** New reads on some rings. *)
Lemma rings_requests K w w' : requests_ok K w -> p_mem w' = p_mem w ->
  g_perNumaValueStorage w' = g_perNumaValueStorage w -> g_cacheQueue w' = g_cacheQueue w ->
  (forall k j r, ring_of w' k j = Ok r -> ring_of w k j = Ok r \/
     exists v es, g_perNumaValueStorage w !! k = Some v /\ ring_holds v r es /\
       forall e ops, e ∈ es -> current K w (cq_of ops e)) -> requests_ok K w'.
Proof.
  intros [R1 R2 R3] Em Ev Eq Hr.
  assert (forall cq, current K w' cq <-> current K w cq) as Hc by (intros cq; unfold current; by rewrite Em, Ev).
  split.
  - intros k j r [E|(v & es & _ & [Hp _] & _)]%Hr; [by eapply R1|done].
  - intros k v j r q ops E Hv Hq. rewrite Hc. rewrite Ev in Hv. apply Hr in E as [E|(v' & es & Hv' & [_ Hes] & Hcur)];
      [by eapply R2|]. assert (v' = v) as -> by congruence. apply Hcur. rewrite <- Hes. by apply list_elem_of_fmap_2.
  - intros j q vec E Hin. rewrite Eq in E. destruct (R3 j q vec E Hin) as [Hne Hf]. split; [done|].
    eapply Forall_impl; [exact Hf|]. intros cq. by rewrite Hc.
Qed.

(** The invariant does not depend on rings and queues. *)
Lemma mts_inv_ext w w' K la li : mts_inv w K la li -> g_perNumaKeyIndex w' = g_perNumaKeyIndex w ->
  g_perNumaAddressTable w' = g_perNumaAddressTable w -> g_perNumaOpLog w' = g_perNumaOpLog w ->
  g_perNumaValueStorage w' = g_perNumaValueStorage w -> DramCacheThread w' = DramCacheThread w ->
  p_mem w' = p_mem w -> mts_inv w' K la li /\ forall k, kv w' k = kv w k.
Proof.
  intros Hm E1 E2 E3 E4 E5 E6. split.
  - destruct Hm. split; rewrite ?E1, ?E2, ?E3, ?E4, ?E5, ?E6; done.
  - intros k. unfold kv. by rewrite E1, E4, E6.
Qed.

Definition rings_present (w : Prism I) (i : nat) : Prop :=
  forall k, (k < length (g_perNumaValueStorage w))%nat -> exists r, ring_of w k i = Ok r.

(** An idle ring has nothing in flight. *)
Lemma idle_ring K w k j r : requests_ok K w -> ring_of w k j = Ok r -> pending_ios r = 0 -> r = ReadRing [] 0.
Proof.
  intros Hr E Hp. pose proof (rq_rings _ _ Hr k j r E) as Hl. destruct r as [f n]. cbn in *. subst n.
  destruct f; [done|]. cbn in Hl. lia.
Qed.

Lemma lookup_step w K la li key : mts_inv w K la li -> requests_ok K w -> rings_present w 0 ->
  exists o, exec w (Lookup key) = Ok o /\
    forall w', o = Some w' -> mts_inv w' K la li /\ requests_ok K w' /\ forall k, kv w' k = kv w k.
Proof.
  intros Hm Hr Hring. cbn [exec]. unfold after.
  destruct (ki_map (g_perNumaKeyIndex w) !! key) as [a|] eqn:Hkey.
  2: { unfold MTS.lookup. rewrite ki_lookup_spec, Hkey. cbn. eexists. split; [done|]. by intros w' [= <-]. }
  destruct (index_entry w K la li key a Hm Hkey) as (HK & _).
  destruct (lookup_spec w K la li key a Hm Hkey) as (x & val & Hx & Hkv & Hlk).
  destruct (on_disk x) eqn:Hd.
  2: { rewrite Hlk. cbn. eexists. split; [done|]. by intros w' [= <-]. }
  destruct Hlk as (j & v & Hv & Hlk). destruct (Hring j) as [r Hrj]; [by eapply lookup_lt_Some|].
  destruct (Hlk r Hrj) as [Hbusy Hidle]. destruct (decide (pending_ios r = 0)) as [Hz|Hnz].
  2: { rewrite Hbusy by done. by exists None. }
  destruct (Hidle (idle_ring K w j 0 r Hr Hrj Hz)) as (ring' & -> & Hh & _).
  eexists. split; [done|]. intros w' [= <-].
  destruct (mts_inv_ext w (set_ring j 0 ring' w) K la li Hm) as [Hm' Hkv']; [done..|].
  split; [done|]. split; [|done]. eapply rings_requests; [exact Hr|done..|].
  destruct (ring_of_set w j 0 ring' r Hrj) as [Hsj Hso]. intros k i r' E.
  destruct (decide ((k, i) = (j, 0%nat))) as [[= -> ->]|Hne]; [|left; by rewrite <- Hso].
  right. exists v, [VsEntry a key val]. assert (r' = ring') as -> by congruence. split; [done|]. split; [done|].
  intros e ops ->%list_elem_of_singleton. eapply disk_current; try done.
  unfold on_disk in Hd. by apply andb_true_iff in Hd as [? _].
Qed.

Lemma scan_step w K la li tid startKey n : mts_inv w K la li -> requests_ok K w ->
  length (g_perNumaValueStorage w) = MTS_VS_NUM -> rings_idle w tid ->
  exists w', exec w (Scan tid startKey n) = Ok (Some w') /\ mts_inv w' K la li /\ requests_ok K w' /\
    forall k, kv w' k = kv w k.
Proof.
  intros Hm Hr Hlen Hidle. assert (prism_ok w) as Hok by (by exists K, la, li).
  destruct (scan_spec w tid startKey n Hok Hlen Hidle) as (vals & rr & Hs & _ & _ & Hrd & Hfr).
  set (ks := take n (keys_from (ki_map (g_perNumaKeyIndex w)) startKey)) in *.
  exists (with_rings rr w). split; [cbn [exec]; unfold after; by rewrite Hs|].
  destruct (mts_inv_ext w (with_rings rr w) K la li Hm) as [Hm' Hkv']; [done..|].
  split; [done|]. split; [|done]. eapply rings_requests; [exact Hr|done..|]. intros k i r E.
  destruct (decide ((k < MTS_VS_NUM)%nat /\ keys_in w k ks <> [] /\ i = tid)) as [(Hk & Hne & ->)|Hno].
  2: { left. rewrite <- E. symmetry. apply Hfr. destruct (decide (i = tid)); [|by right; right].
       destruct (decide (keys_in w k ks = [])); [by right; left|]. left. destruct (decide (k < MTS_VS_NUM)%nat); [|lia].
       exfalso. by apply Hno. }
  right. destruct (lookup_lt_is_Some_2 (g_perNumaValueStorage w) k) as [v Hv]; [lia|].
  destruct (Hrd k Hk Hne v Hv) as (ring & Hring & Hh). assert (ring = r) as -> by congruence.
  exists v, (take R_QD (key_request w <$> keys_in w k ks)). split; [done|]. split; [done|].
  intros e ops He. assert (e ∈ key_request w <$> keys_in w k ks) as He'
    by (rewrite <- (take_drop R_QD); apply elem_of_app; by left).
  apply list_elem_of_fmap in He' as (key & -> & Hkey).
  apply list_elem_of_filter in Hkey as [_ [Hd Hkey]%list_elem_of_filter].
  assert (key_of_index w key) as [a Ha].
  { assert (Forall (key_of_index w) ks) as Hks by (apply Forall_take, keys_from_index). rewrite Forall_forall in Hks. auto. }
  destruct (index_entry w K la li key a Hm Ha) as (HK & _).
  destruct (key_located w K la li a key Hm HK) as (x & val & Hx & _ & Hkv & _).
  unfold key_on_disk, key_request, key_entry in *. rewrite Ha in *. cbn in *. rewrite Hx in Hd. cbn in Hd.
  rewrite Hkv. eapply disk_current; try done. unfold on_disk in Hd. by apply andb_true_iff in Hd as [? _].
Qed.

(** * Completion *)

Lemma complete_current K w k i r v ops vec : requests_ok K w -> ring_of w k i = Ok r ->
  g_perNumaValueStorage w !! k = Some v ->
  exists new, complete_pending_scan v r ops vec = Ok (vec ++ new, ReadRing [] 0) /\ Forall (current K w) new /\
    length new = length (rr_flight r).
Proof.
  intros Hr Hring Hv.
  destruct (complete_ring v r (read_entry v <$> rr_flight r) ops vec) as (cqs & Hp & Hc).
  { split; [by eapply (rq_rings _ _ Hr)|done]. }
  exists (cq_of ops <$> cqs). split; [done|]. split.
  - apply Forall_fmap, Forall_forall. intros e He. rewrite Hp in He.
    apply list_elem_of_fmap in He as (q & -> & Hq). by eapply (rq_flight _ _ Hr).
  - by rewrite length_fmap, Hp, length_fmap.
Qed.

(** A completed ring is idle. *)
Lemma reset_requests K w k i r : requests_ok K w -> ring_of w k i = Ok r ->
  requests_ok K (set_ring k i (ReadRing [] 0) w).
Proof.
  intros Hr Hring. destruct (ring_of_set w k i (ReadRing [] 0) r Hring) as [Hs Ho].
  destruct Hr as [R1 R2 R3]. split; [| |done].
  - intros k' i' r' E. destruct (decide ((k', i') = (k, i))) as [[= -> ->]|Hne]; [by assert (r' = ReadRing [] 0) as -> by congruence|].
    rewrite Ho in E by done. by eapply R1.
  - intros k' v i' r' q ops E Hv Hq. destruct (decide ((k', i') = (k, i))) as [[= -> ->]|Hne].
    + assert (r' = ReadRing [] 0) as -> by congruence. by apply elem_of_nil in Hq.
    + rewrite Ho in E by done. by eapply R2.
Qed.

(** A batch of current requests may be queued. *)
Lemma queued_requests K w vec j : requests_ok K w -> vec <> [] -> Forall (current K w) vec ->
  requests_ok K (cache_kv_items w vec j).
Proof.
  intros [R1 R2 R3] Hne Hf. split; [done|done|]. intros i q vec' E Hin. cbn in E.
  destruct (decide (i = j)) as [->|Hn].
  - rewrite list_lookup_alter_eq in E. destruct (g_cacheQueue w !! j) as [q0|] eqn:E0; [|done].
    injection E as <-. apply elem_of_app in Hin as [Hin|Hin%list_elem_of_singleton]; [by eapply R3|by subst].
  - rewrite list_lookup_alter_ne in E by done. by eapply R3.
Qed.

Lemma completer_step_ok w K la li k : mts_inv w K la li -> requests_ok K w ->
  (k < length (g_perNumaValueStorage w))%nat -> rings_present w 0 ->
  exists w', completer_step w k = Ok w' /\ mts_inv w' K la li /\ requests_ok K w' /\ forall key, kv w' key = kv w key.
Proof.
  intros Hm Hr Hk Hring. destruct (lookup_lt_is_Some_2 _ _ Hk) as [v Hv]. destruct (Hring k Hk) as [r Hrk].
  unfold completer_step, nth_of. rewrite Hv. cbn [of_option mbind res_bind]. rewrite Hrk. cbn [mbind res_bind].
  destruct (Z.eqb_spec (pending_ios r) 0) as [Hz|Hnz]; [by exists w|].
  destruct (complete_current K w k 0 r v CT_LOOKUP [] Hr Hrk Hv) as (new & Hc & Hf & Hl).
  assert (new <> []) as Hne.
  { intros ->. rewrite (rq_rings _ _ Hr k 0 r Hrk) in Hnz. cbn in Hl. lia. }
  unfold complete_pending_ios. rewrite Hc. cbn [mbind res_bind app].
  assert (requests_ok K (cache_kv_items (set_ring k 0 (ReadRing [] 0) w) new 0)) as Hr'.
  { apply queued_requests; [by eapply reset_requests|done|exact Hf]. }
  destruct (mts_inv_ext w (cache_kv_items (set_ring k 0 (ReadRing [] 0) w) new 0) K la li Hm) as [Hm' Hkv]; [done..|].
  destruct new; [done|]. eexists. split; [done|]. done.
Qed.

Lemma completer_scan_loop_ok K i ids : forall w vec, requests_ok K w -> Forall (current K w) vec ->
  (forall k, k ∈ ids -> is_Some (g_perNumaValueStorage w !! k) /\ exists r, ring_of w k i = Ok r) ->
  exists vec' rr, completer_scan_loop w i ids vec = Ok (vec', with_rings rr w) /\ Forall (current K w) vec' /\
    requests_ok K (with_rings rr w).
Proof.
  induction ids as [|k ids IH]; intros w vec Hr Hf Hall.
  { exists vec, (r_ring w). assert (with_rings (r_ring w) w = w) as -> by (by destruct w). done. }
  destruct (Hall k) as [[v Hv] [r Hrk]]; [left|]. cbn [completer_scan_loop]. unfold nth_of. rewrite Hv.
  cbn [of_option mbind res_bind]. rewrite Hrk. cbn [mbind res_bind].
  destruct (Z.eqb_spec (pending_ios r) 0) as [Hz|Hnz].
  { apply IH; [done|done|]. intros k' Hk'. apply Hall. by right. }
  destruct (complete_current K w k i r v CT_SCAN vec Hr Hrk Hv) as (new & Hc & Hfn & _). rewrite Hc. cbn [mbind res_bind].
  destruct (IH (set_ring k i (ReadRing [] 0) w) (vec ++ new)) as (vec' & rr & Hs & Hf' & Hr').
  - by eapply reset_requests.
  - by apply Forall_app.
  - intros k' Hk'. destruct (Hall k') as [Hs' [r' Hr']]; [by right|]. split; [done|].
    destruct (ring_of_set w k i (ReadRing [] 0) r Hrk) as [R1 R2].
    destruct (decide ((k', i) = (k, i))) as [[= ->]|Hne]; [by eexists|]. exists r'. by rewrite R2.
  - exists vec', rr. done.
Qed.

Lemma completer_scan_ok w K la li i : mts_inv w K la li -> requests_ok K w ->
  length (g_perNumaValueStorage w) = MTS_VS_NUM -> rings_present w i ->
  exists w', completer_scan_step w i = Ok w' /\ mts_inv w' K la li /\ requests_ok K w' /\ forall key, kv w' key = kv w key.
Proof.
  intros Hm Hr Hlen Hring. unfold completer_scan_step.
  destruct (completer_scan_loop_ok K i (seq 0 MTS_VS_NUM) w [] Hr) as (vec & rr & Hs & Hf & Hr'); [constructor| |].
  { intros k Hk%elem_of_seq. split; [apply lookup_lt_is_Some_2; lia|apply Hring; lia]. }
  rewrite Hs. cbn [mbind res_bind]. destruct vec as [|cq vec].
  - destruct (mts_inv_ext w (with_rings rr w) K la li Hm) as [Hm' Hkv]; [done..|]. by exists (with_rings rr w).
  - destruct (mts_inv_ext w (cache_kv_items (with_rings rr w) (cq :: vec) i) K la li Hm) as [Hm' Hkv]; [done..|].
    eexists. split; [done|]. split; [done|]. split; [|done]. by apply queued_requests.
Qed.

(** * Steps and runs *)

(** When an action may be taken. *)
Definition allowed (w : Prism I) (act : action) : Prop :=
  match act with
  | Insert tid key _ => ki_map (g_perNumaKeyIndex w) !! key = None /\ log_ready w tid /\ table_ready w tid
  | Update tid key _ => log_ready w tid
  | Lookup _ => rings_present w 0
  | Scan tid _ _ => length (g_perNumaValueStorage w) = MTS_VS_NUM /\ rings_idle w tid
  | Reclaim tid k => reclaim_ok w tid k /\ quiet w
  | Complete k => (k < length (g_perNumaValueStorage w))%nat /\ rings_present w 0
  | CompleteScan i => length (g_perNumaValueStorage w) = MTS_VS_NUM /\ rings_present w i
  | Cache j => is_Some (g_cacheQueue w !! j)
  end.

Lemma step_spec w act : system_ok w -> allowed w act ->
  exists o, exec w act = Ok o /\
    (o = None -> exists key, act = Lookup key) /\
    forall w', o = Some w' -> system_ok w' /\ forall k, kv w' k = spec act (kv w) k.
Proof.
  intros (K & la & li & Hm & Hr).
  assert (forall r K' la' li', mts_inv r K' la' li' -> requests_ok K' r -> (forall k, kv r k = spec act (kv w) k) ->
    exec w act = Ok (Some r) -> exists o, exec w act = Ok o /\ (o = None -> exists key, act = Lookup key) /\
    forall w', o = Some w' -> system_ok w' /\ forall k, kv w' k = spec act (kv w) k) as Hdone.
  { intros r K' la' li' Hm' Hr' Hkv E. exists (Some r). split; [done|]. split; [done|]. intros w' [= <-].
    split; [by exists K', la', li'|done]. }
  destruct act as [tid key val|tid key val|key|tid start n|tid k|k|i|j]; cbn [allowed exec spec] in *; unfold after, stepped in *.
  - intros (Hnew & Hl & Ht). destruct (insert_spec w K la li tid key val Hm Hnew Hl Ht) as (w' & a & p & E & Hm' & Hkv & Hwr).
    eapply (Hdone w'); [exact Hm'|by eapply written_requests|exact Hkv|by rewrite E].
  - intros Hl. destruct (ki_map (g_perNumaKeyIndex w) !! key) as [a|] eqn:Hkey.
    + destruct (update_spec w K la li tid key val a Hm Hkey Hl) as (w' & p & E & Hm' & Hkv & Hwr & _).
      destruct (kv_of_index w key) as [old Hold]; [by exists K, la, li|by exists a|].
      eapply (Hdone w' K la li); [done| |rewrite Hold; exact Hkv|by rewrite E].
      rewrite <- (insert_id K a key); [by eapply written_requests|by apply (mi_index _ _ _ _ Hm)].
    + eapply (Hdone w); [done|done| |].
      * intros k. case_decide as Hk; [|done]. subst k. unfold kv. by rewrite Hkey.
      * destruct Hl as (L & HL & _). unfold update, nth_of. rewrite HL, ki_lookup_spec, Hkey. done.
  - intros Hring. destruct (lookup_step w K la li key Hm Hr Hring) as (o & E & Ho). exists o. split; [done|].
    split; [by eexists|]. intros w' Hw'. destruct (Ho w' Hw') as (? & ? & ?). split; [by exists K, la, li|done].
  - intros [Hlen Hidle]. destruct (scan_step w K la li tid start n Hm Hr Hlen Hidle) as (w' & E & ? & ? & ?).
    by eapply (Hdone w').
  - intros [Hrc Hq]. destruct (reclaim_step_spec w tid k) as (w' & E & (K' & la' & li' & Hm') & Hkv & _ & Err & Eqq);
      [by exists K, la, li|done|].
    eapply (Hdone w'); [exact Hm'|apply quiet_ok|exact Hkv|by rewrite E].
    destruct Hq as [Hq1 Hq2]. split; [|by rewrite Eqq]. intros k' j r. unfold ring_of. rewrite Err. apply Hq1.
  - intros [Hk Hring]. destruct (completer_step_ok w K la li k Hm Hr Hk Hring) as (w' & E & ? & ? & ?).
    eapply (Hdone w'); try done. by rewrite E.
  - intros [Hlen Hring]. destruct (completer_scan_ok w K la li i Hm Hr Hlen Hring) as (w' & E & ? & ? & ?).
    eapply (Hdone w'); try done. by rewrite E.
  - intros [q Hq]. destruct q as [|vec q].
    + eapply (Hdone w); try done. unfold cache_step, nth_of. by rewrite Hq.
    + destruct (rq_queue _ _ Hr j (vec :: q) vec Hq) as [Hne Hf]; [left|].
      destruct (cache_step_spec w K la li j vec q Hm Hq Hne Hf) as (w' & la' & li' & E & Hm' & Hkv & Eq & Err & Ev & _ & Hk).
      eapply (Hdone w'); [exact Hm'|by eapply cached_requests|exact Hkv|by rewrite E].
Qed.

(** A run: allowed actions, those that wait left out. *)
Inductive run : Prism I -> list action -> Prism I -> Prop :=
  | run_nil w : run w [] w
  | run_cons w act w1 acts w2 : allowed w act -> exec w act = Ok (Some w1) -> run w1 acts w2 ->
      run w (act :: acts) w2.

Definition spec_run (acts : list action) (f : Z -> option Z) : Z -> option Z := foldl (fun g act => spec act g) f acts.

Lemma spec_ext act f g : (forall k, f k = g k) -> forall k, spec act f k = spec act g k.
Proof. intros E k. destruct act; cbn; rewrite ?E; try done. Qed.

Lemma spec_run_ext acts : forall f g, (forall k, f k = g k) -> forall k, spec_run acts f k = spec_run acts g k.
Proof.
  induction acts as [|act acts IH]; intros f g E k; [done|]. cbn. apply IH. intros k'. by apply spec_ext.
Qed.

(** C2. Every operation and every background step, taken when it is allowed
    in a store that satisfies the invariant (reads in flight and requests
    queued for the cache included), executes without fault, keeps the
    invariant and acts on the map of keys to values as its specification:
    insertions and updates set one key, everything else leaves the map alone.
    Only a lookup may have to wait. *)
Theorem step_correct w act : system_ok w -> allowed w act ->
  exists o, exec w act = Ok o /\
    (o = None -> exists key, act = Lookup key) /\
    forall w', o = Some w' -> system_ok w' /\ forall k, kv w' k = spec act (kv w) k.
Proof. apply step_spec. Qed.

Lemma run_spec w acts w' : system_ok w -> run w acts w' ->
  system_ok w' /\ forall k, kv w' k = spec_run acts (kv w) k.
Proof.
  intros Hok Hrun. induction Hrun as [w|w act w1 acts w2 Ha E _ IH]; [done|].
  destruct (step_spec w act Hok Ha) as (o & E' & _ & Hs). rewrite E in E'. injection E' as <-.
  destruct (Hs w1 eq_refl) as [Hok1 Hkv]. destruct (IH Hok1) as [Hok2 Hkv2]. split; [done|].
  intros k. rewrite Hkv2. cbn. by apply spec_run_ext.
Qed.

(** C1. Any interleaving of allowed operations and background steps keeps the
    invariant, and the map it ends with is the one its insertions and updates
    describe: reclaiming, reading and caching are invisible. *)
Theorem run_correct w acts w' : system_ok w -> run w acts w' ->
  system_ok w' /\ forall k, kv w' k = spec_run acts (kv w) k.
Proof. apply run_spec. Qed.
End trace.
