(* ===== verification/MtsStart.v ===== *)
(** A store just constructed satisfies the invariant and maps no key.

    [layout] is what the constructor needs of the memory it is given: mapped,
    disjoint areas for the address tables and the write buffers, an address
    table without cached entries, and an empty cache. *)

From S2P Require Import Prelude Config TaggedPtr Objects AddressTable IoUring ValueStorage.
From S2P Require Import ChunkWrite ChunkAlloc GarbageCollection GcLoop Storage StorageIdle.
From S2P Require Import OpLog Reclaim LRUList CacheThread CacheInvariant ReadPath.
From S2P Require Import MTS MtsInvariant MtsOps MtsReads MtsBackground MtsTrace.

Local Open Scope Z_scope.

Section start.
Context `{Config} `{IoUring} `{StdSort} `{CE : CacheEnv} `{!CacheEnvOk CE}.
Context `{!WfConfig _} `{!IoUringOk _}.
Context {I : Type} `{KeyIndex I} `{!KeyIndexOk I}.

Lemma mapM_all {A B} (f : A -> res B) (g : A -> B) l : (forall x, x ∈ l -> f x = Ok (g x)) -> mapM f l = Ok (g <$> l).
Proof.
  induction l as [|x l IH]; intros Hf; [done|]. cbn. rewrite (Hf x) by left. cbn.
  rewrite IH; [done|]. intros y Hy. apply Hf. by right.
Qed.

(** * A log just created *)

Lemma is_power_of_2_pow k : 0 <= k < 63 -> is_power_of_2 (2 ^ k) = true.
Proof.
  intros Hk. assert (0 < 2 ^ k < 2 ^ 63) as Hp by (split; [lia|apply Z.pow_lt_mono_r; lia]).
  unfold is_power_of_2. rewrite (proj2 (Z.eqb_neq _ 0)) by lia. cbn [negb andb].
  rewrite to_u_id by lia. rewrite Z.sub_1_r, <- Z.ones_equiv, Z.land_ones by lia. apply Z.eqb_eq. apply Z.mod_same. lia.
Qed.

Definition log_area (m : memory) (b : Z) : Prop :=
  0 < b /\ b + MTS_OPLOG_SIZE < 2 ^ 47 /\
  forall i, 0 <= i < MTS_OPLOG_SIZE -> (KV_SIZE | i) -> is_Some (op_mem m !! (b + i)).

Definition new_log (b id : Z) (r : bool) : ts_oplog :=
  TsOplog id r false 0 0 MTS_OPLOG_SIZE (to_u64 (Z.lnot (MTS_OPLOG_SIZE - 1))) b 0 0.

Lemma oplog_created b1 b2 id :
  OpLog.create b1 b2 id = Some (MkOpLog false id true (new_log b1 0 true) (new_log b2 1 false) None 0).
Proof.
  unfold OpLog.create, nvlog_create. destruct wf_log as (k & j & Hj & Hk & Hsz & _).
  assert (is_power_of_2 MTS_OPLOG_SIZE = true) as Hp by (rewrite Hsz; apply is_power_of_2_pow; lia).
  rewrite Hp. cbv zeta. rewrite Hp. done.
Qed.

Lemma new_log_ok m b id r : log_area m b -> log_ok (new_log b id r) m.
Proof.
  intros (Hb & Hu & Hm). pose proof size_pos. split; cbn; try done; try lia; (split; [lia|apply Z.divide_0_r]).
Qed.

Lemma new_log_empty m b id r : log_area m b -> log_entries (new_log b id r) = [].
Proof. intros Ha. by apply (log_entries_nil _ m (new_log_ok m b id r Ha)). Qed.

(** * The layout *)

Definition area (a b : Z) (size : Z) : Prop := a + size <= b \/ b + size <= a.

Record layout (keyindex : I) (hsit : nat -> option Z) (pwb : nat -> Z * Z) (m : memory) : Prop := {
  ly_index : ki_map keyindex = ∅;
  ly_tables : forall i, (i < MTS_THREAD_NUM)%nat -> exists a, hsit i = Some a /\ 0 < a /\
    a + MTS_AT_ENTRY_NUM * sizeof_at_entry < 2 ^ 47 /\
    forall j, 0 <= j < MTS_AT_ENTRY_NUM -> is_Some (at_mem m !! (a + j * sizeof_at_entry));
  ly_tables_apart : forall i i' a a', (i < MTS_THREAD_NUM)%nat -> (i' < MTS_THREAD_NUM)%nat -> i <> i' ->
    hsit i = Some a -> hsit i' = Some a' -> area a a' (MTS_AT_ENTRY_NUM * sizeof_at_entry);
  ly_logs : forall i, (i < MTS_THREAD_NUM)%nat -> log_area m (pwb i).1 /\ log_area m (pwb i).2;
  ly_logs_apart : forall i b i' b', (i < MTS_THREAD_NUM)%nat -> (i' < MTS_THREAD_NUM)%nat -> (i, b) <> (i', b') ->
    area (if (b : bool) then (pwb i).1 else (pwb i).2) (if (b' : bool) then (pwb i').1 else (pwb i').2) MTS_OPLOG_SIZE;
  ly_words : forall a x, at_mem m !! a = Some x -> word_ok x /\ get_tag (val_addr x) <> DCACHE_VAL;
  ly_cache : dc_mem m = ∅;
}.

Section created.
Context (keyindex : I) (hsit : nat -> option Z) (pwb : nat -> Z * Z) (m : memory).
Context (Hly : layout keyindex hsit pwb m).
Context (disk : nat -> vs_file) (mem_w : nat -> nat -> list vs_entry_t).
Context (Hbuf : forall k i, length (mem_w k i) = MTS_VS_ENTRIES_PER_CHUNK).

Definition new_table (i : nat) : AddressTable := MkAddressTable (default 0 (hsit i)) (Z.of_nat i) 0 false [].
Definition new_oplog (i : nat) : OpLog :=
  MkOpLog false i true (new_log (pwb i).1 0 true) (new_log (pwb i).2 1 false) None 0.
Definition new_vs (i : nat) : ValueStorage :=
  ValueStorage.create (Z.of_nat i) (disk i) (mem_w i) (replicate MTS_VS_ENTRIES_PER_CHUNK zero_vs_entry).
Definition new_prism : Prism I :=
  MkPrism keyindex (new_table <$> seq 0 MTS_THREAD_NUM) (new_oplog <$> seq 0 MTS_THREAD_NUM)
    (new_vs <$> seq 0 MTS_VS_NUM) (replicate MTS_VS_NUM (replicate MTS_THREAD_NUM (ReadRing [] 0)))
    (replicate MTS_THREAD_NUM []) (replicate MTS_THREAD_NUM []) CacheThread.create m.

Lemma seq_lookup {A} (f : nat -> A) n j x : (f <$> seq 0 n) !! j = Some x -> x = f j /\ (j < n)%nat.
Proof.
  rewrite list_lookup_fmap. intros (i & Hi & ->)%fmap_Some. by apply lookup_seq in Hi as [-> ?].
Qed.

Lemma created_prism : 0 < MTS_VS_HIGH_MARK ->
  MTS.create keyindex hsit pwb disk mem_w (replicate MTS_VS_ENTRIES_PER_CHUNK zero_vs_entry) m = Ok new_prism.
Proof.
  intros Hh. unfold MTS.create. rewrite (proj2 (Z.ltb_lt _ _)) by done. cbn [assert_ mbind res_bind].
  rewrite (mapM_all _ new_oplog) by (intros i _; by rewrite oplog_created). cbn [mbind res_bind].
  rewrite (mapM_all _ new_table); [done|]. intros i Hi%elem_of_seq.
  destruct (ly_tables _ _ _ _ Hly i) as (a & Ha & _); [lia|]. unfold new_table. by rewrite Ha.
Qed.

Lemma created_tables : tables_inv ∅ (new_table <$> seq 0 MTS_THREAD_NUM) m.
Proof.
  split.
  - intros j t [-> Hj]%seq_lookup. destruct (ly_tables _ _ _ _ Hly j Hj) as (a & Ha & Hp & Hu & Hm).
    unfold new_table. rewrite Ha. pose proof wf_at_num. split; cbn; try done; try lia; [|constructor].
    destruct MTS_AT_ENTRY_NUM; [lia|done|lia].
  - intros j t j' t' [-> Hj]%seq_lookup [-> Hj']%seq_lookup Hne i i' Hi Hi'.
    destruct (ly_tables _ _ _ _ Hly j Hj) as (a & Ha & _). destruct (ly_tables _ _ _ _ Hly j' Hj') as (a' & Ha' & _).
    pose proof (ly_tables_apart _ _ _ _ Hly j j' a a' Hj Hj' Hne Ha Ha') as Hap.
    unfold new_table, entry_addr, area, sizeof_at_entry in *. rewrite Ha, Ha'. cbn. lia.
  - intros a k. by rewrite lookup_empty.
Qed.

Lemma created_logs : logs_inv ∅ (new_oplog <$> seq 0 MTS_THREAD_NUM) m.
Proof.
  assert (forall j b p, ~ in_log (new_oplog <$> seq 0 MTS_THREAD_NUM) j b p) as Hno.
  { intros j b p (L & [-> Hj]%seq_lookup & Hp). destruct (ly_logs _ _ _ _ Hly j Hj) as [A1 A2].
    destruct b; cbn in Hp; erewrite new_log_empty in Hp by done; by apply elem_of_nil in Hp. }
  split.
  - intros j L [-> Hj]%seq_lookup. destruct (ly_logs _ _ _ _ Hly j Hj) as [A1 A2]. split; [|split; [by intros []|done]].
    apply oplog_ok_intro. intros b.
    assert (log_ok (the_oplog (new_oplog j) b) m) as Hl by (destruct b; by apply new_log_ok).
    split; [done|]. split; [by destruct b|]. eapply log_tail_small; [exact Hl|by destruct b].
  - intros j L b j' L' b' [-> Hj]%seq_lookup [-> Hj']%seq_lookup Hne.
    pose proof (ly_logs_apart _ _ _ _ Hly j b j' b' Hj Hj' Hne) as Hap. unfold disjoint_logs, area in *.
    destruct b, b'; exact Hap.
  - intros j b p Hp. by apply Hno in Hp.
  - intros j b p e x Hp. by apply Hno in Hp.
Qed.

Lemma created_data : data_inv ∅ (new_oplog <$> seq 0 MTS_THREAD_NUM) (new_vs <$> seq 0 MTS_VS_NUM) m.
Proof.
  assert (K_inj ∅) as HK by (intros a b k; by rewrite lookup_empty).
  split; [done|apply created_logs| |intros a k; by rewrite lookup_empty].
  intros j v [-> Hj]%seq_lookup. split; [done|]. split; [by apply create_storage_inv|].
  unfold idle, new_vs. cbn. by apply Forall_fmap, Forall_forall.
Qed.

Lemma created_quiet : quiet new_prism.
Proof.
  split; [|by apply Forall_replicate]. intros k j r. unfold ring_of, nth_of. cbn. intros Hr. inv_res.
  rename select (replicate _ _ !! k = _) into Hk. apply lookup_replicate in Hk as [-> _].
  by apply lookup_replicate in Hr as [-> _].
Qed.

Lemma start_spec : cache_sized (CState CacheThread.create (new_vs <$> seq 0 MTS_VS_NUM) m) ->
  system_ok new_prism /\ quiet new_prism /\ forall k, kv new_prism k = None.
Proof.
  intros Hsz. split; [|split; [apply created_quiet|]].
  - exists ∅, [], []. split; [|apply quiet_ok, created_quiet]. split; cbn.
    + intros a k. by rewrite (ly_index _ _ _ _ Hly), !lookup_empty.
    + apply created_tables.
    + apply created_data.
    + apply create_inv; [apply Hly|apply (ly_words _ _ _ _ Hly)].
    + destruct Hsz as [[? ?] ? [? ?] ?]. split; cbn in *; lia.
    + done.
  - intros k. unfold kv. cbn. by rewrite (ly_index _ _ _ _ Hly).
Qed.

(** C9. The constructor, given mapped and disjoint areas for its tables and
    write buffers, a cache that fits the heap, an index that holds no key and
    zeroed memory for the buffers of garbage collection (which the code takes
    from [posix_memalign] and does not clear), succeeds; the store it builds
    satisfies the invariant, has nothing in flight and maps no key. *)
Theorem create_correct : 0 < MTS_VS_HIGH_MARK ->
  cache_sized (CState CacheThread.create (new_vs <$> seq 0 MTS_VS_NUM) m) ->
  exists w, MTS.create keyindex hsit pwb disk mem_w (replicate MTS_VS_ENTRIES_PER_CHUNK zero_vs_entry) m = Ok w /\
    system_ok w /\ quiet w /\ forall k, kv w k = None.
Proof. intros Hh Hsz. exists new_prism. split; [by apply created_prism|by apply start_spec]. Qed.
End created.
End start.
