(* ===== verification/MtsExamples.v ===== *)
(** The key-value store at a small configuration: a store is constructed and
    run, which shows that the hypotheses of the theorems on the whole store
    can hold; further runs show what happens outside them. *)

From S2P Require Import Prelude Config TaggedPtr Objects AddressTable IoUring ValueStorage.
From S2P Require Import ChunkWrite ChunkAlloc GarbageCollection GcLoop Storage StorageIdle StorageExamples.
From S2P Require Import OpLog Reclaim LRUList CacheThread CacheInvariant ReadPath CacheExamples.
From S2P Require Import MTS MtsInvariant MtsOps MtsReads MtsBackground MtsTrace MtsStart.

Local Open Scope Z_scope.

#[local] Existing Instance tiny_config.
#[local] Existing Instance tiny_config_wf.
#[local] Existing Instance plain_uring.

(** * Checking that an action is allowed *)

Section check.
Context `{Config} {I : Type} `{KeyIndex I}.

Definition enq_ready_b (L : OpLog) : bool :=
  bool_decide (has_room (the_oplog L (working1 L))) ||
  negb (reclaim_lock L) && bool_decide (log_entries (the_oplog L (negb (working1 L))) = []).

Definition at_room_b (t : AddressTable) (m : memory) : bool :=
  if whole_file_written t then bool_decide (free_at_offset_list t <> [])
  else (next_empty_at_offset t <? MTS_AT_ENTRY_NUM) &&
       match AddressTable.is_empty t m (next_empty_at_offset t) with Ok b => b | Err _ => false end.

Definition log_ready_b (w : Prism I) (tid : nat) : bool :=
  match g_perNumaOpLog w !! tid with Some L => enq_ready_b L | None => false end.
Definition table_ready_b (w : Prism I) (tid : nat) : bool :=
  match g_perNumaAddressTable w !! tid with Some t => at_room_b t (p_mem w) | None => false end.

Definition rings_present_b (w : Prism I) (i : nat) : bool :=
  forallb (fun k => match ring_of w k i with Ok _ => true | Err _ => false end)
    (seq 0 (length (g_perNumaValueStorage w))).
Definition idle_ring_b (r : read_ring) : bool := bool_decide (rr_flight r = [] /\ pending_ios r = 0).
Definition rings_idle_b (w : Prism I) (i : nat) : bool :=
  forallb (fun k => match ring_of w k i with Ok r => idle_ring_b r | Err _ => false end) (seq 0 MTS_VS_NUM).
Definition quiet_b (w : Prism I) : bool :=
  forallb (forallb idle_ring_b) (r_ring w) && forallb (fun q => bool_decide (q = [])) (g_cacheQueue w).

Definition reclaim_ok_b (w : Prism I) (tid k : nat) : bool :=
  match g_perNumaOpLog w !! tid, g_perNumaValueStorage w !! k with
  | Some L, Some v =>
      match reclaim_thread L with
      | Some id =>
          let n := live_count (p_mem w) (log_entries (the_oplog L (id =? 0))) in
          bool_decide ((tid < length (w_chunk v))%nat /\
            (n <= length (free_chunk_list v) * MTS_VS_ENTRIES_PER_CHUNK)%nat /\
            (0 < n)%nat /\ (n mod MTS_VS_ENTRIES_PER_CHUNK = 0)%nat)
      | None => false
      end
  | _, _ => false
  end.

Definition allowed_b (w : Prism I) (act : action) : bool :=
  match act with
  | Insert tid key _ =>
      bool_decide (ki_map (g_perNumaKeyIndex w) !! key = None) && log_ready_b w tid && table_ready_b w tid
  | Update tid _ _ => log_ready_b w tid
  | Lookup _ => rings_present_b w 0
  | Scan tid _ _ => bool_decide (length (g_perNumaValueStorage w) = MTS_VS_NUM) && rings_idle_b w tid
  | MtsTrace.Reclaim tid k => reclaim_ok_b w tid k && quiet_b w
  | Complete k => bool_decide (k < length (g_perNumaValueStorage w))%nat && rings_present_b w 0
  | CompleteScan i => bool_decide (length (g_perNumaValueStorage w) = MTS_VS_NUM) && rings_present_b w i
  | Cache j => bool_decide (is_Some (g_cacheQueue w !! j))
  end.

Lemma log_ready_sound w tid : log_ready_b w tid = true -> log_ready w tid.
Proof.
  unfold log_ready_b. destruct (g_perNumaOpLog w !! tid) as [L|] eqn:HL; [|done]. intros Hr.
  exists L. split; [done|]. apply orb_true_iff in Hr as [Hr|[Hl Hr]%andb_true_iff]; [left|right].
  - by apply bool_decide_eq_true in Hr.
  - apply bool_decide_eq_true in Hr. by apply negb_true_iff in Hl.
Qed.

Lemma table_ready_sound w tid : table_ready_b w tid = true -> table_ready w tid.
Proof.
  unfold table_ready_b. destruct (g_perNumaAddressTable w !! tid) as [t|] eqn:Ht; [|done]. intros Hr.
  exists t. split; [done|]. unfold at_room_b in Hr. unfold at_room. destruct (whole_file_written t).
  - by apply bool_decide_eq_true in Hr.
  - apply andb_true_iff in Hr as [Hn%Z.ltb_lt He]. exists (next_empty_at_offset t). split; [lia|].
    by destruct (AddressTable.is_empty t (p_mem w) (next_empty_at_offset t)) as [[]|].
Qed.

Lemma rings_present_sound w i : rings_present_b w i = true -> rings_present w i.
Proof.
  intros Hb k Hk. apply (forallb_elem _ _ k) in Hb; [|apply elem_of_seq; lia].
  cbv beta in Hb. destruct (ring_of w k i) as [r|e]; [by exists r|done].
Qed.

Lemma idle_ring_sound r : idle_ring_b r = true -> r = ReadRing [] 0.
Proof. intros [R1 R2]%bool_decide_eq_true. destruct r. cbn in *. by subst. Qed.

Lemma rings_idle_sound w i : rings_idle_b w i = true -> rings_idle w i.
Proof.
  intros Hb k Hk. apply (forallb_elem _ _ k) in Hb; [|apply elem_of_seq; lia].
  cbv beta in Hb. destruct (ring_of w k i) as [r|e]; [|done]. by rewrite (idle_ring_sound r).
Qed.

Lemma quiet_sound w : quiet_b w = true -> quiet w.
Proof.
  intros [R1 R2]%andb_true_iff. split.
  - intros k j r. unfold ring_of, nth_of. destruct (r_ring w !! k) as [rs|] eqn:Hk; [|done]. cbn.
    destruct (rs !! j) as [r'|] eqn:Hj; [|done]. cbn. intros [= <-]. apply idle_ring_sound.
    eapply (forallb_elem _ rs); [eapply (forallb_elem _ _ _ R1)|]; by eapply list_elem_of_lookup_2.
  - apply Forall_forall. intros q Hq. by apply (forallb_elem _ _ _ R2), bool_decide_eq_true in Hq.
Qed.

Lemma reclaim_ok_sound w tid k : reclaim_ok_b w tid k = true -> reclaim_ok w tid k.
Proof.
  unfold reclaim_ok_b. destruct (g_perNumaOpLog w !! tid) as [L|] eqn:HL; [|done].
  destruct (g_perNumaValueStorage w !! k) as [v|] eqn:Hv; [|done].
  destruct (reclaim_thread L) as [id|] eqn:Hid; [|done].
  intros (R1 & R2 & R3 & R4)%bool_decide_eq_true. by exists L, v, id.
Qed.

Lemma allowed_sound w act : allowed_b w act = true -> allowed w act.
Proof.
  destruct act; cbn [allowed_b allowed]; rewrite ?andb_true_iff, ?bool_decide_eq_true; try done;
    intuition auto using log_ready_sound, table_ready_sound, rings_present_sound, rings_idle_sound,
      quiet_sound, reclaim_ok_sound.
Qed.
End check.

(** Runs a list of actions as long as they are allowed and do not wait. *)
Fixpoint run_b (w : Prism (gmap Z Z)) (acts : list action) : option (Prism (gmap Z Z)) :=
  match acts with
  | [] => Some w
  | act :: acts' =>
      if allowed_b w act then
        match exec w act with Ok (Some w') => run_b w' acts' | _ => None end
      else None
  end.

Lemma run_sound acts : forall w w', run_b w acts = Some w' -> run w acts w'.
Proof.
  induction acts as [|act acts IH]; intros w w' E; cbn in E; [injection E as <-; constructor|].
  destruct (allowed_b w act) eqn:Ha; [|done]. destruct (exec w act) as [[w1|]|] eqn:Ee; try done.
  eapply run_cons; [by apply allowed_sound|done|by apply IH].
Qed.

(** * A store *)

(** Tables of four entries at 1024 and 2048, write buffers of four entries
    each from 4096 on. *)
Definition tables_at (i : nat) : option Z := Some (1024 + 1024 * Z.of_nat i).
Definition buffers_at (i : nat) : Z * Z := (4096 + 512 * Z.of_nat i, 4352 + 512 * Z.of_nat i).
Definition mem0 : memory := Memory
  (list_to_map ((fun i => (1024 + 16 * Z.of_nat i, AtEntry (VsIdx 0 0) 0)) <$> seq 0 128))
  (list_to_map ((fun i => (4096 + 64 * Z.of_nat i, OpEntry 0 0 0 0)) <$> seq 0 16)) ∅.
Definition disk0 (_ : nat) : vs_file := ∅.
Definition buf0 (_ _ : nat) : list vs_entry_t := replicate 4 zero_vs_entry.

Definition in_range_b (n : nat) (p : nat -> bool) : bool := forallb p (seq 0 n).
Lemma in_range_sound n p i : in_range_b n p = true -> (i < n)%nat -> p i = true.
Proof. intros Hb Hi. eapply forallb_elem; [done|]. apply elem_of_seq. lia. Qed.

Lemma at_mapped a j : a = 1024 \/ a = 2048 -> 0 <= j < 4 -> is_Some (at_mem mem0 !! (a + j * 16)).
Proof.
  intros Ha Hj. assert (j = 0 \/ j = 1 \/ j = 2 \/ j = 3) as Hj' by lia.
  destruct Ha as [-> | ->], Hj' as [-> | [-> | [-> | ->]]]; eexists; by vm_compute.
Qed.

Lemma op_mapped i : (i < 16)%nat -> is_Some (op_mem mem0 !! (4096 + 64 * Z.of_nat i)).
Proof.
  intros Hi. apply (in_range_sound 16 (fun i => bool_decide (is_Some (op_mem mem0 !! (4096 + 64 * Z.of_nat i))))) in Hi; [|by vm_compute].
  by apply bool_decide_eq_true in Hi.
Qed.

Lemma buffer_area j : (j < 4)%nat -> log_area mem0 (4096 + 256 * Z.of_nat j).
Proof.
  intros Hj. change (log_area mem0 (4096 + 256 * Z.of_nat j)) with
    (0 < 4096 + 256 * Z.of_nat j /\ 4096 + 256 * Z.of_nat j + 256 < 2 ^ 47 /\
     forall i, 0 <= i < 256 -> (64 | i) -> is_Some (op_mem mem0 !! (4096 + 256 * Z.of_nat j + i))).
  split; [lia|]. split; [lia|]. intros i Hi [c ->].
  replace (4096 + 256 * Z.of_nat j + c * 64) with (4096 + 64 * Z.of_nat (4 * j + Z.to_nat c)) by lia.
  apply op_mapped. lia.
Qed.

Lemma words0 a x : at_mem mem0 !! a = Some x -> x = AtEntry (VsIdx 0 0) 0.
Proof.
  intros Hx. apply elem_of_list_to_map_2 in Hx. apply list_elem_of_fmap in Hx as (i & [= -> ->] & _). done.
Qed.

Lemma layout0 : layout (∅ : gmap Z Z) tables_at buffers_at mem0.
Proof.
  split.
  - done.
  - intros i Hi. change (i < 2)%nat in Hi. exists (1024 + 1024 * Z.of_nat i). split; [done|].
    change (MTS_AT_ENTRY_NUM) with 4. unfold sizeof_at_entry. split; [lia|]. split; [lia|].
    intros j Hj. apply at_mapped; lia.
  - intros i i' a a' Hi Hi' Hne [= <-] [= <-]. change MTS_AT_ENTRY_NUM with 4. unfold area, sizeof_at_entry. lia.
  - intros i Hi. change (i < 2)%nat in Hi. unfold buffers_at. cbn [fst snd].
    replace (4096 + 512 * Z.of_nat i) with (4096 + 256 * Z.of_nat (2 * i)) by lia.
    replace (4352 + 512 * Z.of_nat i) with (4096 + 256 * Z.of_nat (2 * i + 1)) by lia.
    split; apply buffer_area; lia.
  - intros i b i' b' Hi Hi' Hne. change MTS_OPLOG_SIZE with 256. change (i < 2)%nat in Hi. change (i' < 2)%nat in Hi'.
    assert (i = i' -> b <> b') as Hb by congruence. unfold area, buffers_at. cbn [fst snd].
    destruct b, b'; try lia; assert (i <> i') by (intros E; by apply Hb); lia.
  - intros a x ->%words0. cbn. split; [|done]. exists 0, 0. unfold user_addr. cbn. lia.
  - done.
Qed.

Lemma sized0 : cache_sized (CState CacheThread.create (new_vs disk0 buf0 <$> seq 0 MTS_VS_NUM) mem0).
Proof. split; vm_compute; done. Qed.

Definition prism0 : Prism (gmap Z Z) := new_prism ∅ tables_at buffers_at mem0 disk0 buf0.

Lemma create_correct_witness :
  exists w, MTS.create (∅ : gmap Z Z) tables_at buffers_at disk0 buf0 (replicate 4 zero_vs_entry) mem0 = Ok w /\
    system_ok w /\ quiet w /\ forall k, kv w k = None.
Proof.
  apply (create_correct ∅ tables_at buffers_at mem0 layout0 disk0 buf0 (fun _ _ => eq_refl)); [by vm_compute|exact sized0].
Defined.

Lemma prism0_ok : system_ok prism0.
Proof. apply start_spec; [exact layout0|done|exact sized0]. Qed.

(** Thread 0 fills its first buffer and goes on in the second; the first is
    reclaimed. *)
Definition fill : list action :=
  [Insert 0 10 100; Insert 0 11 110; Insert 0 12 120; Insert 0 13 130;
   Insert 1 20 200; Update 0 20 201; MtsTrace.Reclaim 0 0].
(** A stored value is read, cached and found in the cache, then updated; the
    rest is scanned. *)
Definition use : list action :=
  [Lookup 11; Complete 0; Cache 0; Lookup 11; Update 0 11 111; Lookup 11; Scan 1 10 5; CompleteScan 1; Cache 1].

Definition after_run (acts : list action) : Prism (gmap Z Z) := default prism0 (run_b prism0 acts).

Lemma run_prism_ok acts w : run_b prism0 acts = Some w -> system_ok w.
Proof. intros E%run_sound. apply (run_spec prism0 acts w prism0_ok E). Qed.

Lemma after_run_ok acts : system_ok (after_run acts).
Proof.
  unfold after_run. destruct (run_b prism0 acts) as [w|] eqn:E; [by eapply run_prism_ok|exact prism0_ok].
Qed.

Lemma after_prism_ok acts : prism_ok (after_run acts).
Proof. destruct (after_run_ok acts) as (K & la & li & Hm & _). by exists K, la, li. Qed.

Lemma run_correct_witness :
  run prism0 (fill ++ use) (after_run (fill ++ use)) /\ system_ok (after_run (fill ++ use)) /\
  kv (after_run (fill ++ use)) 11 = Some 111 /\ kv (after_run (fill ++ use)) 12 = Some 120.
Proof.
  assert (run prism0 (fill ++ use) (after_run (fill ++ use))) as Hr by (apply run_sound; by vm_compute).
  destruct (run_correct prism0 (fill ++ use) _ prism0_ok Hr) as [Hok Hkv].
  split; [exact Hr|]. split; [exact Hok|]. split; [rewrite (Hkv 11)|rewrite (Hkv 12)]; by vm_compute.
Defined.

(** A step on the filled store. *)
Lemma step_correct_witness :
  exists o, exec (after_run fill) (Update 1 12 121) = Ok o /\
    (o = None -> exists key, Update 1 12 121 = Lookup key) /\
    forall w', o = Some w' -> system_ok w' /\ forall k, kv w' k = spec (Update 1 12 121) (kv (after_run fill)) k.
Proof.
  apply (step_correct (after_run fill) (Update 1 12 121)); [apply after_run_ok|].
  apply allowed_sound. by vm_compute.
Defined.

Lemma insert_refines_witness :
  exists w', MTS.insert (after_run fill) 1 21 210 = Ok (Some (true, w')) /\ prism_ok w' /\
    maps_to (after_run fill) w' 21 210.
Proof.
  apply (insert_refines (after_run fill) 1 21 210); [apply after_prism_ok|by vm_compute| |].
  - apply log_ready_sound. by vm_compute.
  - apply table_ready_sound. by vm_compute.
Defined.

(** Key 12 has been moved to the storage. *)
Lemma update_refines_witness :
  exists w', MTS.update (after_run fill) 0 12 121 = Ok (Some (true, w')) /\ prism_ok w' /\
    maps_to (after_run fill) w' 12 121 /\ g_perNumaKeyIndex w' = g_perNumaKeyIndex (after_run fill).
Proof.
  pose proof (update_refines (after_run fill) 0 12 121 (after_prism_ok fill)) as R.
  replace (ki_map (g_perNumaKeyIndex (after_run fill)) !! 12) with (Some 1056) in R by (by vm_compute).
  apply R. apply log_ready_sound. by vm_compute.
Defined.

(** Key 12 is on disk, key 20 in a write buffer, key 99 absent. *)
Lemma lookup_correct_witness :
  MTS.lookup (after_run fill) 99 = Ok (Some (0, after_run fill)) /\
  MTS.lookup (after_run fill) 20 = Ok (Some (201, after_run fill)) /\
  exists j v ring', MTS.lookup (after_run fill) 12 = Ok (Some (0, set_ring j 0 ring' (after_run fill))) /\
    complete_pending_ios v ring' = Ok (Some [CqEntry 1056 12 120 CT_LOOKUP], ReadRing [] 0).
Proof.
  pose proof (lookup_correct (after_run fill) 99 (after_prism_ok fill)) as R1.
  pose proof (lookup_correct (after_run fill) 20 (after_prism_ok fill)) as R2.
  pose proof (lookup_correct (after_run fill) 12 (after_prism_ok fill)) as R3.
  replace (ki_map (g_perNumaKeyIndex (after_run fill)) !! 99) with (@None Z) in R1 by (by vm_compute).
  replace (ki_map (g_perNumaKeyIndex (after_run fill)) !! 20) with (Some 2048) in R2 by (by vm_compute).
  replace (ki_map (g_perNumaKeyIndex (after_run fill)) !! 12) with (Some 1056) in R3 by (by vm_compute).
  split; [apply R1|]. split.
  - destruct R2 as (x & val & Hx & Hkv & R2).
    assert (val = 201) as -> by (apply (inj Some); rewrite <- Hkv; by vm_compute).
    assert (on_disk x = false) as Hd by (apply (inj Some); rewrite <- (f_equal (option_map on_disk) Hx : _ = Some _); by vm_compute).
    by rewrite Hd in R2.
  - destruct R3 as (x & val & Hx & Hkv & R3).
    assert (val = 120) as -> by (apply (inj Some); rewrite <- Hkv; by vm_compute).
    assert (on_disk x = true) as Hd by (apply (inj Some); rewrite <- (f_equal (option_map on_disk) Hx : _ = Some _); by vm_compute).
    rewrite Hd in R3. destruct R3 as (j & v & Hv & R3).
    assert (j = 0%nat) as -> by (destruct j; [done|]; exfalso; revert Hv; by vm_compute).
    destruct (R3 (ReadRing [] 0)) as [_ R4]; [by vm_compute|]. destruct (R4 eq_refl) as (ring' & E & Hc).
    exists 0%nat, v, ring'. split; [exact E|exact Hc].
Defined.

Lemma scan_correct_witness :
  exists vals rr, MTS.scan (after_run fill) 1 11 4 = Ok (Some (4, vals, with_rings rr (after_run fill))) /\
    Forall2 (fun k v => kv (after_run fill) k = Some v) [20] vals /\
    ring_reads (with_rings rr (after_run fill)) 1 0 [VsEntry 1040 11 110; VsEntry 1056 12 120; VsEntry 1072 13 130].
Proof.
  destruct (scan_correct (after_run fill) 1 11 4 (after_prism_ok fill)) as (vals & rr & E & _ & Hv & Hr & _);
    [by vm_compute|apply rings_idle_sound; by vm_compute|].
  exists vals, rr. split; [exact E|]. split.
  - replace [20] with (now_keys (after_run fill) (take 4 (keys_from (ki_map (g_perNumaKeyIndex (after_run fill))) 11)))
      by (by vm_compute). exact Hv.
  - assert (0 < MTS_VS_NUM)%nat as Hn by (vm_compute; lia). specialize (Hr 0%nat Hn).
    replace [VsEntry 1040 11 110; VsEntry 1056 12 120; VsEntry 1072 13 130] with
      (key_request (after_run fill) <$> keys_in (after_run fill) 0 (take 4 (keys_from (ki_map (g_perNumaKeyIndex (after_run fill))) 11)))
      by (by vm_compute).
    apply Hr. by vm_compute.
Defined.

Lemma reclaim_step_refines_witness :
  exists w', reclaim_step (after_run (take 6 fill)) 0 0 = Ok w' /\ prism_ok w' /\
    (forall key, kv w' key = kv (after_run (take 6 fill)) key) /\
    g_perNumaKeyIndex w' = g_perNumaKeyIndex (after_run (take 6 fill)).
Proof.
  apply (reclaim_step_refines (after_run (take 6 fill)) 0 0); [apply after_prism_ok|].
  apply reclaim_ok_sound. by vm_compute.
Defined.

(** * Outside the hypotheses *)

(** Runs a list of actions, allowed or not. *)
Fixpoint exec_all (w : Prism (gmap Z Z)) (acts : list action) : res (option (Prism (gmap Z Z))) :=
  match acts with
  | [] => Ok (Some w)
  | act :: acts' => o ← exec w act; match o with Some w' => exec_all w' acts' | None => Ok None end
  end.

(** The value of key 11 has been read for the cache; before the cache thread
    takes the request, the key is updated and the write buffer that holds the
    new value is reclaimed. *)
Definition stale : list action :=
  fill ++ [Lookup 11; Complete 0; Update 1 11 111; Update 1 12 121; Update 1 13 131; Update 1 10 101;
           MtsTrace.Reclaim 1 0; Cache 0].

(** The cache thread skips a request whose key has been updated only while
    the new value is still in a write buffer.  When it has been reclaimed to
    a storage in between, the old value is cached and lookups return it. *)
Theorem stale_read_cached : exists w, exec_all prism0 stale = Ok (Some w) /\
  spec_run stale (kv prism0) 11 = Some 111 /\ MTS.lookup w 11 = Ok (Some (110, w)).
Proof. eexists. split; [by vm_compute|]. split; by vm_compute. Qed.

(** The store after the program has been restarted: the index, the address
    tables and the storage files persist, the cache is gone. *)
Definition restart (w : Prism (gmap Z Z)) : res (Prism (gmap Z Z)) :=
  MTS.create (g_perNumaKeyIndex w) tables_at buffers_at
    (fun i => default ∅ (vs_disk <$> g_perNumaValueStorage w !! i)) buf0 (replicate 4 zero_vs_entry)
    (Memory (at_mem (p_mem w)) (op_mem (p_mem w)) ∅).

(** Restarts, recovers [key], inserts [key2] on thread 0, looks [key] up. *)
Definition recover_then_insert (w : Prism (gmap Z Z)) (key key2 val2 : Z) : res (option Z) :=
  w0 ← restart w;
  '(_, w1) ← MTS.recover w0 key;
  r ← MTS.insert w1 0 key2 val2;
  match r with
  | Some (_, w2) => o ← MTS.lookup w2 key; Ok (option_map fst o)
  | None => Ok None
  end.

(** Recovering a key whose value was cached clears [val_addr], and with it
    the tag that marks the address-table entry as used: the next insertion on
    that table takes the entry, and the recovered key reads as the new key's
    value. *)
Theorem recover_frees_cached_entry :
  let w := after_run (fill ++ [Lookup 10; Complete 0; Cache 0]) in
  kv w 10 = Some 100 /\ recover_then_insert w 10 30 300 = Ok (Some 300).
Proof. split; by vm_compute. Qed.

Lemma remove_absent_or_cached_witness :
  MTS.remove (after_run fill) 0 99 = Err NullDeref /\
  MTS.remove (after_run (fill ++ [Lookup 11; Complete 0; Cache 0])) 0 11 = Err Uninitialised.
Proof.
  split.
  - pose proof (remove_absent_or_cached (after_run fill) 0 99 (after_prism_ok fill)) as R.
    by replace (ki_map (g_perNumaKeyIndex (after_run fill)) !! 99) with (@None Z) in R by (by vm_compute).
  - set (w := after_run (fill ++ [Lookup 11; Complete 0; Cache 0])).
    pose proof (remove_absent_or_cached w 0 11 (after_prism_ok _)) as R.
    replace (ki_map (g_perNumaKeyIndex w) !! 11) with (Some 1040) in R by (by vm_compute).
    apply (R (default (AtEntry (VsIdx 0 0) 0) (at_mem (p_mem w) !! 1040))); by vm_compute.
Defined.
