(* ===== verification/MtsThreads.v ===== *)
(** The threads of the key-value store ([registerThread], [unregisterThread]
    of [src/PRISM/src/MTS.cpp], [MTSThread.h]).

    A thread gets its id from a counter of the threads there are.  The id
    picks the write buffer and the address table that the thread uses without
    a lock, so two threads must not have the same.  The spin lock that guards
    the set of threads ([SpinLock.h]) comes first. *)

From S2P Require Import Prelude Config.

Local Open Scope Z_scope.

(** * The spin lock ([SpinLock.h])

    The word, and threads that lock, try to lock and unlock it one atomic
    access at a time. *)

(** [lock_.exchange(true)]: the old value. *)
Definition exchange (word : bool) : bool * bool := (word, true).

(** Where a thread is: outside; before the exchange of [lock]; before the load
    of its waiting loop; before the load and the exchange of [try_lock]; after
    a [try_lock] that failed; and between [lock] and [unlock]. *)
Inductive spin_pc := SpOut | SpExchange | SpWait | SpTryLoad | SpTryExchange | SpRefused | SpHolds.

#[export] Instance spin_pc_eq : EqDecision spin_pc.
Proof. solve_decision. Defined.

(** What a thread outside, or with the lock, calls next. *)
Inductive spin_call := CallLock | CallTryLock | CallUnlock | CallNone.

Definition spin_next (call : spin_call) (word : bool) (pc : spin_pc) : bool * spin_pc :=
  match pc with
  | SpOut | SpRefused =>
      match call with
      | CallLock => (word, SpExchange)
      | CallTryLock => (word, SpTryLoad)
      | CallUnlock | CallNone => (word, pc)
      end
  | SpExchange => let '(old, word') := exchange word in (word', if negb old then SpHolds else SpWait)
  | SpWait => (word, if word then SpWait else SpExchange)
  | SpTryLoad => (word, if negb word then SpTryExchange else SpRefused)
  | SpTryExchange => let '(old, word') := exchange word in (word', if negb old then SpHolds else SpRefused)
  | SpHolds => match call with CallUnlock => (false, SpOut) | _ => (word, SpHolds) end
  end.

(** The word [lock_], and the threads. *)
Record spin := MkSpin { lock_ : bool; sp_threads : gmap nat spin_pc }.

Definition spin_step (t : nat) (call : spin_call) (s : spin) : spin :=
  let '(word, pc) := spin_next call (lock_ s) (default SpOut (sp_threads s !! t)) in
  MkSpin word (<[t := pc]> (sp_threads s)).

Definition spin_run (es : list (nat * spin_call)) (s : spin) : spin := foldl (fun s e => spin_step e.1 e.2 s) s es.

Definition new_spin : spin := MkSpin false ∅.

Definition holds (s : spin) (t : nat) : Prop := sp_threads s !! t = Some SpHolds.

(** The word is set exactly while one thread has the lock. *)
Definition spin_ok (s : spin) : Prop :=
  if lock_ s then exists t, holds s t /\ forall u, holds s u -> u = t else forall u, ~ holds s u.

Lemma spin_step_ok t call s : spin_ok s -> spin_ok (spin_step t call s).
Proof.
  unfold spin_ok, spin_step, holds. destruct s as [w ths]. cbn. intros HS.
  destruct (decide (ths !! t = Some SpHolds)) as [Ht|Ht].
  - rewrite Ht. cbn. destruct w; [|by destruct (HS t)]. destruct HS as (t0 & H0 & Hu). pose proof (Hu t Ht) as <-. destruct call; cbn.
    1,2,4: exists t; split; [apply lookup_insert_eq|]; intros u; (destruct (decide (u = t)) as [->|Hne]; [done|]); rewrite lookup_insert_ne by done; apply Hu.
    intros u. destruct (decide (u = t)) as [->|Hne]; [by rewrite lookup_insert_eq|]. rewrite lookup_insert_ne by done. intros Hh. by specialize (Hu u Hh).
  - assert (forall w' pc, pc <> SpHolds -> w' = w -> if w' then exists t0, <[t:=pc]> ths !! t0 = Some SpHolds /\ forall u, <[t:=pc]> ths !! u = Some SpHolds -> u = t0
      else forall u, ~ <[t:=pc]> ths !! u = Some SpHolds) as Hsame.
    { intros w' pc Hpc ->. assert (forall u, <[t:=pc]> ths !! u = Some SpHolds <-> ths !! u = Some SpHolds) as Heq.
      { intros u. destruct (decide (u = t)) as [->|Hne]; [rewrite lookup_insert_eq; split; intros; congruence|by rewrite lookup_insert_ne]. }
      destruct w; [|intros u Hu%Heq; by apply (HS u)]. destruct HS as (t0 & H0 & Hu). exists t0. split; [by apply Heq|]. intros u Hu'%Heq. auto. }
    assert (w = false -> exists t0, <[t:=SpHolds]> ths !! t0 = Some SpHolds /\ forall u, <[t:=SpHolds]> ths !! u = Some SpHolds -> u = t0) as Htake.
    { intros ->. exists t. split; [apply lookup_insert_eq|]. intros u. destruct (decide (u = t)) as [->|Hne]; [done|]. rewrite lookup_insert_ne by done. intros Hu. by destruct (HS u). }
    destruct (ths !! t) as [[]|] eqn:E; cbn [default spin_next]; try (destruct call); try done; try (by apply (Hsame w)).
    all: destruct w eqn:Ew; cbn [negb exchange]; try (by apply Htake); by apply Hsame.
Qed.

Lemma spin_run_ok es : forall s, spin_ok s -> spin_ok (spin_run es s).
Proof. induction es as [|e es IH]; intros s HS; [done|]. cbn. apply IH. by apply spin_step_ok. Qed.

Lemma new_spin_ok : spin_ok new_spin.
Proof. intros u Hu. unfold holds in Hu. cbn in Hu. by rewrite lookup_empty in Hu. Qed.

(** Whatever the threads call and in whatever order their accesses go, at most
    one thread is between [lock] (or a [try_lock] that returned true) and
    [unlock]; and while none is, a thread in [lock] gets it with its next one
    or two accesses. *)
Theorem spin_lock_exclusive es : let s := spin_run es new_spin in
  (forall t u, holds s t -> holds s u -> t = u) /\
  (forall t, (forall u, ~ holds s u) -> sp_threads s !! t = Some SpExchange -> holds (spin_step t CallNone s) t) /\
  (forall t, (forall u, ~ holds s u) -> sp_threads s !! t = Some SpWait -> holds (spin_step t CallNone (spin_step t CallNone s)) t).
Proof.
  intros s. pose proof (spin_run_ok es _ new_spin_ok) as HS. fold s in HS. unfold spin_ok in HS.
  assert ((forall u, ~ holds s u) -> lock_ s = false) as Hfree by (intros Hn; destruct (lock_ s); [destruct HS as (t & Ht & _); by destruct (Hn t)|done]).
  split_and!.
  - intros t u Ht Hu. destruct (lock_ s); [|by destruct (HS t)]. destruct HS as (t0 & _ & Hall). by rewrite (Hall t Ht), (Hall u Hu).
  - intros t Hn Ht. unfold spin_step, holds. rewrite Ht. cbn. rewrite (Hfree Hn). cbn. apply lookup_insert_eq.
  - intros t Hn Ht. unfold spin_step, holds. rewrite Ht. cbn. rewrite lookup_insert_eq. rewrite (Hfree Hn). cbn. apply lookup_insert_eq.
Qed.

(** * The registry of threads *)

(** [MTSThread]; [valuestorageId] and the clock are not used. *)
Record MTSThread := MkMTSThread { mt_threadId : Z; mt_phase : Z; mt_finish : bool }.

(** A thread that has got an id, and one that has its object (a key of
    [g_MTSThreadSet]) in [curMTSThread]. *)
Inductive registration := Begun (threadId : Z) | Cur (mt : nat).

Record mts_threads := MkMtsThreads {
  numThreads : Z;
  g_phase : list Z;
  g_MTSThreadSet : gmap nat MTSThread;
  mt_of : gmap nat registration;      (** per thread *)
  batched_cnt : Z;
  batched_io : Z;
}.

Section threads.
Context `{Config}.

Definition new_threads : mts_threads := MkMtsThreads 0 (replicate MTS_THREAD_NUM 3) ∅ ∅ 0 0.

(** * Operations *)

(** [int threadId = numThreads.fetch_add(1)], of a 32-bit counter. *)
Definition register_begin (t : nat) (s : mts_threads) : mts_threads :=
  MkMtsThreads (to_u32 (numThreads s + 1)) (g_phase s) (g_MTSThreadSet s) (<[t := Begun (to_i32 (numThreads s))]> (mt_of s)) (batched_cnt s) (batched_io s).

Definition index_of (threadId : Z) : res nat :=
  if 0 <=? threadId then Ok (Z.to_nat threadId) else Err OutOfRange.

(** The rest, under the lock. *)
Definition register_end (t : nat) (s : mts_threads) : res mts_threads :=
  match mt_of s !! t with
  | Some (Begun threadId) =>
      i ← index_of threadId;
      phase ← of_option OutOfRange (g_phase s !! i);
      let mt := fresh (dom (g_MTSThreadSet s)) in
      Ok (MkMtsThreads (numThreads s) (g_phase s) (<[mt := MkMTSThread threadId phase false]> (g_MTSThreadSet s)) (<[t := Cur mt]> (mt_of s)) (batched_cnt s) (batched_io s))
  | _ => Ok s
  end.

(** [curMTSThread] stays set. *)
Definition unregisterThread (t : nat) (s : mts_threads) : res mts_threads :=
  match mt_of s !! t with
  | Some (Cur mt) =>
      th ← of_option BadAddress (g_MTSThreadSet s !! mt);
      i ← index_of (mt_threadId th);
      if bool_decide (i < length (g_phase s))%nat then
        let phase := mt_phase th - 1 in
        Ok (MkMtsThreads (to_u32 (numThreads s - 1)) (<[i := phase]> (g_phase s)) (<[mt := MkMTSThread (mt_threadId th) phase true]> (g_MTSThreadSet s)) (mt_of s)
              (if phase =? 0 then batched_cnt s else 0) (if phase =? 0 then batched_io s else 0))
      else Err OutOfRange
  | _ => Ok s
  end.

(** The loop of [~MTSImpl] over the threads, once [g_endMTS] is set: it waits
    for the thread to finish and erases it from the set, and the next
    increment of the erased iterator is undefined. *)
Definition destroy_wait (s : mts_threads) : res unit :=
  match map_to_list (g_MTSThreadSet s) with
  | [] => Ok tt
  | (_, th) :: _ => if mt_finish th then Err Undefined else Err NoReturn
  end.

Inductive th_event := ThBegin (t : nat) | ThEnd (t : nat) | ThLeave (t : nat).

Definition th_step (e : th_event) (s : mts_threads) : res mts_threads :=
  match e with
  | ThBegin t => Ok (register_begin t s)
  | ThEnd t => register_end t s
  | ThLeave t => unregisterThread t s
  end.

Fixpoint th_run (es : list th_event) (s : mts_threads) : res mts_threads :=
  match es with
  | [] => Ok s
  | e :: es' => s' ← th_step e s; th_run es' s'
  end.

(** * Ids *)

(** The id of a thread that has not left. *)
Definition reg_id (set : gmap nat MTSThread) (r : registration) : option Z :=
  match r with
  | Begun threadId => Some threadId
  | Cur mt => th ← set !! mt; if mt_finish th then None else Some (mt_threadId th)
  end.
Definition ids (s : mts_threads) : gmap nat Z := omap (reg_id (g_MTSThreadSet s)) (mt_of s).

(** Threads come and leave in rounds: a thread registers only while none has
    left since the counter was 0 ([joining]), and leaves once. *)
Definition in_turn (joining : bool) (e : th_event) (s : mts_threads) : bool :=
  match e with
  | ThBegin t => bool_decide (ids s !! t = None) && (joining || (numThreads s =? 0)) && (numThreads s <? Z.of_nat MTS_THREAD_NUM)
  | ThEnd _ => true
  | ThLeave t => match mt_of s !! t with Some (Cur _) => bool_decide (is_Some (ids s !! t)) | _ => false end
  end.

Definition still_joining (joining : bool) (e : th_event) : bool :=
  match e with ThBegin _ => true | ThEnd _ => joining | ThLeave _ => false end.

Fixpoint rounds (joining : bool) (es : list th_event) (s : mts_threads) : Prop :=
  match es with
  | [] => True
  | e :: es' => in_turn joining e s = true /\ match th_step e s with Ok s' => rounds (still_joining joining e) es' s' | Err _ => True end
  end.

Record threads_inv (joining : bool) (s : mts_threads) : Prop := {
  ti_count : numThreads s = Z.of_nat (size (ids s));
  ti_distinct : forall t u i, ids s !! t = Some i -> ids s !! u = Some i -> t = u;
  ti_range : forall t i, ids s !! t = Some i -> 0 <= i < Z.of_nat MTS_THREAD_NUM /\ (joining = true -> i < numThreads s);
  ti_own : forall t u mt, mt_of s !! t = Some (Cur mt) -> mt_of s !! u = Some (Cur mt) -> t = u;
  ti_object : forall t mt, mt_of s !! t = Some (Cur mt) -> is_Some (g_MTSThreadSet s !! mt);
  ti_phase : length (g_phase s) = MTS_THREAD_NUM;
  ti_few : numThreads s <= Z.of_nat MTS_THREAD_NUM;
}.

Lemma lookup_ids s t : ids s !! t = mt_of s !! t ≫= reg_id (g_MTSThreadSet s).
Proof. apply lookup_omap. Qed.

Context (Hmax : Z.of_nat MTS_THREAD_NUM < 2 ^ 31).

Lemma th_begin_inv joining t s : threads_inv joining s -> in_turn joining (ThBegin t) s = true -> threads_inv true (register_begin t s).
Proof.
  intros [A B C D E F G] Hturn. cbn in Hturn. apply andb_true_iff in Hturn as [[Hnew%bool_decide_eq_true Hj]%andb_true_iff Hlt]. apply Z.ltb_lt in Hlt.
  assert (forall u i, ids s !! u = Some i -> i < numThreads s) as Hbelow.
  { intros u i Hu. destruct joining; [by apply (C u i)|]. apply Z.eqb_eq in Hj. rewrite A in Hj. assert (ids s = ∅) as Hemp by (apply map_size_empty_inv; lia). by rewrite Hemp, lookup_empty in Hu. }
  assert (0 <= numThreads s) by lia. assert (ids (register_begin t s) = <[t := numThreads s]> (ids s)) as Eids.
  { unfold ids, register_begin. cbn. erewrite omap_insert_Some; [done|]. cbn. f_equal. apply to_s_id; lia. }
  split; rewrite ?Eids; cbn; rewrite ?(to_u_id 32 (numThreads s + 1)) by lia.
  - rewrite map_size_insert_None by done. lia.
  - intros u v i. destruct (decide (u = t)) as [->|Hu], (decide (v = t)) as [->|Hv]; rewrite ?lookup_insert_eq, ?lookup_insert_ne by done; [done| | |apply B].
    + intros [= <-] Hv'. specialize (Hbelow v _ Hv'). lia.
    + intros Hu' [= <-]. specialize (Hbelow u _ Hu'). lia.
  - intros u i. destruct (decide (u = t)) as [->|Hu]; [rewrite lookup_insert_eq; intros [= <-]; lia|rewrite lookup_insert_ne by done]. intros Hi. destruct (C u i Hi). specialize (Hbelow u i Hi). lia.
  - intros u v mt. destruct (decide (u = t)) as [->|Hu]; [by rewrite lookup_insert_eq|]. destruct (decide (v = t)) as [->|Hv]; [rewrite (lookup_insert_eq _ t); done|]. rewrite !lookup_insert_ne by done. apply D.
  - intros u mt. destruct (decide (u = t)) as [->|Hu]; [by rewrite lookup_insert_eq|]. rewrite lookup_insert_ne by done. apply E.
  - done.
  - lia.
Qed.

Lemma index_of_range i : 0 <= i -> index_of i = Ok (Z.to_nat i).
Proof. intros Hi. unfold index_of. by rewrite (proj2 (Z.leb_le 0 i) Hi). Qed.

Lemma th_end_inv joining t s : threads_inv joining s -> exists s', register_end t s = Ok s' /\ threads_inv joining s'.
Proof.
  intros HT. pose proof HT as [A B C D E F G]. unfold register_end. destruct (mt_of s !! t) as [[i|mt0]|] eqn:Ht; [|by exists s..].
  assert (ids s !! t = Some i) as Hid by (by rewrite lookup_ids, Ht). destruct (C t i Hid) as [Hr _]. rewrite index_of_range by lia. cbn [mbind res_bind].
  destruct (lookup_lt_is_Some_2 (g_phase s) (Z.to_nat i)) as [phase Hphase]; [rewrite F; lia|]. rewrite Hphase. cbn [of_option mbind res_bind]. set (mt := fresh (dom (g_MTSThreadSet s))).
  assert (g_MTSThreadSet s !! mt = None) as Hmt by (apply not_elem_of_dom, is_fresh). eexists. split; [done|].
  match goal with |- threads_inv _ ?x => set (s' := x) end. assert (ids s' = ids s) as Eids.
  { apply map_eq. intros u. rewrite !lookup_ids. cbn. destruct (decide (u = t)) as [->|Hu]; [rewrite lookup_insert_eq, Ht; cbn; by rewrite lookup_insert_eq|]. rewrite lookup_insert_ne by done.
    destruct (mt_of s !! u) as [[j|mt1]|] eqn:Hmu; [done| |done]. cbn. destruct (E u mt1 Hmu) as [th Hth]. rewrite lookup_insert_ne by congruence. done. }
  assert (forall u mt1, mt_of s !! u = Some (Cur mt1) -> mt1 <> mt) as Hfresh by (intros u mt1 Hu ->; destruct (E u mt Hu); congruence).
  split; rewrite ?Eids; cbn; try done.
  - intros u v mt1. destruct (decide (u = t)) as [->|Hu], (decide (v = t)) as [->|Hv]; rewrite ?lookup_insert_eq, ?lookup_insert_ne by done; [done| | |apply D].
    + intros [= <-] Hv'. by destruct (Hfresh v mt Hv').
    + intros Hu' [= <-]. by destruct (Hfresh u mt Hu').
  - intros u mt1. destruct (decide (u = t)) as [->|Hu]; [rewrite lookup_insert_eq; intros [= <-]; rewrite lookup_insert_eq; by eexists|]. rewrite lookup_insert_ne by done.
    intros Hu'. rewrite lookup_insert_ne by (apply not_eq_sym; eauto). eauto.
Qed.

Lemma th_leave_inv joining t s : threads_inv joining s -> in_turn joining (ThLeave t) s = true -> exists s', unregisterThread t s = Ok s' /\ threads_inv false s'.
Proof.
  intros HT Hturn. pose proof HT as [A B C D E F G]. cbn in Hturn. unfold unregisterThread. destruct (mt_of s !! t) as [[j|mt]|] eqn:Ht; [done| |done].
  apply bool_decide_eq_true in Hturn as [i Hid]. destruct (E t mt Ht) as [th Hth]. rewrite Hth. cbn [of_option mbind res_bind]. destruct (C t i Hid) as [Hr _].
  assert (mt_threadId th = i) as Ei. { rewrite lookup_ids, Ht in Hid. cbn in Hid. rewrite Hth in Hid. cbn in Hid. destruct (mt_finish th); [done|]. by injection Hid. }
  rewrite Ei, index_of_range by lia. cbn [mbind res_bind]. rewrite bool_decide_eq_true_2 by (rewrite F; lia). eexists. split; [done|].
  match goal with |- threads_inv _ ?x => set (s' := x) end. assert (ids s' = delete t (ids s)) as Eids.
  { apply map_eq. intros u. rewrite lookup_ids. cbn. destruct (decide (u = t)) as [->|Hu]; [rewrite lookup_delete_eq, Ht; cbn; by rewrite lookup_insert_eq|]. rewrite lookup_delete_ne, lookup_ids by done.
    destruct (mt_of s !! u) as [[j|mt1]|] eqn:Hmu; [done| |done]. cbn. rewrite lookup_insert_ne; [done|]. intros <-. by apply Hu, (D u t mt). }
  pose proof (map_size_delete_Some _ _ (ex_intro _ i Hid)) as Hsz. assert (0 < size (ids s))%nat by (destruct (size (ids s)) eqn:E0; [apply map_size_empty_inv in E0; by rewrite E0, lookup_empty in Hid|lia]).
  split; rewrite ?Eids; cbn.
  - rewrite to_u_id by lia. lia.
  - intros u v k [_ Hu]%lookup_delete_Some [_ Hv]%lookup_delete_Some. by eapply B.
  - intros u k [_ Hu]%lookup_delete_Some. destruct (C u k Hu). done.
  - done.
  - intros u mt1 Hu. destruct (decide (mt1 = mt)) as [->|Hne]; [rewrite lookup_insert_eq; by eexists|]. rewrite lookup_insert_ne by done. by eapply E.
  - by rewrite length_insert.
  - rewrite to_u_id by lia. lia.
Qed.

Lemma th_run_inv es : forall joining s, threads_inv joining s -> rounds joining es s -> exists s' joining', th_run es s = Ok s' /\ threads_inv joining' s'.
Proof.
  induction es as [|e es IH]; intros joining s HT; [intros _; by exists s, joining|]. intros [Hturn Hnext]. cbn [th_run].
  assert (exists s1, th_step e s = Ok s1 /\ threads_inv (still_joining joining e) s1) as (s1 & E1 & HT1).
  { destruct e as [t|t|t]; cbn; [eexists; split; [done|]; by eapply th_begin_inv|by apply th_end_inv|by eapply th_leave_inv]. }
  rewrite E1 in Hnext |- *. cbn. by apply (IH (still_joining joining e)).
Qed.

Lemma new_threads_inv : threads_inv true new_threads.
Proof.
  assert (ids new_threads = ∅) as E by apply omap_empty. split; rewrite ?E; cbn; [done|by intros ??? ?%lookup_empty_Some|by intros ?? ?%lookup_empty_Some|by intros ??? ?%lookup_empty_Some|by intros ?? ?%lookup_empty_Some| |lia].
  apply length_replicate.
Qed.

(** When the threads come and leave in rounds, as the benchmark driver has
    them, no step faults, two threads that have not left never have the same
    id, the ids are those of the write buffers and address tables, and the
    counter counts the threads. *)
Theorem thread_ids_distinct es : rounds true es new_threads -> exists s, th_run es new_threads = Ok s /\
  (forall t u i, ids s !! t = Some i -> ids s !! u = Some i -> t = u) /\
  (forall t i, ids s !! t = Some i -> 0 <= i < Z.of_nat MTS_THREAD_NUM) /\ numThreads s = Z.of_nat (size (ids s)).
Proof.
  intros Hr. destruct (th_run_inv es true _ new_threads_inv Hr) as (s & j & E & HT). exists s. split_and!; [done|by apply HT| |by apply HT]. intros t i Hi. by apply (ti_range _ _ HT t).
Qed.
End threads.

(** * What the counter does out of turn *)

(** Two threads register, the first leaves, a third one comes: it gets the id
    of the second. *)
Theorem thread_ids_collide :
  (s ← th_run [ThBegin 0; ThEnd 0; ThBegin 1; ThEnd 1; ThLeave 0; ThBegin 2; ThEnd 2] new_threads; Ok (ids s !! 1%nat, ids s !! 2%nat)) = Ok (Some 1, Some 1).
Proof. vm_compute. reflexivity. Qed.

(** [unregisterThread] leaves [curMTSThread] set: a thread that leaves twice
    takes the counter below 0, and the next id is -1. *)
Theorem leave_twice : th_run [ThBegin 0; ThEnd 0; ThLeave 0; ThLeave 0; ThBegin 1; ThEnd 1] new_threads = Err OutOfRange.
Proof. vm_compute. reflexivity. Qed.

(** The destructor does not get past the first thread. *)
Theorem destroy_undefined s : g_MTSThreadSet s <> ∅ -> destroy_wait s = Err Undefined \/ destroy_wait s = Err NoReturn.
Proof.
  intros Hne. unfold destroy_wait. destruct (map_to_list (g_MTSThreadSet s)) as [|[mt th] l] eqn:E; [by apply map_to_list_empty_iff in E|].
  destruct (mt_finish th); auto.
Qed.

(** Three rounds of two threads: loading, warming up, running. *)
Example three_phases :
  (let round := [ThBegin 0; ThBegin 1; ThEnd 1; ThEnd 0; ThLeave 0; ThLeave 1] in
   s ← th_run (round ++ round ++ round) new_threads; Ok (take 3 (g_phase s), numThreads s)) = Ok ([0; 0; 3], 0).
Proof. vm_compute. reflexivity. Qed.
