(* ===== verification/NodeBits.v ===== *)
(** Bits of PACTree's data nodes ([src/PRISM/lib/pactree/src/bitset.h] and the
    bit-parallel searches of [listNode.cpp]).

    [hydra::bitset] on 64-bit words, the AVX-512 byte comparison as a mask, the
    [bsr] and [bsf] instructions, and the one-byte key fingerprint. *)

From S2P Require Import Prelude.

Local Open Scope Z_scope.

(** * [hydra::bitset] *)

Record bitset := Bitset { bits0 : Z; bits1 : Z }.

Definition testBit (pos bits : Z) : bool := negb (Z.land bits (Z.shiftl 1 pos) =? 0).
Definition setBit (pos bits : Z) : Z := Z.lor bits (Z.shiftl 1 pos).
Definition resetBit (pos bits : Z) : Z := Z.land bits (to_u64 (Z.lnot (Z.shiftl 1 pos))).

Definition clear : bitset := Bitset 0 0.
(** [bits[index/64]] for an index below 128; x86 takes the shift count modulo
    64. *)
Definition set (b : bitset) (index : Z) : bitset :=
  if index <? 64 then Bitset (setBit index (bits0 b)) (bits1 b)
  else Bitset (bits0 b) (setBit (index - 64) (bits1 b)).
Definition reset (b : bitset) (index : Z) : bitset :=
  if index <? 64 then Bitset (resetBit index (bits0 b)) (bits1 b)
  else Bitset (bits0 b) (resetBit (index - 64) (bits1 b)).
Definition test (b : bitset) (index : Z) : bool :=
  if index <? 64 then testBit index (bits0 b) else testBit (index - 64) (bits1 b).
Definition to_ulong (b : bitset) : Z := bits0 b.

(** * Instructions *)

(** [bsr]: the highest set bit of a non-zero word; [bsf]: the lowest. *)
Definition bsr (n : Z) : Z := Z.log2 n.
Definition bsf (n : Z) : Z := Z.log2 (Z.land n (- n)).

(** [_mm512_cmpeq_epi8_mask] against a broadcast byte. *)
Fixpoint cmpeq_mask (v : list Z) (byte : Z) : Z :=
  match v with
  | [] => 0
  | x :: v' => Z.b2z (x =? byte) + 2 * cmpeq_mask v' byte
  end.

(** * Fingerprints *)

(** [getKeyFingerPrint] for integer keys. *)
Definition getKeyFingerPrint (key : Z) : Z :=
  let key := to_u64 (to_u64 (Z.lnot key) + to_u64 (Z.shiftl key 18)) in
  let key := Z.lxor key (Z.shiftr key 31) in
  let key := to_u64 (to_u64 (key + to_u64 (Z.shiftl key 2)) + to_u64 (Z.shiftl key 4)) in
  let key := Z.lxor key (Z.shiftr key 11) in
  let key := to_u64 (key + to_u64 (Z.shiftl key 6)) in
  let key := Z.lxor key (Z.shiftr key 22) in
  to_u8 key.

(** * Lemmas *)

Lemma testbit_high n i w : 0 <= n < 2 ^ w -> 0 <= w <= i -> Z.testbit n i = false.
Proof.
  intros Hn Hi. destruct (decide (n = 0)) as [->|]; [apply Z.bits_0|].
  apply Z.bits_above_log2; [lia|]. assert (Z.log2 n < w) by (apply Z.log2_lt_pow2; lia). lia.
Qed.

Lemma testBit_spec pos bits : 0 <= pos -> testBit pos bits = Z.testbit bits pos.
Proof.
  intros Hp. unfold testBit. rewrite Z.shiftl_1_l.
  destruct (Z.testbit bits pos) eqn:Hb.
  - destruct (Z.eqb_spec (Z.land bits (2 ^ pos)) 0) as [He|]; [|done].
    assert (Z.testbit (Z.land bits (2 ^ pos)) pos = true) as Ht by (by rewrite Z.land_spec, Hb, Z.pow2_bits_true).
    by rewrite He, Z.bits_0 in Ht.
  - assert (Z.land bits (2 ^ pos) = 0) as ->; [|done]. apply Z.bits_inj'. intros i Hi.
    rewrite Z.land_spec, Z.bits_0, Z.pow2_bits_eqb by lia.
    destruct (Z.eqb_spec pos i) as [<-|]; [by rewrite Hb|by rewrite andb_false_r].
Qed.

Lemma setBit_spec pos bits i : 0 <= pos -> 0 <= i ->
  Z.testbit (setBit pos bits) i = (pos =? i) || Z.testbit bits i.
Proof.
  intros Hp Hi. unfold setBit. rewrite Z.lor_spec, Z.shiftl_1_l, Z.pow2_bits_eqb by lia. apply orb_comm.
Qed.

Lemma setBit_range pos bits : 0 <= pos < 64 -> 0 <= bits < 2 ^ 64 -> 0 <= setBit pos bits < 2 ^ 64.
Proof.
  intros Hp Hb. unfold setBit. rewrite Z.shiftl_1_l. pose proof (Z.pow_pos_nonneg 2 pos).
  assert (0 <= Z.lor bits (2 ^ pos)) as Hn by (apply Z.lor_nonneg; lia). split; [done|].
  destruct (decide (Z.lor bits (2 ^ pos) = 0)); [lia|]. apply Z.log2_lt_pow2; [lia|].
  rewrite Z.log2_lor by lia. rewrite Z.log2_pow2 by lia.
  destruct (decide (bits = 0)) as [->|]; [cbn; lia|].
  assert (Z.log2 bits < 64) by (apply Z.log2_lt_pow2; lia). lia.
Qed.

Lemma lnot_u64_spec n i : 0 <= n < 2 ^ 64 -> 0 <= i ->
  Z.testbit (to_u64 (Z.lnot n)) i = (i <? 64) && negb (Z.testbit n i).
Proof.
  intros Hn Hi. unfold to_u. rewrite Z.testbit_mod_pow2 by lia.
  destruct (Z.ltb_spec i 64); cbn; [|done]. by rewrite Z.lnot_spec.
Qed.

Lemma resetBit_spec pos bits i : 0 <= pos < 64 -> 0 <= bits < 2 ^ 64 -> 0 <= i ->
  Z.testbit (resetBit pos bits) i = negb (pos =? i) && Z.testbit bits i.
Proof.
  intros Hp Hb Hi. unfold resetBit. rewrite Z.land_spec, Z.shiftl_1_l.
  assert (2 ^ pos < 2 ^ 64) by (apply Z.pow_lt_mono_r; lia).
  rewrite lnot_u64_spec by lia. rewrite Z.pow2_bits_eqb by lia.
  destruct (Z.ltb_spec i 64) as [Hlt|Hge]; [rewrite andb_true_l; apply andb_comm|].
  rewrite (testbit_high bits i 64) by lia. by rewrite !andb_false_r.
Qed.

Lemma resetBit_range pos bits : 0 <= bits < 2 ^ 64 -> 0 <= resetBit pos bits < 2 ^ 64.
Proof.
  intros Hb. unfold resetBit. set (m := to_u64 _). assert (0 <= m) by (apply to_u_range; lia).
  assert (0 <= Z.land bits m) by (apply Z.land_nonneg; lia). split; [done|].
  assert (Z.land bits m <= bits); [|lia].
  assert (Z.ldiff bits m + Z.land bits m = bits) as E.
  { rewrite Z.add_nocarry_lxor.
    - apply Z.bits_inj'. intros i Hi. rewrite Z.lxor_spec, Z.ldiff_spec, Z.land_spec.
      by destruct (Z.testbit bits i), (Z.testbit m i).
    - apply Z.bits_inj'. intros i Hi. rewrite !Z.land_spec, Z.ldiff_spec, Z.bits_0.
      by destruct (Z.testbit bits i), (Z.testbit m i). }
  assert (0 <= Z.ldiff bits m) by (apply Z.ldiff_nonneg; lia). lia.
Qed.

Lemma cmpeq_mask_spec v byte i : 0 <= i ->
  Z.testbit (cmpeq_mask v byte) i = match v !! Z.to_nat i with Some x => x =? byte | None => false end.
Proof.
  revert i. induction v as [|x v IH]; intros i Hi; cbn [cmpeq_mask]; [by rewrite Z.bits_0, lookup_nil|].
  rewrite (Z.add_comm (Z.b2z _)). destruct (decide (i = 0)) as [->|Hne].
  - by rewrite Z.testbit_0_r.
  - replace i with (Z.succ (i - 1)) by lia. rewrite Z.testbit_succ_r by lia. rewrite IH by lia.
    by replace (Z.to_nat (Z.succ (i - 1))) with (S (Z.to_nat (i - 1))) by lia.
Qed.

Lemma bsr_spec n : 0 < n -> Z.testbit n (bsr n) = true /\ forall i, bsr n < i -> Z.testbit n i = false.
Proof. intros Hn. split; [by apply Z.bit_log2|]. intros i Hi. apply Z.bits_above_log2; [lia|done]. Qed.

(** The lowest set bit is isolated by [n & -n]. *)
Lemma land_neg n k : 0 <= k -> Z.testbit n k = true -> (forall i, 0 <= i < k -> Z.testbit n i = false) ->
  Z.land n (- n) = 2 ^ k.
Proof.
  intros Hk Hb Hlow. apply Z.bits_inj'. intros i Hi. rewrite Z.land_spec, Z.pow2_bits_eqb by lia.
  replace (- n) with (Z.lnot (n - 1)) by (unfold Z.lnot; lia). rewrite Z.lnot_spec by lia.
  assert (exists q, n = 2 ^ k * (2 * q + 1)) as [q Hq].
  { exists (Z.shiftr n (Z.succ k)).
    assert (n mod 2 ^ k = 0) as Hm.
    { apply Z.bits_inj'. intros j Hj. rewrite Z.testbit_mod_pow2, Z.bits_0 by lia.
      destruct (Z.ltb_spec j k); cbn; [apply Hlow; lia|done]. }
    pose proof (Z.div_mod n (2 ^ k)) as Hd. rewrite Hm in Hd.
    assert (n / 2 ^ k = 2 * Z.shiftr n (Z.succ k) + 1) as Ho.
    { rewrite <- Z.shiftr_div_pow2 by lia. 
      rewrite (Z.div2_odd (Z.shiftr n k)) at 1. rewrite <- Z.bit0_odd, Z.shiftr_spec, Z.add_0_l, Hb by lia.
      rewrite Z.div2_spec, Z.shiftr_shiftr by lia. by replace (k + 1) with (Z.succ k) by lia. }
    rewrite <- Ho. pose proof (Z.pow_pos_nonneg 2 k). lia. }
  destruct (Z.eqb_spec k i) as [<-|Hne].
  - rewrite Hb. cbn. replace (n - 1) with (2 ^ k * (2 * q) + (2 ^ k - 1)) by lia.
    pose proof (Z.pow_pos_nonneg 2 k).
    assert (Z.testbit (Z.shiftr (2 ^ k * (2 * q) + (2 ^ k - 1)) k) 0 = false) as Hz.
    { rewrite Z.shiftr_div_pow2 by lia. rewrite Z.mul_comm, Z.div_add_l by lia. rewrite Z.div_small by lia.
      rewrite Z.add_0_r, Z.bit0_odd. by rewrite Z.odd_mul. }
    rewrite Z.shiftr_spec, Z.add_0_l in Hz by lia. by rewrite Hz.
  - destruct (decide (i < k)); [by rewrite Hlow|].
    assert (Z.testbit (n - 1) i = Z.testbit n i) as ->; [|by destruct (Z.testbit n i)].
    replace i with ((i - k - 1) + 1 + k) by lia. rewrite <- !(Z.shiftr_spec _ k) by lia.
    rewrite !Z.shiftr_div_pow2 by lia. pose proof (Z.pow_pos_nonneg 2 k).
    assert ((n - 1) / 2 ^ k = 2 * q) as ->.
    { replace (n - 1) with (2 * q * 2 ^ k + (2 ^ k - 1)) by lia. rewrite Z.div_add_l, Z.div_small by lia. lia. }
    assert (n / 2 ^ k = 2 * q + 1) as -> by (rewrite Hq, Z.mul_comm, Z.div_mul; lia).
    rewrite Z.add_1_r, Z.testbit_even_succ, Z.testbit_odd_succ by lia. done.
Qed.

Lemma bsf_lowest n k : 0 <= k -> Z.testbit n k = true -> (forall i, 0 <= i < k -> Z.testbit n i = false) -> bsf n = k.
Proof. intros Hk Hb Hl. unfold bsf. rewrite (land_neg n k) by done. by apply Z.log2_pow2. Qed.

Lemma least_bit n i : 0 <= i -> Z.testbit n i = true ->
  exists k, 0 <= k <= i /\ Z.testbit n k = true /\ forall j, 0 <= j < k -> Z.testbit n j = false.
Proof.
  intros Hi. revert i Hi. apply (Zlt_0_ind (fun i => Z.testbit n i = true -> _)). intros i IH Hi Hb.
  destruct (decide (Exists (fun j => Z.testbit n (Z.of_nat j) = true) (seq 0 (Z.to_nat i)))) as [Hex|Hno].
  - apply Exists_exists in Hex as (j & Hj%elem_of_seq & Hbj).
    destruct (IH (Z.of_nat j)) as (k & Hk & Hbk & Hlow); [lia|done|]. exists k. split; [lia|done].
  - exists i. split; [lia|]. split; [done|]. intros j Hj. destruct (Z.testbit n j) eqn:E; [|done].
    exfalso. apply Hno, Exists_exists. exists (Z.to_nat j). rewrite elem_of_seq, Z2Nat.id by lia. split; [lia|done].
Qed.

Lemma bsf_spec n : 0 < n < 2 ^ 32 -> 0 <= bsf n < 32 /\ Z.testbit n (bsf n) = true /\ forall j, 0 <= j < bsf n -> Z.testbit n j = false.
Proof.
  intros Hn. destruct (bsr_spec n) as [Hb _]; [lia|].
  assert (0 <= bsr n < 32) by (split; [apply Z.log2_nonneg|apply Z.log2_lt_pow2; lia]).
  destruct (least_bit n (bsr n)) as (k & Hk & Hbk & Hlow); [lia|done|].
  rewrite (bsf_lowest n k) by (lia || done). split; [lia|]. done.
Qed.

Lemma halves_bits m i : 0 <= i < 32 ->
  Z.testbit (to_u32 m) i = Z.testbit m i /\ Z.testbit (to_u32 (Z.shiftr m 32)) i = Z.testbit m (i + 32).
Proof.
  intros Hi. unfold to_u. rewrite !Z.testbit_mod_pow2 by lia. rewrite (proj2 (Z.ltb_lt _ _)) by lia.
  cbn. by rewrite Z.shiftr_spec by lia.
Qed.

(** The first set bit of a 64-bit word, found half by half. *)
Lemma bsf_halves m : 0 < m < 2 ^ 64 ->
  let k := if negb (to_u32 m =? 0) then bsf (to_u32 m) else bsf (to_u32 (Z.shiftr m 32)) + 32 in
  0 <= k < 64 /\ Z.testbit m k = true /\ forall j, 0 <= j < k -> Z.testbit m j = false.
Proof.
  intros Hm. assert (0 <= to_u32 m < 2 ^ 32 /\ 0 <= to_u32 (Z.shiftr m 32) < 2 ^ 32) as [Hlo Hhi]
    by (split; apply to_u_range; lia).
  destruct (Z.eqb_spec (to_u32 m) 0) as [El|El]; cbn [negb].
  - assert (to_u32 (Z.shiftr m 32) <> 0) as Hnz.
    { rewrite Z.shiftr_div_pow2 by lia. unfold to_u in *. rewrite Z.mod_small; [|split; [apply Z.div_pos; lia|apply Z.div_lt_upper_bound; lia]].
      pose proof (Z.div_mod m (2 ^ 32)). lia. }
    destruct (bsf_spec (to_u32 (Z.shiftr m 32))) as (Hk & Hb & Hl); [lia|]. split; [lia|].
    rewrite (proj2 (halves_bits m _ Hk)) in Hb. split; [done|]. intros j Hj. destruct (decide (j < 32)) as [Hj2|Hj2].
    + rewrite <- (proj1 (halves_bits m j ltac:(lia))), El. apply Z.bits_0.
    + rewrite <- (Hl (j - 32)), (proj2 (halves_bits m (j - 32) ltac:(lia))) by lia. f_equal. lia.
  - destruct (bsf_spec (to_u32 m)) as (Hk & Hb & Hl); [lia|]. split; [lia|]. rewrite (proj1 (halves_bits m _ Hk)) in Hb. split; [done|].
    intros j Hj. rewrite <- (proj1 (halves_bits m j ltac:(lia))). by apply Hl.
Qed.
