(* ===== verification/VersionedLock.v ===== *)
(** The version lock of PACTree's nodes
    ([src/PRISM/lib/pactree/src/VersionedLock.h]).

    The lock word is a counter, odd while a writer holds the lock; its upper
    half names the generation (the run of the program) that last used it.  The
    operations are functions on the word; the second part of the file runs
    them from several threads, as a step relation, and shows that writers
    exclude each other and that a reader whose version is confirmed at the end
    has loaded the cells of one state. *)

From S2P Require Import Prelude.
From Stdlib Require Import Relations.

Local Open Scope Z_scope.

(** * Operations *)

Definition new_lock : Z := 2.

(** Both return the version ([0]: try again) and the new lock word.  When the
    generation differs, the code computes [genId << 32] on a 32-bit [genId]. *)
Definition read_lock (version genId : Z) : res (Z * Z) :=
  let lockGenId := to_u32 (Z.shiftr version 32) in
  if negb (to_u32 genId =? lockGenId) then Err Undefined
  else if Z.odd version then Ok (0, version) else Ok (version, version).

(** [compare_exchange_weak] succeeds: no other thread writes the word in
    between, and a spurious failure is a retry. *)
Definition write_lock (version genId : Z) : res (Z * Z) :=
  let lockGenId := to_u32 (Z.shiftr version 32) in
  if negb (to_u32 genId =? lockGenId) then Err Undefined
  else if Z.odd version then Ok (0, version) else Ok (version, to_u64 (version + 1)).

Definition read_unlock (version old_version : Z) : bool := version =? old_version.
Definition write_unlock (version : Z) : Z := to_u64 (version + 1).

(** A word no writer holds, in the first generation. *)
Definition lock_ok (version : Z) : Prop := 2 <= version /\ Z.odd version = false.
Definition lock_free (version : Z) : Prop := 2 <= version < 2 ^ 32 - 2 /\ Z.odd version = false.

Lemma first_generation v : 0 <= v < 2 ^ 32 -> to_u32 (Z.shiftr v 32) = 0.
Proof. intros Hv. rewrite Z.shiftr_div_pow2, Z.div_small by lia. done. Qed.

(** In the first generation only the parity counts. *)
Lemma read_lock_word v : 0 <= v < 2 ^ 32 -> read_lock v 0 = if Z.odd v then Ok (0, v) else Ok (v, v).
Proof. intros Hv. unfold read_lock. rewrite first_generation by done. reflexivity. Qed.

Lemma write_lock_word v : 0 <= v < 2 ^ 32 -> write_lock v 0 = if Z.odd v then Ok (0, v) else Ok (v, v + 1).
Proof. intros Hv. unfold write_lock. rewrite first_generation by done. rewrite (to_u_id 64) by lia. reflexivity. Qed.

Lemma read_lock_free v : lock_free v -> read_lock v 0 = Ok (v, v).
Proof. intros [Hv Ho]. by rewrite read_lock_word, Ho by lia. Qed.

Lemma write_lock_free v : lock_free v -> write_lock v 0 = Ok (v, v + 1).
Proof. intros [Hv Ho]. by rewrite write_lock_word, Ho by lia. Qed.

Lemma write_unlock_held v : lock_free v -> write_unlock (v + 1) = v + 2.
Proof. intros [Hv _]. unfold write_unlock. rewrite to_u_id by lia. lia. Qed.

(** A held lock is refused to everyone. *)
Lemma lock_held v : 0 <= v < 2 ^ 32 -> Z.odd v = true -> read_lock v 0 = Ok (0, v) /\ write_lock v 0 = Ok (0, v).
Proof. intros Hv Ho. by rewrite read_lock_word, write_lock_word, Ho. Qed.

(** * Threads

    The data that the lock protects are cells, which a writer changes one at a
    time while it holds the lock.  A reader takes a version, loads cells one at
    a time, with steps of the other threads in between, and then asks whether
    the version still holds; if not it starts over. *)

Record shared := Shared { word : Z; owner : option nat; cells : list Z }.

Inductive reader :=
  | Idle
  | Reading (version : Z) (loads : list (nat * Z))      (** the cells loaded so far *)
  | Confirmed (loads : list (nat * Z)).

Definition start (d : list Z) : shared := Shared new_lock None d.

Abbreviation system := (shared * gmap nat reader)%type.

(** One thread's step.  A writer: an attempt to take the lock, a write by the
    thread that took it, and its release.  A reader [r]: [read_lock], a load,
    [read_unlock]. *)
Inductive lock_step : system -> system -> Prop :=
  | ls_acquire t s R v w : write_lock (word s) 0 = Ok (v, w) -> v <> 0 -> lock_step (s, R) (Shared w (Some t) (cells s), R)
  | ls_busy s R w : write_lock (word s) 0 = Ok (0, w) -> lock_step (s, R) (Shared w (owner s) (cells s), R)
  | ls_write t s R i d : owner s = Some t -> lock_step (s, R) (Shared (word s) (Some t) (<[i := d]> (cells s)), R)
  | ls_release t s R : owner s = Some t -> lock_step (s, R) (Shared (write_unlock (word s)) None (cells s), R)
  | ls_begin r s R v w : read_lock (word s) 0 = Ok (v, w) ->
      lock_step (s, R) (Shared w (owner s) (cells s), <[r := if v =? 0 then Idle else Reading v []]> R)
  | ls_load r s R v loads i x : R !! r = Some (Reading v loads) -> cells s !! i = Some x ->
      lock_step (s, R) (s, <[r := Reading v (loads ++ [(i, x)])]> R)
  | ls_end r s R v loads : R !! r = Some (Reading v loads) ->
      lock_step (s, R) (s, <[r := if read_unlock (word s) v then Confirmed loads else Idle]> R).

Abbreviation lock_steps := (clos_refl_trans_1n _ lock_step).

Definition lock_inv (s : shared) : Prop :=
  0 < word s <= 2 ^ 32 /\ (Z.odd (word s) = true <-> is_Some (owner s)).

(** What was loaded is there. *)
Definition loaded (s : shared) (loads : list (nat * Z)) : Prop := Forall (fun ix => cells s !! ix.1 = Some ix.2) loads.

(** As long as the version of a reader is that of the lock, what it has loaded
    has not changed. *)
Definition readers_inv (x : system) : Prop :=
  forall r v loads, x.2 !! r = Some (Reading v loads) -> Z.odd v = false /\ v <= word x.1 /\ (word x.1 = v -> loaded x.1 loads).

Definition system_inv (x : system) : Prop := lock_inv x.1 /\ readers_inv x.

Lemma write_lock_inv v r w : 0 < v <= 2 ^ 32 -> write_lock v 0 = Ok (r, w) ->
  v < 2 ^ 32 /\ ((r = 0 /\ w = v /\ Z.odd v = true) \/ (r = v /\ w = v + 1 /\ Z.odd v = false)).
Proof.
  intros Hv. destruct (decide (v = 2 ^ 32)) as [->|Hne]; [done|].
  rewrite write_lock_word by lia.
  destruct (Z.odd v) eqn:Ho; intros [= <- <-]; (split; [lia|]); [by left|by right].
Qed.

Lemma read_lock_inv v r w : read_lock v 0 = Ok (r, w) -> w = v /\ (r = 0 \/ r = v /\ Z.odd v = false).
Proof. unfold read_lock. destruct (negb _); [done|]. destruct (Z.odd v) eqn:Ho; intros [= <- <-]; auto. Qed.

Lemma odd_succ_flip v : Z.odd (v + 1) = negb (Z.odd v).
Proof. by rewrite Z.add_1_r, Z.odd_succ, <- Z.negb_odd. Qed.

(** A step that only moves the word up, to another one, keeps the readers. *)
Lemma readers_moved s s' R : readers_inv (s, R) -> word s < word s' -> readers_inv (s', R).
Proof. intros HR Hw r v loads Hr. destruct (HR r v loads Hr) as (Ho & Hle & _). cbn in *. split; [done|]. split; [lia|]. intros. lia. Qed.

Lemma readers_insert s R r o : readers_inv (s, R) ->
  (forall v loads, o = Reading v loads -> Z.odd v = false /\ v <= word s /\ (word s = v -> loaded s loads)) -> readers_inv (s, <[r := o]> R).
Proof. intros HR Ho r' v loads Hr. cbn in Hr. apply lookup_insert_Some in Hr as [[<- E]|[_ Hr]]; [by apply Ho|by apply (HR r')]. Qed.

Lemma lock_step_inv x x' : lock_step x x' -> system_inv x -> system_inv x'.
Proof.
  intros Hs [[Hw Ho] HR]. unfold system_inv, lock_inv.
  destruct Hs as [t s R v w E Hv|s R w E|t s R i d Eo|t s R Eo|r s R v w E|r s R v loads i y Hr Hy|r s R v loads Hr]; cbn in *.
  - destruct (write_lock_inv _ _ _ Hw E) as [Hlt [(-> & _)|(-> & -> & Hodd)]]; [done|].
    split; [|by eapply readers_moved; [exact HR|cbn; lia]]. split; [lia|]. rewrite odd_succ_flip, Hodd. done.
  - destruct (write_lock_inv _ _ _ Hw E) as [Hlt [(_ & -> & _)|(Hz & _)]]; [|lia]. by split.
  - split; [by rewrite Ho, Eo|]. assert (Z.odd (word s) = true) as Hodd by (apply Ho; by rewrite Eo).
    intros r v loads Hr. destruct (HR r v loads Hr) as (He & Hle & _). split; [done|]. split; [done|]. cbn. intros <-. congruence.
  - assert (Z.odd (word s) = true) as Hodd by (apply Ho; by rewrite Eo).
    assert (word s <> 2 ^ 32) by (intros Hm; by rewrite Hm in Hodd).
    unfold write_unlock. rewrite to_u_id by lia. split; [|by eapply readers_moved; [exact HR|cbn; lia]]. split; [lia|].
    rewrite odd_succ_flip, Hodd. cbn. split; [done|]. by intros [].
  - apply read_lock_inv in E as [-> Hv]. split; [done|]. apply (readers_insert _ _ _ _ HR). intros v' loads. destruct (Z.eqb_spec v 0) as [->|Hne]; [done|].
    intros [= <- <-]. destruct Hv as [->|[-> Hodd]]; [done|]. split; [done|]. split; [cbn; lia|]. intros _. constructor.
  - split; [done|]. apply (readers_insert _ _ _ _ HR). intros v' loads' [= <- <-]. destruct (HR r v loads Hr) as (He & Hle & Hl). split; [done|]. split; [done|].
    intros E. apply Forall_app. split; [by apply Hl|]. by apply Forall_singleton.
  - split; [done|]. apply (readers_insert _ _ _ _ HR). intros v' loads'. by destruct (read_unlock _ _).
Qed.

Lemma lock_steps_inv x x' : lock_steps x x' -> system_inv x -> system_inv x'.
Proof. induction 1 as [|x x1 x' Hs _ IH]; intros Hi; [done|]. apply IH. by eapply lock_step_inv. Qed.

Lemma start_inv d : system_inv (start d, ∅).
Proof. split; [split; [by vm_compute|]; split; [done|by intros []]|]. intros r v loads Hr. cbn in Hr. by rewrite lookup_empty in Hr. Qed.

(** Writers exclude each other: in every state the threads can reach, the
    lock is granted only when no thread holds it. *)
Theorem write_lock_exclusive d s R v w : lock_steps (start d, ∅) (s, R) -> write_lock (word s) 0 = Ok (v, w) -> v <> 0 ->
  owner s = None.
Proof.
  intros Hs E Hv. destruct (lock_steps_inv _ _ Hs (start_inv d)) as [[Hw Ho] _]. cbn in *.
  destruct (write_lock_inv _ _ _ Hw E) as [_ [(-> & _)|(_ & _ & Hodd)]]; [done|].
  destruct (owner s) as [t|]; [|done]. assert (Z.odd (word s) = true) by (by apply Ho; eexists). congruence.
Qed.

(** C31. An optimistic read sees one snapshot.  Readers and writers run in any interleaving, the writers changing one
    cell at a time under the lock, the readers loading one cell at a time without it.  When [read_unlock] confirms the
    version that [read_lock] gave a reader, no writer holds the lock, and every cell the reader has loaded since, at
    whatever moments, has at this moment the value it loaded: the values are those of one state between two writers. *)
Theorem optimistic_read d s R r v loads : lock_steps (start d, ∅) (s, R) -> R !! r = Some (Reading v loads) -> read_unlock (word s) v = true ->
  owner s = None /\ forall i x, (i, x) ∈ loads -> cells s !! i = Some x.
Proof.
  intros Hs Hr Hu. destruct (lock_steps_inv _ _ Hs (start_inv d)) as [[Hw Ho] HR]. apply Z.eqb_eq in Hu.
  destruct (HR r v loads Hr) as (He & _ & Hl). cbn in *. split.
  - destruct (owner s) as [t|]; [|done]. assert (Z.odd (word s) = true) by (by apply Ho; eexists). congruence.
  - specialize (Hl Hu). unfold loaded in Hl. rewrite Forall_forall in Hl. intros i x Hin. exact (Hl _ Hin).
Qed.

(** After a restart the generation of the data layer is one higher than
    that of every lock taken before: the first lock operation on such a node
    shifts a 32-bit value by 32. *)
Theorem lock_next_generation v genId : 0 <= v < 2 ^ 32 -> 0 < genId < 2 ^ 32 ->
  read_lock v genId = Err Undefined /\ write_lock v genId = Err Undefined.
Proof.
  intros Hv Hg. unfold read_lock, write_lock. rewrite first_generation by lia. rewrite to_u_id by lia.
  by rewrite (proj2 (Z.eqb_neq genId 0)) by lia.
Qed.

Lemma write_lock_exclusive_witness :
  owner (Shared 4 None [7]) = None /\ write_lock 4 0 = Ok (4, 5).
Proof.
  split; [|by vm_compute]. apply (write_lock_exclusive [0] (Shared 4 None [7]) ∅ 4 5); [|by vm_compute|lia].
  eapply Relation_Operators.rt1n_trans; [by apply (ls_acquire 1 (start [0]) ∅ 2 3); [vm_compute|lia]|].
  eapply Relation_Operators.rt1n_trans; [by apply (ls_write 1 _ _ 0 7)|].
  eapply Relation_Operators.rt1n_trans; [by apply (ls_release 1)|]. apply rt1n_refl.
Defined.

(** Reader 1 loads a cell before a writer changes both; reader 0 begins after
    the writer, and another writer is refused the lock while it is held. *)
Definition both_readers : gmap nat reader := {[0%nat := Reading 4 [(0%nat, 8); (1%nat, 9)]; 1%nat := Reading 2 [(0%nat, 5)]]}.

Lemma two_readers : lock_steps (start [5; 6], ∅) (Shared 4 None [8; 9], both_readers).
Proof.
  eapply Relation_Operators.rt1n_trans; [by apply (ls_begin 1 (start [5; 6]) ∅ 2 2); vm_compute|].
  eapply Relation_Operators.rt1n_trans; [by apply (ls_load 1 _ _ 2 [] 0 5)|].
  eapply Relation_Operators.rt1n_trans; [by apply (ls_acquire 7 _ _ 2 3); [vm_compute|lia]|].
  eapply Relation_Operators.rt1n_trans; [by apply (ls_write 7 _ _ 0 8)|].
  eapply Relation_Operators.rt1n_trans; [by apply (ls_busy _ _ 3); vm_compute|].
  eapply Relation_Operators.rt1n_trans; [by apply (ls_write 7 _ _ 1 9)|].
  eapply Relation_Operators.rt1n_trans; [by apply (ls_release 7)|].
  eapply Relation_Operators.rt1n_trans; [by apply (ls_begin 0 _ _ 4 4); vm_compute|].
  eapply Relation_Operators.rt1n_trans; [by apply (ls_load 0 _ _ 4 [] 0 8)|].
  eapply Relation_Operators.rt1n_trans; [by apply (ls_load 0 _ _ 4 [(0%nat, 8)] 1 9)|].
  match goal with |- lock_steps (?s, ?R) (?s', ?R') => replace (s, R) with (s', R') by (by vm_compute) end. apply rt1n_refl.
Qed.

Lemma optimistic_read_witness : read_unlock 4 4 = true /\ read_unlock 4 2 = false /\ owner (Shared 4 None [8; 9]) = None /\
  forall i x, (i, x) ∈ [(0%nat, 8); (1%nat, 9)] -> cells (Shared 4 None [8; 9]) !! i = Some x.
Proof.
  split; [by vm_compute|]. split; [by vm_compute|].
  apply (optimistic_read [5; 6] (Shared 4 None [8; 9]) both_readers 0 4 [(0%nat, 8); (1%nat, 9)]); [exact two_readers|reflexivity|by vm_compute].
Defined.

Lemma lock_next_generation_witness : read_lock 2 1 = Err Undefined /\ write_lock 2 1 = Err Undefined.
Proof. apply (lock_next_generation 2 1); lia. Defined.
