(* ===== verification/ListNode.v ===== *)
(** Data nodes of PACTree ([src/PRISM/lib/pactree/src/listNode.cpp],
    [listNode.h]).

    A node holds up to 64 unsorted key-value pairs, a bitmap of the slots in
    use, a one-byte fingerprint per slot, and a cached sort order for scans.
    This file has the operations on one node; those that touch neighbours
    (split, merge) are in LinkedList.v.  [flushToNVM] and the fences order
    writes to persistent memory and have no effect on the values. *)

From S2P Require Import Prelude NodeBits VersionedLock.

Local Open Scope Z_scope.

Definition MAX_ENTRIES : nat := 64.

(** Pointers are [pptr]s (pptr.h): a word with the pool in bits 48 to 62 and
    the offset in the others.  A node is named by this word in place of the
    virtual address [getVaddr] maps it to; a word without offset is null. *)
Definition MASK : Z := 0x8000FFFFFFFFFFFF.
Definition getVaddr (rawPtr : Z) : Z := if Z.land rawPtr MASK =? 0 then 0 else rawPtr.

Record ListNode := MkListNode {
  ln_min : Z; ln_max : Z;
  curPtr : Z; nextPtr : Z; prevPtr : Z;
  deleted : bool;
  bitMap : bitset;
  fingerPrint : list Z;
  verLock : Z;
  keyArray : list (Z * Z);
  lastScanVersion : Z;
  pLock : Z;
  permuter : list Z;
}.

(** * Fields *)

Definition setMin (n : ListNode) (key : Z) : ListNode :=
  MkListNode key (ln_max n) (curPtr n) (nextPtr n) (prevPtr n) (deleted n) (bitMap n) (fingerPrint n) (verLock n)
    (keyArray n) (lastScanVersion n) (pLock n) (permuter n).
Definition setMax (n : ListNode) (key : Z) : ListNode :=
  MkListNode (ln_min n) key (curPtr n) (nextPtr n) (prevPtr n) (deleted n) (bitMap n) (fingerPrint n) (verLock n)
    (keyArray n) (lastScanVersion n) (pLock n) (permuter n).
Definition setCur (n : ListNode) (ptr : Z) : ListNode :=
  MkListNode (ln_min n) (ln_max n) ptr (nextPtr n) (prevPtr n) (deleted n) (bitMap n) (fingerPrint n) (verLock n)
    (keyArray n) (lastScanVersion n) (pLock n) (permuter n).
Definition setNext (n : ListNode) (ptr : Z) : ListNode :=
  MkListNode (ln_min n) (ln_max n) (curPtr n) ptr (prevPtr n) (deleted n) (bitMap n) (fingerPrint n) (verLock n)
    (keyArray n) (lastScanVersion n) (pLock n) (permuter n).
Definition setPrev (n : ListNode) (ptr : Z) : ListNode :=
  MkListNode (ln_min n) (ln_max n) (curPtr n) (nextPtr n) ptr (deleted n) (bitMap n) (fingerPrint n) (verLock n)
    (keyArray n) (lastScanVersion n) (pLock n) (permuter n).
Definition setDeleted (n : ListNode) (d : bool) : ListNode :=
  MkListNode (ln_min n) (ln_max n) (curPtr n) (nextPtr n) (prevPtr n) d (bitMap n) (fingerPrint n) (verLock n)
    (keyArray n) (lastScanVersion n) (pLock n) (permuter n).
Definition set_bitMap (n : ListNode) (b : bitset) : ListNode :=
  MkListNode (ln_min n) (ln_max n) (curPtr n) (nextPtr n) (prevPtr n) (deleted n) b (fingerPrint n) (verLock n)
    (keyArray n) (lastScanVersion n) (pLock n) (permuter n).
Definition set_verLock (n : ListNode) (v : Z) : ListNode :=
  MkListNode (ln_min n) (ln_max n) (curPtr n) (nextPtr n) (prevPtr n) (deleted n) (bitMap n) (fingerPrint n) v
    (keyArray n) (lastScanVersion n) (pLock n) (permuter n).
Definition set_scan (n : ListNode) (version lock : Z) (perm : list Z) : ListNode :=
  MkListNode (ln_min n) (ln_max n) (curPtr n) (nextPtr n) (prevPtr n) (deleted n) (bitMap n) (fingerPrint n)
    (verLock n) (keyArray n) version lock perm.

(** [new (p) ListNode()] on memory that holds [mem]: the fields the
    constructor does not set keep what was there. *)
Definition new_node (mem : ListNode) : ListNode :=
  MkListNode (ln_min mem) (ln_max mem) (curPtr mem) (nextPtr mem) (prevPtr mem) false clear (fingerPrint mem)
    new_lock (keyArray mem) 0 new_lock (permuter mem).

Definition setFullBitmap (n : ListNode) : ListNode :=
  set_bitMap n (foldl (fun b i => set b (Z.of_nat i)) (bitMap n) (seq 0 MAX_ENTRIES)).

(** Locks: the version ([0]: try again) and the node. *)
Definition writeLock (n : ListNode) (genId : Z) : res (Z * ListNode) :=
  '(v, w) ← write_lock (verLock n) genId; Ok (v, set_verLock n w).
Definition readLock (n : ListNode) (genId : Z) : res (Z * ListNode) :=
  '(v, w) ← read_lock (verLock n) genId; Ok (v, set_verLock n w).
Definition writeUnlock (n : ListNode) : ListNode := set_verLock n (write_unlock (verLock n)).
Definition readUnlock (n : ListNode) (oldVersion : Z) : bool := read_unlock (verLock n) oldVersion.

(** * Slots *)

Definition used (n : ListNode) (i : nat) : bool := test (bitMap n) (Z.of_nat i).

Definition getNumEntries (n : ListNode) : nat :=
  length (filter (fun i => used n i = true) (seq 0 MAX_ENTRIES)).

(** [keyArray[index]] and a store to it. *)
Definition key_at (n : ListNode) (index : Z) : res (Z * Z) :=
  if (0 <=? index) then of_option OutOfRange (keyArray n !! Z.to_nat index) else Err OutOfRange.

Definition insertAtIndex (n : ListNode) (key : Z * Z) (index keyHash : Z) : res ListNode :=
  _ ← key_at n index;
  Ok (MkListNode (ln_min n) (ln_max n) (curPtr n) (nextPtr n) (prevPtr n) (deleted n) (set (bitMap n) index)
        (<[Z.to_nat index := keyHash]> (fingerPrint n)) (verLock n) (<[Z.to_nat index := key]> (keyArray n))
        (lastScanVersion n) (pLock n) (permuter n)).

Definition updateAtIndex (n : ListNode) (value index : Z) : res ListNode :=
  '(k, _) ← key_at n index;
  Ok (MkListNode (ln_min n) (ln_max n) (curPtr n) (nextPtr n) (prevPtr n) (deleted n) (bitMap n) (fingerPrint n)
        (verLock n) (<[Z.to_nat index := (k, value)]> (keyArray n)) (lastScanVersion n) (pLock n) (permuter n)).

Definition removeFromIndex (n : ListNode) (index : Z) : ListNode := set_bitMap n (reset (bitMap n) index).

(** The loops of [getKeyIndex] over one half of the mask; a round clears a
    bit, so the number of fingerprints bounds the rounds. *)
Fixpoint check_positions (fuel : nat) (n : ListNode) (key posToCheck off : Z) : res (option Z) :=
  if posToCheck =? 0 then Ok None
  else
    match fuel with
    | O => Err NoReturn
    | S fuel' =>
        let pos := bsr posToCheck in
        '(k, _) ← key_at n (pos + off);
        if k =? key then Ok (Some (pos + off))
        else check_positions fuel' n key (Z.land posToCheck (to_u32 (Z.lnot (Z.shiftl 1 pos)))) off
    end.

(** [posToCheck_64]: the slots in use with the fingerprint. *)
Definition candidates (n : ListNode) (keyHash : Z) : Z :=
  Z.land (cmpeq_mask (fingerPrint n) keyHash) (to_ulong (bitMap n)).

Definition getKeyIndex (n : ListNode) (key keyHash : Z) : res Z :=
  r ← check_positions (length (fingerPrint n)) n key (to_u32 (candidates n keyHash)) 0;
  match r with
  | Some pos => Ok pos
  | None =>
      r2 ← check_positions (length (fingerPrint n)) n key (to_u32 (Z.shiftr (candidates n keyHash) 32)) 32;
      Ok (default (-1) r2)
  end.

(** [-1]: the key exists; [-2]: no free slot. *)
Definition getFreeIndex (n : ListNode) (key keyHash : Z) : res Z :=
  let numEntries := getNumEntries n in
  exists_ ← (if (numEntries =? 0)%nat then Ok false else i ← getKeyIndex n key keyHash; Ok (negb (i =? -1)));
  if (exists_ : bool) then Ok (-1)
  else
    let freeIndexMask := to_u64 (Z.lnot (to_ulong (bitMap n))) in
    if freeIndexMask =? 0 then Ok (-2)
    else if negb (to_u32 freeIndexMask =? 0) then Ok (bsf (to_u32 freeIndexMask))
    else Ok (bsf (to_u32 (Z.shiftr freeIndexMask 32)) + 32).

(** * Operations on one node *)

Definition checkRange (n : ListNode) (key : Z) : bool := (ln_min n <=? key) && (key <? ln_max n).

Definition node_update (n : ListNode) (key value : Z) : res (bool * ListNode) :=
  index ← getKeyIndex n key (getKeyFingerPrint key);
  if index =? -1 then Ok (false, n)
  else n' ← updateAtIndex n value (to_u8 index); Ok (true, n').

Definition node_probe (n : ListNode) (key : Z) : res bool :=
  index ← getKeyIndex n key (getKeyFingerPrint key);
  Ok (negb (index =? -1)).

(** [None]: the key is not there and [value] is not written. *)
Definition node_lookup (n : ListNode) (key : Z) : res (option Z) :=
  index ← getKeyIndex n key (getKeyFingerPrint key);
  if index =? -1 then Ok None else '(_, v) ← key_at n index; Ok (Some v).

(** * Scans *)

Section scan.
Context `{StdSort}.

(** The keys in use with their slots, and the same in the order of
    [operator<] on pairs. *)
Definition raw_slots (n : ListNode) : list (Z * Z) :=
  omap (fun i => if used n i then (fun kv => (kv.1, Z.of_nat i)) <$> keyArray n !! i else None) (seq 0 MAX_ENTRIES).
Definition sorted_slots (n : ListNode) : list (Z * Z) := std_sort (fun p => p.1 * 256 + p.2) (raw_slots n).

(** [false]: the permuter's lock is taken. *)
Definition generatePermuter (n : ListNode) (writeVersion genId : Z) : res (bool * ListNode) :=
  '(v, w) ← write_lock (pLock n) genId;
  if v =? 0 then Ok (false, n)
  else if writeVersion =? lastScanVersion n then
    Ok (true, set_scan n (lastScanVersion n) (write_unlock w) (permuter n))
  else
    let perm := snd <$> sorted_slots n in
    Ok (true, set_scan n writeVersion (write_unlock w) (perm ++ drop (length perm) (permuter n))).

(** The [do] loop; [fuel] bounds its rounds. *)
Fixpoint lower_bound_loop (fuel : nat) (n : ListNode) (key lower upper : Z) : res Z :=
  match fuel with
  | O => Err NoReturn
  | S fuel' =>
      let mid := (upper - lower) / 2 + lower in
      actualMid ← of_option OutOfRange (permuter n !! Z.to_nat mid);
      '(k, _) ← key_at n actualMid;
      if key <? k then
        if lower <? mid then lower_bound_loop fuel' n key lower mid else Ok (to_u8 lower)
      else if k <? key then
        if mid + 1 <? upper then lower_bound_loop fuel' n key (mid + 1) upper else Ok (to_u8 (mid + 1))
      else Ok mid
  end.

Definition permuterLowerBound (n : ListNode) (key : Z) : res Z :=
  lower_bound_loop (S MAX_ENTRIES) n key 0 (Z.of_nat (getNumEntries n)).

(** The values at the permuter's positions [slots]. *)
Definition values_at (n : ListNode) (slots : list nat) : res (list Z) :=
  mapM (fun i => p ← of_option OutOfRange (permuter n !! i); '(_, v) ← key_at n p; Ok v) slots.

(** [None]: the permuter's lock is taken and the code spins.  The result is
    whether the scan is over, the values found so far, and the node. *)
Definition node_scan (n : ListNode) (startKey : Z) (range : nat) (rangeVector : list Z) (writeVersion genId : Z)
  : res (option (bool * list Z * ListNode)) :=
  if getVaddr (nextPtr n) =? 0 then Ok (Some (true, rangeVector, n))
  else
    _ ← assert_ (bool_decide (length rangeVector < range)%nat);
    let todo := (range - length rangeVector)%nat in
    '(ready, n1) ← (if lastScanVersion n <? writeVersion then generatePermuter n writeVersion genId else Ok (true, n));
    if negb ready then Ok None
    else
      startIndex ← (if ln_min n1 <? startKey then permuterLowerBound n1 startKey else Ok 0);
      let s := Z.to_nat (to_u8 startIndex) in
      vs ← values_at n1 (seq s (Nat.min todo (getNumEntries n1 - s)));
      let vec := rangeVector ++ vs in
      Ok (Some (bool_decide (length vec = range), vec, n1)).
End scan.

(** * Recovery of a node *)

Definition recoverNode (n : ListNode) (min_key : Z) : res ListNode :=
  b ← foldl (fun acc i => b ← acc; '(k, _) ← key_at n (Z.of_nat i);
               Ok (if min_key <=? k then reset b (Z.of_nat i) else b))
        (Ok (bitMap n)) (seq 0 MAX_ENTRIES);
  Ok (set_bitMap n b).

(** One round of [recoverMergingNode]; [cur] is the bitmap at the start. *)
Definition recover_slot (cur : bitset) (dn : ListNode) (n : ListNode) (i : nat) : res ListNode :=
  '(key, val) ← key_at dn (Z.of_nat i);
  let exist := test cur (Z.of_nat i) && bool_decide (key ∈ (keyArray n).*1) in
  let idx := if test cur (Z.of_nat i) then -1 else Z.of_nat i in
  if exist then Ok n else insertAtIndex n (key, val) (to_u8 idx) (getKeyFingerPrint key).

Definition recoverMergingNode (n dn : ListNode) : res ListNode :=
  foldl (fun acc i => m ← acc; recover_slot (bitMap n) dn m i) (Ok n) (seq 0 MAX_ENTRIES).
