(* ===== verification/ListNodeFacts.v ===== *)
(** A data node of PACTree represents a finite map.

    [slots] are the used and free places of a node, [entries] its pairs;
    [node_ok] is the node's invariant.  The bit-parallel searches are shown to
    find what a plain search over the slots would. *)

From S2P Require Import Prelude NodeBits VersionedLock ListNode.

Local Open Scope Z_scope.

(** * Slots *)

Definition slots (n : ListNode) : list (option (Z * Z)) :=
  imap (fun i kv => if used n i then Some kv else None) (keyArray n).
Definition entries (n : ListNode) : list (Z * Z) := omap id (slots n).

(** The pairs of a list of slots when one of them changes. *)
Lemma omap_fill {A} (l : list (option A)) i x : l !! i = Some None -> omap id (<[i := Some x]> l) ≡ₚ x :: omap id l.
Proof.
  revert i. induction l as [|o l IH]; intros [|i] Hi; cbn in *; [done..| |].
  - injection Hi as ->. done.
  - destruct o as [y|]; cbn; [rewrite IH by done; apply Permutation_swap|by apply IH].
Qed.

Lemma omap_free {A} (l : list (option A)) i x : l !! i = Some (Some x) -> omap id l ≡ₚ x :: omap id (<[i := None]> l).
Proof.
  revert i. induction l as [|o l IH]; intros [|i] Hi; cbn in *; [done..| |].
  - injection Hi as ->. done.
  - destruct o as [y|]; cbn; [rewrite (IH i) by done; apply Permutation_swap|by apply IH].
Qed.

Lemma elem_of_omap_id {A} (l : list (option A)) x : x ∈ omap id l <-> exists i, l !! i = Some (Some x).
Proof.
  rewrite list_elem_of_omap. split.
  - intros (o & Ho & Hx). cbn in Hx. subst o. by apply list_elem_of_lookup in Ho.
  - intros [i Hi]. exists (Some x). split; [by eapply list_elem_of_lookup_2|done].
Qed.

Lemma nodup_slot {A} (f : A -> Z) (l : list (option A)) i j x y : NoDup (f <$> omap id l) ->
  l !! i = Some (Some x) -> l !! j = Some (Some y) -> f x = f y -> i = j.
Proof.
  revert i j. induction l as [|o l IH]; intros i j Hn Hi Hj E; [done|].
  destruct o as [z|]; cbn in Hn.
  - apply NoDup_cons in Hn as [Hz Hn].
    assert (forall w k, l !! k = Some (Some w) -> f w <> f z) as Hw.
    { intros w k Hk Ew. apply Hz. rewrite <- Ew. apply list_elem_of_fmap_2, elem_of_omap_id. by exists k. }
    destruct i as [|i], j as [|j]; cbn in Hi, Hj; [done| | |f_equal; by eapply IH].
    + injection Hi as ->. by apply Hw in Hj.
    + injection Hj as ->. apply Hw in Hi. congruence.
  - destruct i as [|i], j as [|j]; cbn in Hi, Hj; [done..|]. f_equal. by eapply IH.
Qed.

Lemma used_testbit n i : (i < 64)%nat -> used n i = Z.testbit (bits0 (bitMap n)) (Z.of_nat i).
Proof.
  intros Hi. unfold used, test. rewrite (proj2 (Z.ltb_lt _ _)) by lia. apply testBit_spec. lia.
Qed.

Lemma slots_lookup n i : slots n !! i = (fun kv => if used n i then Some kv else None) <$> keyArray n !! i.
Proof. apply list_lookup_imap. Qed.

Lemma slots_length n : length (slots n) = length (keyArray n).
Proof. apply length_imap. Qed.

Lemma slot_used n i kv : slots n !! i = Some (Some kv) <-> keyArray n !! i = Some kv /\ used n i = true.
Proof.
  rewrite slots_lookup. destruct (keyArray n !! i) as [x|]; cbn; [|naive_solver].
  destruct (used n i); naive_solver.
Qed.

(** * The invariant of a node *)

Record node_ok (n : ListNode) : Prop := {
  no_keys : length (keyArray n) = MAX_ENTRIES;
  no_prints : length (fingerPrint n) = MAX_ENTRIES;
  no_perm : length (permuter n) = MAX_ENTRIES;
  no_bits : 0 <= bits0 (bitMap n) < 2 ^ 64;
  no_fp : forall i kv, slots n !! i = Some (Some kv) -> fingerPrint n !! i = Some (getKeyFingerPrint kv.1);
  no_nodup : NoDup (entries n).*1;
}.

Lemma node_slot_lt n i o : node_ok n -> slots n !! i = Some o -> (i < 64)%nat.
Proof. intros Hn Hi%lookup_lt_Some. by rewrite slots_length, (no_keys _ Hn) in Hi. Qed.

Lemma node_slot_some n i : node_ok n -> (i < 64)%nat -> exists o, slots n !! i = Some o.
Proof. intros Hn Hi. apply lookup_lt_is_Some_2. by rewrite slots_length, (no_keys _ Hn). Qed.

Lemma key_at_nat n (i : nat) : key_at n (Z.of_nat i) = of_option OutOfRange (keyArray n !! i).
Proof. unfold key_at. rewrite (proj2 (Z.leb_le _ _)) by lia. by rewrite Nat2Z.id. Qed.

(** * Finding a key *)

(** Clearing the highest bit. *)
Lemma clear_top p : 0 < p < 2 ^ 32 -> let q := Z.land p (to_u32 (Z.lnot (Z.shiftl 1 (bsr p)))) in
  0 <= q < 2 ^ bsr p /\ forall i, 0 <= i -> Z.testbit q i = negb (bsr p =? i) && Z.testbit p i.
Proof.
  intros Hp q. assert (0 <= bsr p < 32) as Hb by (split; [apply Z.log2_nonneg|apply Z.log2_lt_pow2; lia]).
  assert (forall i, 0 <= i -> Z.testbit q i = negb (bsr p =? i) && Z.testbit p i) as Hq.
  { intros i Hi. unfold q, to_u. rewrite Z.land_spec, Z.testbit_mod_pow2, Z.lnot_spec by lia.
    rewrite Z.shiftl_1_l, Z.pow2_bits_eqb by lia. destruct (Z.ltb_spec i 32).
    - cbn. by rewrite andb_comm.
    - rewrite (testbit_high p i 32) by lia. by rewrite !andb_false_r. }
  split; [|exact Hq].
  assert (0 <= q) as Hn by (apply Z.land_nonneg; lia). split; [done|].
  destruct (decide (q = 0)) as [->|Hnz]; [apply Z.pow_pos_nonneg; lia|]. apply Z.log2_lt_pow2; [lia|].
  destruct (decide (Z.log2 q < bsr p)); [done|]. exfalso.
  assert (Z.testbit q (Z.log2 q) = true) as Ht by (apply Z.bit_log2; lia).
  rewrite Hq in Ht by apply Z.log2_nonneg. apply andb_true_iff in Ht as [Hne Ht].
  destruct (Z.eqb_spec (bsr p) (Z.log2 q)) as [|Hd]; [done|].
  destruct (bsr_spec p) as [_ Hhi]; [lia|]. rewrite Hhi in Ht by lia. done.
Qed.

Definition position (n : ListNode) (key pos off i v : Z) : Prop :=
  0 <= i /\ Z.testbit pos i = true /\ keyArray n !! Z.to_nat (i + off) = Some (key, v).

Lemma check_positions_spec n key off : 0 <= off -> forall fuel pos, 0 <= pos < 2 ^ 32 -> 0 <= pos < 2 ^ Z.of_nat fuel ->
  (forall i, 0 <= i -> Z.testbit pos i = true -> is_Some (keyArray n !! Z.to_nat (i + off))) ->
  (exists i v, position n key pos off i v /\ check_positions fuel n key pos off = Ok (Some (i + off))) \/
  ((forall i v, ~ position n key pos off i v) /\ check_positions fuel n key pos off = Ok None).
Proof.
  intros Hoff. induction fuel as [|fuel IH]; intros pos Hw Hp Hk.
  { assert (pos = 0) as -> by (cbn in Hp; lia). right. split; [|done].
    intros i v (_ & Hb & _). by rewrite Z.bits_0 in Hb. }
  cbn [check_positions]. destruct (Z.eqb_spec pos 0) as [->|Hnz].
  { right. split; [|done]. intros i v (_ & Hb & _). by rewrite Z.bits_0 in Hb. }
  destruct (bsr_spec pos) as [Hb _]; [lia|]. assert (0 <= bsr pos) as Hb0 by apply Z.log2_nonneg.
  destruct (Hk _ Hb0 Hb) as [[k v] Hkv]. unfold key_at. rewrite (proj2 (Z.leb_le _ _)) by lia. rewrite Hkv.
  cbn [of_option mbind res_bind]. destruct (Z.eqb_spec k key) as [->|Hne].
  { left. by exists (bsr pos), v. }
  destruct (clear_top pos) as [Hq Hqb]; [lia|]. set (q := Z.land _ _) in *.
  assert (forall i, 0 <= i -> Z.testbit q i = true -> Z.testbit pos i = true) as Hsub.
  { intros i Hi. rewrite Hqb by done. by intros [_ ?]%andb_true_iff. }
  assert (bsr pos <= Z.of_nat fuel).
  { assert (Z.log2 pos < Z.of_nat (S fuel)) by (apply Z.log2_lt_pow2; lia). unfold bsr. lia. }
  assert (2 ^ bsr pos <= 2 ^ Z.of_nat fuel) by (apply Z.pow_le_mono_r; lia).
  assert (2 ^ bsr pos <= pos) by (apply Z.log2_spec; lia).
  destruct (IH q) as [(i & w & (Hi & Hbi & Hki) & E)|[Hno E]]; [lia|lia|by intros i Hi Hbi; apply Hk; auto| |].
  - left. exists i, w. split; [|done]. split; [done|]. split; [auto|done].
  - right. split; [|done]. intros i w (Hi & Hbi & Hki). destruct (decide (i = bsr pos)) as [->|Hd]; [congruence|].
    apply (Hno i w). split; [done|]. split; [|done]. rewrite Hqb, Hbi by done. by rewrite (proj2 (Z.eqb_neq _ _)).
Qed.

Lemma candidate_bit n keyHash i : node_ok n -> 0 <= i < 64 ->
  Z.testbit (candidates n keyHash) i = true <->
  used n (Z.to_nat i) = true /\ fingerPrint n !! Z.to_nat i = Some keyHash.
Proof.
  intros Hn Hi. unfold candidates, to_ulong. rewrite Z.land_spec, cmpeq_mask_spec by lia.
  rewrite used_testbit, Z2Nat.id by lia. rewrite andb_true_iff.
  destruct (fingerPrint n !! Z.to_nat i) as [x|]; [|naive_solver]. rewrite Z.eqb_eq. naive_solver.
Qed.

(** One half of the search. *)
Lemma check_half n key keyHash off (half : Z) : node_ok n -> off = 0 \/ off = 32 ->
  (forall i, 0 <= i < 32 -> Z.testbit half i = Z.testbit (candidates n keyHash) (i + off)) -> 0 <= half < 2 ^ 32 ->
  (exists i v, slots n !! i = Some (Some (key, v)) /\ check_positions (length (fingerPrint n)) n key half off = Ok (Some (Z.of_nat i))) \/
  ((forall i v, off <= Z.of_nat i < off + 32 -> slots n !! i = Some (Some (key, v)) ->
      fingerPrint n !! i <> Some keyHash) /\ check_positions (length (fingerPrint n)) n key half off = Ok None).
Proof.
  intros Hn Hoff Hbits Hh.
  assert (forall i, 0 <= i -> Z.testbit half i = true ->
    0 <= i + off < 64 /\ used n (Z.to_nat (i + off)) = true /\ fingerPrint n !! Z.to_nat (i + off) = Some keyHash) as Hb.
  { intros i Hi Hbi. destruct (decide (i < 32)) as [Hlt|Hge]; [|by rewrite (testbit_high half i 32) in Hbi by lia].
    rewrite Hbits in Hbi by lia. split; [lia|]. apply candidate_bit; [done|lia|done]. }
  destruct (check_positions_spec n key off) with (fuel := length (fingerPrint n)) (pos := half)
    as [(i & v & (Hi & Hbi & Hki) & E)|[Hno E]]; [lia|lia|rewrite (no_prints _ Hn); unfold MAX_ENTRIES; lia| | |].
  - intros i Hi Hbi. destruct (Hb i Hi Hbi) as (Hr & _). apply lookup_lt_is_Some_2. rewrite (no_keys _ Hn). unfold MAX_ENTRIES. lia.
  - left. destruct (Hb i Hi Hbi) as (Hr & Hu & _). exists (Z.to_nat (i + off)), v. rewrite Z2Nat.id by lia.
    split; [|done]. by apply slot_used.
  - right. split; [|done]. intros i v Hi [Hk Hu]%slot_used Hf. apply (Hno (Z.of_nat i - off) v).
    split; [lia|]. replace (Z.of_nat i - off + off) with (Z.of_nat i) by lia. rewrite Nat2Z.id. split; [|done].
    rewrite Hbits by lia. replace (Z.of_nat i - off + off) with (Z.of_nat i) by lia.
    apply candidate_bit; [done|lia|]. by rewrite Nat2Z.id.
Qed.

Lemma getKeyIndex_hash n key h : node_ok n ->
  (exists i v, slots n !! i = Some (Some (key, v)) /\ getKeyIndex n key h = Ok (Z.of_nat i)) \/
  ((forall i v, slots n !! i = Some (Some (key, v)) -> fingerPrint n !! i <> Some h) /\ getKeyIndex n key h = Ok (-1)).
Proof.
  intros Hn. unfold getKeyIndex. generalize (check_half n key h 0 (to_u32 (candidates n h)) Hn).
  generalize (check_half n key h 32 (to_u32 (Z.shiftr (candidates n h) 32)) Hn).
  generalize (check_positions (length (fingerPrint n)) n key (to_u32 (candidates n h)) 0) as lo.
  generalize (check_positions (length (fingerPrint n)) n key (to_u32 (Z.shiftr (candidates n h) 32)) 32) as hi. intros hi lo Rhi Rlo.
  destruct Rlo as [(i & v & Hi & E)|[Hlo E]]; [by left| |apply to_u_range; lia| |].
  { intros i Hi. rewrite Z.add_0_r. by apply halves_bits. }
  { left. exists i, v. rewrite E. done. }
  rewrite E. cbn [mbind res_bind].
  destruct Rhi as [(i & v & Hi & E2)|[Hhi E2]]; [by right| |apply to_u_range; lia| |].
  { intros i Hi. by apply halves_bits. }
  { left. exists i, v. rewrite E2. done. }
  right. rewrite E2. split; [|done]. intros i v Hi. pose proof (node_slot_lt _ _ _ Hn Hi).
  destruct (decide (i < 32)%nat); [eapply (Hlo i v)|eapply (Hhi i v)]; lia || done.
Qed.

Lemma getKeyIndex_spec n key : node_ok n ->
  (exists i v, slots n !! i = Some (Some (key, v)) /\ getKeyIndex n key (getKeyFingerPrint key) = Ok (Z.of_nat i)) \/
  (key ∉ (entries n).*1 /\ getKeyIndex n key (getKeyFingerPrint key) = Ok (-1)).
Proof.
  intros Hn. destruct (getKeyIndex_hash n key (getKeyFingerPrint key) Hn) as [?|[Hno E]]; [by left|right].
  split; [|exact E]. intros ([k v] & -> & Hin)%list_elem_of_fmap.
  apply elem_of_omap_id in Hin as [i Hi]. exact (Hno i v Hi (no_fp _ Hn i _ Hi)).
Qed.

(** * Counting and free slots *)

Lemma count_used (u : nat -> bool) (l : list (Z * Z)) :
  length (omap id (imap (fun i kv => if u i then Some kv else None) l)) =
  length (filter (fun i => u i = true) (seq 0 (length l))).
Proof.
  revert u. induction l as [|kv l IH]; intros u; [done|]. cbn [imap length seq].
  rewrite <- fmap_S_seq, filter_cons.
  assert (length (omap id (imap (fun i x => if u (S i) then Some x else None) l)) =
    length (filter (fun i => u i = true) (S <$> seq 0 (length l)))) as E.
  { rewrite (IH (fun i => u (S i))). rewrite filter_fmap, length_fmap. done. }
  destruct (u 0%nat) eqn:E0; cbn; [rewrite decide_True by done; cbn; f_equal|rewrite decide_False by done]; exact E.
Qed.

Lemma getNumEntries_spec n : node_ok n -> getNumEntries n = length (entries n).
Proof. intros Hn. unfold getNumEntries. rewrite <- (no_keys _ Hn). symmetry. apply count_used. Qed.

Lemma entries_le n : node_ok n -> (length (entries n) <= 64)%nat.
Proof.
  intros Hn. rewrite <- getNumEntries_spec by done. unfold getNumEntries. etrans; [apply length_filter|].
  by rewrite length_seq.
Qed.

Lemma free_mask_bit n i : node_ok n -> (i < 64)%nat ->
  Z.testbit (to_u64 (Z.lnot (to_ulong (bitMap n)))) (Z.of_nat i) = negb (used n i).
Proof.
  intros Hn Hi. rewrite lnot_u64_spec by (apply (no_bits _ Hn) || lia). rewrite used_testbit by done.
  by rewrite (proj2 (Z.ltb_lt _ _)) by lia.
Qed.

Lemma all_used n i : (getNumEntries n = MAX_ENTRIES)%nat -> (i < MAX_ENTRIES)%nat -> used n i = true.
Proof.
  unfold getNumEntries. intros E Hi.
  assert (forall (l : list nat), length (filter (fun i => used n i = true) l) = length l -> forall j, j ∈ l -> used n j = true) as Hall.
  { induction l as [|a l IH]; intros El j Hj; [by apply elem_of_nil in Hj|]. rewrite filter_cons in El.
    pose proof (length_filter (fun i => used n i = true) l). destruct (decide (used n a = true)) as [Ha|Ha]; cbn in El.
    - apply elem_of_cons in Hj as [->|Hj]; [done|]. apply IH; [lia|done].
    - exfalso. lia. }
  apply (Hall (seq 0 MAX_ENTRIES)); [by rewrite length_seq|]. apply elem_of_seq. lia.
Qed.

Lemma filter_all {A} (P : A -> Prop) `{forall x, Decision (P x)} l : Forall P l -> filter P l = l.
Proof. induction 1 as [|x l Hx _ IH]; [done|]. rewrite filter_cons, decide_True by done. by f_equal. Qed.

(** Whether the key is there, as [getFreeIndex] tests it. *)
Lemma key_exists n key : node_ok n -> exists b,
  (if (getNumEntries n =? 0)%nat then Ok false
   else i ← getKeyIndex n key (getKeyFingerPrint key); Ok (negb (i =? -1))) = Ok b /\
  (b = true <-> key ∈ (entries n).*1).
Proof.
  intros Hn. rewrite getNumEntries_spec by done. destruct (Nat.eqb_spec (length (entries n)) 0) as [E|E].
  - exists false. split; [done|]. apply nil_length_inv in E as ->. split; [done|]. by intros ?%elem_of_nil.
  - destruct (getKeyIndex_spec n key Hn) as [(i & v & Hi & Ei)|[Hno Ei]]; rewrite Ei; cbn [mbind res_bind].
    + exists true. split; [by rewrite (proj2 (Z.eqb_neq _ _)) by lia|]. split; [|done]. intros _.
      apply list_elem_of_fmap. exists (key, v). split; [done|]. apply elem_of_omap_id. by exists i.
    + exists false. split; [done|]. split; [done|by intros ?].
Qed.

Lemma no_free_bits n : node_ok n -> to_u64 (Z.lnot (to_ulong (bitMap n))) = 0 -> length (entries n) = MAX_ENTRIES.
Proof.
  intros Hn Ez. rewrite <- getNumEntries_spec by done. unfold getNumEntries.
  rewrite <- (length_seq MAX_ENTRIES 0) at 2. f_equal. apply filter_all, Forall_forall.
  intros i Hi%elem_of_seq. unfold MAX_ENTRIES in Hi.
  assert (Z.testbit (to_u64 (Z.lnot (to_ulong (bitMap n)))) (Z.of_nat i) = false) as Hf by (by rewrite Ez, Z.bits_0).
  rewrite free_mask_bit in Hf by (done || lia). by destruct (used n i).
Qed.

Lemma getFreeIndex_first n key : node_ok n ->
  (key ∈ (entries n).*1 /\ getFreeIndex n key (getKeyFingerPrint key) = Ok (-1)) \/
  (key ∉ (entries n).*1 /\
    ((length (entries n) = MAX_ENTRIES /\ getFreeIndex n key (getKeyFingerPrint key) = Ok (-2)) \/
     exists i, slots n !! i = Some None /\ (forall j, (j < i)%nat -> used n j = true) /\
       getFreeIndex n key (getKeyFingerPrint key) = Ok (Z.of_nat i))).
Proof.
  intros Hn. unfold getFreeIndex. destruct (key_exists n key Hn) as (b & -> & Hb).
  cbn [mbind res_bind]. destruct b; [left; split; [by apply Hb|done]|right].
  split; [intros Hin; by apply Hb in Hin|]. pose proof (no_free_bits n Hn) as Hfull.
  pose proof (fun i => free_mask_bit n i Hn) as Hbit.
  set (m := to_u64 (Z.lnot (to_ulong (bitMap n)))) in *. assert (0 <= m < 2 ^ 64) as Hm by (apply to_u_range; lia).
  destruct (Z.eqb_spec m 0) as [Ez|Enz]; [left; split; [by apply Hfull|done]|right].
  pose proof (bsf_halves m) as Hk. cbv zeta in Hk.
  set (k := if negb (to_u32 m =? 0) then _ else _) in Hk. destruct Hk as (Hk & Hbk & Hlow); [lia|].
  exists (Z.to_nat k). rewrite Z2Nat.id by lia. split; [|split].
  - rewrite slots_lookup. rewrite <- (Z2Nat.id k), Hbit in Hbk by lia.
    destruct (lookup_lt_is_Some_2 (keyArray n) (Z.to_nat k)) as [kv ->];
      [rewrite (no_keys _ Hn); unfold MAX_ENTRIES; lia|]. cbn. by destruct (used n (Z.to_nat k)).
  - intros j Hj. pose proof (Hlow (Z.of_nat j) ltac:(lia)) as Hf. rewrite Hbit in Hf by lia. by destruct (used n j).
  - unfold k. by destruct (negb (to_u32 m =? 0)).
Qed.

Lemma getFreeIndex_spec n key : node_ok n ->
  (key ∈ (entries n).*1 /\ getFreeIndex n key (getKeyFingerPrint key) = Ok (-1)) \/
  (key ∉ (entries n).*1 /\
    ((length (entries n) = MAX_ENTRIES /\ getFreeIndex n key (getKeyFingerPrint key) = Ok (-2)) \/
     exists i, slots n !! i = Some None /\ getFreeIndex n key (getKeyFingerPrint key) = Ok (Z.of_nat i))).
Proof. intros Hn. destruct (getFreeIndex_first n key Hn) as [?|[? [?|(i & ? & _ & ?)]]]; [by left|by right; split; [|left]|]. right. split; [done|]. right. by exists i. Qed.

(** * Changing a slot *)

(** What the operations on slots leave alone. *)
Record frame (n n' : ListNode) : Prop := {
  fr_min : ln_min n' = ln_min n;
  fr_max : ln_max n' = ln_max n;
  fr_cur : curPtr n' = curPtr n;
  fr_next : nextPtr n' = nextPtr n;
  fr_prev : prevPtr n' = prevPtr n;
  fr_deleted : deleted n' = deleted n;
  fr_lock : verLock n' = verLock n;
  fr_scan : lastScanVersion n' = lastScanVersion n;
  fr_plock : pLock n' = pLock n;
  fr_perm : permuter n' = permuter n;
}.

Lemma frame_refl n : frame n n.
Proof. by split. Qed.

Lemma frame_trans n1 n2 n3 : frame n1 n2 -> frame n2 n3 -> frame n1 n3.
Proof. intros [] []. split; congruence. Qed.

Lemma slots_ext n n' i o : length (keyArray n') = length (keyArray n) ->
  (i < length (keyArray n))%nat ->
  (slots n' !! i = Some o) -> (forall j, j <> i -> slots n' !! j = slots n !! j) -> slots n' = <[i := o]> (slots n).
Proof.
  intros El Hi Ho Hj. apply list_eq. intros j. destruct (decide (j = i)) as [->|Hne].
  - rewrite list_lookup_insert_eq by (by rewrite slots_length). done.
  - rewrite list_lookup_insert_ne by done. by apply Hj.
Qed.

Lemma used_set n i j : (i < 64)%nat -> (j < 64)%nat ->
  test (set (bitMap n) (Z.of_nat i)) (Z.of_nat j) = bool_decide (i = j) || used n j.
Proof.
  intros Hi Hj. unfold used, test, set. rewrite !(proj2 (Z.ltb_lt _ _)) by lia. cbn [bits0].
  rewrite !testBit_spec, setBit_spec by lia. f_equal.
  case_bool_decide; [subst; apply Z.eqb_refl|apply Z.eqb_neq; lia].
Qed.

Lemma used_reset n i j : 0 <= bits0 (bitMap n) < 2 ^ 64 -> (i < 64)%nat -> (j < 64)%nat ->
  test (reset (bitMap n) (Z.of_nat i)) (Z.of_nat j) = bool_decide (i <> j) && used n j.
Proof.
  intros Hb Hi Hj. unfold used, test, reset. rewrite !(proj2 (Z.ltb_lt _ _)) by lia. cbn [bits0].
  rewrite !testBit_spec, resetBit_spec by lia. f_equal.
  case_bool_decide; [rewrite (proj2 (Z.eqb_neq _ _)) by lia; done|].
  by rewrite (proj2 (Z.eqb_eq (Z.of_nat i) (Z.of_nat j))) by lia.
Qed.

(** Bookkeeping of [no_fp] and [no_nodup] after slot [i] changed to [o]. *)
Lemma slot_change n n' i o : node_ok n -> slots n' = <[i := o]> (slots n) -> (i < 64)%nat ->
  length (keyArray n') = MAX_ENTRIES -> length (permuter n') = MAX_ENTRIES ->
  0 <= bits0 (bitMap n') < 2 ^ 64 -> length (fingerPrint n') = MAX_ENTRIES ->
  (forall j, j <> i -> fingerPrint n' !! j = fingerPrint n !! j) ->
  (forall kv, o = Some kv -> fingerPrint n' !! i = Some (getKeyFingerPrint kv.1)) ->
  NoDup (entries n').*1 -> node_ok n'.
Proof.
  intros Hn Es Hi Lk Lp Hb Lf Hf Hfi Hnd. split; try done.
  intros j kv Hj. rewrite Es in Hj. apply list_lookup_insert_Some in Hj as [(<- & -> & _)|(Hne & Hj)]; [by apply Hfi|].
  rewrite Hf by done. by apply (no_fp _ Hn).
Qed.

Lemma insertAtIndex_spec n kv i : node_ok n -> slots n !! i = Some None -> kv.1 ∉ (entries n).*1 ->
  exists n', insertAtIndex n kv (Z.of_nat i) (getKeyFingerPrint kv.1) = Ok n' /\ node_ok n' /\ frame n n' /\
    slots n' = <[i := Some kv]> (slots n) /\ entries n' ≡ₚ kv :: entries n.
Proof.
  intros Hn Hs Hk. pose proof (node_slot_lt _ _ _ Hn Hs) as Hi. pose proof (no_keys _ Hn) as Lk.
  destruct (lookup_lt_is_Some_2 (keyArray n) i) as [x Hx]; [by rewrite Lk|].
  unfold insertAtIndex. rewrite key_at_nat, Hx. cbn [of_option mbind res_bind]. eexists. split; [done|].
  set (n' := MkListNode _ _ _ _ _ _ _ _ _ _ _ _ _).
  assert (slots n' = <[i := Some kv]> (slots n)) as Es.
  { apply slots_ext; [unfold n'; cbn; by rewrite length_insert|by rewrite Lk| |].
    - rewrite slots_lookup. unfold n' at 2. cbn [keyArray]. rewrite Nat2Z.id, list_lookup_insert_eq by (by rewrite Lk).
      cbn. unfold used, n'. cbn [bitMap]. rewrite used_set by done. by rewrite bool_decide_true.
    - intros j Hj. rewrite !slots_lookup. unfold n' at 2. cbn [keyArray]. rewrite Nat2Z.id, list_lookup_insert_ne by done.
      destruct (keyArray n !! j) as [y|] eqn:Ey; [|done]. apply lookup_lt_Some in Ey. rewrite Lk in Ey.
      unfold used at 1, n'. cbn [bitMap]. rewrite used_set by done. by rewrite bool_decide_false. }
  assert (entries n' ≡ₚ kv :: entries n) as Ep by (unfold entries; rewrite Es; by apply omap_fill).
  split; [|split; [by split|done]].
  eapply slot_change; [exact Hn|exact Es|done|unfold n'; cbn; by rewrite length_insert|apply (no_perm _ Hn)| | | | |].
  - unfold n', set. cbn [bitMap]. rewrite (proj2 (Z.ltb_lt _ _)) by lia. apply setBit_range; [lia|apply (no_bits _ Hn)].
  - unfold n'. cbn. rewrite length_insert. apply (no_prints _ Hn).
  - intros j Hj. unfold n'. cbn. by rewrite Nat2Z.id, list_lookup_insert_ne.
  - intros kv' [= <-]. unfold n'. cbn. rewrite Nat2Z.id. apply list_lookup_insert_eq. by rewrite (no_prints _ Hn).
  - rewrite Ep. cbn. apply NoDup_cons. split; [done|apply (no_nodup _ Hn)].
Qed.

Lemma removeFromIndex_spec n kv i : node_ok n -> slots n !! i = Some (Some kv) ->
  let n' := removeFromIndex n (Z.of_nat i) in
  node_ok n' /\ frame n n' /\ slots n' = <[i := None]> (slots n) /\ entries n ≡ₚ kv :: entries n'.
Proof.
  intros Hn Hs n'. pose proof (node_slot_lt _ _ _ Hn Hs) as Hi. pose proof (no_keys _ Hn) as Lk.
  pose proof (no_bits _ Hn) as Hb.
  assert (slots n' = <[i := None]> (slots n)) as Es.
  { apply slots_ext; [done|by rewrite Lk| |].
    - rewrite slots_lookup. destruct (lookup_lt_is_Some_2 (keyArray n) i) as [x Hx]; [by rewrite Lk|].
      unfold n' at 2. cbn [keyArray removeFromIndex set_bitMap]. rewrite Hx. cbn. unfold used, n'. cbn [bitMap removeFromIndex set_bitMap].
      rewrite used_reset by done. by rewrite bool_decide_false by naive_solver.
    - intros j Hj. rewrite !slots_lookup. unfold n' at 2. cbn [keyArray removeFromIndex set_bitMap].
      destruct (keyArray n !! j) as [y|] eqn:Ey; [|done]. apply lookup_lt_Some in Ey. rewrite Lk in Ey.
      unfold used at 1, n'. cbn [bitMap removeFromIndex set_bitMap]. rewrite used_reset by done. by rewrite bool_decide_true. }
  assert (entries n ≡ₚ kv :: entries n') as Ep by (unfold entries; rewrite Es; by apply omap_free).
  split; [|split; [by split|done]].
  eapply slot_change; [exact Hn|exact Es|done|done|apply (no_perm _ Hn)| |apply (no_prints _ Hn)|done|done|].
  - unfold n', removeFromIndex, reset. cbn [bitMap set_bitMap]. rewrite (proj2 (Z.ltb_lt _ _)) by lia.
    cbn [bits0]. by apply resetBit_range.
  - pose proof (no_nodup _ Hn) as Hnd. rewrite Ep in Hnd. cbn in Hnd. by apply NoDup_cons in Hnd as [_ ?].
Qed.

Lemma updateAtIndex_spec n k v v' i : node_ok n -> slots n !! i = Some (Some (k, v)) ->
  exists n' rest, updateAtIndex n v' (Z.of_nat i) = Ok n' /\ node_ok n' /\ frame n n' /\
    entries n ≡ₚ (k, v) :: rest /\ entries n' ≡ₚ (k, v') :: rest.
Proof.
  intros Hn Hs. pose proof (node_slot_lt _ _ _ Hn Hs) as Hi. pose proof (no_keys _ Hn) as Lk.
  apply slot_used in Hs as Hku. destruct Hku as [Hkv Hu]. unfold updateAtIndex. rewrite key_at_nat, Hkv.
  cbn [of_option mbind res_bind]. eexists _, (omap id (<[i := None]> (slots n))). split; [done|].
  set (n' := MkListNode _ _ _ _ _ _ _ _ _ _ _ _ _).
  assert (slots n' = <[i := Some (k, v')]> (slots n)) as Es.
  { apply slots_ext; [unfold n'; cbn; by rewrite length_insert|by rewrite Lk| |].
    - apply slot_used. unfold n'. cbn [keyArray]. rewrite Nat2Z.id, list_lookup_insert_eq by (by rewrite Lk). done.
    - intros j Hj. rewrite !slots_lookup. unfold n' at 2. cbn [keyArray]. by rewrite Nat2Z.id, list_lookup_insert_ne. }
  assert (entries n ≡ₚ (k, v) :: omap id (<[i := None]> (slots n))) as Ep by (by apply omap_free).
  assert (entries n' ≡ₚ (k, v') :: omap id (<[i := None]> (slots n))) as Ep'.
  { unfold entries. rewrite Es. rewrite <- (list_insert_insert_eq (slots n) i (Some (k, v')) None).
    apply omap_fill. apply list_lookup_insert_eq. by rewrite slots_length, Lk. }
  split; [|split; [by split|done]].
  eapply slot_change; [exact Hn|exact Es|done|unfold n'; cbn; by rewrite length_insert|apply (no_perm _ Hn)|
    apply (no_bits _ Hn)|apply (no_prints _ Hn)|done| |].
  - intros kv [= <-]. cbn. apply (no_fp _ Hn i (k, v) Hs).
  - pose proof (no_nodup _ Hn) as Hnd. rewrite Ep in Hnd. rewrite Ep'. done.
Qed.

(** * The map of a node *)

Definition node_map (n : ListNode) : gmap Z Z := list_to_map (entries n).

Lemma node_map_lookup n k v : node_ok n -> node_map n !! k = Some v <-> (k, v) ∈ entries n.
Proof. intros Hn. symmetry. apply elem_of_list_to_map, (no_nodup _ Hn). Qed.

Lemma node_map_none n k : node_map n !! k = None <-> k ∉ (entries n).*1.
Proof. symmetry. apply not_elem_of_list_to_map. Qed.

Lemma slot_entry n i kv : slots n !! i = Some (Some kv) -> kv ∈ entries n.
Proof. intros Hi. apply elem_of_omap_id. by exists i. Qed.

Lemma small_index i : (i < 64)%nat -> to_u8 (Z.of_nat i) = Z.of_nat i /\ (Z.of_nat i =? -1) = false.
Proof. intros Hi. split; [apply to_u_id; lia|apply Z.eqb_neq; lia]. Qed.

Lemma node_lookup_spec n key : node_ok n -> node_lookup n key = Ok (node_map n !! key).
Proof.
  intros Hn. unfold node_lookup. destruct (getKeyIndex_spec n key Hn) as [(i & v & Hi & ->)|[Hno ->]]; cbn [mbind res_bind].
  - rewrite (proj2 (small_index i (node_slot_lt _ _ _ Hn Hi))), key_at_nat.
    rewrite (proj2 (node_map_lookup n key v Hn) (slot_entry _ _ _ Hi)).
    apply slot_used in Hi as [-> _]. done.
  - by apply node_map_none in Hno as ->.
Qed.

Lemma node_probe_spec n key : node_ok n -> node_probe n key = Ok (bool_decide (is_Some (node_map n !! key))).
Proof.
  intros Hn. unfold node_probe. destruct (getKeyIndex_spec n key Hn) as [(i & v & Hi & ->)|[Hno ->]]; cbn [mbind res_bind].
  - rewrite (proj2 (small_index i (node_slot_lt _ _ _ Hn Hi))).
    rewrite (proj2 (node_map_lookup n key v Hn) (slot_entry _ _ _ Hi)). by rewrite bool_decide_true.
  - apply node_map_none in Hno as ->. rewrite bool_decide_false; [done|]. by intros [].
Qed.

Lemma node_update_spec n key v' : node_ok n ->
  match node_map n !! key with
  | None => node_update n key v' = Ok (false, n)
  | Some v => exists n' rest, node_update n key v' = Ok (true, n') /\ node_ok n' /\ frame n n' /\
      entries n ≡ₚ (key, v) :: rest /\ entries n' ≡ₚ (key, v') :: rest
  end.
Proof.
  intros Hn. unfold node_update. destruct (getKeyIndex_spec n key Hn) as [(i & v & Hi & ->)|[Hno ->]]; cbn [mbind res_bind].
  - pose proof (node_slot_lt _ _ _ Hn Hi) as Hlt. rewrite (proj2 (small_index i Hlt)), (proj1 (small_index i Hlt)).
    rewrite (proj2 (node_map_lookup n key v Hn) (slot_entry _ _ _ Hi)).
    destruct (updateAtIndex_spec n key v v' i Hn Hi) as (n' & rest & -> & Hr). by exists n', rest.
  - by apply node_map_none in Hno as ->.
Qed.
