(* ===== verification/ListNodeScalar.v ===== *)
(** The portable slot searches of a data node ([listNode.cpp], the [#else]
    branch for other node sizes) and their equivalence with the vectorised
    ones that are compiled for 64 entries. *)

From S2P Require Import Prelude NodeBits VersionedLock ListNode ListNodeFacts.

Local Open Scope Z_scope.

(** * The portable searches *)

(** [bitMap[i] && keyHash == fingerPrint[i] && keyArray[i].first == key]. *)
Definition slot_matches (n : ListNode) (key keyHash : Z) (i : nat) : res bool :=
  if used n i then
    h ← of_option OutOfRange (fingerPrint n !! i);
    if keyHash =? h then '(k, _) ← key_at n (Z.of_nat i); Ok (k =? key) else Ok false
  else Ok false.

Fixpoint key_loop (n : ListNode) (key keyHash : Z) (numEntries : nat) (idx : list nat) (count : nat) : res Z :=
  match idx with
  | [] => Ok (-1)
  | i :: idx' =>
      found ← slot_matches n key keyHash i;
      if (found : bool) then Ok (Z.of_nat i)
      else
        let count' := if used n i then S count else count in
        if (count' =? numEntries)%nat then Ok (-1) else key_loop n key keyHash numEntries idx' count'
  end.

Definition getKeyIndex_portable (n : ListNode) (key keyHash : Z) : res Z :=
  key_loop n key keyHash (getNumEntries n) (seq 0 MAX_ENTRIES) 0.

Fixpoint free_loop (n : ListNode) (key keyHash : Z) (numEntries : nat) (idx : list nat) (freeIndex : Z) (count : nat) (keyCheckNeeded : bool)
  : res Z :=
  match idx with
  | [] => Ok freeIndex
  | i :: idx' =>
      found ← (if keyCheckNeeded then slot_matches n key keyHash i else Ok false);
      if (found : bool) then Ok (-1)
      else
        let freeIndex' := if (freeIndex =? -2) && negb (used n i) then Z.of_nat i else freeIndex in
        if used n i then
          free_loop n key keyHash numEntries idx' freeIndex' (S count) (keyCheckNeeded && negb (S count =? numEntries)%nat)
        else free_loop n key keyHash numEntries idx' freeIndex' count keyCheckNeeded
  end.

Definition getFreeIndex_portable (n : ListNode) (key keyHash : Z) : res Z :=
  free_loop n key keyHash (getNumEntries n) (seq 0 MAX_ENTRIES) (-2) 0 true.

(** * Counting used slots *)

Definition used_below (n : ListNode) (i : nat) : nat := length (filter (fun j => used n j = true) (seq 0 i)).

Lemma used_below_S n i : used_below n (S i) = if used n i then S (used_below n i) else used_below n i.
Proof.
  unfold used_below. rewrite seq_S, filter_app, length_app, filter_cons. cbn [plus]. destruct (used n i); cbn.
  - rewrite Nat.add_1_r. done.
  - by rewrite Nat.add_0_r.
Qed.

Lemma used_below_lt n i j : used n j = true -> (i <= j < MAX_ENTRIES)%nat -> (used_below n i < getNumEntries n)%nat.
Proof.
  intros Hu Hij. unfold getNumEntries. change (length (filter (fun k => used n k = true) (seq 0 MAX_ENTRIES))) with (used_below n MAX_ENTRIES).
  replace MAX_ENTRIES with (j + (MAX_ENTRIES - j))%nat at 1 by lia. replace j with (i + (j - i))%nat at 1 by lia.
  unfold used_below. rewrite !seq_app, !filter_app, !length_app. cbn [plus].
  replace (i + (j - i))%nat with j by lia. replace (MAX_ENTRIES - j)%nat with (S (MAX_ENTRIES - j - 1)) by lia.
  cbn [seq]. rewrite (filter_cons_True _ j) by done. cbn. lia.
Qed.

(** * A slot that matches *)

Lemma slot_matches_spec n key i : node_ok n -> (i < MAX_ENTRIES)%nat ->
  exists b, slot_matches n key (getKeyFingerPrint key) i = Ok b /\ (b = true <-> exists v, slots n !! i = Some (Some (key, v))).
Proof.
  intros Hn Hi. unfold slot_matches. destruct (lookup_lt_is_Some_2 (keyArray n) i) as [[k v] Hk]; [by rewrite (no_keys _ Hn)|].
  rewrite slots_lookup, Hk. cbn. destruct (used n i) eqn:Hu; [|exists false; naive_solver].
  rewrite (no_fp _ Hn i (k, v)) by (by apply slot_used). cbn [of_option mbind res_bind fst].
  rewrite key_at_nat, Hk. cbn [of_option mbind res_bind]. destruct (Z.eqb_spec k key) as [->|Hne].
  - rewrite Z.eqb_refl. exists true. naive_solver.
  - exists false. split; [by destruct (_ =? _)|naive_solver].
Qed.

Lemma slot_matches_true n key i v : node_ok n -> (i < MAX_ENTRIES)%nat -> slots n !! i = Some (Some (key, v)) ->
  slot_matches n key (getKeyFingerPrint key) i = Ok true.
Proof. intros Hn Hi Hs. destruct (slot_matches_spec n key i Hn Hi) as (b & -> & Hb). f_equal. apply Hb. by exists v. Qed.

Lemma slot_matches_false n key i : node_ok n -> (i < MAX_ENTRIES)%nat -> (forall v, slots n !! i <> Some (Some (key, v))) ->
  slot_matches n key (getKeyFingerPrint key) i = Ok false.
Proof.
  intros Hn Hi Hno. destruct (slot_matches_spec n key i Hn Hi) as (b & -> & Hb). f_equal. destruct b; [|done].
  destruct (proj1 Hb eq_refl) as [v Hv]. by apply Hno in Hv.
Qed.

Lemma key_slot n key j v : node_ok n -> slots n !! j = Some (Some (key, v)) ->
  (j < MAX_ENTRIES)%nat /\ used n j = true /\ forall i w, slots n !! i = Some (Some (key, w)) -> i = j.
Proof.
  intros Hn Hj. split; [by apply (node_slot_lt _ _ _ Hn Hj)|]. split; [by apply slot_used in Hj as [_ ?]|].
  intros i w Hi. by eapply (nodup_slot fst); [apply (no_nodup _ Hn)|..].
Qed.

(** * The loops *)

Lemma key_loop_found n key j v : node_ok n -> slots n !! j = Some (Some (key, v)) -> forall i, (i <= j)%nat ->
  key_loop n key (getKeyFingerPrint key) (getNumEntries n) (seq i (MAX_ENTRIES - i)) (used_below n i) = Ok (Z.of_nat j).
Proof.
  intros Hn Hj. destruct (key_slot n key j v Hn Hj) as (Hlt & Hu & Huniq). intros i Hi. remember (j - i)%nat as k eqn:Ek.
  revert i Hi Ek. induction k as [|k IH]; intros i Hi Ek; replace (MAX_ENTRIES - i)%nat with (S (MAX_ENTRIES - S i)) by lia; cbn [seq key_loop].
  - assert (i = j) as -> by lia. rewrite (slot_matches_true n key j v) by done. done.
  - rewrite slot_matches_false; [|done|lia|intros w Hw%Huniq; lia]. cbn [mbind res_bind].
    rewrite <- used_below_S. pose proof (used_below_lt n (S i) j Hu ltac:(lia)). rewrite (proj2 (Nat.eqb_neq _ _)) by lia.
    apply IH; lia.
Qed.

Lemma key_loop_absent n key : node_ok n -> key ∉ (entries n).*1 -> forall idx count, Forall (fun i => (i < MAX_ENTRIES)%nat) idx ->
  key_loop n key (getKeyFingerPrint key) (getNumEntries n) idx count = Ok (-1).
Proof.
  intros Hn Hno. induction idx as [|i idx IH]; intros count Hi; [done|]. apply Forall_cons in Hi as [Hi Hidx]. cbn [key_loop].
  rewrite slot_matches_false; [|done|done|].
  - cbn [mbind res_bind]. destruct (_ =? _)%nat; [done|]. by apply IH.
  - intros v Hv. apply Hno. apply (list_elem_of_fmap_2' fst _ (key, v)); [by eapply slot_entry|done].
Qed.

Lemma free_loop_found n key j v : node_ok n -> slots n !! j = Some (Some (key, v)) -> forall i f, (i <= j)%nat ->
  free_loop n key (getKeyFingerPrint key) (getNumEntries n) (seq i (MAX_ENTRIES - i)) f (used_below n i) true = Ok (-1).
Proof.
  intros Hn Hj. destruct (key_slot n key j v Hn Hj) as (Hlt & Hu & Huniq). intros i f Hi. remember (j - i)%nat as k eqn:Ek.
  revert i f Hi Ek. induction k as [|k IH]; intros i f Hi Ek; replace (MAX_ENTRIES - i)%nat with (S (MAX_ENTRIES - S i)) by lia; cbn [seq free_loop].
  - assert (i = j) as -> by lia. rewrite (slot_matches_true n key j v) by done. done.
  - rewrite slot_matches_false; [|done|lia|intros w Hw%Huniq; lia]. cbn [mbind res_bind].
    pose proof (used_below_S n i) as Es. pose proof (used_below_lt n (S i) j Hu ltac:(lia)). destruct (used n i).
    + rewrite <- Es. rewrite (proj2 (Nat.eqb_neq _ _)) by lia. apply IH; lia.
    + rewrite <- Es. apply IH; lia.
Qed.

(** The first unused slot from [idx] on. *)
Fixpoint first_unused (n : ListNode) (idx : list nat) : Z :=
  match idx with [] => -2 | i :: idx' => if used n i then first_unused n idx' else Z.of_nat i end.

Lemma free_loop_absent n key : node_ok n -> key ∉ (entries n).*1 -> forall idx f count chk, Forall (fun i => (i < MAX_ENTRIES)%nat) idx ->
  free_loop n key (getKeyFingerPrint key) (getNumEntries n) idx f count chk = Ok (if f =? -2 then first_unused n idx else f).
Proof.
  intros Hn Hno. induction idx as [|i idx IH]; intros f count chk Hi; [cbn; destruct (Z.eqb_spec f (-2)); by subst|].
  apply Forall_cons in Hi as [Hi Hidx]. cbn [free_loop first_unused].
  assert ((if chk then slot_matches n key (getKeyFingerPrint key) i else Ok false) = Ok false) as ->.
  { destruct chk; [|done]. apply slot_matches_false; [done|done|]. intros v Hv. apply Hno.
    apply (list_elem_of_fmap_2' fst _ (key, v)); [by eapply slot_entry|done]. }
  cbn [mbind res_bind]. destruct (used n i); rewrite IH by done; cbn [negb]; rewrite ?andb_false_r, ?andb_true_r; [done|].
  destruct (Z.eqb_spec f (-2)) as [->|Hf]; [by rewrite (proj2 (Z.eqb_neq _ _)) by lia|]. by rewrite (proj2 (Z.eqb_neq _ _)) by done.
Qed.

Lemma first_unused_at n i : slots n !! i = Some None -> (i < MAX_ENTRIES)%nat -> (forall j, (j < i)%nat -> used n j = true) ->
  forall k, (k <= i)%nat -> first_unused n (seq k (MAX_ENTRIES - k)) = Z.of_nat i.
Proof.
  intros Hs Hi Hu k Hk. remember (i - k)%nat as d eqn:Ed. revert k Hk Ed. induction d as [|d IH]; intros k Hk Ed;
    replace (MAX_ENTRIES - k)%nat with (S (MAX_ENTRIES - S k)) by lia; cbn [seq first_unused].
  - assert (k = i) as -> by lia. rewrite slots_lookup in Hs. destruct (keyArray n !! i); [|done]. cbn in Hs. by destruct (used n i).
  - rewrite Hu by lia. apply IH; lia.
Qed.

Lemma first_unused_none n idx : Forall (fun i => used n i = true) idx -> first_unused n idx = -2.
Proof. induction 1 as [|i idx Hi _ IH]; cbn; [done|]. by rewrite Hi. Qed.

(** C30. On a well-formed data node the vectorised searches compiled for 64 entries (compare all
    fingerprints at once, mask them with the bitmap, take the candidates of each half from the top; find the first zero
    bit of the bitmap half by half) return exactly what the portable loops return, for every key: the slot of the key or
    -1, and for an insertion -1 when the key is there, -2 when the node is full, else the first free slot. *)
Theorem vector_search_portable n key : node_ok n ->
  getKeyIndex n key (getKeyFingerPrint key) = getKeyIndex_portable n key (getKeyFingerPrint key) /\
  getFreeIndex n key (getKeyFingerPrint key) = getFreeIndex_portable n key (getKeyFingerPrint key).
Proof.
  intros Hn. assert (Forall (fun i => (i < MAX_ENTRIES)%nat) (seq 0 MAX_ENTRIES)) as Hall
    by (apply Forall_forall; intros i Hi%elem_of_seq; lia). split.
  - unfold getKeyIndex_portable. destruct (getKeyIndex_spec n key Hn) as [(i & v & Hi & ->)|[Hno ->]]; symmetry.
    + apply (key_loop_found n key i v Hn Hi 0). lia.
    + by apply key_loop_absent.
  - unfold getFreeIndex_portable. destruct (getFreeIndex_first n key Hn) as [[Hin ->]|[Hno [[Hfull ->]|(i & Hs & Hu & ->)]]]; symmetry.
    + apply list_elem_of_fmap in Hin as ([k v] & -> & Hin). apply elem_of_omap_id in Hin as [j Hj]. apply (free_loop_found n k j v Hn Hj 0). lia.
    + rewrite free_loop_absent by done. change (-2 =? -2) with true. cbv iota. f_equal. apply first_unused_none, Forall_forall. intros i Hi%elem_of_seq.
      apply all_used; [by rewrite getNumEntries_spec|lia].
    + rewrite free_loop_absent by done. change (-2 =? -2) with true. cbv iota. f_equal. apply (first_unused_at n i Hs (node_slot_lt _ _ _ Hn Hs) Hu 0). lia.
Qed.
