(* ===== verification/ListNodeScan.v ===== *)
(** Scans of one data node: the cached sort order, the binary search over it,
    and the values a scan reports. *)

From S2P Require Import Prelude NodeBits VersionedLock ListNode ListNodeFacts.

Local Open Scope Z_scope.

Section scan.
Context `{StdSort}.

(** The pairs of a node in key order. *)
Definition ordered (n : ListNode) : list (Z * Z) := sort_by fst (entries n).

(** The permuter leads to them. *)
Definition permuted (n : ListNode) : Prop :=
  forall i kv, ordered n !! i = Some kv -> exists p, permuter n !! i = Some p /\ key_at n p = Ok kv.

Lemma ordered_perm n : ordered n ≡ₚ entries n.
Proof. apply sort_by_perm. Qed.

Lemma ordered_length n : length (ordered n) = length (entries n).
Proof. by rewrite ordered_perm. Qed.

(** * Building the order *)

Lemma omap_seq {B} (u : nat -> bool) (h : nat -> Z * Z -> B) l :
  omap (fun i => if u i then h i <$> l !! i else None) (seq 0 (length l)) =
  omap id (imap (fun i x => if u i then Some (h i x) else None) l).
Proof.
  revert u h. induction l as [|x l IH]; intros u h; [done|]. cbn [length seq imap].
  rewrite <- fmap_S_seq.
  assert (forall k : list nat, omap (fun i => if u i then h i <$> (x :: l) !! i else None) (S <$> k) =
    omap (fun i => if u (S i) then h (S i) <$> l !! i else None) k) as E.
  { induction k as [|a k IHk]; [done|]. cbn. destruct (u (S a)); [|apply IHk].
    destruct (l !! a); cbn; [f_equal|]; apply IHk. }
  specialize (IH (fun i => u (S i)) (fun i => h (S i))). rewrite <- E in IH.
  cbn. destruct (u 0%nat); cbn; [f_equal|]; exact IH.
Qed.

Lemma fmap_omap_id {A B} (g : A -> B) (l : list (option A)) : g <$> omap id l = omap id (fmap g <$> l).
Proof. induction l as [|[x|] l IH]; cbn; [done|by f_equal|done]. Qed.

Definition deref (n : ListNode) (p : Z * Z) : Z * Z := default (0, 0) (keyArray n !! Z.to_nat p.2).

Lemma raw_slot n p : p ∈ raw_slots n -> deref n p ∈ entries n /\ p.1 = (deref n p).1 /\ 0 <= p.2 < 64 /\
  key_at n p.2 = Ok (deref n p).
Proof.
  unfold raw_slots. rewrite list_elem_of_omap. intros (i & Hi & Hp). apply elem_of_seq in Hi.
  destruct (used n i) eqn:Hu; [|done].
  destruct (keyArray n !! i) as [kv|] eqn:Hk; [|done]. injection Hp as <-. unfold deref. cbn [fst snd].
  rewrite key_at_nat, Nat2Z.id, Hk. cbn. split; [|split; [done|split; [unfold MAX_ENTRIES in Hi; lia|done]]].
  apply elem_of_omap_id. exists i. by apply slot_used.
Qed.

Lemma raw_entries n : node_ok n -> deref n <$> raw_slots n = entries n.
Proof.
  intros Hn. unfold raw_slots. rewrite <- (no_keys _ Hn), (omap_seq (used n) (fun i kv => (kv.1, Z.of_nat i))).
  rewrite fmap_omap_id. unfold entries, slots. f_equal. apply list_eq. intros i.
  rewrite list_lookup_fmap, !list_lookup_imap. destruct (keyArray n !! i) as [kv|] eqn:Hk; [|done]. cbn.
  destruct (used n i); [|done]. cbn. unfold deref. cbn. by rewrite Nat2Z.id, Hk.
Qed.

Lemma sorted_fmap {A B} (R : A -> A -> Prop) (S : B -> B -> Prop) (g : A -> B) l :
  (forall x y, x ∈ l -> y ∈ l -> R x y -> S (g x) (g y)) -> StronglySorted R l -> StronglySorted S (g <$> l).
Proof.
  intros Hg Hs. induction Hs as [|x l Hs IH Hx]; [constructor|]. cbn. constructor.
  - apply IH. intros a b Ha Hb. apply Hg; by right.
  - rewrite Forall_forall in Hx. apply Forall_fmap, Forall_forall. intros y Hy. cbn. apply Hg; [left|by right|by apply Hx].
Qed.

Lemma entries_inj n : node_ok n -> forall x y, x ∈ entries n -> y ∈ entries n -> x.1 = y.1 -> x = y.
Proof. intros Hn. apply nodup_key_inj, (no_nodup _ Hn). Qed.

Lemma sorted_slots_ordered n : node_ok n -> deref n <$> sorted_slots n = ordered n.
Proof.
  intros Hn. unfold sorted_slots.
  assert (forall p, p ∈ std_sort (fun p => p.1 * 256 + p.2) (raw_slots n) -> p ∈ raw_slots n) as Hin
    by (intros p; by rewrite std_sort_perm).
  apply sort_by_unique; [by apply entries_inj| |by rewrite std_sort_perm, raw_entries].
  eapply sorted_fmap; [|apply std_sort_sorted]. intros x y Hx%Hin%raw_slot Hy%Hin%raw_slot. unfold key_le. lia.
Qed.

Lemma generatePermuter_spec n v : node_ok n -> lock_free (pLock n) -> v <> lastScanVersion n ->
  exists n', generatePermuter n v 0 = Ok (true, n') /\ permuted n' /\ length (permuter n') = MAX_ENTRIES /\
    n' = set_scan n v (pLock n + 2) (permuter n').
Proof.
  intros Hn Hp Hv. unfold generatePermuter. rewrite write_lock_free by done. cbn [mbind res_bind].
  destruct Hp as [Hp Ho]. rewrite (proj2 (Z.eqb_neq _ 0)) by lia. rewrite (proj2 (Z.eqb_neq v _)) by done.
  rewrite write_unlock_held by done. eexists. split; [done|].
  assert (length (snd <$> sorted_slots n) = length (entries n)) as Hl.
  { rewrite length_fmap, <- ordered_length, <- sorted_slots_ordered by done. by rewrite length_fmap. }
  split; [|split; [|done]].
  - intros i kv Hi. change (ordered (set_scan n _ _ _)) with (ordered n) in Hi.
    rewrite <- sorted_slots_ordered in Hi by done. apply list_lookup_fmap_Some in Hi as (p & -> & Hi).
    exists p.2. cbn [permuter set_scan]. split.
    + rewrite lookup_app_l by (rewrite length_fmap; by eapply lookup_lt_Some). by rewrite list_lookup_fmap, Hi.
    + change (key_at (set_scan n _ _ _) p.2) with (key_at n p.2).
      assert (p ∈ raw_slots n) as Hin by (rewrite <- std_sort_perm; by eapply list_elem_of_lookup_2). by apply raw_slot in Hin as (_ & _ & _ & ->).
  - cbn. rewrite length_app, length_drop, Hl, (no_perm _ Hn). pose proof (entries_le n Hn). unfold MAX_ENTRIES. lia.
Qed.

(** * Searching it *)

Lemma sorted_lookup {A} (R : A -> A -> Prop) l i j x y : StronglySorted R l -> (i < j)%nat ->
  l !! i = Some x -> l !! j = Some y -> R x y.
Proof.
  intros Hs Hij Hx Hy. rewrite <- (take_drop j l) in Hs. eapply StronglySorted_app_1_elem_of; [exact Hs| |].
  - apply list_elem_of_lookup. exists i. by rewrite lookup_take_lt.
  - apply list_elem_of_lookup. exists 0%nat. by rewrite lookup_drop, Nat.add_0_r.
Qed.

Lemma ordered_lt n i j x y : node_ok n -> (i < j)%nat -> ordered n !! i = Some x -> ordered n !! j = Some y -> x.1 < y.1.
Proof.
  intros Hn Hij Hx Hy.
  assert (NoDup (ordered n).*1) as Hnd by (rewrite ordered_perm; apply (no_nodup _ Hn)).
  assert (x.1 <> y.1) as Hne.
  { intros E. assert (i = j); [|lia]. eapply NoDup_lookup; [exact Hnd| |]; rewrite list_lookup_fmap.
    - by rewrite Hx.
    - rewrite Hy. cbn. by rewrite E. }
  assert (key_le fst x y) as Hle; [|unfold key_le in Hle; lia].
  eapply (sorted_lookup (key_le fst)); [apply sort_by_sorted|exact Hij|exact Hx|exact Hy].
Qed.

(** [p] separates the keys below [key] from the others. *)
Definition separates (n : ListNode) (key : Z) (p : nat) : Prop :=
  (forall i kv, (i < p)%nat -> ordered n !! i = Some kv -> kv.1 < key) /\
  (forall i kv, (p <= i)%nat -> ordered n !! i = Some kv -> key <= kv.1).

Lemma separates_drop n key p : separates n key p -> drop p (ordered n) = filter (fun kv => key <= kv.1) (ordered n).
Proof.
  intros [Hlo Hhi]. rewrite <- (take_drop p (ordered n)) at 2. rewrite filter_app.
  rewrite filter_none, filter_all; [done| |].
  - apply Forall_forall. intros kv Hkv. apply list_elem_of_lookup in Hkv as [i Hi]. rewrite lookup_drop in Hi.
    apply (Hhi (p + i)%nat); [lia|done].
  - intros kv Hkv. apply list_elem_of_lookup in Hkv as [i Hi]. apply lookup_take_Some in Hi as [Hi Hlt].
    pose proof (Hlo i kv Hlt Hi). lia.
Qed.

Lemma lower_bound_loop_spec n key : node_ok n -> permuted n -> forall fuel lower upper,
  0 <= lower < upper -> upper <= Z.of_nat (length (ordered n)) -> upper - lower <= Z.of_nat fuel ->
  (forall i kv, Z.of_nat i < lower -> ordered n !! i = Some kv -> kv.1 < key) ->
  (forall i kv, upper <= Z.of_nat i -> ordered n !! i = Some kv -> key < kv.1) ->
  exists p, lower_bound_loop fuel n key lower upper = Ok (Z.of_nat p) /\ (p <= length (ordered n))%nat /\ separates n key p.
Proof.
  intros Hn Hp. induction fuel as [|fuel IH]; intros lower upper Hl Hu Hf Hlo Hhi; [lia|].
  cbn [lower_bound_loop]. set (mid := (upper - lower) / 2 + lower).
  assert (lower <= mid < upper) as Hm.
  { unfold mid. assert (0 <= (upper - lower) / 2 < upper - lower); [|lia].
    split; [apply Z.div_pos; lia|apply Z.div_lt; lia]. }
  pose proof (entries_le n Hn). rewrite ordered_length in Hu.
  destruct (lookup_lt_is_Some_2 (ordered n) (Z.to_nat mid)) as [kv Hkv]; [rewrite ordered_length; lia|].
  destruct (Hp _ _ Hkv) as (q & -> & Hq). cbn [of_option mbind res_bind]. rewrite Hq. cbn [mbind res_bind].
  destruct kv as [k v].
  assert (forall i x, Z.of_nat i < mid -> ordered n !! i = Some x -> x.1 < k) as Hbelow.
  { intros i x Hi Hx. apply (ordered_lt n i (Z.to_nat mid) x (k, v) Hn); [lia|done..]. }
  assert (forall i x, mid < Z.of_nat i -> ordered n !! i = Some x -> k < x.1) as Habove.
  { intros i x Hi Hx. apply (ordered_lt n (Z.to_nat mid) i (k, v) x Hn); [lia|done..]. }
  assert (forall i x, Z.of_nat i = mid -> ordered n !! i = Some x -> x.1 = k) as Hmid.
  { intros i x Hi Hx. replace (Z.to_nat mid) with i in Hkv by lia. rewrite Hkv in Hx. by injection Hx as <-. }
  destruct (Z.ltb_spec key k) as [Hlt|Hge].
  - assert (forall i x, mid <= Z.of_nat i -> ordered n !! i = Some x -> key < x.1) as Hhi'.
    { intros i x Hi Hx. destruct (decide (Z.of_nat i = mid)) as [E|]; [rewrite (Hmid i x E Hx); lia|].
      pose proof (Habove i x ltac:(lia) Hx). lia. }
    destruct (Z.ltb_spec lower mid).
    + apply IH; try done; rewrite ?ordered_length; lia.
    + exists (Z.to_nat lower). rewrite to_u_id, Z2Nat.id by lia. split; [done|]. split; [rewrite ordered_length; lia|].
      split; intros i x Hi Hx; [eapply Hlo; [|exact Hx]; lia|]. pose proof (Hhi' i x ltac:(lia) Hx). lia.
  - destruct (Z.ltb_spec k key) as [Hlt|Hge'].
    + assert (forall i x, Z.of_nat i < mid + 1 -> ordered n !! i = Some x -> x.1 < key) as Hlo'.
      { intros i x Hi Hx. destruct (decide (Z.of_nat i = mid)) as [E|]; [rewrite (Hmid i x E Hx); lia|].
        pose proof (Hbelow i x ltac:(lia) Hx). lia. }
      destruct (Z.ltb_spec (mid + 1) upper).
      * apply IH; try done; rewrite ?ordered_length; lia.
      * exists (Z.to_nat (mid + 1)). rewrite to_u_id, Z2Nat.id by lia. split; [done|]. split; [rewrite ordered_length; lia|].
        split; intros i x Hi Hx; [eapply Hlo'; [|exact Hx]; lia|]. pose proof (Hhi i x ltac:(lia) Hx). lia.
    + assert (k = key) as -> by lia. exists (Z.to_nat mid). rewrite Z2Nat.id by lia. split; [done|].
      split; [rewrite ordered_length; lia|]. split; intros i x Hi Hx.
      * pose proof (Hbelow i x ltac:(lia) Hx). lia.
      * destruct (decide (Z.of_nat i = mid)) as [E|]; [rewrite (Hmid i x E Hx); lia|].
        pose proof (Habove i x ltac:(lia) Hx). lia.
Qed.

Lemma permuterLowerBound_spec n key : node_ok n -> permuted n -> entries n <> [] ->
  exists p, permuterLowerBound n key = Ok (Z.of_nat p) /\ (p <= length (ordered n))%nat /\ separates n key p.
Proof.
  intros Hn Hp Hne. unfold permuterLowerBound. rewrite getNumEntries_spec by done.
  pose proof (entries_le n Hn). assert (0 < length (entries n))%nat by (destruct (entries n); [done|cbn; lia]).
  apply lower_bound_loop_spec; try done; rewrite ?ordered_length; unfold MAX_ENTRIES; try lia.
  intros i kv Hi Hk%lookup_lt_Some. rewrite ordered_length in Hk. lia.
Qed.

(** * The values reported *)

Lemma values_at_spec n s c : permuted n -> (s + c <= length (ordered n))%nat ->
  values_at n (seq s c) = Ok (snd <$> take c (drop s (ordered n))).
Proof.
  intros Hp. revert s. induction c as [|c IH]; intros s Hs; [done|]. cbn [seq]. unfold values_at. cbn [mapM].
  destruct (lookup_lt_is_Some_2 (ordered n) s) as [kv Hkv]; [lia|].
  destruct (Hp _ _ Hkv) as (q & -> & Hq). cbn [of_option mbind res_bind]. rewrite Hq. destruct kv as [k v].
  cbn [mbind res_bind]. specialize (IH (S s)). unfold values_at in IH. rewrite IH by lia. cbn [mbind res_bind].
  by rewrite (drop_S _ _ _ Hkv).
Qed.

(** What a scan may change. *)
Definition scanned (n n' : ListNode) : Prop :=
  n' = set_scan n (lastScanVersion n') (pLock n') (permuter n') /\ length (permuter n') = MAX_ENTRIES /\
  (pLock n' = pLock n \/ pLock n' = pLock n + 2).

Lemma node_scan_spec n startKey range vec v : node_ok n -> getVaddr (nextPtr n) <> 0 -> lock_free (pLock n) ->
  (v <= lastScanVersion n -> permuted n) -> (ln_min n < startKey -> entries n <> []) -> Forall (fun kv => ln_min n <= kv.1) (entries n) ->
  (length vec < range)%nat ->
  exists n', scanned n n' /\ permuted n' /\ lastScanVersion n' = Z.max v (lastScanVersion n) /\
    let vec' := vec ++ take (range - length vec) (snd <$> filter (fun kv => startKey <= kv.1) (ordered n)) in
    node_scan n startKey range vec v 0 = Ok (Some (bool_decide (length vec' = range), vec', n')).
Proof.
  intros Hn Hnx Hlk Hc Hne Hmin Hr. unfold node_scan. rewrite (proj2 (Z.eqb_neq _ 0)) by done.
  rewrite bool_decide_true by done. cbn [assert_ mbind res_bind].
  assert (exists n', (if lastScanVersion n <? v then generatePermuter n v 0 else Ok (true, n)) = Ok (true, n') /\
    scanned n n' /\ permuted n' /\ lastScanVersion n' = Z.max v (lastScanVersion n)) as (n' & -> & Hsc & Hp & Hv).
  { destruct (Z.ltb_spec (lastScanVersion n) v) as [Hlt|Hge].
    - destruct (generatePermuter_spec n v Hn Hlk) as (n' & E & Hp & Hl & En); [lia|].
      exists n'. split; [done|]. rewrite En. cbn. split; [|split; [by rewrite <- En|lia]].
      split; [done|]. split; [done|by right].
    - exists n. split; [done|]. split; [|split; [by apply Hc|lia]]. split; [by destruct n|]. split; [apply (no_perm _ Hn)|by left]. }
  cbn [mbind res_bind negb]. exists n'. split; [done|]. split; [done|]. split; [done|]. cbv zeta.
  destruct Hsc as (En & Hlen & _).
  assert (node_ok n') as Hn'. { rewrite En. destruct Hn. by split. }
  assert (ordered n' = ordered n /\ entries n' = entries n /\ ln_min n' = ln_min n) as (Eo & Ee & Em) by (by rewrite En).
  assert (exists p, (if ln_min n' <? startKey then permuterLowerBound n' startKey else Ok 0) = Ok (Z.of_nat p) /\
    (p <= length (ordered n'))%nat /\ separates n' startKey p) as (p & -> & Hple & Hsep).
  { destruct (Z.ltb_spec (ln_min n') startKey); [apply permuterLowerBound_spec; rewrite ?Ee; [done..|apply Hne; by rewrite <- Em]|].
    exists 0%nat. split; [done|]. split; [lia|]. split; [lia|]. intros i kv _ Hi%list_elem_of_lookup_2.
    rewrite ordered_perm, Ee in Hi. rewrite Forall_forall in Hmin. specialize (Hmin kv Hi). lia. }
  cbn [mbind res_bind]. pose proof (entries_le n' Hn'). rewrite ordered_length in Hple.
  rewrite to_u_id, Nat2Z.id by lia. rewrite getNumEntries_spec by done. rewrite values_at_spec; [|done|rewrite ordered_length; lia].
  cbn [mbind res_bind]. rewrite (separates_drop _ _ _ Hsep), Eo.
  assert (length (filter (fun kv => startKey <= kv.1) (ordered n)) = (length (entries n') - p)%nat) as El.
  { rewrite <- Eo, <- (separates_drop _ _ _ Hsep), length_drop. by rewrite ordered_length. }
  set (l := filter _ (ordered n)) in *. rewrite fmap_take.
  replace (take ((range - length vec) `min` (length (entries n') - p)) (snd <$> l)) with (take (range - length vec) (snd <$> l)); [done|].
  rewrite <- take_take. f_equal. by rewrite <- El, <- (length_fmap snd l), firstn_all.
Qed.
End scan.
