(* ===== verification/LinkedList.v ===== *)
(** The data layer of PACTree: the doubly linked list of data nodes
    ([src/PRISM/lib/pactree/src/linkedList.cpp], and from [listNode.cpp] the
    operations that touch neighbours: [split], [mergeWithNext],
    [mergeWithPrev], [insert], [remove]).

    The nodes live in a memory indexed by pointer.  An operation starts at a
    node the caller names, walks to the node whose range holds the key, locks
    it, works on it and unlocks it.  Where the code starts over because a lock
    is taken or a node was deleted, the operation returns [None]. *)

From S2P Require Import Prelude NodeBits VersionedLock ListNode.

Local Open Scope Z_scope.

(** * The operation log (common.h, Oplog.cpp) *)

Inductive Operation := OpInsert | OpRemove | OpDone.

(** [newNodeOid] is kept as the pointer built from it and [poolId]; [ts] is
    never set. *)
Record OpStruct := MkOp {
  os_op : Operation; os_hash : Z; os_key : Z; os_oldNodePtr : Z; os_newNodeOid : Z; os_newKey : Z; os_newVal : Z }.

(** * Allocation

    [pm_alloc] is [PMem::alloc] of a node ([0]: it failed), [pm_memory] what
    the block holds, [pm_alloc_log] whether [PMem::alloc] of a log entry
    succeeds next to these nodes, and [pm_hash] what the [hash] field of a new
    log entry holds, which [writeOpLog] does not set. *)
Class PMem := {
  pm_alloc : gmap Z ListNode -> Z;
  pm_alloc_log : gmap Z ListNode -> bool;
  pm_memory : Z -> ListNode;
  pm_hash : Z;
}.

(** [pmemobj_alloc]: a block no one uses, typed as an array of bytes.  A
    pointer is an offset below a pool number, and pool numbers are small:
    the sign bit is clear. *)
Class PMemOk (P : PMem) := {
  pm_heap : nat;
  pm_fresh : forall m, pm_alloc m <> 0 -> m !! pm_alloc m = None /\ getVaddr (pm_alloc m) = pm_alloc m;
  pm_sign : forall m, 0 <= pm_alloc m < 2 ^ 63;
  pm_room : forall m, (size m < pm_heap)%nat -> pm_alloc m <> 0 /\ pm_alloc_log m = true;
  pm_arrays : forall p, length (keyArray (pm_memory p)) = MAX_ENTRIES /\
    length (fingerPrint (pm_memory p)) = MAX_ENTRIES /\ length (permuter (pm_memory p)) = MAX_ENTRIES;
}.

(** The running thread, the core that [read_coreid_rdtscp] finds it on, and
    the [thread_local] counters [logCnt] (0 for a new thread). *)
Record log_context := MkLogContext { lc_thread : nat; lc_core : Z; lc_counts : gmap nat Z }.

(** [dl_log] are the entries handed to [Oplog::enqPerThreadLog], oldest first;
    [dl_pmlog] is the log area of [PMem::getOpLog], which checks no bound. *)
Record dlist := MkDlist {
  dl_nodes : gmap Z ListNode;
  headPtr : Z;
  genId : Z;
  dl_log : list OpStruct;
  dl_pmlog : gmap Z OpStruct;
  dl_context : log_context;
}.

Section list.
Context `{StdSort} `{PMem}.

Definition set_nodes (m : gmap Z ListNode) (d : dlist) : dlist :=
  MkDlist m (headPtr d) (genId d) (dl_log d) (dl_pmlog d) (dl_context d).
Definition get_node (d : dlist) (p : Z) : res ListNode :=
  if p =? 0 then Err NullDeref else of_option BadAddress (dl_nodes d !! p).
Definition put_node (p : Z) (n : ListNode) (d : dlist) : dlist := set_nodes (<[p := n]> (dl_nodes d)) d.

Definition getNext (n : ListNode) : Z := getVaddr (nextPtr n).
Definition getPrev (n : ListNode) : Z := getVaddr (prevPtr n).

Definition enqPerThreadLog (ops : OpStruct) (d : dlist) : dlist :=
  MkDlist (dl_nodes d) (headPtr d) (genId d) (dl_log d ++ [ops]) (dl_pmlog d) (dl_context d).

(** [logCnt] of the running thread. *)
Definition logCnt (d : dlist) : Z := default 0 (lc_counts (dl_context d) !! lc_thread (dl_context d)).
Definition set_logCnt (n : Z) (d : dlist) : dlist :=
  let c := dl_context d in
  MkDlist (dl_nodes d) (headPtr d) (genId d) (dl_log d) (dl_pmlog d)
    (MkLogContext (lc_thread c) (lc_core c) (<[lc_thread c := n]> (lc_counts c))).

Definition numLogsPerThread : Z := 1000.
Definition logIdx (d : dlist) : Z := numLogsPerThread * lc_core (dl_context d) + logCnt d.

(** [split] takes an index, which it does not use since its entry is
    allocated, and starts again at 0 after the last one. *)
Definition next_log (d : dlist) : dlist :=
  set_logCnt (if logCnt d + 1 =? numLogsPerThread then 0 else logCnt d + 1) d.

(** The merges write the entry at their index; they do not start again. *)
Definition write_pmlog (ops : OpStruct) (d : dlist) : dlist :=
  let d1 := set_logCnt (logCnt d + 1) d in
  MkDlist (dl_nodes d1) (headPtr d1) (genId d1) (dl_log d1) (<[logIdx d := ops]> (dl_pmlog d1)) (dl_context d1).

(** * Split *)

(** The entries of [n] from the median on, moved to the new node: the node
    and [newNumEntries]. *)
Fixpoint split_copy (n : ListNode) (median : Z) (idx : list nat) (newNode : ListNode) (newNumEntries : Z)
  : res (ListNode * Z) :=
  match idx with
  | [] => Ok (newNode, newNumEntries)
  | i :: idx' =>
      kv ← key_at n (Z.of_nat i);
      if median <=? kv.1 then
        h ← of_option OutOfRange (fingerPrint n !! i);
        newNode' ← insertAtIndex newNode kv newNumEntries h;
        split_copy n median idx' newNode' (newNumEntries + 1)
      else split_copy n median idx' newNode newNumEntries
  end.

(** The bitmap without them, [numEntries] and [removeIndex]. *)
Fixpoint split_clear (n : ListNode) (median : Z) (idx : list nat) (b : bitset) (numEntries removeIndex : Z)
  : res (bitset * Z * Z) :=
  match idx with
  | [] => Ok (b, numEntries, removeIndex)
  | i :: idx' =>
      kv ← key_at n (Z.of_nat i);
      if median <=? kv.1 then
        split_clear n median idx' (reset b (Z.of_nat i)) (numEntries - 1)
          (if removeIndex =? -1 then Z.of_nat i else removeIndex)
      else split_clear n median idx' b numEntries removeIndex
  end.

Definition split_median (n : ListNode) : res Z :=
  fst <$> of_option OutOfRange (std_sort fst (keyArray n) !! (MAX_ENTRIES / 2)%nat).

(** The new node, at [newNodePtr]. *)
Definition split_new (n : ListNode) (newNodePtr median key val keyHash : Z) : res ListNode :=
  '(n1, cnt) ← split_copy n median (seq 0 MAX_ENTRIES) (new_node (pm_memory newNodePtr)) 0;
  n2 ← (if median <=? key then insertAtIndex n1 (key, val) cnt keyHash else Ok n1);
  Ok (setMax (setPrev (setDeleted (setCur (setNext (setMin n2 median) (nextPtr n)) newNodePtr) false) (curPtr n))
        (ln_max n)).

(** The overflown node. *)
Definition split_old (n : ListNode) (newNodePtr median key val keyHash : Z) : res ListNode :=
  '(b, numEntries, removeIndex) ←
    split_clear n median (seq 0 MAX_ENTRIES) (bitMap n) (Z.of_nat (getNumEntries n)) (-1);
  let n1 := set_bitMap (setNext (setMax n median) newNodePtr) b in
  if key <? median then
    insertAtIndex n1 (key, val) (if negb (removeIndex =? -1) then removeIndex else numEntries) keyHash
  else Ok n1.

Definition split (d : dlist) (p key val keyHash : Z) : res (Z * dlist) :=
  n ← get_node d p;
  median ← split_median n;
  let d0 := next_log d in
  if negb (pm_alloc_log (dl_nodes d0)) then Err NullDeref
  else
  let newNodePtr := pm_alloc (dl_nodes d0) in
  if getVaddr newNodePtr =? 0 then Err ExitFailure
  else
    newNode ← split_new n newNodePtr median key val keyHash;
    n' ← split_old n newNodePtr median key val keyHash;
    let d1 := put_node p n' (put_node newNodePtr newNode d0) in
    nextNode ← get_node d1 (getNext newNode);
    let d2 := put_node (getNext newNode) (setPrev nextNode newNodePtr) d1 in
    Ok (newNodePtr, enqPerThreadLog (MkOp OpInsert pm_hash median (curPtr n) newNodePtr key val) d2).

(** [ListNode::insert]. *)
Definition node_insert (d : dlist) (p key value : Z) : res (bool * dlist) :=
  n ← get_node d p;
  let keyHash := getKeyFingerPrint key in
  index ← getFreeIndex n key keyHash;
  if index =? -1 then Ok (false, d)
  else if index =? -2 then
    '(newNodePtr, d1) ← split d p key value keyHash;
    newNode ← get_node d1 newNodePtr;
    nextNode ← get_node d1 (getNext newNode);
    Ok (true, put_node (getNext newNode) (setPrev nextNode newNodePtr) d1)
  else
    n' ← insertAtIndex n (key, value) (to_u8 index) keyHash;
    Ok (true, put_node p n' d).

(** * Merges *)

(** The loops that move the entries of [dn] to free slots of [n]. *)
Fixpoint merge_copy (dn : ListNode) (idx : list nat) (n : ListNode) (cur : nat) : res ListNode :=
  match idx with
  | [] => Ok n
  | i :: idx' =>
      if used dn i then
        match head (filter (fun j => used n j = false) (seq cur (MAX_ENTRIES - cur))) with
        | Some j =>
            h ← of_option OutOfRange (fingerPrint dn !! i);
            kv ← key_at dn (Z.of_nat i);
            n' ← insertAtIndex n kv (Z.of_nat j) h;
            merge_copy dn idx' n' (S j)
        | None => merge_copy dn idx' n cur
        end
      else merge_copy dn idx' n cur
  end.

(** [false]: the neighbour is locked and nothing happens. *)
Definition mergeWithNext (d : dlist) (p : Z) : res (bool * dlist) :=
  n ← get_node d p;
  let dp := getNext n in
  dn0 ← get_node d dp;
  '(v, dn) ← writeLock dn0 (genId d);
  if v =? 0 then Ok (false, d)
  else
    let d0 := write_pmlog (MkOp OpRemove pm_hash (ln_min n) (nextPtr n) dp (-1) (-1)) d in
    n1 ← merge_copy dn (seq 0 MAX_ENTRIES) n 0;
    let n2 := setNext (setMax n1 (ln_max dn)) (nextPtr dn) in
    let d1 := put_node p n2 (put_node dp (setDeleted dn true) d0) in
    next ← get_node d1 (getNext dn);
    Ok (true, put_node (getNext dn) (setPrev next (curPtr n)) d1).

Definition mergeWithPrev (d : dlist) (p : Z) : res (bool * dlist) :=
  dn ← get_node d p;
  let mp := getPrev dn in
  mn0 ← get_node d mp;
  '(v, mn) ← writeLock mn0 (genId d);
  if v =? 0 then Ok (false, d)
  else
    let d0 := write_pmlog (MkOp OpRemove pm_hash (ln_min mn) (nextPtr mn) p (-1) (-1)) d in
    n1 ← merge_copy dn (seq 0 MAX_ENTRIES) mn 0;
    let n2 := setNext (setMax n1 (ln_max dn)) (nextPtr dn) in
    let d1 := put_node mp (writeUnlock n2) d0 in
    next ← get_node d1 (getNext dn);
    Ok (true, put_node (getNext dn) (setPrev next (prevPtr dn)) d1).

(** [ListNode::remove].  [numEntries] is counted before the removal. *)
Definition node_remove (d : dlist) (p key : Z) : res (bool * dlist) :=
  n ← get_node d p;
  index ← getKeyIndex n key (getKeyFingerPrint key);
  let numEntries := getNumEntries n in
  if index =? -1 then Ok (false, d)
  else
    let d1 := put_node p (removeFromIndex n index) d in
    next ← get_node d1 (getNext n);
    if (numEntries + getNumEntries next <? MAX_ENTRIES / 2)%nat then
      '(_, d2) ← mergeWithNext d1 p; Ok (true, d2)
    else if getPrev n =? 0 then Ok (true, d1)
    else
      prev ← get_node d1 (getPrev n);
      if (numEntries + getNumEntries prev <? MAX_ENTRIES / 2)%nat then
        '(_, d2) ← mergeWithPrev d1 p; Ok (true, d2)
      else Ok (true, d1).

(** * The list *)

(** The walk to the node whose range holds the key; [fuel] bounds its steps. *)
Fixpoint find_node (fuel : nat) (d : dlist) (cur key : Z) : res Z :=
  match fuel with
  | O => Err NoReturn
  | S fuel' =>
      n ← get_node d cur;
      if key <? ln_min n then find_node fuel' d (getPrev n) key
      else if negb (checkRange n key) then find_node fuel' d (getNext n) key
      else Ok cur
  end.

Definition walk (d : dlist) (head key : Z) : res Z := find_node (S (size (dl_nodes d))) d head key.

(** Takes the write lock of the node, runs [op] and unlocks it. *)
Definition locked {A} (d : dlist) (cur key : Z) (op : dlist -> res (A * dlist)) : res (option (A * dlist)) :=
  n ← get_node d cur;
  '(v, n1) ← writeLock n (genId d);
  if v =? 0 then Ok None
  else if deleted n1 then Ok None
  else if negb (checkRange n1 key) then Ok None
  else
    '(r, d1) ← op (put_node cur n1 d);
    n2 ← get_node d1 cur;
    Ok (Some (r, put_node cur (writeUnlock n2) d1)).

Definition insert (d : dlist) (key value head : Z) : res (option (bool * dlist)) :=
  cur ← walk d head key;
  locked d cur key (fun d1 => node_insert d1 cur key value).

Definition update (d : dlist) (key value head : Z) : res (option (bool * dlist)) :=
  cur ← walk d head key;
  locked d cur key (fun d1 =>
    n ← get_node d1 cur; '(r, n') ← node_update n key value; Ok (r, put_node cur n' d1)).

Definition remove (d : dlist) (key head : Z) : res (option (bool * dlist)) :=
  cur ← walk d head key;
  locked d cur key (fun d1 => node_remove d1 cur key).

(** Reads under the version of the node. *)
Definition versioned {A} (d : dlist) (cur key : Z) (op : ListNode -> res A) : res (option A) :=
  n ← get_node d cur;
  '(v, n1) ← readLock n (genId d);
  if v =? 0 then Ok None
  else if deleted n1 then Ok None
  else if negb (checkRange n1 key) then Ok None
  else
    r ← op n1;
    Ok (if readUnlock n1 v then Some r else None).

Definition probe (d : dlist) (key head : Z) : res (option bool) :=
  cur ← walk d head key; versioned d cur key (fun n => node_probe n key).

Definition lookup (d : dlist) (key head : Z) : res (option (option Z)) :=
  cur ← walk d head key; versioned d cur key (fun n => node_lookup n key).

(** The loop of [scan] from node [cur] on. *)
Fixpoint scan_loop (fuel : nat) (d : dlist) (cur startKey : Z) (range : nat) (rangeVector : list Z)
  : res (option (list Z * dlist)) :=
  match fuel with
  | O => Err NoReturn
  | S fuel' =>
      if bool_decide (length rangeVector < range)%nat then
        n ← get_node d cur;
        '(v, n1) ← readLock n (genId d);
        if v =? 0 then Ok None
        else if deleted n1 then Ok None
        else
          r ← node_scan n1 startKey range rangeVector v (genId d);
          match r with
          | None => Ok None
          | Some (end_, vec, n2) =>
              let d1 := put_node cur n2 d in
              if negb (readUnlock n2 v) then Ok None
              else if (end_ : bool) then Ok (Some (vec, d1))
              else scan_loop fuel' d1 (getNext n2) startKey range vec
          end
      else Ok (Some (rangeVector, d))
  end.

Definition scan (d : dlist) (startKey : Z) (range : nat) (head : Z) : res (option (list Z * dlist)) :=
  cur ← walk d head startKey;
  scan_loop (S (size (dl_nodes d))) d cur startKey range [].

(** * Construction *)

Definition ULLONG_MAX : Z := 2 ^ 64 - 1.

(** A slot of the log area, zero before, marked done; [oid] is its
    [newNodeOid]. *)
Definition mark_done (i oid : Z) (d : dlist) : dlist :=
  MkDlist (dl_nodes d) (headPtr d) (genId d) (dl_log d) (<[i := MkOp OpDone 0 0 0 oid 0 0]> (dl_pmlog d)) (dl_context d).

(** [initialize]: a head with the key 0 and a tail whose bitmap is full, so
    that it is never merged.  Both allocations store their block in slot 0 of
    the log area. *)
Definition initialize : res dlist :=
  let h := pm_alloc ∅ in
  let d0 := MkDlist ∅ h 0 [] ∅ (MkLogContext 0 0 ∅) in
  if getVaddr h =? 0 then Err NullDeref
  else
    let d1 := put_node h (new_node (pm_memory h)) d0 in
    let t := pm_alloc (dl_nodes d1) in
    if getVaddr t =? 0 then Err NullDeref
    else
      let d2 := put_node t (new_node (pm_memory t)) d1 in
      hd0 ← get_node d2 h;
      let d3 := put_node h (setCur (setPrev (setNext hd0 t) 0) h) d2 in
      '(_, d4) ← node_insert d3 h 0 0;
      hd1 ← get_node d4 h;
      let d5 := put_node h (setMax (setMin hd1 0) ULLONG_MAX) d4 in
      '(_, d6) ← node_insert d5 t ULLONG_MAX 0;
      tl1 ← get_node d6 t;
      Ok (mark_done 1 0 (mark_done 0 t
           (put_node t (setCur (setPrev (setNext (setFullBitmap (setMin tl1 ULLONG_MAX)) 0) h) t) d6))).
End list.
