(* ===== verification/LinkedListInv.v ===== *)
(** The invariant of PACTree's data layer and the operations that keep every
    node in place.

    [dl_inv d l t] says that the nodes reachable from the head are the data
    nodes [l], in order, and the tail [t]: neighbours point to each other,
    their key ranges tile the key space, and each node is well formed.  The
    list represents the map [dl_map l]. *)

From S2P Require Import Prelude NodeBits VersionedLock ListNode ListNodeFacts ListNodeScan LinkedList.

Local Open Scope Z_scope.

Abbreviation node_list := (list (Z * ListNode)).

(** * Linked nodes *)

Definition next_of (L : node_list) (nxt : Z) : Z := match L with [] => nxt | (p, _) :: _ => p end.
Definition last_of (prev : Z) (L : node_list) : Z := match last L with Some (p, _) => p | None => prev end.

Fixpoint linked (prev : Z) (L : node_list) (nxt : Z) : Prop :=
  match L with
  | [] => True
  | (p, n) :: L' =>
      (p <> 0 /\ getVaddr p = p) /\ curPtr n = p /\ prevPtr n = prev /\ nextPtr n = next_of L' nxt /\ linked p L' nxt
  end.

Lemma last_of_cons prev p n L : last_of prev ((p, n) :: L) = last_of p L.
Proof. unfold last_of. destruct L as [|x L]; [done|]. rewrite last_cons. by destruct (last (x :: L)) as [[]|] eqn:E. Qed.

Lemma last_of_snoc prev L p n : last_of prev (L ++ [(p, n)]) = p.
Proof. unfold last_of. by rewrite last_snoc. Qed.

Lemma next_of_app L1 L2 nxt : next_of (L1 ++ L2) nxt = next_of L1 (next_of L2 nxt).
Proof. by destruct L1 as [|[]]. Qed.

Lemma linked_app prev L1 L2 nxt :
  linked prev (L1 ++ L2) nxt <-> linked prev L1 (next_of L2 nxt) /\ linked (last_of prev L1) L2 nxt.
Proof.
  revert prev. induction L1 as [|[p n] L1 IH]; intros prev; cbn [app linked].
  - by split; [|intros [_ ?]].
  - rewrite IH, next_of_app, last_of_cons. tauto.
Qed.

(** * Ranges *)

(** The ranges of the nodes tile the keys from [lo] to [hi]. *)
Fixpoint tiled (lo : Z) (l : node_list) (hi : Z) : Prop :=
  match l with
  | [] => lo = hi
  | (_, n) :: l' => ln_min n = lo /\ lo < ln_max n /\ tiled (ln_max n) l' hi
  end.

Lemma tiled_le lo l hi : tiled lo l hi -> lo <= hi.
Proof.
  revert lo. induction l as [|[p n] l IH]; intros lo Ht; cbn in Ht; [lia|].
  destruct Ht as (_ & Hlt & Ht). specialize (IH _ Ht). lia.
Qed.

Lemma tiled_app lo l1 l2 hi : tiled lo (l1 ++ l2) hi <-> exists mid, tiled lo l1 mid /\ tiled mid l2 hi.
Proof.
  revert lo. induction l1 as [|[p n] l1 IH]; intros lo; cbn [app tiled].
  - split; [intros Ht; by exists lo|by intros (mid & -> & ?)].
  - rewrite IH. split; [intros (? & ? & mid & ? & ?); by exists mid|intros (mid & (? & ? & ?) & ?)]. repeat split; try done.
    by exists mid.
Qed.

Lemma tiled_elem lo l hi p n : tiled lo l hi -> (p, n) ∈ l -> lo <= ln_min n /\ ln_min n < ln_max n /\ ln_max n <= hi.
Proof.
  intros Ht Hin. apply list_elem_of_split in Hin as (l1 & l2 & ->).
  apply tiled_app in Ht as (mid & R1 & R2). cbn in R2. destruct R2 as (<- & Hlt & R2).
  apply tiled_le in R1, R2. lia.
Qed.

(** The node whose range holds the key. *)
Lemma tiled_find lo l hi key : tiled lo l hi -> lo <= key < hi ->
  exists l1 p n l2, l = l1 ++ (p, n) :: l2 /\ ln_min n <= key < ln_max n.
Proof.
  revert lo. induction l as [|[p n] l IH]; intros lo Ht Hk; cbn in Ht; [lia|].
  destruct Ht as (Hm & Hlt & Ht). destruct (decide (key < ln_max n)) as [Hin|Hout].
  - exists [], p, n, l. split; [done|lia].
  - destruct (IH _ Ht) as (l1 & q & n2 & l2 & -> & Hr); [lia|]. by exists ((p, n) :: l1), q, n2, l2.
Qed.

(** * The invariant *)

Section inv.
Context `{StdSort}.

Record data_ok (n : ListNode) : Prop := {
  da_node : node_ok n;
  da_live : deleted n = false;
  da_lock : lock_ok (verLock n);
  da_plock : lock_ok (pLock n);
  da_version : lastScanVersion n <= verLock n;
  da_perm : verLock n <= lastScanVersion n -> permuted n;
  da_range : Forall (fun kv => ln_min n <= kv.1 < ln_max n) (entries n);
}.

Record tail_ok (n : ListNode) : Prop := {
  ta_min : ln_min n = ULLONG_MAX;
  ta_full : getNumEntries n = MAX_ENTRIES;
  ta_live : deleted n = false;
  ta_lock : lock_ok (verLock n);
}.

Definition in_memory (m : gmap Z ListNode) (L : node_list) : Prop := Forall (fun x => m !! x.1 = Some x.2) L.

Record dl_inv (d : dlist) (l : node_list) (t : Z * ListNode) : Prop := {
  di_gen : genId d = 0;
  di_head : headPtr d = next_of l t.1;
  di_mem : in_memory (dl_nodes d) (l ++ [t]);
  di_nodup : NoDup (l ++ [t]).*1;
  di_linked : linked 0 (l ++ [t]) 0;
  di_tiled : tiled 0 l ULLONG_MAX;
  di_data : Forall (fun x => data_ok x.2) l;
  di_tail : tail_ok t.2;
  (** the key [initialize] puts into the head *)
  di_zero : (0, 0) ∈ l ≫= (fun x => entries x.2);
}.

(** The pairs of the list and its map. *)
Definition flat (l : node_list) : list (Z * Z) := l ≫= (fun x => entries x.2).
Definition dl_map (l : node_list) : gmap Z Z := list_to_map (flat l).

Lemma flat_app l1 l2 : flat (l1 ++ l2) = flat l1 ++ flat l2.
Proof. apply bind_app. Qed.

Lemma flat_elem l kv : kv ∈ flat l <-> exists p n, (p, n) ∈ l /\ kv ∈ entries n.
Proof.
  unfold flat. rewrite list_elem_of_bind. split.
  - intros ([p n] & Hk & Hin). by exists p, n.
  - intros (p & n & Hin & Hk). by exists (p, n).
Qed.

Lemma flat_range lo l hi kv : tiled lo l hi -> Forall (fun x => data_ok x.2) l -> kv ∈ flat l -> lo <= kv.1 < hi.
Proof.
  intros Ht Hd (p & n & Hin & Hk)%flat_elem. rewrite Forall_forall in Hd.
  pose proof (tiled_elem _ _ _ _ _ Ht Hin). pose proof (da_range _ (Hd _ Hin)) as Hr. rewrite Forall_forall in Hr.
  specialize (Hr _ Hk). cbn in *. lia.
Qed.

Lemma flat_nodup lo l hi : tiled lo l hi -> Forall (fun x => data_ok x.2) l -> NoDup (flat l).*1.
Proof.
  revert lo. induction l as [|[p n] l IH]; intros lo Ht Hd; [constructor|].
  apply Forall_cons in Hd as [Hn Hd]. cbn in Ht. destruct Ht as (_ & _ & Ht). cbn in Hn.
  change (flat ((p, n) :: l)) with (entries n ++ flat l). rewrite fmap_app. apply NoDup_app. split; [apply (da_node _ Hn)|].
  split; [|by eapply IH]. intros k (kv & -> & Hk)%list_elem_of_fmap (kv' & E & Hk')%list_elem_of_fmap.
  pose proof (flat_range _ _ _ _ Ht Hd Hk'). pose proof (da_range _ Hn) as Hr. rewrite Forall_forall in Hr.
  specialize (Hr _ Hk). lia.
Qed.

(** The map at a key is that of the node in whose range it is. *)
Lemma dl_map_node l1 p n l2 lo hi key : tiled lo (l1 ++ (p, n) :: l2) hi ->
  Forall (fun x => data_ok x.2) (l1 ++ (p, n) :: l2) -> ln_min n <= key < ln_max n ->
  dl_map (l1 ++ (p, n) :: l2) !! key = node_map n !! key.
Proof.
  intros Ht Hd Hk. pose proof (flat_nodup _ _ _ Ht Hd) as Hnd.
  assert (data_ok n) as Hn by (rewrite Forall_forall in Hd; apply (Hd (p, n)), elem_of_app; right; left).
  apply option_eq. intros v. rewrite node_map_lookup by apply Hn. unfold dl_map. rewrite <- elem_of_list_to_map by done.
  rewrite flat_elem. split.
  - intros (q & n2 & Hin & Hv). assert (n2 = n) as ->; [|done].
    rewrite Forall_forall in Hd. pose proof (da_range _ (Hd _ Hin)) as Hr. rewrite Forall_forall in Hr.
    specialize (Hr _ Hv). cbn in Hr. apply tiled_app in Ht as (mid & R1 & R2). cbn in R2. destruct R2 as (Em & Hlt & R2).
    apply elem_of_app in Hin as [Hin|[[= _ ->]|Hin]%elem_of_cons]; [|done|].
    + pose proof (tiled_elem _ _ _ _ _ R1 Hin). lia.
    + pose proof (tiled_elem _ _ _ _ _ R2 Hin). lia.
  - intros Hv. exists p, n. split; [|done]. apply elem_of_app. right. left.
Qed.

(** Rearranged pairs give the same map. *)
Lemma list_to_map_perm (l l' : list (Z * Z)) : NoDup l.*1 -> l ≡ₚ l' -> (list_to_map l : gmap Z Z) = list_to_map l'.
Proof. intros Hnd Hp. by apply list_to_map_proper. Qed.

(** * Anchors *)

(** The nodes with the first key of their range, under which the search layer
    files them. *)
Definition anchors (l : node_list) : list (Z * Z) := (fun x => (x.1, ln_min x.2)) <$> l.

Lemma anchors_ptrs l : (anchors l).*1 = l.*1.
Proof. unfold anchors. rewrite <- list_fmap_compose. done. Qed.

Lemma anchors_replace l1 p n n' l2 : ln_min n' = ln_min n -> anchors (l1 ++ (p, n') :: l2) = anchors (l1 ++ (p, n) :: l2).
Proof. intros E. unfold anchors. rewrite !fmap_app. cbn. by rewrite E. Qed.

Lemma anchors_elem l p k : (p, k) ∈ anchors l <-> exists n, (p, n) ∈ l /\ ln_min n = k.
Proof.
  unfold anchors. rewrite list_elem_of_fmap. split; [intros ([q n] & [= -> ->] & Hin); by exists n|]. intros (n & Hin & <-). by exists (p, n).
Qed.

(** A key is the anchor of one node at most. *)
Lemma anchors_inj lo l hi p q k : tiled lo l hi -> (p, k) ∈ anchors l -> (q, k) ∈ anchors l -> p = q.
Proof.
  revert lo. induction l as [|[r n] l IH]; intros lo Ht Hp Hq; [by apply elem_of_nil in Hp|]. cbn in Ht. destruct Ht as (Em & Hlt & Ht).
  assert (forall x, (x, ln_min n) ∈ anchors l -> False) as Hno.
  { intros x (nx & Hin & E)%anchors_elem. pose proof (tiled_elem _ _ _ _ _ Ht Hin). lia. }
  apply elem_of_cons in Hp as [[= -> Ek]|Hp]; apply elem_of_cons in Hq as [[= -> Ek']|Hq]; [done| | |by eapply IH]; exfalso; subst k; by eapply Hno.
Qed.

(** * Locks *)

(** No lock has been taken so often that its counter reaches the generation. *)
Definition locks_below (b : Z) (L : node_list) : Prop := Forall (fun x => verLock x.2 < b /\ pLock x.2 < b) L.
Definition locks_fresh (L : node_list) : Prop := locks_below (2 ^ 32 - 4) L.

(** An operation takes each lock at most once. *)
Definition locks_grow (L L' : node_list) : Prop := forall b, new_lock < b -> locks_below b L -> locks_below (b + 2) L'.

Definition nonempty (l : node_list) : Prop := Forall (fun x => entries x.2 <> []) l.

Lemma locks_below_mono b b' L : b <= b' -> locks_below b L -> locks_below b' L.
Proof. intros Hb Hl. eapply Forall_impl; [exact Hl|]. cbn. lia. Qed.

Lemma locks_grow_replace l1 p n n' l2 : verLock n' <= verLock n + 2 -> pLock n' <= pLock n + 2 ->
  locks_grow (l1 ++ (p, n) :: l2) (l1 ++ (p, n') :: l2).
Proof.
  intros Hv Hp b _ Hb. unfold locks_below in *. rewrite Forall_app, Forall_cons in *. destruct Hb as (B1 & B2 & B3). cbn in *.
  split; [eapply (locks_below_mono b); [lia|done]|]. split; [lia|]. eapply (locks_below_mono b); [lia|done].
Qed.

Lemma fresh_lock_free v : lock_ok v -> v < 2 ^ 32 - 4 -> lock_free v.
Proof. intros [Hv Ho] Hlt. split; [lia|done]. Qed.

Lemma lock_ok_next v : lock_ok v -> lock_ok (v + 2).
Proof. intros [Hv Ho]. split; [lia|]. by rewrite Z.odd_add, Ho. Qed.

(** * Walking *)

Context `{PMem}.

Lemma in_memory_node d l t p n : dl_inv d l t -> (p, n) ∈ l ++ [t] -> p <> 0 /\ getVaddr p = p /\ get_node d p = Ok n.
Proof.
  intros Hi Hin. apply list_elem_of_split in Hin as (l1 & l2 & E).
  pose proof (di_linked _ _ _ Hi) as Hl. pose proof (di_mem _ _ _ Hi) as Hm. rewrite E in Hl, Hm.
  apply linked_app in Hl as [_ Hl]. cbn in Hl. destruct Hl as ((Hz & Hv) & _).
  apply Forall_app in Hm as [_ [Hm _]%Forall_cons]. cbn in Hm. split; [done|]. split; [done|].
  unfold get_node. by rewrite (proj2 (Z.eqb_neq p 0)), Hm.
Qed.

Lemma walk_right d l t l1 p n l2 key : dl_inv d l t -> l = l1 ++ (p, n) :: l2 -> ln_min n <= key < ln_max n ->
  forall k q n2 k2 fuel, l1 ++ [(p, n)] = k ++ (q, n2) :: k2 -> (length k2 < fuel)%nat -> find_node fuel d q key = Ok p.
Proof.
  intros Hi El Hk k q n2 k2. revert k q n2. induction k2 as [|[r n3] k2 IH]; intros k q n2 fuel E Hf.
  - apply app_inj_tail in E as [-> [= <- <-]]. destruct fuel as [|fuel]; [cbn in Hf; lia|]. cbn [find_node].
    destruct (in_memory_node d l t p n Hi) as (_ & _ & ->); [rewrite El; set_solver|].
    cbn [mbind res_bind]. rewrite (proj2 (Z.ltb_ge _ _)) by lia. unfold checkRange.
    rewrite (proj2 (Z.leb_le _ _)), (proj2 (Z.ltb_lt _ _)) by lia. done.
  - destruct fuel as [|fuel]; [cbn in Hf; lia|]. cbn [find_node].
    assert (exists k3, (r, n3) :: k2 = k3 ++ [(p, n)] /\ l1 = k ++ (q, n2) :: k3) as (k3 & Ek & El1).
    { destruct (exists_last (l := (r, n3) :: k2)) as (k3 & x & Ek); [done|]. exists k3.
      rewrite Ek in E. rewrite app_comm_cons, app_assoc in E. apply app_inj_tail in E as [E ->]. done. }
    assert (l = k ++ (q, n2) :: k3 ++ (p, n) :: l2) as El2 by (by rewrite El, El1, <- app_assoc).
    destruct (in_memory_node d l t q n2 Hi) as (_ & _ & ->); [rewrite El2; set_solver|]. cbn [mbind res_bind].
    pose proof (di_tiled _ _ _ Hi) as Ht. rewrite El2 in Ht. apply tiled_app in Ht as (mid & _ & Ht). cbn in Ht.
    destruct Ht as (Em & Hlt & Ht). apply tiled_app in Ht as (mid2 & R1 & R2). cbn in R2. destruct R2 as (Em2 & _ & _).
    apply tiled_le in R1. rewrite (proj2 (Z.ltb_ge _ _)) by lia. unfold checkRange.
    rewrite (proj2 (Z.ltb_ge key _)) by lia. rewrite andb_false_r. cbn [negb].
    assert (getNext n2 = r) as ->.
    { pose proof (di_linked _ _ _ Hi) as Hl. assert (l ++ [t] = k ++ (q, n2) :: (r, n3) :: k2 ++ l2 ++ [t]) as Elt.
      { transitivity ((l1 ++ [(p, n)]) ++ l2 ++ [t]); [by rewrite El, <- !app_assoc|].
        rewrite E. by rewrite <- app_assoc. }
      rewrite Elt in Hl. apply linked_app in Hl as [_ Hl]. cbn in Hl. destruct Hl as (_ & _ & _ & Hn & (_ & Hv) & _).
      unfold getNext. rewrite Hn. done. }
    apply (IH (k ++ [(q, n2)]) r n3); [by rewrite <- app_assoc|cbn in Hf; lia].
Qed.

Lemma walk_left d l t l1 p n l2 key : dl_inv d l t -> l = l1 ++ (p, n) :: l2 -> ln_min n <= key < ln_max n ->
  forall k2 k q n2 fuel, (p, n) :: l2 ++ [t] = k2 ++ (q, n2) :: k -> (length k2 < fuel)%nat -> find_node fuel d q key = Ok p.
Proof.
  intros Hi El Hk. induction k2 as [|x k2 IH] using rev_ind; intros k q n2 fuel E Hf.
  - injection E as Eq En _. rewrite <- Eq. eapply (walk_right d l t l1 p n l2 key Hi El Hk l1 p n []); [done|cbn in *; lia].
  - destruct x as [r n3]. destruct fuel as [|fuel]; [rewrite length_app in Hf; cbn in Hf; lia|]. cbn [find_node].
    rewrite <- app_assoc in E. cbn in E.
    assert (l ++ [t] = (l1 ++ k2) ++ (r, n3) :: (q, n2) :: k) as Elt by (rewrite El, <- !app_assoc; cbn; by rewrite E).
    destruct (in_memory_node d l t q n2 Hi) as (_ & _ & ->); [rewrite Elt; set_solver|]. cbn [mbind res_bind].
    assert (ln_max n <= ln_min n2) as Hle.
    { assert ((q, n2) ∈ l2 ++ [t]) as Hin.
      { apply (f_equal (drop 1)) in E as E1. cbn in E1. rewrite ?drop_0 in E1. rewrite E1.
        destruct k2 as [|y k2]; cbn; rewrite ?drop_0; set_solver. }
      pose proof (di_tiled _ _ _ Hi) as Ht. rewrite El in Ht. apply tiled_app in Ht as (mid & _ & Ht). cbn in Ht.
      destruct Ht as (_ & _ & Ht). apply elem_of_app in Hin as [Hin|Hin%list_elem_of_singleton].
      - by apply (tiled_elem _ _ _ _ _ Ht) in Hin as [? _].
      - apply tiled_le in Ht. pose proof (ta_min _ (di_tail _ _ _ Hi)) as Hm. rewrite <- Hin in Hm. cbn in Hm. lia. }
    rewrite (proj2 (Z.ltb_lt _ _)) by lia.
    assert (getPrev n2 = r) as ->.
    { pose proof (di_linked _ _ _ Hi) as Hl. rewrite Elt in Hl. apply linked_app in Hl as [_ Hl]. cbn in Hl.
      destruct Hl as ((_ & Hv) & _ & _ & _ & _ & _ & Hp & _). unfold getPrev. by rewrite Hp. }
    apply (IH ((q, n2) :: k) r n3); [exact E|rewrite length_app in Hf; cbn in Hf; lia].
Qed.

Lemma list_size d l t : dl_inv d l t -> (length (l ++ [t]) <= size (dl_nodes d))%nat.
Proof.
  intros Hi. rewrite <- (length_fmap fst (l ++ [t])), <- (length_map_to_list (dl_nodes d)).
  rewrite <- (length_fmap fst (map_to_list _)). apply nodup_subset_length; [apply Hi|].
  intros q Hq. apply list_elem_of_fmap in Hq as ([q' n2] & -> & Hq). pose proof (di_mem _ _ _ Hi) as Hm.
  unfold in_memory in Hm. rewrite Forall_forall in Hm. specialize (Hm _ Hq). cbn in *.
  apply list_elem_of_fmap. exists (q', n2). split; [done|]. by apply elem_of_map_to_list.
Qed.

(** From any node of the list, tail included, the walk ends at the node in
    whose range the key is. *)
Lemma walk_spec d l t key s : dl_inv d l t -> 0 <= key < ULLONG_MAX -> s ∈ (l ++ [t]).*1 ->
  exists l1 p n l2, l = l1 ++ (p, n) :: l2 /\ ln_min n <= key < ln_max n /\ walk d s key = Ok p.
Proof.
  intros Hi Hk Hs. destruct (tiled_find _ _ _ key (di_tiled _ _ _ Hi)) as (l1 & p & n & l2 & El & Hr); [lia|].
  exists l1, p, n, l2. split; [done|]. split; [done|]. unfold walk.
  pose proof (list_size d l t Hi) as Hsz. rewrite El, !length_app in Hsz. cbn in Hsz.
  apply list_elem_of_fmap in Hs as ([q n2] & -> & Hs). rewrite El, <- app_assoc in Hs. cbn [app] in Hs.
  apply elem_of_app in Hs as [Hs|Hs].
  - apply list_elem_of_split in Hs as (k & k2 & Ek). subst l1.
    eapply (walk_right d l t (k ++ (q, n2) :: k2) p n l2 key Hi El Hr k q n2 (k2 ++ [(p, n)]));
      [by rewrite <- app_assoc|]. rewrite !length_app in *. cbn in *. lia.
  - apply list_elem_of_split in Hs as (k2 & k & Ek).
    eapply (walk_left d l t l1 p n l2 key Hi El Hr k2 k q n2); [exact Ek|].
    apply (f_equal length) in Ek. cbn in Ek. rewrite !length_app in Ek. cbn in Ek. lia.
Qed.
End inv.
