(* ===== verification/LinkedListOps.v ===== *)
(** Lookups, updates and insertions that need no split, on PACTree's data
    layer. *)

From S2P Require Import Prelude NodeBits VersionedLock ListNode ListNodeFacts ListNodeScan LinkedList LinkedListInv.

Local Open Scope Z_scope.

Section ops.
Context `{StdSort} `{PMem}.

(** * Replacing a node by one with the same neighbours and range *)

Definition same_place (n n' : ListNode) : Prop :=
  curPtr n' = curPtr n /\ nextPtr n' = nextPtr n /\ prevPtr n' = prevPtr n /\ ln_min n' = ln_min n /\ ln_max n' = ln_max n.

Lemma linked_replace prev L1 p n n' L2 nxt : same_place n n' -> linked prev (L1 ++ (p, n) :: L2) nxt ->
  linked prev (L1 ++ (p, n') :: L2) nxt.
Proof. intros (Ec & En & Ep & _) Hl. apply linked_app in Hl as [A B]. apply linked_app. cbn in *. by rewrite Ec, En, Ep. Qed.

Lemma tiled_replace lo l1 p n n' l2 hi : same_place n n' -> tiled lo (l1 ++ (p, n) :: l2) hi ->
  tiled lo (l1 ++ (p, n') :: l2) hi.
Proof.
  intros (_ & _ & _ & Em & EM) Ht. apply tiled_app in Ht as (mid & A & B). apply tiled_app. exists mid.
  cbn in *. by rewrite Em, EM.
Qed.

Lemma in_memory_replace m L1 p n n' L2 : NoDup (L1 ++ (p, n) :: L2).*1 -> in_memory m (L1 ++ (p, n) :: L2) ->
  in_memory (<[p := n']> m) (L1 ++ (p, n') :: L2).
Proof.
  unfold in_memory. rewrite fmap_app, fmap_cons, !Forall_app, !Forall_cons, NoDup_app, NoDup_cons. cbn.
  intros (_ & Hd1 & Hp & _) (M1 & _ & M2). rewrite Forall_forall in M1, M2.
  split; [|split; [by rewrite lookup_insert_eq|]]; apply Forall_forall; intros [q x] Hq; cbn.
  - rewrite lookup_insert_ne; [by apply (M1 _ Hq)|]. intros <-. apply (Hd1 p); [|left].
    by apply (list_elem_of_fmap_2 fst) in Hq.
  - rewrite lookup_insert_ne; [by apply (M2 _ Hq)|]. intros <-. apply Hp. by apply (list_elem_of_fmap_2 fst) in Hq.
Qed.

Lemma dl_inv_replace d d' l1 p n l2 t n' : dl_inv d (l1 ++ (p, n) :: l2) t -> same_place n n' -> data_ok n' ->
  dl_nodes d' = <[p := n']> (dl_nodes d) -> headPtr d' = headPtr d -> genId d' = genId d ->
  (0, 0) ∈ flat (l1 ++ (p, n') :: l2) -> dl_inv d' (l1 ++ (p, n') :: l2) t.
Proof.
  intros [A B C D E F G T Zr] Hs Hn Em Eh Eg Hz. split; try done.
  - by rewrite Eg.
  - rewrite Eh, B. by destruct l1 as [|[]].
  - rewrite Em, <- app_assoc. apply (in_memory_replace _ _ p n); by rewrite <- app_assoc in *.
  - rewrite <- app_assoc in D |- *. by rewrite fmap_app in *.
  - rewrite <- app_assoc in E |- *. by eapply linked_replace.
  - by eapply tiled_replace.
  - apply Forall_app in G as [G1 [_ G2]%Forall_cons]. apply Forall_app. split; [done|]. by apply Forall_cons.
Qed.

Lemma flat_middle l1 p n l2 : flat (l1 ++ (p, n) :: l2) ≡ₚ entries n ++ flat (l1 ++ l2).
Proof.
  rewrite !flat_app. change (flat ((p, n) :: l2)) with (entries n ++ flat l2).
  rewrite !(assoc_L (++)). by rewrite (Permutation_app_comm (flat l1) (entries n)).
Qed.

Lemma middle_elem (l1 : node_list) x l2 : x ∈ l1 ++ x :: l2.
Proof. apply elem_of_app. right. left. Qed.

(** * Locks *)

Lemma set_verLock_id n : set_verLock n (verLock n) = n.
Proof. by destruct n. Qed.

(** A node of the list in use by one operation. *)
Record at_node (d : dlist) (l1 : node_list) (p : Z) (n : ListNode) (l2 : node_list) (t : Z * ListNode) (key : Z) : Prop := {
  an_inv : dl_inv d (l1 ++ (p, n) :: l2) t;
  an_key : ln_min n <= key < ln_max n;
  an_get : get_node d p = Ok n;
  an_data : data_ok n;
  an_free : lock_free (verLock n);
  an_map : dl_map (l1 ++ (p, n) :: l2) !! key = node_map n !! key;
}.

Lemma walk_at d l t key s : dl_inv d l t -> locks_fresh l -> 0 <= key < ULLONG_MAX -> s ∈ (l ++ [t]).*1 ->
  exists l1 p n l2, l = l1 ++ (p, n) :: l2 /\ walk d s key = Ok p /\ at_node d l1 p n l2 t key.
Proof.
  intros Hi Hf Hk Hs. destruct (walk_spec d l t key s Hi Hk Hs) as (l1 & p & n & l2 & -> & Hr & Hw).
  exists l1, p, n, l2. split; [done|]. split; [done|].
  pose proof (di_data _ _ _ Hi) as Hd. assert (data_ok n) as Hn
    by (rewrite Forall_forall in Hd; apply (Hd (p, n)), middle_elem).
  split; try done.
  - apply (in_memory_node _ _ _ _ _ Hi). apply elem_of_app. left. apply middle_elem.
  - apply fresh_lock_free; [apply Hn|]. unfold locks_fresh, locks_below in Hf. rewrite Forall_forall in Hf. apply (Hf (p, n)), middle_elem.
  - eapply dl_map_node; [apply (di_tiled _ _ _ Hi)|done|done].
Qed.

Lemma checkRange_true n key : ln_min n <= key < ln_max n -> checkRange n key = true.
Proof. intros Hk. unfold checkRange. by rewrite (proj2 (Z.leb_le _ _)), (proj2 (Z.ltb_lt _ _)) by lia. Qed.

Lemma versioned_spec {A} d l1 p n l2 t key (op : ListNode -> res A) : at_node d l1 p n l2 t key ->
  versioned d p key op = (r ← op n; Ok (Some r)).
Proof.
  intros [Hi Hk Hg Hd Hf _]. unfold versioned. rewrite Hg. cbn [mbind res_bind]. unfold readLock.
  rewrite (di_gen _ _ _ Hi), read_lock_free by done. cbn [mbind res_bind]. rewrite set_verLock_id.
  destruct Hf as [Hv _]. rewrite (proj2 (Z.eqb_neq _ 0)) by lia. rewrite (da_live _ Hd), checkRange_true by done.
  cbn [negb]. unfold readUnlock, read_unlock. by rewrite Z.eqb_refl.
Qed.

(** The node while it is locked. *)
Definition held (n : ListNode) : ListNode := set_verLock n (verLock n + 1).

Lemma locked_spec {A} d l1 p n l2 t key (op : dlist -> res (A * dlist)) : at_node d l1 p n l2 t key ->
  locked d p key op =
    ('(r, d1) ← op (put_node p (held n) d); n2 ← get_node d1 p; Ok (Some (r, put_node p (writeUnlock n2) d1))).
Proof.
  intros [Hi Hk Hg Hd Hf _]. unfold locked. rewrite Hg. cbn [mbind res_bind]. unfold writeLock.
  rewrite (di_gen _ _ _ Hi), write_lock_free by done. cbn [mbind res_bind].
  destruct Hf as [Hv _]. rewrite (proj2 (Z.eqb_neq _ 0)) by lia.
  change (deleted (set_verLock n (verLock n + 1))) with (deleted n). rewrite (da_live _ Hd).
  change (checkRange (set_verLock n (verLock n + 1)) key) with (checkRange n key). by rewrite checkRange_true.
Qed.

Lemma node_ok_held n w : node_ok n -> node_ok (set_verLock n w).
Proof. intros []. by split. Qed.

(** A node written under its lock is well formed again after the unlock. *)
Lemma data_ok_written n n2 : data_ok n -> lock_free (verLock n) -> frame (held n) n2 -> node_ok n2 ->
  Forall (fun kv => ln_min n <= kv.1 < ln_max n) (entries n2) ->
  data_ok (writeUnlock n2) /\ same_place n (writeUnlock n2).
Proof.
  intros Hd Hf [F1 F2 F3 F4 F5 F6 F7 F8 F9 F10] Hn2 Hr. unfold held in *. cbn in *.
  pose proof (da_version _ Hd). split; [|by split_and!].
  split; try (cbn; congruence).
  - by apply node_ok_held.
  - cbn. rewrite F6. apply Hd.
  - cbn. rewrite F7, write_unlock_held by done. apply lock_ok_next, Hd.
  - cbn. rewrite F9. apply Hd.
  - cbn. rewrite F7, F8, write_unlock_held by done. lia.
  - cbn. rewrite F7, F8, write_unlock_held by done. lia.
  - cbn. by rewrite F1, F2.
Qed.

Lemma get_put d p n : p <> 0 -> get_node (put_node p n d) p = Ok n.
Proof. intros Hp. unfold get_node. rewrite (proj2 (Z.eqb_neq p 0)) by done. cbn. by rewrite lookup_insert_eq. Qed.

Lemma put_put d p n n' : put_node p n' (put_node p n d) = put_node p n' d.
Proof. unfold put_node, set_nodes. cbn. by rewrite insert_insert_eq. Qed.

Lemma at_node_nz d l1 p n l2 t key : at_node d l1 p n l2 t key -> p <> 0.
Proof.
  intros [Hi _ _ _ _ _]. destruct (in_memory_node _ _ _ p n Hi) as (Hz & _); [|done].
  apply elem_of_app. left. apply middle_elem.
Qed.

(** The key 0 stays as long as the entries of the node but those of [key] do. *)
Lemma zero_stays d l1 p n n' l2 t : dl_inv d (l1 ++ (p, n) :: l2) t ->
  ((0, 0) ∈ entries n -> (0, 0) ∈ entries n') -> (0, 0) ∈ flat (l1 ++ (p, n') :: l2).
Proof.
  intros Hi Hz. pose proof (di_zero _ _ _ Hi) as Hzr. fold (flat (l1 ++ (p, n) :: l2)) in Hzr.
  rewrite flat_middle in Hzr |- *. apply elem_of_app in Hzr as [Hzr|Hzr]; apply elem_of_app; [left; auto|by right].
Qed.

(** Locked work on one node that keeps its place. *)
Lemma write_in_place d l1 p n l2 t key n2 : at_node d l1 p n l2 t key -> frame (held n) n2 -> node_ok n2 ->
  Forall (fun kv => ln_min n <= kv.1 < ln_max n) (entries n2) -> ((0, 0) ∈ entries n -> (0, 0) ∈ entries n2) ->
  dl_inv (put_node p (writeUnlock n2) d) (l1 ++ (p, writeUnlock n2) :: l2) t.
Proof.
  intros Ha Hf Hn Hr Hz. destruct (data_ok_written n n2 (an_data _ _ _ _ _ _ _ Ha) (an_free _ _ _ _ _ _ _ Ha) Hf Hn Hr) as [Hd Hp].
  eapply dl_inv_replace; [apply Ha|done|done|done|done|done|]. eapply zero_stays; [apply Ha|exact Hz].
Qed.

Lemma at_node_some d l1 p n l2 t key : at_node d l1 p n l2 t key -> dl_nodes d !! p = Some n.
Proof.
  intros Ha. pose proof (di_mem _ _ _ (an_inv _ _ _ _ _ _ _ Ha)) as Hm. rewrite <- app_assoc in Hm.
  apply Forall_app in Hm as [_ [Hm _]%Forall_cons]. done.
Qed.

Lemma put_size d p n n' : dl_nodes d !! p = Some n -> size (dl_nodes (put_node p n' d)) = size (dl_nodes d).
Proof. intros Hp. cbn. apply map_size_insert_Some. by eexists. Qed.

(** The locks and the pairs after that. *)
Lemma write_locks d l1 p n l2 t key n2 : at_node d l1 p n l2 t key -> frame (held n) n2 ->
  locks_grow ((l1 ++ (p, n) :: l2) ++ [t]) ((l1 ++ (p, writeUnlock n2) :: l2) ++ [t]).
Proof.
  intros Ha [_ _ _ _ _ _ F7 _ F9 _]. rewrite <- !app_assoc. cbn in F7, F9. apply locks_grow_replace; cbn.
  - rewrite F7, write_unlock_held by apply Ha. lia.
  - rewrite F9. lia.
Qed.

Lemma nonempty_replace l1 p n n' l2 : (entries n <> [] -> entries n' <> []) -> nonempty (l1 ++ (p, n) :: l2) ->
  nonempty (l1 ++ (p, n') :: l2).
Proof. unfold nonempty. rewrite !Forall_app, !Forall_cons. cbn. naive_solver. Qed.

Lemma perm_nonempty {A} (l l' : list A) x : l ≡ₚ x :: l' -> l <> [].
Proof. intros Hp ->. by apply Permutation_nil_cons in Hp. Qed.

(** * Operations *)

Lemma dl_lookup_spec d l t key s : dl_inv d l t -> locks_fresh l -> 0 <= key < ULLONG_MAX -> s ∈ (l ++ [t]).*1 ->
  lookup d key s = Ok (Some (dl_map l !! key)).
Proof.
  intros Hi Hf Hk Hs. destruct (walk_at d l t key s Hi Hf Hk Hs) as (l1 & p & n & l2 & -> & Hw & Ha).
  unfold lookup. rewrite Hw. cbn [mbind res_bind]. rewrite (versioned_spec _ _ _ _ _ _ _ _ Ha).
  rewrite node_lookup_spec by apply Ha. cbn. by rewrite (an_map _ _ _ _ _ _ _ Ha).
Qed.

Lemma probe_spec d l t key s : dl_inv d l t -> locks_fresh l -> 0 <= key < ULLONG_MAX -> s ∈ (l ++ [t]).*1 ->
  probe d key s = Ok (Some (bool_decide (is_Some (dl_map l !! key)))).
Proof.
  intros Hi Hf Hk Hs. destruct (walk_at d l t key s Hi Hf Hk Hs) as (l1 & p & n & l2 & -> & Hw & Ha).
  unfold probe. rewrite Hw. cbn [mbind res_bind]. rewrite (versioned_spec _ _ _ _ _ _ _ _ Ha).
  rewrite node_probe_spec by apply Ha. cbn. by rewrite (an_map _ _ _ _ _ _ _ Ha).
Qed.

(** The map after entry [key] of one node changed. *)
Lemma map_of_perm l' key v rest lo hi : tiled lo l' hi -> Forall (fun x => data_ok x.2) l' ->
  flat l' ≡ₚ (key, v) :: rest -> dl_map l' = <[key := v]> (list_to_map rest).
Proof. intros Ht Hd Hp. unfold dl_map. by rewrite (list_to_map_perm _ _ (flat_nodup _ _ _ Ht Hd) Hp). Qed.

Lemma dl_update_spec d l t key v s : dl_inv d l t -> locks_fresh l -> 0 < key < ULLONG_MAX -> s ∈ (l ++ [t]).*1 ->
  exists d' l', update d key v s = Ok (Some (bool_decide (is_Some (dl_map l !! key)), d')) /\ dl_inv d' l' t /\
    anchors l' = anchors l /\ dl_map l' = match dl_map l !! key with Some _ => <[key := v]> (dl_map l) | None => dl_map l end /\
    dl_log d' = dl_log d /\ size (dl_nodes d') = size (dl_nodes d) /\ locks_grow (l ++ [t]) (l' ++ [t]) /\ (nonempty l -> nonempty l').
Proof.
  intros Hi Hf Hk Hs. destruct (walk_at d l t key s Hi Hf ltac:(lia) Hs) as (l1 & p & n & l2 & -> & Hw & Ha).
  pose proof (at_node_nz _ _ _ _ _ _ _ Ha) as Hp. pose proof (an_data _ _ _ _ _ _ _ Ha) as Hd.
  unfold update. rewrite Hw. cbn [mbind res_bind]. rewrite (locked_spec _ _ _ _ _ _ _ _ Ha).
  rewrite get_put by done. cbn [mbind res_bind].
  pose proof (node_update_spec (held n) key v (node_ok_held _ _ (da_node _ Hd))) as Hu.
  change (node_map (held n)) with (node_map n) in Hu. rewrite (an_map _ _ _ _ _ _ _ Ha).
  destruct (node_map n !! key) as [v0|] eqn:Hv0.
  - destruct Hu as (n2 & rest & Hu & Hn2 & Hfr & E1 & E2). rewrite Hu. cbn [mbind res_bind].
    rewrite get_put by done. cbn [mbind res_bind]. rewrite !put_put. change (entries (held n)) with (entries n) in E1.
    pose proof (da_range _ Hd) as Hr. rewrite E1 in Hr. apply Forall_cons in Hr as [Hr1 Hr2].
    assert (dl_inv (put_node p (writeUnlock n2) d) (l1 ++ (p, writeUnlock n2) :: l2) t) as Hi'.
    { apply (write_in_place _ _ _ _ _ _ _ _ Ha Hfr Hn2).
      - rewrite E2. apply Forall_cons. done.
      - rewrite E1, E2, !elem_of_cons. intros [[= <- _]|Hz]; [lia|by right]. }
    eexists _, _. split; [by rewrite bool_decide_true|]. split; [exact Hi'|]. split; [apply anchors_replace; exact (fr_min _ _ Hfr)|]. split_and!; [|done
      |by apply (put_size _ _ n), (at_node_some _ _ _ _ _ _ _ Ha)|by apply (write_locks _ _ _ _ _ _ _ _ Ha)
      |apply nonempty_replace; intros _; by eapply perm_nonempty].
    rewrite (map_of_perm (l1 ++ (p, writeUnlock n2) :: l2) key v (rest ++ flat (l1 ++ l2)) 0 ULLONG_MAX);
      [|apply Hi'|apply Hi'|rewrite flat_middle; change (entries (writeUnlock n2)) with (entries n2); by rewrite E2].
    rewrite (map_of_perm (l1 ++ (p, n) :: l2) key v0 (rest ++ flat (l1 ++ l2)) 0 ULLONG_MAX);
      [|apply Hi|apply Hi|rewrite flat_middle; by rewrite E1]. by rewrite insert_insert_eq.
  - rewrite Hu. cbn [mbind res_bind]. rewrite get_put by done. cbn [mbind res_bind]. rewrite !put_put.
    eexists _, _. split; [by rewrite bool_decide_false by (by intros [])|]. split.
    + eapply (write_in_place _ _ _ _ _ _ _ (held n) Ha); [apply frame_refl|by apply node_ok_held, Hd|apply Hd|done].
    + split; [by apply anchors_replace|]. split_and!; [unfold dl_map; by rewrite !flat_app|done
        |by apply (put_size _ _ n), (at_node_some _ _ _ _ _ _ _ Ha)|apply (write_locks _ _ _ _ _ _ _ _ Ha), frame_refl
        |by apply nonempty_replace].
Qed.
End ops.
