(* ===== verification/SplitFacts.v ===== *)
(** What a split makes of a full data node: the new node gets the pairs from
    the median on, the old node keeps the others, and the new pair goes where
    it belongs. *)

From S2P Require Import Prelude NodeBits VersionedLock ListNode ListNodeFacts ListNodeScan LinkedList.

Local Open Scope Z_scope.

(** * Pairs selected by the bitmap *)

Lemma omap_imap_filter (u : nat -> bool) (P : Z * Z -> Prop) `{forall x, Decision (P x)} (l : list (Z * Z)) :
  (forall i x, l !! i = Some x -> u i = true <-> P x) ->
  omap id (imap (fun i x => if u i then Some x else None) l) = filter P l.
Proof.
  revert u. induction l as [|x l IH]; intros u Hu; [done|]. cbn [imap]. rewrite filter_cons.
  specialize (IH (fun i => u (S i)) (fun i y Hy => Hu (S i) y Hy)).
  pose proof (Hu 0%nat x eq_refl) as Hx. destruct (decide (P x)) as [Hp|Hp].
  - rewrite (proj2 Hx) by done. cbn. f_equal. exact IH.
  - destruct (u 0%nat); [exfalso; by apply Hp, Hx|]. exact IH.
Qed.

Lemma entries_filter n (P : Z * Z -> Prop) `{forall x, Decision (P x)} :
  (forall i x, keyArray n !! i = Some x -> used n i = true <-> P x) -> entries n = filter P (keyArray n).
Proof. apply omap_imap_filter. Qed.

(** A full node holds its whole array. *)
Lemma full_entries n : node_ok n -> length (entries n) = MAX_ENTRIES -> entries n = keyArray n /\
  forall i, (i < MAX_ENTRIES)%nat -> used n i = true.
Proof.
  intros Hn Hf. assert (forall i, (i < MAX_ENTRIES)%nat -> used n i = true) as Hu.
  { intros i Hi. apply all_used; [|done]. by rewrite getNumEntries_spec. }
  split; [|done]. rewrite (entries_filter n (fun _ => True)).
  - apply filter_all. by apply Forall_true.
  - intros i x Hx%lookup_lt_Some. rewrite (no_keys _ Hn) in Hx. by rewrite Hu.
Qed.

Lemma omap_lookup_seq (l : list (Z * Z)) : omap (fun i => l !! i) (seq 0 (length l)) = l.
Proof.
  induction l as [|x l IH] using rev_ind; [done|]. rewrite length_app. cbn [length]. rewrite seq_app, omap_app. cbn.
  rewrite lookup_app_r, Nat.sub_diag by lia. cbn. f_equal. rewrite <- IH at 2.
  clear IH. assert (forall k, Forall (fun i => (i < length l)%nat) k ->
    omap (fun i => (l ++ [x]) !! i) k = omap (fun i => l !! i) k) as E.
  { induction 1 as [|i k Hi _ IHk]; [done|]. cbn. rewrite lookup_app_l by done. by rewrite IHk. }
  apply E, Forall_forall. intros i Hi%elem_of_seq. lia.
Qed.

(** * The median *)

Section median.
Context `{StdSort}.

Lemma split_median_spec n : node_ok n -> length (entries n) = MAX_ENTRIES ->
  exists median, split_median n = Ok median /\ median ∈ (entries n).*1 /\ exists k, k ∈ (entries n).*1 /\ k < median.
Proof.
  intros Hn Hf. destruct (full_entries n Hn Hf) as [He _]. unfold split_median.
  assert (NoDup (std_sort fst (keyArray n)).*1) as Hnd by (rewrite std_sort_perm, <- He; apply (no_nodup _ Hn)).
  assert (length (std_sort fst (keyArray n)) = MAX_ENTRIES) as Hl by (by rewrite std_sort_length, (no_keys _ Hn)).
  destruct (lookup_lt_is_Some_2 (std_sort fst (keyArray n)) (MAX_ENTRIES / 2)) as [x Hx];
    [rewrite Hl; apply Nat.div_lt; unfold MAX_ENTRIES; lia|].
  destruct (lookup_lt_is_Some_2 (std_sort fst (keyArray n)) 0) as [y Hy]; [rewrite Hl; unfold MAX_ENTRIES; lia|].
  assert (forall i z, std_sort fst (keyArray n) !! i = Some z -> z.1 ∈ (entries n).*1) as Hin.
  { intros i z Hz%list_elem_of_lookup_2. rewrite std_sort_perm, <- He in Hz. by apply list_elem_of_fmap_2. }
  rewrite Hx. exists x.1. split; [done|]. split; [by eapply Hin|]. exists y.1. split; [by eapply Hin|].
  assert (0 < MAX_ENTRIES / 2)%nat as Hlt by (apply Nat.div_str_pos; unfold MAX_ENTRIES; lia).
  pose proof (sorted_lookup _ _ _ _ _ _ (std_sort_sorted fst (keyArray n)) Hlt Hy Hx) as Hle. unfold key_le in Hle.
  assert (y.1 <> x.1); [|lia]. intros E. assert (0 = MAX_ENTRIES / 2)%nat; [|lia].
  eapply NoDup_lookup; [exact Hnd| |]; rewrite list_lookup_fmap; [by rewrite Hy|rewrite Hx; cbn; by rewrite E].
Qed.
End median.

(** * Moving the upper half *)

Definition upper (n : ListNode) (median : Z) (idx : list nat) : list (Z * Z) :=
  filter (fun kv => median <= kv.1) (omap (fun i => keyArray n !! i) idx).

Lemma split_copy_spec n median : node_ok n -> (forall i, (i < MAX_ENTRIES)%nat -> used n i = true) ->
  forall idx nn c, Forall (fun i => (i < MAX_ENTRIES)%nat) idx -> node_ok nn ->
  (forall j, (c <= j < MAX_ENTRIES)%nat -> slots nn !! j = Some None) ->
  NoDup (upper n median idx ++ entries nn).*1 -> (c + length (upper n median idx) <= MAX_ENTRIES)%nat ->
  exists nn', let c' := (c + length (upper n median idx))%nat in
    split_copy n median idx nn (Z.of_nat c) = Ok (nn', Z.of_nat c') /\ node_ok nn' /\ frame nn nn' /\
    entries nn' ≡ₚ upper n median idx ++ entries nn /\
    forall j, (c' <= j < MAX_ENTRIES)%nat -> slots nn' !! j = Some None.
Proof.
  intros Hn Hu. induction idx as [|i idx IH]; intros nn c Hi Hnn Hs Hnd Hc.
  { exists nn. cbn. rewrite Nat.add_0_r. split; [done|]. split; [done|]. split; [apply frame_refl|]. done. }
  apply Forall_cons in Hi as [Hi Hidx]. cbn [split_copy].
  destruct (lookup_lt_is_Some_2 (keyArray n) i) as [kv Hkv]; [by rewrite (no_keys _ Hn)|].
  rewrite key_at_nat, Hkv. cbn [of_option mbind res_bind].
  assert (upper n median (i :: idx) = if decide (median <= kv.1) then kv :: upper n median idx else upper n median idx) as Eu.
  { unfold upper. cbn. rewrite Hkv. by rewrite filter_cons. }
  destruct (Z.leb_spec median kv.1) as [Hle|Hgt].
  - rewrite decide_True in Eu by done. rewrite Eu in Hnd, Hc |- *. cbn in Hnd, Hc.
    pose proof (no_fp _ Hn i kv) as Hfp. rewrite slot_used in Hfp. rewrite (Hfp (conj Hkv (Hu i Hi))).
    cbn [of_option mbind res_bind]. apply NoDup_cons in Hnd as [Hk Hnd].
    assert (kv.1 ∉ (entries nn).*1) as Hkn by (intros Hx; apply Hk; rewrite fmap_app; apply elem_of_app; by right).
    destruct (insertAtIndex_spec nn kv c Hnn (Hs c ltac:(lia)) Hkn) as (n1 & -> & Hn1 & Hf1 & Es1 & Ep1).
    cbn [mbind res_bind]. replace (Z.of_nat c + 1) with (Z.of_nat (S c)) by lia.
    assert (upper n median idx ++ entries n1 ≡ₚ kv :: upper n median idx ++ entries nn) as Ep
      by (rewrite Ep1; by rewrite Permutation_middle).
    destruct (IH n1 (S c) Hidx Hn1) as (nn' & E & Hn' & Hf' & Ep' & Hs').
    + intros j Hj. rewrite Es1, list_lookup_insert_ne by lia. apply Hs. lia.
    + rewrite Ep. cbn. by apply NoDup_cons.
    + lia.
    + exists nn'. cbn. replace (c + S (length (upper n median idx)))%nat with (S c + length (upper n median idx))%nat by lia.
      split; [done|]. split; [done|]. split; [by eapply frame_trans|]. split; [by rewrite Ep', Ep|done].
  - rewrite decide_False in Eu by lia. rewrite Eu in Hnd, Hc |- *. by apply IH.
Qed.

(** * Clearing it from the bitmap *)

Lemma split_clear_spec n median : node_ok n -> forall idx b ne ri, Forall (fun i => (i < MAX_ENTRIES)%nat) idx ->
  0 <= bits0 b < 2 ^ 64 ->
  exists b' ne' ri', split_clear n median idx b ne ri = Ok (b', ne', ri') /\ 0 <= bits0 b' < 2 ^ 64 /\
    (forall j kv, (j < MAX_ENTRIES)%nat -> keyArray n !! j = Some kv ->
       test b' (Z.of_nat j) = test b (Z.of_nat j) && negb (bool_decide (j ∈ idx) && (median <=? kv.1))) /\
    (ri <> -1 -> ri' = ri) /\
    (ri = -1 -> (exists i kv, i ∈ idx /\ keyArray n !! i = Some kv /\ median <= kv.1) ->
       exists i kv, i ∈ idx /\ keyArray n !! i = Some kv /\ median <= kv.1 /\ ri' = Z.of_nat i).
Proof.
  intros Hn. induction idx as [|i idx IH]; intros b ne ri Hi Hb.
  { exists b, ne, ri. cbn. split; [done|]. split; [done|]. split; [intros; by rewrite andb_true_r|]. split; [done|].
    intros _ (i & kv & Hx & _). by apply elem_of_nil in Hx. }
  apply Forall_cons in Hi as [Hi Hidx]. cbn [split_clear].
  destruct (lookup_lt_is_Some_2 (keyArray n) i) as [kv Hkv]; [by rewrite (no_keys _ Hn)|].
  rewrite key_at_nat, Hkv. cbn [of_option mbind res_bind].
  assert (forall c j, 0 <= bits0 c < 2 ^ 64 -> (j < MAX_ENTRIES)%nat ->
    test (reset c (Z.of_nat i)) (Z.of_nat j) = bool_decide (i <> j) && test c (Z.of_nat j)) as Hreset.
  { intros c j Hc Hj. apply (used_reset (set_bitMap n c) i j); done. }
  destruct (Z.leb_spec median kv.1) as [Hle|Hgt].
  - assert (0 <= bits0 (reset b (Z.of_nat i)) < 2 ^ 64) as Hb'.
    { unfold reset. rewrite (proj2 (Z.ltb_lt _ _)) by (unfold MAX_ENTRIES in Hi; lia). by apply resetBit_range. }
    destruct (IH (reset b (Z.of_nat i)) (ne - 1) (if ri =? -1 then Z.of_nat i else ri) Hidx Hb')
      as (b' & ne' & ri' & E & Hr & Ht & Hne & _). exists b', ne', ri'. split; [done|]. split; [done|]. split; [|split].
    + intros j x Hj Hx. rewrite (Ht j x Hj Hx), Hreset by done. destruct (decide (i = j)) as [->|Hij].
      * assert (x = kv) as -> by congruence. rewrite (bool_decide_true (j ∈ j :: idx)) by left.
        rewrite (proj2 (Z.leb_le _ _)) by done. rewrite bool_decide_false by naive_solver. cbn. by rewrite andb_false_r.
      * rewrite bool_decide_true by done. cbn [andb]. do 3 f_equal. apply bool_decide_ext. rewrite elem_of_cons. naive_solver.
    + intros Hri. rewrite (proj2 (Z.eqb_neq ri _)) in Hne by done. by apply Hne.
    + intros -> _. cbn in Hne. exists i, kv. split; [left|]. split; [done|]. split; [done|]. apply Hne. lia.
  - destruct (IH b ne ri Hidx Hb) as (b' & ne' & ri' & E & Hr & Ht & Hne & Hex). exists b', ne', ri'.
    split; [done|]. split; [done|]. split; [|split; [done|]].
    + intros j x Hj Hx. rewrite (Ht j x Hj Hx). do 2 f_equal. destruct (decide (i = j)) as [->|Hij].
      * assert (x = kv) as -> by congruence. rewrite (proj2 (Z.leb_gt _ _)) by done. by rewrite !andb_false_r.
      * f_equal. apply bool_decide_ext. rewrite elem_of_cons. naive_solver.
    + intros Hri (j & x & Hj & Hx & Hm). destruct Hex as (j' & x' & ? & ? & ? & ?); [done| |].
      * exists j, x. split; [|done]. apply elem_of_cons in Hj as [->|?]; [|done]. assert (x = kv) as -> by congruence. lia.
      * exists j', x'. split; [by right|done].
Qed.

(** * The two nodes *)

Section nodes.
Context `{StdSort} `{PO : PMemOk}.

Lemma new_node_slots p i : slots (new_node (pm_memory p)) !! i = (fun _ => None) <$> keyArray (pm_memory p) !! i.
Proof.
  rewrite slots_lookup. cbn [keyArray new_node]. destruct (keyArray (pm_memory p) !! i) as [x|] eqn:Hx; [|done].
  apply lookup_lt_Some in Hx. rewrite (proj1 (pm_arrays p)) in Hx. rewrite used_testbit by done.
  cbn [bitMap new_node bits0 clear fmap option_fmap option_map]. by rewrite Z.bits_0.
Qed.

Lemma new_node_entries p : entries (new_node (pm_memory p)) = [].
Proof.
  destruct (entries (new_node (pm_memory p))) as [|kv l] eqn:E; [done|].
  assert (kv ∈ entries (new_node (pm_memory p))) as Hin by (rewrite E; left).
  apply elem_of_omap_id in Hin as [i Hi]. rewrite new_node_slots in Hi. by destruct (keyArray (pm_memory p) !! i).
Qed.

Lemma new_node_ok p : node_ok (new_node (pm_memory p)).
Proof.
  destruct (pm_arrays p) as (A & B & C). split; try done.
  - intros i kv Hi. rewrite new_node_slots in Hi. by destruct (keyArray (pm_memory p) !! i).
  - rewrite new_node_entries. constructor.
Qed.

Lemma upper_seq n median : node_ok n -> length (entries n) = MAX_ENTRIES ->
  upper n median (seq 0 MAX_ENTRIES) = filter (fun kv => median <= kv.1) (entries n).
Proof.
  intros Hn Hf. destruct (full_entries n Hn Hf) as [-> _]. unfold upper.
  rewrite <- (no_keys _ Hn), omap_lookup_seq. done.
Qed.

(** The pairs of a node on either side of the median, with a new pair. *)
Definition above (n : ListNode) (median : Z) (kv : Z * Z) : list (Z * Z) :=
  (if decide (median <= kv.1) then [kv] else []) ++ filter (fun x => median <= x.1) (entries n).
Definition below (n : ListNode) (median : Z) (kv : Z * Z) : list (Z * Z) :=
  (if decide (kv.1 < median) then [kv] else []) ++ filter (fun x => x.1 < median) (entries n).

Lemma filter_split_perm (l : list (Z * Z)) median :
  filter (fun x => median <= x.1) l ++ filter (fun x => x.1 < median) l ≡ₚ l.
Proof.
  induction l as [|x l IH]; [done|]. rewrite !filter_cons. destruct (decide (median <= x.1)).
  - rewrite (decide_False (P := x.1 < median)) by lia. cbn. by rewrite IH.
  - rewrite (decide_True (P := x.1 < median)) by lia. by rewrite <- Permutation_middle, IH.
Qed.

Lemma above_below n median kv : above n median kv ++ below n median kv ≡ₚ kv :: entries n.
Proof.
  unfold above, below. rewrite <- (filter_split_perm (entries n) median) at 3.
  destruct (decide (median <= kv.1)).
  - rewrite (decide_False (P := kv.1 < median)) by lia. done.
  - rewrite (decide_True (P := kv.1 < median)) by lia. cbn. by rewrite <- Permutation_middle.
Qed.

Lemma nodup_filter_keys (Q : Z * Z -> Prop) `{forall x, Decision (Q x)} (l : list (Z * Z)) :
  NoDup l.*1 -> NoDup (filter Q l).*1.
Proof.
  induction l as [|x l IH]; intros Hnd; [constructor|].
  cbn in Hnd. apply NoDup_cons in Hnd as [Hx Hnd]. rewrite filter_cons. case_decide; [|by apply IH]. cbn.
  apply NoDup_cons. split; [|by apply IH]. intros (y & E & Hy)%list_elem_of_fmap.
  apply list_elem_of_filter in Hy as [_ Hy]. apply Hx. rewrite E. by apply list_elem_of_fmap_2.
Qed.

Section one.
Context (n : ListNode) (median key val q : Z).
Context (Hn : node_ok n) (Hf : length (entries n) = MAX_ENTRIES) (Hkey : key ∉ (entries n).*1).
Context (Hmed : median ∈ (entries n).*1) (Hlow : exists k, k ∈ (entries n).*1 /\ k < median).

Lemma upper_small : (length (filter (fun kv => (median <= kv.1)%Z) (entries n)) < MAX_ENTRIES)%nat.
Proof.
  rewrite <- Hf. destruct Hlow as (k & (kv & -> & Hkv)%list_elem_of_fmap & Hlt).
  pose proof (filter_split_perm (entries n) median) as Hp. apply Permutation_length in Hp. rewrite length_app in Hp.
  assert (kv ∈ filter (fun x => x.1 < median) (entries n)) as Hin by (by apply list_elem_of_filter).
  destruct (filter (fun x => x.1 < median) (entries n)); [by apply elem_of_nil in Hin|]. cbn in Hp. lia.
Qed.

Lemma filter_nodup (Q : Z * Z -> Prop) `{forall x, Decision (Q x)} : NoDup (filter Q (entries n)).*1.
Proof. apply nodup_filter_keys, (no_nodup _ Hn). Qed.

Lemma key_not_filtered (Q : Z * Z -> Prop) `{forall x, Decision (Q x)} : key ∉ (filter Q (entries n)).*1.
Proof.
  intros (y & E & Hy)%list_elem_of_fmap. apply list_elem_of_filter in Hy as [_ Hy]. apply Hkey. rewrite E.
  by apply list_elem_of_fmap_2.
Qed.

Lemma split_new_spec : exists nn, split_new n q median key val (getKeyFingerPrint key) = Ok nn /\ node_ok nn /\
  entries nn ≡ₚ above n median (key, val) /\ ln_min nn = median /\ ln_max nn = ln_max n /\ curPtr nn = q /\
  nextPtr nn = nextPtr n /\ prevPtr nn = curPtr n /\ deleted nn = false /\ verLock nn = new_lock /\
  pLock nn = new_lock /\ lastScanVersion nn = 0.
Proof.
  destruct (full_entries n Hn Hf) as [_ Hu]. pose proof upper_small as Hs.
  pose proof (split_copy_spec n median Hn Hu (seq 0 MAX_ENTRIES) (new_node (pm_memory q)) 0) as Hc.
  rewrite upper_seq, new_node_entries, app_nil_r in Hc by done.
  destruct Hc as (n1 & E1 & Hn1 & Hf1 & Ep1 & Hs1).
  - apply Forall_forall. intros i Hi%elem_of_seq. lia.
  - apply new_node_ok.
  - intros j Hj. rewrite new_node_slots. destruct (lookup_lt_is_Some_2 (keyArray (pm_memory q)) j) as [x ->]; [|done].
    rewrite (proj1 (pm_arrays q)). lia.
  - apply filter_nodup.
  - lia.
  - change (Z.of_nat 0) with 0 in E1. unfold split_new. rewrite E1. cbn [mbind res_bind]. unfold above. cbn [fst]. destruct (Z.leb_spec median key) as [Hle|Hgt].
    + destruct (insertAtIndex_spec n1 (key, val) _ Hn1 (Hs1 _ (conj (le_n _) Hs))) as (n2 & E2 & Hn2 & Hf2 & _ & Ep2).
      { cbn. rewrite Ep1. apply key_not_filtered. }
      cbn [fst] in E2. rewrite E2. cbn [mbind res_bind]. eexists. split; [done|].
      pose proof (frame_trans _ _ _ Hf1 Hf2) as [F1 F2 F3 F4 F5 F6 F7 F8 F9 F10].
      split; [destruct Hn2; by split|]. split; [|by cbn; rewrite F7, F8, F9].
      rewrite decide_True by done. change (entries n2 ≡ₚ (key, val) :: filter (fun x => median <= x.1) (entries n)).
      by rewrite Ep2, Ep1.
    + eexists. split; [done|]. pose proof Hf1 as [F1 F2 F3 F4 F5 F6 F7 F8 F9 F10].
      split; [destruct Hn1; by split|]. split; [|by cbn; rewrite F7, F8, F9]. rewrite decide_False by lia. exact Ep1.
Qed.

Lemma split_old_spec : exists n', split_old n q median key val (getKeyFingerPrint key) = Ok n' /\ node_ok n' /\
  entries n' ≡ₚ below n median (key, val) /\ frame (setNext (setMax n median) q) n'.
Proof.
  destruct (full_entries n Hn Hf) as [He Hu]. unfold split_old.
  destruct (split_clear_spec n median Hn (seq 0 MAX_ENTRIES) (bitMap n) (Z.of_nat (getNumEntries n)) (-1))
    as (b & ne & ri & -> & Hb & Ht & _ & Hri); [apply Forall_forall; intros i Hi%elem_of_seq; lia|apply (no_bits _ Hn)|].
  cbn [mbind res_bind]. set (n1 := set_bitMap (setNext (setMax n median) q) b).
  assert (forall i kv, keyArray n !! i = Some kv -> (i < MAX_ENTRIES)%nat /\ used n1 i = negb (median <=? kv.1)) as Hu1.
  { intros i kv Hkv. pose proof (lookup_lt_Some _ _ _ Hkv) as Hi. rewrite (no_keys _ Hn) in Hi. split; [done|].
    unfold used, n1. cbn [bitMap set_bitMap]. rewrite (Ht i kv Hi Hkv). fold (used n i). rewrite Hu by done.
    rewrite bool_decide_true by (apply elem_of_seq; lia). done. }
  assert (entries n1 = filter (fun x => x.1 < median) (entries n)) as E1.
  { rewrite He. apply (entries_filter n1). intros i kv Hkv. destruct (Hu1 i kv Hkv) as [_ ->].
    destruct (Z.leb_spec median kv.1); cbn; split; try done; lia. }
  assert (node_ok n1) as Hn1.
  { split; try apply Hn; [done| |].
    - intros i kv [Hk _]%slot_used. apply (no_fp _ Hn). apply slot_used. split; [exact Hk|]. apply Hu, Hu1 with kv. exact Hk.
    - rewrite E1. apply filter_nodup. }
  unfold below. cbn [fst]. destruct (Z.ltb_spec key median) as [Hlt|Hge].
  - destruct Hri as (i & kv & _ & Hkv & Hm & ->); [done| |].
    { rewrite He in Hmed. apply list_elem_of_fmap in Hmed as (kv & Ek & Hin). apply list_elem_of_lookup in Hin as [i Hi].
      exists i, kv. split; [|split; [done|lia]]. apply elem_of_seq. apply lookup_lt_Some in Hi. rewrite (no_keys _ Hn) in Hi. lia. }
    rewrite (proj2 (Z.eqb_neq _ _)) by lia. cbn [negb].
    assert (slots n1 !! i = Some None) as Hs.
    { rewrite slots_lookup. change (keyArray n1) with (keyArray n). rewrite Hkv. cbn. destruct (Hu1 i kv Hkv) as [_ ->].
      by rewrite (proj2 (Z.leb_le _ _)). }
    destruct (insertAtIndex_spec n1 (key, val) i Hn1 Hs) as (n2 & E2 & Hn2 & Hf2 & _ & Ep2).
    { rewrite E1. apply key_not_filtered. }
    cbn [fst] in E2. rewrite E2. exists n2. split; [done|]. split; [done|]. split; [|eapply frame_trans; [|exact Hf2]; by split].
    rewrite decide_True by done. rewrite Ep2, E1. done.
  - exists n1. split; [done|]. split; [done|]. split; [|by split]. rewrite decide_False by lia. by rewrite E1.
Qed.
End one.
End nodes.
