(* ===== verification/LinkedListInsert.v ===== *)
(** Insertion into PACTree's data layer, splits included, implements insertion
    into a map. *)

From S2P Require Import Prelude NodeBits VersionedLock ListNode ListNodeFacts ListNodeScan LinkedList.
From S2P Require Import LinkedListInv LinkedListOps SplitFacts.

Local Open Scope Z_scope.

Section relink.
Context `{StdSort}.

(** * The nodes after a place, the first with a new predecessor *)

Definition relink (q : Z) (l2 : node_list) (t : Z * ListNode) : node_list * (Z * ListNode) :=
  match l2 with
  | [] => ([], (t.1, setPrev t.2 q))
  | (r, nr) :: l3 => ((r, setPrev nr q) :: l3, t)
  end.

Lemma relink_shape q l2 t : exists r nr L3, l2 ++ [t] = (r, nr) :: L3 /\
  (relink q l2 t).1 ++ [(relink q l2 t).2] = (r, setPrev nr q) :: L3.
Proof. destruct l2 as [|[r nr] l3]; [destruct t as [r nr]; by exists r, nr, []|by exists r, nr, (l3 ++ [t])]. Qed.

Lemma relink_ptrs q l2 t : (relink q l2 t).1.*1 = l2.*1 /\ (relink q l2 t).2.1 = t.1.
Proof. by destruct l2 as [|[]]. Qed.

Lemma relink_anchors q l2 t : anchors (relink q l2 t).1 = anchors l2.
Proof. by destruct l2 as [|[]]. Qed.

Lemma relink_flat q l2 t : flat (relink q l2 t).1 = flat l2.
Proof. by destruct l2 as [|[]]. Qed.

Lemma relink_linked p q l2 t : linked p (l2 ++ [t]) 0 -> linked q ((relink q l2 t).1 ++ [(relink q l2 t).2]) 0.
Proof. destruct (relink_shape q l2 t) as (r & nr & L3 & -> & ->). cbn. naive_solver. Qed.

Lemma relink_next p q l2 t nxt : next_of ((relink q l2 t).1 ++ [(relink q l2 t).2]) nxt = next_of (l2 ++ [t]) p.
Proof. by destruct (relink_shape q l2 t) as (r & nr & L3 & -> & ->). Qed.

Lemma relink_tiled lo q l2 t hi : tiled lo l2 hi -> tiled lo (relink q l2 t).1 hi.
Proof. by destruct l2 as [|[]]. Qed.

Lemma data_ok_prev n q : data_ok n -> data_ok (setPrev n q).
Proof. intros [[] ? ? ? ? ? ?]. by split. Qed.

Lemma relink_data q l2 t : Forall (fun x => data_ok x.2) l2 -> Forall (fun x => data_ok x.2) (relink q l2 t).1.
Proof.
  destruct l2 as [|[r nr] l3]; [done|]. intros [Hr Hl]%Forall_cons. cbn. apply Forall_cons. split; [by apply data_ok_prev|done].
Qed.

Lemma relink_tail q l2 t : tail_ok t.2 -> tail_ok (relink q l2 t).2.2.
Proof. destruct l2 as [|[r nr] l3]; [|done]. intros []. by split. Qed.

Lemma in_memory_agree m m' L : in_memory m L -> (forall x, x ∈ L.*1 -> m' !! x = m !! x) -> in_memory m' L.
Proof.
  unfold in_memory. rewrite !Forall_forall. intros Hm He [p n] Hin. rewrite He; [by apply Hm|].
  by apply (list_elem_of_fmap_2 fst) in Hin.
Qed.

Lemma relink_locks b q l2 t : locks_below b (l2 ++ [t]) -> locks_below b ((relink q l2 t).1 ++ [(relink q l2 t).2]).
Proof.
  destruct (relink_shape q l2 t) as (r & nr & L3 & -> & ->). unfold locks_below. rewrite !Forall_cons. done.
Qed.

Lemma relink_nonempty q l2 t : nonempty l2 -> nonempty (relink q l2 t).1.
Proof. destruct l2 as [|[r nr] l3]; [done|]. unfold nonempty. cbn. rewrite !Forall_cons. done. Qed.

Lemma relink_memory m m' q l2 t : in_memory m (l2 ++ [t]) -> NoDup (l2 ++ [t]).*1 ->
  (forall r nr L3, l2 ++ [t] = (r, nr) :: L3 -> m' !! r = Some (setPrev nr q)) ->
  (forall r nr L3 x, l2 ++ [t] = (r, nr) :: L3 -> x ∈ L3.*1 -> m' !! x = m !! x) ->
  in_memory m' ((relink q l2 t).1 ++ [(relink q l2 t).2]).
Proof.
  destruct (relink_shape q l2 t) as (r & nr & L3 & E & ->). rewrite E. intros Hm Hnd Hr Ho.
  apply Forall_cons. split; [by eapply Hr|]. apply Forall_cons in Hm as [_ Hm].
  eapply in_memory_agree; [exact Hm|]. intros x Hx. by eapply Ho.
Qed.
End relink.

Section insert.
Context `{StdSort} `{PO : PMemOk}.

(** * The list after a split *)

Lemma dl_inv_split d d' l1 p n l2 t n' q nn :
  dl_inv d (l1 ++ (p, n) :: l2) t -> q ∉ (l1 ++ (p, n) :: l2 ++ [t]).*1 -> q <> 0 -> getVaddr q = q ->
  (forall r nr L3, l2 ++ [t] = (r, nr) :: L3 ->
     dl_nodes d' !! r = Some (setPrev nr q) /\ dl_nodes d' !! p = Some n' /\ dl_nodes d' !! q = Some nn /\
     forall x, x <> p -> x <> q -> x <> r -> dl_nodes d' !! x = dl_nodes d !! x) ->
  headPtr d' = headPtr d -> genId d' = genId d ->
  curPtr n' = curPtr n -> prevPtr n' = prevPtr n -> nextPtr n' = q -> ln_min n' = ln_min n ->
  curPtr nn = q -> prevPtr nn = curPtr n -> nextPtr nn = nextPtr n -> ln_min nn = ln_max n' -> ln_max nn = ln_max n ->
  ln_min n < ln_max n' < ln_max n -> data_ok n' -> data_ok nn ->
  (0, 0) ∈ flat (l1 ++ (p, n') :: (q, nn) :: l2) ->
  dl_inv d' (l1 ++ (p, n') :: (q, nn) :: (relink q l2 t).1) (relink q l2 t).2.
Proof.
  intros [A B C D E F G T Zr] Hq Hqz Hqv Hmem Eh Eg Ec Ep En Em Ec2 Ep2 En2 Em2 EM2 Hr Hd' Hdn Hz.
  rewrite <- app_assoc in C, D, E. cbn [app] in C, D, E. destruct (relink_ptrs q l2 t) as [P1 P2].
  split; rewrite <- ?app_assoc; cbn [app].
  - by rewrite Eg.
  - rewrite Eh, B. by destruct l1 as [|[]].
  - destruct (relink_shape q l2 t) as (r & nr & L3 & E2 & E3). destruct (Hmem r nr L3 E2) as (Mr & Mp & Mq & Mo).
    rewrite E2 in C, D, Hq. rewrite E3. rewrite fmap_app in D, Hq. cbn in D, Hq.
    rewrite NoDup_app, !NoDup_cons in D. destruct D as (_ & D1 & (Dp & Dr & _)).
    apply Forall_app in C as [C1 [_ [_ C3]%Forall_cons]%Forall_cons].
    apply Forall_app. split; [|repeat (apply Forall_cons; split; [done|])]; eapply in_memory_agree; try done; intros x Hx.
    + apply Mo; intros ->; [apply (D1 p Hx); left|apply Hq, elem_of_app; by left|apply (D1 r Hx); right; left].
    + apply Mo; intros ->; [apply Dp; by right|apply Hq, elem_of_app; right; by do 2 right|done].
  - destruct (relink_shape q l2 t) as (r & nr & L3 & E2 & E3). rewrite E2 in D, Hq. rewrite E3.
    rewrite fmap_app in D, Hq |- *. cbn in D, Hq |- *.
    assert (l1.*1 ++ p :: q :: r :: L3.*1 ≡ₚ q :: l1.*1 ++ p :: r :: L3.*1) as ->.
    { rewrite !Permutation_middle. by rewrite (Permutation_swap q p). }
    by apply NoDup_cons.
  - apply linked_app in E as [E1 E2]. cbn in E2. destruct E2 as ((Hpz & Hpv) & Ecp & Epp & Enp & E3).
    apply linked_app. split; [exact E1|]. cbn. rewrite Ec, Ep, Ec2, Ep2, En2.
    split; [done|]. split; [done|]. split; [done|]. split; [done|]. split; [done|]. split; [done|].
    split; [congruence|]. split; [rewrite Enp; symmetry; by apply relink_next|]. by eapply relink_linked.
  - apply tiled_app in F as (mid & F1 & F2). apply tiled_app. exists mid. split; [done|]. cbn in F2 |- *.
    destruct F2 as (F2 & F3 & F4). rewrite Em, EM2. split; [done|]. split; [lia|]. split; [done|]. split; [lia|].
    by apply relink_tiled.
  - apply Forall_app in G as [G1 [_ G2]%Forall_cons]. apply Forall_app. split; [done|].
    apply Forall_cons. split; [done|]. apply Forall_cons. split; [done|]. by apply relink_data.
  - by apply relink_tail.
  - fold (flat (l1 ++ (p, n') :: (q, nn) :: (relink q l2 t).1)). rewrite flat_app in Hz |- *.
    change (flat ((p, n') :: (q, nn) :: (relink q l2 t).1)) with (entries n' ++ entries nn ++ flat (relink q l2 t).1).
    by rewrite relink_flat.
Qed.

(** * Insertion *)

(** The node an entry of the log of a thread names, with its anchor key. *)
Definition logged_anchor (o : OpStruct) : Z * Z := (os_newNodeOid o, os_key o).

(** An entry as [split] writes it. *)
Definition log_entry (o : OpStruct) : Prop := os_op o = OpInsert /\ os_hash o = pm_hash /\ 0 < os_newNodeOid o < 2 ^ 63.

(** What an insertion does to the list: the new nodes are those that are
    logged. *)
Record inserted (d : dlist) (l : node_list) (t : Z * ListNode) (key v : Z) (d' : dlist) (l' : node_list) (t' : Z * ListNode)
  : Prop := {
  in_inv : dl_inv d' l' t';
  in_tail : t'.1 = t.1;
  in_map : dl_map l' = match dl_map l !! key with Some _ => dl_map l | None => <[key := v]> (dl_map l) end;
  in_log : exists ops, dl_log d' = dl_log d ++ ops /\ Forall log_entry ops /\ anchors l' ≡ₚ (logged_anchor <$> ops) ++ anchors l;
  in_size : (size (dl_nodes d') <= S (size (dl_nodes d)))%nat;
  in_locks : locks_grow (l ++ [t]) (l' ++ [t']);
  in_nonempty : nonempty l -> nonempty l';
}.

Lemma put_log p n d : dl_log (put_node p n d) = dl_log d.
Proof. done. Qed.

(** A change in place: the map of the list from that of the node. *)
Lemma inserted_in_place d l1 p n l2 t key v n2 : at_node d l1 p n l2 t key -> frame (held n) n2 -> node_ok n2 ->
  (node_map n !! key <> None /\ entries n2 = entries n) \/
  (node_map n !! key = None /\ entries n2 ≡ₚ (key, v) :: entries n) ->
  inserted d (l1 ++ (p, n) :: l2) t key v (put_node p (writeUnlock n2) d) (l1 ++ (p, writeUnlock n2) :: l2) t.
Proof.
  intros Ha Hf Hn He. pose proof (an_data _ _ _ _ _ _ _ Ha) as Hd.
  assert (dl_inv (put_node p (writeUnlock n2) d) (l1 ++ (p, writeUnlock n2) :: l2) t) as Hi'.
  { apply (write_in_place _ _ _ _ _ _ _ _ Ha Hf Hn).
    - destruct He as [[_ ->]|[_ ->]]; [apply Hd|]. apply Forall_cons. split; [apply Ha|apply Hd].
    - destruct He as [[_ ->]|[_ ->]]; [done|]. by right. }
  split; [done|done| | | |by apply (write_locks _ _ _ _ _ _ _ _ Ha)|].
  - rewrite (an_map _ _ _ _ _ _ _ Ha). destruct He as [[Hk E]|[Hk E]].
    + destruct (node_map n !! key); [|done]. unfold dl_map. rewrite !flat_app.
      change (flat ((p, writeUnlock n2) :: l2)) with (entries n2 ++ flat l2). by rewrite E.
    + rewrite Hk. rewrite (map_of_perm (l1 ++ (p, writeUnlock n2) :: l2) key v (entries n ++ flat (l1 ++ l2)) 0 ULLONG_MAX);
        [|apply Hi'|apply Hi'|rewrite flat_middle; change (entries (writeUnlock n2)) with (entries n2); by rewrite E].
      f_equal. apply list_to_map_perm; [|by rewrite flat_middle].
      rewrite <- (flat_middle l1 p n l2). eapply flat_nodup; apply Ha.
  - exists []. split; [by rewrite app_nil_r|]. split; [done|]. by rewrite (anchors_replace _ _ n) by exact (fr_min _ _ Hf).
  - rewrite (put_size _ _ _ _ (at_node_some _ _ _ _ _ _ _ Ha)). lia.
  - apply nonempty_replace. change (entries (writeUnlock n2)) with (entries n2).
    destruct He as [[_ ->]|[_ E]]; [done|]. intros _. by eapply perm_nonempty.
Qed.

(** The nodes [node_insert] leaves when it splits: the old node (still
    locked), the new node and the neighbour. *)
Record split_result (d : dlist) (p : Z) (n : ListNode) (r : Z) (nr : ListNode) (key v : Z) (d' : dlist) (n' : ListNode)
    (q : Z) (nn : ListNode) (median : Z) : Prop := {
  sr_fresh : q <> 0 /\ getVaddr q = q /\ dl_nodes d !! q = None;
  sr_nodes : dl_nodes d' = <[r := setPrev nr q]> (<[p := n']> (<[q := nn]> (dl_nodes d)));
  sr_head : headPtr d' = headPtr d /\ genId d' = genId d;
  sr_log : exists op, dl_log d' = dl_log d ++ [op] /\ log_entry op /\ os_newNodeOid op = q /\ os_key op = median;
  sr_median : ln_min n < median < ln_max n;
  sr_halves : above n median (key, v) <> [] /\ below n median (key, v) <> [];
  sr_old : node_ok n' /\ entries n' ≡ₚ below n median (key, v) /\ frame (setNext (setMax (held n) median) q) n';
  sr_new : node_ok nn /\ entries nn ≡ₚ above n median (key, v) /\ ln_min nn = median /\ ln_max nn = ln_max n /\
    curPtr nn = q /\ nextPtr nn = nextPtr n /\ prevPtr nn = curPtr n /\ deleted nn = false /\ verLock nn = new_lock /\
    pLock nn = new_lock /\ lastScanVersion nn = 0;
}.

Lemma median_range n median : data_ok n -> median ∈ (entries n).*1 -> (exists k, k ∈ (entries n).*1 /\ k < median) ->
  ln_min n < median < ln_max n.
Proof.
  intros Hd (x & -> & Hx)%list_elem_of_fmap (k & (y & -> & Hy)%list_elem_of_fmap & Hlt).
  pose proof (da_range _ Hd) as Hr. rewrite Forall_forall in Hr. pose proof (Hr _ Hx). pose proof (Hr _ Hy). lia.
Qed.

(** Both halves get a pair. *)
Lemma halves_nonempty n median kv : median ∈ (entries n).*1 -> (exists k, k ∈ (entries n).*1 /\ k < median) ->
  above n median kv <> [] /\ below n median kv <> [].
Proof.
  intros (x & -> & Hx)%list_elem_of_fmap (k & (y & -> & Hy)%list_elem_of_fmap & Hlt). unfold above, below.
  split; intros [_ E]%app_eq_nil.
  - apply (elem_of_nil x). rewrite <- E. by apply list_elem_of_filter.
  - apply (elem_of_nil y). rewrite <- E. by apply list_elem_of_filter.
Qed.

Lemma get_put_ne d p q n : q <> p -> get_node (put_node p n d) q = get_node d q.
Proof. intros Hq. unfold get_node. cbn. by rewrite lookup_insert_ne. Qed.

Lemma get_next_log d p : get_node (next_log d) p = get_node d p.
Proof. done. Qed.

Lemma get_enq d p o : get_node (enqPerThreadLog o d) p = get_node d p.
Proof. done. Qed.

(** The successor of a node. *)
Lemma at_node_next d l1 p n l2 t key : at_node d l1 p n l2 t key -> exists r nr L3, l2 ++ [t] = (r, nr) :: L3 /\
  r <> p /\ getNext n = r /\ get_node d r = Ok nr /\ r <> 0.
Proof.
  intros Ha. pose proof (an_inv _ _ _ _ _ _ _ Ha) as Hi. destruct (relink_shape 0 l2 t) as (r & nr & L3 & E & _).
  exists r, nr, L3. split; [done|]. pose proof (di_nodup _ _ _ Hi) as Hnd. pose proof (di_linked _ _ _ Hi) as Hl.
  rewrite <- app_assoc in Hnd, Hl. cbn [app] in Hnd, Hl. rewrite E in Hnd, Hl.
  rewrite fmap_app in Hnd. cbn in Hnd. rewrite NoDup_app, NoDup_cons in Hnd. destruct Hnd as (_ & _ & Hp & _).
  apply linked_app in Hl as [_ Hl]. cbn in Hl. destruct Hl as (_ & _ & _ & Hn & (Hz & Hv) & _).
  split; [intros ->; apply Hp; left|]. split; [unfold getNext; by rewrite Hn|]. split; [|done].
  apply (in_memory_node _ _ _ _ _ Hi). rewrite <- app_assoc. cbn [app]. rewrite E. apply elem_of_app. right. right. left.
Qed.

Lemma node_insert_split d l1 p n l2 t key v : at_node d l1 p n l2 t key -> key ∉ (entries n).*1 ->
  length (entries n) = MAX_ENTRIES -> getFreeIndex (held n) key (getKeyFingerPrint key) = Ok (-2) ->
  (size (dl_nodes d) < pm_heap)%nat ->
  forall r nr L3, l2 ++ [t] = (r, nr) :: L3 ->
  exists d' n' q nn median, node_insert (put_node p (held n) d) p key v = Ok (true, d') /\
    split_result d p n r nr key v d' n' q nn median.
Proof.
  intros Ha Hk Hfull Hfree Hroom r nr L3 E3. pose proof (an_data _ _ _ _ _ _ _ Ha) as Hd.
  pose proof (at_node_nz _ _ _ _ _ _ _ Ha) as Hp. pose proof (at_node_some _ _ _ _ _ _ _ Ha) as Hmp.
  destruct (at_node_next _ _ _ _ _ _ _ Ha) as (r' & nr' & L3' & E3' & Hrp & Hnx & Hgr & Hrz).
  assert (r' = r /\ nr' = nr) as [-> ->] by (rewrite E3 in E3'; by injection E3').
  pose proof (node_ok_held n (verLock n + 1) (da_node _ Hd)) as Hn. fold (held n) in Hn.
  unfold node_insert. rewrite get_put by done. cbn [mbind res_bind]. rewrite Hfree. cbn [mbind res_bind].
  change (-2 =? -1) with false. change (-2 =? -2) with true. cbv iota. unfold split. rewrite get_put by done.
  cbn [mbind res_bind].
  destruct (split_median_spec (held n) Hn Hfull) as (median & -> & Hmed & Hlow). cbn [mbind res_bind].
  change (dl_nodes (next_log (put_node p (held n) d))) with (dl_nodes (put_node p (held n) d)).
  set (q := pm_alloc (dl_nodes (put_node p (held n) d))).
  destruct (pm_room (dl_nodes (put_node p (held n) d))) as [Hqz ->]; [by rewrite (put_size _ _ _ _ Hmp)|]. fold q in Hqz. cbn [negb].
  destruct (pm_fresh _ Hqz) as [Hqf Hqv]. fold q in Hqf, Hqv.
  assert (q <> p) as Hqp by (intros Eq; rewrite Eq in Hqf; cbn in Hqf; by rewrite lookup_insert_eq in Hqf).
  assert (dl_nodes d !! q = None) as Hqn by (cbn in Hqf; by rewrite lookup_insert_ne in Hqf).
  assert (q <> r) as Hqr by (intros Eq; rewrite <- Eq in Hgr; unfold get_node in Hgr; rewrite Hqn, (proj2 (Z.eqb_neq q 0)) in Hgr by done; done).
  rewrite Hqv. rewrite (proj2 (Z.eqb_neq q 0)) by done.
  destruct (split_new_spec (held n) median key v q Hn Hfull Hk Hlow) as (nn & -> & Hnn & Enn & Rnn).
  destruct (split_old_spec (held n) median key v q Hn Hfull Hk Hmed) as (n' & -> & Hn' & En' & Fn').
  cbn [mbind res_bind]. pose proof Rnn as (Rm & RM & Rc & Rnx & Rp & Rdel & Rv & Rpl & Rls).
  assert (getNext nn = r) as Enx by (unfold getNext; rewrite Rnx; exact Hnx).
  rewrite Enx. rewrite !get_put_ne, get_next_log, get_put_ne by done. rewrite Hgr. cbn [mbind res_bind].
  rewrite get_enq, !get_put_ne, get_put by done. cbn [mbind res_bind]. rewrite Enx, get_enq, get_put by done.
  cbn [mbind res_bind].
  eexists _, n', q, nn, median. split; [done|]. split; try done.
  - cbn. rewrite insert_insert_eq. rewrite (insert_insert_ne _ q p) by done. by rewrite insert_insert_eq.
  - eexists. split; [done|]. split; [|done]. split; [done|]. split; [done|]. pose proof (pm_sign (dl_nodes (put_node p (held n) d))). cbn. lia.
  - by apply median_range.
  - by apply halves_nonempty.
Qed.

Lemma above_range n median kv : Forall (fun x => median <= x.1) (above n median kv).
Proof.
  unfold above. apply Forall_app. split; [case_decide; [by apply Forall_singleton|constructor]|].
  apply Forall_forall. by intros x [? _]%list_elem_of_filter.
Qed.

Lemma below_range n median kv : Forall (fun x => x.1 < median) (below n median kv).
Proof.
  unfold below. apply Forall_app. split; [case_decide; [by apply Forall_singleton|constructor]|].
  apply Forall_forall. by intros x [? _]%list_elem_of_filter.
Qed.

(** Both nodes are well formed, the old one after its unlock. *)
Lemma split_data d p n r nr key v d' n' q nn median : data_ok n -> lock_free (verLock n) -> ln_min n <= key < ln_max n ->
  split_result d p n r nr key v d' n' q nn median -> data_ok (writeUnlock n') /\ data_ok nn.
Proof.
  intros Hd Hf Hk [_ _ _ _ Hm _ (Hn' & En' & [F1 F2 F3 F4 F5 F6 F7 F8 F9 F10]) (Hnn & Enn & R1 & R2 & R3 & R4 & R5 & R6 & R7 & R8 & R9)].
  assert (Forall (fun x => ln_min n <= x.1 < ln_max n) (above n median (key, v) ++ below n median (key, v))) as Hall.
  { rewrite above_below. apply Forall_cons. split; [done|apply Hd]. }
  apply Forall_app in Hall as [Ha Hb]. pose proof (da_version _ Hd). unfold held in *. cbn in *. split; split; cbn; try congruence.
  - by apply node_ok_held.
  - rewrite F6. apply Hd.
  - rewrite F7, write_unlock_held by done. apply lock_ok_next, Hd.
  - rewrite F9. apply Hd.
  - rewrite F7, F8, write_unlock_held by done. lia.
  - rewrite F7, F8, write_unlock_held by done. lia.
  - change (entries (writeUnlock n')) with (entries n'). rewrite En', F1, F2. pose proof (below_range n median (key, v)) as Hlt.
    rewrite Forall_forall in Hb, Hlt |- *. intros x Hx. specialize (Hb x Hx). specialize (Hlt x Hx). lia.
  - by rewrite R7.
  - by rewrite R8.
  - rewrite R7, R9. unfold new_lock. lia.
  - rewrite R7, R9. unfold new_lock. lia.
  - rewrite Enn, R1, R2. pose proof (above_range n median (key, v)) as Hlt.
    rewrite Forall_forall in Ha, Hlt |- *. intros x Hx. specialize (Ha x Hx). specialize (Hlt x Hx). lia.
Qed.

Lemma writeUnlock_fields n : curPtr (writeUnlock n) = curPtr n /\ nextPtr (writeUnlock n) = nextPtr n /\
  prevPtr (writeUnlock n) = prevPtr n /\ ln_min (writeUnlock n) = ln_min n /\ ln_max (writeUnlock n) = ln_max n /\
  entries (writeUnlock n) = entries n.
Proof. done. Qed.

(** The list after a split and the unlock of the old node. *)
Lemma inserted_split d l1 p n l2 t key v r nr L3 d' n' q nn median : at_node d l1 p n l2 t key -> node_map n !! key = None ->
  l2 ++ [t] = (r, nr) :: L3 -> r <> p -> split_result d p n r nr key v d' n' q nn median ->
  inserted d (l1 ++ (p, n) :: l2) t key v (put_node p (writeUnlock n') d')
    (l1 ++ (p, writeUnlock n') :: (q, nn) :: (relink q l2 t).1) (relink q l2 t).2.
Proof.
  intros Ha Hk E3 Hrp Hs. pose proof (an_data _ _ _ _ _ _ _ Ha) as Hd. pose proof (an_inv _ _ _ _ _ _ _ Ha) as Hi.
  destruct (split_data _ _ _ _ _ _ _ _ _ _ _ _ Hd (an_free _ _ _ _ _ _ _ Ha) (an_key _ _ _ _ _ _ _ Ha) Hs) as [Dn' Dnn].
  destruct Hs as [(Hqz & Hqv & Hqn) Em [Eh Eg] (op & El & Eo1 & Eo2 & Eo3) Hm Hhalf (Hn' & En' & [F1 F2 F3 F4 F5 F6 F7 F8 F9 F10])
    (Hnn & Enn & R1 & R2 & R3 & R4 & R5 & R6 & R7 & R8 & R9)].
  unfold held in F1, F2, F3, F4, F5. cbn in F1, F2, F3, F4, F5.
  assert (flat (l1 ++ (p, writeUnlock n') :: (q, nn) :: l2) ≡ₚ (key, v) :: flat (l1 ++ (p, n) :: l2)) as Ep.
  { rewrite !flat_app. change (flat l1 ++ entries n' ++ entries nn ++ flat l2 ≡ₚ (key, v) :: flat l1 ++ entries n ++ flat l2).
    rewrite Permutation_middle. f_equiv. rewrite En', Enn, (assoc_L (++)), (Permutation_app_comm (below _ _ _)), above_below. done. }
  assert (forall x nx, (x, nx) ∈ l1 ++ (p, n) :: l2 ++ [t] -> x <> q) as Hqx.
  { intros x nx Hx ->. pose proof (di_mem _ _ _ Hi) as Hmm. rewrite <- app_assoc in Hmm. unfold in_memory in Hmm.
    rewrite Forall_forall in Hmm. specialize (Hmm _ Hx). cbn in Hmm. congruence. }
  assert (q <> p) as Hqp by (intros ->; eapply (Hqx p n); [apply middle_elem|done]).
  assert (q <> r) as Hqr by (intros ->; eapply (Hqx r nr); [rewrite E3; set_solver|done]).
  assert (dl_inv (put_node p (writeUnlock n') d') (l1 ++ (p, writeUnlock n') :: (q, nn) :: (relink q l2 t).1) (relink q l2 t).2) as Hi'.
  { eapply dl_inv_split; try exact Hi; try done.
    - intros ([x nx] & Ex & Hx)%list_elem_of_fmap. cbn in Ex. eapply Hqx; [exact Hx|done].
    - intros r' nr' L3' E3'. rewrite E3 in E3'. injection E3' as <- <- _. cbn. rewrite Em.
      split; [by rewrite lookup_insert_ne, lookup_insert_eq|]. split; [by rewrite lookup_insert_eq|].
      split; [by rewrite lookup_insert_ne, lookup_insert_ne, lookup_insert_ne, lookup_insert_eq|].
      intros x Hx1 Hx2 Hx3. by rewrite !lookup_insert_ne.
    - by cbn; rewrite F2.
    - cbn. by rewrite F2.
    - rewrite Ep. right. apply (di_zero _ _ _ Hi). }
  destruct (relink_ptrs q l2 t) as [P1 P2]. split; [done|done| | | |..].
  - rewrite (an_map _ _ _ _ _ _ _ Ha), Hk. unfold dl_map. symmetry. rewrite <- list_to_map_cons. apply list_to_map_perm.
    + rewrite <- Ep. assert (flat (l1 ++ (p, writeUnlock n') :: (q, nn) :: l2) =
        flat (l1 ++ (p, writeUnlock n') :: (q, nn) :: (relink q l2 t).1)) as ->.
      { rewrite !flat_app. f_equal. change (entries (writeUnlock n') ++ entries nn ++ flat l2 =
          entries (writeUnlock n') ++ entries nn ++ flat (relink q l2 t).1). by rewrite relink_flat. }
      eapply flat_nodup; apply Hi'.
    + rewrite <- Ep, !flat_app. f_equiv. change (entries (writeUnlock n') ++ entries nn ++ flat l2 ≡ₚ
          entries (writeUnlock n') ++ entries nn ++ flat (relink q l2 t).1). by rewrite relink_flat.
  - exists [op]. cbn. split; [done|]. split; [by apply Forall_singleton|]. unfold anchors, logged_anchor. rewrite Eo2, Eo3, !fmap_app. cbn.
    fold (anchors (relink q l2 t).1) (anchors l2). rewrite relink_anchors, F1, R1, (Permutation_swap (q, median)). by rewrite !Permutation_middle.
  - cbn. rewrite Em. rewrite map_size_insert_Some by (rewrite lookup_insert_ne, lookup_insert_eq by done; done).
    pose proof (at_node_some _ _ _ _ _ _ _ Ha) as Hp.
    rewrite map_size_insert_Some.
    2: { rewrite !lookup_insert_ne by done. pose proof (di_mem _ _ _ Hi) as Hmm. rewrite <- app_assoc in Hmm. cbn [app] in Hmm.
         rewrite E3 in Hmm. apply Forall_app in Hmm as [_ [_ [Hr _]%Forall_cons]%Forall_cons]. by exists nr. }
    rewrite map_size_insert_Some by (rewrite lookup_insert_ne by done; by exists n).
    by rewrite map_size_insert_None.
  - intros b Hb Hl. rewrite <- !app_assoc in Hl |- *. cbn [app] in Hl |- *. unfold locks_below in *.
    apply Forall_app in Hl as [L1 [L2 L4]%Forall_cons]. apply Forall_app. split; [eapply (locks_below_mono b); [lia|done]|].
    apply Forall_cons. unfold held in F7, F9. cbn in F7, F9, L2 |- *. rewrite F7, F9, write_unlock_held by apply Ha. cbn. split; [lia|].
    apply Forall_cons. cbn. rewrite R7, R8. split; [lia|]. apply relink_locks. eapply (locks_below_mono b); [lia|done].
  - intros Hne. unfold nonempty in *. apply Forall_app in Hne as [N1 [_ N2]%Forall_cons]. apply Forall_app. split; [done|].
    apply Forall_cons. split; [|apply Forall_cons; split; [|by apply relink_nonempty]]; cbn [snd].
    + change (entries (writeUnlock n')) with (entries n'). intros E. rewrite E in En'. apply (proj2 Hhalf), Permutation_nil. exact En'.
    + intros E. rewrite E in Enn. apply (proj1 Hhalf), Permutation_nil. exact Enn.
Qed.

Lemma dl_insert_spec d l t key v s : dl_inv d l t -> locks_fresh l -> 0 <= key < ULLONG_MAX -> s ∈ (l ++ [t]).*1 ->
  (size (dl_nodes d) < pm_heap)%nat ->
  exists d' l' t', insert d key v s = Ok (Some (bool_decide (dl_map l !! key = None), d')) /\ inserted d l t key v d' l' t'.
Proof.
  intros Hi Hf Hk Hs Hroom. destruct (walk_at d l t key s Hi Hf Hk Hs) as (l1 & p & n & l2 & -> & Hw & Ha).
  pose proof (at_node_nz _ _ _ _ _ _ _ Ha) as Hp. pose proof (an_data _ _ _ _ _ _ _ Ha) as Hd.
  pose proof (node_ok_held n (verLock n + 1) (da_node _ Hd)) as Hn. fold (held n) in Hn.
  unfold insert. rewrite Hw. cbn [mbind res_bind]. rewrite (locked_spec _ _ _ _ _ _ _ _ Ha), (an_map _ _ _ _ _ _ _ Ha).
  destruct (getFreeIndex_spec (held n) key Hn) as [[Hin E]|[Hno [[Hfull E]|(i & Hsl & E)]]].
  - unfold node_insert. rewrite get_put by done. cbn [mbind res_bind]. rewrite E. cbn [mbind res_bind].
    change (-1 =? -1) with true. cbv iota. cbn [mbind res_bind]. rewrite get_put by done. cbn [mbind res_bind]. rewrite put_put.
    assert (node_map n !! key <> None) as Hnm by (intros Hnone; by apply node_map_none in Hnone).
    rewrite bool_decide_false by done. eexists _, _, _. split; [done|].
    apply (inserted_in_place _ _ _ _ _ _ _ _ (held n) Ha); [apply frame_refl|done|by left].
  - destruct (at_node_next _ _ _ _ _ _ _ Ha) as (r & nr & L3 & E3 & Hrp & _).
    destruct (node_insert_split _ _ _ _ _ _ _ v Ha Hno Hfull E Hroom r nr L3 E3) as (d' & n' & q & nn & median & -> & Hsr).
    cbn [mbind res_bind]. assert (get_node d' p = Ok n') as ->.
    { unfold get_node. rewrite (proj2 (Z.eqb_neq p 0)), (sr_nodes _ _ _ _ _ _ _ _ _ _ _ _ Hsr) by done.
      by rewrite lookup_insert_ne, lookup_insert_eq. }
    cbn [mbind res_bind]. apply node_map_none in Hno as Hnm. change (node_map (held n)) with (node_map n) in Hnm.
    rewrite bool_decide_true by done. eexists _, _, _. split; [done|]. by eapply inserted_split.
  - pose proof (node_slot_lt _ _ _ Hn Hsl) as Hi64.
    destruct (insertAtIndex_spec (held n) (key, v) i Hn Hsl Hno) as (n2 & E2 & Hn2 & Hf2 & _ & Ep2). cbn [fst] in E2.
    unfold node_insert. rewrite get_put by done. cbn [mbind res_bind]. rewrite E. cbn [mbind res_bind].
    rewrite (proj2 (small_index i Hi64)), (proj2 (Z.eqb_neq _ (-2))), (proj1 (small_index i Hi64)) by lia.
    rewrite E2. cbn [mbind res_bind]. rewrite get_put by done. cbn [mbind res_bind]. rewrite !put_put.
    apply node_map_none in Hno as Hnm. change (node_map (held n)) with (node_map n) in Hnm.
    rewrite bool_decide_true by done. eexists _, _, _. split; [done|].
    apply (inserted_in_place _ _ _ _ _ _ _ _ n2 Ha); [done|done|by right].
Qed.
(** C13. Insertion into PACTree's data layer, started at any node of the list: when the key is absent
    the new list holds the map with the pair added, else the map is unchanged and the call returns false.  It ends (no
    walk runs out, no lock is refused), the list keeps its invariant (doubly linked, ranges tile the key space, nodes
    well formed) also when the node is full and splits.  Exactly the new nodes are logged: the nodes of the new list,
    each with the first key of its range, are the old ones and those that the entries added to the log of the thread
    name, as insertions under that key. *)
Theorem dl_insert_correct d l t key v s : dl_inv d l t -> locks_fresh l -> 0 <= key < ULLONG_MAX -> s ∈ (l ++ [t]).*1 ->
  (size (dl_nodes d) < pm_heap)%nat ->
  exists d' l' t', insert d key v s = Ok (Some (bool_decide (dl_map l !! key = None), d')) /\ dl_inv d' l' t' /\
    dl_map l' = match dl_map l !! key with Some _ => dl_map l | None => <[key := v]> (dl_map l) end /\
    exists ops, dl_log d' = dl_log d ++ ops /\ Forall log_entry ops /\ anchors l' ≡ₚ (logged_anchor <$> ops) ++ anchors l.
Proof.
  intros Hi Hf Hk Hs Hr. destruct (dl_insert_spec d l t key v s Hi Hf Hk Hs Hr) as (d' & l' & t' & E & []). by exists d', l', t'.
Qed.

End insert.
