(* ===== verification/LinkedListRemove.v ===== *)
(** Removal from PACTree's data layer, merges included, implements deletion
    from a map. *)

From S2P Require Import Prelude NodeBits VersionedLock ListNode ListNodeFacts ListNodeScan LinkedList.
From S2P Require Import LinkedListInv LinkedListOps SplitFacts LinkedListInsert.

Local Open Scope Z_scope.

(** * Copying the entries of one node to the free slots of another *)

Lemma head_filter_seq (u : nat -> bool) a m j : head (filter (fun i => u i = false) (seq a m)) = Some j ->
  u j = false /\ (a <= j < a + m)%nat /\ forall k, (a <= k < j)%nat -> u k = true.
Proof.
  revert a. induction m as [|m IH]; intros a; cbn [seq]; [done|]. rewrite filter_cons.
  destruct (decide (u a = false)) as [Ha|Ha]; cbn.
  - intros [= <-]. split; [done|]. split; [lia|]. intros k Hk. lia.
  - intros (Hj & Hr & Hk)%IH. split; [done|]. split; [lia|]. intros k Hka.
    destruct (decide (k = a)) as [->|]; [by destruct (u a)|]. apply Hk. lia.
Qed.

Lemma head_filter_none (u : nat -> bool) a m : head (filter (fun i => u i = false) (seq a m)) = None ->
  forall k, (a <= k < a + m)%nat -> u k = true.
Proof.
  intros Hh%head_None k Hk. destruct (u k) eqn:E; [done|]. exfalso.
  assert (k ∈ filter (fun i => u i = false) (seq a m)) as Hin by (apply list_elem_of_filter; rewrite elem_of_seq; naive_solver lia).
  rewrite Hh in Hin. by apply elem_of_nil in Hin.
Qed.

(** A node that is not full has a free slot from [cur] on when the slots
    before it are used. *)
Lemma free_from n cur : node_ok n -> (forall k, (k < cur)%nat -> used n k = true) -> (length (entries n) < MAX_ENTRIES)%nat ->
  exists j, head (filter (fun i => used n i = false) (seq cur (MAX_ENTRIES - cur))) = Some j /\
    slots n !! j = Some None /\ (forall k, (k < j)%nat -> used n k = true) /\ (j < MAX_ENTRIES)%nat.
Proof.
  intros Hn Hu Hlt. destruct (head _) as [j|] eqn:E.
  - apply head_filter_seq in E as (Hj & Hr & Hk). exists j. split; [done|].
    destruct (node_slot_some n j Hn) as [o Ho]; [unfold MAX_ENTRIES in Hr; lia|]. split; [|split; [|lia]].
    + rewrite Ho, slots_lookup in *. destruct (keyArray n !! j); [|done]. cbn in Ho. rewrite Hj in Ho. by injection Ho as <-.
    + intros k Hkj. destruct (decide (k < cur)%nat); [by apply Hu|]. apply Hk. lia.
  - exfalso. pose proof (head_filter_none _ _ _ E) as Ha.
    assert (length (entries n) = MAX_ENTRIES) as Hf; [|lia].
    rewrite <- getNumEntries_spec by done. unfold getNumEntries. rewrite <- (length_seq MAX_ENTRIES 0) at 2. f_equal.
    apply filter_all, Forall_forall. intros i Hi%elem_of_seq. destruct (decide (i < cur)%nat); [by apply Hu|]. apply Ha. lia.
Qed.

(** The pairs of the slots [idx]. *)
Definition pairs_at (n : ListNode) (idx : list nat) : list (Z * Z) := omap (fun i => mjoin (slots n !! i)) idx.

Lemma omap_mjoin_seq {A} (l : list (option A)) : omap (fun i => mjoin (l !! i)) (seq 0 (length l)) = omap id l.
Proof.
  induction l as [|x l IH] using rev_ind; [done|]. rewrite length_app. cbn [length]. rewrite seq_app, !omap_app. cbn.
  rewrite lookup_app_r, Nat.sub_diag by lia. cbn. rewrite <- IH. f_equal. clear IH.
  assert (forall k, Forall (fun i => (i < length l)%nat) k ->
    omap (fun i => mjoin ((l ++ [x]) !! i)) k = omap (fun i => mjoin (l !! i)) k) as E.
  { induction 1 as [|i k Hi _ IHk]; [done|]. cbn. rewrite lookup_app_l by done. by rewrite IHk. }
  apply E, Forall_forall. intros i Hi%elem_of_seq. lia.
Qed.

Lemma pairs_at_all n : node_ok n -> pairs_at n (seq 0 MAX_ENTRIES) = entries n.
Proof. intros Hn. unfold pairs_at, entries. rewrite <- (no_keys _ Hn), <- slots_length. apply omap_mjoin_seq. Qed.

Lemma used_filled n n' j kv k : node_ok n -> node_ok n' -> slots n' = <[j := Some kv]> (slots n) -> (k < MAX_ENTRIES)%nat ->
  (j < MAX_ENTRIES)%nat -> k = j \/ used n k = true -> used n' k = true.
Proof.
  intros Hn Hn' Es Hk Hj Hu. destruct (node_slot_some n k Hn Hk) as [o Ho].
  assert (exists x, slots n' !! k = Some (Some x)) as [x [_ Hx]%slot_used]; [|done]. rewrite Es. destruct (decide (k = j)) as [->|Hne].
  - exists kv. apply list_lookup_insert_eq. rewrite slots_length, (no_keys _ Hn). done.
  - destruct Hu as [?|Hu]; [done|]. rewrite list_lookup_insert_ne, slots_lookup by done.
    destruct (lookup_lt_is_Some_2 (keyArray n) k) as [x Hx]; [by rewrite (no_keys _ Hn)|]. exists x. by rewrite Hx, Hu.
Qed.

Lemma merge_copy_steps dn : node_ok dn -> forall idx n cur, Forall (fun i => (i < MAX_ENTRIES)%nat) idx -> node_ok n ->
  NoDup (pairs_at dn idx ++ entries n).*1 -> (length (pairs_at dn idx) + length (entries n) <= MAX_ENTRIES)%nat ->
  (forall k, (k < cur)%nat -> used n k = true) -> (cur <= MAX_ENTRIES)%nat ->
  exists n', merge_copy dn idx n cur = Ok n' /\ node_ok n' /\ frame n n' /\ entries n' ≡ₚ pairs_at dn idx ++ entries n.
Proof.
  intros Hdn. induction idx as [|i idx IH]; intros n cur Hi Hn Hnd Hl Hu Hc.
  { exists n. split; [done|]. split; [done|]. split; [apply frame_refl|done]. }
  apply Forall_cons in Hi as [Hi Hidx]. cbn [merge_copy]. destruct (lookup_lt_is_Some_2 (keyArray dn) i) as [kv Hkv];
    [by rewrite (no_keys _ Hdn)|].
  assert (pairs_at dn (i :: idx) = (if used dn i then [kv] else []) ++ pairs_at dn idx) as Ep.
  { unfold pairs_at. cbn. rewrite slots_lookup, Hkv. cbn. by destruct (used dn i). }
  rewrite Ep in Hnd, Hl |- *. destruct (used dn i) eqn:Hus; [|by apply IH]. cbn in Hnd, Hl.
  destruct (free_from n cur Hn Hu) as (j & Hj & Hsl & Huj & Hjm); [lia|]. rewrite Hj.
  rewrite (no_fp _ Hdn i kv) by (by apply slot_used). cbn [of_option mbind res_bind]. rewrite key_at_nat, Hkv.
  cbn [of_option mbind res_bind]. apply NoDup_cons in Hnd as [Hk Hnd].
  assert (kv.1 ∉ (entries n).*1) as Hkn by (intros Hx; apply Hk; rewrite fmap_app; apply elem_of_app; by right).
  destruct (insertAtIndex_spec n kv j Hn Hsl Hkn) as (n1 & -> & Hn1 & Hf1 & Es1 & Ep1). cbn [mbind res_bind].
  assert (pairs_at dn idx ++ entries n1 ≡ₚ kv :: pairs_at dn idx ++ entries n) as Ep2 by (by rewrite Ep1, Permutation_middle).
  destruct (IH n1 (S j) Hidx Hn1) as (n' & E & Hn' & Hf' & Ep').
  - rewrite Ep2. cbn. by apply NoDup_cons.
  - rewrite Ep1. cbn. lia.
  - intros k Hkj. apply (used_filled n n1 j kv k Hn Hn1 Es1); [lia|done|]. destruct (decide (k = j)); [by left|right].
    apply Huj. lia.
  - lia.
  - exists n'. split; [done|]. split; [done|]. split; [by eapply frame_trans|]. by rewrite Ep', Ep2.
Qed.

Lemma merge_copy_spec dn n : node_ok dn -> node_ok n -> NoDup (entries dn ++ entries n).*1 ->
  (length (entries dn) + length (entries n) <= MAX_ENTRIES)%nat ->
  exists n', merge_copy dn (seq 0 MAX_ENTRIES) n 0 = Ok n' /\ node_ok n' /\ frame n n' /\ entries n' ≡ₚ entries dn ++ entries n.
Proof.
  intros Hdn Hn Hnd Hl. rewrite <- (pairs_at_all dn Hdn) in Hnd, Hl |- *. apply merge_copy_steps; try done; [|lia|lia].
  apply Forall_forall. intros i Hi%elem_of_seq. lia.
Qed.

Section remove.
Context `{StdSort} `{PMem}.

(** * The list after a merge *)

(** Two neighbours [p] and [q], and the node [r] after them. *)
Record neighbours (d : dlist) (p : Z) (n : ListNode) (q : Z) (nq : ListNode) (r : Z) (nr : ListNode) : Prop := {
  nb_left : data_ok n;
  nb_right : data_ok nq;
  nb_keys : NoDup (entries nq ++ entries n).*1;
  nb_range : ln_min n < ln_max n /\ ln_max n = ln_min nq /\ ln_min nq < ln_max nq;
  nb_ptrs : curPtr n = p /\ curPtr nq = q /\ nextPtr n = q /\ prevPtr nq = p /\ nextPtr nq = r;
  nb_distinct : p <> q /\ p <> r /\ q <> r;
  nb_valid : (p <> 0 /\ getVaddr p = p) /\ (q <> 0 /\ getVaddr q = q) /\ (r <> 0 /\ getVaddr r = r);
  nb_memory : dl_nodes d !! p = Some n /\ dl_nodes d !! q = Some nq /\ dl_nodes d !! r = Some nr;
}.

Lemma dl_neighbours d l1 p n q nq l2 t r nr L3 : dl_inv d (l1 ++ (p, n) :: (q, nq) :: l2) t -> l2 ++ [t] = (r, nr) :: L3 ->
  neighbours d p n q nq r nr.
Proof.
  intros [A B C D E F G T Zr] E3. rewrite <- app_assoc in C, D, E. cbn [app] in C, D, E. rewrite E3 in C, D, E.
  apply Forall_app in C as [_ [Cp [Cq [Cr _]%Forall_cons]%Forall_cons]%Forall_cons].
  rewrite fmap_app in D. cbn in D. rewrite NoDup_app, !NoDup_cons, !not_elem_of_cons in D. destruct D as (_ & _ & Dp & Dq & _).
  apply linked_app in E as [_ E]. cbn in E. destruct E as (Vp & Ec & _ & En & Vq & Ec2 & Ep2 & En2 & Vr & _).
  apply tiled_app in F as (mid & _ & F). apply Forall_app in G as [_ G].
  pose proof (flat_nodup _ _ _ F G) as Hnd. cbn in F. destruct F as (F1 & F2 & F3 & F4 & F5).
  apply Forall_cons in G as [Gp [Gq _]%Forall_cons]. split; try done.
  - change (flat ((p, n) :: (q, nq) :: l2)) with (entries n ++ entries nq ++ flat l2) in Hnd.
    rewrite Permutation_app_comm. rewrite (assoc_L (++)), fmap_app in Hnd. by apply NoDup_app in Hnd as (? & _).
  - cbn in *. lia.
  - naive_solver.
Qed.

Lemma flat_zero l l' key v : (0, 0) ∈ flat l -> flat l ≡ₚ (key, v) :: flat l' -> key <> 0 -> (0, 0) ∈ flat l'.
Proof. intros Hz Hp Hk. rewrite Hp in Hz. apply elem_of_cons in Hz as [[= E _]|Hz]; [by rewrite E in Hk|done]. Qed.

Lemma dl_inv_merge d d' l1 p n q nq l2 t r nr L3 n' key v :
  dl_inv d (l1 ++ (p, n) :: (q, nq) :: l2) t -> l2 ++ [t] = (r, nr) :: L3 ->
  dl_nodes d' !! p = Some n' -> dl_nodes d' !! r = Some (setPrev nr p) ->
  (forall x, x <> p -> x <> q -> x <> r -> dl_nodes d' !! x = dl_nodes d !! x) ->
  headPtr d' = headPtr d -> genId d' = genId d ->
  curPtr n' = curPtr n -> prevPtr n' = prevPtr n -> nextPtr n' = nextPtr nq -> ln_min n' = ln_min n -> ln_max n' = ln_max nq ->
  data_ok n' -> key <> 0 -> flat (l1 ++ (p, n) :: (q, nq) :: l2) ≡ₚ (key, v) :: flat (l1 ++ (p, n') :: (relink p l2 t).1) ->
  dl_inv d' (l1 ++ (p, n') :: (relink p l2 t).1) (relink p l2 t).2.
Proof.
  intros Hi E3 Mp Mr Mo Eh Eg Ec Ep En Em EM Hd Hk Hf.
  destruct (dl_neighbours _ _ _ _ _ _ _ _ _ _ _ Hi E3) as [_ _ _ Hrng _ _ _ _].
  destruct Hi as [A B C D E F G T Zr]. rewrite <- app_assoc in C, D, E. cbn [app] in C, D, E.
  destruct (relink_ptrs p l2 t) as [P1 P2]. split; rewrite <- ?app_assoc; cbn [app].
  - by rewrite Eg.
  - rewrite Eh, B. by destruct l1 as [|[]].
  - destruct (relink_shape p l2 t) as (r' & nr' & L3' & E2 & ->). rewrite E3 in E2. injection E2 as <- <- <-.
    rewrite E3 in C, D. rewrite fmap_app in D. cbn in D.
    rewrite NoDup_app, !NoDup_cons, !not_elem_of_cons in D. destruct D as (_ & D1 & (Dp & Dq & Dr & _)).
    apply Forall_app in C as [C1 [_ [_ [_ C3]%Forall_cons]%Forall_cons]%Forall_cons].
    apply Forall_app. split; [|repeat (apply Forall_cons; split; [done|])]; eapply in_memory_agree; try done; intros x Hx.
    + specialize (D1 x Hx). rewrite !not_elem_of_cons in D1. by apply Mo; naive_solver.
    + apply Mo; naive_solver.
  - assert ((l1 ++ (p, n') :: (relink p l2 t).1 ++ [(relink p l2 t).2]).*1 = l1.*1 ++ p :: (l2 ++ [t]).*1) as ->
      by (rewrite !fmap_app; cbn; rewrite !fmap_app, P1; cbn; by rewrite P2).
    rewrite fmap_app in D. cbn in D. rewrite (Permutation_swap q p), <- Permutation_middle in D.
    by apply NoDup_cons in D as [_ D].
  - apply linked_app in E as [E1 E2]. cbn in E2. destruct E2 as (Vp & Ecp & Epp & Enp & Vq & Ecq & Epq & Enq & E2).
    apply linked_app. split; [exact E1|]. cbn. rewrite Ec, Ep, En. split; [done|]. split; [done|]. split; [done|].
    split; [rewrite Enq; symmetry; by apply relink_next|]. by eapply relink_linked.
  - apply tiled_app in F as (mid & F1 & F2). apply tiled_app. exists mid. split; [done|]. cbn in F2 |- *.
    destruct F2 as (F2 & F3 & F4 & F5 & F6). rewrite Em, EM. split; [done|]. split; [lia|]. by apply relink_tiled.
  - apply Forall_app in G as [G1 [_ [_ G2]%Forall_cons]%Forall_cons]. apply Forall_app. split; [done|].
    apply Forall_cons. split; [done|]. by apply relink_data.
  - by apply relink_tail.
  - by eapply flat_zero.
Qed.

(** A node that takes over the range of its successor. *)
Lemma data_ok_grow n M x : data_ok n -> ln_max n <= M -> data_ok (setNext (setMax n M) x).
Proof.
  intros [[] ? ? ? ? ? Hr] HM. split; try done. cbn. change (entries (setNext (setMax n M) x)) with (entries n).
  eapply Forall_impl; [exact Hr|]. cbn. lia.
Qed.

Lemma data_ok_merged n n1 M x : data_ok n -> lock_free (verLock n) -> frame (held n) n1 -> node_ok n1 -> ln_max n <= M ->
  Forall (fun kv => ln_min n <= kv.1 < M) (entries n1) -> data_ok (writeUnlock (setNext (setMax n1 M) x)).
Proof.
  intros Hd Hl Hf [] HM Hr. apply (data_ok_written (setNext (setMax n M) x)); [by apply data_ok_grow|done| |done|done].
  destruct Hf. by split.
Qed.

(** * Removal *)

Record removed (d : dlist) (l : node_list) (t : Z * ListNode) (key : Z) (d' : dlist) (l' : node_list) (t' : Z * ListNode)
  : Prop := {
  rm_inv : dl_inv d' l' t';
  rm_tail : t'.1 = t.1;
  rm_anchors : anchors l' ⊆ anchors l;
  rm_map : dl_map l' = delete key (dl_map l);
  rm_log : dl_log d' = dl_log d;
  rm_size : size (dl_nodes d') = size (dl_nodes d);
}.

Lemma dl_map_delete l l' key v : NoDup (flat l).*1 -> flat l ≡ₚ (key, v) :: flat l' -> dl_map l' = delete key (dl_map l).
Proof.
  intros Hnd Hp. unfold dl_map. rewrite (list_to_map_perm _ _ Hnd Hp). cbn. rewrite delete_insert_id; [done|].
  apply not_elem_of_list_to_map. rewrite Hp in Hnd. by apply NoDup_cons in Hnd as [? _].
Qed.

Lemma get_some d p n : p <> 0 -> dl_nodes d !! p = Some n -> get_node d p = Ok n.
Proof. intros Hp Hm. unfold get_node. by rewrite (proj2 (Z.eqb_neq p 0)), Hm. Qed.

Lemma get_pmlog d p o : get_node (write_pmlog o d) p = get_node d p.
Proof. done. Qed.

Lemma writeLock_free n g : lock_free (verLock n) -> g = 0 -> writeLock n g = Ok (verLock n, held n).
Proof. intros Hf ->. unfold writeLock. by rewrite write_lock_free. Qed.

(** What a merge leaves: the left node, still locked, with the pairs of both. *)
Record merged (d : dlist) (p q r : Z) (nr : ListNode) (base e : list (Z * Z)) (nl nq : ListNode) (d' : dlist) (m : ListNode)
  : Prop := {
  mg_node : node_ok m;
  mg_frame : frame (held nl) m;
  mg_entries : entries m ≡ₚ e ++ base;
  mg_other : dl_nodes d' !! r = Some (setPrev nr p);
  mg_rest : forall x, x <> p -> x <> q -> x <> r -> dl_nodes d' !! x = dl_nodes d !! x;
  mg_meta : headPtr d' = headPtr d /\ genId d' = genId d /\ dl_log d' = dl_log d;
  mg_size : size (dl_nodes d') = size (dl_nodes d);
}.

Lemma fewer_keys (base e : list (Z * Z)) kv e' : NoDup (e ++ base).*1 -> e ≡ₚ kv :: e' -> NoDup (e' ++ base).*1.
Proof. intros Hn Hp. rewrite Hp in Hn. cbn in Hn. by apply NoDup_cons in Hn as [_ ?]. Qed.

Lemma mergeWithNext_spec d p n q nq r nr n1 kv : neighbours d p n q nq r nr -> genId d = 0 -> lock_free (verLock nq) ->
  frame (held n) n1 -> node_ok n1 -> entries n ≡ₚ kv :: entries n1 ->
  (length (entries nq) + length (entries n1) <= MAX_ENTRIES)%nat ->
  exists d' m, mergeWithNext (put_node p n1 d) p = Ok (true, d') /\
    merged d p q r nr (entries n1) (entries nq) n nq d' m /\
    dl_nodes d' !! p = Some (setNext (setMax m (ln_max nq)) (nextPtr nq)).
Proof.
  intros [Hl Hr Hk _ (Pc & _ & Pn & _ & Pr) (Dpq & Dpr & Dqr) ((Zp & Vp) & (Zq & Vq) & (Zr & Vr)) (Mp & Mq & Mr)] Hg Hf Hfr Hn1 He Hlen.
  unfold mergeWithNext. rewrite get_put by done. cbn [mbind res_bind].
  assert (getNext n1 = q) as -> by (unfold getNext; rewrite (fr_next _ _ Hfr); cbn; by rewrite Pn).
  rewrite get_put_ne, (get_some d q nq) by done. cbn [mbind res_bind]. rewrite writeLock_free by done. cbn [mbind res_bind].
  destruct Hf as [Hv Ho]. rewrite (proj2 (Z.eqb_neq (verLock nq) 0)) by lia.
  destruct (merge_copy_spec (held nq) n1) as (m & -> & Hm & Hfm & Em);
    [apply node_ok_held, Hr|done| |done|].
  { change (entries (held nq)) with (entries nq). rewrite Permutation_app_comm in Hk |- *. by eapply fewer_keys. }
  cbn [mbind res_bind]. assert (getNext (held nq) = r) as -> by (unfold getNext; cbn; by rewrite Pr).
  rewrite !get_put_ne, get_pmlog, get_put_ne, (get_some d r nr) by done. cbn [mbind res_bind].
  eexists _, m. split; [done|]. split; [split|].
  - done.
  - by eapply frame_trans.
  - done.
  - cbn. rewrite lookup_insert_eq, (fr_cur _ _ Hfr). cbn. by rewrite Pc.
  - intros x Hxp Hxq Hxr. cbn. by rewrite !lookup_insert_ne.
  - done.
  - cbn. rewrite map_size_insert_Some by (rewrite !lookup_insert_ne by done; by eexists).
    rewrite map_size_insert_Some by (rewrite lookup_insert_ne, lookup_insert_eq by done; by eexists).
    rewrite map_size_insert_Some by (rewrite lookup_insert_ne by done; by eexists).
    by rewrite map_size_insert_Some by (by eexists).
  - cbn. by rewrite lookup_insert_ne, lookup_insert_eq.
Qed.

Lemma mergeWithPrev_spec d p n q nq r nr q1 kv : neighbours d p n q nq r nr -> genId d = 0 -> lock_free (verLock n) ->
  frame (held nq) q1 -> node_ok q1 -> entries nq ≡ₚ kv :: entries q1 ->
  (length (entries q1) + length (entries n) <= MAX_ENTRIES)%nat ->
  exists d' m, mergeWithPrev (put_node q q1 d) q = Ok (true, d') /\
    merged d p q r nr (entries n) (entries q1) n nq d' m /\
    dl_nodes d' !! p = Some (writeUnlock (setNext (setMax m (ln_max nq)) (nextPtr nq))) /\
    dl_nodes d' !! q = Some q1.
Proof.
  intros [Hl Hr Hk _ (Pc & Pcq & Pn & Pp & Pr) (Dpq & Dpr & Dqr) ((Zp & Vp) & (Zq & Vq) & (Zr & Vr)) (Mp & Mq & Mr)] Hg Hf Hfr Hn1 He Hlen.
  unfold mergeWithPrev. rewrite get_put by done. cbn [mbind res_bind].
  assert (getPrev q1 = p) as -> by (unfold getPrev; rewrite (fr_prev _ _ Hfr); cbn; by rewrite Pp).
  rewrite get_put_ne, (get_some d p n) by done. cbn [mbind res_bind]. rewrite writeLock_free by done. cbn [mbind res_bind].
  destruct Hf as [Hv Ho]. rewrite (proj2 (Z.eqb_neq (verLock n) 0)) by lia.
  destruct (merge_copy_spec q1 (held n)) as (m & -> & Hm & Hfm & Em); [done|by apply node_ok_held, Hl| |done|].
  { change (entries (held n)) with (entries n). by eapply fewer_keys. }
  cbn [mbind res_bind]. assert (getNext q1 = r) as -> by (unfold getNext; rewrite (fr_next _ _ Hfr); cbn; by rewrite Pr).
  rewrite !get_put_ne, get_pmlog, get_put_ne, (get_some d r nr) by done. cbn [mbind res_bind].
  eexists _, m. split; [done|]. split; [split|].
  - done.
  - done.
  - done.
  - cbn. rewrite lookup_insert_eq, (fr_prev _ _ Hfr). cbn. by rewrite Pp.
  - intros x Hxp Hxq Hxr. cbn. by rewrite !lookup_insert_ne.
  - done.
  - cbn. rewrite map_size_insert_Some by (rewrite !lookup_insert_ne by done; by eexists).
    rewrite map_size_insert_Some by (rewrite !lookup_insert_ne by done; by eexists).
    by rewrite map_size_insert_Some by (by eexists).
  - cbn. rewrite (fr_next _ _ Hfr), (fr_max _ _ Hfr). split; [by rewrite lookup_insert_ne, lookup_insert_eq|].
    rewrite !lookup_insert_ne by done. by rewrite lookup_insert_eq.
Qed.

(** The left node after a merge, unlocked. *)
Lemma merged_data d p n q nq r nr base e d' m kv : neighbours d p n q nq r nr -> merged d p q r nr base e n nq d' m ->
  lock_free (verLock n) -> entries nq ++ entries n ≡ₚ kv :: e ++ base ->
  data_ok (writeUnlock (setNext (setMax m (ln_max nq)) (nextPtr nq))).
Proof.
  intros Hnb Hm Hl Hp. pose proof (nb_range _ _ _ _ _ _ _ Hnb). eapply data_ok_merged;
    [apply Hnb|done|by eapply mg_frame|by eapply mg_node|lia|]. rewrite (mg_entries _ _ _ _ _ _ _ _ _ _ _ Hm).
  assert (Forall (fun x => ln_min n <= x.1 < ln_max nq) (kv :: e ++ base)) as [_ ?]%Forall_cons; [|done].
  rewrite <- Hp. apply Forall_app. split.
  - eapply Forall_impl; [apply (da_range _ (nb_right _ _ _ _ _ _ _ Hnb))|]. cbn. lia.
  - eapply Forall_impl; [apply (da_range _ (nb_left _ _ _ _ _ _ _ Hnb))|]. cbn. lia.
Qed.

(** A merge done, its left node unlocked in [d2]. *)
Lemma removed_merge d l1 p n q nq l2 t r nr L3 base e d' m key v d2 :
  dl_inv d (l1 ++ (p, n) :: (q, nq) :: l2) t -> l2 ++ [t] = (r, nr) :: L3 -> lock_free (verLock n) -> key <> 0 ->
  merged d p q r nr base e n nq d' m -> entries nq ++ entries n ≡ₚ (key, v) :: e ++ base ->
  dl_nodes d2 !! p = Some (writeUnlock (setNext (setMax m (ln_max nq)) (nextPtr nq))) ->
  (forall x, x <> p -> x <> q -> dl_nodes d2 !! x = dl_nodes d' !! x) -> size (dl_nodes d2) = size (dl_nodes d') ->
  headPtr d2 = headPtr d' -> genId d2 = genId d' -> dl_log d2 = dl_log d' ->
  exists l' t', removed d (l1 ++ (p, n) :: (q, nq) :: l2) t key d2 l' t'.
Proof.
  intros Hi E3 Hl Hk Hm Hp Mp Mo Es Eh Eg El. pose proof (dl_neighbours _ _ _ _ _ _ _ _ _ _ _ Hi E3) as Hnb.
  set (n' := writeUnlock (setNext (setMax m (ln_max nq)) (nextPtr nq))) in *.
  pose proof (merged_data _ _ _ _ _ _ _ _ _ _ _ _ Hnb Hm Hl Hp) as Hd. fold n' in Hd.
  destruct (nb_distinct _ _ _ _ _ _ _ Hnb) as (_ & Dpr & Dqr). destruct (mg_meta _ _ _ _ _ _ _ _ _ _ _ Hm) as (Mh & Mg & Ml).
  destruct (mg_frame _ _ _ _ _ _ _ _ _ _ _ Hm) as [Fm FM Fc Fn Fp _ _ _ _ _].
  assert (flat (l1 ++ (p, n) :: (q, nq) :: l2) ≡ₚ (key, v) :: flat (l1 ++ (p, n') :: (relink p l2 t).1)) as Hflat.
  { rewrite !flat_app. change (flat ((p, n') :: (relink p l2 t).1)) with (entries m ++ flat (relink p l2 t).1).
    rewrite relink_flat, Permutation_middle. f_equiv.
    change (entries n ++ entries nq ++ flat l2 ≡ₚ (key, v) :: entries m ++ flat l2).
    rewrite (mg_entries _ _ _ _ _ _ _ _ _ _ _ Hm), (assoc_L (++)), (Permutation_app_comm (entries n)), Hp. done. }
  exists (l1 ++ (p, n') :: (relink p l2 t).1), (relink p l2 t).2. destruct (relink_ptrs p l2 t) as [P1 P2]. split; try congruence.
  - eapply (dl_inv_merge d d2); try exact Hi; try exact E3; try done; try congruence.
    + rewrite Mo by done. by eapply mg_other.
    + intros x Hxp Hxq Hxr. rewrite Mo by done. by eapply mg_rest.
  - unfold anchors. rewrite !fmap_app. cbn. fold (anchors (relink p l2 t).1) (anchors l2). rewrite relink_anchors.
    assert (ln_min m = ln_min n) as -> by exact Fm. intros x. rewrite !elem_of_app, !elem_of_cons. naive_solver.
  - eapply dl_map_delete; [|exact Hflat]. eapply flat_nodup; apply Hi.
  - rewrite Es. by eapply mg_size.
Qed.

(** The node keeps its place. *)
Lemma removed_in_place d l1 p n l2 t key n2 : at_node d l1 p n l2 t key -> frame (held n) n2 -> node_ok n2 -> key <> 0 ->
  (node_map n !! key = None /\ entries n2 = entries n) \/ (exists v, entries n ≡ₚ (key, v) :: entries n2) ->
  removed d (l1 ++ (p, n) :: l2) t key (put_node p (writeUnlock n2) d) (l1 ++ (p, writeUnlock n2) :: l2) t.
Proof.
  intros Ha Hf Hn Hk He. pose proof (an_data _ _ _ _ _ _ _ Ha) as Hd.
  assert (dl_inv (put_node p (writeUnlock n2) d) (l1 ++ (p, writeUnlock n2) :: l2) t) as Hi'.
  { apply (write_in_place _ _ _ _ _ _ _ _ Ha Hf Hn).
    - pose proof (da_range _ Hd) as Hr. destruct He as [[_ ->]|[v E]]; [done|]. rewrite E in Hr. by apply Forall_cons in Hr as [_ ?].
    - destruct He as [[_ ->]|[v E]]; [done|]. rewrite E. intros [[= E0 _]|?]%elem_of_cons; [by rewrite E0 in Hk|done]. }
  split; [done|done|by rewrite (anchors_replace _ _ n) by exact (fr_min _ _ Hf)| |done|by apply (put_size _ _ n), (at_node_some _ _ _ _ _ _ _ Ha)].
  destruct He as [[Hno E]|[v E]].
  - rewrite delete_id by (by rewrite (an_map _ _ _ _ _ _ _ Ha)). unfold dl_map. rewrite !flat_app.
    change (flat ((p, writeUnlock n2) :: l2)) with (entries n2 ++ flat l2). by rewrite E.
  - apply (dl_map_delete _ _ key v); [eapply flat_nodup; apply Ha|]. rewrite !flat_middle.
    change (entries (writeUnlock n2)) with (entries n2). by rewrite E.
Qed.

Lemma fresh_free l1 p n l2 : locks_fresh (l1 ++ (p, n) :: l2) -> data_ok n -> lock_free (verLock n).
Proof.
  intros Hf Hd. apply fresh_lock_free; [apply Hd|]. unfold locks_fresh, locks_below in Hf. rewrite Forall_forall in Hf.
  apply (Hf (p, n)), middle_elem.
Qed.

(** Merging with the successor when there is room, then the unlock. *)
Lemma remove_next d l1 p n q nq l2 t key v n1 : at_node d l1 p n ((q, nq) :: l2) t key ->
  locks_fresh (l1 ++ (p, n) :: (q, nq) :: l2) -> key <> 0 -> frame (held n) n1 -> node_ok n1 ->
  entries n ≡ₚ (key, v) :: entries n1 -> (length (entries nq) + length (entries n1) <= MAX_ENTRIES)%nat ->
  exists d' m d2 l' t', mergeWithNext (put_node p n1 d) p = Ok (true, d') /\ get_node d' p = Ok m /\
    d2 = put_node p (writeUnlock m) d' /\ removed d (l1 ++ (p, n) :: (q, nq) :: l2) t key d2 l' t'.
Proof.
  intros Ha Hfr Hk Hf Hn1 He Hlen. pose proof (an_inv _ _ _ _ _ _ _ Ha) as Hi.
  destruct (relink_shape 0 l2 t) as (r & nr & L3 & E3 & _). pose proof (dl_neighbours _ _ _ _ _ _ _ _ _ _ _ Hi E3) as Hnb.
  destruct (mergeWithNext_spec _ _ _ _ _ _ _ n1 (key, v) Hnb (di_gen _ _ _ Hi)) as (d' & m & E & Hm & Mp); try done.
  { eapply (fresh_free (l1 ++ [(p, n)]) q nq l2); [by rewrite <- app_assoc|by eapply nb_right]. }
  destruct (nb_distinct _ _ _ _ _ _ _ Hnb) as (Dpq & Dpr & Dqr). pose proof (at_node_nz _ _ _ _ _ _ _ Ha) as Hpz.
  eexists d', _, _. destruct (removed_merge d l1 p n q nq l2 t r nr L3 (entries n1) (entries nq) d' m key v
    (put_node p (writeUnlock (setNext (setMax m (ln_max nq)) (nextPtr nq))) d')) as (l' & t' & Hrm); try done.
  - by apply Ha.
  - by rewrite He, Permutation_middle.
  - cbn. by rewrite lookup_insert_eq.
  - intros x Hxp _. cbn. by rewrite lookup_insert_ne.
  - cbn. apply map_size_insert_Some. by eexists.
  - exists l', t'. split; [exact E|]. split; [by apply get_some|]. split; [done|exact Hrm].
Qed.

(** Merging into the predecessor; the node itself is unlocked and left. *)
Lemma remove_prev d l1 q nq p n l2 t key v n1 : at_node d (l1 ++ [(q, nq)]) p n l2 t key ->
  locks_fresh (l1 ++ (q, nq) :: (p, n) :: l2) -> key <> 0 -> frame (held n) n1 -> node_ok n1 ->
  entries n ≡ₚ (key, v) :: entries n1 -> (length (entries n1) + length (entries nq) <= MAX_ENTRIES)%nat ->
  exists d' m d2 l' t', mergeWithPrev (put_node p n1 d) p = Ok (true, d') /\ get_node d' p = Ok m /\
    d2 = put_node p (writeUnlock m) d' /\ removed d (l1 ++ (q, nq) :: (p, n) :: l2) t key d2 l' t'.
Proof.
  intros Ha Hfr Hk Hf Hn1 He Hlen. pose proof (an_inv _ _ _ _ _ _ _ Ha) as Hi. rewrite <- app_assoc in Hi. cbn [app] in Hi.
  destruct (relink_shape 0 l2 t) as (r & nr & L3 & E3 & _). pose proof (dl_neighbours _ _ _ _ _ _ _ _ _ _ _ Hi E3) as Hnb.
  assert (lock_free (verLock nq)) as Hlq by (eapply fresh_free; [exact Hfr|by eapply nb_left]).
  destruct (mergeWithPrev_spec _ _ _ _ _ _ _ n1 (key, v) Hnb (di_gen _ _ _ Hi)) as (d' & m & E & Hm & Mp & Mq); try done.
  destruct (nb_distinct _ _ _ _ _ _ _ Hnb) as (Dpq & Dpr & Dqr). pose proof (at_node_nz _ _ _ _ _ _ _ Ha) as Hpz.
  eexists d', _, _. destruct (removed_merge d l1 q nq p n l2 t r nr L3 (entries nq) (entries n1) d' m key v
    (put_node p (writeUnlock n1) d')) as (l' & t' & Hrm); try done.
  - by rewrite He.
  - cbn. by rewrite lookup_insert_ne.
  - intros x _ Hxp. cbn. by rewrite lookup_insert_ne.
  - cbn. apply map_size_insert_Some. by eexists.
  - exists l', t'. split; [exact E|]. split; [by apply get_some|]. split; [done|exact Hrm].
Qed.

Lemma at_node_prev d l1 p n l2 t key : at_node d l1 p n l2 t key ->
  (l1 = [] /\ getPrev n = 0) \/ exists k q nq, l1 = k ++ [(q, nq)] /\ getPrev n = q /\ q <> 0 /\ q <> p /\
    get_node d q = Ok nq /\ data_ok nq.
Proof.
  intros Ha. pose proof (an_inv _ _ _ _ _ _ _ Ha) as Hi. pose proof (di_linked _ _ _ Hi) as Hl.
  rewrite <- app_assoc in Hl. apply linked_app in Hl as [Hl1 Hl]. cbn in Hl. destruct Hl as (_ & _ & Hp & _).
  destruct l1 as [|x l1 _] using rev_ind; [left; split; [done|]; unfold getPrev; by rewrite Hp|right].
  destruct x as [q nq]. exists l1, q, nq. split; [done|]. rewrite last_of_snoc in Hp.
  destruct (in_memory_node _ _ _ q nq Hi) as (Hz & Hv & Hg); [rewrite <- !app_assoc; apply middle_elem|].
  split; [unfold getPrev; by rewrite Hp|]. split; [done|]. split; [|split; [done|]].
  - intros ->. pose proof (di_nodup _ _ _ Hi) as Hnd. rewrite <- !app_assoc, fmap_app in Hnd. cbn in Hnd.
    apply NoDup_app in Hnd as (_ & _ & Hnd). rewrite NoDup_cons in Hnd. apply (proj1 Hnd). left.
  - pose proof (di_data _ _ _ Hi) as Hd. rewrite <- app_assoc, Forall_forall in Hd. apply (Hd (q, nq)), middle_elem.
Qed.

(** The entries of the successor, as [node_remove] counts them; it is merged
    only when it is not the tail. *)
Lemma next_count d l1 p n l2 t key r nr L3 : at_node d l1 p n l2 t key -> l2 ++ [t] = (r, nr) :: L3 ->
  (getNumEntries nr = MAX_ENTRIES) \/ (exists l3, l2 = (r, nr) :: l3 /\ getNumEntries nr = length (entries nr)).
Proof.
  intros Ha E3. pose proof (an_inv _ _ _ _ _ _ _ Ha) as Hi. destruct l2 as [|x l3]; cbn in E3; injection E3 as -> <-.
  - left. apply (ta_full _ (di_tail _ _ _ Hi)).
  - right. exists l3. split; [done|]. apply getNumEntries_spec. pose proof (di_data _ _ _ Hi) as Hd.
    rewrite Forall_forall in Hd. apply (Hd (r, nr)). apply elem_of_app. right. right. left.
Qed.

(** The body of [ListNode::remove] on a locked node that has the key. *)
Lemma node_remove_present d l1 p n l2 t key v i : at_node d l1 p n l2 t key -> locks_fresh (l1 ++ (p, n) :: l2) -> key <> 0 ->
  slots n !! i = Some (Some (key, v)) -> getKeyIndex (held n) key (getKeyFingerPrint key) = Ok (Z.of_nat i) ->
  exists d' m l' t', node_remove (put_node p (held n) d) p key = Ok (true, d') /\ get_node d' p = Ok m /\
    removed d (l1 ++ (p, n) :: l2) t key (put_node p (writeUnlock m) d') l' t'.
Proof.
  intros Ha Hfr Hk Hs Hidx. pose proof (an_data _ _ _ _ _ _ _ Ha) as Hd. pose proof (at_node_nz _ _ _ _ _ _ _ Ha) as Hp.
  pose proof (node_ok_held n (verLock n + 1) (da_node _ Hd)) as Hn. fold (held n) in Hn.
  destruct (removeFromIndex_spec (held n) (key, v) i Hn Hs) as (Hn1 & Hf1 & _ & He).
  set (n1 := removeFromIndex (held n) (Z.of_nat i)) in *. change (entries (held n)) with (entries n) in He.
  assert (getNumEntries (held n) = S (length (entries n1))) as Hc by (rewrite getNumEntries_spec by done; exact (Permutation_length He)).
  unfold node_remove. rewrite get_put by done. cbn [mbind res_bind]. rewrite Hidx. cbn [mbind res_bind].
  rewrite (proj2 (small_index i (node_slot_lt _ _ _ Hn Hs))). fold n1. rewrite put_put, Hc.
  destruct (at_node_next _ _ _ _ _ _ _ Ha) as (r & nr & L3 & E3 & Hrp & Hnx & Hgr & Hrz).
  change (getNext (held n)) with (getNext n). change (getPrev (held n)) with (getPrev n).
  rewrite Hnx, (get_put_ne d p r n1), Hgr by done. cbn [mbind res_bind].
  assert (exists l' t', removed d (l1 ++ (p, n) :: l2) t key (put_node p (writeUnlock n1) (put_node p n1 d)) l' t') as (l' & t' & Hin).
  { rewrite put_put. eexists _, _. apply (removed_in_place _ _ _ _ _ _ _ n1 Ha); [done|done|done|right; by exists v]. }
  assert ((S (length (entries n1)) + getNumEntries nr <? MAX_ENTRIES / 2)%nat = true ->
    exists l3, l2 = (r, nr) :: l3 /\ (length (entries nr) + length (entries n1) <= MAX_ENTRIES)%nat) as Hnext.
  { intros Hlt%Nat.ltb_lt. change (MAX_ENTRIES / 2)%nat with 32%nat in Hlt. unfold MAX_ENTRIES.
    destruct (next_count _ _ _ _ _ _ _ _ _ _ Ha E3) as [Hm|(l3 & -> & Hm)]; [rewrite Hm in Hlt; unfold MAX_ENTRIES in Hlt; lia|].
    exists l3. split; [done|]. rewrite Hm in Hlt. lia. }
  destruct (S (length (entries n1)) + getNumEntries nr <? MAX_ENTRIES / 2)%nat.
  { destruct (Hnext eq_refl) as (l3 & -> & Hl). clear Hnext Hin.
    destruct (remove_next _ _ _ _ _ _ _ _ _ v n1 Ha Hfr Hk Hf1 Hn1 He Hl) as (d' & m & d2 & l4 & t4 & -> & Hg & -> & Hr).
    cbn [mbind res_bind]. by exists d', m, l4, t4. }
  destruct (at_node_prev _ _ _ _ _ _ _ Ha) as [[-> ->]|(k & q & nq & -> & -> & Hqz & Hqp & Hgq & Hdq)].
  { exists (put_node p n1 d), n1, l', t'. split; [done|]. by rewrite get_put. }
  rewrite (proj2 (Z.eqb_neq q 0)), get_put_ne, Hgq by done. cbn [mbind res_bind].
  destruct (Nat.ltb_spec (S (length (entries n1)) + getNumEntries nq) (MAX_ENTRIES / 2)%nat) as [Hlt|_].
  - rewrite getNumEntries_spec in Hlt by apply Hdq. change (MAX_ENTRIES / 2)%nat with 32%nat in Hlt. rewrite <- app_assoc in Hfr |- *.
    destruct (remove_prev _ _ _ _ _ _ _ _ _ v n1 Ha Hfr Hk Hf1 Hn1 He) as (d' & m & d2 & l4 & t4 & -> & Hg & -> & Hr);
      [unfold MAX_ENTRIES; lia|]. cbn [mbind res_bind]. by exists d', m, l4, t4.
  - exists (put_node p n1 d), n1, l', t'. split; [done|]. by rewrite get_put.
Qed.

Lemma remove_spec d l t key s : dl_inv d l t -> locks_fresh l -> 0 < key < ULLONG_MAX -> s ∈ (l ++ [t]).*1 ->
  exists d' l' t', remove d key s = Ok (Some (bool_decide (is_Some (dl_map l !! key)), d')) /\ removed d l t key d' l' t'.
Proof.
  intros Hi Hf Hk Hs. destruct (walk_at d l t key s Hi Hf ltac:(lia) Hs) as (l1 & p & n & l2 & -> & Hw & Ha).
  pose proof (an_data _ _ _ _ _ _ _ Ha) as Hd. pose proof (at_node_nz _ _ _ _ _ _ _ Ha) as Hp.
  pose proof (node_ok_held n (verLock n + 1) (da_node _ Hd)) as Hn. fold (held n) in Hn.
  unfold remove. rewrite Hw. cbn [mbind res_bind]. rewrite (locked_spec _ _ _ _ _ _ _ _ Ha), (an_map _ _ _ _ _ _ _ Ha).
  destruct (getKeyIndex_spec (held n) key Hn) as [(i & v & Hsl & E)|[Hno E]].
  - change (slots (held n)) with (slots n) in Hsl.
    destruct (node_remove_present _ _ _ _ _ _ _ v i Ha Hf ltac:(lia) Hsl E) as (d' & m & l' & t' & -> & Hg & Hr).
    cbn [mbind res_bind]. rewrite Hg. cbn [mbind res_bind].
    rewrite (proj2 (node_map_lookup n key v (da_node _ Hd)) (slot_entry _ _ _ Hsl)), bool_decide_true by done.
    by exists (put_node p (writeUnlock m) d'), l', t'.
  - unfold node_remove. rewrite get_put by done. cbn [mbind res_bind]. rewrite E. cbn [mbind res_bind].
    change (-1 =? -1) with true. cbv iota. cbn [mbind res_bind]. rewrite get_put by done. cbn [mbind res_bind]. rewrite put_put.
    apply node_map_none in Hno as Hnm. change (node_map (held n)) with (node_map n) in Hnm. rewrite Hnm.
    rewrite bool_decide_false by (by intros []). eexists _, _, _. split; [done|].
    apply (removed_in_place _ _ _ _ _ _ _ (held n) Ha); [apply frame_refl|done|lia|by left].
Qed.
(** C14. Removal from PACTree's data layer, started at any node of the list, implements deletion from
    the map, whether or not the node is merged with a neighbour, and keeps the invariant of the list.  It writes no
    entry to the log of the thread: the search layer is not told of a merged node. *)
Theorem dl_remove_correct d l t key s : dl_inv d l t -> locks_fresh l -> 0 < key < ULLONG_MAX -> s ∈ (l ++ [t]).*1 ->
  exists d' l' t', remove d key s = Ok (Some (bool_decide (is_Some (dl_map l !! key)), d')) /\ dl_inv d' l' t' /\
    dl_map l' = delete key (dl_map l) /\ dl_log d' = dl_log d.
Proof.
  intros Hi Hf Hk Hs. destruct (remove_spec d l t key s Hi Hf Hk Hs) as (d' & l' & t' & E & []). by exists d', l', t'.
Qed.

End remove.
