(* ===== verification/LinkedListScan.v ===== *)
(** Range scans over PACTree's data layer return the values of the first keys
    from the start key on, in key order; and [initialize] builds a list with
    the key 0. *)

From S2P Require Import Prelude NodeBits VersionedLock ListNode ListNodeFacts ListNodeScan LinkedList.
From S2P Require Import LinkedListInv LinkedListOps SplitFacts LinkedListInsert LinkedListRemove.

Local Open Scope Z_scope.

Section scan.
Context `{StdSort} `{PMem}.

(** * The pairs of the list in key order *)

Definition in_order (l : node_list) : list (Z * Z) := l ≫= (fun x => ordered x.2).

Lemma in_order_perm l : in_order l ≡ₚ flat l.
Proof. induction l as [|[p n] l IH]; [done|]. cbn. by rewrite ordered_perm, IH. Qed.

Lemma in_order_sorted lo l hi : tiled lo l hi -> Forall (fun x => data_ok x.2) l -> StronglySorted (key_le fst) (in_order l).
Proof.
  revert lo. induction l as [|[p n] l IH]; intros lo Ht Hd; [constructor|]. cbn in Ht. destruct Ht as (Em & Hlt & Ht).
  apply Forall_cons in Hd as [Hn Hd]. change (in_order ((p, n) :: l)) with (ordered n ++ in_order l).
  apply StronglySorted_app_2; [| |by eapply IH].
  - intros x y Hx Hy. rewrite ordered_perm in Hx. rewrite in_order_perm in Hy. pose proof (flat_range _ _ _ _ Ht Hd Hy).
    pose proof (da_range _ Hn) as Hr. rewrite Forall_forall in Hr. specialize (Hr _ Hx). cbn in Hr. unfold key_le. lia.
  - apply sort_by_sorted.
Qed.

(** The pairs of a map by key, from [startKey] on. *)
Definition from_key (m : gmap Z Z) (startKey : Z) : list (Z * Z) :=
  filter (fun kv => startKey <= kv.1) (sort_by fst (map_to_list m)).

Lemma in_order_map l lo hi : tiled lo l hi -> Forall (fun x => data_ok x.2) l ->
  in_order l = sort_by fst (map_to_list (dl_map l)).
Proof.
  intros Ht Hd. pose proof (flat_nodup _ _ _ Ht Hd) as Hnd. apply sort_by_unique.
  - intros x y Hx Hy E. destruct x as [k v], y as [k' v']. cbn in E. subst k'. rewrite elem_of_map_to_list in Hx, Hy. congruence.
  - by eapply in_order_sorted.
  - rewrite in_order_perm. unfold dl_map. by rewrite map_to_list_to_map.
Qed.

Lemma from_key_suffix l1 p n l2 startKey lo hi : tiled lo (l1 ++ (p, n) :: l2) hi ->
  Forall (fun x => data_ok x.2) (l1 ++ (p, n) :: l2) -> ln_min n <= startKey ->
  from_key (dl_map (l1 ++ (p, n) :: l2)) startKey = filter (fun kv => startKey <= kv.1) (in_order ((p, n) :: l2)).
Proof.
  intros Ht Hd Hk. unfold from_key. rewrite <- (in_order_map _ _ _ Ht Hd). unfold in_order. rewrite bind_app, filter_app.
  rewrite filter_none; [done|]. intros kv Hkv. fold (in_order l1) in Hkv. rewrite in_order_perm in Hkv.
  apply tiled_app in Ht as (mid & Ht1 & Ht2). cbn in Ht2. destruct Ht2 as (<- & _). apply Forall_app in Hd as [Hd _].
  pose proof (flat_range _ _ _ _ Ht1 Hd Hkv). lia.
Qed.

(** * The loop *)

Lemma data_ok_scanned n n' : data_ok n -> lock_free (pLock n) -> scanned n n' -> permuted n' ->
  lastScanVersion n' = Z.max (verLock n) (lastScanVersion n) -> data_ok n' /\ same_place n n' /\ entries n' = entries n /\ verLock n' = verLock n.
Proof.
  intros [[A B C D E F] Hl Hv Hp Hs _ Hr] Hf (En & Hlen & Hpl) Hperm Hlast.
  assert (lock_ok (pLock n')) as Hpl' by (destruct Hpl as [->| ->]; [done|by apply lock_ok_next]).
  revert Hperm Hlen Hpl' Hlast. rewrite En. cbn. intros Hperm Hlen Hpl' Hlast. split_and!; try done. split; try done; cbn; lia.
Qed.

Lemma take_more {A} (vec l1 l2 : list A) range : (length (vec ++ take (range - length vec) l1) < range)%nat ->
  vec ++ take (range - length vec) (l1 ++ l2) =
  (vec ++ take (range - length vec) l1) ++ take (range - length (vec ++ take (range - length vec) l1)) l2.
Proof.
  rewrite length_app, length_take. intros Hlt. rewrite take_app, <- app_assoc. do 3 f_equal. lia.
Qed.

Lemma take_enough {A} (vec l1 l2 : list A) range : (length (vec ++ take (range - length vec) l1) = range)%nat ->
  vec ++ take (range - length vec) (l1 ++ l2) = vec ++ take (range - length vec) l1.
Proof.
  rewrite length_app, length_take. intros E. rewrite take_app. f_equal.
  replace (range - length vec - length l1)%nat with 0%nat by lia. by rewrite take_0, app_nil_r.
Qed.

(** What a scan does to the list: new permuters. *)
Record scan_kept (l l' : node_list) : Prop := {
  sk_anchors : anchors l' = anchors l;
  sk_flat : flat l' = flat l;
  sk_locks : locks_grow l l';
  sk_nonempty : nonempty l -> nonempty l';
}.

Lemma locks_grow_refl L : locks_grow L L.
Proof. intros b _ Hl. eapply (locks_below_mono b); [lia|done]. Qed.

Lemma scan_kept_refl l : scan_kept l l.
Proof. split; [done|done|apply locks_grow_refl|done]. Qed.

Lemma scan_kept_cons p n n' l l' : entries n' = entries n -> ln_min n' = ln_min n -> verLock n' = verLock n -> pLock n' <= pLock n + 2 ->
  scan_kept l l' -> scan_kept ((p, n) :: l) ((p, n') :: l').
Proof.
  intros He Hm Hv Hp [K1 K2 K3 K4]. split.
  - unfold anchors in *. cbn. by rewrite Hm, K1.
  - change (entries n' ++ flat l' = entries n ++ flat l). by rewrite He, K2.
  - intros b Hb [Hn Hl]%Forall_cons. apply Forall_cons. cbn in Hn |- *. rewrite Hv. split; [lia|]. by apply K3.
  - unfold nonempty. rewrite !Forall_cons. cbn [snd]. rewrite He. intros [? ?]. split; [done|]. by apply K4.
Qed.

Lemma readLock_free n g : lock_free (verLock n) -> g = 0 -> readLock n g = Ok (verLock n, n).
Proof. intros Hf ->. unfold readLock. rewrite read_lock_free by done. cbn. by rewrite set_verLock_id. Qed.

Definition start_in (l : node_list) (startKey : Z) : Prop :=
  Forall (fun x => ln_min x.2 < startKey < ln_max x.2 -> entries x.2 <> []) l.

(** One node of the scan. *)
Lemma scan_node d k p n l2 t startKey range vec : dl_inv d (k ++ (p, n) :: l2) t -> locks_fresh ((p, n) :: l2) ->
  (ln_min n < startKey -> entries n <> []) -> (length vec < range)%nat ->
  exists n', let vec' := vec ++ take (range - length vec) (snd <$> filter (fun kv => startKey <= kv.1) (ordered n)) in
    node_scan n startKey range vec (verLock n) 0 = Ok (Some (bool_decide (length vec' = range), vec', n')) /\
    same_place n n' /\ entries n' = entries n /\ verLock n' = verLock n /\ data_ok n' /\
    (pLock n' <= pLock n + 2) /\ dl_inv (put_node p n' d) (k ++ (p, n') :: l2) t.
Proof.
  intros Hi Hf Hne Hlen. pose proof (di_data _ _ _ Hi) as Hd. rewrite Forall_forall in Hd. pose proof (Hd _ (middle_elem _ _ _)) as Hn. cbn in Hn.
  assert (lock_free (pLock n)) as Hpf.
  { apply fresh_lock_free; [apply Hn|]. by apply Forall_cons in Hf as [[_ ?] _]. }
  assert (getVaddr (nextPtr n) <> 0) as Hnx.
  { pose proof (di_linked _ _ _ Hi) as Hl. rewrite <- app_assoc in Hl. apply linked_app in Hl as [_ Hl]. cbn in Hl.
    destruct Hl as (_ & _ & _ & -> & Hl). destruct (relink_shape 0 l2 t) as (r & nr & L3 & E3 & _). rewrite E3 in *. cbn in *.
    destruct Hl as ((Hz & ->) & _). done. }
  destruct (node_scan_spec n startKey range vec (verLock n)) as (n' & Hs & Hp & Hv & E); try apply Hn; try done.
  { eapply Forall_impl; [apply Hn|]. cbn. lia. }
  destruct (data_ok_scanned n n' Hn Hpf Hs Hp Hv) as (Hn' & Hsp & He & Hvl). exists n'. cbv zeta in E |- *.
  split_and!; try done.
  - destruct Hs as (_ & _ & [-> | ->]); lia.
  - eapply dl_inv_replace; [exact Hi|done|done|done..|]. eapply zero_stays; [exact Hi|]. by rewrite He.
Qed.

Lemma scan_loop_spec t startKey range : verLock t.2 < 2 ^ 32 - 4 -> forall l2 d k vec fuel,
  dl_inv d (k ++ l2) t -> locks_fresh l2 -> Forall (fun x => ln_min x.2 < startKey -> entries x.2 <> []) l2 ->
  (length l2 < fuel)%nat -> (length vec <= range)%nat ->
  exists d' l2', scan_loop fuel d (next_of l2 t.1) startKey range vec =
      Ok (Some (vec ++ take (range - length vec) (snd <$> filter (fun kv => startKey <= kv.1) (in_order l2)), d')) /\
    dl_inv d' (k ++ l2') t /\ scan_kept l2 l2' /\ dl_log d' = dl_log d /\ dom (dl_nodes d') = dom (dl_nodes d).
Proof.
  intros Htf. induction l2 as [|[p n] l2 IH]; intros d k vec fuel Hi Hf Hne Hfuel Hlen; (destruct fuel as [|fuel]; [cbn in Hfuel; lia|]);
    cbn [scan_loop next_of]; (case_bool_decide as Hlt;
    [|replace (range - length vec)%nat with 0%nat by lia; rewrite take_0, app_nil_r; eexists d, _; by split_and!; [..|apply scan_kept_refl| |]]).
  - destruct (in_memory_node d (k ++ []) t t.1 t.2 Hi) as (_ & _ & ->); [apply elem_of_app; right; destruct t; left|].
    cbn [mbind res_bind]. pose proof (di_tail _ _ _ Hi) as Ht.
    assert (lock_free (verLock t.2)) as Hfr by (apply fresh_lock_free; [apply Ht|done]).
    rewrite (readLock_free t.2 _ Hfr (di_gen _ _ _ Hi)). cbn [mbind res_bind]. destruct Hfr as [Hv _].
    rewrite (proj2 (Z.eqb_neq _ 0)), (ta_live _ Ht) by lia. unfold node_scan.
    assert (nextPtr t.2 = 0) as ->.
    { pose proof (di_linked _ _ _ Hi) as Hl. apply linked_app in Hl as [_ Hl]. destruct t. cbn in Hl. naive_solver. }
    change (getVaddr 0 =? 0) with true. cbv iota. cbn [mbind res_bind]. unfold readUnlock, read_unlock. rewrite Z.eqb_refl. cbn [negb].
    change (in_order []) with (@nil (Z * Z)). rewrite filter_nil, fmap_nil, take_nil, app_nil_r. eexists _, []. split; [done|].
    assert (dl_nodes d !! t.1 = Some t.2) as Ht1.
    { pose proof (di_mem _ _ _ Hi) as Hm. apply Forall_app in Hm as [_ [Hm _]%Forall_cons]. done. }
    split_and!; [|apply scan_kept_refl|done|cbn; rewrite dom_insert_L; apply subseteq_union_1_L, singleton_subseteq_l, elem_of_dom; by eexists].
    assert (put_node t.1 t.2 d = d) as ->; [|done]. unfold put_node, set_nodes. rewrite insert_id by done. by destruct d.
  - apply Forall_cons in Hne as [Hn1 Hne]. cbn in Hn1.
    destruct (in_memory_node d _ t p n Hi) as (_ & _ & ->); [rewrite <- app_assoc; apply middle_elem|]. cbn [mbind res_bind].
    destruct (scan_node d k p n l2 t startKey range vec Hi Hf Hn1 Hlt) as (n' & E & Hsp & He & Hv & Hd' & Hpl & Hi'). cbv zeta in E.
    assert (data_ok n) as Hn. { pose proof (di_data _ _ _ Hi) as Hd. rewrite Forall_forall in Hd. apply (Hd (p, n)), middle_elem. }
    pose proof (fresh_free [] _ _ _ Hf Hn) as Hfr. rewrite (readLock_free n _ Hfr (di_gen _ _ _ Hi)). cbn [mbind res_bind].
    destruct Hfr as [Hv0 _]. rewrite (proj2 (Z.eqb_neq _ 0)), (da_live _ Hn), (di_gen _ _ _ Hi), E by lia. cbn [mbind res_bind].
    unfold readUnlock, read_unlock. rewrite Hv, Z.eqb_refl. cbn [negb].
    assert (ln_min n' = ln_min n) as Hmin by apply Hsp.
    assert (dom (dl_nodes (put_node p n' d)) = dom (dl_nodes d)) as Hdom.
    { cbn. rewrite dom_insert_L. apply subseteq_union_1_L, singleton_subseteq_l, elem_of_dom. exists n.
      pose proof (di_mem _ _ _ Hi) as Hm. rewrite <- app_assoc in Hm. by apply Forall_app in Hm as [_ [? _]%Forall_cons]. }
    change (in_order ((p, n) :: l2)) with (ordered n ++ in_order l2). rewrite filter_app, fmap_app.
    set (vs := snd <$> filter (fun kv => startKey <= kv.1) (ordered n)) in *. case_bool_decide as Hfull.
    { eexists _, ((p, n') :: l2). rewrite take_enough by done. split_and!; [done|done| |done|exact Hdom].
      apply scan_kept_cons; [done..|apply scan_kept_refl]. }
    assert (getNext n' = next_of l2 t.1) as ->.
    { destruct Hsp as (_ & En & _). unfold getNext. rewrite En. pose proof (di_linked _ _ _ Hi) as Hl. rewrite <- app_assoc in Hl.
      apply linked_app in Hl as [_ Hl]. cbn in Hl. destruct Hl as (_ & _ & _ & -> & Hl).
      destruct l2 as [|[r nr] l3]; [destruct t as [r nr]|]; cbn in *; naive_solver. }
    assert (length (vec ++ take (range - length vec) vs) < range)%nat as Hlt2 by (rewrite length_app, length_take in *; lia).
    destruct (IH (put_node p n' d) (k ++ [(p, n')]) (vec ++ take (range - length vec) vs) fuel) as (d' & l2' & Es & Hi2 & Hkept & Hlog & Hdom2).
    + by rewrite <- app_assoc.
    + by apply Forall_cons in Hf as [_ ?].
    + done.
    + cbn in Hfuel. lia.
    + lia.
    + rewrite Es. exists d', ((p, n') :: l2'). rewrite <- app_assoc in Hi2. split_and!; [by rewrite take_more|done| |done|by rewrite Hdom2].
      by apply scan_kept_cons.
Qed.

(** * Scans *)

Lemma dl_scan_spec d l t startKey range s : dl_inv d l t -> locks_fresh (l ++ [t]) -> 0 <= startKey < ULLONG_MAX ->
  s ∈ (l ++ [t]).*1 -> start_in l startKey ->
  exists d' l', scan d startKey range s = Ok (Some (take range (snd <$> from_key (dl_map l) startKey), d')) /\
    dl_inv d' l' t /\ anchors l' = anchors l /\ dl_map l' = dl_map l /\ dl_log d' = dl_log d /\ dom (dl_nodes d') = dom (dl_nodes d) /\
    locks_grow (l ++ [t]) (l' ++ [t]) /\ (nonempty l -> nonempty l').
Proof.
  intros Hi Hf Hk Hs Hst. apply Forall_app in Hf as [Hf [[Htf _] _]%Forall_cons].
  destruct (walk_at d l t startKey s Hi Hf Hk Hs) as (l1 & p & n & l2 & -> & Hw & Ha). unfold scan. rewrite Hw. cbn [mbind res_bind].
  pose proof (an_key _ _ _ _ _ _ _ Ha) as Hkey. pose proof (di_tiled _ _ _ Hi) as Ht. pose proof (di_data _ _ _ Hi) as Hd.
  destruct (scan_loop_spec t startKey range Htf ((p, n) :: l2) d l1 [] (S (size (dl_nodes d)))) as (d' & l2' & E & Hi' & [K1 K2 K3 K4] & Hlog & Hdom).
  - done.
  - by apply Forall_app in Hf as [_ ?].
  - apply Forall_app in Hst as [_ [Hst _]%Forall_cons]. cbn in Hst. apply Forall_cons. split; [cbn; intros Hlt; apply Hst; lia|].
    apply tiled_app in Ht as (mid & _ & Ht). cbn in Ht. destruct Ht as (_ & _ & Ht). apply Forall_forall. intros [q nq] Hq Hlt.
    pose proof (tiled_elem _ _ _ _ _ Ht Hq). cbn in Hlt. lia.
  - pose proof (list_size d _ t Hi) as Hsz. rewrite !length_app in Hsz. cbn in Hsz |- *. lia.
  - cbn. lia.
  - cbn [next_of] in E. rewrite E. exists d', (l1 ++ l2'). rewrite (from_key_suffix _ _ _ _ _ _ _ Ht Hd) by lia.
    cbn [length app]. rewrite Nat.sub_0_r. split_and!; [done|done|unfold anchors in *; by rewrite !fmap_app, K1| |done|done| |].
    + unfold dl_map. by rewrite !flat_app, K2.
    + intros b Hb. unfold locks_below. rewrite !Forall_app. intros ((B1 & B2) & B3).
      split_and!; [eapply (locks_below_mono b); [lia|done]|by apply K3|eapply (locks_below_mono b); [lia|done]].
    + unfold nonempty in *. rewrite !Forall_app. intros [? ?]. split; [done|]. by apply K4.
Qed.
(** C15. A range scan over PACTree's data layer, started at any node of the list, returns the values of
    the first [range] keys from the start key on, in key order; the permuters it rebuilds leave the map alone.  The node
    in whose range the start key lies must not be empty. *)
Theorem dl_scan_correct d l t startKey range s : dl_inv d l t -> locks_fresh (l ++ [t]) -> 0 <= startKey < ULLONG_MAX ->
  s ∈ (l ++ [t]).*1 -> start_in l startKey ->
  exists d' l', scan d startKey range s = Ok (Some (take range (snd <$> from_key (dl_map l) startKey), d')) /\
    dl_inv d' l' t /\ dl_map l' = dl_map l.
Proof.
  intros Hi Hf Hk Hs Hst. destruct (dl_scan_spec d l t startKey range s Hi Hf Hk Hs Hst) as (d' & l' & E & ? & _ & ? & _). by exists d', l'.
Qed.

End scan.

(** * Construction *)

(** Setting every bit. *)
Lemma foldl_set b k : Forall (fun i => (i < 64)%nat) k -> forall i, (i < 64)%nat ->
  test (foldl (fun b i => set b (Z.of_nat i)) b k) (Z.of_nat i) = bool_decide (i ∈ k) || test b (Z.of_nat i).
Proof.
  revert b. induction k as [|j k IH]; intros b Hk i Hi; [done|]. apply Forall_cons in Hk as [Hj Hk]. cbn [foldl].
  rewrite IH by done.
  assert (test (set b (Z.of_nat j)) (Z.of_nat i) = bool_decide (j = i) || test b (Z.of_nat i)) as ->.
  { apply (used_set (MkListNode 0 0 0 0 0 false b [] 0 [] 0 0 []) j i Hj Hi). }
  rewrite orb_assoc. f_equal. rewrite <- bool_decide_or. apply bool_decide_ext. rewrite elem_of_cons. naive_solver.
Qed.

Lemma setFullBitmap_full n : getNumEntries (setFullBitmap n) = MAX_ENTRIES.
Proof.
  unfold getNumEntries. rewrite <- (length_seq MAX_ENTRIES 0) at 2. f_equal. apply filter_all, Forall_forall. intros i Hi.
  unfold setFullBitmap, used. cbn [bitMap set_bitMap]. rewrite foldl_set.
  - by rewrite bool_decide_true.
  - apply Forall_forall. intros j Hj%elem_of_seq. unfold MAX_ENTRIES in Hj. lia.
  - apply elem_of_seq in Hi. unfold MAX_ENTRIES in Hi. lia.
Qed.

Lemma getNumEntries_bitMap n n' : bitMap n = bitMap n' -> getNumEntries n = getNumEntries n'.
Proof. intros E. unfold getNumEntries, used. by rewrite E. Qed.

Section initialize.
Context `{StdSort} `{PO : PMemOk}.

(** Insertion into an empty node. *)
Lemma node_insert_empty d p n key v : p <> 0 -> get_node d p = Ok n -> node_ok n -> entries n = [] ->
  exists n', node_insert d p key v = Ok (true, put_node p n' d) /\ node_ok n' /\ frame n n' /\ entries n' = [(key, v)].
Proof.
  intros Hp Hg Hn He. unfold node_insert. rewrite Hg. cbn [mbind res_bind].
  destruct (getFreeIndex_spec n key Hn) as [[Hin _]|[Hno [[Hfull _]|(i & Hsl & ->)]]].
  - rewrite He in Hin. by apply elem_of_nil in Hin.
  - rewrite He in Hfull. done.
  - pose proof (node_slot_lt _ _ _ Hn Hsl) as Hi. cbn [mbind res_bind].
    rewrite (proj2 (small_index i Hi)), (proj2 (Z.eqb_neq _ (-2))), (proj1 (small_index i Hi)) by lia.
    destruct (insertAtIndex_spec n (key, v) i Hn Hsl Hno) as (n' & E & Hn' & Hf & _ & Ep). cbn [fst] in E. rewrite E.
    cbn [mbind res_bind]. exists n'. split; [done|]. split; [done|]. split; [done|]. rewrite He in Ep. by apply Permutation_singleton_r.
Qed.

Lemma initialize_spec : (2 <= pm_heap)%nat ->
  exists d l t, initialize = Ok d /\ dl_inv d l t /\ locks_below 3 (l ++ [t]) /\ nonempty l /\ dl_map l = {[0 := 0]} /\ dl_log d = [] /\
    size (dl_nodes d) = 2%nat.
Proof.
  intros Hheap. unfold initialize. set (h := pm_alloc ∅).
  assert (h <> 0) as Hh by (apply pm_room; rewrite map_size_empty; lia). destruct (pm_fresh ∅ Hh) as [_ Hhv]. fold h in Hhv.
  rewrite Hhv, (proj2 (Z.eqb_neq h 0)) by done.
  set (d1 := put_node h (new_node (pm_memory h)) (MkDlist ∅ h 0 [] ∅ (MkLogContext 0 0 ∅))). set (t := pm_alloc (dl_nodes d1)).
  assert (size (dl_nodes d1) = 1%nat) as Es1 by (cbn; by rewrite map_size_insert_None by apply lookup_empty).
  assert (t <> 0) as Ht by (apply pm_room; lia). destruct (pm_fresh (dl_nodes d1) Ht) as [Htf Htv]. fold t in Htf, Htv.
  assert (t <> h) as Hth by (intros E; rewrite E in Htf; cbn in Htf; by rewrite lookup_insert_eq in Htf).
  rewrite Htv, (proj2 (Z.eqb_neq t 0)) by done. unfold d1. rewrite get_put_ne, get_put by done. cbn [mbind res_bind].
  destruct (node_insert_empty (put_node h (setCur (setPrev (setNext (new_node (pm_memory h)) t) 0) h) (put_node t (new_node (pm_memory t))
    (put_node h (new_node (pm_memory h)) (MkDlist ∅ h 0 [] ∅ (MkLogContext 0 0 ∅))))) h (setCur (setPrev (setNext (new_node (pm_memory h)) t) 0) h) 0 0)
    as (n1 & -> & Hn1 & Hf1 & He1); [done|by apply get_put| |by apply new_node_entries|].
  { destruct (new_node_ok h). by split. }
  cbn [mbind res_bind]. rewrite get_put by done. cbn [mbind res_bind].
  destruct (node_insert_empty (put_node h (setMax (setMin n1 0) ULLONG_MAX) (put_node h n1 (put_node h
    (setCur (setPrev (setNext (new_node (pm_memory h)) t) 0) h) (put_node t (new_node (pm_memory t)) (put_node h (new_node (pm_memory h))
    (MkDlist ∅ h 0 [] ∅ (MkLogContext 0 0 ∅))))))) t (new_node (pm_memory t)) ULLONG_MAX 0) as (n2 & -> & Hn2 & Hf2 & He2);
    [done|rewrite !get_put_ne by done; by apply get_put|apply new_node_ok|apply new_node_entries|].
  cbn [mbind res_bind]. rewrite get_put by done. cbn [mbind res_bind].
  set (hn := setMax (setMin n1 0) ULLONG_MAX). set (tn := setCur (setPrev (setNext (setFullBitmap (setMin n2 ULLONG_MAX)) 0) h) t).
  destruct Hf1 as [_ _ F3 F4 F5 F6 F7 F8 F9 _]. destruct Hf2 as [_ _ G3 G4 G5 G6 G7 G8 G9 _].
  cbn in F3, F4, F5, F6, F7, F8, F9, G3, G4, G5, G6, G7, G8, G9.
  eexists _, [(h, hn)], (t, tn). split; [done|].
  assert (flat [(h, hn)] = [(0, 0)]) as Hfl by exact (eq_trans (app_nil_r (entries n1)) He1).
  assert (data_ok hn) as Hd.
  { split; cbn -[entries]; rewrite ?F6, ?F7, ?F8, ?F9; try done; try (unfold new_lock; lia).
    - destruct Hn1. by split.
    - assert (entries hn = [(0, 0)]) as Ehn by exact He1. rewrite Ehn. apply Forall_singleton. cbn. unfold ULLONG_MAX. lia. }
  assert (tail_ok tn) as Hta.
  { split; [reflexivity| |exact G6|unfold tn; cbn [verLock setCur setPrev setNext setFullBitmap set_bitMap setMin]; by rewrite G7].
    rewrite (getNumEntries_bitMap tn (setFullBitmap (setMin n2 ULLONG_MAX))) by reflexivity. apply setFullBitmap_full. }
  split; [split|]; try exact Hta; cbn -[entries mbind].
  - done.
  - done.
  - repeat (apply Forall_cons; split); [..|done]; cbn.
    + rewrite !lookup_insert_ne by done. by rewrite lookup_insert_eq.
    + by rewrite lookup_insert_eq.
  - rewrite !NoDup_cons, list_elem_of_singleton. split; [done|]. split; [by intros ?%elem_of_nil|constructor].
  - rewrite F3, F4, F5. by split_and!.
  - unfold ULLONG_MAX. by split_and!.
  - by apply Forall_singleton.
  - fold (flat [(h, hn)]). rewrite Hfl. left.
  - split_and!.
    + repeat (apply Forall_cons; split); [..|done]; cbn; rewrite ?F7, ?F9, ?G7, ?G9; unfold new_lock; lia.
    + apply Forall_singleton. cbn [snd]. assert (entries hn = [(0, 0)]) as -> by exact He1. done.
    + unfold dl_map. by rewrite Hfl.
    + done.
    + rewrite !insert_insert_eq, (insert_insert_ne _ h t), !insert_insert_eq by done.
      rewrite map_size_insert_None by (by rewrite lookup_insert_ne, lookup_empty).
      by rewrite map_size_insert_None by apply lookup_empty.
Qed.
End initialize.
