(* ===== verification/SearchLayer.v ===== *)
(** The search layer of PACTree ([src/PRISM/lib/pactree/src/SearchLayer.h]):
    [PDLARTIndex] over a radix tree from anchor keys to data nodes.

    The tree (PDL-ART) is used through the interface [ArtTree], whose
    operations may fault.  [ArtTreeOk] is what the layers above rely on: a tree
    holds a map, an insertion sets one key of it while there is memory, and a
    nearest-key lookup in a tree that is not empty gives a pointer of the map.
    [ArtMap.v] shows that PDL-ART meets it. *)

From S2P Require Import Prelude.

Local Open Scope Z_scope.

(** * The tree *)

(** [loadKey] is the function that the tree is built with: it reads the key
    from the node a pointer leads to. *)
Class ArtTree (T : Type) := {
  art_new : res T;
  art_insert : (Z -> Z) -> T -> Z -> Z -> res T;
  art_remove : (Z -> Z) -> T -> Z -> Z -> res T;
  art_lookupNext : (Z -> Z) -> T -> Z -> res Z;
}.

(** A pointer whose key is next to [start] on one side. *)
Definition nearest_in (M : gmap Z Z) (start tid : Z) : Prop :=
  exists k, M !! k = Some tid /\ forall k', is_Some (M !! k') -> ~ (start <= k' < k) /\ ~ (k < k' <= start).

Lemma nearest_present M k p tid : M !! k = Some p -> nearest_in M k tid -> tid = p.
Proof.
  intros Hk (k' & Hk' & Hn). destruct (Hn k) as [H1 H2]; [by eexists|]. assert (k' = k) as -> by lia. congruence.
Qed.

(** [art_holds loadKey n t M]: after [n] insertions the tree [t] holds [M];
    [art_cap]: the insertions that the memory has room for.  Nothing is asked
    of [art_remove], as no removal ever reaches a search layer. *)
Class ArtTreeOk (T : Type) `{ArtTree T} := {
  art_cap : nat;
  art_holds : (Z -> Z) -> nat -> T -> gmap Z Z -> Prop;
  art_new_holds : forall loadKey, (0 < art_cap)%nat -> exists t, art_new = Ok t /\ art_holds loadKey 0 t ∅;
  art_insert_holds : forall loadKey n t M k tid, art_holds loadKey n t M -> (n < art_cap)%nat ->
    0 <= k < 2 ^ 64 -> 0 < tid < 2 ^ 63 -> loadKey tid = k ->
    exists t', art_insert loadKey t k tid = Ok t' /\ art_holds loadKey (S n) t' (<[k := tid]> M);
  art_next_holds : forall loadKey n t M k, art_holds loadKey n t M -> M <> ∅ -> 0 <= k < 2 ^ 64 ->
    exists tid, art_lookupNext loadKey t k = Ok tid /\ nearest_in M k tid;
  art_holds_ext : forall loadKey loadKey' n t M, art_holds loadKey n t M ->
    (forall k tid, M !! k = Some tid -> loadKey' tid = loadKey tid) -> art_holds loadKey' n t M;
}.

(** * PDLARTIndex *)

Record SearchLayer (T : Type) := MkSearchLayer { sl_idx : T; curMin : Z; numInserts : Z }.
Arguments MkSearchLayer {_}. Arguments sl_idx {_}. Arguments curMin {_}. Arguments numInserts {_}.

Section search.
Context {T : Type} `{ArtTree T}.

(** [PDLARTIndex()] on memory in which [curMin] is [min]: the constructor does
    not set it. *)
Definition new_search (min : Z) : res (SearchLayer T) := t ← art_new; Ok (MkSearchLayer t min 0).

Definition sl_insert (loadKey : Z -> Z) (sl : SearchLayer T) (key ptr : Z) : res (SearchLayer T) :=
  t ← art_insert loadKey (sl_idx sl) key ptr;
  Ok (MkSearchLayer t (if key <? curMin sl then key else curMin sl) (to_u32 (numInserts sl + 1))).

Definition sl_remove (loadKey : Z -> Z) (sl : SearchLayer T) (key ptr : Z) : res (SearchLayer T) :=
  t ← art_remove loadKey (sl_idx sl) key ptr;
  Ok (MkSearchLayer t (curMin sl) (to_u32 (numInserts sl - 1))).

Definition sl_lookup (loadKey : Z -> Z) (sl : SearchLayer T) (key : Z) : res Z :=
  if key <=? curMin sl then Ok 0 else art_lookupNext loadKey (sl_idx sl) key.

Definition sl_isEmpty (sl : SearchLayer T) : bool := numInserts sl <? 2.

(** * What it holds *)

Context `{!ArtTreeOk T}.

(** After [n] insertions the layer holds [M]. *)
Record sl_holds (loadKey : Z -> Z) (n : nat) (sl : SearchLayer T) (M : gmap Z Z) : Prop := {
  sh_tree : art_holds loadKey n (sl_idx sl) M;
  sh_count : numInserts sl = to_u32 (Z.of_nat n);
  sh_some : n <> 0%nat -> M <> ∅;
}.

Lemma new_search_holds loadKey min : (0 < art_cap)%nat -> exists sl, new_search min = Ok sl /\ sl_holds loadKey 0 sl ∅.
Proof.
  intros Hc. unfold new_search. destruct (art_new_holds loadKey Hc) as (t & -> & Ht). eexists. by split.
Qed.

Lemma sl_insert_holds loadKey n sl M key ptr : sl_holds loadKey n sl M -> (n < art_cap)%nat -> 0 <= key < 2 ^ 64 -> 0 < ptr < 2 ^ 63 ->
  loadKey ptr = key -> exists sl', sl_insert loadKey sl key ptr = Ok sl' /\ sl_holds loadKey (S n) sl' (<[key := ptr]> M).
Proof.
  intros [Ht Hn _] Hc Hk Hp Hl. unfold sl_insert. destruct (art_insert_holds loadKey n _ M key ptr Ht Hc Hk Hp Hl) as (t' & -> & Ht').
  eexists. split; [done|]. split; cbn [sl_idx numInserts]; [done| |intros _; apply insert_non_empty].
  rewrite Hn. unfold to_u32, to_u. rewrite Zplus_mod_idemp_l. f_equal. lia.
Qed.

(** A lookup in a layer that does not count as empty gives nothing or a
    pointer of the map. *)
Lemma sl_lookup_holds loadKey n sl M key : sl_holds loadKey n sl M -> sl_isEmpty sl = false -> 0 <= key < 2 ^ 64 ->
  exists p, sl_lookup loadKey sl key = Ok p /\ (p = 0 \/ exists k, M !! k = Some p).
Proof.
  intros [Ht Hn Hs] He Hk. unfold sl_lookup. destruct (key <=? curMin sl); [exists 0; auto|].
  assert (M <> ∅) as Hne.
  { apply Hs. intros ->. unfold sl_isEmpty in He. by rewrite Hn in He. }
  destruct (art_next_holds loadKey n _ M key Ht Hne Hk) as (p & E & k & Hp & _). exists p. split; [done|]. right. by exists k.
Qed.

Lemma sl_holds_ext loadKey loadKey' n sl M : sl_holds loadKey n sl M ->
  (forall k tid, M !! k = Some tid -> loadKey' tid = loadKey tid) -> sl_holds loadKey' n sl M.
Proof. intros [Ht Hn Hs] He. split; [by eapply art_holds_ext|done|done]. Qed.
End search.

(** * A map as a tree

    The pointer of the greatest key not above the one looked up, else of the
    least key. *)

Definition gmap_lookupNext (t : gmap Z Z) (k : Z) : res Z :=
  let s := sort_by fst (map_to_list t) in
  match last (filter (fun kv => kv.1 <= k) s), s with
  | Some kv, _ => Ok kv.2
  | None, kv :: _ => Ok kv.2
  | None, [] => Err NullDeref
  end.

#[export] Instance gmap_art : ArtTree (gmap Z Z) := {|
  art_new := Ok ∅;
  art_insert := fun _ t k p => Ok (<[k := p]> t);
  art_remove := fun _ t k _ => Ok (delete k t);
  art_lookupNext := fun _ => gmap_lookupNext;
|}.

(** The last pair up to [k] of a list in order, or its first pair. *)
Lemma last_filter_sorted (s : list (Z * Z)) k : StronglySorted (key_le fst) s -> s <> [] ->
  exists kv, kv ∈ s /\ match last (filter (fun kv => kv.1 <= k) s), s with Some kv, _ => Ok kv.2 | None, kv :: _ => Ok kv.2 | None, [] => Err NullDeref end = Ok kv.2 /\
    forall kv', kv' ∈ s -> ~ (k <= kv'.1 < kv.1) /\ ~ (kv.1 < kv'.1 <= k).
Proof.
  intros Hs Hne. destruct (last (filter (fun kv => kv.1 <= k) s)) as [kv|] eqn:E.
  - apply last_Some in E as [l' E]. assert (kv ∈ filter (fun kv => kv.1 <= k) s) as Hin by (rewrite E; apply elem_of_app; right; left).
    apply list_elem_of_filter in Hin as [Hk Hin]. exists kv. split; [done|]. split; [done|]. intros kv' Hin'. split; [lia|]. intros Hlt.
    assert (StronglySorted (key_le fst) (l' ++ [kv])) as Hs' by (rewrite <- E; by apply sorted_filter).
    assert (kv' ∈ l' ++ [kv]) as [Hl|[= ->]%list_elem_of_singleton]%elem_of_app by (rewrite <- E; apply list_elem_of_filter; split; [lia|done]); [|lia].
    pose proof (StronglySorted_app_1_elem_of _ _ _ kv' kv Hs' Hl ltac:(left)) as Hle. unfold key_le in Hle. lia.
  - destruct s as [|kv s]; [done|]. exists kv. split; [left|]. split; [done|]. intros kv' Hin. inversion Hs as [|? ? _ Hall]; subst. rewrite Forall_forall in Hall.
    assert (kv.1 <= kv'.1) as Hle by (apply elem_of_cons in Hin as [->|Hin]; [lia|by apply Hall]).
    assert (~ kv'.1 <= k) as Hgt; [|lia]. intros Hle'. apply last_None in E. apply (elem_of_nil kv'). rewrite <- E. by apply list_elem_of_filter.
Qed.

Lemma gmap_next (t : gmap Z Z) k : t <> ∅ -> exists tid, gmap_lookupNext t k = Ok tid /\ nearest_in t k tid.
Proof.
  intros Hne. destruct (last_filter_sorted (sort_by fst (map_to_list t)) k) as ([k' p] & Hin & E & Hn).
  - apply sort_by_sorted.
  - intros E. apply Hne, map_to_list_empty_iff, Permutation_nil. by rewrite <- E, sort_by_perm.
  - exists p. split; [exact E|]. rewrite sort_by_perm in Hin. apply elem_of_map_to_list in Hin. exists k'. split; [done|].
    intros k2 [p2 Hk2]. apply (Hn (k2, p2)). by rewrite sort_by_perm, elem_of_map_to_list.
Qed.

(** [n] insertions fit for every [n] up to [cap]. *)
Definition gmap_art_ok (cap : nat) : ArtTreeOk (gmap Z Z).
Proof.
  refine {| art_cap := cap; art_holds := fun _ _ t M => t = M |}; cbn.
  - intros _ _. by exists ∅.
  - intros _ n t M k p -> _ _ _ _. by eexists.
  - intros _ n t M k -> Hne _. by apply gmap_next.
  - done.
Defined.
