(* ===== verification/ArtNode.v ===== *)
(** Nodes of the radix tree of PACTree's search layer
    ([src/PRISM/lib/pactree/lib/PDL-ART/N.h], [N.cpp], [N4.cpp], [N16.cpp],
    [N48.cpp], [N256.cpp]).

    A node maps the next byte of a key to a child, in one of four layouts:
    up to 4 or 16 pairs in order of arrival, an index of 256 bytes into 48
    children, or 256 children.  A child is another node or a leaf, which is
    the pointer a key was inserted with, marked by bit 63.  Null children are
    words without an offset.

    The [countValues] word holds the number of slots handed out in its upper
    half and the number of children in its lower half.  Marking a pointer
    dirty has no effect in this version ([pptr.h]), so the loops that wait for
    clean pointers do not wait.  Cache-line flushes and the node's lock word
    are not modelled: every tree has one writer, the worker thread of its NUMA
    node. *)

From S2P Require Import Prelude NodeBits VersionedLock ListNode.

Local Open Scope Z_scope.

(** * Leaves *)

Definition isLeaf (n : Z) : bool := Z.land n (Z.shiftl 1 63) =? Z.shiftl 1 63.
Definition setLeaf (tid : Z) : Z := Z.lor tid (Z.shiftl 1 63).
Definition getLeaf (n : Z) : Z := Z.land n (Z.shiftl 1 63 - 1).

(** * Layout *)

Definition maxStoredPrefixLength : nat := 4.

(** [prefix] are the stored bytes; those past its end are uninitialised. *)
Record Prefix := MkPrefix { prefixCount : Z; prefix : list Z }.

Inductive nbody :=
  | N4 (keys children : list Z)
  | N16 (keys children : list Z)
  | N48 (childIndex children : list Z)
  | N256 (children : list Z).

Record anode := MkNode { n_level : Z; n_prefix : Prefix; countValues : Z; n_body : nbody }.

Definition emptyMarker : Z := 48.

Definition new_N4 (level : Z) (p : Prefix) : anode := MkNode level p 0 (N4 (replicate 4 0) (replicate 4 0)).
Definition new_N16 (level : Z) (p : Prefix) : anode := MkNode level p 0 (N16 (replicate 16 0) (replicate 16 0)).
Definition new_N48 (level : Z) (p : Prefix) : anode := MkNode level p 0 (N48 (replicate 256 emptyMarker) (replicate 48 0)).
Definition new_N256 (level : Z) (p : Prefix) : anode := MkNode level p 0 (N256 (replicate 256 0)).

Definition compactCount (n : anode) : Z := to_u16 (Z.shiftr (countValues n) 16).
Definition getCount (n : anode) : Z := to_u16 (countValues n).

Definition set_body (n : anode) (cv : Z) (b : nbody) : anode := MkNode (n_level n) (n_prefix n) (to_u32 cv) b.

(** [memcpy] of the stored part of a prefix of the given length. *)
Definition setPrefix (src : list Z) (length_ : Z) : res Prefix :=
  if 0 <? length_ then
    let k := Z.to_nat (Z.min length_ (Z.of_nat maxStoredPrefixLength)) in
    if bool_decide (k <= length src)%nat then Ok (MkPrefix length_ (take k src)) else Err Uninitialised
  else Ok (MkPrefix 0 []).

Definition set_prefix (n : anode) (p : Prefix) : anode := MkNode (n_level n) p (countValues n) (n_body n).

(** Array accesses. *)
Definition at_idx (l : list Z) (i : Z) : res Z := if 0 <=? i then of_option OutOfRange (l !! Z.to_nat i) else Err OutOfRange.
Definition store_idx (l : list Z) (i x : Z) : res (list Z) := _ ← at_idx l i; Ok (<[Z.to_nat i := x]> l).

Definition null (p : Z) : bool := getVaddr p =? 0.

(** [N16::flipSign] *)
Definition flipSign (keyByte : Z) : Z := Z.lxor keyByte 128.

(** * Insertion of a child; [None]: the node is full *)

Definition n4_insert (n : anode) (keys children : list Z) (key p : Z) : res (option anode) :=
  let cc := compactCount n in
  if cc =? 4 then Ok None
  else
    keys' ← store_idx keys cc key; children' ← store_idx children cc p;
    Ok (Some (set_body n (countValues n + (Z.shiftl 1 16 + 1)) (N4 keys' children'))).

Definition n16_insert (n : anode) (keys children : list Z) (key p : Z) : res (option anode) :=
  let cc := compactCount n in
  if cc =? 16 then Ok None
  else
    children' ← store_idx children cc p; keys' ← store_idx keys cc (flipSign key);
    Ok (Some (set_body n (countValues n + (Z.shiftl 1 16 + 1)) (N16 keys' children'))).

Definition n48_insert (n : anode) (childIndex children : list Z) (key p : Z) : res (option anode) :=
  let cc := compactCount n in
  if cc =? 48 then Ok None
  else
    children' ← store_idx children cc p; childIndex' ← store_idx childIndex key cc;
    Ok (Some (set_body n (countValues n + (Z.shiftl 1 16 + 1)) (N48 childIndex' children'))).

Definition n256_insert (n : anode) (children : list Z) (key p : Z) : res (option anode) :=
  children' ← store_idx children key p;
  Ok (Some (set_body n (countValues n + Z.shiftl 1 16) (N256 children'))).

Definition n_insert (n : anode) (key p : Z) : res (option anode) :=
  match n_body n with
  | N4 ks cs => n4_insert n ks cs key p
  | N16 ks cs => n16_insert n ks cs key p
  | N48 ix cs => n48_insert n ix cs key p
  | N256 cs => n256_insert n cs key p
  end.

(** [insert] calls whose result is not used. *)
Definition insert_ (n : anode) (key p : Z) : res anode := r ← n_insert n key p; Ok (default n r).

(** * Search for a child *)

(** Position of the first non-null child with the key, from [i] on. *)
Fixpoint find_child (ks cs : list Z) (k : Z) (i : Z) : option Z :=
  match ks, cs with
  | key :: ks', c :: cs' => if negb (null c) && (key =? k) then Some i else find_child ks' cs' k (i + 1)
  | _, _ => None
  end.

Definition n4_getChildPptr (keys children : list Z) (k : Z) : res Z :=
  match find_child keys children k 0 with Some i => at_idx children i | None => Ok 0 end.

(** The loop over the matches of the vector comparison; a round clears a bit. *)
Fixpoint match_loop (fuel : nat) (test : Z -> res bool) (bitfield : Z) : res (option Z) :=
  if bitfield =? 0 then Ok None
  else
    match fuel with
    | O => Err NoReturn
    | S fuel' =>
        let pos := bsf bitfield in
        t ← test pos;
        if (t : bool) then Ok (Some pos) else match_loop fuel' test (Z.lxor bitfield (Z.shiftl 1 pos))
    end.

Definition n16_getChildPptr (keys children : list Z) (k : Z) : res Z :=
  r ← match_loop 17 (fun pos => c ← at_idx children pos; key ← at_idx keys pos; Ok (negb (null c) && (key =? flipSign k)))
        (Z.land (cmpeq_mask keys (flipSign k)) (Z.shiftl 1 16 - 1));
  match r with Some pos => at_idx children pos | None => Ok 0 end.

Definition n48_getChildPptr (childIndex children : list Z) (k : Z) : res Z :=
  index ← at_idx childIndex k;
  if index =? emptyMarker then Ok 0 else at_idx children index.

Definition n256_getChildPptr (children : list Z) (k : Z) : res Z := at_idx children k.

Definition getChildPptr (n : anode) (k : Z) : res Z :=
  match n_body n with
  | N4 ks cs => n4_getChildPptr ks cs k
  | N16 ks cs => n16_getChildPptr ks cs k
  | N48 ix cs => n48_getChildPptr ix cs k
  | N256 cs => n256_getChildPptr cs k
  end.

Definition getChild (n : anode) (k : Z) : res Z := p ← getChildPptr n k; Ok (getVaddr p).

(** * Replacing a child *)

Definition n4_change (n : anode) (keys children : list Z) (key val : Z) : res anode :=
  let cc := Z.to_nat (compactCount n) in
  match find_child (take cc keys) (take cc children) key 0 with
  | Some i => children' ← store_idx children i val; Ok (MkNode (n_level n) (n_prefix n) (countValues n) (N4 keys children'))
  | None => Err AssertFailure
  end.

Definition n16_getChildPos (n : anode) (keys children : list Z) (k : Z) : res (option Z) :=
  match_loop 17 (fun pos => c ← at_idx children pos; Ok (negb (null c)))
    (Z.land (cmpeq_mask keys (flipSign k)) (Z.shiftl 1 (compactCount n) - 1)).

Definition n16_change (n : anode) (keys children : list Z) (key val : Z) : res anode :=
  childPos ← n16_getChildPos n keys children key;
  match childPos with
  | Some pos => children' ← store_idx children pos val; Ok (MkNode (n_level n) (n_prefix n) (countValues n) (N16 keys children'))
  | None => Err AssertFailure
  end.

Definition n48_change (n : anode) (childIndex children : list Z) (key val : Z) : res anode :=
  index ← at_idx childIndex key;
  _ ← assert_ (negb (index =? emptyMarker));
  children' ← store_idx children index val;
  Ok (MkNode (n_level n) (n_prefix n) (countValues n) (N48 childIndex children')).

Definition n256_change (n : anode) (children : list Z) (key val : Z) : res anode :=
  children' ← store_idx children key val; Ok (MkNode (n_level n) (n_prefix n) (countValues n) (N256 children')).

Definition change (n : anode) (key val : Z) : res anode :=
  match n_body n with
  | N4 ks cs => n4_change n ks cs key val
  | N16 ks cs => n16_change n ks cs key val
  | N48 ix cs => n48_change n ix cs key val
  | N256 cs => n256_change n cs key val
  end.

(** * Copying to a larger node *)

(** The pairs a copy inserts, in order. *)
Definition n4_pairs (n : anode) (keys children : list Z) : list (Z * Z) :=
  filter (fun kc => null kc.2 = false) (take (Z.to_nat (compactCount n)) (zip keys children)).

Definition n16_pairs (n : anode) (keys children : list Z) : list (Z * Z) :=
  filter (fun kc => null kc.2 = false) (take (Z.to_nat (compactCount n)) (zip (flipSign <$> keys) children)).

Definition n48_pairs (childIndex children : list Z) : list (Z * Z) :=
  omap (fun '(i, ix) => if ix =? emptyMarker then None else (fun c => (i, c)) <$> (children !! Z.to_nat ix))
    (zip (Z.of_nat <$> seq 0 256) childIndex).

Definition n256_pairs (children : list Z) : list (Z * Z) :=
  filter (fun kc => null kc.2 = false) (zip (Z.of_nat <$> seq 0 256) children).

Definition pairs (n : anode) : list (Z * Z) :=
  match n_body n with
  | N4 ks cs => n4_pairs n ks cs
  | N16 ks cs => n16_pairs n ks cs
  | N48 ix cs => n48_pairs ix cs
  | N256 cs => n256_pairs cs
  end.

Fixpoint insert_all (l : list (Z * Z)) (n : anode) : res anode :=
  match l with
  | [] => Ok n
  | (k, c) :: l' => n' ← insert_ n k c; insert_all l' n'
  end.

Definition copyTo (n target : anode) : res anode := insert_all (pairs n) target.

(** * Some child, the smallest, the largest *)

Fixpoint any_child (cs : list Z) (anyChild : Z) : Z :=
  match cs with
  | [] => anyChild
  | c :: cs' =>
      let rawChild := getVaddr c in
      if rawChild =? 0 then any_child cs' anyChild
      else if isLeaf rawChild then rawChild else any_child cs' rawChild
  end.

Definition getAnyChild (n : anode) : Z :=
  match n_body n with
  | N4 _ cs | N16 _ cs | N48 _ cs | N256 cs => any_child cs 0
  end.

(** The scan of the small nodes for the smallest key from [start] on, and for
    the largest up to [end_]. *)
Fixpoint smallest_loop (kcs : list (Z * Z)) (start minKey child : Z) : Z :=
  match kcs with
  | [] => child
  | (key, c) :: kcs' =>
      if (start <=? key) && (key <=? minKey) && negb (null c) then smallest_loop kcs' start key (getVaddr c)
      else smallest_loop kcs' start minKey child
  end.

Fixpoint largest_loop (kcs : list (Z * Z)) (end_ maxKey child : Z) : Z :=
  match kcs with
  | [] => child
  | (key, c) :: kcs' =>
      if (key <=? end_) && (maxKey <=? key) && negb (null c) then largest_loop kcs' end_ key (getVaddr c)
      else largest_loop kcs' end_ maxKey child
  end.

(** The first non-null child of the large nodes along a sequence of bytes. *)
Fixpoint first_child (n : anode) (bs : list Z) : res Z :=
  match bs with
  | [] => Ok 0
  | b :: bs' => c ← getChild n b; if c =? 0 then first_child n bs' else Ok c
  end.

Definition getSmallestChild (n : anode) (start : Z) : res Z :=
  match n_body n with
  | N4 ks cs => Ok (smallest_loop (zip ks cs) start 255 0)
  | N16 ks cs => Ok (smallest_loop (take (Z.to_nat (compactCount n)) (zip (flipSign <$> ks) cs)) start 255 0)
  | N48 _ _ | N256 _ => first_child n (Z.of_nat <$> seq (Z.to_nat start) (256 - Z.to_nat start))
  end.

Definition getLargestChild (n : anode) (end_ : Z) : res Z :=
  match n_body n with
  | N4 ks cs => Ok (largest_loop (zip ks cs) end_ 0 0)
  | N16 ks cs => Ok (largest_loop (take (Z.to_nat (compactCount n)) (zip (flipSign <$> ks) cs)) end_ 0 0)
  | N48 _ _ | N256 _ => first_child n (reverse (Z.of_nat <$> seq 0 (S (Z.to_nat end_))))
  end.
