(* ===== verification/ArtNodeFacts.v ===== *)
(** A node of the radix tree represents a finite map from bytes to children.

    [node_ok] is the invariant of the four layouts, [kids] the map.  Every
    operation on nodes is characterised by its effect on the map, so that the
    tree never looks at layouts again. *)

From S2P Require Import Prelude NodeBits VersionedLock ListNode ArtNode.

Local Open Scope Z_scope.

(** * Lists *)

Lemma take_S_insert {A} (l : list A) i x : (i < length l)%nat -> take (S i) (<[i := x]> l) = take i l ++ [x].
Proof.
  revert i. induction l as [|y l IH]; intros [|i] Hi; cbn in *; try lia; [done|]. f_equal. apply IH. lia.
Qed.

Lemma lookup_take_Some' {A} (l : list A) n i x : take n l !! i = Some x <-> (i < n)%nat /\ l !! i = Some x.
Proof. rewrite lookup_take_Some. apply and_comm. Qed.

Lemma elem_of_zip_with_index {A B} (l : list A) (k : list B) a b :
  (a, b) ∈ zip l k <-> exists i, l !! i = Some a /\ k !! i = Some b.
Proof.
  rewrite list_elem_of_lookup. split.
  - intros [i E]. apply lookup_zip_with_Some in E as (x & y & E & ? & ?). injection E as -> ->. by exists i.
  - intros (i & ? & ?). exists i. apply lookup_zip_with_Some. by eexists _, _.
Qed.

Lemma nth_byte i b : (Z.of_nat <$> seq 0 256) !! i = Some b <-> b = Z.of_nat i /\ (i < 256)%nat.
Proof.
  rewrite list_lookup_fmap. destruct (seq 0 256 !! i) as [j|] eqn:Ej.
  - apply lookup_seq in Ej as [-> ?]. cbn. split; [by intros [= <-]|by intros [-> _]].
  - split; [done|]. intros [_ Hi]. by rewrite lookup_seq_lt in Ej.
Qed.

Lemma filter_id {A} (P : A -> Prop) `{!forall x, Decision (P x)} (l : list A) : (forall x, x ∈ l -> P x) -> filter P l = l.
Proof.
  induction l as [|x l IH]; intros Hp; [done|]. rewrite filter_cons_True by (apply Hp; by left).
  f_equal. apply IH. intros y Hy. apply Hp. by right.
Qed.

(** * Bytes and words *)

Definition byte (b : Z) : Prop := 0 <= b < 256.
Definition nonnull (p : Z) : Prop := null p = false.

Lemma nonnull_nonzero p : nonnull p -> p <> 0 /\ getVaddr p = p.
Proof.
  unfold nonnull, null. intros Hp%Z.eqb_neq. unfold getVaddr in *. destruct (Z.land p MASK =? 0) eqn:E; [done|]. done.
Qed.

Lemma nonnull_vaddr p : nonnull p -> getVaddr p = p.
Proof. intros Hp. by apply nonnull_nonzero. Qed.

Lemma flipSign_inj a b : flipSign a = flipSign b -> a = b.
Proof.
  unfold flipSign. intros E. assert (Z.lxor (Z.lxor a 128) 128 = Z.lxor (Z.lxor b 128) 128) as E2 by (by rewrite E).
  by rewrite !Z.lxor_assoc, !Z.lxor_nilpotent, !Z.lxor_0_r in E2.
Qed.

Lemma flipSign_flip a : flipSign (flipSign a) = a.
Proof. unfold flipSign. by rewrite Z.lxor_assoc, Z.lxor_nilpotent, Z.lxor_0_r. Qed.

Lemma at_idx_nat l i : at_idx l (Z.of_nat i) = of_option OutOfRange (l !! i).
Proof. unfold at_idx. rewrite (proj2 (Z.leb_le 0 (Z.of_nat i))) by lia. by rewrite Nat2Z.id. Qed.

Lemma at_idx_some l i x : l !! i = Some x -> at_idx l (Z.of_nat i) = Ok x.
Proof. intros E. by rewrite at_idx_nat, E. Qed.

Lemma store_idx_ok l i x : (i < length l)%nat -> store_idx l (Z.of_nat i) x = Ok (<[i := x]> l).
Proof.
  intros Hi. unfold store_idx. destruct (lookup_lt_is_Some_2 l i Hi) as [y E]. rewrite (at_idx_some _ _ _ E). cbn.
  by rewrite Nat2Z.id.
Qed.

Lemma store_idx_byte l k x : 0 <= k < Z.of_nat (length l) -> store_idx l k x = Ok (<[Z.to_nat k := x]> l).
Proof. intros Hk. rewrite <- (Z2Nat.id k) at 1 by lia. by rewrite store_idx_ok by lia. Qed.

(** The counts of a node with [cc] children. *)
Definition counted (n : anode) (cc : nat) : Prop := countValues n = Z.of_nat cc * 65537 /\ (cc <= 48)%nat.

Lemma counted_compact n cc : counted n cc -> compactCount n = Z.of_nat cc.
Proof.
  intros [E Hc]. unfold compactCount. rewrite E, Z.shiftr_div_pow2 by lia. unfold to_u.
  replace (Z.of_nat cc * 65537) with (Z.of_nat cc + Z.of_nat cc * 2 ^ 16) by lia.
  rewrite Z.div_add, Z.div_small by lia. rewrite Z.mod_small; lia.
Qed.

Lemma counted_count n cc : counted n cc -> getCount n = Z.of_nat cc.
Proof.
  intros [E Hc]. unfold getCount, to_u. rewrite E. replace (Z.of_nat cc * 65537) with (Z.of_nat cc + Z.of_nat cc * 2 ^ 16) by lia.
  rewrite Z.mod_add by lia. rewrite Z.mod_small; lia.
Qed.

Lemma counted_next n cc b : counted n cc -> (cc < 48)%nat ->
  counted (set_body n (countValues n + (Z.shiftl 1 16 + 1)) b) (S cc).
Proof.
  intros [E Hc] Hlt. split; [|lia]. cbn. rewrite E. replace (Z.shiftl 1 16) with 65536 by done. rewrite to_u_id by lia. lia.
Qed.

(** * The invariant *)

(** Pairs in order of arrival, [cc] of them. *)
Definition keyed_ok (cap : nat) (ks cs : list Z) (cc : nat) : Prop :=
  length ks = cap /\ length cs = cap /\ (cc <= cap)%nat /\ NoDup (take cc ks) /\ Forall byte ks /\
  (forall i c, cs !! i = Some c -> nonnull c <-> (i < cc)%nat) /\ (forall i c, cs !! i = Some c -> nonnull c \/ c = 0).

(** An index of 256 bytes into the children, [cc] of them. *)
Definition indexed_ok (ix cs : list Z) (cc : nat) : Prop :=
  length ix = 256%nat /\ length cs = 48%nat /\ (cc <= 48)%nat /\
  (forall i j, ix !! i = Some j -> j = emptyMarker \/ 0 <= j < Z.of_nat cc) /\
  (forall i i' j, ix !! i = Some j -> ix !! i' = Some j -> j <> emptyMarker -> i = i') /\
  (forall j, 0 <= j < Z.of_nat cc -> exists i, ix !! i = Some j) /\
  (forall i c, cs !! i = Some c -> nonnull c <-> (i < cc)%nat).

Definition node_ok (n : anode) : Prop :=
  match n_body n with
  | N4 ks cs => exists cc, counted n cc /\ keyed_ok 4 ks cs cc
  | N16 ks cs => exists cc, counted n cc /\ keyed_ok 16 ks cs cc
  | N48 ix cs => exists cc, counted n cc /\ indexed_ok ix cs cc
  | N256 cs => length cs = 256%nat /\ Forall (fun c => nonnull c \/ c = 0) cs
  end.

(** The map. *)
Definition kids (n : anode) : gmap Z Z := list_to_map (pairs n).

(** * What the pairs are *)

Definition kpairs (cc : nat) (ks cs : list Z) : list (Z * Z) := zip (take cc ks) (take cc cs).

Lemma kpairs_nonnull cap ks cs cc : keyed_ok cap ks cs cc ->
  filter (fun kc => null kc.2 = false) (take cc (zip ks cs)) = kpairs cc ks cs.
Proof.
  intros (_ & _ & _ & _ & _ & Hn & _). rewrite zip_with_take. apply filter_id. intros [k c] (i & _ & Ec)%elem_of_zip_with_index.
  apply lookup_take_Some' in Ec as [Hi Ec]. cbn. by apply (Hn i).
Qed.

Lemma elem_of_kpairs cc ks cs k c : (k, c) ∈ kpairs cc ks cs <-> exists i, (i < cc)%nat /\ ks !! i = Some k /\ cs !! i = Some c.
Proof.
  unfold kpairs. rewrite elem_of_zip_with_index. split.
  - intros (i & [? ?]%lookup_take_Some' & [? ?]%lookup_take_Some'). by exists i.
  - intros (i & ? & ? & ?). exists i. by rewrite !lookup_take_Some'.
Qed.

Lemma kpairs_keys cap ks cs cc : keyed_ok cap ks cs cc -> (kpairs cc ks cs).*1 = take cc ks.
Proof. intros (Hk & Hc & Hcc & _). unfold kpairs. apply fst_zip. rewrite !length_take. lia. Qed.

Lemma flipSign_byte b : byte b -> byte (flipSign b).
Proof.
  intros Hb. assert (Forall (fun x => byte (flipSign x)) (Z.of_nat <$> seq 0 256)) as Hall.
  { apply (bool_decide_eq_true_1 _). by vm_compute. }
  rewrite Forall_forall in Hall. apply Hall, list_elem_of_fmap. exists (Z.to_nat b). unfold byte in Hb.
  rewrite elem_of_seq, Z2Nat.id by lia. split; [done|lia].
Qed.

Lemma keyed_flip cap ks cs cc : keyed_ok cap ks cs cc -> keyed_ok cap (flipSign <$> ks) cs cc.
Proof.
  intros (Hk & Hc & Hcc & Hnd & Hb & Hn & Hz). unfold keyed_ok. rewrite length_fmap, firstn_map. split; [done|]. split; [done|]. split; [done|].
  split; [apply NoDup_fmap_2; [intros ? ?; apply flipSign_inj|done]|]. split; [|done]. apply Forall_fmap. eapply Forall_impl; [done|].
  intros b. apply flipSign_byte.
Qed.

Lemma pairs_keyed n ks cs cap cc : counted n cc -> keyed_ok cap ks cs cc ->
  filter (fun kc => null kc.2 = false) (take (Z.to_nat (compactCount n)) (zip ks cs)) = kpairs cc ks cs.
Proof. intros Hc Hk. rewrite (counted_compact _ _ Hc), Nat2Z.id. by eapply kpairs_nonnull. Qed.

Lemma elem_of_n48_pairs ix cs k c : length ix = 256%nat -> (k, c) ∈ n48_pairs ix cs <->
  exists i j, k = Z.of_nat i /\ ix !! i = Some j /\ j <> emptyMarker /\ cs !! Z.to_nat j = Some c.
Proof.
  intros Hl. unfold n48_pairs. rewrite list_elem_of_omap. split.
  - intros ([b j] & (i & [-> _]%nth_byte & Ej)%elem_of_zip_with_index & E).
    destruct (j =? emptyMarker) eqn:Em; [done|]. apply Z.eqb_neq in Em.
    destruct (cs !! Z.to_nat j) as [c'|] eqn:Ec; [|done]. injection E as <- <-. by exists i, j.
  - intros (i & j & -> & Ej & Em & Ec). exists (Z.of_nat i, j). split.
    + apply elem_of_zip_with_index. exists i. rewrite nth_byte. split; [split; [done|]|done]. apply lookup_lt_Some in Ej. lia.
    + apply Z.eqb_neq in Em. by rewrite Em, Ec.
Qed.

Lemma elem_of_n256_pairs cs k c : length cs = 256%nat -> (k, c) ∈ n256_pairs cs <->
  exists i, k = Z.of_nat i /\ cs !! i = Some c /\ nonnull c.
Proof.
  intros Hl. unfold n256_pairs. rewrite list_elem_of_filter, elem_of_zip_with_index. cbn. split.
  - intros (Hn & i & [-> _]%nth_byte & Ec). by exists i.
  - intros (i & -> & Ec & Hn). split; [done|]. exists i. rewrite nth_byte. split; [split; [done|]|done]. apply lookup_lt_Some in Ec. lia.
Qed.

Lemma omap_NoDup_fst (f : Z * Z -> option (Z * Z)) l : (forall x y, f x = Some y -> y.1 = x.1) -> NoDup l.*1 -> NoDup (omap f l).*1.
Proof.
  intros Hf. induction l as [|x l IH]; intros Hnd; [constructor|]. cbn in Hnd. apply NoDup_cons in Hnd as [Hni Hnd].
  cbn. destruct (f x) as [y|] eqn:E; [|by apply IH]. cbn. apply NoDup_cons. split; [|by apply IH].
  rewrite (Hf _ _ E). intros (z & Ez & (u & Hu & Eu)%list_elem_of_omap)%list_elem_of_fmap. apply Hni.
  apply list_elem_of_fmap. exists u. by rewrite <- (Hf _ _ Eu).
Qed.

Lemma filter_NoDup_fst (P : Z * Z -> Prop) `{!forall x, Decision (P x)} l : NoDup l.*1 -> NoDup (filter P l).*1.
Proof.
  induction l as [|x l IH]; intros Hnd; [constructor|]. cbn in Hnd. apply NoDup_cons in Hnd as [Hni Hnd].
  rewrite filter_cons. case_decide; [|by apply IH]. cbn. apply NoDup_cons. split; [|by apply IH].
  intros (z & Ez & (_ & Hz)%list_elem_of_filter)%list_elem_of_fmap. apply Hni, list_elem_of_fmap. by exists z.
Qed.

Lemma bytes_NoDup (l : list Z) : length l = 256%nat -> NoDup (zip (Z.of_nat <$> seq 0 256) l).*1.
Proof.
  intros Hl. rewrite fst_zip by (by rewrite length_fmap, length_seq, Hl). apply NoDup_fmap_2; [intros ? ?; lia|apply NoDup_seq].
Qed.

Lemma pairs_NoDup n : node_ok n -> NoDup (pairs n).*1.
Proof.
  unfold node_ok, pairs. destruct (n_body n) as [ks cs|ks cs|ix cs|cs].
  - intros (cc & Hc & Hk). unfold n4_pairs. rewrite (pairs_keyed _ _ _ _ _ Hc Hk), (kpairs_keys _ _ _ _ Hk). apply Hk.
  - intros (cc & Hc & Hk%keyed_flip). unfold n16_pairs. rewrite (pairs_keyed _ _ _ _ _ Hc Hk), (kpairs_keys _ _ _ _ Hk). apply Hk.
  - intros (cc & Hc & Hl & _). apply omap_NoDup_fst; [|by apply bytes_NoDup]. intros [b j] y.
    destruct (_ =? _); [done|]. destruct (_ !! _); [|done]. by intros [= <-].
  - intros [Hl _]. by apply filter_NoDup_fst, bytes_NoDup.
Qed.

Lemma elem_of_pairs n k c : node_ok n -> (k, c) ∈ pairs n -> byte k /\ nonnull c.
Proof.
  unfold node_ok, pairs. destruct (n_body n) as [ks cs|ks cs|ix cs|cs].
  - intros (cc & Hc & Hk). unfold n4_pairs. rewrite (pairs_keyed _ _ _ _ _ Hc Hk). intros (i & Hi & Ek & Ec)%elem_of_kpairs.
    destruct Hk as (_ & _ & _ & _ & Hb & Hn & _). split; [|by apply (Hn i)]. rewrite Forall_forall in Hb. apply Hb. by eapply list_elem_of_lookup_2.
  - intros (cc & Hc & Hk%keyed_flip). unfold n16_pairs. rewrite (pairs_keyed _ _ _ _ _ Hc Hk). intros (i & Hi & Ek & Ec)%elem_of_kpairs.
    destruct Hk as (_ & _ & _ & _ & Hb & Hn & _). split; [|by apply (Hn i)]. rewrite Forall_forall in Hb. apply Hb. by eapply list_elem_of_lookup_2.
  - intros (cc & Hc & Hl & _ & _ & Hr & _ & _ & Hn) (i & j & -> & Ej & Em & Ec)%elem_of_n48_pairs; [|done].
    apply lookup_lt_Some in Ej as Hi. split; [unfold byte; lia|]. apply (Hn (Z.to_nat j)); [done|]. destruct (Hr _ _ Ej); [done|lia].
  - intros [Hl _] (i & -> & Ec & Hn)%elem_of_n256_pairs; [|done]. apply lookup_lt_Some in Ec. split; [unfold byte; lia|done].
Qed.

Lemma kids_pairs n k c : node_ok n -> kids n !! k = Some c <-> (k, c) ∈ pairs n.
Proof. intros Hn. symmetry. apply elem_of_list_to_map. by apply pairs_NoDup. Qed.

Lemma kids_elem n k c : node_ok n -> kids n !! k = Some c -> byte k /\ nonnull c.
Proof. intros Hn E%kids_pairs; [|done]. by eapply elem_of_pairs. Qed.

(** * Searching *)

Lemma find_child_spec ks cs k i0 :
  match find_child ks cs k i0 with
  | Some i => exists j c, i = i0 + Z.of_nat j /\ ks !! j = Some k /\ cs !! j = Some c /\ nonnull c
  | None => forall j c, ks !! j = Some k -> cs !! j = Some c -> ~ nonnull c
  end.
Proof.
  revert cs i0. induction ks as [|key ks IH]; intros [|c cs] i0; cbn; try done.
  destruct (negb (null c) && (key =? k)) eqn:E.
  - apply andb_true_iff in E as [En%negb_true_iff ->%Z.eqb_eq]. exists 0%nat, c. split; [lia|]. done.
  - specialize (IH cs (i0 + 1)). destruct (find_child ks cs k (i0 + 1)) as [i|].
    + destruct IH as (j & c' & -> & ? & ? & ?). exists (S j), c'. split; [lia|]. done.
    + intros [|j] c'; cbn; [|by apply IH]. intros [= ->] [= <-] Hn. unfold nonnull in Hn. rewrite Hn, Z.eqb_refl in E. done.
Qed.

Lemma match_loop_spec (test : Z -> res bool) (tst : Z -> bool) fuel bf :
  0 <= bf < 2 ^ 16 -> (forall i, 0 <= i < 17 - Z.of_nat fuel -> Z.testbit bf i = false) ->
  (forall i, Z.testbit bf i = true -> test i = Ok (tst i)) ->
  match match_loop fuel test bf with
  | Ok (Some i) => 0 <= i < 16 /\ Z.testbit bf i = true /\ tst i = true
  | Ok None => forall i, Z.testbit bf i = true -> tst i = false
  | Err _ => False
  end.
Proof.
  revert bf. induction fuel as [|fuel IH]; intros bf Hbf Hlow Ht; cbn [match_loop].
  { destruct (Z.eqb_spec bf 0) as [->|Hnz]; [by intros i; rewrite Z.bits_0|].
    destruct (bsf_spec bf) as (Hr & Hb & _); [lia|]. rewrite Hlow in Hb; [done|].
    split; [lia|]. destruct (decide (bsf bf < 16)); [lia|]. by rewrite (testbit_high bf _ 16) in Hb by lia. }
  destruct (Z.eqb_spec bf 0) as [->|Hnz]; [by intros i; rewrite Z.bits_0|].
  destruct (bsf_spec bf) as (Hr & Hb & Hl); [lia|]. set (pos := bsf bf) in *.
  assert (pos < 16) by (destruct (decide (pos < 16)); [done|]; by rewrite (testbit_high bf _ 16) in Hb by lia).
  rewrite (Ht _ Hb). cbn [mbind res_bind]. destruct (tst pos) eqn:Etst; [by split; [lia|]|].
  assert (forall i, 0 <= i -> Z.testbit (Z.lxor bf (Z.shiftl 1 pos)) i = Z.testbit bf i && negb (pos =? i)) as Hx.
  { intros i Hi. rewrite Z.lxor_spec, Z.shiftl_1_l, Z.pow2_bits_eqb by lia.
    destruct (Z.eqb_spec pos i) as [<-|]; [by rewrite Hb|by rewrite xorb_false_r, andb_true_r]. }
  assert (0 <= Z.lxor bf (Z.shiftl 1 pos) < 2 ^ 16) as Hxr.
  { rewrite Z.shiftl_1_l. assert (0 <= Z.lxor bf (2 ^ pos)) as Hnn by (apply Z.lxor_nonneg; split; intros; [apply Z.pow_nonneg; lia|lia]).
    split; [done|]. destruct (decide (Z.lxor bf (2 ^ pos) = 0)); [lia|]. apply Z.log2_lt_pow2; [lia|].
    pose proof (Z.log2_lxor bf (2 ^ pos) ltac:(lia) ltac:(apply Z.pow_nonneg; lia)) as Hlog. rewrite Z.log2_pow2 in Hlog by lia.
    assert (Z.log2 bf < 16) by (apply Z.log2_lt_pow2; lia). lia. }
  assert (17 - Z.of_nat (S fuel) <= pos) as Hle by (destruct (decide (17 - Z.of_nat (S fuel) <= pos)); [done|]; by rewrite Hlow in Hb by lia).
  assert (forall i, Z.testbit (Z.lxor bf (Z.shiftl 1 pos)) i = true -> Z.testbit bf i = true) as Hsub.
  { intros i Hi. destruct (decide (0 <= i)); [|by rewrite Z.testbit_neg_r in Hi by lia]. rewrite Hx in Hi by done. by apply andb_true_iff in Hi as [? _]. }
  assert (forall i, 0 <= i < 17 - Z.of_nat fuel -> Z.testbit (Z.lxor bf (Z.shiftl 1 pos)) i = false) as Hlow'.
  { intros i Hi. rewrite Hx by lia. destruct (decide (i = pos)) as [->|]; [by rewrite Z.eqb_refl, andb_false_r|]. by rewrite Hl by lia. }
  specialize (IH _ Hxr Hlow' (fun i Hi => Ht i (Hsub i Hi))). destruct (match_loop _ _ _) as [[i|]|]; [| |done].
  - destruct IH as (Hi & Hbi & Hti). split; [done|]. split; [by apply Hsub|done].
  - intros i Hi. destruct (decide (i = pos)) as [->|Hne]; [done|]. apply IH.
    destruct (decide (0 <= i)); [|by rewrite Z.testbit_neg_r in Hi by lia]. rewrite Hx, Hi by done.
    by apply not_eq_sym, Z.eqb_neq in Hne as ->.
Qed.

(** The positions the vector comparison finds among the first [w]. *)
Lemma mask_bits ks x w i : (w <= 16)%nat -> length ks = 16%nat ->
  Z.testbit (Z.land (cmpeq_mask ks x) (Z.shiftl 1 (Z.of_nat w) - 1)) i = true <->
  exists j, i = Z.of_nat j /\ (j < w)%nat /\ ks !! j = Some x.
Proof.
  intros Hw Hl. rewrite Z.shiftl_1_l, Z.sub_1_r, <- Z.ones_equiv. destruct (decide (0 <= i)) as [Hi|Hi].
  - rewrite Z.land_spec, cmpeq_mask_spec, Z.testbit_ones_nonneg, andb_true_iff, Z.ltb_lt by lia. split.
    + intros [E Hlt]. exists (Z.to_nat i). split; [lia|]. split; [lia|]. destruct (ks !! Z.to_nat i); [|done]. by apply Z.eqb_eq in E as ->.
    + intros (j & -> & Hj & E). rewrite Nat2Z.id, E, Z.eqb_refl. split; [done|lia].
  - rewrite Z.testbit_neg_r by lia. split; [done|]. intros (j & -> & _). lia.
Qed.

Lemma mask_range ks x w : (w <= 16)%nat -> 0 <= Z.land (cmpeq_mask ks x) (Z.shiftl 1 (Z.of_nat w) - 1) < 2 ^ 16.
Proof.
  intros Hw. rewrite Z.shiftl_1_l, Z.sub_1_r, <- Z.ones_equiv, Z.land_ones by lia.
  assert (2 ^ Z.of_nat w <= 2 ^ 16) by (apply Z.pow_le_mono_r; lia).
  pose proof (Z.mod_pos_bound (cmpeq_mask ks x) (2 ^ Z.of_nat w) ltac:(apply Z.pow_pos_nonneg; lia)). lia.
Qed.

(** The loop over the matches finds the only child there is. *)
Lemma n16_match ks cs cc k w (tst : Z -> res bool) : keyed_ok 16 ks cs cc -> (cc <= w <= 16)%nat ->
  (forall j c, ks !! j = Some (flipSign k) -> cs !! j = Some c -> tst (Z.of_nat j) = Ok (negb (null c))) ->
  match_loop 17 tst (Z.land (cmpeq_mask ks (flipSign k)) (Z.shiftl 1 (Z.of_nat w) - 1)) =
  Ok (find_child ks cs (flipSign k) 0).
Proof.
  intros (Hk & Hc & Hcc & Hnd & _ & Hn & _) Hw Htst.
  assert (forall j, ks !! j = Some (flipSign k) -> exists c, cs !! j = Some c) as Hex.
  { intros j Ej. apply lookup_lt_Some in Ej. apply lookup_lt_is_Some_2. lia. }
  pose proof (match_loop_spec tst (fun i => match cs !! Z.to_nat i with Some c => negb (null c) | None => false end) 17
    (Z.land (cmpeq_mask ks (flipSign k)) (Z.shiftl 1 (Z.of_nat w) - 1))) as Hm.
  pose proof (find_child_spec ks cs (flipSign k) 0) as Hf.
  destruct (match_loop _ _ _) as [[i|]|].
  - destruct Hm as (Hi & Hb & Ht); [apply mask_range; lia|lia| |].
    { intros i' (j & -> & Hj & Ej)%mask_bits; [|lia|done]. destruct (Hex j Ej) as [c Ec]. rewrite Nat2Z.id, Ec. by apply Htst. }
    apply mask_bits in Hb as (j & -> & Hj & Ej); [|lia|done]. destruct (Hex j Ej) as [c Ec]. rewrite Nat2Z.id, Ec in Ht.
    assert (nonnull c) as Hnc by (by apply negb_true_iff in Ht).
    destruct (find_child _ _ _ _) as [i'|]; [|by destruct (Hf j c)]. destruct Hf as (j' & c' & -> & Ej' & Ec' & Hn').
    assert (j = j') as ->; [|done]. eapply NoDup_lookup; [exact Hnd| |]; apply lookup_take_Some'.
    + split; [|exact Ej]. by apply (Hn j c).
    + split; [|exact Ej']. by apply (Hn j' c').
  - destruct (find_child _ _ _ _) as [i'|]; [|done]. destruct Hf as (j & c & -> & Ej & Ec & Hnc). exfalso.
    assert (match cs !! Z.to_nat (Z.of_nat j) with Some c0 => negb (null c0) | None => false end = false) as Hff.
    { apply Hm; [apply mask_range; lia|lia| |].
      - intros i' (j' & -> & Hj' & Ej')%mask_bits; [|lia|done]. destruct (Hex j' Ej') as [c' Ec']. rewrite Nat2Z.id, Ec'. by apply Htst.
      - apply mask_bits; [lia|done|]. exists j. split; [done|]. split; [|done]. apply (Hn j c) in Hnc; [lia|done]. }
    rewrite Nat2Z.id, Ec in Hff. unfold nonnull in Hnc. by rewrite Hnc in Hff.
  - destruct Hm; [apply mask_range; lia|lia|].
    intros i' (j & -> & Hj & Ej)%mask_bits; [|lia|done]. destruct (Hex j Ej) as [c Ec]. rewrite Nat2Z.id, Ec. by apply Htst.
Qed.

Lemma keyed_find cap ks cs cc k : keyed_ok cap ks cs cc ->
  match find_child ks cs k 0 with
  | Some i => exists j c, i = Z.of_nat j /\ (j < cc)%nat /\ cs !! j = Some c /\ (k, c) ∈ kpairs cc ks cs
  | None => forall c, (k, c) ∉ kpairs cc ks cs
  end.
Proof.
  intros (_ & _ & _ & _ & _ & Hn & _). pose proof (find_child_spec ks cs k 0) as Hf. destruct (find_child _ _ _ _) as [i|].
  - destruct Hf as (j & c & -> & Ek & Ec & Hnc). exists j, c. assert (j < cc)%nat by (by apply (Hn j c)).
    split; [lia|]. split; [done|]. split; [done|]. apply elem_of_kpairs. by exists j.
  - intros c (j & Hj & Ek & Ec)%elem_of_kpairs. eapply Hf; [done|done|]. by apply (Hn j c).
Qed.

Lemma keyed_get cap ks cs cc k : keyed_ok cap ks cs cc ->
  n4_getChildPptr ks cs k = Ok (default 0 ((list_to_map (kpairs cc ks cs) : gmap Z Z) !! k)).
Proof.
  intros Hk. unfold n4_getChildPptr. pose proof (keyed_find _ _ _ _ k Hk) as Hf.
  assert (NoDup (kpairs cc ks cs).*1) as Hnd by (rewrite (kpairs_keys _ _ _ _ Hk); apply Hk).
  destruct (find_child _ _ _ _) as [i|].
  - destruct Hf as (j & c & -> & Hj & Ec & Hin). rewrite (at_idx_some _ _ _ Ec).
    by rewrite (elem_of_list_to_map_1 _ _ _ Hnd Hin).
  - rewrite not_elem_of_list_to_map_1; [done|]. intros ([k' c] & -> & Hin)%list_elem_of_fmap. by apply (Hf c).
Qed.

Lemma kpairs_flip cc ks cs k c : (flipSign k, c) ∈ kpairs cc ks cs <-> (k, c) ∈ kpairs cc (flipSign <$> ks) cs.
Proof.
  rewrite !elem_of_kpairs. split; intros (i & Hi & Ek & Ec); exists i; (split; [done|]); (split; [|done]).
  - by rewrite list_lookup_fmap, Ek; cbn; rewrite flipSign_flip.
  - rewrite list_lookup_fmap in Ek. destruct (ks !! i) as [x|]; [|done]. injection Ek as <-. by rewrite flipSign_flip.
Qed.

Lemma find_child_flip ks cs k i : find_child ks cs (flipSign k) i = find_child (flipSign <$> ks) cs k i.
Proof.
  revert cs i. induction ks as [|x ks IH]; intros [|c cs] i; [done..|]. cbn. rewrite IH.
  replace (x =? flipSign k) with (flipSign x =? k); [done|].
  destruct (Z.eqb_spec (flipSign x) k) as [<-|Hne]; [by rewrite flipSign_flip, Z.eqb_refl|].
  symmetry. apply Z.eqb_neq. intros ->. by rewrite flipSign_flip in Hne.
Qed.

(** The search returns what the map holds. *)
Lemma getChildPptr_kids n b : node_ok n -> byte b -> getChildPptr n b = Ok (default 0 (kids n !! b)).
Proof.
  unfold node_ok, getChildPptr, kids, pairs. destruct (n_body n) as [ks cs|ks cs|ix cs|cs].
  - intros (cc & Hc & Hk) _. unfold n4_pairs. rewrite (pairs_keyed _ _ _ _ _ Hc Hk). by eapply keyed_get.
  - intros (cc & Hc & Hk) _. unfold n16_pairs. rewrite (pairs_keyed _ _ _ _ _ Hc (keyed_flip _ _ _ _ Hk)).
    rewrite <- (keyed_get _ _ _ _ b (keyed_flip _ _ _ _ Hk)). unfold n16_getChildPptr, n4_getChildPptr.
    rewrite <- find_child_flip. change (Z.shiftl 1 16) with (Z.shiftl 1 (Z.of_nat 16)).
    rewrite (n16_match ks cs cc b 16 _ Hk); [done|destruct Hk as (_ & _ & ? & _); lia|].
    intros j c Ej Ec. rewrite (at_idx_some _ _ _ Ec), (at_idx_some _ _ _ Ej). cbn. by rewrite Z.eqb_refl, andb_true_r.
  - intros (cc & Hc & Hi) Hb. pose proof Hi as (Hl & Hcs & _ & Hr & _ & _ & Hnn).
    assert (NoDup (n48_pairs ix cs).*1) as Hnd.
    { apply omap_NoDup_fst; [|by apply bytes_NoDup]. intros [x j] y. destruct (_ =? _); [done|]. destruct (_ !! _); [|done]. by intros [= <-]. }
    unfold byte in Hb. unfold n48_getChildPptr. destruct (lookup_lt_is_Some_2 ix (Z.to_nat b) ltac:(lia)) as [j Ej].
    replace b with (Z.of_nat (Z.to_nat b)) at 1 by lia. rewrite (at_idx_some _ _ _ Ej). cbn [mbind res_bind].
    destruct (Z.eqb_spec j emptyMarker) as [->|Hne].
    + rewrite not_elem_of_list_to_map_1; [done|]. intros ([k' c] & -> & (i & j & Ek & Ej' & Hj & _)%elem_of_n48_pairs)%list_elem_of_fmap; [|done].
      cbn in *. subst. rewrite Nat2Z.id in Ej. congruence.
    + destruct (Hr _ _ Ej) as [?|Hj]; [done|]. destruct (lookup_lt_is_Some_2 cs (Z.to_nat j)) as [c Ec]; [destruct Hi as (_ & _ & ? & _); lia|].
      replace j with (Z.of_nat (Z.to_nat j)) by lia. rewrite (at_idx_some _ _ _ Ec).
      rewrite (elem_of_list_to_map_1 (n48_pairs ix cs) b c Hnd); [done|]. apply elem_of_n48_pairs; [done|].
      exists (Z.to_nat b), j. split; [lia|]. done.
  - intros [Hl Hz] Hb. unfold byte in Hb. unfold n256_getChildPptr. destruct (lookup_lt_is_Some_2 cs (Z.to_nat b) ltac:(lia)) as [c Ec].
    replace b with (Z.of_nat (Z.to_nat b)) at 1 by lia. rewrite (at_idx_some _ _ _ Ec).
    assert (NoDup (n256_pairs cs).*1) as Hnd by (by apply filter_NoDup_fst, bytes_NoDup).
    rewrite Forall_lookup in Hz. destruct (Hz _ _ Ec) as [Hn|Hc0].
    + rewrite (elem_of_list_to_map_1 (n256_pairs cs) b c Hnd); [done|]. apply elem_of_n256_pairs; [done|].
      exists (Z.to_nat b). split; [lia|]. done.
    + rewrite not_elem_of_list_to_map_1; [by rewrite Hc0|]. intros ([k' c'] & -> & (i & Ek & Ec' & Hn)%elem_of_n256_pairs)%list_elem_of_fmap; [|done].
      cbn in *. subst. rewrite Nat2Z.id in Ec. assert (c' = 0) as -> by congruence. done.
Qed.

Lemma getChild_kids n b : node_ok n -> byte b -> getChild n b = Ok (default 0 (kids n !! b)).
Proof.
  intros Hn Hb. unfold getChild. rewrite getChildPptr_kids by done. cbn. f_equal.
  destruct (kids n !! b) as [c|] eqn:E; [|done]. cbn. apply nonnull_vaddr. by eapply kids_elem.
Qed.

(** * Storing *)

Lemma kids_insert n n' k p : node_ok n -> node_ok n' ->
  (forall b c, (b, c) ∈ pairs n' <-> (b = k /\ c = p) \/ (b <> k /\ (b, c) ∈ pairs n)) -> kids n' = <[k := p]> (kids n).
Proof.
  intros Hn Hn' Hp. apply map_eq. intros b. apply option_eq. intros c. rewrite (kids_pairs n') by done. rewrite Hp, lookup_insert_Some.
  rewrite (kids_pairs n) by done. naive_solver.
Qed.

Definition same_head (n n' : anode) : Prop := n_level n' = n_level n /\ n_prefix n' = n_prefix n.

Lemma same_head_trans a b c : same_head a b -> same_head b c -> same_head a c.
Proof. intros [] []. split; congruence. Qed.

(** Room for another child, by layout. *)
Definition cap (b : nbody) : Z := match b with N4 _ _ => 4 | N16 _ _ => 16 | N48 _ _ => 48 | N256 _ => 2 ^ 17 end.
Definition kind (b : nbody) : nat := match b with N4 _ _ => 0 | N16 _ _ => 1 | N48 _ _ => 2 | N256 _ => 3 end.
Definition room (n : anode) : Prop := compactCount n < cap (n_body n).

(** A new child. *)
Definition inserted (n : anode) (k p : Z) (n' : anode) : Prop :=
  node_ok n' /\ kids n' = <[k := p]> (kids n) /\ same_head n n' /\ kind (n_body n') = kind (n_body n) /\
  (kind (n_body n) <> 3%nat -> compactCount n' = compactCount n + 1).

Lemma keyed_insert cap ks cs cc k p : keyed_ok cap ks cs cc -> (cc < cap)%nat -> byte k -> nonnull p ->
  (forall c, (k, c) ∉ kpairs cc ks cs) -> keyed_ok cap (<[cc := k]> ks) (<[cc := p]> cs) (S cc) /\
  kpairs (S cc) (<[cc := k]> ks) (<[cc := p]> cs) = kpairs cc ks cs ++ [(k, p)].
Proof.
  intros Hok Hlt Hb Hp Hni. pose proof Hok as (Hk & Hc & Hcc & Hnd & Hby & Hn & Hz).
  assert (kpairs (S cc) (<[cc := k]> ks) (<[cc := p]> cs) = kpairs cc ks cs ++ [(k, p)]) as Epairs.
  { unfold kpairs. rewrite !take_S_insert by lia. by rewrite zip_with_app by (rewrite !length_take; lia). }
  split; [|done]. unfold keyed_ok. rewrite !length_insert, take_S_insert by lia. split; [done|]. split; [done|]. split; [lia|]. split.
  - apply NoDup_app. split; [done|]. split; [|apply NoDup_singleton]. intros x Hx ->%list_elem_of_singleton.
    rewrite <- (kpairs_keys _ _ _ _ Hok) in Hx. apply list_elem_of_fmap in Hx as ([k' c] & -> & Hin). by apply (Hni c).
  - split; [by apply Forall_insert|]. split.
    + intros i c E. apply list_lookup_insert_Some in E as [(<- & -> & _)|(Hne & E)]; [split; [lia|done]|].
      rewrite (Hn _ _ E). lia.
    + intros i c E. apply list_lookup_insert_Some in E as [(<- & -> & _)|(_ & E)]; [by left|by eapply Hz].
Qed.

Lemma not_kid n k : node_ok n -> kids n !! k = None -> forall c, (k, c) ∉ pairs n.
Proof. intros Hn E c Hin. apply kids_pairs in Hin; [|done]. congruence. Qed.

Lemma n_insert_full n k p : ~ room n -> node_ok n -> n_insert n k p = Ok None.
Proof.
  unfold room, node_ok, n_insert. destruct (n_body n) as [ks cs|ks cs|ix cs|cs]; cbn [cap].
  - intros Hr (cc & Hc & _ & _ & Hle & _). unfold n4_insert. pose proof (counted_compact _ _ Hc).
    by rewrite (proj2 (Z.eqb_eq (compactCount n) 4)) by lia.
  - intros Hr (cc & Hc & _ & _ & Hle & _). unfold n16_insert. pose proof (counted_compact _ _ Hc).
    by rewrite (proj2 (Z.eqb_eq (compactCount n) 16)) by lia.
  - intros Hr (cc & Hc & _ & _ & Hle & _). unfold n48_insert. pose proof (counted_compact _ _ Hc).
    by rewrite (proj2 (Z.eqb_eq (compactCount n) 48)) by lia.
  - intros Hr _. exfalso. apply Hr. unfold compactCount, to_u.
    pose proof (Z.mod_pos_bound (Z.shiftr (countValues n) 16) (2 ^ 16) ltac:(lia)). lia.
Qed.

Lemma n4_insert_ok n ks cs cc k p : n_body n = N4 ks cs -> counted n cc -> keyed_ok 4 ks cs cc -> (cc < 4)%nat -> byte k -> nonnull p ->
  kids n !! k = None -> exists n', n4_insert n ks cs k p = Ok (Some n') /\ inserted n k p n'.
Proof.
  intros Hb Hc Hk Hlt Hbyte Hp Hno. pose proof Hk as (Hlk & Hlc & _).
  assert (node_ok n) as Hn by (unfold node_ok; rewrite Hb; by exists cc).
  assert (pairs n = kpairs cc ks cs) as Epn by (unfold pairs; rewrite Hb; by eapply pairs_keyed).
  pose proof (not_kid _ _ Hn Hno) as Hni. rewrite Epn in Hni.
  destruct (keyed_insert _ _ _ _ _ _ Hk Hlt Hbyte Hp Hni) as [Hk' Ep].
  unfold n4_insert. rewrite (counted_compact _ _ Hc). rewrite (proj2 (Z.eqb_neq (Z.of_nat cc) 4)) by lia.
  rewrite !store_idx_ok by lia. cbn [mbind res_bind]. eexists. split; [done|].
  set (n' := set_body _ _ _). assert (counted n' (S cc)) as Hc' by (apply counted_next; [done|lia]).
  assert (node_ok n') as Hn' by (unfold node_ok; cbn; by exists (S cc)).
  split; [done|]. split; [|split; [done|split; [by cbn; rewrite Hb|]]].
  - apply kids_insert; [done|done|]. intros b c. rewrite Epn. assert (pairs n' = kpairs (S cc) (<[cc := k]> ks) (<[cc := p]> cs)) as ->
      by (unfold pairs; cbn; by eapply pairs_keyed). rewrite Ep, elem_of_app, list_elem_of_singleton. split.
    + intros [Hin|[= -> ->]]; [right|by left]. split; [intros ->; by apply (Hni c)|done].
    + intros [[-> ->]|[_ Hin]]; [by right|by left].
  - intros _. rewrite (counted_compact _ _ Hc'), (counted_compact _ _ Hc). lia.
Qed.

Lemma n16_insert_ok n ks cs cc k p : n_body n = N16 ks cs -> counted n cc -> keyed_ok 16 ks cs cc -> (cc < 16)%nat -> byte k -> nonnull p ->
  kids n !! k = None -> exists n', n16_insert n ks cs k p = Ok (Some n') /\ inserted n k p n'.
Proof.
  intros Hb Hc Hk Hlt Hbyte Hp Hno. pose proof Hk as (Hlk & Hlc & _). pose proof (keyed_flip _ _ _ _ Hk) as Hkf.
  assert (node_ok n) as Hn by (unfold node_ok; rewrite Hb; by exists cc).
  assert (pairs n = kpairs cc (flipSign <$> ks) cs) as Epn by (unfold pairs; rewrite Hb; by eapply pairs_keyed).
  pose proof (not_kid _ _ Hn Hno) as Hni. rewrite Epn in Hni.
  destruct (keyed_insert _ _ _ _ (flipSign k) p Hk Hlt) as [Hk' Ep]; [by apply flipSign_byte|done|intros c; rewrite kpairs_flip; apply Hni|].
  unfold n16_insert. rewrite (counted_compact _ _ Hc). rewrite (proj2 (Z.eqb_neq (Z.of_nat cc) 16)) by lia.
  rewrite !store_idx_ok by lia. cbn [mbind res_bind]. eexists. split; [done|].
  set (n' := set_body _ _ _). assert (counted n' (S cc)) as Hc' by (apply counted_next; [done|lia]).
  assert (node_ok n') as Hn' by (unfold node_ok; cbn; by exists (S cc)).
  split; [done|]. split; [|split; [done|split; [by cbn; rewrite Hb|]]].
  - apply kids_insert; [done|done|]. intros b c. rewrite Epn.
    assert (pairs n' = kpairs (S cc) (flipSign <$> <[cc := flipSign k]> ks) (<[cc := p]> cs)) as ->.
    { unfold pairs; cbn. eapply pairs_keyed; [done|by apply keyed_flip]. }
    rewrite <- !kpairs_flip, Ep, elem_of_app, list_elem_of_singleton. split.
    + intros [Hin|[= ->%flipSign_inj ->]]; [right|by left]. split; [intros ->; by apply (Hni c), kpairs_flip|done].
    + intros [[-> ->]|[_ Hin]]; [by right|by left].
  - intros _. rewrite (counted_compact _ _ Hc'), (counted_compact _ _ Hc). lia.
Qed.

Lemma n48_insert_ok n ix cs cc k p : n_body n = N48 ix cs -> counted n cc -> indexed_ok ix cs cc -> (cc < 48)%nat -> byte k -> nonnull p ->
  kids n !! k = None -> exists n', n48_insert n ix cs k p = Ok (Some n') /\ inserted n k p n'.
Proof.
  intros Hb Hc Hk Hlt Hbyte Hp Hno. pose proof Hk as (Hlx & Hlc & Hcc & Hr & Hinj & Hsur & Hnn). unfold byte in Hbyte.
  assert (node_ok n) as Hn by (unfold node_ok; rewrite Hb; by exists cc).
  assert (pairs n = n48_pairs ix cs) as Epn by (unfold pairs; by rewrite Hb).
  pose proof (not_kid _ _ Hn Hno) as Hni. rewrite Epn in Hni.
  assert (ix !! Z.to_nat k = Some emptyMarker) as Hfree.
  { destruct (lookup_lt_is_Some_2 ix (Z.to_nat k) ltac:(lia)) as [j Ej]. destruct (Hr _ _ Ej) as [->|Hj]; [done|].
    destruct (lookup_lt_is_Some_2 cs (Z.to_nat j) ltac:(lia)) as [c Ec]. exfalso. apply (Hni c), elem_of_n48_pairs; [done|].
    exists (Z.to_nat k), j. split; [lia|]. split; [done|]. split; [|done]. unfold emptyMarker. lia. }
  unfold n48_insert. rewrite (counted_compact _ _ Hc). rewrite (proj2 (Z.eqb_neq (Z.of_nat cc) 48)) by lia.
  rewrite store_idx_ok by lia. rewrite store_idx_byte by lia.
  cbn [mbind res_bind]. eexists. split; [done|].
  set (n' := set_body _ _ _). assert (counted n' (S cc)) as Hc' by (apply counted_next; [done|lia]).
  assert (indexed_ok (<[Z.to_nat k := Z.of_nat cc]> ix) (<[cc := p]> cs) (S cc)) as Hi'.
  { unfold indexed_ok. rewrite !length_insert. split; [done|]. split; [done|]. split; [lia|]. split; [|split; [|split]].
    - intros i j E. apply list_lookup_insert_Some in E as [(<- & <- & _)|(_ & E)]; [right; lia|]. destruct (Hr _ _ E); [by left|right; lia].
    - intros i i' j E E' Hj. apply list_lookup_insert_Some in E as [(<- & <- & _)|(Hne & E)];
        apply list_lookup_insert_Some in E' as [(<- & Ej & _)|(Hne' & E')]; [done| | |by eapply Hinj].
      + destruct (Hr _ _ E'); [done|lia].
      + subst j. destruct (Hr _ _ E); [done|lia].
    - intros j Hj. destruct (decide (j = Z.of_nat cc)) as [->|Hne].
      + exists (Z.to_nat k). apply list_lookup_insert_Some. left. split; [done|]. split; [done|lia].
      + destruct (Hsur j) as [i Ei]; [lia|]. exists i. rewrite list_lookup_insert_ne; [done|]. intros <-.
        rewrite Hfree in Ei. injection Ei as <-. unfold emptyMarker in *. lia.
    - intros i c E. apply list_lookup_insert_Some in E as [(<- & <- & _)|(Hne & E)]; [split; [lia|done]|]. rewrite (Hnn _ _ E). lia. }
  assert (node_ok n') as Hn' by (unfold node_ok; cbn; by exists (S cc)).
  split; [done|]. split; [|split; [done|split; [by cbn; rewrite Hb|]]].
  - apply kids_insert; [done|done|]. intros b c. rewrite Epn. change (pairs n') with (n48_pairs (<[Z.to_nat k := Z.of_nat cc]> ix) (<[cc := p]> cs)).
    rewrite !elem_of_n48_pairs by (by rewrite ?length_insert). split.
    + intros (i & j & -> & E & Hj & Ec). apply list_lookup_insert_Some in E as [(<- & <- & _)|(Hne & E)].
      * left. rewrite Nat2Z.id, list_lookup_insert_eq in Ec by lia. injection Ec as <-. split; [lia|done].
      * right. split; [lia|]. exists i, j. rewrite list_lookup_insert_ne in Ec; [done|]. destruct (Hr _ _ E); [done|lia].
    + intros [[-> ->]|(Hbk & i & j & -> & E & Hj & Ec)].
      * exists (Z.to_nat k), (Z.of_nat cc). split; [lia|]. rewrite list_lookup_insert_eq by lia. split; [done|]. split; [unfold emptyMarker; lia|].
        rewrite Nat2Z.id, list_lookup_insert_eq by lia. done.
      * exists i, j. split; [done|]. rewrite list_lookup_insert_ne by lia. split; [done|]. split; [done|].
        rewrite list_lookup_insert_ne; [done|]. destruct (Hr _ _ E); [done|lia].
  - intros _. rewrite (counted_compact _ _ Hc'), (counted_compact _ _ Hc). lia.
Qed.

Lemma n256_insert_ok n cs k p : n_body n = N256 cs -> length cs = 256%nat -> Forall (fun c => nonnull c \/ c = 0) cs -> byte k -> nonnull p ->
  exists n', n256_insert n cs k p = Ok (Some n') /\ inserted n k p n'.
Proof.
  intros Hb Hl Hz Hbyte Hp. unfold byte in Hbyte.
  assert (node_ok n) as Hn by (unfold node_ok; by rewrite Hb).
  unfold n256_insert. rewrite store_idx_byte by lia.
  cbn [mbind res_bind]. eexists. split; [done|]. set (n' := set_body _ _ _).
  assert (node_ok n') as Hn' by (unfold node_ok; cbn; rewrite length_insert; split; [done|apply Forall_insert; [done|by left]]).
  split; [done|]. split; [|split; [done|split; [by cbn; rewrite Hb|by cbn; rewrite Hb]]].
  apply kids_insert; [done|done|]. intros b c.
  assert (pairs n = n256_pairs cs) as -> by (unfold pairs; by rewrite Hb).
  change (pairs n') with (n256_pairs (<[Z.to_nat k := p]> cs)). rewrite !elem_of_n256_pairs by (by rewrite ?length_insert). split.
  - intros (i & -> & E & Hc). apply list_lookup_insert_Some in E as [(<- & -> & _)|(Hne & E)]; [left; split; [lia|done]|].
    right. split; [lia|]. by exists i.
  - intros [[-> ->]|(Hbk & i & -> & E & Hc)].
    + exists (Z.to_nat k). split; [lia|]. by rewrite list_lookup_insert_eq by lia.
    + exists i. split; [done|]. rewrite list_lookup_insert_ne by lia. done.
Qed.

Lemma n_insert_ok n k p : node_ok n -> room n -> byte k -> nonnull p -> kids n !! k = None ->
  exists n', n_insert n k p = Ok (Some n') /\ inserted n k p n'.
Proof.
  intros Hn Hr Hb Hp Hk. pose proof Hn as Hn0. unfold room, node_ok, n_insert in *. destruct (n_body n) as [ks cs|ks cs|ix cs|cs] eqn:E; cbn [cap] in Hr.
  - destruct Hn as (cc & Hc & Hok). rewrite (counted_compact _ _ Hc) in Hr. apply (n4_insert_ok n ks cs cc); try done. lia.
  - destruct Hn as (cc & Hc & Hok). rewrite (counted_compact _ _ Hc) in Hr. apply (n16_insert_ok n ks cs cc); try done. lia.
  - destruct Hn as (cc & Hc & Hok). rewrite (counted_compact _ _ Hc) in Hr. apply (n48_insert_ok n ix cs cc); try done. lia.
  - destruct Hn as [Hl Hz]. by apply n256_insert_ok.
Qed.

(** * Replacing a child *)

Lemma keyed_change cap ks cs cc j k p : keyed_ok cap ks cs cc -> (j < cc)%nat -> ks !! j = Some k -> nonnull p ->
  keyed_ok cap ks (<[j := p]> cs) cc /\
  forall b c, (b, c) ∈ kpairs cc ks (<[j := p]> cs) <-> (b = k /\ c = p) \/ (b <> k /\ (b, c) ∈ kpairs cc ks cs).
Proof.
  intros (Hk & Hc & Hcc & Hnd & Hby & Hn & Hz) Hj Ek Hp. split.
  - unfold keyed_ok. rewrite length_insert. split; [done|]. split; [done|]. split; [done|]. split; [done|]. split; [done|]. split.
    + intros i c E. apply list_lookup_insert_Some in E as [(<- & <- & _)|(_ & E)]; [done|]. by apply Hn.
    + intros i c E. apply list_lookup_insert_Some in E as [(<- & <- & _)|(_ & E)]; [by left|]. by eapply Hz.
  - assert (forall i, (i < cc)%nat -> ks !! i = Some k -> i = j) as Huniq.
    { intros i Hi E. eapply NoDup_lookup; [exact Hnd|by apply lookup_take_Some'|by apply lookup_take_Some']. }
    intros b c. rewrite !elem_of_kpairs. split.
    + intros (i & Hi & E & Ec). apply list_lookup_insert_Some in Ec as [(<- & <- & _)|(Hne & Ec)].
      * left. split; [congruence|done].
      * right. split; [intros ->; by apply Hne; rewrite (Huniq i)|]. by exists i.
    + intros [[-> ->]|(Hne & i & Hi & E & Ec)].
      * exists j. rewrite list_lookup_insert_eq by lia. done.
      * exists i. rewrite list_lookup_insert_ne; [done|]. intros <-. congruence.
Qed.

Definition changed (n : anode) (k p : Z) (n' : anode) : Prop :=
  node_ok n' /\ kids n' = <[k := p]> (kids n) /\ same_head n n' /\ kind (n_body n') = kind (n_body n).

Lemma n4_change_ok n ks cs cc k p : n_body n = N4 ks cs -> counted n cc -> keyed_ok 4 ks cs cc -> nonnull p -> is_Some (kids n !! k) ->
  exists n', n4_change n ks cs k p = Ok n' /\ changed n k p n'.
Proof.
  intros Hb Hc Hk Hp [c0 E0]. assert (node_ok n) as Hn by (unfold node_ok; rewrite Hb; by exists cc).
  assert (pairs n = kpairs cc ks cs) as Epn by (unfold pairs; rewrite Hb; by eapply pairs_keyed).
  apply kids_pairs in E0; [|done]. rewrite Epn in E0. apply elem_of_kpairs in E0 as (i & Hi & Ek & Ec).
  unfold n4_change. rewrite (counted_compact _ _ Hc), Nat2Z.id. pose proof (find_child_spec (take cc ks) (take cc cs) k 0) as Hf.
  pose proof Hk as (_ & Hlc & Hcc & _ & _ & Hnn & _).
  destruct (find_child _ _ _ _) as [pos|].
  - destruct Hf as (j & c & -> & [Hj Ej]%lookup_take_Some' & _). rewrite Z.add_0_l, store_idx_ok by lia. cbn [mbind res_bind].
    destruct (keyed_change _ _ _ _ j k p Hk Hj Ej Hp) as [Hk' Hpairs]. eexists. split; [done|].
    set (n' := MkNode _ _ _ _). assert (counted n' cc) as Hc' by done. assert (node_ok n') as Hn' by (unfold node_ok; cbn; by exists cc).
    split; [done|]. split; [|by split; [|cbn; rewrite Hb]]. apply kids_insert; [done|done|]. intros b c'. rewrite Epn.
    assert (pairs n' = kpairs cc ks (<[j := p]> cs)) as -> by (unfold pairs; cbn; by eapply pairs_keyed). apply Hpairs.
  - exfalso. apply (Hf i c0); [by apply lookup_take_Some'|by apply lookup_take_Some'|]. by apply (Hnn i).
Qed.

Lemma n16_change_ok n ks cs cc k p : n_body n = N16 ks cs -> counted n cc -> keyed_ok 16 ks cs cc -> nonnull p -> is_Some (kids n !! k) ->
  exists n', n16_change n ks cs k p = Ok n' /\ changed n k p n'.
Proof.
  intros Hb Hc Hk Hp [c0 E0]. assert (node_ok n) as Hn by (unfold node_ok; rewrite Hb; by exists cc).
  assert (pairs n = kpairs cc (flipSign <$> ks) cs) as Epn by (unfold pairs; rewrite Hb; eapply pairs_keyed; [done|by apply keyed_flip]).
  apply kids_pairs in E0; [|done]. rewrite Epn in E0. apply kpairs_flip, elem_of_kpairs in E0 as (i & Hi & Ek & Ec).
  pose proof Hk as (_ & Hlc & Hcc & _ & _ & Hnn & _). unfold n16_change, n16_getChildPos. rewrite (counted_compact _ _ Hc).
  rewrite (n16_match ks cs cc k cc _ Hk); [|lia|intros j c Ej Ec'; by rewrite (at_idx_some _ _ _ Ec')]. cbn [mbind res_bind].
  pose proof (find_child_spec ks cs (flipSign k) 0) as Hf. destruct (find_child _ _ _ _) as [pos|].
  - destruct Hf as (j & c & -> & Ej & Ecj & Hcj). assert (j < cc)%nat as Hj by (by apply (Hnn j c)).
    rewrite Z.add_0_l, store_idx_ok by lia. cbn [mbind res_bind].
    destruct (keyed_change _ _ _ _ j (flipSign k) p Hk Hj Ej Hp) as [Hk' Hpairs]. eexists. split; [done|].
    set (n' := MkNode _ _ _ _). assert (counted n' cc) as Hc' by done. assert (node_ok n') as Hn' by (unfold node_ok; cbn; by exists cc).
    split; [done|]. split; [|by split; [|cbn; rewrite Hb]]. apply kids_insert; [done|done|]. intros b c'. rewrite Epn.
    assert (pairs n' = kpairs cc (flipSign <$> ks) (<[j := p]> cs)) as -> by (unfold pairs; cbn; eapply pairs_keyed; [done|by apply keyed_flip]).
    rewrite <- !kpairs_flip, Hpairs. split.
    + intros [[->%flipSign_inj ->]|[Hne Hin]]; [by left|right]. split; [by intros ->|done].
    + intros [[-> ->]|[Hne Hin]]; [by left|right]. split; [by intros ?%flipSign_inj|done].
  - exfalso. apply (Hf i c0); [done|done|]. by apply (Hnn i).
Qed.

Lemma n48_change_ok n ix cs cc k p : n_body n = N48 ix cs -> counted n cc -> indexed_ok ix cs cc -> nonnull p -> is_Some (kids n !! k) ->
  exists n', n48_change n ix cs k p = Ok n' /\ changed n k p n'.
Proof.
  intros Hb Hc Hk Hp [c0 E0]. assert (node_ok n) as Hn by (unfold node_ok; rewrite Hb; by exists cc).
  pose proof Hk as (Hlx & Hlc & Hcc & Hr & Hinj & Hsur & Hnn).
  assert (pairs n = n48_pairs ix cs) as Epn by (unfold pairs; by rewrite Hb).
  apply kids_pairs in E0; [|done]. rewrite Epn in E0. apply elem_of_n48_pairs in E0 as (i & j & -> & Ej & Hj & Ec); [|done].
  destruct (Hr _ _ Ej) as [?|Hjr]; [done|].
  unfold n48_change. rewrite (at_idx_some _ _ _ Ej). cbn [mbind res_bind]. rewrite (proj2 (Z.eqb_neq j emptyMarker) Hj). cbn [negb assert_ mbind res_bind].
  rewrite store_idx_byte by lia. cbn [mbind res_bind]. eexists. split; [done|]. set (n' := MkNode _ _ _ _).
  assert (indexed_ok ix (<[Z.to_nat j := p]> cs) cc) as Hk'.
  { unfold indexed_ok. rewrite length_insert. do 6 (split; [done|]). intros i' c E.
    apply list_lookup_insert_Some in E as [(<- & <- & _)|(_ & E)]; [split; [lia|done]|by apply Hnn]. }
  assert (node_ok n') as Hn' by (unfold node_ok; cbn; by exists cc).
  split; [done|]. split; [|by split; [|cbn; rewrite Hb]]. apply kids_insert; [done|done|]. intros b c. rewrite Epn.
  change (pairs n') with (n48_pairs ix (<[Z.to_nat j := p]> cs)). rewrite !elem_of_n48_pairs by done. split.
  - intros (i' & j' & -> & Ej' & Hj' & Ec'). apply list_lookup_insert_Some in Ec' as [(Hjj & <- & _)|(Hne & Ec')].
    + left. destruct (Hr _ _ Ej') as [?|?]; [done|]. assert (j' = j) as -> by lia. by rewrite (Hinj _ _ _ Ej Ej' Hj).
    + right. split; [intros Eq; apply Hne; assert (i' = i) as -> by lia; congruence|]. by exists i', j'.
  - intros [[-> ->]|(Hne & i' & j' & -> & Ej' & Hj' & Ec')].
    + exists i, j. by rewrite list_lookup_insert_eq by lia.
    + exists i', j'. rewrite list_lookup_insert_ne; [done|]. intros Eq. apply Hne. destruct (Hr _ _ Ej') as [?|?]; [done|].
      assert (j' = j) as -> by lia. by rewrite (Hinj _ _ _ Ej Ej' Hj).
Qed.

Lemma change_ok n k p : node_ok n -> nonnull p -> is_Some (kids n !! k) -> exists n', change n k p = Ok n' /\ changed n k p n'.
Proof.
  intros Hn Hp Hs. pose proof Hn as Hn0. unfold node_ok, change in *. destruct (n_body n) as [ks cs|ks cs|ix cs|cs] eqn:E.
  - destruct Hn as (cc & Hc & Hok). by apply (n4_change_ok n ks cs cc).
  - destruct Hn as (cc & Hc & Hok). by apply (n16_change_ok n ks cs cc).
  - destruct Hn as (cc & Hc & Hok). by apply (n48_change_ok n ix cs cc).
  - destruct Hn as [Hl Hz]. assert (node_ok n) as Hok by (unfold node_ok; by rewrite E).
    destruct Hs as [c Hs]. destruct (kids_elem _ _ _ Hok Hs) as [Hb _].
    destruct (n256_insert_ok n cs k p E Hl Hz Hb Hp) as (n1 & E1 & Hn1 & Hk1 & _). unfold n256_insert in E1. unfold n256_change.
    destruct (store_idx cs k p) as [cs'|]; [|done]. cbn [mbind res_bind] in *. injection E1 as <-. eexists. split; [done|].
    split; [exact Hn1|]. split; [exact Hk1|]. by split; [|cbn; rewrite E].
Qed.

(** * New nodes and copies *)

Lemma keyed_new m : keyed_ok m (replicate m 0) (replicate m 0) 0.
Proof.
  unfold keyed_ok. rewrite length_replicate. split; [done|]. split; [done|]. split; [lia|]. split; [constructor|].
  split; [apply Forall_replicate; unfold byte; lia|]. split; intros i c [-> _]%lookup_replicate; [split; [done|lia]|by right].
Qed.

Lemma empty_node_ok lv p : node_ok (new_N4 lv p) /\ node_ok (new_N16 lv p) /\ node_ok (new_N48 lv p) /\ node_ok (new_N256 lv p).
Proof.
  split; [|split; [|split]].
  - exists 0%nat. split; [split; [done|lia]|apply (keyed_new 4)].
  - exists 0%nat. split; [split; [done|lia]|apply (keyed_new 16)].
  - exists 0%nat. split; [split; [done|lia]|]. unfold indexed_ok. rewrite !length_replicate. split; [done|]. split; [done|]. split; [lia|].
    split; [|split; [|split]].
    + intros i j [-> _]%lookup_replicate. by left.
    + intros i i' j [-> _]%lookup_replicate. done.
    + intros j Hj. lia.
    + intros i c [-> _]%lookup_replicate. split; [done|lia].
  - split; [by rewrite length_replicate|]. apply Forall_replicate. by right.
Qed.

Lemma empty_node_kids lv p : kids (new_N4 lv p) = ∅ /\ kids (new_N16 lv p) = ∅ /\ kids (new_N48 lv p) = ∅ /\ kids (new_N256 lv p) = ∅.
Proof. split; [|split; [|split]]; by vm_compute. Qed.

Lemma insert__ok n k p : node_ok n -> room n -> byte k -> nonnull p -> kids n !! k = None ->
  exists n', insert_ n k p = Ok n' /\ inserted n k p n'.
Proof. intros Hn Hr Hb Hp Hk. destruct (n_insert_ok n k p) as (n' & E & Hi); [done..|]. exists n'. unfold insert_. by rewrite E. Qed.

Lemma room_all n l : (kind (n_body n) <> 3%nat -> compactCount n + Z.of_nat (S l) <= cap (n_body n)) -> room n.
Proof.
  intros Hr. unfold room. destruct (n_body n); cbn in *; try (specialize (Hr ltac:(lia)); lia).
  unfold compactCount, to_u. pose proof (Z.mod_pos_bound (Z.shiftr (countValues n) 16) (2 ^ 16) ltac:(lia)). lia.
Qed.

Lemma kind_cap b b' : kind b = kind b' -> cap b = cap b'.
Proof. by destruct b, b'. Qed.

Lemma insert_all_ok l : forall n, node_ok n -> NoDup l.*1 -> (forall k c, (k, c) ∈ l -> byte k /\ nonnull c /\ kids n !! k = None) ->
  (kind (n_body n) <> 3%nat -> compactCount n + Z.of_nat (length l) <= cap (n_body n)) ->
  exists n', insert_all l n = Ok n' /\ node_ok n' /\ kids n' = list_to_map l ∪ kids n /\ same_head n n' /\ kind (n_body n') = kind (n_body n) /\
    (kind (n_body n) <> 3%nat -> compactCount n' = compactCount n + Z.of_nat (length l)).
Proof.
  induction l as [|[k c] l IH]; intros n Hn Hnd Hl Hr.
  { exists n. split; [done|]. split; [done|]. split; [by rewrite left_id_L by apply _|]. split; [done|]. split; [done|]. cbn. lia. }
  cbn in Hnd. apply NoDup_cons in Hnd as [Hni Hnd]. destruct (Hl k c) as (Hb & Hc & Hk); [by left|].
  destruct (insert__ok n k c) as (n1 & E1 & Hn1 & Hk1 & Hh1 & Hkd & Hcc); [done|by eapply room_all|done..|].
  destruct (IH n1 Hn1 Hnd) as (n' & E & Hn' & Hk' & Hh' & Hkd' & Hcc').
  - intros k' c' Hin. destruct (Hl k' c') as (? & ? & ?); [by right|]. split; [done|]. split; [done|]. rewrite Hk1, lookup_insert_ne; [done|].
    intros <-. apply Hni, list_elem_of_fmap. by exists (k, c').
  - rewrite Hkd. intros Hne. specialize (Hr Hne). rewrite (Hcc Hne), (kind_cap _ _ Hkd). cbn in Hr. lia.
  - exists n'. cbn [insert_all]. rewrite E1. cbn [mbind res_bind]. split; [done|]. split; [done|]. split.
    { rewrite Hk', Hk1. cbn. rewrite <- insert_union_r by (by apply not_elem_of_list_to_map_1). by rewrite insert_union_l. }
    split; [by eapply same_head_trans|]. split; [congruence|]. intros Hne. rewrite Hcc', Hcc by congruence. cbn. lia.
Qed.

(** The next larger layout. *)
Definition bigger (n : anode) : anode :=
  match n_body n with
  | N4 _ _ => new_N16 (n_level n) (n_prefix n)
  | N16 _ _ => new_N48 (n_level n) (n_prefix n)
  | _ => new_N256 (n_level n) (n_prefix n)
  end.

Lemma pairs_length n : node_ok n -> match n_body n with N4 _ _ => length (pairs n) <= 4 | N16 _ _ => length (pairs n) <= 16 | _ => True end%nat.
Proof.
  unfold node_ok, pairs. destruct (n_body n) as [ks cs|ks cs|ix cs|cs]; [| |done|done].
  - intros (cc & Hc & Hk). unfold n4_pairs. rewrite (pairs_keyed _ _ _ _ _ Hc Hk). unfold kpairs. rewrite length_zip_with, !length_take.
    destruct Hk as (? & ? & ? & _). lia.
  - intros (cc & Hc & Hk). unfold n16_pairs. rewrite (pairs_keyed _ _ _ _ _ Hc (keyed_flip _ _ _ _ Hk)). unfold kpairs. rewrite length_zip_with, !length_take.
    destruct Hk as (? & ? & ? & _). lia.
Qed.

(** Copying a node to the next larger layout keeps its children and leaves
    room for another. *)
Lemma copyTo_bigger n : node_ok n -> exists n', copyTo n (bigger n) = Ok n' /\ node_ok n' /\ kids n' = kids n /\ same_head n n' /\ room n'.
Proof.
  intros Hn. pose proof (pairs_length n Hn) as Hlen. unfold copyTo.
  assert (node_ok (bigger n) /\ kids (bigger n) = ∅ /\ same_head n (bigger n) /\ compactCount (bigger n) = 0 /\
    (kind (n_body (bigger n)) <> 3%nat -> Z.of_nat (length (pairs n)) < cap (n_body (bigger n)))) as (Hb & Hk & Hh & Hcc & Hr).
  { unfold bigger. destruct (empty_node_ok (n_level n) (n_prefix n)) as (_ & ? & ? & ?), (empty_node_kids (n_level n) (n_prefix n)) as (_ & ? & ? & ?).
    destruct (n_body n); (split; [assumption|]); (split; [assumption|]); (split; [split; reflexivity|]); (split; [reflexivity|]);
      cbn [kind cap n_body new_N16 new_N48 new_N256]; intros; lia. }
  destruct (insert_all_ok (pairs n) (bigger n) Hb (pairs_NoDup _ Hn)) as (n' & E & Hn' & Hk' & Hh' & Hkd & Hcc').
  - intros k c Hin. rewrite Hk. by destruct (elem_of_pairs _ _ _ Hn Hin).
  - intros Hne. specialize (Hr Hne). lia.
  - exists n'. split; [done|]. split; [done|]. split; [by rewrite Hk', Hk, right_id_L by apply _|]. split; [by eapply same_head_trans|].
    apply (room_all n' 0). rewrite Hkd. intros Hne. rewrite (Hcc' Hne), (kind_cap _ _ Hkd). specialize (Hr Hne). lia.
Qed.

(** * Some child, the smallest, the largest *)

Lemma any_child_spec cs acc : any_child cs acc = acc /\ (forall c, c ∈ cs -> ~ nonnull c) \/ (exists c, c ∈ cs /\ nonnull c /\ any_child cs acc = c).
Proof.
  revert acc. induction cs as [|c cs IH]; intros acc; cbn; [left; split; [done|by intros ? ?%elem_of_nil]|].
  destruct (Z.eqb_spec (getVaddr c) 0) as [Ez|Ez].
  - assert (~ nonnull c) as Hc by (unfold nonnull, null; apply Z.eqb_eq in Ez; by rewrite Ez).
    destruct (IH acc) as [[-> Hn]|(c' & Hin & Hn & ->)]; [left|right; exists c'; split; [by right|done]].
    split; [done|]. by intros c' [->|?]%elem_of_cons; [|apply Hn].
  - assert (nonnull c) as Hc by (unfold nonnull, null; by apply Z.eqb_neq). rewrite (nonnull_vaddr _ Hc). right.
    destruct (isLeaf c); [exists c; split; [by left|done]|].
    destruct (IH c) as [[-> _]|(c' & Hin & Hn & ->)]; [exists c; split; [by left|done]|exists c'; split; [by right|done]].
Qed.

Lemma pairs_children n : node_ok n ->
  forall c, nonnull c -> c ∈ match n_body n with N4 _ cs | N16 _ cs | N48 _ cs | N256 cs => cs end <-> exists b, kids n !! b = Some c.
Proof.
  intros Hn c Hc. setoid_rewrite kids_pairs; [|done]. pose proof Hn as Hok. unfold node_ok, pairs in *.
  destruct (n_body n) as [ks cs|ks cs|ix cs|cs].
  - destruct Hok as (cc & Hcc & Hk). unfold n4_pairs. rewrite (pairs_keyed _ _ _ _ _ Hcc Hk). setoid_rewrite elem_of_kpairs.
    destruct Hk as (Hlk & Hlc & ? & _ & _ & Hnn & _). rewrite list_elem_of_lookup. split.
    + intros [i E]. destruct (lookup_lt_is_Some_2 ks i) as [b Eb]; [apply lookup_lt_Some in E; lia|]. exists b, i. split; [by apply (Hnn i c)|done].
    + intros (b & i & _ & _ & E). by exists i.
  - destruct Hok as (cc & Hcc & Hk%keyed_flip). unfold n16_pairs. rewrite (pairs_keyed _ _ _ _ _ Hcc Hk). setoid_rewrite elem_of_kpairs.
    destruct Hk as (Hlk & Hlc & ? & _ & _ & Hnn & _). rewrite list_elem_of_lookup. split.
    + intros [i E]. destruct (lookup_lt_is_Some_2 (flipSign <$> ks) i) as [b Eb]; [apply lookup_lt_Some in E; lia|]. exists b, i. split; [by apply (Hnn i c)|done].
    + intros (b & i & _ & _ & E). by exists i.
  - destruct Hok as (cc & Hcc & Hlx & Hlc & ? & Hr & _ & Hsur & Hnn). setoid_rewrite elem_of_n48_pairs; [|done]. rewrite list_elem_of_lookup. split.
    + intros [i E]. assert (i < cc)%nat by (by apply (Hnn i c)). destruct (Hsur (Z.of_nat i)) as [b Eb]; [lia|].
      exists (Z.of_nat b), b, (Z.of_nat i). rewrite Nat2Z.id. split; [done|]. split; [done|]. split; [unfold emptyMarker; lia|done].
    + intros (b & i & j & _ & _ & _ & E). by exists (Z.to_nat j).
  - destruct Hok as [Hl _]. setoid_rewrite elem_of_n256_pairs; [|done]. rewrite list_elem_of_lookup. split.
    + intros [i E]. by exists (Z.of_nat i), i.
    + intros (b & i & _ & E & _). by exists i.
Qed.

Lemma getAnyChild_kids n : node_ok n -> kids n <> ∅ -> exists b, kids n !! b = Some (getAnyChild n).
Proof.
  intros Hn Hne. apply map_choose in Hne as (b0 & c0 & E0). destruct (kids_elem _ _ _ Hn E0) as [_ Hc0].
  pose proof (pairs_children n Hn) as Hp.
  assert (exists c, getAnyChild n = c /\ nonnull c /\ c ∈ match n_body n with N4 _ cs | N16 _ cs | N48 _ cs | N256 cs => cs end) as (c & -> & Hc & Hin).
  { pose proof (proj2 (Hp c0 Hc0) (ex_intro _ b0 E0)) as Hin0. unfold getAnyChild.
    destruct (n_body n) as [? cs|? cs|? cs|cs]; (destruct (any_child_spec cs 0) as [[_ Hno]|(c & Hin & Hc & ->)]; [by destruct (Hno c0)|by exists c]). }
  by apply Hp.
Qed.

(** The smallest and the largest child of a range of bytes. *)
Definition least_from (m : gmap Z Z) (start c : Z) : Prop :=
  c = 0 /\ (forall b, start <= b -> m !! b = None) \/
  exists b, m !! b = Some c /\ start <= b /\ forall b', start <= b' < b -> m !! b' = None.
Definition greatest_to (m : gmap Z Z) (end_ c : Z) : Prop :=
  c = 0 /\ (forall b, b <= end_ -> m !! b = None) \/
  exists b, m !! b = Some c /\ b <= end_ /\ forall b', b < b' <= end_ -> m !! b' = None.

Lemma smallest_loop_spec kcs start mk ch :
  smallest_loop kcs start mk ch = ch /\ (forall k c, (k, c) ∈ kcs -> nonnull c -> ~ (start <= k <= mk)) \/
  exists k c, (k, c) ∈ kcs /\ nonnull c /\ start <= k <= mk /\ smallest_loop kcs start mk ch = c /\
    forall k' c', (k', c') ∈ kcs -> nonnull c' -> start <= k' -> k <= k'.
Proof.
  revert mk ch. induction kcs as [|[k0 c0] kcs IH]; intros mk ch; cbn; [left; split; [done|by intros ? ? ?%elem_of_nil]|].
  destruct ((start <=? k0) && (k0 <=? mk) && negb (null c0)) eqn:E.
  - apply andb_true_iff in E as [[Es%Z.leb_le Em%Z.leb_le]%andb_true_iff En%negb_true_iff]. rewrite (nonnull_vaddr c0 En). right.
    destruct (IH k0 c0) as [[-> Hno]|(k & c & Hin & Hc & Hk & -> & Hmin)].
    + exists k0, c0. split; [by left|]. split; [done|]. split; [done|]. split; [done|].
      intros k' c' [[= -> ->]|Hin]%elem_of_cons Hc' Hk'; [lia|]. specialize (Hno _ _ Hin Hc'). lia.
    + exists k, c. split; [by right|]. split; [done|]. split; [lia|]. split; [done|].
      intros k' c' [[= -> ->]|Hin']%elem_of_cons Hc' Hk'; [lia|]. by eapply Hmin.
  - assert (nonnull c0 -> ~ (start <= k0 <= mk)) as Hno0.
    { unfold nonnull. intros Hc0 [Hs Hm]. rewrite Hc0 in E. apply Z.leb_le in Hs, Hm. by rewrite Hs, Hm in E. }
    destruct (IH mk ch) as [[-> Hno]|(k & c & Hin & Hc & Hk & -> & Hmin)].
    + left. split; [done|]. intros k' c' [[= -> ->]|Hin]%elem_of_cons Hc'; [by apply Hno0|by eapply Hno].
    + right. exists k, c. split; [by right|]. split; [done|]. split; [done|]. split; [done|].
      intros k' c' [[= -> ->]|Hin']%elem_of_cons Hc' Hk'; [|by eapply Hmin]. specialize (Hno0 Hc'). lia.
Qed.

Lemma largest_loop_spec kcs end_ mk ch :
  largest_loop kcs end_ mk ch = ch /\ (forall k c, (k, c) ∈ kcs -> nonnull c -> ~ (mk <= k <= end_)) \/
  exists k c, (k, c) ∈ kcs /\ nonnull c /\ mk <= k <= end_ /\ largest_loop kcs end_ mk ch = c /\
    forall k' c', (k', c') ∈ kcs -> nonnull c' -> k' <= end_ -> k' <= k.
Proof.
  revert mk ch. induction kcs as [|[k0 c0] kcs IH]; intros mk ch; cbn; [left; split; [done|by intros ? ? ?%elem_of_nil]|].
  destruct ((k0 <=? end_) && (mk <=? k0) && negb (null c0)) eqn:E.
  - apply andb_true_iff in E as [[Es%Z.leb_le Em%Z.leb_le]%andb_true_iff En%negb_true_iff]. rewrite (nonnull_vaddr c0 En). right.
    destruct (IH k0 c0) as [[-> Hno]|(k & c & Hin & Hc & Hk & -> & Hmin)].
    + exists k0, c0. split; [by left|]. split; [done|]. split; [done|]. split; [done|].
      intros k' c' [[= -> ->]|Hin]%elem_of_cons Hc' Hk'; [lia|]. specialize (Hno _ _ Hin Hc'). lia.
    + exists k, c. split; [by right|]. split; [done|]. split; [lia|]. split; [done|].
      intros k' c' [[= -> ->]|Hin']%elem_of_cons Hc' Hk'; [lia|]. by eapply Hmin.
  - assert (nonnull c0 -> ~ (mk <= k0 <= end_)) as Hno0.
    { unfold nonnull. intros Hc0 [Hs Hm]. rewrite Hc0 in E. apply Z.leb_le in Hs, Hm. by rewrite Hs, Hm in E. }
    destruct (IH mk ch) as [[-> Hno]|(k & c & Hin & Hc & Hk & -> & Hmin)].
    + left. split; [done|]. intros k' c' [[= -> ->]|Hin]%elem_of_cons Hc'; [by apply Hno0|by eapply Hno].
    + right. exists k, c. split; [by right|]. split; [done|]. split; [done|]. split; [done|].
      intros k' c' [[= -> ->]|Hin']%elem_of_cons Hc' Hk'; [|by eapply Hmin]. specialize (Hno0 Hc'). lia.
Qed.

(** The pairs the scans of the small nodes see. *)
Lemma small_pairs n kcs : node_ok n ->
  (exists ks cs, n_body n = N4 ks cs /\ kcs = zip ks cs) \/
  (exists ks cs, n_body n = N16 ks cs /\ kcs = take (Z.to_nat (compactCount n)) (zip (flipSign <$> ks) cs)) ->
  forall k c, nonnull c -> (k, c) ∈ kcs <-> kids n !! k = Some c.
Proof.
  intros Hn Hkcs k c Hc. rewrite kids_pairs by done. pose proof Hn as Hok. unfold node_ok, pairs in *.
  destruct Hkcs as [(ks & cs & Eb & ->)|(ks & cs & Eb & ->)]; rewrite Eb in *.
  - destruct Hok as (cc & Hcc & Hk). unfold n4_pairs. rewrite (pairs_keyed _ _ _ _ _ Hcc Hk), elem_of_kpairs, elem_of_zip_with_index.
    destruct Hk as (_ & _ & _ & _ & _ & Hnn & _). split; [|naive_solver]. intros (i & Ek & Ec). exists i. split; [by apply (Hnn i c)|done].
  - destruct Hok as (cc & Hcc & Hk). unfold n16_pairs. rewrite list_elem_of_filter. cbn. unfold nonnull in Hc. tauto.
Qed.

Lemma smallest_least n kcs start : node_ok n -> (forall k c, nonnull c -> (k, c) ∈ kcs <-> kids n !! k = Some c) ->
  least_from (kids n) start (smallest_loop kcs start 255 0).
Proof.
  intros Hn Hp. destruct (smallest_loop_spec kcs start 255 0) as [[-> Hno]|(k & c & Hin & Hc & Hk & -> & Hmin)].
  - left. split; [done|]. intros b Hb. destruct (kids n !! b) as [c|] eqn:E; [|done]. exfalso.
    destruct (kids_elem _ _ _ Hn E) as [Hbyte Hc]. unfold byte in Hbyte. apply Hp in E; [|done]. apply (Hno _ _ E Hc). lia.
  - right. exists k. split; [by apply Hp|]. split; [lia|]. intros b Hb. destruct (kids n !! b) as [c'|] eqn:E; [|done]. exfalso.
    destruct (kids_elem _ _ _ Hn E) as [_ Hc']. apply Hp in E; [|done]. specialize (Hmin _ _ E Hc'). lia.
Qed.

Lemma largest_greatest n kcs end_ : node_ok n -> (forall k c, nonnull c -> (k, c) ∈ kcs <-> kids n !! k = Some c) ->
  greatest_to (kids n) end_ (largest_loop kcs end_ 0 0).
Proof.
  intros Hn Hp. destruct (largest_loop_spec kcs end_ 0 0) as [[-> Hno]|(k & c & Hin & Hc & Hk & -> & Hmin)].
  - left. split; [done|]. intros b Hb. destruct (kids n !! b) as [c|] eqn:E; [|done]. exfalso.
    destruct (kids_elem _ _ _ Hn E) as [Hbyte Hc]. unfold byte in Hbyte. apply Hp in E; [|done]. apply (Hno _ _ E Hc). lia.
  - right. exists k. split; [by apply Hp|]. split; [lia|]. intros b Hb. destruct (kids n !! b) as [c'|] eqn:E; [|done]. exfalso.
    destruct (kids_elem _ _ _ Hn E) as [_ Hc']. apply Hp in E; [|done]. specialize (Hmin _ _ E Hc'). lia.
Qed.

Lemma first_child_spec n bs : node_ok n -> Forall byte bs ->
  exists c, first_child n bs = Ok c /\
    (c = 0 /\ (forall b, b ∈ bs -> kids n !! b = None) \/
     exists l1 b l2, bs = l1 ++ b :: l2 /\ kids n !! b = Some c /\ forall b', b' ∈ l1 -> kids n !! b' = None).
Proof.
  intros Hn. induction 1 as [|b bs Hb _ IH]; cbn [first_child]; [exists 0; split; [done|left; split; [done|by intros ? ?%elem_of_nil]]|].
  rewrite getChild_kids by done. cbn [mbind res_bind]. destruct (kids n !! b) as [c|] eqn:E; cbn [default from_option id].
  - destruct (kids_elem _ _ _ Hn E) as [_ Hc]. rewrite (proj2 (Z.eqb_neq c 0)) by (by apply nonnull_nonzero). exists c. split; [done|].
    right. exists [], b, bs. split; [done|]. split; [done|]. by intros ? ?%elem_of_nil.
  - cbn. destruct IH as (c & -> & Hc). exists c. split; [done|]. destruct Hc as [[-> Hno]|(l1 & b1 & l2 & -> & E1 & Hl1)].
    + left. split; [done|]. by intros b' [->|?]%elem_of_cons; [|apply Hno].
    + right. exists (b :: l1), b1, l2. split; [done|]. split; [done|]. by intros b' [->|?]%elem_of_cons; [|apply Hl1].
Qed.

Lemma elem_of_bytes a len b : b ∈ Z.of_nat <$> seq a len <-> Z.of_nat a <= b < Z.of_nat (a + len).
Proof.
  rewrite list_elem_of_fmap. split.
  - intros (i & -> & Hi%elem_of_seq). lia.
  - intros Hb. exists (Z.to_nat b). rewrite elem_of_seq. split; lia.
Qed.

(** In a strictly sorted sequence, what comes before is to the left. *)
Lemma sorted_before (R : Z -> Z -> Prop) l1 b l2 b' : StronglySorted R (l1 ++ b :: l2) -> b' ∈ l1 ++ b :: l2 -> b' <> b -> ~ R b b' -> b' ∈ l1.
Proof.
  intros Hs Hin Hne Hr. apply elem_of_app in Hin as [?|[?|Hin]%elem_of_cons]; [done|done|]. exfalso. apply Hr.
  clear -Hs Hin. induction l1 as [|x l1 IH]; cbn in Hs; inversion Hs as [|? ? Hs' Hf]; subst; [|by apply IH].
  rewrite Forall_forall in Hf. by apply Hf.
Qed.

Lemma bytes_increase a len : StronglySorted Z.lt (Z.of_nat <$> seq a len).
Proof.
  revert a. induction len as [|len IH]; intros a; [constructor|]. cbn. constructor; [apply IH|].
  apply Forall_forall. intros b Hb%elem_of_bytes. lia.
Qed.

Lemma bytes_decrease n : StronglySorted Z.gt (reverse (Z.of_nat <$> seq 0 n)).
Proof.
  induction n as [|n IH]; [constructor|]. rewrite seq_S, fmap_app, reverse_app. cbn. constructor; [exact IH|].
  apply Forall_forall. intros b Hb. rewrite elem_of_reverse in Hb. apply elem_of_bytes in Hb. lia.
Qed.

Lemma getSmallestChild_kids n start : node_ok n -> byte start -> exists c, getSmallestChild n start = Ok c /\ least_from (kids n) start c.
Proof.
  intros Hn Hs. unfold byte in Hs.
  assert (exists c, first_child n (Z.of_nat <$> seq (Z.to_nat start) (256 - Z.to_nat start)) = Ok c /\ least_from (kids n) start c) as Hbig.
  { destruct (first_child_spec n (Z.of_nat <$> seq (Z.to_nat start) (256 - Z.to_nat start)) Hn) as (c & E & Hc).
    { apply Forall_forall. intros b Hb%elem_of_bytes. unfold byte. lia. }
    exists c. split; [done|]. destruct Hc as [[-> Hno]|(l1 & b & l2 & El & Eb & Hl1)].
    - left. split; [done|]. intros b Hb. destruct (kids n !! b) as [c|] eqn:Ek; [|done]. rewrite Hno in Ek; [done|].
      apply elem_of_bytes. destruct (kids_elem _ _ _ Hn Ek) as [Hby _]. unfold byte in Hby. lia.
    - right. exists b. split; [done|]. assert (b ∈ Z.of_nat <$> seq (Z.to_nat start) (256 - Z.to_nat start)) as Hb
        by (rewrite El; apply elem_of_app; right; by left). apply elem_of_bytes in Hb. split; [lia|]. intros b' Hb'. apply Hl1.
      apply (sorted_before Z.lt l1 b l2); [rewrite <- El; apply bytes_increase| |lia|lia]. rewrite <- El. apply elem_of_bytes. lia. }
  unfold getSmallestChild. destruct (n_body n) as [ks cs|ks cs|ix cs|cs] eqn:Eb; [| |done|done].
  - eexists. split; [done|]. apply smallest_least; [done|]. apply small_pairs; [done|]. left. by exists ks, cs.
  - eexists. split; [done|]. apply smallest_least; [done|]. apply small_pairs; [done|]. right. by exists ks, cs.
Qed.

Lemma getLargestChild_kids n end_ : node_ok n -> byte end_ -> exists c, getLargestChild n end_ = Ok c /\ greatest_to (kids n) end_ c.
Proof.
  intros Hn Hs. unfold byte in Hs.
  assert (exists c, first_child n (reverse (Z.of_nat <$> seq 0 (S (Z.to_nat end_)))) = Ok c /\ greatest_to (kids n) end_ c) as Hbig.
  { destruct (first_child_spec n (reverse (Z.of_nat <$> seq 0 (S (Z.to_nat end_)))) Hn) as (c & E & Hc).
    { apply Forall_forall. intros b Hb. rewrite elem_of_reverse in Hb. apply elem_of_bytes in Hb. unfold byte. lia. }
    exists c. split; [done|]. destruct Hc as [[-> Hno]|(l1 & b & l2 & El & Eb & Hl1)].
    - left. split; [done|]. intros b Hb. destruct (kids n !! b) as [c|] eqn:Ek; [|done]. rewrite Hno in Ek; [done|].
      rewrite elem_of_reverse. apply elem_of_bytes. destruct (kids_elem _ _ _ Hn Ek) as [Hby _]. unfold byte in Hby. lia.
    - right. exists b. split; [done|]. assert (b ∈ reverse (Z.of_nat <$> seq 0 (S (Z.to_nat end_)))) as Hb
        by (rewrite El; apply elem_of_app; right; by left). rewrite elem_of_reverse in Hb. apply elem_of_bytes in Hb. split; [lia|].
      intros b' Hb'. apply Hl1. apply (sorted_before Z.gt l1 b l2); [rewrite <- El; apply bytes_decrease| |lia|lia].
      rewrite <- El, elem_of_reverse. apply elem_of_bytes. lia. }
  unfold getLargestChild. destruct (n_body n) as [ks cs|ks cs|ix cs|cs] eqn:Eb; [| |done|done].
  - eexists. split; [done|]. apply largest_greatest; [done|]. apply small_pairs; [done|]. left. by exists ks, cs.
  - eexists. split; [done|]. apply largest_greatest; [done|]. apply small_pairs; [done|]. right. by exists ks, cs.
Qed.
