(* ===== verification/Art.v ===== *)
(** The radix tree of PACTree's search layer
    ([src/PRISM/lib/pactree/lib/PDL-ART/Tree.h], [Tree.cpp], [Key.h], and from
    [N.cpp] the operations that touch a node and its parent).

    The tree maps 8-byte keys to pointers.  A node covers the keys that begin
    with a certain string of bytes: the bytes on the way to it and its own
    compressed prefix, of which it stores at most four; the others are read
    from the key of any leaf below it ([loadKey]).  The children of a node are
    found by the byte behind the prefix.

    Nodes live in a heap; a pointer is its word.  A node that is replaced by a
    larger one stays in the heap, as its release is left to the epochs of
    [Epoche.cpp].  The tree's own log of allocations ([oplogs]) is kept; locks
    and restarts are not, as a tree has one writer. *)

From S2P Require Import Prelude NodeBits VersionedLock ListNode ArtNode.

Local Open Scope Z_scope.

(** * Keys *)

(** [setInt]: the bytes of the key, most significant first. *)
Definition key_bytes (k : Z) : list Z := (fun i => Z.land (Z.shiftr k (8 * (7 - Z.of_nat i))) 255) <$> seq 0 8.

(** [Key::operator[]] *)
Definition key_byte (k i : Z) : res Z := if 0 <=? i then of_option AssertFailure (key_bytes k !! Z.to_nat i) else Err AssertFailure.

Definition getKeyLen (k : Z) : Z := 8.

(** [Key::operator==] *)
Definition key_eq (k k' : Z) : bool := bool_decide (key_bytes k = key_bytes k').

(** * The tree *)

Inductive art_op := ArtInsert | ArtDone.
Record art_log := MkLog { al_op : art_op; al_oldNodePtr : Z; al_newNodeOid : Z }.

Record art := MkArt { heap : gmap Z anode; root : Z; oplogs : gmap Z art_log; oplogsCount : Z }.

Definition set_heap (h : gmap Z anode) (t : art) : art := MkArt h (root t) (oplogs t) (oplogsCount t).
Definition put_n (a : Z) (n : anode) (t : art) : art := set_heap (<[a := n]> (heap t)) t.
Definition set_log (i : Z) (e : art_log) (t : art) : art := MkArt (heap t) (root t) (<[i := e]> (oplogs t)) (oplogsCount t).
Definition set_logCount (c : Z) (t : art) : art := MkArt (heap t) (root t) (oplogs t) c.

(** [oplogs[i].op = OpStruct::done] *)
Definition log_done (i : Z) (t : art) : art :=
  match oplogs t !! i with
  | Some e => set_log i (MkLog ArtDone (al_oldNodePtr e) (al_newNodeOid e)) t
  | None => set_log i (MkLog ArtDone 0 0) t
  end.

Definition get_n (t : art) (a : Z) : res anode := if a =? 0 then Err NullDeref else of_option BadAddress (heap t !! a).

(** [PMem::alloc] of a node; [0]: it failed. *)
Class ArtMem := { am_alloc : gmap Z anode -> Z }.

Section art.
Context `{ArtMem}.
(** [loadKey]: the key a pointer was inserted with, read from its node. *)
Variable loadKey : Z -> Z.

(** [PMem::alloc] into the log entry, then the constructor of the node. *)
Definition alloc_node (t : art) (logIdx oldNode : Z) (n : anode) : res (Z * art) :=
  let p := am_alloc (heap t) in
  if getVaddr p =? 0 then Err NullDeref
  else Ok (p, put_n p n (set_log logIdx (MkLog ArtInsert oldNode p) t)).

(** * Changing a node and its parent *)

Definition change_child (t : art) (parent key p : Z) : res art :=
  n ← get_n t parent; n' ← change n key p; Ok (put_n parent n' t).

(** [insertGrow]; [nBig] is an empty node of the larger layout. *)
Definition insertGrow (t : art) (a : Z) (n nBig0 : anode) (parent keyParent key val : Z) : res art :=
  r ← n_insert n key val;
  match r with
  | Some n' => Ok (put_n a n' t)
  | None =>
      _ ← get_n t parent;
      let log := oplogsCount t in
      '(p, t1) ← alloc_node t log parent nBig0;
      nBig1 ← copyTo n nBig0;
      nBig2 ← insert_ nBig1 key val;
      t2 ← change_child (put_n p nBig2 t1) parent keyParent p;
      Ok (log_done log t2)
  end.

(** [insertCompact]; [nNew0] is an empty node of the same layout. *)
Definition insertCompact (t : art) (n nNew0 : anode) (parent keyParent key val : Z) : res art :=
  _ ← get_n t parent;
  let log := oplogsCount t in
  '(p, t1) ← alloc_node t log parent nNew0;
  nNew1 ← copyTo n nNew0;
  nNew2 ← insert_ nNew1 key val;
  t2 ← change_child (put_n p nNew2 t1) parent keyParent p;
  Ok (log_done log t2).

(** The counts are taken apart as in the code: for the two middle layouts the
    shift applies to the value already cut to 16 bits. *)
Definition insertAndUnlock (t : art) (a parent keyParent key val : Z) : res art :=
  n ← get_n t a;
  let cValues := countValues n in
  let nCount := to_u16 cValues in
  match n_body n with
  | N4 _ _ =>
      if (to_u16 (Z.shiftr cValues 16) =? 4) && (nCount <=? 3)
      then insertCompact t n (new_N4 (n_level n) (n_prefix n)) parent keyParent key val
      else insertGrow t a n (new_N16 (n_level n) (n_prefix n)) parent keyParent key val
  | N16 _ _ =>
      if (to_u16 (Z.shiftr (to_u16 cValues) 16) =? 16) && (nCount <=? 14)
      then insertCompact t n (new_N16 (n_level n) (n_prefix n)) parent keyParent key val
      else insertGrow t a n (new_N48 (n_level n) (n_prefix n)) parent keyParent key val
  | N48 _ _ =>
      if (to_u16 (Z.shiftr (to_u16 cValues) 16) =? 48) && negb (nCount =? 48)
      then insertCompact t n (new_N48 (n_level n) (n_prefix n)) parent keyParent key val
      else insertGrow t a n (new_N256 (n_level n) (n_prefix n)) parent keyParent key val
  | N256 _ => n' ← insert_ n key val; Ok (put_n a n' t)
  end.

(** * Leaves below a node *)

(** A path has at most eight nodes; the fuel of the descents is 8. *)
Fixpoint getAnyChildTid (fuel : nat) (t : art) (a : Z) : res Z :=
  match fuel with
  | O => Err NoReturn
  | S fuel' =>
      n ← get_n t a;
      let nextNode := getAnyChild n in
      _ ← assert_ (negb (nextNode =? 0));
      if isLeaf nextNode then Ok (getLeaf nextNode) else getAnyChildTid fuel' t nextNode
  end.

Definition depth : nat := 8.

(** * Comparing prefixes *)

Inductive CheckPrefixResult := CMatch | CNoMatch | COptimisticMatch.

(** [checkPrefix]: the stored bytes only; the result and the new level. *)
Fixpoint prefix_loop (bs : list Z) (k level : Z) : res (option Z) :=
  match bs with
  | [] => Ok (Some level)
  | b :: bs' => kb ← key_byte k level; if negb (b =? kb) then Ok None else prefix_loop bs' k (level + 1)
  end.

Definition checkPrefix (n : anode) (k level : Z) : res (CheckPrefixResult * Z) :=
  let p := n_prefix n in
  if getKeyLen k <=? n_level n then Ok (CNoMatch, level)
  else if prefixCount p + level <? n_level n then Ok (COptimisticMatch, n_level n)
  else if 0 <? prefixCount p then
    let i0 := to_u32 (level + prefixCount p - n_level n) in
    let last := Z.min (prefixCount p) (Z.of_nat maxStoredPrefixLength) in
    bs ← mapM (fun i => of_option Uninitialised (prefix p !! i)) (seq (Z.to_nat i0) (Z.to_nat (last - i0)));
    r ← prefix_loop bs k level;
    match r with
    | None => Ok (CNoMatch, level)
    | Some level' =>
        if Z.of_nat maxStoredPrefixLength <? prefixCount p
        then Ok (COptimisticMatch, level' + (prefixCount p - Z.of_nat maxStoredPrefixLength))
        else Ok (CMatch, level')
    end
  else Ok (CMatch, level).

(** The byte of the prefix at position [i], that is, at [level] of the keys
    below the node; [kt] is the key of a leaf below it, once it is loaded. *)
Definition prefix_byte (p : Prefix) (kt : option Z) (i level : Z) : res Z :=
  if Z.of_nat maxStoredPrefixLength <=? i then kt' ← of_option Uninitialised kt; key_byte kt' level
  else of_option Uninitialised (prefix p !! Z.to_nat i).

Definition load_at (t : art) (a i : Z) (kt : option Z) : res (option Z) :=
  if i =? Z.of_nat maxStoredPrefixLength then tid ← getAnyChildTid depth t a; Ok (Some (loadKey tid)) else Ok kt.

Inductive CheckPrefixPessimisticResult :=
  | PMatch (level : Z)
  | PNoMatch (level nonMatchingKey : Z) (nonMatchingPrefix : list Z)
  | PSkippedLevel.

(** What is left of the prefix behind a mismatch. *)
Definition remaining_prefix (t : art) (a : Z) (p : Prefix) (kt : option Z) (prevLevel i level : Z) : res (list Z) :=
  if Z.of_nat maxStoredPrefixLength <? prefixCount p then
    kt' ← (if i <? Z.of_nat maxStoredPrefixLength then tid ← getAnyChildTid depth t a; Ok (loadKey tid) else of_option Uninitialised kt);
    mapM (fun j => key_byte kt' (level + Z.of_nat j + 1))
      (seq 0 (Z.to_nat (Z.min (prefixCount p - (level - prevLevel) - 1) (Z.of_nat maxStoredPrefixLength))))
  else mapM (fun j => of_option Uninitialised (prefix p !! (Z.to_nat i + j + 1)%nat)) (seq 0 (Z.to_nat (prefixCount p - i - 1))).

Fixpoint pessimistic_loop (fuel : nat) (t : art) (a : Z) (p : Prefix) (k prevLevel i level : Z) (kt : option Z)
  : res CheckPrefixPessimisticResult :=
  if prefixCount p <=? i then Ok (PMatch level)
  else
    match fuel with
    | O => Err NoReturn
    | S fuel' =>
        kt' ← load_at t a i kt;
        curKey ← prefix_byte p kt' i level;
        kb ← key_byte k level;
        if negb (curKey =? kb) then
          rest ← remaining_prefix t a p kt' prevLevel i level;
          Ok (PNoMatch level curKey rest)
        else pessimistic_loop fuel' t a p k prevLevel (i + 1) (level + 1) kt'
    end.

Definition checkPrefixPessimistic (t : art) (a : Z) (n : anode) (k level : Z) : res CheckPrefixPessimisticResult :=
  let p := n_prefix n in
  if prefixCount p + level <? n_level n then Ok PSkippedLevel
  else if 0 <? prefixCount p then
    pessimistic_loop (Z.to_nat (prefixCount p)) t a p k level (to_u32 (level + prefixCount p - n_level n)) level None
  else Ok (PMatch level).

Inductive PCCompareResults := PCSmaller | PCEqual | PCBigger | PCSkippedLevel.

Fixpoint compare_loop (fuel : nat) (t : art) (a : Z) (p : Prefix) (k i level : Z) (kt : option Z) : res (PCCompareResults * Z) :=
  if prefixCount p <=? i then Ok (PCEqual, level)
  else
    match fuel with
    | O => Err NoReturn
    | S fuel' =>
        kt' ← load_at t a i kt;
        kLevel ← (if level <? getKeyLen k then key_byte k level else Ok 0);
        curKey ← prefix_byte p kt' i level;
        if curKey <? kLevel then Ok (PCSmaller, level)
        else if kLevel <? curKey then Ok (PCBigger, level)
        else compare_loop fuel' t a p k (i + 1) (level + 1) kt'
    end.

Definition checkPrefixCompare (t : art) (a : Z) (n : anode) (k level : Z) : res (PCCompareResults * Z) :=
  let p := n_prefix n in
  if prefixCount p + level <? n_level n then Ok (PCSkippedLevel, level)
  else if 0 <? prefixCount p then
    compare_loop (Z.to_nat (prefixCount p)) t a p k (to_u32 (level + prefixCount p - n_level n)) level None
  else Ok (PCEqual, level).

(** * Lookup *)

Definition checkKey (tid k : Z) : Z := if key_eq k (loadKey tid) then tid else 0.

(** [0]: no such key. *)
Fixpoint lookup_loop (fuel : nat) (t : art) (k a level : Z) (optimisticPrefixMatch : bool) : res Z :=
  match fuel with
  | O => Err NoReturn
  | S fuel' =>
      n ← get_n t a;
      '(r, level') ← checkPrefix n k level;
      match r with
      | CNoMatch => Ok 0
      | _ =>
          let opt := match r with COptimisticMatch => true | _ => optimisticPrefixMatch end in
          if getKeyLen k <=? level' then Ok 0
          else
            kb ← key_byte k level';
            node ← getChild n kb;
            if node =? 0 then Ok 0
            else if isLeaf node then
              let tid := getLeaf node in
              if (level' <? getKeyLen k - 1) || opt then Ok (checkKey tid k) else Ok tid
            else lookup_loop fuel' t k node (level' + 1) opt
      end
  end.

Definition lookup (t : art) (k : Z) : res Z := lookup_loop depth t k (root t) 0 false.

(** * Insertion *)

(** The prefix of the node differs from the key: a new node for the common
    part becomes its parent.  Returns before the log is reset. *)
Definition split_prefix (t : art) (a : Z) (n : anode) (parent parentKey k tid level nextLevel nonMatchingKey : Z)
    (remainingPrefix : list Z) : res art :=
  _ ← assert_ (nextLevel <? getKeyLen k);
  let prefi := MkPrefix (nextLevel - level) (prefix (n_prefix n)) in
  let log := oplogsCount t in
  let n0 := new_N4 nextLevel prefi in
  '(p, t1) ← alloc_node t log parent n0;
  let t2 := set_logCount (log + 1) t1 in
  kb ← key_byte k nextLevel;
  n1 ← insert_ n0 kb (setLeaf tid);
  n2 ← insert_ n1 nonMatchingKey a;
  t3 ← change_child (put_n p n2 t2) parent parentKey p;
  let t4 := log_done (oplogsCount t3) t3 in
  prefi' ← setPrefix remainingPrefix (prefixCount (n_prefix n) - ((nextLevel - level) + 1));
  n' ← get_n t4 a;
  Ok (put_n a (set_prefix n' prefi') t4).

Fixpoint common_length (fuel : nat) (k key level : Z) : res nat :=
  match fuel with
  | O => Err NoReturn
  | S fuel' =>
      b ← key_byte key level; kb ← key_byte k level;
      if b =? kb then n ← common_length fuel' k key (level + 1); Ok (S n) else Ok O
  end.

(** The child is a leaf with another key: a new node for both. *)
Definition split_leaf (t : art) (a : Z) (k tid key level nextNodePtr : Z) : res art :=
  _ ← assert_ (level <? getKeyLen key);
  prefixLength ← common_length 9 k key level;
  let log := oplogsCount t in
  let nl := level + Z.of_nat prefixLength in
  prefi ← setPrefix (drop (Z.to_nat level) (key_bytes k)) (Z.of_nat prefixLength);
  let n0 := new_N4 nl prefi in
  '(p, t1) ← alloc_node t log a n0;
  let t2 := set_logCount (log + 1) t1 in
  kb ← key_byte k nl; n1 ← insert_ n0 kb (setLeaf tid);
  b ← key_byte key nl; n2 ← insert_ n1 b nextNodePtr;
  kb' ← key_byte k (level - 1);
  t3 ← change_child (put_n p n2 t2) a kb' p;
  Ok (log_done (oplogsCount t3) t3).

Fixpoint insert_loop (fuel : nat) (t : art) (k tid parent parentKey a level : Z) : res art :=
  match fuel with
  | O => Err NoReturn
  | S fuel' =>
      n ← get_n t a;
      r ← checkPrefixPessimistic t a n k level;
      match r with
      | PSkippedLevel => Err NoReturn
      | PNoMatch nextLevel nonMatchingKey rest =>
          t' ← split_prefix t a n parent parentKey k tid level nextLevel nonMatchingKey rest;
          Ok (set_logCount 0 t')
      | PMatch level' =>
          nodeKey ← key_byte k level';
          nextNodePtr ← getChildPptr n nodeKey;
          let nextNode := getVaddr nextNodePtr in
          if nextNode =? 0 then
            t' ← insertAndUnlock t a parent parentKey nodeKey (setLeaf tid); Ok (set_logCount 0 t')
          else if isLeaf nextNode then
            let key := loadKey (getLeaf nextNode) in
            if key_eq key k then t' ← change_child t a nodeKey (setLeaf tid); Ok (set_logCount 0 t')
            else t' ← split_leaf t a k tid key (level' + 1) nextNodePtr; Ok (set_logCount 0 t')
          else insert_loop fuel' t k tid a nodeKey nextNode (level' + 1)
      end
  end.

Definition insert (t : art) (k tid : Z) : res art := insert_loop depth t k tid 0 0 (root t) 0.

(** [Tree::remove] is compiled out. *)
Definition remove (t : art) (k tid : Z) : art := t.

(** * The nearest key *)

(** [copy] and [copyReverse] *)
Fixpoint copy (fuel : nat) (t : art) (node : Z) : res Z :=
  if isLeaf node then Ok (getLeaf node)
  else
    match fuel with
    | O => Err NoReturn
    | S fuel' => n ← get_n t node; c ← getSmallestChild n 0; copy fuel' t c
    end.

Fixpoint copyReverse (fuel : nat) (t : art) (node : Z) : res Z :=
  if isLeaf node then Ok (getLeaf node)
  else
    match fuel with
    | O => Err NoReturn
    | S fuel' => n ← get_n t node; c ← getLargestChild n 255; copyReverse fuel' t c
    end.

(** The largest child of the parent below the byte of the key; [0]: none. *)
Definition smaller_sibling (t : art) (start parent parentLevel : Z) : res Z :=
  kb ← key_byte start parentLevel;
  if negb (kb =? 0) then n ← get_n t parent; getLargestChild n (kb - 1) else Ok 0.

Fixpoint findStart (fuel : nat) (t : art) (start node parent level parentLevel : Z) : res Z :=
  if isLeaf node then copy depth t node
  else
    match fuel with
    | O => Err NoReturn
    | S fuel' =>
        n ← get_n t node;
        '(r, level') ← checkPrefixCompare t node n start level;
        match r with
        | PCSkippedLevel => Err NoReturn
        | PCBigger =>
            c ← smaller_sibling t start parent parentLevel;
            if negb (c =? 0) then copyReverse depth t c else copy depth t node
        | PCSmaller => copyReverse depth t node
        | PCEqual =>
            startLevel ← (if level' <? getKeyLen start then key_byte start level' else Ok 0);
            c ← getChild n startLevel;
            if negb (c =? 0) then
              kb ← key_byte start level';
              if negb (kb =? 0) then findStart fuel' t start c node (level' + 1) level'
              else findStart fuel' t start c parent (level' + 1) parentLevel
            else
              l ← getLargestChild n startLevel;
              if negb (l =? 0) then copyReverse depth t l
              else
                s ← smaller_sibling t start parent parentLevel;
                if negb (s =? 0) then copyReverse depth t s
                else g ← getSmallestChild n startLevel; copy depth t g
        end
    end.

Definition lookupNext (t : art) (start : Z) : res Z := findStart (S depth) t start (root t) (root t) 0 0.

(** * Construction and recovery *)

(** The root allocation is recorded in a log entry of its own. *)
Definition create : res art :=
  let p := am_alloc ∅ in
  if getVaddr p =? 0 then Err NullDeref
  else Ok (MkArt {[p := new_N256 0 (MkPrefix 0 [])]} p ∅ 1).

(** [Tree::recover]: nodes of unfinished insertions are freed. *)
Definition recover (t : art) : art :=
  foldr (fun i t' =>
    match oplogs t' !! Z.of_nat i with
    | Some e => match al_op e with ArtInsert => set_heap (delete (al_newNodeOid e) (heap t')) t' | ArtDone => t' end
    | None => t'
    end) t (reverse (seq 0 (Z.to_nat (oplogsCount t)))).
End art.
