(* ===== verification/ArtTree.v ===== *)
(** The radix tree as a set of nodes with paths: the structure that the
    operations of [Art] keep, without the layouts of the nodes.

    A node of the view has the full string of bytes that leads behind its
    compressed prefix ([v_path]), the length of that prefix ([v_skip]) and its
    children.  [tree_ok] is the invariant; the changes an insertion makes are
    three: a leaf is set in a node, a node moves to a new address, and a new
    node is put into an edge.  What the tree holds is the relation [holds]
    between keys and pointers. *)

From S2P Require Import Prelude NodeBits VersionedLock ListNode ArtNode ArtNodeFacts Art.

Local Open Scope Z_scope.

(** * Strings of bytes *)

Lemma key_bytes_length k : length (key_bytes k) = 8%nat.
Proof. reflexivity. Qed.

Lemma key_bytes_byte k : Forall byte (key_bytes k).
Proof.
  apply Forall_fmap, Forall_forall. intros i _. unfold byte. cbn. change 255 with (Z.ones 8). rewrite Z.land_ones by lia.
  apply Z.mod_pos_bound. lia.
Qed.

(** The number a string of bytes stands for. *)
Definition key_val (l : list Z) : Z := foldl (fun v b => v * 256 + b) 0 l.

Lemma key_val_snoc l b : key_val (l ++ [b]) = key_val l * 256 + b.
Proof. unfold key_val. by rewrite foldl_app. Qed.

Lemma key_val_bytes k : 0 <= k < 2 ^ 64 -> key_val (key_bytes k) = k.
Proof.
  intros Hk. unfold key_val, key_bytes. cbn -[Z.land Z.shiftr Z.mul Z.add].
  change 255 with (Z.ones 8). rewrite !Z.land_ones, !Z.shiftr_div_pow2 by lia.
  cbn -[Z.modulo Z.div]. rewrite Z.div_1_r. Z.to_euclidean_division_equations. lia.
Qed.

Lemma key_bytes_inj k k' : 0 <= k < 2 ^ 64 -> 0 <= k' < 2 ^ 64 -> key_bytes k = key_bytes k' -> k = k'.
Proof. intros Hk Hk' E. rewrite <- (key_val_bytes k), <- (key_val_bytes k') by done. by rewrite E. Qed.

Lemma key_val_bound l : Forall byte l -> 0 <= key_val l < 256 ^ Z.of_nat (length l).
Proof.
  induction l as [|b l IH] using rev_ind; intros Hl; [cbn; lia|].
  apply Forall_app in Hl as [Hl Hb]. inversion Hb as [|? ? Hb1]. specialize (IH Hl). rewrite key_val_snoc, length_app.
  rewrite Nat2Z.inj_add, Z.pow_add_r by lia. cbn [length]. change (256 ^ Z.of_nat 1) with 256. unfold byte in Hb1. lia.
Qed.

Lemma key_val_app l l' : key_val (l ++ l') = key_val l * 256 ^ Z.of_nat (length l') + key_val l'.
Proof.
  induction l' as [|b l' IH] using rev_ind; [rewrite app_nil_r; cbn; lia|].
  rewrite app_assoc, !key_val_snoc, IH, length_app, Nat2Z.inj_add, Z.pow_add_r by lia. cbn [length]. change (256 ^ Z.of_nat 1) with 256. lia.
Qed.

(** The first byte in which two keys differ decides. *)
Lemma key_val_lt w b x b' x' : Forall byte x -> Forall byte x' -> length x = length x' -> b < b' ->
  key_val (w ++ b :: x) < key_val (w ++ b' :: x').
Proof.
  intros Hx Hx' El Hb. rewrite !(cons_middle _ w), !app_assoc, !(key_val_app (w ++ [_])), !key_val_snoc, El.
  pose proof (key_val_bound x Hx) as B. pose proof (key_val_bound x' Hx') as B'. rewrite El in B. nia.
Qed.

Lemma split_two {A} (u v : list A) b c x y : u ++ b :: x = v ++ c :: y ->
  u = v /\ b = c /\ x = y \/ (exists z, v = u ++ b :: z) \/ (exists z, u = v ++ c :: z).
Proof.
  revert v. induction u as [|d u IH]; intros [|e v] E; simplify_eq/=.
  - by left.
  - right; left. by exists v.
  - right; right. by exists u.
  - destruct (IH v) as [(-> & -> & ->)|[[z ->]|[z ->]]]; [done|by left|right; left; by exists z|right; right; by exists z].
Qed.

Lemma prefix_split {A} (u : list A) b l : u ++ [b] `prefix_of` l <-> exists x, l = u ++ b :: x.
Proof. split; intros [x ->]; exists x; by rewrite <- app_assoc. Qed.

(** Contradictions by the lengths of the strings at hand. *)
Ltac by_length :=
  exfalso; repeat match goal with
  | E : @eq (list Z) _ _ |- _ => apply (f_equal length) in E
  | E : _ `prefix_of` _ |- _ => apply prefix_length in E
  end; rewrite ?length_app in *; simpl in *; rewrite ?length_app in *; simpl in *; lia.

(** * Leaves *)

Definition tid_ok (tid : Z) : Prop := 0 < tid < 2 ^ 63.

Lemma leaf_bits i : 0 <= i -> Z.testbit (Z.shiftl 1 63) i = (i =? 63).
Proof. intros Hi. rewrite Z.shiftl_1_l, Z.pow2_bits_eqb by lia. apply Z.eqb_sym. Qed.

Lemma getLeaf_setLeaf tid : tid_ok tid -> getLeaf (setLeaf tid) = tid.
Proof.
  intros Ht. unfold getLeaf, setLeaf. change (Z.shiftl 1 63 - 1) with (Z.ones 63). apply Z.bits_inj'. intros i Hi.
  rewrite Z.land_spec, Z.lor_spec, leaf_bits by done. destruct (Z.ltb_spec i 63).
  - rewrite Z.ones_spec_low by lia. destruct (Z.eqb_spec i 63); [lia|]. by rewrite orb_false_r, andb_true_r.
  - rewrite Z.ones_spec_high by lia. rewrite andb_false_r. symmetry. apply Z.bits_above_log2; [unfold tid_ok in Ht; lia|].
    apply Z.log2_lt_pow2; [unfold tid_ok in Ht; lia|]. eapply Z.lt_le_trans; [apply Ht|]. apply Z.pow_le_mono_r; lia.
Qed.

Lemma isLeaf_setLeaf tid : isLeaf (setLeaf tid) = true.
Proof.
  unfold isLeaf, setLeaf. apply Z.eqb_eq, Z.bits_inj'. intros i Hi. rewrite Z.land_spec, Z.lor_spec, leaf_bits by done.
  destruct (i =? 63); [by rewrite orb_true_r|by rewrite andb_false_r].
Qed.

Lemma nonnull_setLeaf tid : nonnull (setLeaf tid).
Proof.
  assert (Z.testbit (Z.land (setLeaf tid) MASK) 63 = true) as Hb.
  { rewrite Z.land_spec. unfold setLeaf. by rewrite Z.lor_spec, leaf_bits, orb_true_r by done. }
  unfold nonnull, null, getVaddr. destruct (Z.eqb_spec (Z.land (setLeaf tid) MASK) 0) as [E|]; [by rewrite E in Hb|].
  apply Z.eqb_neq. intros E. by rewrite E in Hb.
Qed.

Lemma setLeaf_inj tid tid' : tid_ok tid -> tid_ok tid' -> setLeaf tid = setLeaf tid' -> tid = tid'.
Proof. intros Ht Ht' E. rewrite <- (getLeaf_setLeaf tid), <- (getLeaf_setLeaf tid') by done. by rewrite E. Qed.

(** * The view *)

Record vnode := MkView { v_path : list Z; v_skip : nat; v_kids : gmap Z Z }.

Section view.
Variable loadKey : Z -> Z.
Implicit Types (A : gmap Z vnode) (r a p : Z) (x y : vnode).

(** What is found under the string [w]: a leaf whose key begins with it, or a
    node. *)
Definition leaf_kid (w : list Z) (p : Z) : Prop :=
  exists tid, p = setLeaf tid /\ tid_ok tid /\ w `prefix_of` key_bytes (loadKey tid).

Definition node_kid A (w : list Z) (p : Z) : Prop :=
  exists y w', isLeaf p = false /\ A !! p = Some y /\ v_path y = w ++ w' /\ length w' = v_skip y.

Definition kid_ok A (w : list Z) (p : Z) : Prop := leaf_kid w p \/ node_kid A w p.

Record vnode_ok A r a x : Prop := {
  vo_len : (length (v_path x) < 8)%nat;
  vo_bytes : Forall byte (v_path x);
  vo_addr : nonnull a /\ isLeaf a = false;
  vo_kids : forall b p, v_kids x !! b = Some p -> byte b /\ kid_ok A (v_path x ++ [b]) p;
  vo_busy : a <> r -> v_kids x <> ∅;
  vo_parent : a <> r -> exists q y b, A !! q = Some y /\ v_kids y !! b = Some a;
}.

Record tree_ok A r : Prop := {
  to_root : exists x, A !! r = Some x /\ v_path x = [] /\ v_skip x = 0%nat;
  to_node : forall a x, A !! a = Some x -> vnode_ok A r a x;
  to_inj : forall a a' x x', A !! a = Some x -> A !! a' = Some x' -> v_path x = v_path x' -> a = a';
}.

Definition holds A (k tid : Z) : Prop :=
  tid_ok tid /\ loadKey tid = k /\ exists a x b, A !! a = Some x /\ v_kids x !! b = Some (setLeaf tid).

Lemma leaf_dead A r tid : tree_ok A r -> A !! setLeaf tid = None.
Proof.
  intros TO. apply eq_None_not_Some. intros [x Hx]. destruct (vo_addr _ _ _ _ (to_node _ _ TO _ _ Hx)) as [_ Hl].
  by rewrite isLeaf_setLeaf in Hl.
Qed.

(** The node from which another is found, and by which byte. *)
Lemma edge_path A r q y b a x : tree_ok A r -> A !! q = Some y -> v_kids y !! b = Some a -> A !! a = Some x ->
  exists w, v_path x = v_path y ++ b :: w /\ length w = v_skip x.
Proof.
  intros TO Hq Hb Ha. destruct (vo_kids _ _ _ _ (to_node _ _ TO _ _ Hq) _ _ Hb) as [_ [(tid & -> & _)|(z & w & _ & Hz & E & El)]].
  - by rewrite (leaf_dead A r) in Ha.
  - simplify_eq. exists w. by rewrite E, <- app_assoc.
Qed.

Lemma not_root A r a x : tree_ok A r -> A !! a = Some x -> v_path x <> [] -> a <> r.
Proof. intros TO Ha Hw ->. destruct (to_root _ _ TO) as (y & Hy & E & _). by simplify_eq. Qed.

Lemma parent_path A r a x : tree_ok A r -> A !! a = Some x -> v_path x <> [] ->
  exists q y b w, A !! q = Some y /\ v_kids y !! b = Some a /\ v_path x = v_path y ++ b :: w /\ length w = v_skip x.
Proof.
  intros TO Ha Hw. assert (a <> r) as Hr by (by eapply not_root).
  destruct (vo_parent _ _ _ _ (to_node _ _ TO _ _ Ha) Hr) as (q & y & b & Hq & Hb).
  destruct (edge_path _ _ _ _ _ _ _ TO Hq Hb Ha) as (w & E & El). eauto 10.
Qed.

(** A node whose path continues that of another is found through it. *)
Lemma next_on_path A r : tree_ok A r -> forall l a x a' y b w,
  A !! a = Some x -> A !! a' = Some y -> v_path y = v_path x ++ b :: w -> (length (v_path y) <= l)%nat ->
  exists p z, v_kids x !! b = Some p /\ A !! p = Some z /\ v_path z `prefix_of` v_path y.
Proof.
  intros TO l. induction l as [|l IH]; intros a x a' y b w Ha Ha' E Hl; [rewrite E, length_app in Hl; cbn in Hl; lia|].
  destruct (parent_path A r a' y TO Ha') as (q & u & c & w' & Hq & Hc & E' & _); [rewrite E; by destruct (v_path x)|].
  assert (length (v_path u) <= l)%nat as Hlu by (rewrite E', length_app in Hl; cbn in Hl; lia).
  rewrite E in E'. destruct (split_two _ _ _ _ _ _ E') as [(Eu & -> & ->)|[[z Ez]|[z Ez]]].
  - assert (a = q) as -> by (by eapply to_inj). simplify_eq. by exists a', y.
  - destruct (IH a x q u b z Ha Hq Ez Hlu) as (p & v & Hp & Hv & Hpre). exists p, v. split_and!; [done..|].
    etrans; [done|]. rewrite E, E'. by apply prefix_app_r.
  - exfalso. assert (length (v_path x) < length (v_path y))%nat as Hxy by (rewrite E, length_app; cbn; lia).
    destruct (parent_path A r a x TO Ha) as (q2 & u2 & c2 & w2 & Hq2 & Hc2 & E2 & _); [rewrite Ez; by destruct (v_path u)|].
    assert (length (v_path u2) <= l)%nat as Hlu2 by (rewrite E2, length_app in Hxy; lia).
    rewrite Ez in E2. destruct (split_two _ _ _ _ _ _ E2) as [(Eu & -> & ->)|[[z2 Ez2]|[z2 Ez2]]].
    + assert (q = q2) as -> by (by eapply to_inj). simplify_eq. lia.
    + destruct (IH q u q2 u2 c z2 Hq Hq2 Ez2 Hlu2) as (p & v & Hp & Hv & Hpre). simplify_eq. by_length.
    + destruct (IH q2 u2 q u c2 z2 Hq2 Hq Ez2 Hlu) as (p & v & Hp & Hv & Hpre). simplify_eq. by_length.
Qed.

Lemma path_next A r a x a' y b w : tree_ok A r -> A !! a = Some x -> A !! a' = Some y -> v_path y = v_path x ++ b :: w ->
  exists p z, v_kids x !! b = Some p /\ A !! p = Some z /\ v_path z `prefix_of` v_path y.
Proof. intros TO Ha Ha' E. by eapply (next_on_path A r TO (length (v_path y)) a x a' y). Qed.

(** Every node has one edge that leads to it. *)
Lemma one_parent A r q y b q' y' b' a : tree_ok A r -> A !! q = Some y -> v_kids y !! b = Some a ->
  A !! q' = Some y' -> v_kids y' !! b' = Some a -> isLeaf a = false -> q = q' /\ b = b'.
Proof.
  intros TO Hq Hb Hq' Hb' Hl.
  assert (exists x, A !! a = Some x) as [x Ha].
  { destruct (vo_kids _ _ _ _ (to_node _ _ TO _ _ Hq) _ _ Hb) as [_ [(tid & -> & _)|(z & w & _ & Hz & _)]]; [|by exists z].
    by rewrite isLeaf_setLeaf in Hl. }
  destruct (edge_path _ _ _ _ _ _ _ TO Hq Hb Ha) as (w & E & _). destruct (edge_path _ _ _ _ _ _ _ TO Hq' Hb' Ha) as (w' & E' & _).
  rewrite E in E'. destruct (split_two _ _ _ _ _ _ E') as [(Eu & -> & ->)|[[z Ez]|[z Ez]]].
  - split; [by eapply to_inj|done].
  - destruct (path_next _ _ _ _ _ _ _ _ TO Hq Hq' Ez) as (p & v & Hp & Hv & Hpre). simplify_eq. by_length.
  - destruct (path_next _ _ _ _ _ _ _ _ TO Hq' Hq Ez) as (p & v & Hp & Hv & Hpre). simplify_eq. by_length.
Qed.

(** A key of the tree is found from every node whose path begins it. *)
Lemma leaf_route A r a x b tid q y c : tree_ok A r -> A !! a = Some x -> v_kids x !! b = Some (setLeaf tid) -> tid_ok tid ->
  A !! q = Some y -> v_path y ++ [c] `prefix_of` key_bytes (loadKey tid) ->
  q = a /\ c = b \/ exists p z, v_kids y !! c = Some p /\ A !! p = Some z /\ v_path z `prefix_of` key_bytes (loadKey tid).
Proof.
  intros TO Ha Hb Ht Hq [w Ew]%prefix_split.
  destruct (vo_kids _ _ _ _ (to_node _ _ TO _ _ Ha) _ _ Hb) as [_ [(tid' & Et & Ht' & [w' Ew']%prefix_split)|(z & w' & Hz & _)]];
    [|by rewrite isLeaf_setLeaf in Hz].
  apply setLeaf_inj in Et as <-; [|done..]. rewrite Ew in Ew'. destruct (split_two _ _ _ _ _ _ Ew') as [(Eu & -> & ->)|[[z Ez]|[z Ez]]].
  - left. split; [by eapply to_inj|done].
  - right. destruct (path_next _ _ _ _ _ _ _ _ TO Hq Ha Ez) as (p & v & Hp & Hv & Hpre). exists p, v. split_and!; [done..|].
    etrans; [done|]. rewrite Ew, Ew'. by apply prefix_app_r.
  - destruct (path_next _ _ _ _ _ _ _ _ TO Ha Hq Ez) as (p & v & Hp & Hv & Hpre). simplify_eq.
    by rewrite (leaf_dead A r) in Hv.
Qed.

(** * The changes *)

Definition set_kid x (b p : Z) : vnode := MkView (v_path x) (v_skip x) (<[b := p]> (v_kids x)).

(** Nodes keep their place. *)
Definition same_nodes A A' : Prop :=
  forall a x, A !! a = Some x -> exists x', A' !! a = Some x' /\ v_path x' = v_path x /\ v_skip x' = v_skip x.

Lemma kid_ok_same A A' w p : same_nodes A A' -> kid_ok A w p -> kid_ok A' w p.
Proof.
  intros HS [Hl|(y & w' & Hl & Hy & E & El)]; [by left|]. right. destruct (HS _ _ Hy) as (y' & Hy' & E' & El').
  exists y', w'. by rewrite E', El'.
Qed.

Lemma set_kid_same A a x b p : A !! a = Some x -> same_nodes A (<[a := set_kid x b p]> A).
Proof.
  intros Ha c y Hc. destruct (decide (a = c)) as [->|]; [rewrite lookup_insert_eq|rewrite lookup_insert_ne by done; eauto].
  simplify_eq. eexists. split; [done|]. done.
Qed.

(** A leaf is set in a node, in a free place or over a leaf with its key. *)
Definition free_for x (b tid : Z) : Prop :=
  forall p, v_kids x !! b = Some p -> exists tid', p = setLeaf tid' /\ tid_ok tid' /\ loadKey tid' = loadKey tid.

Lemma set_leaf_ok A r a x b tid : tree_ok A r -> A !! a = Some x -> tid_ok tid -> v_path x ++ [b] `prefix_of` key_bytes (loadKey tid) ->
  free_for x b tid -> tree_ok (<[a := set_kid x b (setLeaf tid)]> A) r.
Proof.
  intros TO Ha Ht Hw Hf. pose proof (set_kid_same A a x b (setLeaf tid) Ha) as HS. set (A' := <[a := _]> A) in *.
  assert (forall c y, A' !! c = Some y -> exists y0, A !! c = Some y0 /\ v_path y = v_path y0 /\ v_skip y = v_skip y0 /\
    v_kids y = if decide (c = a) then <[b := setLeaf tid]> (v_kids y0) else v_kids y0) as Hback.
  { intros c y [[<- <-]|[Hn Hc]]%lookup_insert_Some; [exists x; by rewrite decide_True|exists y; by rewrite decide_False by done]. }
  split.
  - destruct (to_root _ _ TO) as (y & Hy & E & El). destruct (HS _ _ Hy) as (y' & Hy' & E' & El'). exists y'. by rewrite E', El'.
  - intros c y Hc. destruct (Hback c y Hc) as (y0 & Hy0 & E & El & Ek). destruct (to_node _ _ TO _ _ Hy0) as [V1 V2 V3 V4 V5 V6].
    split; rewrite ?E; try done.
    + intros b' p. rewrite Ek. destruct (decide (c = a)) as [->|]; [|intros Hp; destruct (V4 _ _ Hp); split; [done|by eapply kid_ok_same]].
      intros [[<- <-]|[_ Hp]]%lookup_insert_Some; [|destruct (V4 _ _ Hp); split; [done|by eapply kid_ok_same]].
      simplify_eq. split; [|left; by exists tid].
      pose proof (key_bytes_byte (loadKey tid)) as HF. destruct Hw as [w' Ew]. rewrite Ew in HF.
      apply Forall_app in HF as [HF _]. apply Forall_app in HF as [_ HF]. by inversion HF.
    + intros Hr. rewrite Ek. destruct (decide (c = a)); [apply insert_non_empty|by apply V5].
    + intros Hr. destruct (V6 Hr) as (q & z & d & Hq & Hd). destruct (decide (q = a)) as [->|].
      * exists a, (set_kid x b (setLeaf tid)), d. split; [apply lookup_insert_eq|]. simplify_eq. cbn. rewrite lookup_insert_ne; [done|].
        intros ->. destruct (Hf _ Hd) as (tid' & -> & _). by rewrite isLeaf_setLeaf in V3; destruct V3.
      * exists q, z, d. split; [unfold A'; by rewrite lookup_insert_ne|done].
  - intros c c' y y' Hc Hc' E. destruct (Hback c y Hc) as (y0 & Hy0 & E0 & _). destruct (Hback c' y' Hc') as (y1 & Hy1 & E1 & _).
    eapply to_inj; [done..|]. by rewrite <- E0, <- E1.
Qed.

Lemma set_leaf_holds A r a x b tid : tree_ok A r -> A !! a = Some x -> tid_ok tid -> v_path x ++ [b] `prefix_of` key_bytes (loadKey tid) ->
  free_for x b tid ->
  forall k tid', holds (<[a := set_kid x b (setLeaf tid)]> A) k tid' <->
    k = loadKey tid /\ tid' = tid \/ k <> loadKey tid /\ holds A k tid'.
Proof.
  intros TO Ha Ht Hw Hf k tid'. split.
  - intros (Ht' & Hk & c & y & d & [[<- <-]|[Hn Hc]]%lookup_insert_Some & Hd).
    + cbn in Hd. apply lookup_insert_Some in Hd as [[<- E]|[Hne Hd]].
      * apply setLeaf_inj in E as ->; [by left|done..].
      * right. split; [|split_and!; eauto]. intros Ek. rewrite <- Hk in Ek. rewrite <- Ek in Hw.
        destruct (leaf_route _ _ _ _ _ _ _ _ _ TO Ha Hd Ht' Ha Hw) as [[_ E]|(p & z & Hp & Hz & _)]; [done|].
        destruct (Hf _ Hp) as (? & -> & _). by rewrite (leaf_dead A r) in Hz.
    + right. split; [|split_and!; eauto 10]. intros Ek. rewrite <- Hk in Ek. rewrite <- Ek in Hw.
      destruct (leaf_route _ _ _ _ _ _ _ _ _ TO Hc Hd Ht' Ha Hw) as [[E _]|(p & z & Hp & Hz & _)]; [done|].
      destruct (Hf _ Hp) as (? & -> & _). by rewrite (leaf_dead A r) in Hz.
  - intros [[-> ->]|(Hne & Ht' & Hk & c & y & d & Hc & Hd)].
    + split_and!; [done..|]. exists a, (set_kid x b (setLeaf tid)), b. cbn. by rewrite !lookup_insert_eq.
    + split_and!; [done..|]. destruct (decide (c = a)) as [->|].
      * exists a, (set_kid x b (setLeaf tid)), d. cbn. rewrite lookup_insert_eq. split; [done|]. simplify_eq.
        rewrite lookup_insert_ne; [done|]. intros ->. destruct (Hf _ Hd) as (tid2 & E & Ht2 & Ek2).
        apply setLeaf_inj in E as ->; [|done..]. done.
      * exists c, y, d. split; [by rewrite lookup_insert_ne|done].
Qed.

(** A node moves to a new address. *)
Section move.
Context (A : gmap Z vnode) (r a q b p : Z) (x y : vnode).
Hypotheses (TO : tree_ok A r) (Ha : A !! a = Some x) (Hq : A !! q = Some y) (Hb : v_kids y !! b = Some a).
Hypotheses (Hp : A !! p = None) (Hpn : nonnull p /\ isLeaf p = false).

Definition moved : gmap Z vnode := <[q := set_kid y b p]> (<[p := x]> (delete a A)).

Lemma move_ne : q <> a /\ q <> p /\ a <> p /\ a <> r.
Proof.
  destruct (edge_path _ _ _ _ _ _ _ TO Hq Hb Ha) as (w & E & _). split_and!; intros ->; simplify_eq.
  - by_length.
  - destruct (to_root _ _ TO) as (z & Hz & Ez & _). simplify_eq. by_length.
Qed.

Lemma moved_inv c z : moved !! c = Some z ->
  c = q /\ z = set_kid y b p \/ c = p /\ z = x \/ c <> q /\ c <> p /\ c <> a /\ A !! c = Some z.
Proof.
  unfold moved. intros Hz. apply lookup_insert_Some in Hz as [[<- <-]|[Hn1 Hz]]; [auto|].
  apply lookup_insert_Some in Hz as [[<- <-]|[Hn2 Hz]]; [auto|]. apply lookup_delete_Some in Hz as [Hn3 Hz]. auto 10.
Qed.

Lemma moved_old c z : A !! c = Some z -> c <> a -> exists z', moved !! c = Some z' /\ v_path z' = v_path z /\ v_skip z' = v_skip z /\
  v_kids z' = if decide (c = q) then <[b := p]> (v_kids z) else v_kids z.
Proof.
  intros Hc Hn. unfold moved. destruct (decide (c = q)) as [->|].
  - rewrite lookup_insert_eq. simplify_eq. eexists. by split.
  - rewrite lookup_insert_ne by done. rewrite lookup_insert_ne by (intros ->; congruence).
    rewrite lookup_delete_ne by done. eauto.
Qed.

Lemma moved_new : moved !! p = Some x.
Proof. unfold moved. destruct move_ne as (_ & ? & _). rewrite lookup_insert_ne by done. apply lookup_insert_eq. Qed.

Lemma moved_kid w p0 : p0 <> a -> kid_ok A w p0 -> kid_ok moved w p0.
Proof.
  intros Hn [Hl|(z & w' & Hl & Hz & E & El)]; [by left|]. right. destruct (moved_old _ _ Hz Hn) as (z' & Hz' & E' & El' & _).
  exists z', w'. by rewrite E', El'.
Qed.

Lemma other_kid c z d p0 : A !! c = Some z -> v_kids z !! d = Some p0 -> (c, d) <> (q, b) -> p0 <> a.
Proof.
  intros Hc Hd Hn ->. destruct (one_parent _ _ _ _ _ _ _ _ _ TO Hq Hb Hc Hd) as [-> ->]; [|done].
  apply (to_node _ _ TO _ _ Ha).
Qed.

Lemma moved_node c z : moved !! c = Some z -> vnode_ok moved r c z.
Proof.
  destruct move_ne as (Nqa & Nqp & Nap & Nar).
  assert (forall c z, A !! c = Some z -> c <> q -> forall d p0, v_kids z !! d = Some p0 -> byte d /\ kid_ok moved (v_path z ++ [d]) p0) as Hkid.
  { intros c' z' Hz Hn d p0 Hd. destruct (vo_kids _ _ _ _ (to_node _ _ TO _ _ Hz) _ _ Hd). split; [done|].
    apply moved_kid; [|done]. eapply other_kid; [done..|]. congruence. }
  assert (forall c z, A !! c = Some z -> c <> r -> c <> a -> exists q0 y0 b0, moved !! q0 = Some y0 /\ v_kids y0 !! b0 = Some c) as Hpar.
  { intros c' z' Hz Hr Hn. destruct (vo_parent _ _ _ _ (to_node _ _ TO _ _ Hz) Hr) as (q0 & y0 & b0 & Hq0 & Hb0).
    destruct (decide (q0 = a)) as [->|]; [exists p, x, b0; simplify_eq; split; [apply moved_new|done]|].
    destruct (moved_old _ _ Hq0 ltac:(done)) as (y' & Hy' & _ & _ & Ek). exists q0, y', b0. split; [done|]. rewrite Ek.
    destruct (decide (q0 = q)) as [->|]; [|done]. rewrite lookup_insert_ne; [done|]. intros ->. by simplify_eq. }
  intros [[-> ->]|[[-> ->]|(Hn1 & Hn2 & Hn3 & Hz)]]%moved_inv.
  - destruct (to_node _ _ TO _ _ Hq) as [V1 V2 V3 V4 V5 V6]. split; cbn; try done.
    + intros d p0 [[<- <-]|[Hd Hp0]]%lookup_insert_Some.
      * split; [apply (V4 _ _ Hb)|]. right. destruct (edge_path _ _ _ _ _ _ _ TO Hq Hb Ha) as (w & E & El).
        exists x, w. split_and!; [apply Hpn|apply moved_new|by rewrite E, <- app_assoc|done].
      * destruct (V4 _ _ Hp0). split; [done|]. apply moved_kid; [|done]. eapply other_kid; [done..|]. congruence.
    + intros _. apply insert_non_empty.
    + intros Hr. by eapply Hpar.
  - destruct (to_node _ _ TO _ _ Ha) as [V1 V2 V3 V4 V5 V6]. split; try done.
    + by apply (Hkid a).
    + intros _. by apply V5.
    + intros _. exists q, (set_kid y b p), b. split; [apply lookup_insert_eq|]. cbn. apply lookup_insert_eq.
  - destruct (to_node _ _ TO _ _ Hz) as [V1 V2 V3 V4 V5 V6]. split; try done; [by apply (Hkid c)|]. intros Hr. by eapply Hpar.
Qed.

Lemma move_ok : tree_ok moved r.
Proof.
  destruct move_ne as (Nqa & Nqp & Nap & Nar). split.
  - destruct (to_root _ _ TO) as (z & Hz & E & El). destruct (moved_old _ _ Hz ltac:(done)) as (z' & Hz' & E' & El' & _).
    exists z'. by rewrite E', El'.
  - apply moved_node.
  - assert (forall c z, moved !! c = Some z -> exists c0 z0, A !! c0 = Some z0 /\ v_path z = v_path z0 /\ c = if decide (c0 = a) then p else c0) as Hback.
    { intros c z [[-> ->]|[[-> ->]|(Hn1 & Hn2 & Hn3 & Hz)]]%moved_inv; [exists q, y|exists a, x|exists c, z];
      by rewrite ?decide_True, ?decide_False by done. }
    intros c c' z z' Hc Hc' E. destruct (Hback c z Hc) as (c0 & z0 & H0 & E0 & ->). destruct (Hback c' z' Hc') as (c1 & z1 & Hz1 & E1 & ->).
    assert (c0 = c1) as ->; [|done]. eapply to_inj; [done..|]. congruence.
Qed.

Lemma move_holds k tid : holds moved k tid <-> holds A k tid.
Proof.
  destruct move_ne as (Nqa & Nqp & Nap & Nar). split.
  - intros (Ht & Hk & c & z & d & Hz & Hd). split_and!; [done..|]. apply moved_inv in Hz as [[-> ->]|[[-> ->]|(Hn1 & Hn2 & Hn3 & Hz)]]; eauto.
    cbn in Hd. apply lookup_insert_Some in Hd as [[_ E]|[_ Hd]]; [|eauto]. destruct Hpn as [_ Hl]. by rewrite E, isLeaf_setLeaf in Hl.
  - intros (Ht & Hk & c & z & d & Hz & Hd). split_and!; [done..|]. destruct (decide (c = a)) as [->|].
    + simplify_eq. exists p, x, d. split; [apply moved_new|done].
    + destruct (moved_old _ _ Hz ltac:(done)) as (z' & Hz' & _ & _ & Ek). exists c, z', d. split; [done|]. rewrite Ek.
      destruct (decide (c = q)) as [->|]; [|done]. rewrite lookup_insert_ne; [done|]. intros ->.
      pose proof (leaf_dead A r tid TO) as Hdead. by assert (a = setLeaf tid) as E by congruence; rewrite <- E, Ha in Hdead.
Qed.
End move.

(** A new node is put into an edge; [e] is what its prefix takes over, [b1]
    the byte under which it has the old child. *)
Section split.
Context (A : gmap Z vnode) (r q b c b1 p : Z) (e : list Z) (y : vnode).
Notation w := (v_path y ++ b :: e).
Hypotheses (TO : tree_ok A r) (Hq : A !! q = Some y) (Hb : v_kids y !! b = Some c).
Hypothesis (Hc : leaf_kid (w ++ [b1]) c \/ exists z rest, A !! c = Some z /\ v_path z = w ++ b1 :: rest).
Hypotheses (Hp : A !! p = None) (Hpn : nonnull p /\ isLeaf p = false).

Definition shorten (z : vnode) : vnode := MkView (v_path z) (length (v_path z) - length w - 1) (v_kids z).
Definition split_edge : gmap Z vnode := <[q := set_kid y b p]> (<[p := MkView w (length e) {[b1 := c]}]> (alter shorten c A)).

Lemma split_ne : q <> c /\ q <> p /\ c <> p.
Proof.
  destruct Hc as [(tid & -> & _)|(z & rest & Hz & E)]; (split_and!; intros E1).
  - pose proof (leaf_dead A r tid TO) as Hd. by rewrite <- E1, Hq in Hd.
  - congruence.
  - destruct Hpn as [_ Hl]. by rewrite <- E1, isLeaf_setLeaf in Hl.
  - assert (z = y) as -> by congruence. by_length.
  - congruence.
  - congruence.
Qed.

Lemma split_old a x : A !! a = Some x -> exists x', split_edge !! a = Some x' /\ v_path x' = v_path x /\
  (a <> c -> v_skip x' = v_skip x) /\ (a = c -> x' = shorten x) /\ v_kids x' = if decide (a = q) then <[b := p]> (v_kids x) else v_kids x.
Proof.
  destruct split_ne as (Nqc & Nqp & Ncp). intros Ha. unfold split_edge. destruct (decide (a = q)) as [->|].
  - rewrite lookup_insert_eq. assert (x = y) as -> by congruence. eexists. split; [done|]. done.
  - rewrite lookup_insert_ne by done. rewrite lookup_insert_ne by congruence. destruct (decide (a = c)) as [->|].
    + rewrite lookup_alter_eq, Ha. cbn. by exists (shorten x).
    + rewrite lookup_alter_ne, Ha by done. by exists x.
Qed.

Lemma split_inv a x : split_edge !! a = Some x ->
  a = p /\ x = MkView w (length e) {[b1 := c]} \/ a <> p /\ exists x0, A !! a = Some x0 /\ v_path x = v_path x0 /\
    v_kids x = if decide (a = q) then <[b := p]> (v_kids x0) else v_kids x0.
Proof.
  destruct split_ne as (Nqc & Nqp & Ncp). unfold split_edge. intros Hx. apply lookup_insert_Some in Hx as [[<- <-]|[Hn1 Hx]].
  { right. split; [done|]. exists y. by rewrite decide_True. }
  apply lookup_insert_Some in Hx as [[<- <-]|[Hn2 Hx]]; [by left|]. right. split; [done|].
  apply lookup_alter_Some in Hx as [(-> & x0 & Hx & ->)|[Hn3 Hx]]; eexists; rewrite decide_False by done; eauto.
Qed.

Lemma split_new : split_edge !! p = Some (MkView w (length e) {[b1 := c]}).
Proof. destruct split_ne as (_ & ? & _). unfold split_edge. rewrite lookup_insert_ne by done. apply lookup_insert_eq. Qed.

Lemma split_other a x d p0 : A !! a = Some x -> v_kids x !! d = Some p0 -> (a, d) <> (q, b) ->
  byte d /\ kid_ok split_edge (v_path x ++ [d]) p0.
Proof.
  intros Ha Hd Hn. destruct (vo_kids _ _ _ _ (to_node _ _ TO _ _ Ha) _ _ Hd) as [Hbd [Hl|(z & w' & Hl & Hz & E & El)]]; (split; [done|]);
    [by left|right].
  assert (p0 <> c) as Hpc. { intros ->. destruct (one_parent _ _ _ _ _ _ _ _ _ TO Hq Hb Ha Hd Hl) as [-> ->]. done. }
  destruct (split_old _ _ Hz) as (z' & Hz' & E' & El' & _). exists z', w'. by rewrite E', El'.
Qed.

Lemma split_path : (length w < 8)%nat /\ Forall byte w /\ byte b1.
Proof.
  destruct Hc as [(tid & -> & Ht & [x Ex]%prefix_split)|(z & rest & Hz & E)].
  - pose proof (key_bytes_byte (loadKey tid)) as HF. pose proof (key_bytes_length (loadKey tid)) as HL. rewrite Ex in HF, HL.
    rewrite length_app in HL. cbn in HL. apply Forall_app in HF as [HF HF']. inversion HF'. split_and!; [lia|done..].
  - destruct (to_node _ _ TO _ _ Hz) as [V1 V2 _ _ _ _]. rewrite E in V1, V2. rewrite length_app in V1.
    apply Forall_app in V2 as [HF HF']. inversion HF'. cbn in V1. split_and!; [lia|done..].
Qed.

Lemma split_node a x : split_edge !! a = Some x -> vnode_ok split_edge r a x.
Proof.
  destruct split_ne as (Nqc & Nqp & Ncp). destruct split_path as (Hlen & HF & Hb1).
  intros [[-> ->]|(Hn & x0 & Ha & E & Ek)]%split_inv.
  - split; cbn; try done.
    + intros d p0 [<- <-]%lookup_singleton_Some. split; [done|]. destruct Hc as [Hl|(z & rest & Hz & E)]; [by left|right].
      destruct (split_old _ _ Hz) as (z' & Hz' & _ & _ & Ez' & _). specialize (Ez' eq_refl). subst z'. exists (shorten z), rest. cbn.
      split_and!; [apply (to_node _ _ TO _ _ Hz)|done|by rewrite E, (cons_middle b1), (app_assoc w)|]. rewrite E, length_app. cbn. lia.
    + intros _. exists q, (set_kid y b p), b. split; [apply lookup_insert_eq|]. cbn. apply lookup_insert_eq.
  - destruct (to_node _ _ TO _ _ Ha) as [V1 V2 V3 V4 V5 V6]. split; rewrite ?E; try done.
    + intros d p0. rewrite Ek. destruct (decide (a = q)) as [->|]; [|intros Hd; apply (split_other a); [done..|congruence]].
      intros [[<- <-]|[Hd Hp0]]%lookup_insert_Some; [|apply (split_other q); [done..|congruence]].
      assert (x0 = y) as -> by congruence. split; [apply (V4 _ _ Hb)|]. right. exists (MkView w (length e) {[b1 := c]}), e.
      split_and!; [apply Hpn|apply split_new| |done]. cbn. by rewrite <- app_assoc.
    + intros Hr. rewrite Ek. destruct (decide (a = q)); [apply insert_non_empty|by apply V5].
    + intros Hr. destruct (V6 Hr) as (q0 & y0 & b0 & Hq0 & Hb0). destruct (split_old _ _ Hq0) as (y' & Hy' & _ & _ & _ & Ek').
      destruct (decide (q0 = q)) as [->|]; [|exists q0, y', b0; by rewrite Ek'].
      assert (y0 = y) as -> by congruence. destruct (decide (b0 = b)) as [->|].
      * assert (a = c) as -> by congruence. exists p, (MkView w (length e) {[b1 := c]}), b1. split; [apply split_new|]. cbn.
        apply lookup_singleton_eq.
      * exists q, y', b0. split; [done|]. by rewrite Ek', lookup_insert_ne.
Qed.

(** No node ends inside the edge. *)
Lemma split_gap a x : A !! a = Some x -> v_path x <> w.
Proof.
  intros Ha E. destruct (path_next _ _ _ _ _ _ _ _ TO Hq Ha E) as (p0 & z & Hp0 & Hz & Hpre). assert (p0 = c) as -> by congruence.
  destruct Hc as [(tid & E1 & _)|(z' & rest & Hz' & E')].
  - pose proof (leaf_dead A r tid TO) as Hd. by rewrite <- E1, Hz in Hd.
  - assert (z = z') as -> by congruence. rewrite E, E' in Hpre. by_length.
Qed.

Lemma split_ok : tree_ok split_edge r.
Proof.
  split.
  - destruct (to_root _ _ TO) as (z & Hz & E & El). destruct (split_old _ _ Hz) as (z' & Hz' & E' & El' & _ & _).
    exists z'. rewrite E', El'; [done|]. intros ->. destruct Hc as [(tid & -> & _)|(z1 & rest & Hz1 & E1)].
    + by rewrite (leaf_dead A (setLeaf tid)) in Hz.
    + assert (z1 = z) as -> by congruence. rewrite E in E1. by_length.
  - apply split_node.
  - intros a a' x x' Ha Ha' E. apply split_inv in Ha as [[-> ->]|(Hn & x0 & Ha & E0 & _)];
      apply split_inv in Ha' as [[-> ->]|(Hn' & x1 & Ha' & E1 & _)]; [done| | |].
    + exfalso. cbn in E. eapply split_gap; [apply Ha'|]. congruence.
    + exfalso. cbn in E. eapply split_gap; [apply Ha|]. congruence.
    + eapply to_inj; [done..|]. congruence.
Qed.

Lemma split_holds k tid : holds split_edge k tid <-> holds A k tid.
Proof.
  destruct split_ne as (Nqc & Nqp & Ncp). split.
  - intros (Ht & Hk & a & x & d & Ha & Hd). split_and!; [done..|]. apply split_inv in Ha as [[-> ->]|(Hn & x0 & Ha & E & Ek)].
    + cbn in Hd. apply lookup_singleton_Some in Hd as [<- E]. exists q, y, b. split; [done|]. by rewrite Hb, E.
    + rewrite Ek in Hd. exists a, x0, d. split; [done|]. destruct (decide (a = q)) as [->|]; [|done].
      apply lookup_insert_Some in Hd as [[_ E1]|[_ Hd]]; [|done]. destruct Hpn as [_ Hl]. by rewrite E1, isLeaf_setLeaf in Hl.
  - intros (Ht & Hk & a & x & d & Ha & Hd). split_and!; [done..|]. destruct (split_old _ _ Ha) as (x' & Hx' & _ & _ & _ & Ek).
    destruct (decide ((a, d) = (q, b))) as [[= -> ->]|Hn].
    + exists p, (MkView w (length e) {[b1 := c]}), b1. split; [apply split_new|]. cbn. rewrite lookup_singleton_eq. congruence.
    + exists a, x', d. split; [done|]. rewrite Ek. destruct (decide (a = q)) as [->|]; [|done]. rewrite lookup_insert_ne; [done|congruence].
Qed.
End split.
End view.
