(* ===== verification/ArtInvariant.v ===== *)
(** The invariant of the radix tree: its heap represents a view that is a tree
    ([ArtTree]); the comparisons of prefixes and the lookup of a key on such a
    tree. *)

From S2P Require Import Prelude NodeBits VersionedLock ListNode ArtNode ArtNodeFacts Art ArtTree.

Local Open Scope Z_scope.

(** * Representation *)

(** The compressed prefix. *)
Definition v_prefix (x : vnode) : list Z := drop (length (v_path x) - v_skip x) (v_path x).

Record node_rep (n : anode) (x : vnode) : Prop := {
  nr_ok : node_ok n;
  nr_kids : kids n = v_kids x;
  nr_level : n_level n = Z.of_nat (length (v_path x));
  nr_count : prefixCount (n_prefix n) = Z.of_nat (v_skip x);
  nr_stored : take maxStoredPrefixLength (v_prefix x) `prefix_of` prefix (n_prefix n);
}.

Definition reps (h : gmap Z anode) (A : gmap Z vnode) : Prop := forall a x, A !! a = Some x -> exists n, h !! a = Some n /\ node_rep n x.

Lemma prefix_of_path x u w : v_path x = u ++ w -> length w = v_skip x -> v_prefix x = w.
Proof. intros E El. unfold v_prefix. rewrite E, length_app, <- El. by replace (length u + length w - length w)%nat with (length u) by lia; rewrite drop_app_length. Qed.

Lemma rep_set_kid n x b p n' : node_rep n x -> node_ok n' -> kids n' = <[b := p]> (kids n) -> same_head n n' -> node_rep n' (set_kid x b p).
Proof. intros [R1 R2 R3 R4 R5] Hn' Hk [Hl Hp]. split; cbn; rewrite ?Hl, ?Hp; try done. by rewrite Hk, R2. Qed.

Lemma mapM_seq_ok (f : nat -> res Z) l : (forall j b, l !! j = Some b -> f j = Ok b) -> mapM f (seq 0 (length l)) = Ok l.
Proof.
  intros Hl. assert (forall s, (forall j b, l !! j = Some b -> f (s + j)%nat = Ok b) -> mapM f (seq s (length l)) = Ok l) as Hg; [|by apply Hg].
  clear Hl. induction l as [|b l IH]; intros s Hl; [done|]. cbn. rewrite <- (Nat.add_0_r s), (Hl 0%nat b eq_refl) at 1. cbn.
  rewrite IH; [done|]. intros j c Hj. rewrite <- (Hl (S j) c Hj). f_equal. lia.
Qed.

(** The root has the largest layout. *)
Definition n256_at (h : gmap Z anode) (r : Z) : Prop := exists n, h !! r = Some n /\ kind (n_body n) = 3%nat.

Lemma n256_put h r a n' : n256_at h r -> (a = r -> kind (n_body n') = 3%nat) -> n256_at (<[a := n']> h) r.
Proof.
  intros (n & Hn & Hk) Ha. destruct (decide (a = r)) as [->|]; [exists n'; rewrite lookup_insert_eq; auto|].
  exists n. by rewrite lookup_insert_ne.
Qed.

Section rep.
Context `{ArtMem}.
Variable loadKey : Z -> Z.

Record art_ok (t : art) (A : gmap Z vnode) : Prop := {
  ak_tree : tree_ok loadKey A (root t);
  ak_reps : reps (heap t) A;
  ak_root : n256_at (heap t) (root t);
  ak_keys : forall k tid, holds loadKey A k tid -> 0 <= k < 2 ^ 64;
}.

Lemma get_n_rep t A a x : art_ok t A -> A !! a = Some x -> exists n, heap t !! a = Some n /\ get_n t a = Ok n /\ node_rep n x.
Proof.
  intros AO Ha. destruct (ak_reps _ _ AO _ _ Ha) as (n & Hn & R). exists n. split_and!; [done| |done].
  destruct (vo_addr _ _ _ _ _ (to_node _ _ _ (ak_tree _ _ AO) _ _ Ha)) as [[? _]%nonnull_nonzero _].
  unfold get_n. rewrite Hn. by destruct (Z.eqb_spec a 0).
Qed.

Lemma key_byte_at k i b w : w ++ [b] `prefix_of` key_bytes k -> i = Z.of_nat (length w) -> key_byte k i = Ok b.
Proof.
  intros [x E]%prefix_split ->. unfold key_byte. rewrite (proj2 (Z.leb_le 0 _)) by lia.
  by rewrite Nat2Z.id, E, list_lookup_middle.
Qed.

(** The next byte of a key. *)
Lemma next_byte w k : w `prefix_of` key_bytes k -> (length w < 8)%nat -> exists b, w ++ [b] `prefix_of` key_bytes k /\ byte b.
Proof.
  intros [x E] Hl. pose proof (key_bytes_length k) as HL. pose proof (key_bytes_byte k) as HF. rewrite E in HL, HF. rewrite length_app in HL.
  destruct x as [|b x]; [cbn in HL; lia|]. exists b. rewrite prefix_split. split; [by exists x|].
  apply Forall_app in HF as [_ HF]. by inversion HF.
Qed.

Lemma next_byte_unique w k b b' : w ++ [b] `prefix_of` key_bytes k -> w ++ [b'] `prefix_of` key_bytes k -> b = b'.
Proof. rewrite !prefix_split. intros [x E] [x' E']. rewrite E in E'. by simplify_list_eq. Qed.

Lemma key_eq_spec k k' : 0 <= k < 2 ^ 64 -> 0 <= k' < 2 ^ 64 -> key_eq k k' = bool_decide (k = k').
Proof. intros Hk Hk'. unfold key_eq. apply bool_decide_ext. split; [by apply key_bytes_inj|by intros ->]. Qed.

(** * Some leaf below a node *)

Lemma kid_path A r a x b p : tree_ok loadKey A r -> A !! a = Some x -> v_kids x !! b = Some p ->
  isLeaf p = true /\ (exists tid, p = setLeaf tid /\ tid_ok tid /\ v_path x ++ [b] `prefix_of` key_bytes (loadKey tid)) \/
  isLeaf p = false /\ (exists y w, A !! p = Some y /\ v_path y = v_path x ++ b :: w /\ length w = v_skip y /\ p <> r).
Proof.
  intros TO Ha Hb. destruct (vo_kids _ _ _ _ _ (to_node _ _ _ TO _ _ Ha) _ _ Hb) as [_ [(tid & -> & Ht & Hw)|(y & w & Hl & Hy & E & El)]].
  - left. split; [apply isLeaf_setLeaf|]. by exists tid.
  - right. split; [done|]. exists y, w. rewrite <- app_assoc in E. split_and!; [done..|]. intros ->.
    destruct (to_root _ _ _ TO) as (z & Hz & Ez & _). simplify_eq. rewrite E in Ez. by destruct (v_path x).
Qed.

Lemma kid_nonnull A r a x b p : tree_ok loadKey A r -> A !! a = Some x -> v_kids x !! b = Some p -> nonnull p.
Proof.
  intros TO Ha Hb. destruct (vo_kids _ _ _ _ _ (to_node _ _ _ TO _ _ Ha) _ _ Hb) as [_ [(tid & -> & _)|(y & w & _ & Hy & _)]].
  - apply nonnull_setLeaf.
  - apply (to_node _ _ _ TO _ _ Hy).
Qed.

Lemma getAnyChildTid_ok t A : art_ok t A -> forall fuel a x, A !! a = Some x -> v_kids x <> ∅ -> (8 <= length (v_path x) + fuel)%nat ->
  exists tid, getAnyChildTid fuel t a = Ok tid /\ v_path x `prefix_of` key_bytes (loadKey tid).
Proof.
  intros AO. pose proof (ak_tree _ _ AO) as TO. induction fuel as [|fuel IH]; intros a x Ha Hne Hf.
  { pose proof (vo_len _ _ _ _ _ (to_node _ _ _ TO _ _ Ha)). lia. }
  cbn [getAnyChildTid]. destruct (get_n_rep _ _ _ _ AO Ha) as (n & _ & -> & R). cbn [mbind res_bind].
  destruct (getAnyChild_kids n (nr_ok _ _ R)) as [b Hb]; [by rewrite (nr_kids _ _ R)|]. rewrite (nr_kids _ _ R) in Hb.
  destruct (nonnull_nonzero _ (kid_nonnull _ _ _ _ _ _ TO Ha Hb)) as [Hnz _]. rewrite (proj2 (Z.eqb_neq _ 0)) by done. cbn.
  destruct (kid_path _ _ _ _ _ _ TO Ha Hb) as [[-> (tid & E & Ht & Hw)]|[-> (y & w & Hy & E & El & Hr)]].
  - exists tid. rewrite E, getLeaf_setLeaf by done. split; [done|]. etrans; [|done]. by apply prefix_app_r.
  - destruct (IH _ y Hy) as (tid & -> & Hw).
    + by apply (to_node _ _ _ TO _ _ Hy).
    + rewrite E, length_app. cbn. lia.
    + exists tid. split; [done|]. etrans; [|done]. rewrite E. by apply prefix_app_r.
Qed.

(** * Comparing prefixes *)

Section prefix.
Context (t : art) (A : gmap Z vnode) (a : Z) (x : vnode) (n : anode) (u w : list Z) (k : Z).
Hypotheses (AO : art_ok t A) (Ha : A !! a = Some x) (R : node_rep n x).
Hypotheses (Ex : v_path x = u ++ w) (Ew : length w = v_skip x) (Hne : v_kids x <> ∅).

Definition key_below (kt : option Z) : Prop := exists kk, kt = Some kk /\ u ++ w `prefix_of` key_bytes kk.

Lemma stored_at i b : w !! i = Some b -> (i < maxStoredPrefixLength)%nat -> prefix (n_prefix n) !! i = Some b.
Proof.
  intros Hb Hi. eapply prefix_lookup_Some; [|apply (nr_stored _ _ R)]. rewrite (prefix_of_path _ _ _ Ex Ew). by rewrite lookup_take_lt.
Qed.

Lemma path_at kk i b : u ++ w `prefix_of` key_bytes kk -> w !! i = Some b -> key_byte kk (Z.of_nat (length u + i)) = Ok b.
Proof.
  intros Hk Hb. apply (key_byte_at _ _ _ (u ++ take i w)); [|rewrite length_app, length_take; apply lookup_lt_Some in Hb; lia].
  etrans; [|done]. rewrite <- app_assoc. apply prefix_app. rewrite <- take_S_r by done. apply prefix_take.
Qed.

Lemma any_below : exists tid, getAnyChildTid depth t a = Ok tid /\ key_below (Some (loadKey tid)).
Proof.
  destruct (getAnyChildTid_ok t A AO depth a x Ha Hne) as (tid & E & Hw); [unfold depth; lia|].
  exists tid. split; [done|]. exists (loadKey tid). by rewrite <- Ex.
Qed.

Lemma load_below i kt : ((maxStoredPrefixLength < i)%nat -> key_below kt) ->
  exists kt', load_at loadKey t a (Z.of_nat i) kt = Ok kt' /\ ((maxStoredPrefixLength <= i)%nat -> key_below kt').
Proof.
  intros Hkt. unfold load_at. destruct (Z.eqb_spec (Z.of_nat i) (Z.of_nat maxStoredPrefixLength)) as [E|E].
  - destruct any_below as (tid & -> & Hb). cbn. by exists (Some (loadKey tid)).
  - exists kt. split; [done|]. intros Hi. apply Hkt. lia.
Qed.

Lemma prefix_byte_ok i b kt : w !! i = Some b -> ((maxStoredPrefixLength <= i)%nat -> key_below kt) ->
  prefix_byte (n_prefix n) kt (Z.of_nat i) (Z.of_nat (length u + i)) = Ok b.
Proof.
  intros Hb Hkt. unfold prefix_byte. destruct (Z.leb_spec (Z.of_nat maxStoredPrefixLength) (Z.of_nat i)).
  - destruct Hkt as (kk & -> & Hk); [lia|]. cbn. by apply path_at.
  - by rewrite Nat2Z.id, (stored_at i b) by (done || lia).
Qed.

Lemma remaining_prefix_ok e b rest kt : w = e ++ b :: rest -> ((maxStoredPrefixLength <= length e)%nat -> key_below kt) ->
  remaining_prefix loadKey t a (n_prefix n) kt (Z.of_nat (length u)) (Z.of_nat (length e)) (Z.of_nat (length u + length e)) =
  Ok (take maxStoredPrefixLength rest).
Proof.
  intros E Hkt. assert (length w = length e + 1 + length rest)%nat as El by (rewrite E, length_app; cbn; lia).
  assert (forall j c, rest !! j = Some c -> w !! (length e + j + 1)%nat = Some c) as Hw.
  { intros j c Hj. rewrite E. rewrite lookup_app_r by lia. replace (length e + j + 1 - length e)%nat with (S j) by lia. done. }
  unfold remaining_prefix. rewrite (nr_count _ _ R), <- Ew. destruct (Z.ltb_spec (Z.of_nat maxStoredPrefixLength) (Z.of_nat (length w))) as [Hl|Hl].
  - assert (exists kk, (if Z.of_nat (length e) <? Z.of_nat maxStoredPrefixLength then tid ← getAnyChildTid depth t a; Ok (loadKey tid) else of_option Uninitialised kt)
      = Ok kk /\ u ++ w `prefix_of` key_bytes kk) as (kk & -> & Hk).
    { destruct (Z.ltb_spec (Z.of_nat (length e)) (Z.of_nat maxStoredPrefixLength)).
      - destruct any_below as (tid & -> & (kk & E1 & Hk)). simplify_eq. by exists (loadKey tid).
      - destruct Hkt as (kk & -> & Hk); [lia|]. by exists kk. }
    cbn [mbind res_bind].
    replace (Z.to_nat _) with (length (take maxStoredPrefixLength rest)) by (rewrite length_take; lia).
    apply mapM_seq_ok. intros j c [Hj Hlt]%lookup_take_Some. rewrite <- (path_at kk (length e + j + 1) c) by (done || by apply Hw). f_equal. lia.
  - replace (Z.to_nat (Z.of_nat (length w) - Z.of_nat (length e) - 1)) with (length rest) by lia.
    rewrite take_ge by lia. apply mapM_seq_ok. intros j c Hj. rewrite Nat2Z.id. rewrite (stored_at _ c); [done|by apply Hw|].
    apply lookup_lt_Some in Hj. lia.
Qed.

(** Where the key leaves the prefix. *)
Inductive prefix_verdict : CheckPrefixPessimisticResult -> Prop :=
  | PV_match : u ++ w `prefix_of` key_bytes k -> prefix_verdict (PMatch (Z.of_nat (length u + length w)))
  | PV_differ e b rest kb : w = e ++ b :: rest -> (u ++ e) ++ [kb] `prefix_of` key_bytes k -> kb <> b ->
      prefix_verdict (PNoMatch (Z.of_nat (length u + length e)) b (take maxStoredPrefixLength rest)).

Lemma pessimistic_loop_ok f : forall e kt fuel, w = e ++ f -> u ++ e `prefix_of` key_bytes k -> (length f <= fuel)%nat ->
  ((maxStoredPrefixLength < length e)%nat -> key_below kt) ->
  exists r, pessimistic_loop loadKey fuel t a (n_prefix n) k (Z.of_nat (length u)) (Z.of_nat (length e)) (Z.of_nat (length u + length e)) kt = Ok r /\
    prefix_verdict r.
Proof.
  induction f as [|b f IH]; intros e kt fuel E Hpre Hf Hkt.
  - exists (PMatch (Z.of_nat (length u + length w))). rewrite app_nil_r in E. subst e. split; [|by constructor].
    destruct fuel; cbn [pessimistic_loop]; rewrite (nr_count _ _ R), <- Ew, (proj2 (Z.leb_le _ _)) by lia; done.
  - assert (length w = length e + S (length f))%nat as El by (rewrite E, length_app; done).
    destruct fuel as [|fuel]; [cbn in Hf; lia|]. cbn [pessimistic_loop]. rewrite (nr_count _ _ R), <- Ew. rewrite (proj2 (Z.leb_gt _ _)) by lia.
    destruct (load_below (length e) kt Hkt) as (kt' & -> & Hkt'). cbn [mbind res_bind].
    rewrite (prefix_byte_ok _ b) by (done || by rewrite E, list_lookup_middle). cbn [mbind res_bind].
    destruct (next_byte (u ++ e) k Hpre) as (kb & Hkb & _).
    { pose proof (vo_len _ _ _ _ _ (to_node _ _ _ (ak_tree _ _ AO) _ _ Ha)) as V. rewrite Ex, !length_app in V. rewrite length_app. lia. }
    rewrite (key_byte_at k _ kb (u ++ e)) by (done || by rewrite length_app). cbn [mbind res_bind].
    destruct (Z.eqb_spec b kb) as [->|Hb]; cbn [negb].
    + destruct (IH (e ++ [kb]) kt' fuel) as (r & Er & Hr); [by rewrite <- app_assoc|by rewrite app_assoc|cbn in Hf; lia|
        rewrite length_app; cbn; intros; apply Hkt'; lia|].
      exists r. split; [|done]. rewrite <- Er, length_app. cbn [length]. f_equal; lia.
    + rewrite (remaining_prefix_ok e b f) by done. cbn [mbind res_bind]. eexists. split; [done|]. by econstructor.
Qed.
End prefix.

Section checks.
Context (t : art) (A : gmap Z vnode) (a : Z) (x : vnode) (n : anode) (u w : list Z) (k : Z).
Hypotheses (AO : art_ok t A) (Ha : A !! a = Some x) (R : node_rep n x).
Hypotheses (Ex : v_path x = u ++ w) (Ew : length w = v_skip x) (Hne : w <> [] -> v_kids x <> ∅).

Lemma path_short : (length u + length w < 8)%nat.
Proof. pose proof (vo_len _ _ _ _ _ (to_node _ _ _ (ak_tree _ _ AO) _ _ Ha)) as V. rewrite Ex, length_app in V. done. Qed.

Lemma level_start : to_u32 (Z.of_nat (length u) + prefixCount (n_prefix n) - n_level n) = 0.
Proof. rewrite (nr_count _ _ R), (nr_level _ _ R), Ex, <- Ew, length_app. rewrite to_u_id; lia. Qed.

Lemma not_skipped : (prefixCount (n_prefix n) + Z.of_nat (length u) <? n_level n) = false.
Proof. rewrite (nr_count _ _ R), (nr_level _ _ R), Ex, <- Ew, length_app. apply Z.ltb_ge. lia. Qed.

Lemma checkPrefixPessimistic_ok : u `prefix_of` key_bytes k ->
  exists r, checkPrefixPessimistic loadKey t a n k (Z.of_nat (length u)) = Ok r /\ prefix_verdict u w k r.
Proof.
  intros Hu. unfold checkPrefixPessimistic. rewrite not_skipped, level_start. rewrite (nr_count _ _ R), <- Ew.
  destruct (Z.ltb_spec 0 (Z.of_nat (length w))) as [Hl|Hl].
  - destruct (pessimistic_loop_ok t A a x n u w k AO Ha R Ex Ew) with (f := w) (e := @nil Z) (kt := @None Z) (fuel := Z.to_nat (Z.of_nat (length w)))
      as (r & Er & Hr); [apply Hne; by destruct w|done|by rewrite app_nil_r|lia|cbn; lia|].
    exists r. split; [|done]. rewrite <- Er. cbn [length]. by rewrite Nat.add_0_r.
  - destruct w; [|cbn in Hl; lia]. eexists. split; [done|]. replace (length u) with (length u + length (@nil Z))%nat at 1 by (cbn; lia).
    constructor. by rewrite app_nil_r.
Qed.

(** The stored bytes against the key. *)
Lemma prefix_loop_ok bs : forall level, (level + length bs <= 8)%nat ->
  exists r, prefix_loop bs k (Z.of_nat level) = Ok r /\
    match r with
    | None => ~ bs `prefix_of` drop level (key_bytes k)
    | Some l => l = Z.of_nat (level + length bs) /\ bs `prefix_of` drop level (key_bytes k)
    end.
Proof.
  induction bs as [|b bs IH]; intros level Hl; cbn [prefix_loop].
  { eexists. split; [done|]. split; [cbn; f_equal; lia|apply prefix_nil]. }
  cbn in Hl. destruct (lookup_lt_is_Some_2 (key_bytes k) level) as [kb Hkb]; [rewrite key_bytes_length; lia|].
  unfold key_byte. rewrite (proj2 (Z.leb_le 0 _)) by lia. rewrite Nat2Z.id, Hkb. cbn [of_option mbind res_bind].
  rewrite (drop_S _ _ _ Hkb). destruct (Z.eqb_spec b kb) as [->|Hn]; cbn [negb].
  - destruct (IH (S level)) as (r & Er & Hr); [lia|]. replace (Z.of_nat level + 1) with (Z.of_nat (S level)) by lia. exists r. split; [done|].
    destruct r as [l|].
    + destruct Hr as [-> Hr]. split; [cbn; f_equal; lia|by apply prefix_cons].
    + intros Hp. apply prefix_cons_inv_2 in Hp. by apply Hr.
  - eexists. split; [done|]. intros Hp. by apply prefix_cons_inv_1 in Hp.
Qed.

Inductive optimistic_verdict : CheckPrefixResult -> Z -> Prop :=
  | OV_differ l : ~ u ++ w `prefix_of` key_bytes k -> optimistic_verdict CNoMatch l
  | OV_match : (u `prefix_of` key_bytes k -> u ++ w `prefix_of` key_bytes k) -> optimistic_verdict CMatch (Z.of_nat (length u + length w))
  | OV_optimistic : optimistic_verdict COptimisticMatch (Z.of_nat (length u + length w)).

Lemma prefix_drop (l : list Z) : u `prefix_of` l -> u ++ w `prefix_of` l <-> w `prefix_of` drop (length u) l.
Proof.
  intros [z ->]. rewrite drop_app_length. split; [|apply prefix_app]. intros [y Ey]. rewrite <- app_assoc in Ey. apply app_inv_head in Ey as ->.
  by exists y.
Qed.

Lemma checkPrefix_ok : exists r l, checkPrefix n k (Z.of_nat (length u)) = Ok (r, l) /\ optimistic_verdict r l.
Proof.
  pose proof path_short as Hs. unfold checkPrefix. rewrite (proj2 (Z.leb_gt (getKeyLen k) (n_level n))) by (rewrite (nr_level _ _ R), Ex, length_app; unfold getKeyLen; lia).
  rewrite not_skipped, level_start. rewrite (nr_count _ _ R), <- Ew. destruct (Z.ltb_spec 0 (Z.of_nat (length w))) as [Hl|Hl].
  - set (bs := take maxStoredPrefixLength w).
    replace (mapM _ _) with (Ok (A := list Z) bs).
    2: { symmetry. replace (Z.to_nat (Z.min _ _ - 0)) with (length bs) by (unfold bs; rewrite length_take; lia). apply mapM_seq_ok. intros j b [Hj Hlt]%lookup_take_Some.
      by rewrite (stored_at _ _ _ _ R Ex Ew j b). }
    cbn [mbind res_bind]. destruct (prefix_loop_ok bs (length u)) as (r & -> & Hr); [unfold bs; rewrite length_take; lia|]. cbn [mbind res_bind].
    destruct r as [l|].
    + destruct Hr as [-> Hr]. destruct (Z.ltb_spec (Z.of_nat maxStoredPrefixLength) (Z.of_nat (length w))).
      * eexists _, _. split; [done|]. replace (_ + _) with (Z.of_nat (length u + length w)) by (unfold bs; rewrite length_take; lia). constructor.
      * eexists _, _. split; [done|]. unfold bs in *. rewrite take_ge in * by lia. constructor. intros Hu. by apply prefix_drop.
    + eexists _, _. split; [done|]. constructor. intros Hp. apply Hr. apply prefix_drop in Hp; [|etrans; [|done]; by apply prefix_app_r].
      etrans; [apply prefix_take|done].
  - assert (length w = 0%nat) as E0 by lia. exists CMatch, (Z.of_nat (length u + length w)). split; [by rewrite E0, Nat.add_0_r|].
    constructor. by rewrite (nil_length_inv _ E0), app_nil_r.
Qed.
End checks.
End rep.
