(* ===== verification/ArtLookup.v ===== *)
(** Lookup of a key in the radix tree gives the pointer stored under it. *)

From S2P Require Import Prelude NodeBits VersionedLock ListNode ArtNode ArtNodeFacts Art ArtTree ArtInvariant.

Local Open Scope Z_scope.

Section lookup.
Context `{ArtMem}.
Variable loadKey : Z -> Z.
Context (t : art) (A : gmap Z vnode) (AO : art_ok loadKey t A).
Notation TO := (ak_tree _ _ _ AO).

(** A live node entered with the string [u]; [w] is its compressed prefix. *)
Record entered (a : Z) (x : vnode) (u w : list Z) : Prop := {
  en_live : A !! a = Some x;
  en_path : v_path x = u ++ w;
  en_skip : length w = v_skip x;
  en_busy : w <> [] -> v_kids x <> ∅;
}.

Lemma entered_root : exists x, entered (root t) x [] [].
Proof. destruct (to_root _ _ _ TO) as (x & Hx & E & El). exists x. by split. Qed.

Lemma entered_kid a x b p y w : A !! a = Some x -> v_kids x !! b = Some p -> A !! p = Some y -> v_path y = v_path x ++ b :: w -> length w = v_skip y ->
  p <> root t -> entered p y (v_path x ++ [b]) w.
Proof. intros Ha Hb Hp E El Hr. split; [done|by rewrite <- app_assoc|done|]. intros _. by apply (to_node _ _ _ TO _ _ Hp). Qed.

(** The child for a byte. *)
Inductive kid_view (a : Z) (x : vnode) (b : Z) : Z -> Prop :=
  | KV_none : v_kids x !! b = None -> kid_view a x b 0
  | KV_leaf tid : v_kids x !! b = Some (setLeaf tid) -> tid_ok tid -> v_path x ++ [b] `prefix_of` key_bytes (loadKey tid) -> kid_view a x b (setLeaf tid)
  | KV_node p y w : v_kids x !! b = Some p -> isLeaf p = false -> p <> 0 -> entered p y (v_path x ++ [b]) w ->
      (length (v_path x) < length (v_path y))%nat -> kid_view a x b p.

Lemma kid_view_ok a x n b : A !! a = Some x -> node_rep n x -> byte b ->
  exists p, getChildPptr n b = Ok p /\ getChild n b = Ok p /\ getVaddr p = p /\ kid_view a x b p.
Proof.
  intros Ha R Hb. exists (default 0 (kids n !! b)). rewrite getChildPptr_kids, getChild_kids by (done || apply R). rewrite (nr_kids _ _ R).
  destruct (v_kids x !! b) as [p|] eqn:Ek; cbn.
  - pose proof (kid_nonnull _ _ _ _ _ _ _ TO Ha Ek) as Hn. destruct (nonnull_nonzero p Hn) as [Hz Hv]. split_and!; [done..|].
    destruct (kid_path _ _ _ _ _ _ _ TO Ha Ek) as [[Hl (tid & -> & Ht & Hw)]|[Hl (y & w & Hy & E & El & Hr)]]; [by econstructor|].
    eapply KV_node; [done..|by eapply entered_kid|]. rewrite E, length_app. cbn. lia.
  - split_and!; [done..|]. by constructor.
Qed.

Lemma entered_short a x u w : entered a x u w -> (length (v_path x) < 8)%nat.
Proof. intros []. by apply (to_node _ _ _ TO a). Qed.

Lemma leaf_held a x b tid : A !! a = Some x -> v_kids x !! b = Some (setLeaf tid) -> tid_ok tid -> holds loadKey A (loadKey tid) tid.
Proof. intros Ha Hb Ht. split_and!; [done..|]. by exists a, x, b. Qed.

Lemma holds_one k tid tid' : holds loadKey A k tid -> holds loadKey A k tid' -> tid = tid'.
Proof.
  intros (Ht & Hk & a & x & b & Ha & Hb) (Ht' & Hk' & a' & x' & b' & Ha' & Hb').
  destruct (kid_path _ _ _ _ _ _ _ TO Ha' Hb') as [[_ (tid2 & E & Ht2 & Hw)]|[Hl _]]; [|by rewrite isLeaf_setLeaf in Hl].
  apply setLeaf_inj in E as <-; [|done..]. rewrite Hk', <- Hk in Hw.
  destruct (leaf_route _ _ _ _ _ _ _ _ _ _ TO Ha Hb Ht Ha' Hw) as [[-> ->]|(p & z & Hp & Hz & _)]; simplify_eq.
  - by apply setLeaf_inj.
  - by rewrite (leaf_dead _ _ _ _ TO) in Hz.
Qed.

(** * Soundness and completeness *)

Variable k : Z.
Hypothesis Hk : 0 <= k < 2 ^ 64.

Lemma checkKey_ok tid a x b : A !! a = Some x -> v_kids x !! b = Some (setLeaf tid) -> tid_ok tid ->
  checkKey loadKey tid k = if bool_decide (loadKey tid = k) then tid else 0.
Proof.
  intros Ha Hb Ht. unfold checkKey. pose proof (leaf_held _ _ _ _ Ha Hb Ht) as Hh. rewrite key_eq_spec by (done || by apply (ak_keys _ _ _ AO) in Hh).
  destruct (decide (k = loadKey tid)); [rewrite !bool_decide_eq_true_2 by done|rewrite !bool_decide_eq_false_2 by done]; done.
Qed.

(** A leaf at the end of eight matched bytes has the key. *)
Lemma full_match tid a x b : A !! a = Some x -> v_kids x !! b = Some (setLeaf tid) -> tid_ok tid -> v_path x ++ [b] `prefix_of` key_bytes k ->
  v_path x ++ [b] `prefix_of` key_bytes (loadKey tid) -> length (v_path x) = 7%nat -> loadKey tid = k.
Proof.
  intros Ha Hb Ht [z Ez] [z' Ez'] Hl. pose proof (leaf_held _ _ _ _ Ha Hb Ht) as Hh. apply (ak_keys _ _ _ AO) in Hh. apply key_bytes_inj; [done..|].
  pose proof (f_equal length Ez) as L. pose proof (f_equal length Ez') as L'. rewrite key_bytes_length, !length_app in L, L'. cbn in L, L'.
  rewrite Ez, Ez'. by rewrite (nil_length_inv z), (nil_length_inv z') by lia.
Qed.

(** The step from a node whose path the key begins with. *)
Lemma on_route a x b tid : A !! a = Some x -> v_path x ++ [b] `prefix_of` key_bytes k -> holds loadKey A k tid ->
  v_kids x !! b = Some (setLeaf tid) \/ exists p y, v_kids x !! b = Some p /\ A !! p = Some y /\ v_path y `prefix_of` key_bytes k.
Proof.
  intros Ha Hw (Ht & <- & a' & x' & b' & Ha' & Hb').
  destruct (leaf_route _ _ _ _ _ _ _ _ _ _ TO Ha' Hb' Ht Ha Hw) as [[-> ->]|Hr]; [|by right]. simplify_eq. by left.
Qed.

Lemma byte_at i : (i < 8)%nat -> exists b, key_byte k (Z.of_nat i) = Ok b /\ byte b /\
  forall w, length w = i -> w `prefix_of` key_bytes k -> w ++ [b] `prefix_of` key_bytes k.
Proof.
  intros Hi. destruct (next_byte (take i (key_bytes k)) k) as (b & Hw & Hb); [apply prefix_take|rewrite length_take, key_bytes_length; lia|].
  exists b. split_and!; [|done|].
  - apply (key_byte_at _ _ _ _ Hw). rewrite length_take, key_bytes_length. lia.
  - intros w Hl [z E]. rewrite E, take_app_length' in Hw by lia. by rewrite E.
Qed.

Definition found_ok (x : vnode) (tid : Z) : Prop :=
  (tid = 0 \/ holds loadKey A k tid) /\ (v_path x `prefix_of` key_bytes k -> forall tid', holds loadKey A k tid' -> tid = tid').

(** The rest of a round, behind the prefix. *)
Definition lookup_rest (fuel : nat) (n : anode) (level : Z) (opt : bool) : res Z :=
  if getKeyLen k <=? level then Ok 0
  else
    kb ← key_byte k level;
    node ← getChild n kb;
    if node =? 0 then Ok 0
    else if isLeaf node then
      let tid := getLeaf node in
      if (level <? getKeyLen k - 1) || opt then Ok (checkKey loadKey tid k) else Ok tid
    else lookup_loop loadKey fuel t k node (level + 1) opt.

Lemma lookup_rest_ok fuel a x n opt : A !! a = Some x -> node_rep n x -> (opt = false -> v_path x `prefix_of` key_bytes k) ->
  (forall p y u w, entered p y u w -> (length (v_path x) < length (v_path y))%nat -> (opt = false -> u `prefix_of` key_bytes k) ->
    exists tid, lookup_loop loadKey fuel t k p (Z.of_nat (length u)) opt = Ok tid /\ found_ok y tid) ->
  exists tid, lookup_rest fuel n (Z.of_nat (length (v_path x))) opt = Ok tid /\ found_ok x tid.
Proof.
  intros Ha R Hopt IH. pose proof (vo_len _ _ _ _ _ (to_node _ _ _ TO _ _ Ha)) as Hs. unfold lookup_rest, getKeyLen.
  rewrite (proj2 (Z.leb_gt 8 _)) by lia. destruct (byte_at (length (v_path x)) Hs) as (b & -> & Hb & Hnext). cbn [mbind res_bind].
  destruct (kid_view_ok a x n b Ha R Hb) as (p & _ & -> & _ & KV). cbn [mbind res_bind].
  destruct KV as [Hno|tid Hl Ht Hw|p y w Hp Hlf Hp0 En Hlen].
  - exists 0. split; [done|]. split; [by left|]. intros Hpre tid' Hh.
    destruct (on_route a x b tid' Ha (Hnext _ eq_refl Hpre) Hh) as [E|(p & y & E & _)]; congruence.
  - destruct (nonnull_nonzero _ (nonnull_setLeaf tid)) as [Hz _]. rewrite (proj2 (Z.eqb_neq (setLeaf tid) 0)), isLeaf_setLeaf, getLeaf_setLeaf by done. cbn zeta.
    assert (forall tid', v_path x `prefix_of` key_bytes k -> holds loadKey A k tid' -> tid = tid') as Hcomp.
    { intros tid' Hpre Hh. destruct (on_route a x b tid' Ha (Hnext _ eq_refl Hpre) Hh) as [E|(p & y & E & Hy & _)].
      - rewrite Hl in E. apply (setLeaf_inj tid tid'); [done|apply Hh|congruence].
      - simplify_eq. by rewrite (leaf_dead _ _ _ _ TO) in Hy. }
    destruct (_ || opt) eqn:Ec.
    + exists (checkKey loadKey tid k). split; [done|]. rewrite (checkKey_ok tid a x b) by done. case_bool_decide as Ek.
      * split; [right; rewrite <- Ek; by eapply leaf_held|]. eauto.
      * split; [by left|]. intros Hpre tid' Hh. destruct Ek. destruct (Hcomp tid' Hpre Hh). apply Hh.
    + exists tid. split; [done|]. apply orb_false_iff in Ec as [Hlv%Z.ltb_ge ->]. specialize (Hopt eq_refl). split; [right|eauto].
      rewrite <- (full_match tid a x b); [by eapply leaf_held|done..|by apply Hnext|done|lia].
  - rewrite (proj2 (Z.eqb_neq p 0)), Hlf by done. destruct (IH p y _ w En Hlen) as (tid & E & Hf).
    { intros Ho. apply Hnext; auto. }
    exists tid. split; [rewrite <- E, length_app; cbn [length]; f_equal; lia|]. destruct Hf as [F1 F2]. split; [done|]. intros Hpre tid' Hh.
    apply F2; [|done]. destruct (on_route a x b tid' Ha (Hnext _ eq_refl Hpre) Hh) as [E'|(p' & y' & E' & Hy' & Hpre')].
    + rewrite Hp in E'. injection E' as ->. by rewrite isLeaf_setLeaf in Hlf.
    + destruct En as [Hy _ _ _]. by simplify_eq.
Qed.

Lemma lookup_loop_ok fuel : forall a x u w opt, entered a x u w -> (8 <= length (v_path x) + fuel)%nat ->
  (opt = false -> u `prefix_of` key_bytes k) ->
  exists tid, lookup_loop loadKey fuel t k a (Z.of_nat (length u)) opt = Ok tid /\ found_ok x tid.
Proof.
  induction fuel as [|fuel IH]; intros a x u w opt En Hf Hopt; pose proof (entered_short _ _ _ _ En) as Hs; [lia|].
  destruct En as [Ha Ex Ew Hne]. cbn [lookup_loop]. destruct (get_n_rep _ _ _ _ _ AO Ha) as (n & _ & -> & R). cbn [mbind res_bind].
  destruct (checkPrefix_ok loadKey t A a x n u w k AO Ha R Ex Ew) as (r & l & -> & V). cbn [mbind res_bind].
  assert (length u + length w = length (v_path x))%nat as El by (by rewrite Ex, length_app).
  destruct V as [l Hno|Hm|]; rewrite ?El.
  - rewrite <- Ex in Hno. exists 0. split; [done|]. split; [by left|done].
  - rewrite <- Ex in Hm. apply (lookup_rest_ok fuel a x n opt); auto. intros p y u' w' En' Hl Ho. apply (IH p y u' w' opt); [done|lia|done].
  - apply (lookup_rest_ok fuel a x n true); [done..|]. intros p y u' w' En' Hl Ho. apply (IH p y u' w' true); [done|lia|done].
Qed.

(** Lookup returns the pointer of the key, 0 when there is none. *)
Lemma lookup_ok : exists tid, lookup loadKey t k = Ok tid /\ (tid = 0 /\ (forall tid', ~ holds loadKey A k tid') \/ holds loadKey A k tid).
Proof.
  destruct entered_root as (x & En). destruct (lookup_loop_ok depth _ _ _ _ false En) as (tid & E & F1 & F2).
  - unfold depth. lia.
  - intros _. apply prefix_nil.
  - exists tid. split; [done|]. destruct F1 as [->|F1]; [left; split; [done|]|by right]. intros tid' Hh.
    destruct (F2 ltac:(destruct En as [_ -> _ _]; apply prefix_nil) tid' Hh). destruct Hh as [Ht _]. unfold tid_ok in Ht. lia.
Qed.
End lookup.
