(* ===== verification/ArtInsert.v ===== *)
(** Insertion into the radix tree keeps it a tree and stores the pointer under
    its key, on every branch: a child is added, a node is replaced by a larger
    one, a leaf or a prefix is split by a new node, or a leaf is replaced. *)

From S2P Require Import Prelude NodeBits VersionedLock ListNode ArtNode ArtNodeFacts Art ArtTree ArtInvariant ArtLookup.

Local Open Scope Z_scope.

(** The allocator: what it hands out is new, not null, and below the bit that
    marks leaves; it succeeds while there are less than [am_heap] nodes. *)
Class ArtMemOk `{ArtMem} := {
  am_heap : nat;
  am_fresh : forall h, am_alloc h <> 0 -> h !! am_alloc h = None /\ nonnull (am_alloc h) /\ isLeaf (am_alloc h) = false;
  am_room : forall h, (size h < am_heap)%nat -> am_alloc h <> 0;
}.

Lemma kids_set_prefix n p : kids (set_prefix n p) = kids n.
Proof. done. Qed.

(** The node put into an edge. *)
Lemma n4_two lv p k1 c1 k2 c2 : byte k1 -> byte k2 -> nonnull c1 -> nonnull c2 -> k1 <> k2 ->
  exists n1 n2, insert_ (new_N4 lv p) k1 c1 = Ok n1 /\ insert_ n1 k2 c2 = Ok n2 /\ node_ok n2 /\ kids n2 = <[k1 := c1]> {[k2 := c2]} /\
    same_head (new_N4 lv p) n2.
Proof.
  intros Hk1 Hk2 Hc1 Hc2 Hne. destruct (empty_node_ok lv p) as (Hn & _). destruct (empty_node_kids lv p) as (Ek & _).
  destruct (insert__ok (new_N4 lv p) k1 c1) as (n1 & E1 & O1 & K1 & S1 & D1 & C1); [done|done|done|done|by rewrite Ek|].
  destruct (insert__ok n1 k2 c2) as (n2 & E2 & O2 & K2 & S2 & _); [done| |done|done|by rewrite K1, Ek, lookup_insert_ne|].
  { unfold room. rewrite (kind_cap _ _ D1), (C1 ltac:(done)). cbn. done. }
  exists n1, n2. split_and!; [done..| |by eapply same_head_trans]. rewrite K2, K1, Ek, insert_empty. by apply insert_insert_ne.
Qed.

(** Two strings of the same length that differ. *)
Lemma diverge {A} `{EqDecision A} (l l' : list A) : length l = length l' -> l <> l' ->
  exists e c c' r r', l = e ++ c :: r /\ l' = e ++ c' :: r' /\ c <> c'.
Proof.
  revert l'. induction l as [|a l IH]; intros [|b l'] Hl Hne; simplify_eq/=. destruct (decide (a = b)) as [->|].
  - destruct (IH l') as (e & c & c' & r & r' & -> & -> & Hc); [lia|congruence|]. by exists (b :: e), c, c', r, r'.
  - by exists [], a, b, l, l'.
Qed.

(** What is left of a 16-bit count behind 16 bits. *)
Lemma shift_cut v : to_u16 (Z.shiftr (to_u16 v) 16) = 0.
Proof.
  unfold to_u. pose proof (Z.mod_pos_bound v (2 ^ 16) ltac:(lia)). rewrite Z.shiftr_div_pow2, (Z.div_small (v mod 2 ^ 16)) by lia. done.
Qed.

Lemma alter_dead {B} (f : B -> B) i (m : gmap Z B) : m !! i = None -> alter f i m = m.
Proof. intros Hi. apply map_eq. intros j. destruct (decide (i = j)) as [<-|]; [by rewrite lookup_alter_eq, Hi|by rewrite lookup_alter_ne]. Qed.

Lemma alter_live {B} (f : B -> B) i (m : gmap Z B) x : m !! i = Some x -> alter f i m = <[i := f x]> m.
Proof.
  intros Hi. apply map_eq. intros j. destruct (decide (i = j)) as [<-|]; [by rewrite lookup_alter_eq, Hi, lookup_insert_eq|].
  by rewrite lookup_alter_ne, lookup_insert_ne.
Qed.

Lemma common_length_ok k key e : forall v c c' r r' fuel, key_bytes k = v ++ e ++ c :: r -> key_bytes key = v ++ e ++ c' :: r' -> c <> c' ->
  (length e < fuel)%nat -> common_length fuel k key (Z.of_nat (length v)) = Ok (length e).
Proof.
  assert (forall k v c r, key_bytes k = v ++ c :: r -> key_byte k (Z.of_nat (length v)) = Ok c) as Hat.
  { intros k0 v c r E. apply (key_byte_at _ _ _ v); [|done]. apply prefix_split. by exists r. }
  induction e as [|b e IH]; intros v c c' r r' fuel E E' Hne Hf; (destruct fuel as [|fuel]; [cbn in Hf; lia|]); cbn [common_length app] in *.
  - rewrite (Hat _ _ _ _ E), (Hat _ _ _ _ E'). cbn [mbind res_bind]. by rewrite (proj2 (Z.eqb_neq c' c)).
  - rewrite (Hat _ _ _ _ E), (Hat _ _ _ _ E'). cbn [mbind res_bind]. rewrite Z.eqb_refl.
    replace (Z.of_nat (length v) + 1) with (Z.of_nat (length (v ++ [b]))) by (rewrite length_app; cbn; lia).
    rewrite (IH (v ++ [b]) c c' r r'); [done|by rewrite <- app_assoc|by rewrite <- app_assoc|done|cbn in Hf; lia].
Qed.

Lemma setPrefix_ok l w : take maxStoredPrefixLength w `prefix_of` l ->
  exists s, setPrefix l (Z.of_nat (length w)) = Ok (MkPrefix (Z.of_nat (length w)) s) /\ take maxStoredPrefixLength w `prefix_of` s.
Proof.
  intros Hl. unfold setPrefix. destruct (Z.ltb_spec 0 (Z.of_nat (length w))).
  - pose proof (prefix_length _ _ Hl) as Hlen. rewrite length_take in Hlen. rewrite bool_decide_eq_true_2 by lia. eexists. split; [done|].
    destruct Hl as [z ->]. rewrite take_app_le by (rewrite length_take; lia). rewrite (take_ge (take _ w)) by (rewrite length_take; lia). done.
  - destruct w; [|cbn in *; lia]. exists []. split; [done|]. done.
Qed.

Lemma heap_log_done i t : heap (log_done i t) = heap t.
Proof. unfold log_done. by destruct (oplogs t !! i). Qed.

Lemma root_log_done i t : root (log_done i t) = root t.
Proof. unfold log_done. by destruct (oplogs t !! i). Qed.

(** Each node of the view has its node of the heap. *)
Ltac solve_reps R :=
  let c := fresh "c" in let z := fresh "z" in let Hz := fresh "Hz" in
  intros c z Hz;
  repeat match type of Hz with
  | <[_ := _]> _ !! _ = _ =>
      apply lookup_insert_Some in Hz as [[<- <-]|[? Hz]]; 
        [first [contradiction|eexists; split; [rewrite ?lookup_insert_ne by done; apply lookup_insert_eq|assumption]]|]
  | delete _ _ !! _ = _ => apply lookup_delete_Some in Hz as [? Hz]
  end;
  rewrite ?lookup_insert_ne by done; exact (R _ _ Hz).

(** At most the new node is added. *)
Definition grows `{ArtMem} (h h' : gmap Z anode) : Prop := forall c, is_Some (h' !! c) -> c = am_alloc h \/ is_Some (h !! c).

Lemma grows_size `{ArtMem} h h' : grows h h' -> (size h' <= S (size h))%nat.
Proof.
  intros Hg. rewrite <- !size_dom. assert (dom h' ⊆ {[am_alloc h]} ∪ dom h) as Hs.
  { intros c. rewrite elem_of_union, elem_of_singleton, !elem_of_dom. apply Hg. }
  apply subseteq_size in Hs. rewrite size_union_alt, size_singleton in Hs.
  pose proof (subseteq_size (dom h ∖ {[am_alloc h]}) (dom h) ltac:(set_solver)). lia.
Qed.

Ltac solve_grows :=
  let c := fresh "c" in let n := fresh "n" in let Hc := fresh "Hc" in
  intros c [n Hc];
  repeat match type of Hc with
  | <[_ := _]> _ !! _ = _ => apply lookup_insert_Some in Hc as [[<- _]|[_ Hc]]; [first [left; reflexivity|right; eexists; eassumption]|]
  end;
  right; eexists; eassumption.

Section insert.
Context `{ArtMemOk}.
Variable loadKey : Z -> Z.
Context (t : art) (A : gmap Z vnode) (AO : art_ok loadKey t A).
Context (k tid : Z) (Hk : 0 <= k < 2 ^ 64) (Ht : tid_ok tid) (Hload : loadKey tid = k) (Hmem : am_alloc (heap t) <> 0).
Notation TO := (ak_tree _ _ _ AO).
Notation p := (am_alloc (heap t)).

(** What the tree holds afterwards. *)
Definition stored (A' : gmap Z vnode) : Prop := forall k' tid', holds loadKey A' k' tid' <-> k' = k /\ tid' = tid \/ k' <> k /\ holds loadKey A k' tid'.

Lemma stored_ok t' A' : root t' = root t -> tree_ok loadKey A' (root t) -> reps (heap t') A' -> n256_at (heap t') (root t) -> stored A' -> art_ok loadKey t' A'.
Proof.
  intros Er TO' R' Hr St. split; rewrite ?Er; try done. intros k' tid' [[-> _]|[_ Hh]]%St; [done|]. by eapply ak_keys.
Qed.

(** A leaf for the key is set in a node. *)
Lemma set_stored A1 a x b : tree_ok loadKey A1 (root t) -> (forall k' tid', holds loadKey A1 k' tid' <-> holds loadKey A k' tid') -> A1 !! a = Some x ->
  v_path x ++ [b] `prefix_of` key_bytes k -> free_for loadKey x b tid ->
  tree_ok loadKey (<[a := set_kid x b (setLeaf tid)]> A1) (root t) /\ stored (<[a := set_kid x b (setLeaf tid)]> A1).
Proof.
  intros TO1 Hs Ha Hw Hf. rewrite <- Hload in Hw. split; [by apply set_leaf_ok|].
  intros k' tid'. rewrite (set_leaf_holds _ _ _ _ _ _ _ TO1) by done. by rewrite Hload, Hs.
Qed.

Lemma fresh_addr : A !! p = None /\ nonnull p /\ isLeaf p = false /\ p <> root t.
Proof.
  destruct (am_fresh (heap t) Hmem) as (Hn & Hnn & Hl). split_and!; [|done..|].
  - apply eq_None_not_Some. intros [x Hx]. destruct (ak_reps _ _ _ AO _ _ Hx) as (n & ? & _). congruence.
  - intros E. destruct (ak_root _ _ _ AO) as (n & ? & _). congruence.
Qed.

Lemma alloc_node_eq logIdx old n : alloc_node t logIdx old n = Ok (p, put_n p n (set_log logIdx (MkLog ArtInsert old p) t)).
Proof.
  unfold alloc_node. destruct fresh_addr as (_ & Hn & _). destruct (nonnull_nonzero _ Hn) as [Hz Hv].
  rewrite Hv. by rewrite (proj2 (Z.eqb_neq p 0)).
Qed.

Lemma change_child_ok t1 q n y b c : get_n t1 q = Ok n -> node_rep n y -> is_Some (v_kids y !! b) -> nonnull c ->
  exists n', change_child t1 q b c = Ok (put_n q n' t1) /\ node_rep n' (set_kid y b c) /\ kind (n_body n') = kind (n_body n).
Proof.
  intros Hq R Hb Hc. unfold change_child. rewrite Hq. cbn [mbind res_bind].
  destruct (change_ok n b c) as (n' & -> & O' & K' & S' & D'); [apply R|done|by rewrite (nr_kids _ _ R)|]. cbn [mbind res_bind].
  exists n'. split_and!; [done| |done]. by eapply rep_set_kid.
Qed.

Lemma get_n_put t1 a q n n0 : a <> q -> get_n t1 q = Ok n -> get_n (put_n a n0 t1) q = Ok n.
Proof. intros Hne. unfold get_n. destruct (q =? 0); [done|]. cbn. by rewrite lookup_insert_ne. Qed.

Definition inserted_ok (o : res art) : Prop :=
  exists t' A', o = Ok t' /\ root t' = root t /\ grows (heap t) (heap t') /\ art_ok loadKey t' A' /\ stored A'.

(** * In place *)

Lemma put_leaf a x n b n' : A !! a = Some x -> heap t !! a = Some n -> node_rep n x -> v_path x ++ [b] `prefix_of` key_bytes k ->
  free_for loadKey x b tid -> node_rep n' (set_kid x b (setLeaf tid)) -> kind (n_body n') = kind (n_body n) -> inserted_ok (Ok (put_n a n' t)).
Proof.
  intros Ha Hn R Hw Hf R' Hkd. destruct (set_stored A a x b TO) as [TO' St]; [done..|].
  eexists _, _. split; [done|]. split; [done|]. split; [cbn; solve_grows|]. split; [|done]. apply stored_ok; [done|done| | |done]; cbn.
  - pose proof (ak_reps _ _ _ AO) as RA. solve_reps RA.
  - apply n256_put; [apply AO|]. intros ->. destruct (ak_root _ _ _ AO) as (n0 & ? & ?). congruence.
Qed.

Lemma replace_leaf a x n b tid' : A !! a = Some x -> heap t !! a = Some n -> node_rep n x -> v_path x ++ [b] `prefix_of` key_bytes k ->
  v_kids x !! b = Some (setLeaf tid') -> tid_ok tid' -> loadKey tid' = k -> inserted_ok (change_child t a b (setLeaf tid)).
Proof.
  intros Ha Hn R Hw Hb Ht' Hk'. destruct (change_child_ok t a n x b (setLeaf tid)) as (n' & -> & R' & Hkd); [|done|by eexists|apply nonnull_setLeaf|].
  - destruct (get_n_rep _ _ _ _ _ AO Ha) as (n1 & ? & -> & _). congruence.
  - apply (put_leaf a x n b); [done..| |done|done]. intros c Hc. rewrite Hb in Hc. injection Hc as <-. exists tid'. by rewrite Hload.
Qed.

(** * A larger node *)

(** The edge to a node. *)
Definition edge_to (a q b : Z) (y : vnode) : Prop := A !! q = Some y /\ v_kids y !! b = Some a.

Lemma grow_ok a x n q y pk b : A !! a = Some x -> heap t !! a = Some n -> node_rep n x -> edge_to a q pk y ->
  v_path x ++ [b] `prefix_of` key_bytes k -> v_kids x !! b = None -> byte b ->
  forall log old, inserted_ok (
    '(p, t1) ← alloc_node t log old (bigger n);
    nBig1 ← copyTo n (bigger n);
    nBig2 ← insert_ nBig1 b (setLeaf tid);
    t2 ← change_child (put_n p nBig2 t1) q pk p;
    Ok (log_done log t2)).
Proof.
  intros Ha Hn R [Hq Hpk] Hw Hb Hbb log old. pose proof TO as HT. destruct fresh_addr as (Fp & Fn & Fl & Fr).
  rewrite alloc_node_eq. cbn [mbind res_bind].
  destruct (copyTo_bigger n (nr_ok _ _ R)) as (n1 & -> & O1 & K1 & S1 & Rm1). cbn [mbind res_bind].
  destruct (insert__ok n1 b (setLeaf tid)) as (n2 & -> & O2 & K2 & S2 & _); [done..|apply nonnull_setLeaf|by rewrite K1, (nr_kids _ _ R)|]. cbn [mbind res_bind].
  assert (node_rep n2 (set_kid x b (setLeaf tid))) as R2.
  { eapply (rep_set_kid n); [done|done|by rewrite K2, K1|by eapply same_head_trans]. }
  destruct (move_ne _ _ _ _ _ _ _ _ _ TO Ha Hq Hpk Fp) as (Nqa & Nqp & Nap & Nar).
  destruct (get_n_rep _ _ _ _ _ AO Hq) as (nq & Hnq & Gq & Rq).
  destruct (change_child_ok (put_n p n2 (put_n p (bigger n) (set_log log (MkLog ArtInsert old p) t))) q nq y pk p) as (nq' & -> & Rq' & Dq); [|done|by eexists|done|].
  { apply get_n_put; [done|]. by apply get_n_put. }
  cbn [mbind res_bind]. destruct (set_stored (moved A a q pk p x y) p x b) as [TO' St]; [| |by eapply moved_new| | |].
  - by eapply move_ok.
  - intros. by eapply move_holds.
  - done.
  - intros c Hc. congruence.
  - eexists _, _. split; [done|]. split; [by rewrite root_log_done|]. split; [rewrite heap_log_done; cbn; solve_grows|]. split; [|done].
    apply stored_ok; [by rewrite root_log_done|done| | |done].
    + replace (heap (log_done log _)) with (<[q := nq']> (<[p := n2]> (<[p := bigger n]> (heap t)))) by (by rewrite heap_log_done).
      unfold moved. pose proof (ak_reps _ _ _ AO) as RA. solve_reps RA.
    + replace (heap (log_done log _)) with (<[q := nq']> (<[p := n2]> (<[p := bigger n]> (heap t)))) by (by rewrite heap_log_done).
      apply n256_put; [apply n256_put; [apply n256_put; [apply AO|done]|done]|]. intros ->.
      destruct (ak_root _ _ _ AO) as (n0 & ? & ?). congruence.
Qed.

Lemma insertGrow_ok a x n q y pk b : A !! a = Some x -> heap t !! a = Some n -> node_rep n x -> edge_to a q pk y ->
  v_path x ++ [b] `prefix_of` key_bytes k -> v_kids x !! b = None -> byte b -> inserted_ok (insertGrow t a n (bigger n) q pk b (setLeaf tid)).
Proof.
  intros Ha Hn R He Hw Hb Hbb. unfold insertGrow. destruct (decide (compactCount n < cap (n_body n))) as [Hr|Hr].
  - destruct (n_insert_ok n b (setLeaf tid)) as (n' & -> & O' & K' & S' & D' & _); [apply R|done|done|apply nonnull_setLeaf|by rewrite (nr_kids _ _ R)|].
    cbn [mbind res_bind]. apply (put_leaf a x n b); [done..|intros c Hc; congruence|by eapply rep_set_kid|done].
  - rewrite n_insert_full by (done || apply R). cbn [mbind res_bind]. destruct He as [Hq Hpk].
    destruct (get_n_rep _ _ _ _ _ AO Hq) as (nq & _ & -> & _). cbn [mbind res_bind]. by apply (grow_ok a x n q y pk b).
Qed.

(** The counts of a node without removals never ask for a compaction. *)
Lemma insertAndUnlock_ok a x q pk b : A !! a = Some x -> a = root t \/ (exists y, edge_to a q pk y) ->
  v_path x ++ [b] `prefix_of` key_bytes k -> v_kids x !! b = None -> byte b -> inserted_ok (insertAndUnlock t a q pk b (setLeaf tid)).
Proof.
  intros Ha He Hw Hb Hbb. unfold insertAndUnlock. destruct (get_n_rep _ _ _ _ _ AO Ha) as (n & Hn & -> & R). cbn [mbind res_bind].
  assert (kind (n_body n) <> 3%nat -> exists y, edge_to a q pk y) as He'.
  { intros Hd. destruct He as [->|He]; [|done]. destruct (ak_root _ _ _ AO) as (n0 & ? & ?). congruence. }
  assert (kind (n_body n) <> 3%nat -> inserted_ok (insertGrow t a n (bigger n) q pk b (setLeaf tid))) as Hgrow.
  { intros Hd. destruct (He' Hd) as [y Hy]. by apply (insertGrow_ok a x n q y). }
  pose proof (nr_ok _ _ R) as O. unfold node_ok in O. unfold bigger in Hgrow.
  destruct (n_body n) as [ks cs|ks cs|ix cs|cs] eqn:Eb; cbn [kind] in *.
  - destruct O as (cc & Hc & _). change (to_u16 (Z.shiftr (countValues n) 16)) with (compactCount n).
    change (to_u16 (countValues n)) with (getCount n). rewrite (counted_compact _ _ Hc), (counted_count _ _ Hc).
    destruct (Z.eqb_spec (Z.of_nat cc) 4) as [->|]; cbn [andb]; by apply Hgrow.
  - replace (to_u16 (Z.shiftr (to_u16 (countValues n)) 16)) with 0; [by apply Hgrow|]. symmetry. apply shift_cut.
  - replace (to_u16 (Z.shiftr (to_u16 (countValues n)) 16)) with 0; [by apply Hgrow|]. symmetry. apply shift_cut.
  - destruct (insert__ok n b (setLeaf tid)) as (n' & -> & O' & K' & S' & D' & _); [apply R| |done|apply nonnull_setLeaf|by rewrite (nr_kids _ _ R)|].
    { apply (room_all _ 0). by rewrite Eb. }
    cbn [mbind res_bind]. apply (put_leaf a x n b); [done..|intros c Hc; congruence|by eapply rep_set_kid|done].
Qed.

(** * A node in an edge *)

Lemma split_stored q y b c b1 e kb :
  A !! q = Some y -> v_kids y !! b = Some c ->
  leaf_kid loadKey ((v_path y ++ b :: e) ++ [b1]) c \/ (exists z rest, A !! c = Some z /\ v_path z = (v_path y ++ b :: e) ++ b1 :: rest) ->
  (v_path y ++ b :: e) ++ [kb] `prefix_of` key_bytes k -> kb <> b1 ->
  let x' := set_kid (MkView (v_path y ++ b :: e) (length e) {[b1 := c]}) kb (setLeaf tid) in
  tree_ok loadKey (<[p := x']> (split_edge A q b c b1 p e y)) (root t) /\ stored (<[p := x']> (split_edge A q b c b1 p e y)).
Proof.
  intros Hq Hb Hc Hw Hne x'. pose proof TO as HT. destruct fresh_addr as (Fp & Fn & Fl & Fr). apply set_stored.
  - by eapply split_ok.
  - intros. by eapply split_holds.
  - by eapply split_new.
  - done.
  - intros c' Hc'. cbn in Hc'. by rewrite lookup_singleton_ne in Hc'.
Qed.

Lemma split_rep n w e b1 c kb lv pf : node_ok n -> kids n = <[kb := setLeaf tid]> {[b1 := c]} -> same_head (new_N4 lv pf) n ->
  lv = Z.of_nat (length w + length e) -> prefixCount pf = Z.of_nat (length e) -> take maxStoredPrefixLength e `prefix_of` prefix pf ->
  node_rep n (set_kid (MkView (w ++ e) (length e) {[b1 := c]}) kb (setLeaf tid)).
Proof.
  intros O K [Sl Sp] Hl Hc Hs. split; [done|done| | |].
  - rewrite Sl. cbn. by rewrite Hl, length_app.
  - by rewrite Sp.
  - rewrite Sp, (prefix_of_path _ w e); done.
Qed.

Lemma key_byte_split kk w b i : (exists r, key_bytes kk = w ++ b :: r) -> i = Z.of_nat (length w) -> key_byte kk i = Ok b.
Proof. intros Hr. apply (key_byte_at kk i b w). by apply prefix_split. Qed.

Lemma split_leaf_ok a x b tid' : A !! a = Some x -> v_path x ++ [b] `prefix_of` key_bytes k -> byte b ->
  v_kids x !! b = Some (setLeaf tid') -> tid_ok tid' -> v_path x ++ [b] `prefix_of` key_bytes (loadKey tid') -> loadKey tid' <> k ->
  inserted_ok (split_leaf t a k tid (loadKey tid') (Z.of_nat (length (v_path x)) + 1) (setLeaf tid')).
Proof.
  intros Ha Hw Hbb Hb Ht' Hw' Hne. pose proof TO as HT. destruct fresh_addr as (Fp & Fn & Fl & Fr).
  pose proof (leaf_held loadKey A a x b tid' Ha Hb Ht') as Hh. pose proof (ak_keys _ _ _ AO _ _ Hh) as Hk'.
  set (key := loadKey tid') in *. remember (v_path x ++ [b]) as v eqn:Edv.
  destruct Hw as [l El]. destruct Hw' as [l' El'].
  destruct (diverge l l') as (e & kb & b1 & r & r' & -> & -> & Hd).
  { pose proof (f_equal length El) as L. pose proof (f_equal length El') as L'. rewrite key_bytes_length, length_app in L, L'. lia. }
  { intros ->. apply Hne, key_bytes_inj; [done..|]. congruence. }
  assert (length v = S (length (v_path x))) as Lv by (rewrite Edv, length_app; cbn; lia).
  assert (length v + length e < 8)%nat as Hs.
  { pose proof (f_equal length El) as L. rewrite key_bytes_length, !length_app in L. cbn in L. lia. }
  assert (byte kb /\ byte b1) as [Hkb Hb1].
  { pose proof (key_bytes_byte k) as F. pose proof (key_bytes_byte key) as F'. rewrite El in F. rewrite El' in F'.
    rewrite !Forall_app, Forall_cons in F, F'. tauto. }
  unfold split_leaf, getKeyLen. rewrite (proj2 (Z.ltb_lt _ 8)) by lia. cbn [assert_ mbind res_bind].
  replace (Z.of_nat (length (v_path x)) + 1) with (Z.of_nat (length v)) by lia.
  rewrite (common_length_ok k key e v kb b1 r r') by (done || lia). cbn [mbind res_bind].
  rewrite Nat2Z.id, El, drop_app_length.
  destruct (setPrefix_ok (e ++ kb :: r) e) as (s & -> & Hs'); [etrans; [apply prefix_take|by apply prefix_app_r]|]. cbn [mbind res_bind].
  rewrite alloc_node_eq. cbn [mbind res_bind].
  rewrite (key_byte_split k (v ++ e) kb (Z.of_nat (length v) + Z.of_nat (length e))) by (first [by exists r; rewrite El; apply app_assoc|rewrite length_app; lia]). cbn [mbind res_bind].
  destruct (n4_two (Z.of_nat (length v) + Z.of_nat (length e)) (MkPrefix (Z.of_nat (length e)) s) kb (setLeaf tid) b1 (setLeaf tid'))
    as (n1 & n2 & -> & E2 & O2 & K2 & S2); [done|done|apply nonnull_setLeaf|apply nonnull_setLeaf|done|]. cbn [mbind res_bind].
  rewrite (key_byte_split key (v ++ e) b1 (Z.of_nat (length v) + Z.of_nat (length e))) by (first [by exists r'; rewrite El'; apply app_assoc|rewrite length_app; lia]). cbn [mbind res_bind].
  rewrite E2. cbn [mbind res_bind].
  rewrite (key_byte_split k (v_path x) b) by (first [by exists (e ++ kb :: r); rewrite El, Edv, <- app_assoc|lia]). cbn [mbind res_bind].
  destruct (get_n_rep _ _ _ _ _ AO Ha) as (n & Hn & Gn & R).
  match goal with |- context [put_n p n2 ?t1] => set (t2 := put_n p n2 t1) end.
  assert (a <> p) as Nap by congruence.
  destruct (change_child_ok t2 a n x b p) as (n' & -> & R' & D'); [|done|by eexists|done|].
  { apply get_n_put; [done|]. apply (get_n_put (set_log _ _ t)); done. }
  cbn [mbind res_bind]. assert (v ++ e = v_path x ++ b :: e) as Ev by (by rewrite Edv, <- app_assoc).
  destruct (split_stored a x b (setLeaf tid') b1 e kb) as [TO' St]; [done|done| | |done|].
  { left. exists tid'. split_and!; [done..|]. apply prefix_split. exists r'. rewrite <- Ev. fold key. rewrite El'. apply app_assoc. }
  { apply prefix_split. exists r. rewrite <- Ev, El. apply app_assoc. }
  assert (node_rep n2 (set_kid (MkView (v_path x ++ b :: e) (length e) {[b1 := setLeaf tid']}) kb (setLeaf tid))) as R2.
  { rewrite <- Ev. eapply split_rep; [done|done|done|lia|done|done]. }
  eexists _, _. split; [done|]. split; [by rewrite root_log_done|]. split; [rewrite heap_log_done; cbn; solve_grows|]. split; [|done].
  assert (heap (log_done (oplogsCount (put_n a n' t2)) (put_n a n' t2)) =
    <[a := n']> (<[p := n2]> (<[p := new_N4 (Z.of_nat (length v) + Z.of_nat (length e)) (MkPrefix (Z.of_nat (length e)) s)]> (heap t)))) as Eh
    by (by rewrite heap_log_done).
  apply stored_ok; [by rewrite root_log_done|done| | |done]; rewrite Eh.
  - unfold split_edge. rewrite alter_dead by (by eapply leaf_dead). pose proof (ak_reps _ _ _ AO) as RA. solve_reps RA.
  - apply n256_put; [apply n256_put; [apply n256_put; [apply AO|done]|done]|]. intros ->.
    destruct (ak_root _ _ _ AO) as (n0 & ? & ?). congruence.
Qed.

(** The node below keeps what is left of its prefix. *)
Lemma shorten_rep n x y pk e b rest pf : node_rep n x -> v_path x = (v_path y ++ pk :: e) ++ b :: rest ->
  prefixCount pf = Z.of_nat (length rest) -> take maxStoredPrefixLength rest `prefix_of` prefix pf ->
  node_rep (set_prefix n pf) (shorten pk e y x).
Proof.
  intros R Ex Hc Hs. assert (v_skip (shorten pk e y x) = length rest) as El.
  { cbn [shorten v_skip]. rewrite Ex, (length_app _ (b :: rest)). cbn [length]. lia. }
  split.
  - apply R.
  - apply R.
  - apply R.
  - cbn [set_prefix n_prefix]. by rewrite Hc, El.
  - rewrite (prefix_of_path _ ((v_path y ++ pk :: e) ++ [b]) rest); [done| |done]. cbn [shorten v_path]. rewrite Ex. by rewrite <- (app_assoc _ [b]).
Qed.

Lemma split_prefix_ok a x n q y pk e b rest kb : A !! a = Some x -> heap t !! a = Some n -> node_rep n x -> edge_to a q pk y ->
  v_path x = (v_path y ++ [pk]) ++ e ++ b :: rest -> v_skip x = length (e ++ b :: rest) ->
  ((v_path y ++ [pk]) ++ e) ++ [kb] `prefix_of` key_bytes k -> kb <> b ->
  inserted_ok (split_prefix t a n q pk k tid (Z.of_nat (length (v_path y ++ [pk]))) (Z.of_nat (length (v_path y ++ [pk]) + length e)) b
    (take maxStoredPrefixLength rest)).
Proof.
  intros Ha Hn R [Hq Hpk] Ex Es Hw Hd. pose proof TO as HT. destruct fresh_addr as (Fp & Fn & Fl & Fr).
  remember (v_path y ++ [pk]) as u eqn:Eu. assert (u ++ e = v_path y ++ pk :: e) as Ev by (by rewrite Eu, <- app_assoc).
  assert (v_path x = (v_path y ++ pk :: e) ++ b :: rest) as Ex' by (by rewrite Ex, <- Ev, <- app_assoc).
  destruct (to_node _ _ _ HT _ _ Ha) as [V1 V2 [V3 V3'] _ _ _].
  assert (byte b) as Hb. { rewrite Ex, !Forall_app, Forall_cons in V2. tauto. }
  assert (byte kb) as Hkb. { destruct Hw as [z Ez]. pose proof (key_bytes_byte k) as F. rewrite Ez, !Forall_app, Forall_cons in F. tauto. }
  assert (length u + length e < 8)%nat as Hs. { rewrite Ex, !length_app in V1. lia. }
  unfold split_prefix, getKeyLen. rewrite (proj2 (Z.ltb_lt _ 8)) by lia. cbn [assert_ mbind res_bind].
  rewrite alloc_node_eq. cbn [mbind res_bind].
  rewrite (key_byte_at k _ kb (u ++ e)) by (done || by rewrite length_app). cbn [mbind res_bind].
  set (pf := MkPrefix (Z.of_nat (length u + length e) - Z.of_nat (length u)) (prefix (n_prefix n))).
  destruct (n4_two (Z.of_nat (length u + length e)) pf kb (setLeaf tid) b a) as (n1 & n2 & -> & E2 & O2 & K2 & S2); [done|done|apply nonnull_setLeaf|done|done|].
  cbn [mbind res_bind]. rewrite E2. cbn [mbind res_bind].
  destruct (get_n_rep _ _ _ _ _ AO Hq) as (nq & Hnq & Gq & Rq).
  match goal with |- context [put_n p n2 ?t1] => set (t2 := put_n p n2 t1) end.
  assert (leaf_kid loadKey ((v_path y ++ pk :: e) ++ [b]) a \/ (exists z rest0, A !! a = Some z /\ v_path z = (v_path y ++ pk :: e) ++ b :: rest0)) as Hc
    by (right; by exists x, rest).
  destruct (split_ne _ _ _ _ _ _ _ _ _ _ HT Hq Hpk Hc Fp (conj Fn Fl)) as (Nqa & Nqp & Nap).
  destruct (change_child_ok t2 q nq y pk p) as (nq' & -> & Rq' & Dq); [|done|by eexists|done|].
  { apply get_n_put; [done|]. apply (get_n_put (set_log _ _ t)); done. }
  cbn [mbind res_bind]. rewrite (nr_count _ _ R), Es.
  replace (Z.of_nat (length (e ++ b :: rest)) - (Z.of_nat (length u + length e) - Z.of_nat (length u) + 1)) with (Z.of_nat (length rest))
    by (rewrite length_app; cbn [length]; lia).
  destruct (setPrefix_ok (take maxStoredPrefixLength rest) rest) as (s & -> & Hs'); [done|]. cbn [mbind res_bind].
  match goal with |- context [get_n ?t3 a] => set (t4 := t3) end.
  assert (heap t4 = <[q := nq']> (<[p := n2]> (<[p := new_N4 (Z.of_nat (length u + length e)) pf]> (heap t)))) as Eh by (unfold t4; by rewrite heap_log_done).
  assert (get_n t4 a = Ok n) as ->.
  { unfold get_n. rewrite Eh, !lookup_insert_ne, Hn by done. destruct (nonnull_nonzero _ V3) as [? _]. by rewrite (proj2 (Z.eqb_neq a 0)). }
  cbn [mbind res_bind]. destruct (split_stored q y pk a b e kb) as [TO' St]; [done|done|done|by rewrite <- Ev|done|].
  assert (node_rep n2 (set_kid (MkView (v_path y ++ pk :: e) (length e) {[b := a]}) kb (setLeaf tid))) as R2.
  { rewrite <- Ev. eapply split_rep; [done|done|done|done|cbn; lia|]. cbn. etrans; [|apply (nr_stored _ _ R)].
    rewrite (prefix_of_path x u (e ++ b :: rest)) by done. rewrite take_app. by apply prefix_app_r. }
  assert (node_rep (set_prefix n (MkPrefix (Z.of_nat (length rest)) s)) (shorten pk e y x)) as Ra by (by eapply shorten_rep).
  assert (root t4 = root t) as Er by (unfold t4; by rewrite root_log_done).
  eexists _, _. split; [done|]. split; [done|]. split; [cbn [put_n set_heap heap]; rewrite Eh; solve_grows|]. split; [|done].
  apply stored_ok; [done|done| | |done]; cbn [put_n set_heap heap]; rewrite Eh.
  - unfold split_edge. rewrite (alter_live _ _ _ x) by done. pose proof (ak_reps _ _ _ AO) as RA. solve_reps RA.
  - apply n256_put; [apply n256_put; [apply n256_put; [apply n256_put; [apply AO|done]|done]|]|]; intros ->; destruct (ak_root _ _ _ AO) as (n0 & ? & ?).
    + congruence.
    + exfalso. destruct (to_root _ _ _ HT) as (z & Hz & Ez & _). assert (z = x) as -> by congruence. rewrite Ex' in Ez. by destruct (v_path y).
Qed.

(** * The descent *)

Lemma log_reset o : inserted_ok o -> inserted_ok (t' ← o; Ok (set_logCount 0 t')).
Proof.
  intros (t' & A' & -> & Er & Gr & AO' & St). exists (set_logCount 0 t'), A'. split_and!; [done|done|done| |done].
  destruct AO' as [T1 T2 T3 T4]. by split.
Qed.

Lemma insert_loop_ok fuel : forall a x u w q pk, entered A a x u w -> (8 <= length (v_path x) + fuel)%nat -> u `prefix_of` key_bytes k ->
  a = root t \/ (exists y, edge_to a q pk y /\ u = v_path y ++ [pk]) ->
  inserted_ok (insert_loop loadKey fuel t k tid q pk a (Z.of_nat (length u))).
Proof.
  induction fuel as [|fuel IH]; intros a x u w q pk En Hf Hu He; pose proof (entered_short _ _ _ AO _ _ _ _ En) as Hs; [lia|].
  pose proof En as [Ha Ex Ew Hne]. cbn [insert_loop]. destruct (get_n_rep _ _ _ _ _ AO Ha) as (n & Hn & -> & R). cbn [mbind res_bind].
  destruct (checkPrefixPessimistic_ok loadKey t A a x n u w k AO Ha R Ex Ew Hne Hu) as (r & -> & V). cbn [mbind res_bind].
  destruct V as [Hm|e b rest kb -> Hw Hd].
  - rewrite <- length_app, <- Ex in *. destruct (next_byte _ _ Hm Hs) as (b & Hb & Hbb).
    rewrite (key_byte_at k _ b (v_path x)) by done. cbn [mbind res_bind].
    destruct (kid_view_ok loadKey t A AO a x n b Ha R Hbb) as (c & -> & _ & Hc & KV). cbn [mbind res_bind]. rewrite Hc.
    destruct KV as [Hno|tid' Hl Ht' Hw|c y w' Hcy Hlf Hc0 En' Hlen].
    + cbn [Z.eqb]. apply log_reset, (insertAndUnlock_ok a x); [done| |done..]. destruct He as [->|(y & Hy & _)]; [by left|right; by exists y].
    + destruct (nonnull_nonzero _ (nonnull_setLeaf tid')) as [Hz _]. rewrite (proj2 (Z.eqb_neq (setLeaf tid') 0)), isLeaf_setLeaf, getLeaf_setLeaf by done.
      pose proof (leaf_held loadKey A a x b tid' Ha Hl Ht') as Hh. pose proof (ak_keys _ _ _ AO _ _ Hh) as Hk'. cbn zeta.
      rewrite key_eq_spec by done. case_bool_decide as Ek; apply log_reset.
      * by apply (replace_leaf a x n b tid').
      * by apply (split_leaf_ok a x b tid').
    + rewrite (proj2 (Z.eqb_neq c 0)), Hlf by done.
      replace (Z.of_nat (length (v_path x)) + 1) with (Z.of_nat (length (v_path x ++ [b]))) by (rewrite length_app; cbn; lia).
      apply (IH c y _ w'); [done|lia|done|]. right. exists x. split; [|done]. split; [done|]. done.
  - apply log_reset. destruct He as [->|(y & Hy & ->)].
    + exfalso. destruct (to_root _ _ _ TO) as (z & Hz & Ez & _). assert (z = x) as -> by congruence. rewrite Ex in Ez. by destruct u, e.
    + by apply (split_prefix_ok a x n q y pk e b rest kb).
Qed.

Lemma insert_ok : inserted_ok (insert loadKey t k tid).
Proof.
  destruct (entered_root _ _ _ AO) as (x & En). apply (insert_loop_ok depth (root t) x [] []); [done|unfold depth; lia|apply prefix_nil|by left].
Qed.
End insert.
