(* ===== verification/ArtNext.v ===== *)
(** The nearest key: [lookupNext] on a tree that is not empty returns a pointer
    whose key has no other key between it and the key looked for. *)

From S2P Require Import Prelude NodeBits VersionedLock ListNode ArtNode ArtNodeFacts Art ArtTree ArtInvariant ArtLookup ArtInsert.

Local Open Scope Z_scope.

(** * Order of keys *)

Lemma key_lt k k' w b b' : 0 <= k < 2 ^ 64 -> 0 <= k' < 2 ^ 64 -> w ++ [b] `prefix_of` key_bytes k -> w ++ [b'] `prefix_of` key_bytes k' -> b < b' -> k < k'.
Proof.
  intros Hk Hk' [x E]%prefix_split [x' E']%prefix_split Hb. rewrite <- (key_val_bytes k), <- (key_val_bytes k') by done.
  pose proof (key_bytes_byte k) as F. pose proof (key_bytes_byte k') as F'. pose proof (key_bytes_length k) as L. pose proof (key_bytes_length k') as L'.
  rewrite E, length_app in L. rewrite E', length_app in L'. rewrite E, Forall_app, Forall_cons in F. rewrite E', Forall_app, Forall_cons in F'.
  rewrite E, E'. apply key_val_lt; [tauto|tauto|cbn in *; lia|done].
Qed.

Lemma key_le k k' w b b' : 0 <= k < 2 ^ 64 -> 0 <= k' < 2 ^ 64 -> w ++ [b] `prefix_of` key_bytes k -> w ++ [b'] `prefix_of` key_bytes k' -> k <= k' -> b <= b'.
Proof. intros Hk Hk' E E' Hle. destruct (Z.le_gt_cases b b') as [|Hlt]; [done|]. pose proof (key_lt k' k w b' b Hk' Hk E' E Hlt). lia. Qed.

Lemma first_diff (u l : list Z) : (length u <= length l)%nat -> ~ u `prefix_of` l -> exists v c d, v ++ [d] `prefix_of` u /\ v ++ [c] `prefix_of` l /\ c <> d.
Proof.
  intros Hl Hn. destruct (diverge u (take (length u) l)) as (e & d & c & r & r' & Eu & El & Hd).
  - rewrite length_take. lia.
  - intros E. apply Hn. rewrite E. apply prefix_take.
  - exists e, c, d. split_and!; [apply prefix_split; by exists r| |done]. etrans; [|apply (prefix_take _ (length u))].
    rewrite El. apply prefix_split. by exists r'.
Qed.

(** The keys that begin with a string form an interval. *)
Lemma prefix_interval u k1 k k2 : 0 <= k1 < 2 ^ 64 -> 0 <= k2 < 2 ^ 64 -> u `prefix_of` key_bytes k1 -> u `prefix_of` key_bytes k2 -> k1 <= k <= k2 ->
  u `prefix_of` key_bytes k.
Proof.
  intros H1 H2 P1 P2 Hk. destruct (decide (u `prefix_of` key_bytes k)) as [|Hn]; [done|]. exfalso.
  destruct (first_diff u (key_bytes k)) as (v & c & d & Hd & Hc & Hne).
  { apply prefix_length in P1. by rewrite !key_bytes_length in *. }
  { done. }
  assert (v ++ [d] `prefix_of` key_bytes k1) as Q1 by (etrans; [exact Hd|exact P1]). assert (v ++ [d] `prefix_of` key_bytes k2) as Q2 by (etrans; [exact Hd|exact P2]).
  destruct (Z.lt_trichotomy c d) as [Hlt|[|Hlt]]; [|done|].
  - pose proof (key_lt k k1 v c d ltac:(lia) H1 Hc Q1 Hlt). lia.
  - pose proof (key_lt k2 k v d c H2 ltac:(lia) Q2 Hc Hlt). lia.
Qed.

Section next.
Context `{ArtMem}.
Variable loadKey : Z -> Z.
Context (t : art) (A : gmap Z vnode) (AO : art_ok loadKey t A).
Notation TO := (ak_tree _ _ _ AO).
Notation held := (holds loadKey A).

Lemma held_key k tid : held k tid -> 0 <= k < 2 ^ 64 /\ loadKey tid = k /\ held (loadKey tid) tid.
Proof. intros Hh. split; [by eapply ak_keys|]. destruct Hh as (Ht & <- & Hx). done. Qed.

(** A held key is found from a node by its next byte. *)
Lemma held_next a x k tid : A !! a = Some x -> held k tid -> v_path x `prefix_of` key_bytes k ->
  exists b c, v_path x ++ [b] `prefix_of` key_bytes k /\ v_kids x !! b = Some c /\
    (c = setLeaf tid \/ exists y, A !! c = Some y /\ v_path y `prefix_of` key_bytes k).
Proof.
  intros Ha Hh Hp. destruct (next_byte _ _ Hp (vo_len _ _ _ _ _ (to_node _ _ _ TO _ _ Ha))) as (b & Hb & _). exists b.
  destruct (on_route loadKey t A AO k (proj1 (held_key _ _ Hh)) a x b tid Ha Hb Hh) as [E|(c & y & E & Hy & Hpy)].
  - exists (setLeaf tid). split_and!; [done|done|by left].
  - exists c. split_and!; [done|done|right]. by exists y.
Qed.

(** * The first and the last leaf *)

(** [R] is the order of the walk, [pick] the child it takes. *)
Section extreme.
Context (walk : nat -> art -> Z -> res Z) (pick : anode -> res Z) (R : Z -> Z -> Prop).
Hypothesis walk_leaf : forall f c, isLeaf c = true -> walk f t c = Ok (getLeaf c).
Hypothesis walk_node : forall f c, isLeaf c = false -> walk (S f) t c = (n ← get_n t c; d ← pick n; walk f t d).
Hypothesis R_order : forall k k' w b b', 0 <= k < 2 ^ 64 -> 0 <= k' < 2 ^ 64 -> w ++ [b] `prefix_of` key_bytes k -> w ++ [b'] `prefix_of` key_bytes k' ->
  R b b' -> R k k'.
Hypothesis pick_ok : forall n, node_ok n -> kids n <> ∅ -> exists c b, pick n = Ok c /\ kids n !! b = Some c /\ forall b' c', kids n !! b' = Some c' -> b' = b \/ R b b'.

Definition extreme (w : list Z) (tid : Z) : Prop :=
  held (loadKey tid) tid /\ w `prefix_of` key_bytes (loadKey tid) /\ forall k tid', held k tid' -> w `prefix_of` key_bytes k -> k = loadKey tid \/ R (loadKey tid) k.

Lemma walk_kid fuel a x b c : A !! a = Some x -> v_kids x !! b = Some c ->
  (forall y, A !! c = Some y -> (length (v_path x) < length (v_path y))%nat -> v_kids y <> ∅ -> exists tid, walk fuel t c = Ok tid /\ extreme (v_path y) tid) ->
  exists tid, walk fuel t c = Ok tid /\ extreme (v_path x ++ [b]) tid.
Proof.
  intros Ha Hb IH. destruct (kid_path _ _ _ _ _ _ _ TO Ha Hb) as [[Hl (tid & -> & Ht & Hw)]|[Hl (y & w & Hy & E & El & Hr)]].
  - exists tid. rewrite walk_leaf, getLeaf_setLeaf by done. split; [done|]. split_and!; [by eapply leaf_held|done|]. intros k tid' Hh Hp. left.
    destruct (on_route loadKey t A AO k (proj1 (held_key _ _ Hh)) a x b tid' Ha Hp Hh) as [E|(c & y & E & Hy & _)]; rewrite Hb in E; injection E as E.
    + apply setLeaf_inj in E as ->; [|done|apply Hh]. symmetry. apply Hh.
    + subst c. by rewrite (leaf_dead _ _ _ _ TO) in Hy.
  - destruct (IH y Hy) as (tid & Ew & X1 & X2 & X3); [rewrite E, length_app; cbn; lia|by apply (to_node _ _ _ TO _ _ Hy)|].
    exists tid. split; [done|]. split_and!; [done| |].
    + etrans; [|done]. rewrite E. apply prefix_split. by exists w.
    + intros k tid' Hh Hp. apply (X3 k tid' Hh).
      destruct (on_route loadKey t A AO k (proj1 (held_key _ _ Hh)) a x b tid' Ha Hp Hh) as [E'|(c' & y' & E' & Hy' & Hp')]; rewrite Hb in E'; injection E' as ->.
      * by rewrite isLeaf_setLeaf in Hl.
      * by simplify_eq.
Qed.

Lemma walk_ok fuel : forall a x, A !! a = Some x -> v_kids x <> ∅ -> (8 <= length (v_path x) + fuel)%nat ->
  exists tid, walk fuel t a = Ok tid /\ extreme (v_path x) tid.
Proof.
  induction fuel as [|fuel IH]; intros a x Ha Hne Hf; pose proof (to_node _ _ _ TO _ _ Ha) as [V1 _ [_ V3] _ _ _]; [lia|].
  rewrite walk_node by done. destruct (get_n_rep _ _ _ _ _ AO Ha) as (n & _ & -> & Rn). cbn [mbind res_bind].
  destruct (pick_ok n (nr_ok _ _ Rn)) as (c & b & -> & Hb & Hbest); [by rewrite (nr_kids _ _ Rn)|]. cbn [mbind res_bind]. rewrite (nr_kids _ _ Rn) in *.
  destruct (walk_kid fuel a x b c Ha Hb) as (tid & Ew & X1 & X2 & X3).
  { intros y Hy Hl Hk. apply (IH c y Hy Hk). lia. }
  exists tid. split; [done|]. split_and!; [done|etrans; [|done]; by apply prefix_app_r|]. intros k tid' Hh Hp.
  destruct (held_next a x k tid' Ha Hh Hp) as (b' & c' & Hb' & Hc' & _). destruct (Hbest b' c' Hc') as [->|HR]; [by apply (X3 k tid')|right].
  eapply R_order; [| |done..]; by eapply held_key.
Qed.

Lemma walk_kid_ok a x b c : A !! a = Some x -> v_kids x !! b = Some c -> exists tid, walk depth t c = Ok tid /\ extreme (v_path x ++ [b]) tid.
Proof. intros Ha Hb. apply (walk_kid depth a x b c Ha Hb). intros y Hy _ Hk. apply (walk_ok depth c y Hy Hk). unfold depth. lia. Qed.
End extreme.

Notation least := (extreme Z.lt).
Notation greatest := (extreme Z.gt).

Lemma pick_smallest n : node_ok n -> kids n <> ∅ ->
  exists c b, getSmallestChild n 0 = Ok c /\ kids n !! b = Some c /\ forall b' c', kids n !! b' = Some c' -> b' = b \/ b < b'.
Proof.
  intros On Hne. destruct (getSmallestChild_kids n 0 On) as (c & E & [[_ Hno]|(b & Hb & _ & Hmin)]); [unfold byte; lia| |].
  - apply map_choose in Hne as (b & c' & Hb). destruct (kids_elem _ _ _ On Hb) as [[? _] _]. by rewrite Hno in Hb.
  - exists c, b. split_and!; [done..|]. intros b' c' Hb'. destruct (kids_elem _ _ _ On Hb') as [[? _] _].
    destruct (Z.lt_trichotomy b' b) as [|[|]]; [by rewrite Hmin in Hb'|by left|by right].
Qed.

Lemma pick_largest n : node_ok n -> kids n <> ∅ ->
  exists c b, getLargestChild n 255 = Ok c /\ kids n !! b = Some c /\ forall b' c', kids n !! b' = Some c' -> b' = b \/ b > b'.
Proof.
  intros On Hne. destruct (getLargestChild_kids n 255 On) as (c & E & [[_ Hno]|(b & Hb & _ & Hmax)]); [unfold byte; lia| |].
  - apply map_choose in Hne as (b & c' & Hb). destruct (kids_elem _ _ _ On Hb) as [[_ ?] _]. rewrite Hno in Hb; [done|lia].
  - exists c, b. split_and!; [done..|]. intros b' c' Hb'. destruct (kids_elem _ _ _ On Hb') as [[_ ?] _].
    destruct (Z.lt_trichotomy b' b) as [|[|]]; [right; lia|by left|]. rewrite Hmax in Hb'; [done|lia].
Qed.

Lemma key_gt k k' w b b' : 0 <= k < 2 ^ 64 -> 0 <= k' < 2 ^ 64 -> w ++ [b] `prefix_of` key_bytes k -> w ++ [b'] `prefix_of` key_bytes k' -> b > b' -> k > k'.
Proof. intros Hk Hk' E E' Hb. pose proof (key_lt k' k w b' b Hk' Hk E' E ltac:(lia)). lia. Qed.

Lemma copy_leaf f c : isLeaf c = true -> copy f t c = Ok (getLeaf c).
Proof. intros E. by destruct f; cbn [copy]; rewrite E. Qed.
Lemma copy_node f c : isLeaf c = false -> copy (S f) t c = (n ← get_n t c; d ← getSmallestChild n 0; copy f t d).
Proof. intros E. cbn [copy]. by rewrite E. Qed.
Lemma copyReverse_leaf f c : isLeaf c = true -> copyReverse f t c = Ok (getLeaf c).
Proof. intros E. by destruct f; cbn [copyReverse]; rewrite E. Qed.
Lemma copyReverse_node f c : isLeaf c = false -> copyReverse (S f) t c = (n ← get_n t c; d ← getLargestChild n 255; copyReverse f t d).
Proof. intros E. cbn [copyReverse]. by rewrite E. Qed.

Definition copy_ok := walk_ok copy (fun n => getSmallestChild n 0) Z.lt copy_leaf copy_node key_lt pick_smallest depth.
Definition copy_kid_ok := walk_kid_ok copy (fun n => getSmallestChild n 0) Z.lt copy_leaf copy_node key_lt pick_smallest.
Definition copyReverse_ok := walk_ok copyReverse (fun n => getLargestChild n 255) Z.gt copyReverse_leaf copyReverse_node key_gt pick_largest depth.
Definition copyReverse_kid_ok := walk_kid_ok copyReverse (fun n => getLargestChild n 255) Z.gt copyReverse_leaf copyReverse_node key_gt pick_largest.

(** * Comparing the prefix *)

Section compare.
Context (a : Z) (x : vnode) (n : anode) (u w : list Z) (start : Z).
Hypotheses (Ha : A !! a = Some x) (R : node_rep n x).
Hypotheses (Ex : v_path x = u ++ w) (Ew : length w = v_skip x) (Hne : v_kids x <> ∅).

Inductive compare_verdict : PCCompareResults -> Z -> Prop :=
  | CV_equal : u ++ w `prefix_of` key_bytes start -> compare_verdict PCEqual (Z.of_nat (length u + length w))
  | CV_smaller l e b kb : (u ++ e) ++ [b] `prefix_of` u ++ w -> (u ++ e) ++ [kb] `prefix_of` key_bytes start -> b < kb -> compare_verdict PCSmaller l
  | CV_bigger l e b kb : (u ++ e) ++ [b] `prefix_of` u ++ w -> (u ++ e) ++ [kb] `prefix_of` key_bytes start -> kb < b -> compare_verdict PCBigger l.

Lemma compare_loop_ok f : forall e kt fuel, w = e ++ f -> u ++ e `prefix_of` key_bytes start -> (length f <= fuel)%nat ->
  ((maxStoredPrefixLength < length e)%nat -> key_below u w kt) ->
  exists r l, compare_loop loadKey fuel t a (n_prefix n) start (Z.of_nat (length e)) (Z.of_nat (length u + length e)) kt = Ok (r, l) /\ compare_verdict r l.
Proof.
  induction f as [|b f IH]; intros e kt fuel E Hpre Hf Hkt.
  - exists PCEqual, (Z.of_nat (length u + length w)). rewrite app_nil_r in E. subst e. split; [|by constructor].
    destruct fuel; cbn [compare_loop]; rewrite (nr_count _ _ R), <- Ew, (proj2 (Z.leb_le _ _)) by lia; done.
  - assert (length w = length e + S (length f))%nat as El by (rewrite E, length_app; done).
    pose proof (path_short loadKey t A a x u w AO Ha Ex) as Hs.
    destruct fuel as [|fuel]; [cbn in Hf; lia|]. cbn [compare_loop]. rewrite (nr_count _ _ R), <- Ew. rewrite (proj2 (Z.leb_gt _ _)) by lia.
    destruct (load_below loadKey t A a x u w AO Ha Ex Ew Hne (length e) kt Hkt) as (kt' & -> & Hkt'). cbn [mbind res_bind].
    destruct (next_byte (u ++ e) start Hpre) as (kb & Hkb & _); [rewrite length_app; lia|].
    unfold getKeyLen. rewrite (proj2 (Z.ltb_lt _ 8)) by lia.
    rewrite (key_byte_at start _ kb (u ++ e)) by (done || by rewrite length_app). cbn [mbind res_bind].
    rewrite (prefix_byte_ok x n u w R Ex Ew _ b) by (done || by rewrite E, list_lookup_middle). cbn [mbind res_bind].
    assert ((u ++ e) ++ [b] `prefix_of` u ++ w) as Hb by (rewrite E; apply prefix_split; exists f; by rewrite app_assoc).
    destruct (Z.ltb_spec b kb) as [Hlt|Hge]; [eexists _, _; split; [done|by econstructor]|].
    destruct (Z.ltb_spec kb b) as [Hlt|Hge']; [eexists _, _; split; [done|by econstructor]|].
    assert (b = kb) as -> by lia.
    destruct (IH (e ++ [kb]) kt' fuel) as (r & l & Er & Hr); [by rewrite <- app_assoc|by rewrite app_assoc|cbn in Hf; lia|
      rewrite length_app; cbn; intros; apply Hkt'; lia|].
    exists r, l. split; [|done]. rewrite <- Er, length_app. cbn [length]. f_equal; lia.
Qed.

Lemma checkPrefixCompare_ok : u `prefix_of` key_bytes start ->
  exists r l, checkPrefixCompare loadKey t a n start (Z.of_nat (length u)) = Ok (r, l) /\ compare_verdict r l.
Proof.
  intros Hu. unfold checkPrefixCompare. rewrite (not_skipped x n u w R Ex Ew), (level_start x n u w R Ex Ew).
  rewrite (nr_count _ _ R), <- Ew. destruct (Z.ltb_spec 0 (Z.of_nat (length w))) as [Hl|Hl].
  - destruct (compare_loop_ok w [] None (Z.to_nat (Z.of_nat (length w)))) as (r & l & Er & Hr); [done|by rewrite app_nil_r|lia|cbn; lia|].
    exists r, l. split; [|done]. rewrite <- Er. cbn [length]. by rewrite Nat.add_0_r.
  - assert (length w = 0%nat) as E0 by lia. exists PCEqual, (Z.of_nat (length u + length w)). split; [by rewrite E0, Nat.add_0_r|].
    constructor. by rewrite (nil_length_inv _ E0), app_nil_r.
Qed.
End compare.

(** * The search *)

Variable start : Z.
Hypothesis Hstart : 0 <= start < 2 ^ 64.
Notation sb := (key_bytes start).

(** No key lies between the one looked for and the one found. *)
Definition nearest (tid : Z) : Prop :=
  held (loadKey tid) tid /\ forall k tid', held k tid' -> ~ (start <= k < loadKey tid) /\ ~ (loadKey tid < k <= start).

Definition found (o : res Z) : Prop := exists tid, o = Ok tid /\ nearest tid.

(** The first key of a subtree above the one looked for. *)
Lemma least_nearest u tid w : least u tid -> w `prefix_of` sb -> w `prefix_of` u ->
  (forall k tid', held k tid' -> w `prefix_of` key_bytes k -> start <= k -> k < loadKey tid -> u `prefix_of` key_bytes k) ->
  start < loadKey tid -> nearest tid.
Proof.
  intros (X1 & X2 & X3) Hw Hwu Hall Hlt. pose proof (held_key _ _ X1) as (Hr & _). split; [done|]. intros k tid' Hh.
  split; [|lia]. intros Hk. assert (u `prefix_of` key_bytes k) as Hp.
  { apply (Hall k tid' Hh); [|lia|lia]. apply (prefix_interval w start k (loadKey tid)); [done|done|done|by etrans|lia]. }
  destruct (X3 k tid' Hh Hp); lia.
Qed.

(** The last key of a subtree below it. *)
Lemma greatest_nearest u tid w : greatest u tid -> w `prefix_of` sb -> w `prefix_of` u ->
  (forall k tid', held k tid' -> w `prefix_of` key_bytes k -> k <= start -> loadKey tid < k -> u `prefix_of` key_bytes k) ->
  loadKey tid < start -> nearest tid.
Proof.
  intros (X1 & X2 & X3) Hw Hwu Hall Hlt. pose proof (held_key _ _ X1) as (Hr & _). split; [done|]. intros k tid' Hh.
  split; [lia|]. intros Hk. assert (u `prefix_of` key_bytes k) as Hp.
  { apply (Hall k tid' Hh); [|lia|lia]. apply (prefix_interval w (loadKey tid) k start); [done|done|by etrans|done|lia]. }
  destruct (X3 k tid' Hh Hp); lia.
Qed.

Lemma snoc_prefix (w : list Z) b : w `prefix_of` w ++ [b].
Proof. by apply prefix_app_r. Qed.

(** The largest child up to a byte, below the byte of the key looked for. *)
Lemma largest_found q y m pb c : A !! q = Some y -> v_path y ++ [pb] `prefix_of` sb -> greatest_to (v_kids y) m c ->
  (forall b c', v_kids y !! b = Some c' -> b <= m -> b < pb) ->
  (forall k tid' b, held k tid' -> v_path y ++ [b] `prefix_of` key_bytes k -> k <= start -> b <= m) -> c <> 0 -> found (copyReverse depth t c).
Proof.
  intros Hq Hpb Hg Hlow Hm Hc. destruct Hg as [[? _]|(b & Hb & Hbm & Hmax)]; [done|].
  destruct (copyReverse_kid_ok q y b c Hq Hb) as (tid & E & X). pose proof X as (X1 & X2 & _). pose proof (held_key _ _ X1) as (Hr & _).
  exists tid. split; [done|]. apply (greatest_nearest _ tid (v_path y) X); [etrans; [apply snoc_prefix|done]|apply snoc_prefix| |].
  - intros k tid' Hh Hp Hle Hgt. pose proof (held_key _ _ Hh) as (Hk & _).
    destruct (held_next q y k tid' Hq Hh Hp) as (b' & c' & Hb' & Hc' & _). pose proof (Hm k tid' b' Hh Hb' Hle) as Hb'm.
    pose proof (key_le (loadKey tid) k (v_path y) b b' Hr Hk X2 Hb' ltac:(lia)) as Hbb.
    destruct (Z.eq_dec b b') as [<-|]; [done|]. rewrite Hmax in Hc'; [done|lia].
  - apply (key_lt (loadKey tid) start (v_path y) b pb); [done..|]. by eapply Hlow.
Qed.

(** The node the search would turn back to, and the byte by which it went on:
    the keys there not above the one looked for are all below [u]. *)
Record parent_ok (q : Z) (y : vnode) (pb : Z) (u : list Z) : Prop := {
  po_live : A !! q = Some y;
  po_start : v_path y ++ [pb] `prefix_of` sb;
  po_below : forall k tid', held k tid' -> v_path y ++ [pb] `prefix_of` key_bytes k -> k <= start -> u `prefix_of` key_bytes k;
}.

Lemma smaller_sibling_ok q y pb u : parent_ok q y pb u -> (forall k tid', held k tid' -> u `prefix_of` key_bytes k -> start < k) ->
  exists c, smaller_sibling t start q (Z.of_nat (length (v_path y))) = Ok c /\ (c <> 0 -> found (copyReverse depth t c)).
Proof.
  intros [Hq Hpb Hbelow] Habove. unfold smaller_sibling. rewrite (key_byte_at start _ pb (v_path y)) by done. cbn [mbind res_bind].
  destruct (Z.eqb_spec pb 0) as [->|Hnz]; cbn [negb]; [by exists 0|].
  destruct (get_n_rep _ _ _ _ _ AO Hq) as (n & _ & -> & R). cbn [mbind res_bind].
  assert (byte pb) as Hbyte. { destruct Hpb as [z E]. pose proof (key_bytes_byte start) as F. rewrite E, !Forall_app, Forall_cons in F. tauto. }
  destruct (getLargestChild_kids n (pb - 1) (nr_ok _ _ R)) as (c & -> & Hg); [unfold byte in *; lia|]. exists c. split; [done|].
  rewrite (nr_kids _ _ R) in Hg. apply (largest_found q y (pb - 1) pb c Hq Hpb Hg); [intros; lia|].
  intros k tid' b Hh Hb Hle. pose proof (held_key _ _ Hh) as (Hk & _). pose proof (key_le k start _ b pb Hk Hstart Hb Hpb Hle).
  destruct (Z.eq_dec b pb) as [->|]; [|lia]. pose proof (Habove k tid' Hh (Hbelow k tid' Hh Hb Hle)). lia.
Qed.

(** A node that the search came to by [u], which begins the key looked for. *)
Record searched (a : Z) (x : vnode) (u w : list Z) : Prop := {
  se_entered : entered A a x u w;
  se_busy : v_kids x <> ∅;
  se_start : u `prefix_of` sb;
  se_route : forall k tid', held k tid' -> u `prefix_of` key_bytes k -> v_path x `prefix_of` key_bytes k;
}.

(** The only leaf below a string. *)
Lemma leaf_nearest a x b tid : A !! a = Some x -> v_kids x !! b = Some (setLeaf tid) -> tid_ok tid -> v_path x ++ [b] `prefix_of` key_bytes (loadKey tid) ->
  v_path x ++ [b] `prefix_of` sb -> nearest tid.
Proof.
  intros Ha Hb Ht Hw Hs. pose proof (leaf_held loadKey A a x b tid Ha Hb Ht) as Hh. pose proof (held_key _ _ Hh) as (Hr & _).
  split; [done|]. intros k tid' Hh'.
  assert (v_path x ++ [b] `prefix_of` key_bytes k -> k = loadKey tid) as Hone.
  { intros Hp. destruct (on_route loadKey t A AO k (proj1 (held_key _ _ Hh')) a x b tid' Ha Hp Hh') as [E|(c & y & E & Hy & _)]; rewrite Hb in E; injection E as E.
    - apply setLeaf_inj in E as ->; [|done|apply Hh']. symmetry. apply Hh'.
    - subst c. by rewrite (leaf_dead _ _ _ _ TO) in Hy. }
  split; intros Hk; [pose proof (Hone (prefix_interval _ start k (loadKey tid) Hstart Hr Hs Hw ltac:(lia)))|
    pose proof (Hone (prefix_interval _ (loadKey tid) k start Hr Hstart Hw Hs ltac:(lia)))]; lia.
Qed.

Lemma above_all a x u w e b kb : searched a x u w -> (u ++ e) ++ [b] `prefix_of` v_path x -> (u ++ e) ++ [kb] `prefix_of` sb -> kb < b ->
  forall k tid', held k tid' -> u `prefix_of` key_bytes k -> start < k.
Proof.
  intros [_ _ _ Hroute] Hb Hkb Hlt k tid' Hh Hu. apply (key_lt start k (u ++ e) kb b); [done|by eapply held_key|done| |done].
  etrans; [done|]. by eapply Hroute.
Qed.

Lemma bigger_ok a x u w q y pb e b kb : searched a x u w -> parent_ok q y pb u ->
  (u ++ e) ++ [b] `prefix_of` v_path x -> (u ++ e) ++ [kb] `prefix_of` sb -> kb < b ->
  found (c ← smaller_sibling t start q (Z.of_nat (length (v_path y))); if negb (c =? 0) then copyReverse depth t c else copy depth t a).
Proof.
  intros S P Hb Hkb Hlt. pose proof (above_all _ _ _ _ _ _ _ S Hb Hkb Hlt) as Habove.
  destruct (smaller_sibling_ok q y pb u P Habove) as (c & -> & Hc). cbn [mbind res_bind].
  destruct (Z.eqb_spec c 0) as [->|Hn]; cbn [negb]; [|by apply Hc]. pose proof S as [[Ha Ex _ _] Hne Hs Hroute].
  destruct (copy_ok a x Ha Hne) as (tid & E & X); [unfold depth; lia|]. exists tid. split; [done|]. pose proof X as (X1 & X2 & _).
  assert (u `prefix_of` v_path x) as Hux by (rewrite Ex; by apply prefix_app_r).
  apply (least_nearest _ tid u X Hs Hux); [intros k tid' Hh Hp _ _; by eapply Hroute|]. eapply Habove; [done|]. by etrans.
Qed.

Lemma smaller_ok a x u w e b kb : searched a x u w -> (u ++ e) ++ [b] `prefix_of` v_path x -> (u ++ e) ++ [kb] `prefix_of` sb -> b < kb ->
  found (copyReverse depth t a).
Proof.
  intros [[Ha Ex _ _] Hne Hs Hroute] Hb Hkb Hlt. destruct (copyReverse_ok a x Ha Hne) as (tid & E & X); [unfold depth; lia|].
  exists tid. split; [done|]. pose proof X as (X1 & X2 & _).
  assert (u `prefix_of` v_path x) as Hux by (rewrite Ex; by apply prefix_app_r).
  apply (greatest_nearest _ tid u X Hs Hux); [intros k tid' Hh Hp _ _; by eapply Hroute|].
  apply (key_lt (loadKey tid) start (u ++ e) b kb); [by eapply held_key|done| |done|done]. by etrans.
Qed.

(** No child for the byte of the key looked for. *)
Lemma absent_ok a x n u w q y pb b : searched a x u w -> parent_ok q y pb u -> node_rep n x -> v_path x ++ [b] `prefix_of` sb -> byte b -> v_kids x !! b = None ->
  found (l ← getLargestChild n b;
    if negb (l =? 0) then copyReverse depth t l
    else
      s ← smaller_sibling t start q (Z.of_nat (length (v_path y)));
      if negb (s =? 0) then copyReverse depth t s
      else g ← getSmallestChild n b; copy depth t g).
Proof.
  intros S P R Hb Hbb Hno. pose proof S as [[Ha Ex _ _] Hne Hs Hroute].
  assert (forall k tid' b', held k tid' -> v_path x ++ [b'] `prefix_of` key_bytes k -> is_Some (v_kids x !! b')) as Hkid.
  { intros k tid' b' Hh Hb'. destruct (on_route loadKey t A AO k (proj1 (held_key _ _ Hh)) a x b' tid' Ha Hb' Hh) as [E|(c & z & E & _)]; by eexists. }
  destruct (getLargestChild_kids n b (nr_ok _ _ R) Hbb) as (l & -> & Hg). cbn [mbind res_bind]. rewrite (nr_kids _ _ R) in Hg.
  destruct (Z.eqb_spec l 0) as [->|Hl]; cbn [negb].
  - assert (forall b' c', v_kids x !! b' = Some c' -> b < b') as Hup.
    { intros b' c' Hb'. destruct Hg as [[_ Hg]|(b0 & Hb0 & _)].
      - destruct (Z.le_gt_cases b' b) as [Hle|]; [by rewrite Hg in Hb'|lia].
      - destruct (nonnull_nonzero 0 (kid_nonnull _ _ _ _ _ _ _ TO Ha Hb0)). done. }
    assert (forall k tid', held k tid' -> u `prefix_of` key_bytes k -> start < k) as Habove.
    { intros k tid' Hh Hu. destruct (held_next a x k tid' Ha Hh (Hroute k tid' Hh Hu)) as (b' & c' & Hb' & Hc' & _).
      apply (key_lt start k (v_path x) b b'); [done|by eapply held_key|done|done|]. by eapply Hup. }
    destruct (smaller_sibling_ok q y pb u P Habove) as (s & -> & Hsib). cbn [mbind res_bind].
    destruct (Z.eqb_spec s 0) as [->|Hsn]; cbn [negb]; [|by apply Hsib].
    destruct (getSmallestChild_kids n b (nr_ok _ _ R) Hbb) as (g & -> & Hmin). cbn [mbind res_bind]. rewrite (nr_kids _ _ R) in Hmin.
    destruct Hmin as [[_ Hnone]|(b1 & Hb1 & _ & Hmin)].
    { exfalso. apply map_choose in Hne as (b0 & c0 & Hb0). pose proof (Hup _ _ Hb0). rewrite Hnone in Hb0; [done|lia]. }
    destruct (copy_kid_ok a x b1 g Ha Hb1) as (tid & E & X). exists tid. split; [done|]. pose proof X as (X1 & X2 & _). pose proof (held_key _ _ X1) as (Hr & _).
    apply (least_nearest _ tid (v_path x) X); [etrans; [apply snoc_prefix|done]|apply snoc_prefix| |].
    + intros k tid' Hh Hp _ Hlt. pose proof (held_key _ _ Hh) as (Hk & _). destruct (held_next a x k tid' Ha Hh Hp) as (b' & c' & Hb' & Hc' & _).
      pose proof (key_le k (loadKey tid) _ b' b1 Hk Hr Hb' X2 ltac:(lia)). destruct (Z.eq_dec b' b1) as [->|]; [done|].
      pose proof (Hup _ _ Hc'). rewrite Hmin in Hc'; [done|lia].
    + apply (key_lt start (loadKey tid) (v_path x) b b1); [done..|]. by eapply Hup.
  - apply (largest_found a x b b l Ha Hb Hg); [| |done].
    + intros b' c' Hb' Hle. destruct (Z.eq_dec b' b) as [->|]; [congruence|lia].
    + intros k tid' b' Hh Hb' Hle. apply (key_le k start (v_path x)); [by eapply held_key|done..].
Qed.

Lemma findStart_node fuel : forall a x u w q y pb, searched a x u w -> parent_ok q y pb u -> (8 <= length (v_path x) + fuel)%nat ->
  found (findStart loadKey fuel t start a q (Z.of_nat (length u)) (Z.of_nat (length (v_path y)))).
Proof.
  induction fuel as [|fuel IH]; intros a x u w q y pb S P Hf; pose proof S as [[Ha Ex Ew _] Hne Hs Hroute];
    pose proof (to_node _ _ _ TO _ _ Ha) as [V1 _ [_ V3] _ _ _]; [lia|].
  cbn [findStart]. rewrite V3. destruct (get_n_rep _ _ _ _ _ AO Ha) as (n & _ & -> & R). cbn [mbind res_bind].
  destruct (checkPrefixCompare_ok a x n u w start Ha R Ex Ew Hne Hs) as (r & l & -> & V). cbn [mbind res_bind].
  destruct V as [Hm|l e b kb Hb Hkb Hlt|l e b kb Hb Hkb Hlt]; rewrite <- Ex in *; [|by eapply smaller_ok|by eapply bigger_ok].
  assert (length u + length w = length (v_path x))%nat as -> by (by rewrite Ex, length_app).
  destruct (next_byte _ _ Hm V1) as (b & Hb & Hbb). unfold getKeyLen. rewrite (proj2 (Z.ltb_lt _ 8)) by lia.
  rewrite (key_byte_at start _ b (v_path x)) by done. cbn [mbind res_bind].
  destruct (kid_view_ok loadKey t A AO a x n b Ha R Hbb) as (c & _ & -> & _ & KV). cbn [mbind res_bind].
  destruct KV as [Hno|tid Hl Ht Hw|c z w' Hcz Hlf Hc0 En Hlen].
  - cbn [Z.eqb negb]. by eapply absent_ok.
  - destruct (nonnull_nonzero _ (nonnull_setLeaf tid)) as [Hz _]. rewrite (proj2 (Z.eqb_neq (setLeaf tid) 0)) by done. cbn [negb].
    assert (forall q' l' l2, found (findStart loadKey fuel t start (setLeaf tid) q' l' l2)) as Hleaf; [|by destruct (b =? 0); apply Hleaf].
    intros q' l' l2. exists tid. split; [|by eapply leaf_nearest].
    destruct fuel; cbn [findStart]; rewrite isLeaf_setLeaf, copy_leaf, getLeaf_setLeaf by (done || apply isLeaf_setLeaf); done.
  - rewrite (proj2 (Z.eqb_neq c 0)) by done. cbn [negb].
    replace (Z.of_nat (length (v_path x)) + 1) with (Z.of_nat (length (v_path x ++ [b]))) by (rewrite length_app; cbn; lia).
    assert (searched c z (v_path x ++ [b]) w') as S'.
    { pose proof En as [Hz Ez _ _]. split; [done| |done|].
      - apply (to_node _ _ _ TO _ _ Hz). intros ->. destruct (to_root _ _ _ TO) as (z0 & Hz0 & E0 & _). simplify_eq. rewrite E0 in Ez. by destruct (v_path x).
      - intros k tid' Hh Hp. destruct (on_route loadKey t A AO k (proj1 (held_key _ _ Hh)) a x b tid' Ha Hp Hh) as [E|(c' & z' & E & Hz' & Hp')]; rewrite Hcz in E; injection E as ->.
        + by rewrite isLeaf_setLeaf in Hlf.
        + by simplify_eq. }
    destruct (Z.eqb_spec b 0) as [->|Hnz]; cbn [negb].
    + apply (IH c z _ w' q y pb S'); [|lia]. destruct P as [P1 P2 P3]. split; [done|done|]. intros k tid' Hh Hp Hle. pose proof (held_key _ _ Hh) as (Hk & _).
      destruct (held_next a x k tid' Ha Hh (Hroute _ _ Hh (P3 _ _ Hh Hp Hle))) as (b' & c' & Hb' & Hc' & _).
      pose proof (key_le k start _ b' 0 Hk Hstart Hb' Hb Hle). destruct (vo_kids _ _ _ _ _ (to_node _ _ _ TO _ _ Ha) _ _ Hc') as [[? _] _].
      by replace 0 with b' by lia.
    + apply (IH c z _ w' a x b S'); [|lia]. by split.
Qed.

Lemma lookupNext_ok k tid : held k tid -> found (lookupNext loadKey t start).
Proof.
  intros Hh. destruct (entered_root _ _ _ AO) as (x & En). pose proof En as [Ha Ex Ew _]. cbn in Ex.
  destruct (held_next (root t) x k tid Ha Hh) as (b0 & c0 & _ & Hc0 & _); [rewrite Ex; apply prefix_nil|].
  destruct (next_byte [] start (prefix_nil _)) as (b & Hb & _); [cbn; lia|].
  pose proof (findStart_node (S depth) (root t) x [] [] (root t) x b) as HF. rewrite Ex in HF. apply HF; [| |cbn; unfold depth; lia].
  - split; [done| |apply prefix_nil|rewrite Ex; intros; apply prefix_nil]. intros E. by rewrite E in Hc0.
  - split; [done|by rewrite Ex|intros; apply prefix_nil].
Qed.
End next.
