(* ===== verification/ArtMap.v ===== *)
(** The radix tree as a map from keys to pointers: construction, insertion and
    lookups against [gmap Z Z], a run of calls, and the tree as an
    implementation of the interface of [SearchLayer]. *)

From S2P Require Import Prelude NodeBits VersionedLock ListNode SearchLayer.
From S2P Require Import ArtNode ArtNodeFacts Art ArtTree ArtInvariant ArtLookup ArtInsert ArtNext.

Local Open Scope Z_scope.

Section map.
Context `{ArtMemOk}.
Variable loadKey : Z -> Z.

(** The tree holds what the map has. *)
Definition contents (t : art) (M : gmap Z Z) : Prop :=
  exists A, art_ok loadKey t A /\ forall k tid, holds loadKey A k tid <-> M !! k = Some tid.

(** What is given to an insertion: a key of 64 bits and a pointer to a node
    that carries it. *)
Definition entry_ok (k tid : Z) : Prop := 0 <= k < 2 ^ 64 /\ tid_ok tid /\ loadKey tid = k.

Lemma create_contents : am_alloc ∅ <> 0 -> exists t, create = Ok t /\ contents t ∅ /\ size (heap t) = 1%nat.
Proof.
  intros Hm. destruct (am_fresh ∅ Hm) as (_ & Hn & Hl). unfold create. destruct (nonnull_nonzero _ Hn) as [Hz Hv]. rewrite Hv, (proj2 (Z.eqb_neq _ 0)) by done.
  set (p := am_alloc ∅) in *. eexists. split; [done|]. split; [|cbn; by rewrite map_size_singleton].
  destruct (empty_node_ok 0 (MkPrefix 0 [])) as (_ & _ & _ & O). destruct (empty_node_kids 0 (MkPrefix 0 [])) as (_ & _ & _ & K).
  exists {[p := MkView [] 0 ∅]}.
  assert (forall k tid, holds loadKey {[p := MkView [] 0 ∅]} k tid <-> False) as Hnone.
  { intros k tid. split; [|done]. intros (_ & _ & a & x & b & [<- <-]%lookup_singleton_Some & Hb). done. }
  split; [split; cbn [root heap]|].
  - split.
    + exists (MkView [] 0 ∅). by rewrite lookup_singleton_eq.
    + intros a x [<- <-]%lookup_singleton_Some. split; cbn; try done. lia.
    + intros a a' x x' [<- <-]%lookup_singleton_Some [<- <-]%lookup_singleton_Some. done.
  - intros a x [<- <-]%lookup_singleton_Some. eexists. rewrite lookup_singleton_eq. split; [done|]. split; [done|exact K|done|done|done].
  - eexists. rewrite lookup_singleton_eq. done.
  - intros k tid []%Hnone.
  - intros k tid. rewrite Hnone, lookup_empty. done.
Qed.

Lemma insert_contents t M k tid : contents t M -> entry_ok k tid -> am_alloc (heap t) <> 0 ->
  exists t', insert loadKey t k tid = Ok t' /\ contents t' (<[k := tid]> M) /\ (size (heap t') <= S (size (heap t)))%nat.
Proof.
  intros (A & AO & HM) (Hk & Ht & Hl) Hm. destruct (insert_ok loadKey t A AO k tid Hk Ht Hl Hm) as (t' & A' & E & _ & Gr & AO' & St).
  exists t'. split_and!; [done| |by apply grows_size]. exists A'. split; [done|]. intros k' tid'. rewrite (St k' tid'), HM, lookup_insert_Some.
  split; intros [[? ?]|[? ?]]; auto.
Qed.

Lemma lookup_contents t M k : contents t M -> 0 <= k < 2 ^ 64 -> lookup loadKey t k = Ok (default 0 (M !! k)).
Proof.
  intros (A & AO & HM) Hk. destruct (lookup_ok loadKey t A AO k Hk) as (tid & -> & [[-> Hno]|Hh]).
  - destruct (M !! k) as [tid|] eqn:E; [|done]. by apply HM, Hno in E.
  - apply HM in Hh. by rewrite Hh.
Qed.

Lemma next_contents t M start : contents t M -> M <> ∅ -> 0 <= start < 2 ^ 64 -> exists tid, lookupNext loadKey t start = Ok tid /\ nearest_in M start tid.
Proof.
  intros (A & AO & HM) Hne Hs. apply map_choose in Hne as (k & tid & Hk). apply HM in Hk.
  destruct (lookupNext_ok loadKey t A AO start Hs k tid Hk) as (tid' & E & Hh & Hnear). exists tid'. split; [done|]. exists (loadKey tid').
  split; [by apply HM|]. intros k' [tid2 Hk2%HM]. by eapply Hnear.
Qed.

(** On an empty tree the search ends at a null child. *)
Lemma next_empty t start : contents t ∅ -> 0 <= start < 2 ^ 64 -> lookupNext loadKey t start = Err NullDeref.
Proof.
  intros (A & AO & HM) Hs. destruct (entered_root loadKey t A AO) as (x & En). pose proof En as [Ha Ex Ew _]. cbn in Ex.
  assert (forall b, v_kids x !! b = None) as Hno.
  { intros b. apply eq_None_not_Some. intros [c Hc].
    assert (exists tid, holds loadKey A (loadKey tid) tid) as [tid Hh]; [|by apply HM in Hh].
    destruct (copy_ok loadKey t A AO (root t) x Ha) as (tid & _ & Hh & _); [intros E; by rewrite E in Hc|unfold depth; lia|]. by exists tid. }
  unfold lookupNext. cbn [findStart]. destruct (vo_addr _ _ _ _ _ (to_node _ _ _ (ak_tree _ _ _ AO) _ _ Ha)) as [_ ->].
  destruct (get_n_rep _ _ _ _ _ AO Ha) as (n & _ & Gn & R). rewrite Gn. cbn [mbind res_bind].
  unfold checkPrefixCompare. rewrite (nr_count _ _ R), (nr_level _ _ R), Ex, <- Ew. change (Z.of_nat (length [])) with 0.
  change (0 + 0 <? 0) with false. change (0 <? 0) with false. cbn [mbind res_bind].
  destruct (byte_at start 0) as (b & Hb & Hbb & _); [lia|]. change (Z.of_nat 0) with 0 in Hb. unfold getKeyLen. change (0 <? 8) with true. cbn match. rewrite Hb. cbn [mbind res_bind].
  rewrite getChild_kids, (nr_kids _ _ R), Hno by (done || apply R). cbn [default mbind res_bind Z.eqb negb from_option].
  assert (forall m c, greatest_to (v_kids x) m c -> c = 0) as Hg.
  { intros m c [[-> _]|(b' & Hb' & _)]; [done|]. by rewrite Hno in Hb'. }
  assert (forall m c, least_from (v_kids x) m c -> c = 0) as Hl.
  { intros m c [[-> _]|(b' & Hb' & _)]; [done|]. by rewrite Hno in Hb'. }
  destruct (getLargestChild_kids n b (nr_ok _ _ R) Hbb) as (c & -> & Hc). rewrite (nr_kids _ _ R) in Hc. rewrite (Hg _ _ Hc). cbn [mbind res_bind Z.eqb negb].
  unfold smaller_sibling. rewrite Hb, Gn. cbn [mbind res_bind].
  assert ((if negb (b =? 0) then getLargestChild n (b - 1) else Ok 0) = Ok 0) as ->.
  { destruct (Z.eqb_spec b 0) as [->|Hnz]; [done|]. destruct (getLargestChild_kids n (b - 1) (nr_ok _ _ R)) as (c' & -> & Hc'); [unfold byte in *; lia|].
    rewrite (nr_kids _ _ R) in Hc'. by rewrite (Hg _ _ Hc'). }
  cbn [mbind res_bind Z.eqb negb]. destruct (getSmallestChild_kids n b (nr_ok _ _ R) Hbb) as (c' & -> & Hc'). rewrite (nr_kids _ _ R) in Hc'. rewrite (Hl _ _ Hc').
  done.
Qed.

(** * Runs *)

Inductive art_call := CallInsert (k tid : Z) | CallLookup (k : Z) | CallNext (k : Z).

(** The results of the lookups and the tree after the calls. *)
Fixpoint art_exec (cs : list art_call) (t : art) : res (list Z * art) :=
  match cs with
  | [] => Ok ([], t)
  | CallInsert k tid :: cs' => t' ← insert loadKey t k tid; art_exec cs' t'
  | CallLookup k :: cs' => tid ← lookup loadKey t k; '(out, t') ← art_exec cs' t; Ok (tid :: out, t')
  | CallNext k :: cs' => tid ← lookupNext loadKey t k; '(out, t') ← art_exec cs' t; Ok (tid :: out, t')
  end.

(** What a map answers; [lookupNext] asks a map that is not empty. *)
Fixpoint answers (M : gmap Z Z) (cs : list art_call) (out : list Z) : Prop :=
  match cs, out with
  | [], [] => True
  | CallInsert k tid :: cs', _ => answers (<[k := tid]> M) cs' out
  | CallLookup k :: cs', tid :: out' => tid = default 0 (M !! k) /\ answers M cs' out'
  | CallNext k :: cs', tid :: out' => nearest_in M k tid /\ answers M cs' out'
  | _, _ => False
  end.

Fixpoint calls_ok (M : gmap Z Z) (cs : list art_call) : Prop :=
  match cs with
  | [] => True
  | CallInsert k tid :: cs' => entry_ok k tid /\ calls_ok (<[k := tid]> M) cs'
  | CallLookup k :: cs' => 0 <= k < 2 ^ 64 /\ calls_ok M cs'
  | CallNext k :: cs' => 0 <= k < 2 ^ 64 /\ M <> ∅ /\ calls_ok M cs'
  end.

Lemma art_exec_ok cs : forall t M, contents t M -> calls_ok M cs -> (size (heap t) + length cs <= am_heap)%nat ->
  exists out t', art_exec cs t = Ok (out, t') /\ answers M cs out.
Proof.
  induction cs as [|[k tid|k|k] cs IH]; intros t M C Hok Hm; cbn [art_exec calls_ok length] in *.
  - by exists [], t.
  - destruct Hok as [He Hok]. destruct (insert_contents t M k tid C He) as (t' & -> & C' & Hs); [apply am_room; lia|]. cbn [mbind res_bind].
    destruct (IH t' _ C' Hok) as (out & t2 & -> & Ha); [lia|]. by exists out, t2.
  - destruct Hok as [Hk Hok]. rewrite (lookup_contents t M k C Hk). cbn [mbind res_bind]. destruct (IH t M C Hok) as (out & t2 & -> & Ha); [lia|].
    eexists (_ :: out), t2. by split.
  - destruct Hok as (Hk & Hne & Hok). destruct (next_contents t M k C Hne Hk) as (tid & -> & Hn). cbn [mbind res_bind].
    destruct (IH t M C Hok) as (out & t2 & -> & Ha); [lia|]. eexists (_ :: out), t2. by split.
Qed.

(** * What is claimed *)

(** C11. A run of insertions, lookups and nearest-key lookups on a new PDL-ART
    tree, of any length that the memory has room for, in which every inserted
    pointer carries its key and nearest-key lookups come after the first
    insertion (on an empty tree they fault, [art_lookupNext_correct]), ends
    without fault and gives the answers of a map from keys to pointers: nodes
    that grow through the four layouts, prefixes that are compressed and split,
    and leaves that are replaced are not visible in the answers. *)
Theorem art_run_correct (cs : list art_call) (Hok : calls_ok ∅ cs) (Hroom : (S (length cs) <= am_heap)%nat) :
  exists out t, (t0 ← create; art_exec cs t0) = Ok (out, t) /\ answers ∅ cs out.
Proof.
  destruct create_contents as (t0 & E & C & Hs); [apply am_room; rewrite map_size_empty; lia|]. rewrite E. cbn [mbind res_bind].
  apply art_exec_ok; [done|done|lia].
Qed.

(** C12. [Tree::insert] of a 64-bit key and a pointer that carries it succeeds
    on a well-formed tree while a node can be allocated, and the tree then
    holds exactly the old entries with that key set to the pointer; the tree
    stays well formed and gains at most one node. *)
Theorem art_insert_correct (t : art) (M : gmap Z Z) (k tid : Z) (C : contents t M) (He : entry_ok k tid) (Hm : am_alloc (heap t) <> 0) :
  exists t', insert loadKey t k tid = Ok t' /\ contents t' (<[k := tid]> M) /\ (size (heap t') <= S (size (heap t)))%nat.
Proof. by apply insert_contents. Qed.

(** C16. [Tree::lookup] on a well-formed tree returns the pointer stored under
    the key, 0 for an absent key, although it skips the prefix bytes a node
    does not store. *)
Theorem art_lookup_correct (t : art) (M : gmap Z Z) (k : Z) (C : contents t M) (Hk : 0 <= k < 2 ^ 64) : lookup loadKey t k = Ok (default 0 (M !! k)).
Proof. by apply lookup_contents. Qed.

(** C17. [Tree::lookupNext] on a well-formed tree that is not empty returns a
    pointer of the tree such that no key of the tree lies between its key and
    the one looked for, which is found itself when it is present; on an empty
    tree it follows a null pointer.  One key is enough: the comment in
    [SearchLayer.h] that a range operation needs two keys is stricter than the
    code. *)
Theorem art_lookupNext_correct (t : art) (M : gmap Z Z) (start : Z) (C : contents t M) (Hs : 0 <= start < 2 ^ 64) :
  (M <> ∅ -> exists tid, lookupNext loadKey t start = Ok tid /\ nearest_in M start tid) /\ (M = ∅ -> lookupNext loadKey t start = Err NullDeref).
Proof. split; [intros Hne; by apply next_contents|intros ->; by apply next_empty]. Qed.

End map.

(** C19. The four node layouts are one map from bytes to children: on a
    well-formed node a child is found under exactly the bytes the map has;
    insertion of a new byte adds it, or reports a full node without a change,
    and then the next larger layout takes a copy with the same children and
    has room; a change replaces one child.  All of them keep the node well
    formed and its level and prefix. *)
Theorem node_layouts_correct (n : anode) (b p : Z) (Hn : node_ok n) (Hb : byte b) (Hp : nonnull p) :
  getChild n b = Ok (default 0 (kids n !! b)) /\
  (kids n !! b = None ->
    (exists n', n_insert n b p = Ok (Some n') /\ node_ok n' /\ kids n' = <[b := p]> (kids n) /\ same_head n n') \/
    n_insert n b p = Ok None /\ exists big n', copyTo n (bigger n) = Ok big /\ kids big = kids n /\
      n_insert big b p = Ok (Some n') /\ node_ok n' /\ kids n' = <[b := p]> (kids n) /\ same_head n n') /\
  (is_Some (kids n !! b) -> exists n', change n b p = Ok n' /\ node_ok n' /\ kids n' = <[b := p]> (kids n) /\ same_head n n').
Proof.
  split; [by apply getChild_kids|]. split.
  - intros Hno. destruct (decide (compactCount n < cap (n_body n))) as [Hr|Hr].
    + left. destruct (n_insert_ok n b p) as (n' & E & O & K & S & _); [done..|]. by exists n'.
    + right. split; [by apply n_insert_full|]. destruct (copyTo_bigger n Hn) as (big & E & O & K & S & Rm).
      destruct (n_insert_ok big b p) as (n' & E' & O' & K' & S' & _); [done..|by rewrite K|]. exists big, n'.
      split_and!; [done..|by rewrite K', K|by eapply same_head_trans].
  - intros Hs. destruct (change_ok n b p Hn Hp Hs) as (n' & E & O & K & S & _). by exists n'.
Qed.

(** * The interface of the search layer *)

Section interface.
Context `{ArtMemOk}.

(** The tree looks only at the keys of the pointers it holds. *)
Lemma contents_ext (f g : Z -> Z) t M : contents f t M -> (forall k tid, M !! k = Some tid -> g tid = f tid) -> contents g t M.
Proof.
  intros (A & [TO RE RO KE] & HM) Hg. assert (forall a x b tid, A !! a = Some x -> v_kids x !! b = Some (setLeaf tid) -> tid_ok tid -> g tid = f tid) as Hleaf.
  { intros a x b tid Ha Hb Ht. apply (Hg (f tid)), HM. split; [done|]. split; [done|]. by exists a, x, b. }
  assert (forall k tid, holds g A k tid <-> holds f A k tid) as Hh.
  { intros k tid. split; intros (Ht & El & a & x & b & Ha & Hb); (split; [done|]; split; [|by exists a, x, b]); rewrite <- El; [symmetry|]; by eapply Hleaf. }
  exists A. split; [|intros k tid; by rewrite Hh]. split; [|done|done|intros k tid Hk; apply (KE k tid); by apply Hh].
  destruct TO as [Tr Tn Ti]. split; [done| |done]. intros a x Ha. destruct (Tn a x Ha) as [V1 V2 V3 V4 V5 V6]. split; try done.
  intros b p Hb. destruct (V4 b p Hb) as [Hbb [(tid & -> & Ht & Hw)|Hk]]; (split; [done|]); [left|by right].
  exists tid. split; [done|]. split; [done|]. by rewrite (Hleaf a x b tid).
Qed.

#[export] Instance pdl_art : ArtTree art := {|
  art_new := create;
  art_insert := insert;
  art_remove := fun _ t k tid => Ok (remove t k tid);
  art_lookupNext := lookupNext;
|}.

(** The first node is the root; an insertion adds at most one. *)
#[export] Instance pdl_art_ok : ArtTreeOk art.
Proof.
  refine {| art_cap := pred am_heap; art_holds := fun f n t M => contents f t M /\ (size (heap t) <= S n)%nat |}; cbn [art_new art_insert art_lookupNext pdl_art].
  - intros f Hc. destruct (create_contents f) as (t & E & C & Hs); [apply am_room; rewrite map_size_empty; lia|]. exists t. split_and!; [done|done|lia].
  - intros f n t M k tid [C Hs] Hc Hk Ht Hl. destruct (insert_contents f t M k tid C) as (t' & E & C' & Hs'); [done|apply am_room; lia|].
    exists t'. split_and!; [done|done|lia].
  - intros f n t M k [C _] Hne Hk. by apply next_contents.
  - intros f g n t M [C Hs] Hg. split; [by eapply contents_ext|done].
Defined.
End interface.
