(* ===== verification/ArtExamples.v ===== *)
(** The radix tree on concrete inputs: an allocator, instances of the theorems,
    and a crash in the middle of an insertion. *)

From S2P Require Import Prelude NodeBits VersionedLock ListNode SearchLayer.
From S2P Require Import ArtNode ArtNodeFacts Art ArtTree ArtInvariant ArtLookup ArtInsert ArtNext ArtMap.

Local Open Scope Z_scope.

(** * An allocator of [n] nodes *)

Fixpoint first_hole (h : gmap Z anode) (p : Z) (n : nat) : Z :=
  match n with
  | O => 0
  | S n' => match h !! p with None => p | Some _ => first_hole h (p + 1) n' end
  end.

Lemma first_hole_spec h n : forall p, 0 < p ->
  (first_hole h p n = 0 /\ forall i, p <= i < p + Z.of_nat n -> is_Some (h !! i)) \/
  (h !! first_hole h p n = None /\ p <= first_hole h p n < p + Z.of_nat n).
Proof.
  induction n as [|n IH]; intros p Hp; cbn; [left; split; [done|lia]|].
  destruct (h !! p) as [x|] eqn:E; [|right; split; [done|lia]].
  destruct (IH (p + 1)) as [[E0 Ha]|[E0 Hr]]; [lia| |right; split; [done|lia]].
  left. split; [done|]. intros i Hi. destruct (decide (i = p)) as [->|]; [by eexists|]. apply Ha. lia.
Qed.

#[export] Instance small_mem : ArtMem := {| am_alloc h := first_hole h 1 256 |}.

Lemma small_addr p : 1 <= p < 257 -> nonnull p /\ isLeaf p = false.
Proof.
  intros Hp. assert (p ∈ (Z.of_nat <$> seq 1 256)) as Hin by (apply elem_of_bytes; lia). revert p Hin Hp.
  assert (Forall (fun p => nonnull p /\ isLeaf p = false) (Z.of_nat <$> seq 1 256)) as F.
  { unfold nonnull. by apply (bool_decide_unpack _); vm_compute. }
  intros p Hin _. by apply (proj1 (Forall_forall _ _) F).
Qed.

#[export] Instance small_mem_ok : ArtMemOk.
Proof.
  refine {| am_heap := 256%nat |}.
  - intros h Hz. change (am_alloc h) with (first_hole h 1 256) in *. destruct (first_hole_spec h 256 1) as [[E _]|[E Hr]]; [lia|done|].
    split; [done|]. apply small_addr. lia.
  - intros h Hs. change (am_alloc h) with (first_hole h 1 256). destruct (first_hole_spec h 256 1) as [[E Ha]|[E Hr]]; [lia| |lia]. exfalso.
    assert (length (Z.of_nat <$> seq 1 256) <= length (map_to_list h).*1)%nat as Hl.
    { apply nodup_subset_length; [apply NoDup_fmap_2; [apply _|apply NoDup_seq]|].
      intros i (j & -> & Hj%elem_of_seq)%list_elem_of_fmap. destruct (Ha (Z.of_nat j)) as [x Hx]; [lia|].
      apply list_elem_of_fmap. exists (Z.of_nat j, x). split; [done|]. by apply elem_of_map_to_list. }
    rewrite !length_fmap, length_seq, length_map_to_list in Hl. lia.
Defined.

(** The node of a key is at the address behind it. *)
Definition carried (tid : Z) : Z := tid - 1.

(** Two keys with seven bytes in common, one that differs from them inside of
    their compressed prefix, and one that is replaced. *)
Definition some_calls : list art_call :=
  [CallInsert 1 2; CallInsert 2 3; CallNext 7; CallLookup 1; CallInsert 65536 65537; CallLookup 2; CallInsert 2 3; CallNext 300; CallLookup 9; CallNext 65537].

Lemma some_calls_ok : calls_ok carried ∅ some_calls.
Proof.
  unfold some_calls, calls_ok, entry_ok, tid_ok, carried.
  repeat match goal with |- _ /\ _ => split end; try lia; try reflexivity; try exact I; apply insert_non_empty.
Qed.

Lemma art_run_correct_witness : exists out t, (t0 ← create; art_exec carried some_calls t0) = Ok (out, t) /\ answers ∅ some_calls out.
Proof. apply (art_run_correct carried some_calls some_calls_ok). vm_compute. lia. Defined.

Example some_calls_answers : (fst <$> (t0 ← create; art_exec carried some_calls t0)) = Ok [3; 2; 3; 3; 0; 65537].
Proof. by vm_compute. Qed.

(** * Instances *)

Definition tree_of (o : res art) : art := match o with Ok t => t | Err _ => MkArt ∅ 0 ∅ 0 end.
Definition new_tree : art := tree_of create.
Definition one_tree : art := tree_of (insert carried new_tree 1 2).

Lemma entry_one : entry_ok carried 1 2.
Proof. unfold entry_ok, tid_ok, carried. lia. Qed.
Lemma entry_two : entry_ok carried 2 3.
Proof. unfold entry_ok, tid_ok, carried. lia. Qed.

Lemma new_tree_contents : contents carried new_tree ∅.
Proof. destruct (create_contents carried) as (t & E & C & _); [by vm_compute|]. unfold new_tree. by rewrite E. Qed.

Lemma one_tree_contents : contents carried one_tree {[1 := 2]}.
Proof.
  destruct (insert_contents carried new_tree ∅ 1 2 new_tree_contents entry_one) as (t & E & C & _); [by vm_compute|].
  unfold one_tree. by rewrite E.
Qed.

Lemma art_insert_correct_witness : am_alloc (heap one_tree) <> 0 /\
  exists t', insert carried one_tree 2 3 = Ok t' /\ contents carried t' (<[2 := 3]> {[1 := 2]}) /\ (size (heap t') <= S (size (heap one_tree)))%nat.
Proof.
  assert (am_alloc (heap one_tree) <> 0) as Hm by (by vm_compute). split; [exact Hm|].
  apply (art_insert_correct carried one_tree {[1 := 2]} 2 3); [exact one_tree_contents|exact entry_two|exact Hm].
Defined.

Lemma art_lookup_correct_witness : lookup carried one_tree 1 = Ok 2.
Proof. rewrite (art_lookup_correct carried one_tree {[1 := 2]} 1 one_tree_contents); [reflexivity|lia]. Defined.

Lemma art_lookupNext_correct_witness : exists tid, lookupNext carried one_tree 200 = Ok tid /\ nearest_in {[1 := 2]} 200 tid.
Proof. apply (art_lookupNext_correct carried one_tree {[1 := 2]} 200); [exact one_tree_contents|lia|apply map_non_empty_singleton]. Defined.

Lemma node_layouts_correct_witness : exists n', change (new_N256 0 (MkPrefix 0 [])) 5 1 = Ok n' \/
  n_insert (new_N256 0 (MkPrefix 0 [])) 5 1 = Ok (Some n').
Proof.
  destruct (node_layouts_correct (new_N256 0 (MkPrefix 0 [])) 5 1) as (_ & Hi & _); [apply empty_node_ok|unfold byte; lia|reflexivity|].
  destruct Hi as [(n' & E & _)|(_ & big & n' & _)]; [by vm_compute|exists n'; right; exact E|].
  eexists. right. reflexivity.
Defined.

(** * A crash before the log is reset *)

(** The state behind [N::change] and before [oplogsCount = 0] when key 2 is
    inserted next to key 1. *)
Definition split_crash : res art := split_leaf one_tree (root one_tree) 2 3 (carried 2) 1 (setLeaf 2).

(** The log entry of the new node is not the one that is marked done: after a
    crash [recover] frees a node that is linked into the tree, and both of its
    keys are lost. *)
Theorem split_recovery_loses :
  insert carried one_tree 2 3 = (t ← split_crash; Ok (set_logCount 0 t)) /\
  (t ← split_crash; lookup carried t 1) = Ok 2 /\ (t ← split_crash; lookup carried t 2) = Ok 3 /\
  (t ← split_crash; lookup carried (recover t) 1) = Err BadAddress /\ (t ← split_crash; lookup carried (recover t) 2) = Err BadAddress.
Proof. by vm_compute. Qed.
