(* ===== verification/Epoche.v ===== *)
(** Deferred release of the nodes PDL-ART replaces
    ([src/PRISM/lib/pactree/lib/PDL-ART/Epoche.cpp], [Epoche.h]).

    A thread that enters the tree publishes the current epoch; a node that was
    unlinked is kept in the thread's deletion list under the epoch of that
    time, and is freed when every published epoch is later.

    Threads interleave at the grain of their accesses to the shared words (the
    current epoch and the published epochs); the deletion lists belong to their
    threads.  A linked list of labels is a list with its head first; a label
    holds its used slots. *)

From S2P Require Import Prelude.

Local Open Scope Z_scope.

(** * Deletion lists *)

Definition LABEL_NODES : nat := 32.
Definition EPOCH_MAX : Z := 2 ^ 64 - 1.

Record LabelDelete := MkLabel { lb_nodes : list Z; lb_epoche : Z }.

Record DeletionList := MkDeletionList {
  headDeletionList : list LabelDelete;
  freeLabelDeletes : list LabelDelete;
  deletitionListCount : Z;
  localEpoche : Z;
  thresholdCounter : Z;
  deleted : Z;
  added : Z;
}.

(** The member [localEpoche] has no initial value. *)
Definition new_deletions (garbage : Z) : DeletionList := MkDeletionList [] [] 0 garbage 0 0 0.

Definition set_local (e : Z) (d : DeletionList) : DeletionList :=
  MkDeletionList (headDeletionList d) (freeLabelDeletes d) (deletitionListCount d) e (thresholdCounter d) (deleted d) (added d).
Definition set_threshold (c : Z) (d : DeletionList) : DeletionList :=
  MkDeletionList (headDeletionList d) (freeLabelDeletes d) (deletitionListCount d) (localEpoche d) c (deleted d) (added d).

(** [remove] of the label at position [i], whose predecessor is [prev]. *)
Definition dl_remove_label (i : nat) (d : DeletionList) : res DeletionList :=
  label ← of_option NullDeref (headDeletionList d !! i);
  Ok (MkDeletionList (delete i (headDeletionList d)) (label :: freeLabelDeletes d)
        (to_u64 (deletitionListCount d - Z.of_nat (length (lb_nodes label)))) (localEpoche d) (thresholdCounter d)
        (to_u64 (deleted d + Z.of_nat (length (lb_nodes label)))) (added d)).

Definition dl_add (n globalEpoch : Z) (d : DeletionList) : DeletionList :=
  let '(labels, free) :=
    match headDeletionList d with
    | label :: labels' =>
        if (length (lb_nodes label) <? LABEL_NODES)%nat then (MkLabel (lb_nodes label ++ [n]) globalEpoch :: labels', freeLabelDeletes d)
        else (MkLabel [n] globalEpoch :: headDeletionList d, drop 1 (freeLabelDeletes d))
    | [] => ([MkLabel [n] globalEpoch], drop 1 (freeLabelDeletes d))
    end in
  MkDeletionList labels free (to_u64 (deletitionListCount d + 1)) (localEpoche d) (thresholdCounter d) (deleted d) (to_u64 (added d + 1)).

(** [markNodeForDeletion], on the list of the thread *)
Definition dl_mark (n globalEpoch : Z) (d : DeletionList) : DeletionList :=
  let d1 := dl_add n globalEpoch d in set_threshold (to_u64 (thresholdCounter d1 + 1)) d1.

(** The loop over the labels in [exitEpocheAndCleanup]: the list afterwards
    and the nodes given to [pmemobj_free]. *)
Fixpoint sweep (fuel i : nat) (oldestEpoche : Z) (d : DeletionList) (freed : list Z) : res (DeletionList * list Z) :=
  match headDeletionList d !! i with
  | None => Ok (d, freed)
  | Some cur =>
      match fuel with
      | O => Err NoReturn
      | S fuel' =>
          if lb_epoche cur <? oldestEpoche then d' ← dl_remove_label i d; sweep fuel' i oldestEpoche d' (freed ++ lb_nodes cur)
          else sweep fuel' (S i) oldestEpoche d freed
      end
  end.

(** * Destruction *)

(** The loop over the published epochs *)
Definition oldest_epoche (ls : list DeletionList) : Z := foldl (fun o d => if localEpoche d <? o then localEpoche d else o) EPOCH_MAX ls.

(** The labels of a list in [~Epoche] *)
Fixpoint destroy_labels (fuel : nat) (oldestEpoche : Z) (d : DeletionList) (freed : list Z) : res (DeletionList * list Z) :=
  match headDeletionList d with
  | [] => Ok (d, freed)
  | cur :: _ =>
      match fuel with
      | O => Err NoReturn
      | S fuel' =>
          if lb_epoche cur <? oldestEpoche then d' ← dl_remove_label 0 d; destroy_labels fuel' oldestEpoche d' (freed ++ lb_nodes cur)
          else Err AssertFailure
      end
  end.

(** [~DeletionList] *)
Definition destroy_list (d : DeletionList) : res unit :=
  if (deletitionListCount d =? 0) && bool_decide (length (headDeletionList d) = 0%nat) then Ok tt else Err AssertFailure.

Fixpoint destroy_members (ls : list DeletionList) : res unit :=
  match ls with
  | [] => Ok tt
  | d :: ls' => _ ← destroy_list d; destroy_members ls'
  end.

Fixpoint destroy_lists (oldestEpoche : Z) (ls : list DeletionList) (freed : list Z) : res (list DeletionList * list Z) :=
  match ls with
  | [] => Ok ([], freed)
  | d :: ls' =>
      '(d', freed1) ← destroy_labels (length (headDeletionList d)) oldestEpoche d freed;
      '(ds, freed2) ← destroy_lists oldestEpoche ls' freed1;
      Ok (d' :: ds, freed2)
  end.

(** [~Epoche] and its members: the nodes it frees. *)
Definition destroy_Epoche (ls : list DeletionList) : res (list Z) :=
  '(ds, freed) ← destroy_lists (oldest_epoche ls) ls [];
  _ ← destroy_members ds;
  Ok freed.

(** * Threads *)

(** Where a thread is: outside; between the load and the store of
    [enterEpoche]; inside, with the nodes that were reachable at some time
    since it entered; behind the first statement of [exitEpocheAndCleanup];
    in its loop over the published epochs. *)
Inductive pc :=
  | Outside
  | Entering (curEpoche : Z)
  | Inside (seen : gset Z)
  | Exiting
  | Scanning (rest : list nat) (oldestEpoche : Z).

(** A node of the tree: reachable from the root; unlinked by a thread that has
    not marked it yet; in the deletion list of a thread.  A freed node has no
    status, and its memory may be allocated again. *)
Inductive status := Linked | Unlinked (t : nat) | Pending (t : nat).

#[export] Instance status_eq_dec : EqDecision status.
Proof. solve_decision. Defined.

Record state := MkState { currentEpoche : Z; lists : nat -> DeletionList; pcs : nat -> pc; mem : gmap Z status }.

Definition upd_fn {A} (t : nat) (x : A) (f : nat -> A) : nat -> A := fun t' => if decide (t' = t) then x else f t'.

Definition set_pc (t : nat) (x : pc) (s : state) : state := MkState (currentEpoche s) (lists s) (upd_fn t x (pcs s)) (mem s).
Definition set_list (t : nat) (d : DeletionList) (s : state) : state := MkState (currentEpoche s) (upd_fn t d (lists s)) (pcs s) (mem s).
Definition set_mem (m : gmap Z status) (s : state) : state := MkState (currentEpoche s) (lists s) (pcs s) m.

Definition linked_nodes (m : gmap Z status) : gset Z := dom (filter (fun ns => ns.2 = Linked) m).

(** A thread inside has seen every node that becomes reachable. *)
Definition see (n : Z) (x : pc) : pc := match x with Inside seen => Inside ({[n]} ∪ seen) | _ => x end.

Inductive action :=
  | ALoad | AStore
  | ALink (n : Z) | AUnlink (n : Z) | AMark (n : Z)
  | ALeave | ADrop
  | AExit | AClean | AScan | ASweep.

Section threads.
(** The number of threads and [startGCThreshhold]. *)
Variables (N : nat) (startGCThreshhold : Z).

(** [enterEpoche] *)
Definition enter_load (t : nat) (s : state) : state := set_pc t (Entering (currentEpoche s)) s.
Definition enter_store (t : nat) (e : Z) (s : state) : state := set_pc t (Inside (linked_nodes (mem s))) (set_list t (set_local e (lists s t)) s).

Definition markNodeForDeletion (t : nat) (n : Z) (s : state) : state :=
  set_mem (<[n := Pending t]> (mem s)) (set_list t (dl_mark n (currentEpoche s) (lists s t)) s).

(** [exitEpocheAndCleanup]: the epoch, the decision to clean up, the loop over
    the published epochs, the loop over the labels. *)
Definition exit_tick (t : nat) (s : state) : state :=
  let s1 := set_pc t Exiting s in
  if Z.land (thresholdCounter (lists s t)) (64 - 1) =? 1 then MkState (to_u64 (currentEpoche s + 1)) (lists s1) (pcs s1) (mem s1) else s1.

Definition exit_clean (t : nat) (s : state) : state :=
  let d := lists s t in
  if startGCThreshhold <? thresholdCounter d then
    if deletitionListCount d =? 0 then set_pc t Outside (set_list t (set_threshold 0 d) s)
    else set_pc t (Scanning (seq 0 N) EPOCH_MAX) (set_list t (set_local EPOCH_MAX d) s)
  else set_pc t Outside s.

Definition exit_scan (t t' : nat) (rest : list nat) (oldest : Z) (s : state) : state :=
  let e := localEpoche (lists s t') in set_pc t (Scanning rest (if e <? oldest then e else oldest)) s.

Definition exit_sweep (t : nat) (oldest : Z) (s : state) : option state :=
  match sweep (length (headDeletionList (lists s t))) 0 oldest (lists s t) [] with
  | Ok (d, freed) => Some (set_pc t Outside (set_mem (foldr delete (mem s) freed) (set_list t (set_threshold 0 d) s)))
  | Err _ => None
  end.

(** [None]: not what the thread can do now. *)
Definition epoche_act (t : nat) (a : action) (s : state) : option state :=
  if (t <? N)%nat then
    match a, pcs s t with
    | ALoad, Outside => Some (enter_load t s)
    | AStore, Entering e => Some (enter_store t e s)
    | ALink n, Inside _ =>
        match mem s !! n with
        | None => Some (MkState (currentEpoche s) (lists s) (fun t' => see n (pcs s t')) (<[n := Linked]> (mem s)))
        | Some _ => None
        end
    | AUnlink n, Inside _ => match mem s !! n with Some Linked => Some (set_mem (<[n := Unlinked t]> (mem s)) s) | _ => None end
    | AMark n, Inside _ => if decide (mem s !! n = Some (Unlinked t)) then Some (markNodeForDeletion t n s) else None
    | ALeave, Inside _ => Some (set_pc t Outside s)
    | ADrop, Outside => Some (set_list t (set_local EPOCH_MAX (lists s t)) s)
    | AExit, Inside _ => Some (exit_tick t s)
    | AClean, Exiting => Some (exit_clean t s)
    | AScan, Scanning (t' :: rest) o => Some (exit_scan t t' rest o s)
    | ASweep, Scanning [] o => exit_sweep t o s
    | _, _ => None
    end
  else None.

Fixpoint acts (s : state) (l : list (nat * action)) : option state :=
  match l with
  | [] => Some s
  | (t, a) :: l' => s' ← epoche_act t a s; acts s' l'
  end.
End threads.

(** The tree at the start, with whatever the published epochs are. *)
Definition start (garbage : nat -> Z) (tree : gset Z) : state :=
  MkState 0 (fun t => new_deletions (garbage t)) (fun _ => Outside) (gset_to_gmap Linked tree).
