(* ===== verification/EpocheFacts.v ===== *)
(** No node is freed while a thread is inside that could have reached it, and
    none is freed twice. *)

From S2P Require Import Prelude Epoche.

Local Open Scope Z_scope.

(** * Deletion lists *)

Definition dl_nodes (d : DeletionList) : list Z := concat (lb_nodes <$> headDeletionList d).

Lemma dl_nodes_elem d n : n ∈ dl_nodes d <-> exists l, l ∈ headDeletionList d /\ n ∈ lb_nodes l.
Proof.
  unfold dl_nodes. rewrite list_elem_of_In, in_concat. setoid_rewrite <- list_elem_of_In. setoid_rewrite list_elem_of_fmap. naive_solver.
Qed.

(** A node is added to the first label, which takes the new epoch. *)
Lemma dl_add_nodes n g d : dl_nodes (dl_add n g d) ≡ₚ n :: dl_nodes d.
Proof.
  unfold dl_nodes, dl_add. destruct (headDeletionList d) as [|[ns e] ls]; [done|]. cbn [lb_nodes]. destruct (_ <? _)%nat; cbn; [|done].
  rewrite <- app_assoc. cbn. by rewrite <- Permutation_middle.
Qed.

Lemma dl_add_label n g d l : l ∈ headDeletionList (dl_add n g d) ->
  lb_epoche l = g /\ (forall x, x ∈ lb_nodes l -> x = n \/ exists l', l' ∈ headDeletionList d /\ x ∈ lb_nodes l') \/ l ∈ headDeletionList d.
Proof.
  unfold dl_add. destruct (headDeletionList d) as [|[ns e] ls].
  - cbn. intros ->%list_elem_of_singleton. left. split; [done|]. cbn. intros x ->%list_elem_of_singleton. by left.
  - cbn [lb_nodes]. destruct (_ <? _)%nat; cbn; intros [->|Hl]%elem_of_cons.
    + left. split; [done|]. cbn. intros x [Hx| ->%list_elem_of_singleton]%elem_of_app; [right; exists (MkLabel ns e); split; [by left|done]|by left].
    + right. by right.
    + left. split; [done|]. cbn. intros x ->%list_elem_of_singleton. by left.
    + by right.
Qed.

(** The counter of a list is the number of its nodes. *)
Definition counted (d : DeletionList) : Prop := deletitionListCount d = to_u64 (Z.of_nat (length (dl_nodes d))).

Lemma to_u64_plus a b : to_u64 (to_u64 a + b) = to_u64 (a + b).
Proof. unfold to_u. by rewrite Zplus_mod_idemp_l. Qed.

Lemma dl_add_counted n g d : counted d -> counted (dl_add n g d).
Proof.
  unfold counted. intros Hc. rewrite (dl_add_nodes n g d). cbn [length].
  assert (deletitionListCount (dl_add n g d) = to_u64 (deletitionListCount d + 1)) as -> by (unfold dl_add; by destruct (match headDeletionList d with [] => _ | _ => _ end)).
  rewrite Hc, to_u64_plus. f_equal. lia.
Qed.

Lemma dl_remove_counted dn l todo d : headDeletionList d = dn ++ l :: todo -> counted d ->
  exists d', dl_remove_label (length dn) d = Ok d' /\ headDeletionList d' = dn ++ todo /\ counted d' /\ localEpoche d' = localEpoche d.
Proof.
  intros E Hc. unfold dl_remove_label. rewrite E, list_lookup_middle by done. cbn -[to_u64]. eexists. split; [done|]. split; [apply delete_middle|]. split; [|done].
  unfold counted, dl_nodes in *. cbn -[to_u64]. rewrite delete_middle. rewrite E in Hc. rewrite Hc, !fmap_app, fmap_cons, !concat_app. cbn -[to_u64]. rewrite !length_app.
  unfold Z.sub. rewrite to_u64_plus. f_equal. lia.
Qed.

(** What the loop over the labels leaves and frees. *)
Lemma sweep_eq fuel : forall done todo oldest d freed, headDeletionList d = done ++ todo -> counted d -> (length todo <= fuel)%nat ->
  exists d', sweep fuel (length done) oldest d freed = Ok (d', freed ++ concat (lb_nodes <$> filter (fun l => lb_epoche l < oldest) todo)) /\
    headDeletionList d' = done ++ filter (fun l => oldest <= lb_epoche l) todo /\ localEpoche d' = localEpoche d /\ counted d'.
Proof.
  induction fuel as [|fuel IH]; intros dn todo oldest d freed E Hcd Hf.
  - destruct todo; [|cbn in Hf; lia]. rewrite app_nil_r in E. exists d. cbn [sweep]. rewrite E, lookup_ge_None_2 by done. by rewrite !app_nil_r.
  - cbn [sweep]. rewrite E. destruct todo as [|l todo].
    + rewrite app_nil_r in *. rewrite lookup_ge_None_2 by done. exists d. by rewrite !app_nil_r.
    + rewrite list_lookup_middle by done. rewrite !filter_cons. destruct (Z.ltb_spec (lb_epoche l) oldest) as [Hlt|Hge].
      * rewrite (decide_True _ _ Hlt), decide_False by lia. destruct (dl_remove_counted dn l todo d E Hcd) as (d1 & -> & E1 & Hc1 & Hl1). cbn -[sweep].
        destruct (IH dn todo oldest d1 (freed ++ lb_nodes l) E1 Hc1) as (d' & -> & Hh & Hl & Hc'); [cbn in Hf; lia|].
        exists d'. rewrite <- app_assoc. split_and!; [done|done|congruence|done].
      * rewrite decide_False by lia. rewrite decide_True by done.
        destruct (IH (dn ++ [l]) todo oldest d freed) as (d' & Er & Hh & Hl & Hc'); [by rewrite <- app_assoc|done|cbn in Hf; lia|]. rewrite length_app in Er. cbn in Er. rewrite Nat.add_1_r in Er.
        exists d'. rewrite Er. split_and!; [done| |done|done]. by rewrite Hh, <- app_assoc.
Qed.

Lemma destroy_labels_ok oldest ls : forall d freed, headDeletionList d = ls -> counted d -> Forall (fun l => lb_epoche l < oldest) ls ->
  exists d', destroy_labels (length ls) oldest d freed = Ok (d', freed ++ concat (lb_nodes <$> ls)) /\ headDeletionList d' = [] /\ counted d'.
Proof.
  induction ls as [|l ls IH]; intros d freed E Hc HF.
  - exists d. cbn. rewrite E, app_nil_r. done.
  - apply Forall_cons in HF as [Hl HF]. cbn [destroy_labels length]. rewrite E. rewrite (proj2 (Z.ltb_lt _ _)) by done.
    destruct (dl_remove_counted [] l ls d E Hc) as (d1 & Er & E1 & Hc1 & _). cbn in Er. rewrite Er. cbn. destruct (IH d1 (freed ++ lb_nodes l) E1 Hc1 HF) as (d' & -> & Hh & Hc'). exists d'. rewrite <- app_assoc. done.
Qed.

Lemma destroy_lists_ok oldest ls : forall freed, Forall (fun d => counted d /\ Forall (fun l => lb_epoche l < oldest) (headDeletionList d)) ls ->
  exists ds, destroy_lists oldest ls freed = Ok (ds, freed ++ concat (dl_nodes <$> ls)) /\ destroy_members ds = Ok tt.
Proof.
  induction ls as [|d ls IH]; intros freed HF; [exists []; by rewrite app_nil_r|]. apply Forall_cons in HF as [[Hc Hl] HF]. cbn [destroy_lists].
  destruct (destroy_labels_ok oldest _ d freed eq_refl Hc Hl) as (d' & -> & Hh & Hc'). destruct (IH (freed ++ dl_nodes d) HF) as (ds & Ed & Hds). unfold dl_nodes in Ed at 1. cbn -[destroy_lists]. rewrite Ed. cbn.
  exists (d' :: ds). rewrite <- app_assoc. split; [done|]. cbn. unfold destroy_list. rewrite Hh. unfold counted, dl_nodes in Hc'. rewrite Hh in Hc'. by rewrite Hc'.
Qed.

Lemma oldest_all_out ls : Forall (fun d => localEpoche d = EPOCH_MAX) ls -> oldest_epoche ls = EPOCH_MAX.
Proof. unfold oldest_epoche. induction 1 as [|d ls Hd _ IH]; [done|]. cbn [foldl]. rewrite Hd. by rewrite Z.ltb_irrefl. Qed.

(** When every thread has left, the destructor frees every node that waits. *)
Lemma destroy_frees_all ls : Forall (fun d => localEpoche d = EPOCH_MAX) ls ->
  Forall (fun d => counted d /\ Forall (fun l => lb_epoche l < EPOCH_MAX) (headDeletionList d)) ls -> destroy_Epoche ls = Ok (concat (dl_nodes <$> ls)).
Proof. intros Hout HF. unfold destroy_Epoche. rewrite (oldest_all_out ls Hout). destruct (destroy_lists_ok EPOCH_MAX ls [] HF) as (ds & -> & Hds). cbn. by rewrite Hds. Qed.

Lemma concat_unique {A} (f : A -> list Z) L a b n : NoDup (concat (f <$> L)) -> a ∈ L -> b ∈ L -> n ∈ f a -> n ∈ f b -> a = b.
Proof.
  assert (forall c, c ∈ L -> n ∈ f c -> n ∈ concat (f <$> L)) as Hin.
  { intros c Hc Hn. apply list_elem_of_In, in_concat. exists (f c). split; [|by apply list_elem_of_In]. apply list_elem_of_In, list_elem_of_fmap. eauto. }
  induction L as [|c L IH]; cbn; intros Hnd Ha Hb Hna Hnb; [by apply not_elem_of_nil in Ha|].
  apply NoDup_app in Hnd as (_ & Hdis & Hnd). assert (forall d, d ∈ L -> n ∈ f d -> n ∈ concat (f <$> L)) as Hin'.
  { intros d Hd Hn. apply list_elem_of_In, in_concat. exists (f d). split; [|by apply list_elem_of_In]. apply list_elem_of_In, list_elem_of_fmap. eauto. }
  apply elem_of_cons in Ha as [->|Ha], Hb as [->|Hb]; [done|..].
  - destruct (Hdis n Hna). by eapply Hin'.
  - destruct (Hdis n Hnb). by eapply Hin'.
  - by apply IH.
Qed.

Lemma concat_filter_nodup {A} (f : A -> list Z) (P : A -> Prop) `{forall x, Decision (P x)} L : NoDup (concat (f <$> L)) -> NoDup (concat (f <$> filter P L)).
Proof.
  induction L as [|a L IH]; [done|]. intros Hnd. cbn in Hnd. apply NoDup_app in Hnd as (Hnd1 & Hdis & Hnd2). rewrite filter_cons. destruct (decide (P a)); [|by apply IH].
  cbn. apply NoDup_app. split; [done|]. split; [|by apply IH]. intros x Hx Hin. apply (Hdis x Hx). apply list_elem_of_In, in_concat in Hin as (y & Hy & Hxy).
  apply list_elem_of_In, list_elem_of_fmap in Hy as (l & -> & Hl). apply list_elem_of_filter in Hl as [_ Hl]. apply list_elem_of_In, in_concat. exists (f l).
  split; [|done]. apply list_elem_of_In, list_elem_of_fmap. eauto.
Qed.

(** * The invariant *)

Lemma linked_nodes_elem m n : n ∈ linked_nodes m <-> m !! n = Some Linked.
Proof.
  unfold linked_nodes. rewrite elem_of_dom. unfold is_Some. setoid_rewrite map_lookup_filter_Some. cbn. naive_solver.
Qed.

Section inv.
Context (N : nat) (gc : Z).

(** [k]: a bound of the current epoch. *)
Record inv (k : Z) (s : state) : Prop := {
  in_cur : 0 <= currentEpoche s <= k;
  in_entering : forall t e, pcs s t = Entering e -> e <= currentEpoche s;
  in_inside : forall t seen, pcs s t = Inside seen -> localEpoche (lists s t) <= currentEpoche s;
  in_threads : forall t seen, pcs s t = Inside seen -> (t < N)%nat;
  in_labels : forall t l, l ∈ headDeletionList (lists s t) -> lb_epoche l <= currentEpoche s;
  in_pending : forall t n, n ∈ dl_nodes (lists s t) -> mem s !! n = Some (Pending t);
  in_nodup : forall t, NoDup (dl_nodes (lists s t));
  in_counted : forall t, counted (lists s t);
  in_linked : forall t seen n, pcs s t = Inside seen -> mem s !! n = Some Linked -> n ∈ seen;
  in_seen : forall t seen n, pcs s t = Inside seen -> n ∈ seen -> is_Some (mem s !! n);
  in_epoch : forall t seen n t' l, pcs s t = Inside seen -> n ∈ seen -> l ∈ headDeletionList (lists s t') -> n ∈ lb_nodes l -> localEpoche (lists s t) <= lb_epoche l;
  in_scan : forall t rest o t' seen n l, pcs s t = Scanning rest o -> (t' < N)%nat -> t' ∉ rest -> pcs s t' = Inside seen -> n ∈ seen ->
    l ∈ headDeletionList (lists s t) -> n ∈ lb_nodes l -> o <= lb_epoche l;
}.

(** Steps that change neither the memory nor the labels, and nothing about
    threads inside. *)
Lemma inv_quiet k s s' : inv k s -> mem s' = mem s -> (forall t, headDeletionList (lists s' t) = headDeletionList (lists s t) /\ deletitionListCount (lists s' t) = deletitionListCount (lists s t)) ->
  currentEpoche s <= currentEpoche s' <= k + 1 ->
  (forall t e, pcs s' t = Entering e -> e <= currentEpoche s') ->
  (forall t seen, pcs s' t = Inside seen -> (t < N)%nat /\ localEpoche (lists s' t) <= currentEpoche s' /\
    (pcs s t = Inside seen /\ localEpoche (lists s' t) = localEpoche (lists s t) \/ seen = linked_nodes (mem s))) ->
  (forall t rest o, pcs s' t = Scanning rest o ->
    rest = seq 0 N \/ exists rest' o', pcs s t = Scanning rest' o' /\ o <= o' /\ forall t' seen, t' ∉ rest -> t' ∈ rest' -> pcs s t' = Inside seen -> o <= localEpoche (lists s t')) ->
  inv (k + 1) s'.
Proof.
  intros I Hmem HL Hcur Hent Hin Hscan. pose proof (in_cur _ _ I) as Hc. pose proof (fun t => proj1 (HL t)) as Hlab. cbn in Hlab.
  assert (forall n t', n ∈ linked_nodes (mem s) -> n ∈ dl_nodes (lists s t') -> False) as Hlink.
  { intros n t' Hn%linked_nodes_elem Hd. rewrite (in_pending _ _ I _ _ Hd) in Hn. congruence. }
  split.
  - lia.
  - done.
  - intros t seen Ht. by destruct (Hin _ _ Ht) as (? & ? & _).
  - intros t seen Ht. by destruct (Hin _ _ Ht) as (? & ? & _).
  - intros t l. rewrite Hlab. intros Hl. apply (in_labels _ _ I) in Hl. lia.
  - intros t n. unfold dl_nodes. rewrite Hlab, Hmem. apply (in_pending _ _ I).
  - intros t. unfold dl_nodes. rewrite Hlab. apply (in_nodup _ _ I).
  - intros t. unfold counted, dl_nodes. rewrite (proj2 (HL t)), Hlab. apply (in_counted _ _ I).
  - intros t seen n Ht. rewrite Hmem. intros Hn. destruct (Hin _ _ Ht) as (_ & _ & [[Ht' _]| ->]); [by eapply (in_linked _ _ I)|].
    by apply linked_nodes_elem.
  - intros t seen n Ht Hn. rewrite Hmem. destruct (Hin _ _ Ht) as (_ & _ & [[Ht' _]| ->]); [by eapply (in_seen _ _ I)|].
    apply linked_nodes_elem in Hn. eauto.
  - intros t seen n t' l Ht Hn Hl Hnl. rewrite Hlab in Hl. destruct (Hin _ _ Ht) as (_ & _ & [[Ht' ->]| ->]); [by eapply (in_epoch _ _ I)|].
    destruct (Hlink n t'); [done|]. apply dl_nodes_elem. eauto.
  - intros t rest o t' seen n l Ht Ht' Hrest Hpc Hn Hl Hnl. rewrite Hlab in Hl. destruct (Hscan _ _ _ Ht) as [->|(rest' & o' & Hs & Ho & Hnew)].
    { destruct Hrest. apply elem_of_seq. lia. }
    destruct (Hin _ _ Hpc) as (_ & _ & [[Hpc' _]| ->]); [|destruct (Hlink n t); [done|apply dl_nodes_elem; eauto]].
    destruct (decide (t' ∈ rest')) as [Hr|Hr].
    + pose proof (Hnew _ _ Hrest Hr Hpc'). pose proof (in_epoch _ _ I _ _ _ _ _ Hpc' Hn Hl Hnl). lia.
    + pose proof (in_scan _ _ I _ _ _ _ _ _ _ Hs Ht' Hr Hpc' Hn Hl Hnl). lia.
Qed.

(** The steps that change the memory. *)
Lemma inv_link k s n : inv k s -> mem s !! n = None ->
  inv (k + 1) (MkState (currentEpoche s) (lists s) (fun t => see n (pcs s t)) (<[n := Linked]> (mem s))).
Proof.
  intros I Hn. pose proof (in_cur _ _ I).
  assert (forall t seen, see n (pcs s t) = Inside seen -> exists seen', pcs s t = Inside seen' /\ seen = {[n]} ∪ seen') as Hsee.
  { intros t seen Ht. destruct (pcs s t); cbn in Ht; try done. injection Ht as <-. eauto. }
  assert (forall t x, x ∈ dl_nodes (lists s t) -> x <> n) as Hne. { intros t x Hx ->. rewrite (in_pending _ _ I _ _ Hx) in Hn. done. }
  split; cbn.
  - lia.
  - intros t e Ht. apply (in_entering _ _ I t). by destruct (pcs s t).
  - intros t seen (seen' & Ht & _)%Hsee. by eapply (in_inside _ _ I).
  - intros t seen (seen' & Ht & _)%Hsee. by eapply (in_threads _ _ I).
  - apply I.
  - intros t x Hx. rewrite lookup_insert_ne by (intros <-; by eapply Hne). by apply (in_pending _ _ I).
  - apply I.
  - apply I.
  - intros t seen x (seen' & Ht & ->)%Hsee [[<- _]|[_ Hx]]%lookup_insert_Some; [set_solver|]. pose proof (in_linked _ _ I _ _ _ Ht Hx). set_solver.
  - intros t seen x (seen' & Ht & ->)%Hsee Hx. destruct (decide (x = n)) as [->|Hxn]; [rewrite lookup_insert_eq; eauto|]. rewrite lookup_insert_ne by done.
    apply (in_seen _ _ I t seen'); [done|]. set_solver.
  - intros t seen x t' l (seen' & Ht & ->)%Hsee Hx Hl Hxl. assert (x <> n) as Hxn by (apply (Hne t'), dl_nodes_elem; eauto).
    apply (in_epoch _ _ I t seen' x t' l); [done|set_solver|done|done].
  - intros t rest o t' seen x l Ht Ht' Hr (seen' & Hpc & ->)%Hsee Hx Hl Hxl. assert (x <> n) as Hxn by (apply (Hne t), dl_nodes_elem; eauto).
    apply (in_scan _ _ I t rest o t' seen' x l); [by destruct (pcs s t)|done|done|done|set_solver|done|done].
Qed.

Lemma inv_unlink k s t n : inv k s -> mem s !! n = Some Linked -> inv (k + 1) (set_mem (<[n := Unlinked t]> (mem s)) s).
Proof.
  intros I Hn. pose proof (in_cur _ _ I). split; cbn; [lia|apply I..| |apply I|apply I| | |apply I|apply I].
  - intros t' x Hx. rewrite lookup_insert_ne; [by apply (in_pending _ _ I)|]. intros <-. rewrite (in_pending _ _ I _ _ Hx) in Hn. done.
  - intros t' seen x Ht [[_ Hx]|[_ Hx]]%lookup_insert_Some; [done|]. by eapply (in_linked _ _ I).
  - intros t' seen x Ht Hx. destruct (decide (x = n)) as [->|Hne]; [rewrite lookup_insert_eq; eauto|]. rewrite lookup_insert_ne by done. by eapply (in_seen _ _ I).
Qed.

Lemma inv_mark k s t n : inv k s -> mem s !! n = Some (Unlinked t) -> (forall rest o, pcs s t <> Scanning rest o) -> inv (k + 1) (markNodeForDeletion t n s).
Proof.
  intros I Hn Hns. pose proof (in_cur _ _ I).
  assert (forall t' l, l ∈ headDeletionList (upd_fn t (dl_mark n (currentEpoche s) (lists s t)) (lists s) t') ->
    l ∈ headDeletionList (lists s t') \/ t' = t /\ lb_epoche l = currentEpoche s) as Hlab.
  { intros t' l. unfold upd_fn. case_decide as Ht; [subst t'|by left]. cbn -[dl_add]. intros [[He _]|Hl]%dl_add_label; auto. }
  assert (forall t', localEpoche (upd_fn t (dl_mark n (currentEpoche s) (lists s t)) (lists s) t') = localEpoche (lists s t')) as Hloc.
  { intros t'. unfold upd_fn. case_decide as Ht; [subst t'|done]. unfold dl_mark, dl_add. by destruct (match headDeletionList (lists s t) with [] => _ | _ => _ end). }
  assert (forall t' x, x ∈ dl_nodes (upd_fn t (dl_mark n (currentEpoche s) (lists s t)) (lists s) t') ->
    x ∈ dl_nodes (lists s t') \/ t' = t /\ x = n) as Hnodes.
  { intros t' x. unfold upd_fn. case_decide as Ht; [subst t'|by left]. change (dl_nodes (dl_mark n (currentEpoche s) (lists s t))) with (dl_nodes (dl_add n (currentEpoche s) (lists s t))). rewrite dl_add_nodes. intros [->|Hx]%elem_of_cons; auto. }
  assert (forall t' x, x ∈ dl_nodes (lists s t') -> x <> n) as Hne. { intros t' x Hx ->. rewrite (in_pending _ _ I _ _ Hx) in Hn. done. }
  unfold markNodeForDeletion. split; cbn -[dl_add to_u64].
  - lia.
  - apply I.
  - intros t' seen Ht. rewrite Hloc. by eapply (in_inside _ _ I).
  - apply I.
  - intros t' l [Hl|[_ ->]]%Hlab; [by eapply (in_labels _ _ I)|lia].
  - intros t' x [Hx|[-> ->]]%Hnodes; [|by rewrite lookup_insert_eq]. rewrite lookup_insert_ne by (intros <-; by eapply Hne). by apply (in_pending _ _ I).
  - intros t'. unfold upd_fn. case_decide as Ht; [|apply I]. change (dl_nodes (dl_mark n (currentEpoche s) (lists s t))) with (dl_nodes (dl_add n (currentEpoche s) (lists s t))). rewrite dl_add_nodes. apply NoDup_cons. split; [|apply I].
    intros Hx. by apply (Hne t n).
  - intros t'. unfold upd_fn. case_decide as Ht; [|apply I]. apply (dl_add_counted n (currentEpoche s) (lists s t)), I.
  - intros t' seen x Ht [[_ Hx]|[_ Hx]]%lookup_insert_Some; [done|]. by eapply (in_linked _ _ I).
  - intros t' seen x Ht Hx. destruct (decide (x = n)) as [->|Hxn]; [rewrite lookup_insert_eq; eauto|]. rewrite lookup_insert_ne by done. by eapply (in_seen _ _ I).
  - intros t1 seen x t2 l Ht Hx Hl Hxl. rewrite Hloc. destruct (Hlab _ _ Hl) as [Hl'|[_ ->]]; [by eapply (in_epoch _ _ I)|]. by eapply (in_inside _ _ I).
  - intros t1 rest o t2 seen x l Ht Ht2 Hr Hpc Hx Hl Hxl. destruct (Hlab _ _ Hl) as [Hl'|[-> _]]; [by eapply (in_scan _ _ I)|]. by destruct (Hns rest o).
Qed.

Lemma lookup_deleted (m : gmap Z status) (l : list Z) n : foldr delete m l !! n = if decide (n ∈ l) then None else m !! n.
Proof. case_decide; [by apply lookup_foldr_delete|by apply lookup_foldr_delete_not_elem_of]. Qed.

(** What is freed was seen by no thread inside. *)
Lemma inv_sweep k s t o s' : inv k s -> pcs s t = Scanning [] o -> exit_sweep t o s = Some s' ->
  inv (k + 1) s' /\ forall n, mem s !! n <> mem s' !! n -> mem s !! n = Some (Pending t) /\ forall t' seen, pcs s t' = Inside seen -> n ∉ seen.
Proof.
  intros I Ht. unfold exit_sweep. destruct (sweep_eq (length (headDeletionList (lists s t))) [] (headDeletionList (lists s t)) o (lists s t) [] eq_refl (in_counted _ _ I t) ltac:(lia)) as (d & Er & Hh & Hloc & Hcnt).
  cbn in Er. rewrite Er. intros [= <-]. set (freed := concat _). cbn in Hh.
  assert (forall n, n ∈ freed -> exists l, l ∈ headDeletionList (lists s t) /\ n ∈ lb_nodes l /\ lb_epoche l < o) as Hfreed.
  { intros n Hn. apply list_elem_of_In, in_concat in Hn as (y & Hy & Hn). apply list_elem_of_In, list_elem_of_fmap in Hy as (l & -> & Hl). apply list_elem_of_In in Hn.
    apply list_elem_of_filter in Hl as [He Hl]. eauto. }
  assert (forall n, n ∈ freed -> mem s !! n = Some (Pending t)) as Hpend.
  { intros n (l & Hl & Hn & _)%Hfreed. apply (in_pending _ _ I). apply dl_nodes_elem. eauto. }
  assert (forall n t' seen, n ∈ freed -> pcs s t' = Inside seen -> n ∉ seen) as Hunseen.
  { intros n t' seen (l & Hl & Hn & He)%Hfreed Hpc Hs. pose proof (in_scan _ _ I t [] o t' seen n l Ht (in_threads _ _ I _ _ Hpc) (not_elem_of_nil _) Hpc Hs Hl Hn). lia. }
  assert (forall t' l, l ∈ headDeletionList (upd_fn t (set_threshold 0 d) (lists s) t') -> l ∈ headDeletionList (lists s t') /\ (t' = t -> o <= lb_epoche l)) as Hlab.
  { intros t' l. unfold upd_fn. case_decide as He; [subst t'|done]. cbn. rewrite Hh. intros [Ho Hl]%list_elem_of_filter. done. }
  assert (forall t' x, upd_fn t Outside (pcs s) t' = x -> x <> Outside -> pcs s t' = x) as Hpc.
  { intros t' x. unfold upd_fn. case_decide; [by intros <-|done]. }
  assert (forall t', localEpoche (upd_fn t (set_threshold 0 d) (lists s) t') = localEpoche (lists s t')) as HlocE.
  { intros t'. unfold upd_fn. by case_decide; [subst t'|]. }
  pose proof (in_cur _ _ I). split; [split; cbn -[upd_fn]|].
  - lia.
  - intros t' e He%Hpc; [|done]. by eapply (in_entering _ _ I).
  - intros t' seen He%Hpc; [|done]. rewrite HlocE. by eapply (in_inside _ _ I).
  - intros t' seen He%Hpc; [|done]. by eapply (in_threads _ _ I).
  - intros t' l [Hl _]%Hlab. by eapply (in_labels _ _ I).
  - intros t' n Hn. apply dl_nodes_elem in Hn as (l & [Hl Ho]%Hlab & Hn). assert (n ∈ dl_nodes (lists s t')) as Hd by (apply dl_nodes_elem; eauto).
    rewrite lookup_deleted, decide_False; [by apply (in_pending _ _ I)|]. intros Hf. pose proof (Hpend n Hf) as Hp. rewrite (in_pending _ _ I _ _ Hd) in Hp. injection Hp as ->.
    destruct (Hfreed n Hf) as (l' & Hl' & Hn' & He). assert (l = l') as -> by (by eapply (concat_unique lb_nodes); [apply (in_nodup _ _ I t)|..]). specialize (Ho eq_refl). lia.
  - intros t'. unfold upd_fn. case_decide; [|apply I]. unfold dl_nodes. cbn. rewrite Hh. apply concat_filter_nodup. apply (in_nodup _ _ I t).
  - intros t'. unfold upd_fn. case_decide; [done|apply I].
  - intros t' seen n He%Hpc; [|done]. rewrite lookup_deleted. case_decide; [done|]. by apply (in_linked _ _ I t').
  - intros t' seen n He%Hpc Hn; [|done]. rewrite lookup_deleted, decide_False; [by eapply (in_seen _ _ I)|]. intros Hf. by eapply Hunseen.
  - intros t1 seen n t2 l He%Hpc Hn [Hl _]%Hlab Hnl; [|done]. rewrite HlocE. by eapply (in_epoch _ _ I).
  - intros t1 rest o1 t2 seen n l He%Hpc Ht2 Hr Hp%Hpc Hn [Hl _]%Hlab Hnl; [|done|done]. by eapply (in_scan _ _ I).
  - cbn. intros n. rewrite lookup_deleted. case_decide as Hf; [|done]. intros _. split; [by apply Hpend|]. intros t' seen Hp. by eapply Hunseen.
Qed.

(** A step of one thread that leaves the memory and the labels. *)
Lemma inv_move k s s' t : inv k s -> (t < N)%nat -> mem s' = mem s -> (forall t', t' <> t -> lists s' t' = lists s t' /\ pcs s' t' = pcs s t') ->
  headDeletionList (lists s' t) = headDeletionList (lists s t) -> deletitionListCount (lists s' t) = deletitionListCount (lists s t) ->
  currentEpoche s <= currentEpoche s' <= k + 1 ->
  match pcs s' t with
  | Entering e => e <= currentEpoche s'
  | Inside seen => localEpoche (lists s' t) <= currentEpoche s' /\ seen = linked_nodes (mem s)
  | Scanning rest o => rest = seq 0 N \/ exists t' o', pcs s t = Scanning (t' :: rest) o' /\ o <= o' /\ o <= localEpoche (lists s t')
  | _ => True
  end -> inv (k + 1) s'.
Proof.
  intros I Ht Hm Hoth Hh Hct Hc Hx. pose proof (in_cur _ _ I). eapply inv_quiet; [done|done| |done| | |].
  - intros t'. destruct (decide (t' = t)) as [->|Hne]; [done|]. by rewrite (proj1 (Hoth t' Hne)).
  - intros t' e He. destruct (decide (t' = t)) as [->|Hne]; [by rewrite He in Hx|]. rewrite (proj2 (Hoth t' Hne)) in He. pose proof (in_entering _ _ I _ _ He). lia.
  - intros t' seen He. destruct (decide (t' = t)) as [->|Hne]; [rewrite He in Hx; destruct Hx; auto|]. destruct (Hoth t' Hne) as [-> Hp]. rewrite Hp in He.
    pose proof (in_inside _ _ I _ _ He). split_and!; [by eapply (in_threads _ _ I)|lia|by left].
  - intros t' rest o He. destruct (decide (t' = t)) as [->|Hne].
    + rewrite He in Hx. destruct Hx as [->|(t' & o' & Hs & Ho & Hl)]; [by left|right]. exists (t' :: rest), o'. split_and!; [done|done|].
      intros t2 seen Hn [->|?]%elem_of_cons _; [done|by destruct Hn].
    + right. rewrite (proj2 (Hoth t' Hne)) in He. exists rest, o. split_and!; [done|lia|done].
Qed.

Ltac moved t := eapply (inv_move _ _ _ t); [eassumption|done|done|intros t1 Ht1; cbn; unfold upd_fn; by rewrite ?(decide_False _ _ Ht1)|cbn; unfold upd_fn; by rewrite ?decide_True|cbn; unfold upd_fn; by rewrite ?decide_True|cbn -[to_u64]; try lia|cbn; unfold upd_fn; rewrite ?decide_True by done].

Lemma inv_step k s t a s' : inv k s -> k < EPOCH_MAX -> epoche_act N gc t a s = Some s' -> inv (k + 1) s'.
Proof.
  intros I Hk. pose proof (in_cur _ _ I) as Hcur. unfold epoche_act. destruct (Nat.ltb_spec t N) as [Ht|]; [|done].
  destruct a, (pcs s t) as [|e|seen| |[|t' rest] o] eqn:Hpc; try done.
  - intros [= <-]. moved t. lia.
  - intros [= <-]. moved t. split; [|done]. cbn. by apply (in_entering _ _ I t).
  - destruct (mem s !! n) eqn:Hn; [done|]. intros [= <-]. by apply inv_link.
  - destruct (mem s !! n) as [[]|] eqn:Hn; try done. intros [= <-]. by apply inv_unlink.
  - case_decide as Hn; [|done]. intros [= <-]. apply inv_mark; [done|done|]. intros rest o. by rewrite Hpc.
  - intros [= <-]. by moved t.
  - intros [= <-]. moved t. by rewrite Hpc.
  - intros [= <-]. unfold exit_tick. case_match; [|by moved t]. unfold EPOCH_MAX in Hk. assert (to_u64 (currentEpoche s + 1) = currentEpoche s + 1) as He by (apply to_u_id; lia). by moved t; rewrite ?He; try lia.
  - intros [= <-]. unfold exit_clean. repeat case_match; moved t; [done|by left|done].
  - intros [= <-]. unfold exit_scan. moved t. right. exists t', o. split; [done|]. destruct (Z.ltb_spec (localEpoche (lists s t')) o); lia.
  - intros Hs. by apply (inv_sweep k s t o s' I Hpc) in Hs as [? _].
Qed.

Lemma inv_acts l : forall k s s', inv k s -> k + Z.of_nat (length l) <= EPOCH_MAX -> acts N gc s l = Some s' -> inv (k + Z.of_nat (length l)) s'.
Proof.
  induction l as [|[t a] l IH]; intros k s s' I Hk; cbn [acts]; [intros [= <-]; by replace (k + _) with k by (cbn; lia)|].
  destruct (epoche_act N gc t a s) as [s1|] eqn:E; [|done]. cbn. intros Hl. cbn [length] in *. replace (k + Z.of_nat (S (length l))) with (k + 1 + Z.of_nat (length l)) by lia.
  apply (IH (k + 1) s1); [|lia|done]. eapply inv_step; [done| |done]. lia.
Qed.

Lemma inv_start garbage tree : inv 0 (start garbage tree).
Proof.
  split; cbn; try done.
  - intros t l Hl. by apply not_elem_of_nil in Hl.
  - intros t n Hn. by apply not_elem_of_nil in Hn.
  - intros _. apply NoDup_nil_2.
Qed.

(** When every thread has left, the destructor frees what waits, each node
    once. *)
Lemma inv_destroy k s : inv k s -> k < EPOCH_MAX -> (forall t, (t < N)%nat -> localEpoche (lists s t) = EPOCH_MAX) ->
  destroy_Epoche (lists s <$> seq 0 N) = Ok (concat (dl_nodes <$> (lists s <$> seq 0 N))) /\ NoDup (concat (dl_nodes <$> (lists s <$> seq 0 N))).
Proof.
  intros I Hk Hout. pose proof (in_cur _ _ I). split.
  - apply destroy_frees_all; apply Forall_fmap, Forall_forall; intros t [_ Ht]%elem_of_seq; cbn.
    + apply Hout. lia.
    + split; [apply I|]. apply Forall_forall. intros l Hl. pose proof (in_labels _ _ I _ _ Hl). lia.
  - rewrite <- list_fmap_compose. assert (NoDup (seq 0 N)) as Hnd by apply NoDup_seq. revert Hnd. generalize (seq 0 N). intros ts Hnd. induction Hnd as [|t ts Hn Hnd IH]; [constructor|].
    cbn. apply NoDup_app. split; [apply I|]. split; [|done]. intros n Hin Hin2. apply list_elem_of_In, in_concat in Hin2 as (y & Hy & Hx%list_elem_of_In).
    apply list_elem_of_In, list_elem_of_fmap in Hy as (t' & -> & Ht'). pose proof (in_pending _ _ I _ _ Hin) as H1. rewrite (in_pending _ _ I _ _ Hx) in H1. by injection H1 as ->.
Qed.

(** A node that a step frees is in the list of the thread that takes it. *)
Lemma step_frees k s t a s' n : inv k s -> epoche_act N gc t a s = Some s' -> is_Some (mem s !! n) -> mem s' !! n = None ->
  mem s !! n = Some (Pending t) /\ forall t' seen, pcs s t' = Inside seen -> n ∉ seen.
Proof.
  intros I. unfold epoche_act. destruct (Nat.ltb_spec t N) as [Ht|]; [|done]. intros Ha [st Hn] Hn'. destruct (decide (mem s' = mem s)) as [He|Hne]; [congruence|].
  destruct a, (pcs s t) as [|e|seen| |[|t1 rest] o] eqn:Hpc; try done; try (injection Ha as <-; destruct Hne; unfold exit_tick, exit_clean; by repeat case_match).
  - destruct (mem s !! n0); [done|]. injection Ha as <-. cbn in Hn'. by apply lookup_insert_None in Hn' as [Hn' _]; congruence.
  - destruct (mem s !! n0) as [[]|]; try done. injection Ha as <-. cbn in Hn'. by apply lookup_insert_None in Hn' as [Hn' _]; congruence.
  - case_decide; [|done]. injection Ha as <-. cbn in Hn'. by apply lookup_insert_None in Hn' as [Hn' _]; congruence.
  - apply (inv_sweep k s t o s' I Hpc) in Ha as [_ Hf]. apply Hf. by rewrite Hn, Hn'.
Qed.
End inv.

(** C21. Whatever the threads do, in at most [2^64 - 1] steps and from any initial contents of the published epochs: when a step frees a node, it is in the deletion list of the thread that takes the step, and no thread is inside that could have reached it, that is, for which it was reachable at some time since the thread published its epoch; and every reachable node counts as seen by every thread inside. *)
Theorem no_early_free N gc garbage tree l s t a s' n : acts N gc (start garbage tree) l = Some s -> Z.of_nat (length l) < EPOCH_MAX -> epoche_act N gc t a s = Some s' ->
  (is_Some (mem s !! n) -> mem s' !! n = None -> mem s !! n = Some (Pending t) /\ forall t' seen, pcs s t' = Inside seen -> n ∉ seen) /\
  (forall t' seen, pcs s t' = Inside seen -> mem s !! n = Some Linked -> n ∈ seen) /\
  (forall t' seen, pcs s t' = Inside seen -> n ∈ seen -> is_Some (mem s !! n)).
Proof.
  intros Hl Hk Ha. pose proof (inv_acts N gc l 0 _ _ (inv_start N garbage tree) ltac:(lia) Hl) as I. split_and!.
  - intros Hs Hn. by eapply step_frees.
  - intros t' seen Ht Hn. by eapply (in_linked _ _ _ I).
  - intros t' seen Ht Hn. by eapply (in_seen _ _ _ I).
Qed.

(** * Runs *)

(** Thread 0 replaces node 7 while thread 1 is outside: it is freed. *)
Definition replace7 : list (nat * action) := [(0, ALoad); (0, AStore); (0, AUnlink 7); (0, AMark 7); (0, AExit); (0, AClean); (0, AScan); (0, AScan)]%nat.

Lemma no_early_free_witness : exists s s', acts 2 0 (start (fun _ => EPOCH_MAX) {[7; 8]}) replace7 = Some s /\ epoche_act 2 0 0 ASweep s = Some s' /\
  mem s' !! 7 = None /\ mem s !! 7 = Some (Pending 0).
Proof.
  destruct (acts 2 0 (start (fun _ => EPOCH_MAX) {[7; 8]}) replace7) as [s|] eqn:Es; [|vm_compute in Es; discriminate Es].
  destruct (epoche_act 2 0 0 ASweep s) as [s'|] eqn:Ea.
  - exists s, s'. split; [reflexivity|]. split; [exact Ea|].
    assert (mem s' !! 7 = None) as Hn.
    { assert ((s1 ← acts 2 0 (start (fun _ => EPOCH_MAX) {[7; 8]}) replace7; s2 ← epoche_act 2 0 0 ASweep s1; Some (mem s2 !! 7)) = Some None) as E by (vm_compute; reflexivity).
      rewrite Es in E. cbn -[epoche_act] in E. rewrite Ea in E. cbn in E. injection E as E. exact E. }
    split; [exact Hn|]. destruct (no_early_free 2 0 (fun _ => EPOCH_MAX) {[7; 8]} replace7 s 0 ASweep s' 7 Es ltac:(vm_compute; reflexivity) Ea) as [Hf _]. apply Hf; [|exact Hn].
    assert ((s1 ← acts 2 0 (start (fun _ => EPOCH_MAX) {[7; 8]}) replace7; mem s1 !! 7) = Some (Pending 0)) as E by (vm_compute; reflexivity). rewrite Es in E. cbn in E. by exists (Pending 0).
  - exfalso. assert ((s1 ← acts 2 0 (start (fun _ => EPOCH_MAX) {[7; 8]}) replace7; s2 ← epoche_act 2 0 0 ASweep s1; Some tt) = Some tt) as E by (vm_compute; reflexivity).
    rewrite Es in E. cbn -[epoche_act] in E. by rewrite Ea in E.
Defined.

(** A reader that entered before keeps the node. *)
Example reader_keeps : (s ← acts 2 0 (start (fun _ => EPOCH_MAX) {[7; 8]}) ([(1, ALoad); (1, AStore)]%nat ++ replace7 ++ [(0%nat, ASweep)]); mem s !! 7) = Some (Pending 0).
Proof. vm_compute. reflexivity. Qed.

(** When every thread has left after such a run, the destructor passes its
    assertions and frees every node that waits, each once. *)
Theorem shutdown_frees N gc garbage tree l s : acts N gc (start garbage tree) l = Some s -> Z.of_nat (length l) < EPOCH_MAX ->
  (forall t, (t < N)%nat -> localEpoche (lists s t) = EPOCH_MAX) ->
  destroy_Epoche (lists s <$> seq 0 N) = Ok (concat (dl_nodes <$> (lists s <$> seq 0 N))) /\ NoDup (concat (dl_nodes <$> (lists s <$> seq 0 N))).
Proof. intros Hl Hk Hout. eapply inv_destroy; [|done|done]. apply (inv_acts N gc l 0 (start garbage tree)); [apply inv_start|lia|done]. Qed.
