(* ===== verification/ArtLock.v ===== *)
(** The lock word of the nodes of PDL-ART
    ([src/PRISM/lib/pactree/lib/PDL-ART/N.cpp], [N.h]).

    The 64 bits are the type of the node (two bits), the generation of the
    tree that last took the lock (30 bits), a version (30 bits), the lock bit
    and the obsolete bit.  A generation other than that of the running tree
    means that the lock was left by a run before.

    The operations are functions on the word; a compare-and-exchange compares
    the word with what the thread loaded before.  The second part runs them
    from several threads as a step relation. *)

From S2P Require Import Prelude.
From Stdlib Require Import Relations.

Local Open Scope Z_scope.

(** * The word *)

Definition convertTypeToVersion (type : Z) : Z := to_u64 (Z.shiftl type 62).

(** [typeVersionLockObsolete{0b100 + ((uint64_t)3<<32)}], with [setType] *)
Definition initial_word : Z := 4 + Z.shiftl 3 32.
Definition setType (word type : Z) : Z := to_u64 (word + convertTypeToVersion type).
Definition getType (word : Z) : Z := Z.shiftr word 62.

Definition isLocked (version : Z) : bool := Z.land version 2 =? 2.
Definition isObsolete (version : Z) : bool := Z.land version 1 =? 1.

(** The parts both lock functions compute of a version they loaded. *)
Definition type_bits (version : Z) : Z := convertTypeToVersion (getType version).
Definition lockGenId (version : Z) : Z := to_u32 (Z.shiftr (to_u64 (version - type_bits version)) 32).
Definition new_ver (version genId : Z) : Z := to_u64 (type_bits version + to_u64 (Z.shiftl genId 32) + 2).

(** * Locking *)

(** The word afterwards, or the two ways not to get the lock: start the
    operation over, or look at the word again. *)
Inductive lock_result := Taken (word : Z) | Restart | Spin.

(** [loaded]: the word at the first load. *)
Definition writeLockOrRestart (word loaded genId : Z) : lock_result :=
  if negb (lockGenId loaded =? genId) then if word =? loaded then Taken (new_ver loaded genId) else Restart
  else if isLocked word then Spin
  else if isObsolete word then Restart
  else Taken (to_u64 (word + 2)).

(** [version]: the word when the node was read. *)
Definition lockVersionOrRestart (word version genId : Z) : lock_result :=
  if isLocked version || isObsolete version then Restart
  else if negb (lockGenId version =? genId) then if word =? version then Taken (new_ver version genId) else Restart
  else if word =? version then Taken (to_u64 (version + 2)) else Restart.

Definition art_writeUnlock (word : Z) : Z := to_u64 (word + 2).
Definition writeUnlockObsolete (word : Z) : Z := to_u64 (word + 3).

(** [checkOrRestart], [readUnlockOrRestart] *)
Definition readUnlockOrRestart (word startRead : Z) : bool := startRead =? word.

(** * The fields *)

(** A word from its fields. *)
Definition pack (type gen ver : Z) (lock obs : bool) : Z := type * 2 ^ 62 + gen * 2 ^ 32 + ver * 4 + Z.b2z lock * 2 + Z.b2z obs.

Definition fields (type gen ver : Z) : Prop := 0 <= type < 4 /\ 0 <= gen < 2 ^ 30 /\ 0 <= ver < 2 ^ 30.

Lemma pack_fields word : 0 <= word < 2 ^ 64 -> exists type gen ver lock obs, word = pack type gen ver lock obs /\ fields type gen ver.
Proof.
  intros Hw. exists (word / 2 ^ 62), (word / 2 ^ 32 mod 2 ^ 30), (word / 4 mod 2 ^ 30), (Z.odd (word / 2)), (Z.odd word).
  assert (forall x, x = 2 * (x / 2) + Z.b2z (Z.odd x)) as Hodd.
  { intros x. pose proof (Z.div_mod x 2 ltac:(lia)) as Hx. rewrite Zmod_odd in Hx. destruct (Z.odd x); cbn; lia. }
  split; [|unfold fields; split_and!; try (apply Z.div_pos; lia); try (apply Z.mod_pos_bound; lia); apply Z.div_lt_upper_bound; lia].
  unfold pack. pose proof (Hodd word). pose proof (Hodd (word / 2)). rewrite Z.div_div in * by lia. change (2 * 2) with 4 in *.
  pose proof (Z.div_mod (word / 4) (2 ^ 30) ltac:(lia)) as H4. pose proof (Z.div_mod (word / 2 ^ 32) (2 ^ 30) ltac:(lia)) as H32.
  rewrite Z.div_div in H4, H32 by lia. change (4 * 2 ^ 30) with (2 ^ 32) in H4. change (2 ^ 32 * 2 ^ 30) with (2 ^ 62) in H32. lia.
Qed.

Lemma land_2 x : (Z.land x 2 =? 2) = Z.testbit x 1.
Proof.
  destruct (Z.testbit x 1) eqn:E.
  - apply Z.eqb_eq, Z.bits_inj'. intros n Hn. rewrite Z.land_spec. change 2 with (2 ^ 1). rewrite Z.pow2_bits_eqb by lia. destruct (Z.eqb_spec 1 n) as [<-|]; [by rewrite E|apply andb_false_r].
  - apply Z.eqb_neq. intros H. assert (Z.testbit (Z.land x 2) 1 = Z.testbit 2 1) as Hb by (by rewrite H). by rewrite Z.land_spec, E in Hb.
Qed.

Section fields.
Context (type gen ver : Z) (HF : fields type gen ver) (lock obs : bool).

Lemma pack_range : 0 <= pack type gen ver lock obs < 2 ^ 64.
Proof. destruct HF as (? & ? & ?). unfold pack. destruct lock, obs; cbn [Z.b2z]; lia. Qed.

Lemma getType_pack : getType (pack type gen ver lock obs) = type.
Proof.
  destruct HF as (? & ? & ?). unfold getType, pack. rewrite Z.shiftr_div_pow2 by lia. symmetry. apply Z.div_unique with (gen * 2 ^ 32 + ver * 4 + Z.b2z lock * 2 + Z.b2z obs); [left|lia].
  destruct lock, obs; cbn [Z.b2z]; lia.
Qed.

Lemma type_bits_pack : type_bits (pack type gen ver lock obs) = type * 2 ^ 62.
Proof.
  unfold type_bits, convertTypeToVersion. rewrite getType_pack, Z.shiftl_mul_pow2 by lia. destruct HF as (? & ? & ?). apply to_u_id. lia.
Qed.

Lemma lockGenId_pack : lockGenId (pack type gen ver lock obs) = gen.
Proof.
  unfold lockGenId. rewrite type_bits_pack. destruct HF as (? & ? & ?). rewrite (to_u_id 64) by (unfold pack; destruct lock, obs; cbn [Z.b2z]; lia).
  rewrite Z.shiftr_div_pow2 by lia. rewrite <- (Z.div_unique _ (2 ^ 32) gen (ver * 4 + Z.b2z lock * 2 + Z.b2z obs)); [by apply to_u_id; lia|left; destruct lock, obs; cbn [Z.b2z]; lia|unfold pack; lia].
Qed.

Lemma isLocked_pack : isLocked (pack type gen ver lock obs) = lock.
Proof.
  unfold isLocked. rewrite land_2.
  assert (Z.testbit (pack type gen ver lock obs) 1 = lock) as ->; [|done]. unfold pack. rewrite Z.testbit_odd, Z.shiftr_div_pow2 by lia.
  rewrite <- (Z.div_unique _ (2 ^ 1) (2 * (type * 2 ^ 60 + gen * 2 ^ 30 + ver) + Z.b2z lock) (Z.b2z obs)); [|left; destruct obs; cbn [Z.b2z]; lia|lia].
  rewrite Z.add_comm, Z.odd_add_mul_2. by destruct lock.
Qed.

Lemma isObsolete_pack : isObsolete (pack type gen ver lock obs) = obs.
Proof.
  unfold isObsolete. rewrite (Z.land_ones _ 1) by lia. change (2 ^ 1) with 2. rewrite Zmod_odd. unfold pack.
  replace (_ + Z.b2z obs) with (Z.b2z obs + 2 * (type * 2 ^ 61 + gen * 2 ^ 31 + ver * 2 + Z.b2z lock)) by lia. rewrite Z.odd_add_mul_2. by destruct obs.
Qed.
End fields.

(** What the operations do to the fields. *)
Lemma new_node_word type : 0 <= type < 4 -> setType initial_word type = pack type 3 1 false false.
Proof.
  intros Ht. unfold setType, convertTypeToVersion, initial_word. rewrite !Z.shiftl_mul_pow2 by lia. rewrite (to_u_id _ (type * 2 ^ 62)) by lia. rewrite to_u_id by lia. unfold pack. cbn [Z.b2z]. lia.
Qed.

Lemma new_ver_pack type gen ver lock obs genId : fields type gen ver -> 0 <= genId < 2 ^ 30 -> new_ver (pack type gen ver lock obs) genId = pack type genId 0 true false.
Proof.
  intros HF Hg. unfold new_ver. rewrite type_bits_pack by done. destruct HF as (? & ? & ?). rewrite Z.shiftl_mul_pow2 by lia. rewrite (to_u_id _ (genId * 2 ^ 32)) by lia.
  rewrite to_u_id by lia. unfold pack. cbn [Z.b2z]. lia.
Qed.

Lemma take_pack type gen ver obs : fields type gen ver -> to_u64 (pack type gen ver false obs + 2) = pack type gen ver true obs.
Proof. intros HF. pose proof (pack_range _ _ _ HF true obs). unfold pack in *. cbn [Z.b2z] in *. rewrite to_u_id by lia. lia. Qed.

Lemma unlock_pack type gen ver obs : fields type gen ver -> ver + 1 < 2 ^ 30 -> art_writeUnlock (pack type gen ver true obs) = pack type gen (ver + 1) false obs.
Proof.
  intros (? & ? & ?) Hv. assert (fields type gen (ver + 1)) as HF by (unfold fields; lia). pose proof (pack_range _ _ _ HF false obs). unfold art_writeUnlock, pack in *. cbn [Z.b2z] in *. rewrite to_u_id by lia. lia.
Qed.

Lemma unlock_obsolete_pack type gen ver : fields type gen ver -> ver + 1 < 2 ^ 30 -> writeUnlockObsolete (pack type gen ver true false) = pack type gen (ver + 1) false true.
Proof.
  intros (? & ? & ?) Hv. assert (fields type gen (ver + 1)) as HF by (unfold fields; lia). pose proof (pack_range _ _ _ HF false true). unfold writeUnlockObsolete, pack in *. cbn [Z.b2z] in *. rewrite to_u_id by lia. lia.
Qed.

(** * Threads *)

(** The word, the thread that took the lock, the data of the node, and the
    values the word has had. *)
Record node_lock := NodeLock { nword : Z; nowner : option nat; ndata : Z; nseen : list Z }.

Definition lock_start (word d : Z) : node_lock := NodeLock word None d [word].

Definition set_word (w : Z) (o : option nat) (s : node_lock) : node_lock := NodeLock w o (ndata s) (w :: nseen s).

(** [genId]: the generation of the running tree.  A thread compares with a
    word it loaded at some time. *)
Inductive node_step (genId : Z) : node_lock -> node_lock -> Prop :=
  | ns_writeLock t s loaded w : loaded ∈ nseen s -> writeLockOrRestart (nword s) loaded genId = Taken w -> node_step genId s (set_word w (Some t) s)
  | ns_lockVersion t s version w : version ∈ nseen s -> lockVersionOrRestart (nword s) version genId = Taken w -> node_step genId s (set_word w (Some t) s)
  | ns_write t s d : nowner s = Some t -> node_step genId s (NodeLock (nword s) (Some t) d (nseen s))
  | ns_unlock t s : nowner s = Some t -> node_step genId s (set_word (art_writeUnlock (nword s)) None s)
  | ns_obsolete t s : nowner s = Some t -> node_step genId s (set_word (writeUnlockObsolete (nword s)) None s).

Definition low (ver : Z) (lock obs : bool) : Z := ver * 4 + Z.b2z lock * 2 + Z.b2z obs.

Section run.
Context (genId : Z) (Hgen : 0 <= genId < 2 ^ 30).

(** [w0]: the word at the start, left by this or another generation; [k]: a
    bound of the version. *)
Record lock_ok (w0 k : Z) (s : node_lock) : Prop := {
  lk_word : exists type gen ver lock obs, nword s = pack type gen ver lock obs /\ fields type gen ver /\ ver <= k /\
    (is_Some (nowner s) -> gen = genId /\ lock = true /\ obs = false) /\ (nowner s = None -> gen = genId -> lock = false);
  lk_in : nword s ∈ nseen s;
  lk_stale : lockGenId (nword s) <> genId -> nseen s = [w0];
}.

(** The lock is granted only to a free or a stale word. *)
Lemma taken_inv w0 k s x w : lock_ok w0 k s -> x ∈ nseen s -> writeLockOrRestart (nword s) x genId = Taken w \/ lockVersionOrRestart (nword s) x genId = Taken w ->
  nowner s = None /\ exists type gen ver lock obs, nword s = pack type gen ver lock obs /\ fields type gen ver /\ ver <= k /\
    ((gen <> genId /\ w = pack type genId 0 true false) \/ (gen = genId /\ lock = false /\ obs = false /\ w = pack type gen ver true false)).
Proof.
  intros LO Hx HT. destruct (lk_word _ _ _ LO) as (type & gen & ver & lock & obs & Ew & HF & Hver & Hown & Hfree).
  pose proof (lockGenId_pack _ _ _ HF lock obs) as Hg. rewrite <- Ew in Hg.
  assert (lockGenId x <> genId -> nword s = x -> w = new_ver x genId -> gen <> genId /\ nowner s = None /\ w = pack type genId 0 true false) as Hstale.
  { intros Hne <- ->. rewrite Hg in Hne. rewrite Ew, new_ver_pack by done. split_and!; [done| |done]. destruct (nowner s); [|done]. by destruct Hown as [? _]. }
  assert (gen = genId -> isLocked (nword s) = false -> isObsolete (nword s) = false -> w = to_u64 (nword s + 2) ->
    nowner s = None /\ lock = false /\ obs = false /\ w = pack type gen ver true false) as Hsame.
  { intros Hgn Hl Ho ->. rewrite Ew, isLocked_pack in Hl by done. rewrite Ew, isObsolete_pack in Ho by done. subst lock obs. rewrite Ew, take_pack by done.
    split_and!; [|done..]. destruct (nowner s); [|done]. by destruct Hown as (_ & ? & _). }
  assert (lockGenId x = genId -> gen = genId) as Hback.
  { intros Hxg. destruct (decide (gen = genId)) as [|Hne]; [done|]. rewrite (lk_stale _ _ _ LO) in Hx by (by rewrite Hg). apply list_elem_of_singleton in Hx.
    pose proof (lk_in _ _ _ LO) as Hin. rewrite (lk_stale _ _ _ LO) in Hin by (by rewrite Hg). apply list_elem_of_singleton in Hin. congruence. }
  cut (nowner s = None /\ (gen <> genId /\ w = pack type genId 0 true false \/ gen = genId /\ lock = false /\ obs = false /\ w = pack type gen ver true false)).
  { intros [Ho Hc]. split; [done|]. exists type, gen, ver, lock, obs. done. }
  destruct HT as [HT|HT]; unfold writeLockOrRestart, lockVersionOrRestart in HT.
  - destruct (Z.eqb_spec (lockGenId x) genId) as [Hxg|Hxg]; cbn in HT.
    + destruct (isLocked (nword s)) eqn:Hl; [done|]. destruct (isObsolete (nword s)) eqn:Ho; [done|]. injection HT as HT. destruct (Hsame (Hback Hxg) eq_refl eq_refl (eq_sym HT)) as (? & ? & ? & ?). auto 10.
    + destruct (Z.eqb_spec (nword s) x) as [He|]; [|done]. injection HT as HT. destruct (Hstale Hxg He (eq_sym HT)) as (? & ? & ?). auto.
  - destruct (isLocked x) eqn:Hl; [done|]. destruct (isObsolete x) eqn:Ho; [done|]. cbn in HT. destruct (Z.eqb_spec (nword s) x) as [He|]; [|by destruct (negb _)].
    destruct (Z.eqb_spec (lockGenId x) genId) as [Hxg|Hxg]; cbn in HT; injection HT as HT.
    + subst x. destruct (Hsame (Hback Hxg) Hl Ho (eq_sym HT)) as (? & ? & ? & ?). auto 10.
    + destruct (Hstale Hxg He (eq_sym HT)) as (? & ? & ?). auto.
Qed.

Lemma set_word_ok w0 k s type ver lock obs o : lock_ok w0 k s -> fields type genId ver -> ver <= k + 1 -> (is_Some o -> lock = true /\ obs = false) -> (o = None -> lock = false) ->
  lock_ok w0 (k + 1) (set_word (pack type genId ver lock obs) o s).
Proof.
  intros LO HF Hv Hs Hn. split; cbn.
  - exists type, genId, ver, lock, obs. split_and!; [done|done|lia| |auto]. intros Ho. split; [done|]. by apply Hs.
  - by left.
  - by rewrite lockGenId_pack.
Qed.

(** Every step keeps to it; a step that changes the word takes it further. *)
Definition rank (w : Z) : Z := if decide (lockGenId w = genId) then 1 + Z.land w (2 ^ 32 - 1) else 0.

Lemma rank_pack type gen ver lock obs : fields type gen ver -> rank (pack type gen ver lock obs) = if decide (gen = genId) then 1 + low ver lock obs else 0.
Proof.
  intros HF. unfold rank. rewrite lockGenId_pack by done. case_decide; [|done]. f_equal. change (2 ^ 32 - 1) with (Z.ones 32). rewrite Z.land_ones by lia. destruct HF as (? & ? & ?).
  symmetry. apply Z.mod_unique with (type * 2 ^ 30 + gen); [left|]; unfold low, pack; destruct lock, obs; cbn [Z.b2z]; lia.
Qed.

Lemma node_step_ok w0 k s s' : lock_ok w0 k s -> k + 1 < 2 ^ 30 -> node_step genId s s' ->
  lock_ok w0 (k + 1) s' /\ (rank (nword s) < rank (nword s') \/ nword s' = nword s /\ is_Some (nowner s)).
Proof.
  intros LO Hk Hs. pose proof LO as LO'.
  assert (forall x w t, x ∈ nseen s -> writeLockOrRestart (nword s) x genId = Taken w \/ lockVersionOrRestart (nword s) x genId = Taken w ->
    lock_ok w0 (k + 1) (set_word w (Some t) s) /\ rank (nword s) < rank w) as Htake.
  { intros x w t Hx HT. destruct (taken_inv _ _ _ _ _ LO Hx HT) as (_ & type & gen & ver & lock & obs & Ew & HF & Hver & Hc). destruct HF as (Ht & Hg & Hv).
    destruct Hc as [[Hne ->]|(-> & -> & -> & ->)].
    - split; [apply set_word_ok; [done|unfold fields; lia|lia|done|done]|]. rewrite Ew, !rank_pack by (unfold fields; lia). rewrite decide_False, decide_True by done. unfold low. cbn. lia.
    - split; [apply set_word_ok; [done|unfold fields; lia|lia|done|done]|]. rewrite Ew, !rank_pack by (unfold fields; lia). rewrite !decide_True by done. unfold low. cbn. lia. }
  destruct (lk_word _ _ _ LO) as (type & gen & ver & lock & obs & Ew & HF & Hver & Hown & Hfree). pose proof HF as (Ht & Hg & Hv).
  inversion Hs as [t ? x w Hx HT|t ? x w Hx HT|t ? d Ho|t ? Ho|t ? Ho]; subst.
  - destruct (Htake x w t Hx (or_introl HT)). cbn. auto.
  - destruct (Htake x w t Hx (or_intror HT)). cbn. auto.
  - split; [|right; cbn; by rewrite Ho]. destruct LO as [_ Hin Hst]. split; [|done|done]. exists type, gen, ver, lock, obs. cbn. rewrite Ho in Hown. split_and!; [done|done|lia|done|done].
  - rewrite Ho in Hown. destruct Hown as (-> & -> & ->); [done|]. rewrite Ew, unlock_pack by (done || lia). split; [apply set_word_ok; [done|unfold fields; lia|lia|by intros []|done]|]. left. cbn.
    rewrite !rank_pack by (unfold fields; lia). rewrite !decide_True by done. unfold low. cbn. lia.
  - rewrite Ho in Hown. destruct Hown as (-> & -> & ->); [done|]. rewrite Ew, unlock_obsolete_pack by (done || lia). split; [apply set_word_ok; [done|unfold fields; lia|lia|by intros []|done]|]. left. cbn.
    rewrite !rank_pack by (unfold fields; lia). rewrite !decide_True by done. unfold low. cbn. lia.
Qed.

(** [n] steps. *)
Fixpoint node_steps (n : nat) (s s' : node_lock) : Prop :=
  match n with
  | O => s = s'
  | S n' => exists s1, node_step genId s s1 /\ node_steps n' s1 s'
  end.

Lemma node_steps_ok w0 n : forall k s s', lock_ok w0 k s -> k + Z.of_nat n < 2 ^ 30 -> node_steps n s s' ->
  lock_ok w0 (k + Z.of_nat n) s' /\ rank (nword s) <= rank (nword s').
Proof.
  induction n as [|n IH]; intros k s s' LO Hk; cbn [node_steps]; [intros <-; by replace (k + Z.of_nat 0) with k by lia|].
  intros (s1 & H1 & Hn). destruct (node_step_ok _ _ _ _ LO ltac:(lia) H1) as [LO1 Hr]. destruct (IH (k + 1) s1 s' LO1 ltac:(lia) Hn) as [LO' Hr'].
  replace (k + Z.of_nat (S n)) with (k + 1 + Z.of_nat n) by lia. split; [done|]. destruct Hr as [Hr|[Hr _]]; [|rewrite Hr in Hr']; lia.
Qed.

(** While the word is free and stays the same nothing is written. *)
Lemma same_node_data w0 n : forall k s s', lock_ok w0 k s -> k + Z.of_nat n < 2 ^ 30 -> nowner s = None -> node_steps n s s' -> nword s' = nword s -> ndata s' = ndata s.
Proof.
  destruct n as [|n]; intros k s s' LO Hk Ho; cbn [node_steps]; [by intros <-|]. intros (s1 & H1 & Hn) Hw.
  destruct (node_step_ok _ _ _ _ LO ltac:(lia) H1) as [LO1 [Hr|[_ Hs]]]; [|by rewrite Ho in Hs; destruct Hs].
  destruct (node_steps_ok w0 n (k + 1) s1 s' LO1 ltac:(lia) Hn) as [_ Hr']. rewrite Hw in Hr'. lia.
Qed.

(** A word that a run may start from: free, or left by another generation. *)
Definition startable (word : Z) : Prop := 0 <= word < 2 ^ 64 /\ (lockGenId word = genId -> isLocked word = false).

Definition version_of (word : Z) : Z := word / 4 mod 2 ^ 30.

Lemma start_ok word d : startable word -> lock_ok word (version_of word) (lock_start word d).
Proof.
  intros [Hr Hf]. destruct (pack_fields word Hr) as (type & gen & ver & lock & obs & Ew & HF).
  assert (version_of word = ver) as ->.
  { unfold version_of. rewrite Ew. destruct HF as (? & ? & ?). unfold pack. rewrite <- (Z.div_unique _ 4 ((type * 2 ^ 30 + gen) * 2 ^ 30 + ver) (Z.b2z lock * 2 + Z.b2z obs)); [|left; destruct lock, obs; cbn [Z.b2z]; lia|lia].
    rewrite Z.add_comm, Z.mod_add, Z.mod_small by lia. done. }
  split; cbn; [|by left|done].
  exists type, gen, ver, lock, obs. split_and!; [done|done|lia|by intros []|]. intros _ Hg. rewrite Ew, lockGenId_pack, isLocked_pack in Hf by done. by apply Hf.
Qed.
End run.

(** * What the lock promises *)

(** C37. From a word that is free or was left by another generation, over fewer steps than the version field can count: either lock function is granted only while no thread holds the lock; an obsolete node of this generation is granted to nobody; and a free word that [checkOrRestart] finds unchanged means that the data of the node were not written in between. *)
Theorem art_lock_correct genId word d n s : 0 <= genId < 2 ^ 30 -> startable genId word -> node_steps genId n (lock_start word d) s -> version_of word + Z.of_nat n < 2 ^ 30 ->
  (forall x w, x ∈ nseen s -> writeLockOrRestart (nword s) x genId = Taken w \/ lockVersionOrRestart (nword s) x genId = Taken w ->
    nowner s = None /\ (lockGenId (nword s) = genId -> isObsolete (nword s) = false) /\ getType w = getType (nword s)) /\
  (forall n' s', node_steps genId n' s s' -> version_of word + Z.of_nat n + Z.of_nat n' < 2 ^ 30 -> nowner s = None -> readUnlockOrRestart (nword s') (nword s) = true -> ndata s' = ndata s).
Proof.
  intros Hg Hst Hn Hb. destruct (node_steps_ok _ Hg _ _ _ _ _ (start_ok _ _ d Hst) Hb Hn) as [LO _]. split.
  - intros x w Hx HT. destruct (taken_inv _ Hg _ _ _ _ _ LO Hx HT) as (Ho & type & gen & ver & lock & obs & Ew & HF & _ & Hc). split; [done|].
    rewrite Ew, lockGenId_pack, isObsolete_pack, getType_pack by done. destruct HF as (? & ? & ?). destruct Hc as [[Hne ->]|(_ & _ & -> & ->)]; rewrite getType_pack by (unfold fields; lia); done.
  - intros n' s' Hn' Hb' Ho Hr. apply Z.eqb_eq in Hr. by eapply (same_node_data _ Hg).
Qed.

(** A node of type 1, locked and unlocked by thread 5. *)
Definition locked_once : node_lock :=
  let s0 := lock_start (setType initial_word 1) 7 in
  let s1 := set_word (to_u64 (nword s0 + 2)) (Some 5%nat) s0 in
  set_word (art_writeUnlock (nword s1)) None s1.

Lemma art_lock_correct_witness : nowner locked_once = None /\ node_steps 3 2 (lock_start (setType initial_word 1) 7) locked_once.
Proof.
  assert (node_steps 3 2 (lock_start (setType initial_word 1) 7) locked_once) as Hs.
  { eexists. split; [apply (ns_lockVersion 3 5 _ (setType initial_word 1)); [by left|vm_compute; reflexivity]|]. eexists. split; [by apply (ns_unlock 3 5)|reflexivity]. }
  split; [|exact Hs].
  destruct (art_lock_correct 3 (setType initial_word 1) 7 2 locked_once ltac:(lia) ltac:(split; [split; vm_compute; congruence|reflexivity]) Hs ltac:(vm_compute; reflexivity)) as [Hl _].
  destruct (Hl (nword locked_once) (to_u64 (nword locked_once + 2)) ltac:(by left) ltac:(right; vm_compute; reflexivity)) as [Ho _]. exact Ho.
Defined.

(** A node that a crash left locked: whatever the generation of the tree is
    afterwards, [lockVersionOrRestart], by which an insertion locks the node it
    has come to, starts over every time, because it looks at the lock bit
    before the generation. *)
Theorem stale_lock_blocks word genId : isLocked word = true -> lockVersionOrRestart word word genId = Restart.
Proof. intros Hl. unfold lockVersionOrRestart. by rewrite Hl. Qed.

(** [writeLockOrRestart] takes such a lock over. *)
Theorem stale_lock_taken type gen ver lock obs genId : fields type gen ver -> 0 <= genId < 2 ^ 30 -> gen <> genId ->
  writeLockOrRestart (pack type gen ver lock obs) (pack type gen ver lock obs) genId = Taken (pack type genId 0 true false).
Proof.
  intros HF Hg Hne. unfold writeLockOrRestart. rewrite lockGenId_pack by done. rewrite (proj2 (Z.eqb_neq gen genId)) by done. cbn. rewrite Z.eqb_refl. by rewrite new_ver_pack.
Qed.
