(* ===== verification/Pactree.v ===== *)
(** PACTree ([src/PRISM/lib/pactree/src/pactree.cpp], [Oplog.cpp],
    [Combiner.h], [WorkerThread.cpp], [threadData.h]): the data layer, a search
    layer per NUMA node, and the threads that bring the splits of the data
    layer to the search layers.

    A split leaves a log entry in the log of its thread.  The combiner swaps
    the two queues of the logs, merges those filled so far into one vector and
    hands it to every worker; a worker inserts the new nodes into the search
    layer of its NUMA node.  An operation may therefore start at any node the
    search layer knows, old or new. *)

From S2P Require Import Prelude NodeBits VersionedLock ListNode LinkedList SearchLayer.

Local Open Scope Z_scope.

(** * Threads (threadData.h) *)

Record ThreadData := MkThreadData { localClock : Z; finish : bool; runCnt : Z }.

Definition new_thread : ThreadData := MkThreadData 0 false 0.
Definition td_read_lock (td : ThreadData) (clock : Z) : ThreadData := MkThreadData clock (finish td) (to_u64 (runCnt td + 1)).
Definition td_read_unlock (td : ThreadData) : ThreadData := MkThreadData (localClock td) (finish td) (to_u64 (runCnt td + 1)).
Definition td_setfinish (td : ThreadData) : ThreadData := MkThreadData (localClock td) true (runCnt td).

(** The calling thread: its id, the chip and the core it runs on, the clock it
    reads. *)
Record caller := MkCaller { c_thread : nat; c_chip : nat; c_core : Z; c_clock : Z }.

(** * Logs (Oplog.cpp) *)

(** The two queues of a thread, as addresses of log entries. *)
Record Oplog := MkOplog { op0 : list Z; op1 : list Z }.

Definition new_oplog : Oplog := MkOplog [] [].
Definition getQ (q : Z) (o : Oplog) : list Z := if q =? 0 then op0 o else op1 o.
Definition pushQ (q : Z) (a : Z) (o : Oplog) : Oplog :=
  if q =? 0 then MkOplog (op0 o ++ [a]) (op1 o) else MkOplog (op0 o) (op1 o ++ [a]).
Definition resetQ (q : Z) (o : Oplog) : Oplog := if q =? 0 then MkOplog [] (op1 o) else MkOplog (op0 o) [].

(** [om_alloc] is [PMem::alloc] of an [OpStruct]; the block is not in use. *)
Class OpMem := { om_alloc : gmap Z OpStruct -> Z }.
Class OpMemOk (O : OpMem) := { om_fresh : forall m, m !! om_alloc m = None }.

(** * State *)

Definition WORKER_THREAD_PER_NUMA : nat := 1.

(** [WorkerThread]. *)
Record WorkerThread := MkWorker {
  workQueue : list (list Z);
  logDoneCount : Z;
  opcount : Z;
  freeQueue : list (Z * Z);
}.

Record pactree (T : Type) := MkPactree {
  dl : dlist;
  g_perNumaSlPtr : list (SearchLayer T);
  op_mem : gmap Z OpStruct;
  g_perThreadLog : gmap nat Oplog;
  curQ : Z;
  g_WorkerThreadInst : list WorkerThread;
  logQueue : list (Z * list Z);          (** of the combiner *)
  doneCountCombiner : Z;
  combinerSplits : Z;
  g_threadDataSet : gmap nat ThreadData;
  numThreads : nat;
}.
Arguments MkPactree {_}. Arguments dl {_}. Arguments g_perNumaSlPtr {_}. Arguments op_mem {_}. Arguments g_perThreadLog {_}.
Arguments curQ {_}. Arguments g_WorkerThreadInst {_}. Arguments logQueue {_}. Arguments doneCountCombiner {_}.
Arguments combinerSplits {_}. Arguments g_threadDataSet {_}. Arguments numThreads {_}.

Section pactree.
Context `{StdSort} `{PMem} `{OpMem} {T : Type} `{ArtTree T}.

Definition set_dl (d : dlist) (pt : pactree T) : pactree T :=
  MkPactree d (g_perNumaSlPtr pt) (op_mem pt) (g_perThreadLog pt) (curQ pt) (g_WorkerThreadInst pt) (logQueue pt)
    (doneCountCombiner pt) (combinerSplits pt) (g_threadDataSet pt) (numThreads pt).
Definition set_logs (m : gmap Z OpStruct) (l : gmap nat Oplog) (pt : pactree T) : pactree T :=
  MkPactree (dl pt) (g_perNumaSlPtr pt) m l (curQ pt) (g_WorkerThreadInst pt) (logQueue pt)
    (doneCountCombiner pt) (combinerSplits pt) (g_threadDataSet pt) (numThreads pt).
Definition set_threads (ts : gmap nat ThreadData) (pt : pactree T) : pactree T :=
  MkPactree (dl pt) (g_perNumaSlPtr pt) (op_mem pt) (g_perThreadLog pt) (curQ pt) (g_WorkerThreadInst pt) (logQueue pt)
    (doneCountCombiner pt) (combinerSplits pt) ts (numThreads pt).
Definition set_worker (w : nat) (wt : WorkerThread) (sls : list (SearchLayer T)) (m : gmap Z OpStruct) (pt : pactree T) : pactree T :=
  MkPactree (dl pt) sls m (g_perThreadLog pt) (curQ pt) (<[w := wt]> (g_WorkerThreadInst pt)) (logQueue pt)
    (doneCountCombiner pt) (combinerSplits pt) (g_threadDataSet pt) (numThreads pt).

Fixpoint create_searches (numNuma : nat) (min : Z) : res (list (SearchLayer T)) :=
  match numNuma with
  | O => Ok []
  | S n => sl ← new_search min; sls ← create_searches n min; Ok (sl :: sls)
  end.

(** [pactreeImpl::pactreeImpl] on memory in which a new search layer finds
    [min] as its [curMin] and the tree [threads] as its [numThreads]: neither
    constructor sets them. *)
Definition create (numNuma : nat) (min : Z) (threads : nat) : res (pactree T) :=
  d ← initialize;
  sls ← create_searches numNuma min;
  Ok (MkPactree d sls ∅ ∅ 0
        (replicate (numNuma * WORKER_THREAD_PER_NUMA) (MkWorker [] 0 0 [])) [] 0 0 ∅ threads).

Definition registerThread (pt : pactree T) : nat * pactree T :=
  (numThreads pt,
   MkPactree (dl pt) (g_perNumaSlPtr pt) (op_mem pt) (g_perThreadLog pt) (curQ pt) (g_WorkerThreadInst pt) (logQueue pt)
     (doneCountCombiner pt) (combinerSplits pt) (<[numThreads pt := new_thread]> (g_threadDataSet pt)) (S (numThreads pt))).

Definition unregisterThread (t : nat) (pt : pactree T) : pactree T :=
  set_threads (alter td_setfinish t (g_threadDataSet pt)) pt.

(** * The log of a thread *)

(** [Oplog::getOpLog] and [enq] of one entry of the thread. *)
Definition enq (t : nat) (ops : OpStruct) (pt : pactree T) : pactree T :=
  let a := om_alloc (op_mem pt) in
  let o := default new_oplog (g_perThreadLog pt !! t) in
  set_logs (<[a := ops]> (op_mem pt)) (<[t := pushQ (curQ pt mod 2) a o]> (g_perThreadLog pt)) pt.

(** The data layer after an operation; the entries the operation handed to
    [enqPerThreadLog] go to the log of the thread. *)
Definition drain (t : nat) (d : dlist) (pt : pactree T) : pactree T :=
  foldl (fun pt o => enq t o pt) (set_dl (MkDlist (dl_nodes d) (headPtr d) (LinkedList.genId d) [] (dl_pmlog d) (dl_context d)) pt) (dl_log d).

(** * Operations *)

Definition totalNumaActive (pt : pactree T) : nat := length (g_perNumaSlPtr pt).

Definition getThreadNuma (pt : pactree T) (c : caller) : nat := if (totalNumaActive pt <=? c_chip c)%nat then 0%nat else c_chip c.

(** The function the trees are built with: the first word of the node that a
    pointer leads to, its [min] (0 where there is no node, which is never
    asked for: the trees hold nodes of the list only). *)
Definition loadKey (d : dlist) (tid : Z) : Z := from_option ln_min 0 (dl_nodes d !! getVaddr tid).

Definition getJumpNode (pt : pactree T) (c : caller) (key : Z) : res Z :=
  sl ← of_option OutOfRange (g_perNumaSlPtr pt !! getThreadNuma pt c);
  if sl_isEmpty sl then Ok (getVaddr (headPtr (dl pt)))
  else
    ptr ← sl_lookup (loadKey (dl pt)) sl key;
    let jumpNode := getVaddr ptr in
    Ok (if jumpNode =? 0 then getVaddr (headPtr (dl pt)) else jumpNode).

(** [curThreadData->read_lock] and [read_unlock] around an operation. *)
Definition read_lock (c : caller) (pt : pactree T) : res (pactree T) :=
  td ← of_option NullDeref (g_threadDataSet pt !! c_thread c);
  Ok (set_threads (<[c_thread c := td_read_lock td (c_clock c)]> (g_threadDataSet pt)) pt).
Definition read_unlock (c : caller) (pt : pactree T) : pactree T :=
  set_threads (alter td_read_unlock (c_thread c) (g_threadDataSet pt)) pt.

(** The data layer as the caller finds it: its thread and its core. *)
Definition run_by (c : caller) (d : dlist) : dlist :=
  MkDlist (dl_nodes d) (headPtr d) (LinkedList.genId d) (dl_log d) (dl_pmlog d)
    (MkLogContext (c_thread c) (c_core c) (lc_counts (dl_context d))).

(** An operation of the data layer from the jump node; [None]: it starts over. *)
Definition from_jump {A} (pt : pactree T) (c : caller) (key : Z) (op : dlist -> Z -> res (option (A * dlist)))
  : res (option (A * pactree T)) :=
  jumpNode ← getJumpNode pt c key;
  r ← op (run_by c (dl pt)) jumpNode;
  Ok (match r with Some (x, d) => Some (x, drain (c_thread c) d pt) | None => None end).

Definition in_thread {A} (pt : pactree T) (c : caller) (op : pactree T -> res (option (A * pactree T))) : res (option (A * pactree T)) :=
  pt1 ← read_lock c pt;
  r ← op pt1;
  Ok (match r with Some (x, pt2) => Some (x, read_unlock c pt2) | None => None end).

Definition pt_insert (pt : pactree T) (c : caller) (key val : Z) : res (option (bool * pactree T)) :=
  in_thread pt c (fun pt1 => from_jump pt1 c key (fun d j => insert d key val j)).

Definition pt_update (pt : pactree T) (c : caller) (key val : Z) : res (option (bool * pactree T)) :=
  in_thread pt c (fun pt1 => from_jump pt1 c key (fun d j => update d key val j)).

(** 0 when the key is not there. *)
Definition pt_lookup (pt : pactree T) (c : caller) (key : Z) : res (option (Z * pactree T)) :=
  in_thread pt c (fun pt1 => from_jump pt1 c key (fun d j => r ← lookup d key j; Ok (match r with Some v => Some (default 0 v, d) | None => None end))).

Definition pt_remove (pt : pactree T) (c : caller) (key : Z) : res (option (bool * pactree T)) :=
  in_thread pt c (fun pt1 => from_jump pt1 c key (fun d j => remove d key j)).

(** Not in a read section of the thread. *)
Definition pt_scan (pt : pactree T) (c : caller) (startKey : Z) (range : nat) : res (option (list Z * pactree T)) :=
  from_jump pt c startKey (fun d j => scan d startKey range j).

(** * The combiner (Combiner.h) *)

Definition combineLogs (pt : pactree T) : option (list Z) * pactree T :=
  let curQ' := to_u64 (curQ pt + 1) in
  let qnum := (curQ' - 1) mod 2 in
  let mergedLog := std_sort (fun a => a) (map_to_list (g_perThreadLog pt) ≫= (fun x => getQ qnum x.2)) in
  let logs := resetQ qnum <$> g_perThreadLog pt in
  let n := Z.of_nat (length mergedLog) in
  let more := negb (bool_decide (mergedLog = [])) in
  (if more then Some mergedLog else None,
   MkPactree (dl pt) (g_perNumaSlPtr pt) (op_mem pt) logs curQ' (g_WorkerThreadInst pt)
     (if more then logQueue pt ++ [(doneCountCombiner pt, mergedLog)] else logQueue pt)
     (if more then to_u64 (doneCountCombiner pt + 1) else doneCountCombiner pt) (combinerSplits pt + n)
     (g_threadDataSet pt) (numThreads pt)).

(** [boost::lockfree::capacity<1000000>]; [push] to a full queue does nothing
    but return false, which the combiner does not look at. *)
Definition WORK_QUEUE_CAPACITY : Z := 1000000.
Definition push_work (mergedLog : list Z) (w : WorkerThread) : WorkerThread :=
  if Z.of_nat (length (workQueue w)) <? WORK_QUEUE_CAPACITY
  then MkWorker (workQueue w ++ [mergedLog]) (logDoneCount w) (opcount w) (freeQueue w) else w.

Definition broadcastMergedLog (mergedLog : list Z) (pt : pactree T) : pactree T :=
  MkPactree (dl pt) (g_perNumaSlPtr pt) (op_mem pt) (g_perThreadLog pt) (curQ pt) (push_work mergedLog <$> g_WorkerThreadInst pt)
    (logQueue pt) (doneCountCombiner pt) (combinerSplits pt) (g_threadDataSet pt) (numThreads pt).

Fixpoint free_front (minDoneCountWt : Z) (q : list (Z * list Z)) : list (Z * list Z) :=
  match q with
  | x :: q' => if x.1 <? minDoneCountWt then free_front minDoneCountWt q' else q
  | [] => []
  end.

Definition freeMergedLogs (force : bool) (pt : pactree T) : Z * pactree T :=
  if negb force && bool_decide (length (logQueue pt) < 100)%nat then (0, pt)
  else
    let minDoneCountWt := foldl Z.min (2 ^ 64 - 1) (logDoneCount <$> g_WorkerThreadInst pt) in
    (minDoneCountWt,
     MkPactree (dl pt) (g_perNumaSlPtr pt) (op_mem pt) (g_perThreadLog pt) (curQ pt) (g_WorkerThreadInst pt)
       (free_front minDoneCountWt (logQueue pt)) (doneCountCombiner pt) (combinerSplits pt) (g_threadDataSet pt) (numThreads pt)).

(** One round of [combinerThreadExec] (no removal is ever logged, so there
    is no grace period). *)
Definition combine_broadcast (pt : pactree T) : pactree T :=
  let '(l, pt1) := combineLogs pt in
  match l with Some mergedLog => broadcastMergedLog mergedLog pt1 | None => pt1 end.
Definition combiner_round (pt : pactree T) : pactree T := (freeMergedLogs false (combine_broadcast pt)).2.

(** * A worker (WorkerThread.cpp) *)

(** The entries of the front vector, one after the other; [ret]: whether the
    worker 0 met a removal. *)
Fixpoint apply_ops (load : Z -> Z) (hash : Z) (w : nat) (done : Z) (ops : list Z) (sl : SearchLayer T) (m : gmap Z OpStruct) (cnt : Z)
    (fq : list (Z * Z)) (ret : bool) : res (SearchLayer T * gmap Z OpStruct * Z * list (Z * Z) * bool) :=
  match ops with
  | [] => Ok (sl, m, cnt, fq, ret)
  | a :: ops' =>
      o ← of_option BadAddress (m !! a);
      if negb (os_hash o =? hash) then apply_ops load hash w done ops' sl m cnt fq ret
      else
        let m' := <[a := MkOp OpDone (os_hash o) (os_key o) (os_oldNodePtr o) (os_newNodeOid o) (os_newKey o) (os_newVal o)]> m in
        match os_op o with
        | OpInsert => sl' ← sl_insert load sl (os_key o) (os_newNodeOid o); apply_ops load hash w done ops' sl' m' (cnt + 1) fq ret
        | OpRemove =>
            sl' ← sl_remove load sl (os_key o) (os_oldNodePtr o);
            apply_ops load hash w done ops' sl' m' (cnt + 1)
              (if (w =? 0)%nat then fq ++ [(done, os_oldNodePtr o)] else fq) (ret || (w =? 0)%nat)
        | OpDone => Err ExitFailure
        end
  end.

Definition applyOperation (w : nat) (pt : pactree T) : res (bool * pactree T) :=
  wt ← of_option OutOfRange (g_WorkerThreadInst pt !! w);
  let activeNuma := totalNumaActive pt in
  match workQueue wt with
  | [] => Err Undefined
  | oplog :: queue =>
      sl ← of_option OutOfRange (g_perNumaSlPtr pt !! (w mod activeNuma)%nat);
      '(sl', m', cnt, fq, ret) ←
        apply_ops (loadKey (dl pt)) (to_u8 (Z.of_nat (w / activeNuma))) w (logDoneCount wt) oplog sl (op_mem pt) (opcount wt) (freeQueue wt) false;
      Ok (ret, set_worker w (MkWorker queue (to_u64 (logDoneCount wt + 1)) cnt fq)
                 (<[(w mod activeNuma)%nat := sl']> (g_perNumaSlPtr pt)) m' pt)
  end.

(** The loop [while (!wt.isWorkQueueEmpty())] of [workerThreadExec]. *)
Fixpoint worker_rounds (n : nat) (w : nat) (pt : pactree T) : res (pactree T) :=
  match n with
  | O => Ok pt
  | S n' => '(_, pt') ← applyOperation w pt; worker_rounds n' w pt'
  end.

Definition worker_round (w : nat) (pt : pactree T) : res (pactree T) :=
  wt ← of_option OutOfRange (g_WorkerThreadInst pt !! w);
  worker_rounds (length (workQueue wt)) w pt.

(** * Recovery (linkedList.cpp) *)

(** A slot of the log area; [bindLog] fills it with zeros, and zero is
    [insert]. *)
Definition log_slot (d : dlist) (i : nat) : OpStruct := default (MkOp OpInsert 0 0 0 0 0 0) (dl_pmlog d !! Z.of_nat i).

Definition set_slot (d : dlist) (i : nat) (o : OpStruct) : dlist :=
  MkDlist (dl_nodes d) (headPtr d) (LinkedList.genId d) (dl_log d) (<[Z.of_nat i := o]> (dl_pmlog d)) (dl_context d).

Definition recoverSplit (d : dlist) (p : Z) (olog : OpStruct) : res (Z * dlist) :=
  split d p (os_newKey olog) (os_newVal olog) (getKeyFingerPrint (os_newKey olog)).

(** [pptr::operator->], which does not look for null. *)
Definition arrow (d : dlist) (rawPtr : Z) : res ListNode := of_option BadAddress (dl_nodes d !! rawPtr).

Definition recover_entry (i : nat) (st : SearchLayer T * dlist) : res (SearchLayer T * dlist) :=
  let '(sl, d) := st in
  let oplog := log_slot d i in
  match os_op oplog with
  | OpInsert =>
      let np := os_oldNodePtr oplog in
      node ← arrow d np;
      '(next_node, sl1, d1) ←
        (if negb (getNext node =? getVaddr (os_newNodeOid oplog)) then
           '(q, d1) ← recoverSplit (set_nodes (delete (os_newNodeOid oplog) (dl_nodes d)) d) np oplog; Ok (q, sl, d1)
         else
           node' ← recoverNode node (os_key oplog);
           let d1 := put_node np node' d in
           sl1 ← (if sl_isEmpty sl then sl_insert (loadKey d1) sl (os_key oplog) (os_oldNodePtr oplog)
                  else
                    ptr ← sl_lookup (loadKey d1) sl (os_key oplog);
                    if negb (ptr =? os_oldNodePtr oplog) then sl_insert (loadKey d1) sl (os_key oplog) (os_oldNodePtr oplog) else Ok sl);
           Ok (nextPtr node, sl1, d1));
      nn ← arrow d1 next_node;
      nnext ← get_node d1 (getNext nn);
      Ok (sl1, set_slot (put_node (getNext nn) (setPrev nnext next_node) d1) i
                 (MkOp OpDone (os_hash oplog) (os_key oplog) (os_oldNodePtr oplog) (os_newNodeOid oplog) (os_newKey oplog) (os_newVal oplog)))
  | OpRemove =>
      let np := os_oldNodePtr oplog in
      node ← arrow d np;
      prev ← arrow d (prevPtr node);
      deleted_node ← get_node d (getVaddr np);
      prev' ← recoverMergingNode prev deleted_node;
      let d1 := put_node (prevPtr node) prev' d in
      sl1 ← (if sl_isEmpty sl then Ok sl
             else
               ptr ← sl_lookup (loadKey d1) sl (os_key oplog);
               if ptr =? os_oldNodePtr oplog then sl_remove (loadKey d1) sl (os_key oplog) (os_oldNodePtr oplog) else Ok sl);
      Ok (sl1, set_nodes (delete (os_newNodeOid oplog) (dl_nodes d1)) d1)
  | OpDone => Ok (sl, d)
  end.

(** [1000*112] slots. *)
Definition LOG_SLOTS : nat := Z.to_nat (1000 * 112).

Definition Recovery (d : dlist) (sl : SearchLayer T) : res (SearchLayer T * dlist) :=
  foldl (fun acc i => st ← acc; recover_entry i st)
    (Ok (sl, MkDlist (dl_nodes d) (headPtr d) (LinkedList.genId d + 1) (dl_log d) (dl_pmlog d) (dl_context d))) (seq 0 LOG_SLOTS).
End pactree.

(** * The index of the key-value store (KeyIndex.h)

    [PACTREEIndex] drops the results of [insert] and [remove]. *)
Section keyindex.
Context `{StdSort} `{PMem} `{OpMem} {T : Type} `{ArtTree T}.

Definition pi_insert (pt : pactree T) (c : caller) (key ptr : Z) : res (option (bool * pactree T)) :=
  r ← pt_insert pt c key ptr; Ok (match r with Some (_, pt') => Some (true, pt') | None => None end).
Definition pi_remove (pt : pactree T) (c : caller) (key : Z) : res (option (bool * pactree T)) :=
  r ← pt_remove pt c key; Ok (match r with Some (_, pt') => Some (true, pt') | None => None end).
Definition pi_lookup (pt : pactree T) (c : caller) (key : Z) : res (option (Z * pactree T)) := pt_lookup pt c key.
Definition pi_lookupRange (pt : pactree T) (c : caller) (start : Z) (range : nat) : res (option (list Z * pactree T)) :=
  pt_scan pt c start range.
End keyindex.
