(* ===== verification/PactreeFacts.v ===== *)
(** PACTree with one NUMA node, as the key-value store creates it, implements
    a map: every node the search layer may name is a node of the data layer,
    so that operations and the background threads may be interleaved in any
    way. *)

From S2P Require Import Prelude NodeBits VersionedLock ListNode ListNodeFacts ListNodeScan LinkedList.
From S2P Require Import LinkedListInv LinkedListOps SplitFacts LinkedListInsert LinkedListRemove LinkedListScan SearchLayer Pactree.

Local Open Scope Z_scope.

Section facts.
Context `{StdSort} `{PO : PMemOk} `{OO : OpMemOk} {T : Type} `{ArtTreeOk T}.

(** * The invariant *)

(** The log entries on their way to the worker. *)
Definition logged (logs : gmap nat Oplog) : list Z := map_to_list logs ≫= (fun x => op0 x.2 ++ op1 x.2).
Definition pending (wt : WorkerThread) (logs : gmap nat Oplog) : list Z := concat (workQueue wt) ++ logged logs.

(** An entry that names a node of the list under its anchor key. *)
Definition entry_ok (m : gmap Z OpStruct) (l : node_list) (a : Z) : Prop :=
  exists o, m !! a = Some o /\ log_entry o /\ logged_anchor o ∈ anchors l.

(** The search layer holds nodes of the list under their anchor keys, after
    [n] insertions. *)
Definition searches (d : dlist) (l : node_list) (n : nat) (sl : SearchLayer T) (M : gmap Z Z) : Prop :=
  sl_holds (loadKey d) n sl M /\ forall k p, M !! k = Some p -> (p, k) ∈ anchors l.

(** The search layer of the tree.  [r]: how many nodes of the list at least
    are neither in it nor on their way. *)
Definition search_state (r : nat) (pt : pactree T) (l : node_list) (sl : SearchLayer T) (n : nat) (M : gmap Z Z) : Prop :=
  g_perNumaSlPtr pt = [sl] /\ searches (dl pt) l n sl M /\
  forall wt, g_WorkerThreadInst pt = [wt] -> (n + length (pending wt (g_perThreadLog pt)) + r <= length l)%nat.

Record pt_inv_room {r : nat} (pt : pactree T) (l : node_list) (t : Z * ListNode) : Prop := {
  pi_list : dl_inv (dl pt) l t;
  pi_drained : dl_log (dl pt) = [];
  pi_search : exists sl n M, search_state r pt l sl n M;
  pi_worker : exists wt, g_WorkerThreadInst pt = [wt] /\ NoDup (pending wt (g_perThreadLog pt)) /\
    Forall (entry_ok (op_mem pt) l) (pending wt (g_perThreadLog pt));
  (** the queues the threads do not fill at present *)
  pi_idle : forall i o, g_perThreadLog pt !! i = Some o -> getQ ((curQ pt + 1) mod 2) o = [];
}.

Definition pt_inv (pt : pactree T) (l : node_list) (t : Z * ListNode) : Prop := pt_inv_room (r := 0) pt l t.

(** The thread of the caller. *)
Definition registered (pt : pactree T) (c : caller) : Prop := is_Some (g_threadDataSet pt !! c_thread c).

Lemma entry_ok_mono m l l' a : anchors l ⊆ anchors l' -> entry_ok m l a -> entry_ok m l' a.
Proof. intros Hl (o & Hm & Ho & Hn). exists o. split; [done|]. split; [done|]. by apply Hl. Qed.

(** * Anchor keys *)

Lemma loadKey_anchor d l t p k : dl_inv d l t -> (p, k) ∈ anchors l -> loadKey d p = k.
Proof.
  intros Hi (n & Hin & <-)%anchors_elem. destruct (in_memory_node d l t p n Hi) as (_ & Hv & _); [apply elem_of_app; by left|].
  unfold loadKey. rewrite Hv. pose proof (di_mem _ _ _ Hi) as Hm. unfold in_memory in Hm. rewrite Forall_forall in Hm.
  specialize (Hm (p, n) ltac:(apply elem_of_app; by left)). cbn in Hm. by rewrite Hm.
Qed.

Lemma anchor_range d l t p k : dl_inv d l t -> (p, k) ∈ anchors l -> 0 <= k < 2 ^ 64.
Proof.
  intros Hi (n & Hin & <-)%anchors_elem. pose proof (tiled_elem _ _ _ _ _ (di_tiled _ _ _ Hi) Hin) as Hr. unfold ULLONG_MAX in Hr. lia.
Qed.

Lemma anchors_nodup d l t : dl_inv d l t -> NoDup (anchors l).
Proof.
  intros Hi. apply (NoDup_fmap_1 fst). rewrite anchors_ptrs. pose proof (di_nodup _ _ _ Hi) as Hn. rewrite fmap_app in Hn. by apply NoDup_app in Hn as [? _].
Qed.

Lemma anchors_length l : length (anchors l) = length l.
Proof. apply length_fmap. Qed.

(** A list without the nodes that another lost, which has all of its nodes. *)
Lemma anchors_same d l t d' l' t' : dl_inv d l t -> dl_inv d' l' t' -> anchors l' ⊆ anchors l -> l.*1 ⊆ l'.*1 -> anchors l' ≡ₚ anchors l.
Proof.
  intros Hi Hi' Hs Hp. apply NoDup_Permutation; [by eapply anchors_nodup..|]. intros [p k]. split; [apply Hs|]. intros Hin.
  assert (p ∈ l'.*1) as Hp' by (apply Hp; rewrite <- anchors_ptrs; exact (list_elem_of_fmap_2 fst _ _ Hin)). rewrite <- anchors_ptrs in Hp'.
  apply list_elem_of_fmap in Hp' as ([q k'] & [= <-] & Hin'). pose proof (loadKey_anchor _ _ _ _ _ Hi Hin) as E. pose proof (loadKey_anchor _ _ _ _ _ Hi (Hs _ Hin')) as E'.
  by rewrite <- E, E'.
Qed.

Lemma searches_mono d l t d' l' t' n sl M : dl_inv d l t -> dl_inv d' l' t' -> anchors l ⊆ anchors l' -> searches d l n sl M -> searches d' l' n sl M.
Proof.
  intros Hi Hi' Hl [Hs HM]. split; [|intros k p Hk; by apply Hl, HM]. eapply sl_holds_ext; [exact Hs|]. intros k p Hk%HM.
  by rewrite (loadKey_anchor _ _ _ _ _ Hi Hk), (loadKey_anchor _ _ _ _ _ Hi' (Hl _ Hk)).
Qed.

Lemma inv_room r r' pt l t : (r' <= r)%nat -> pt_inv_room (r := r) pt l t -> pt_inv_room (r := r') pt l t.
Proof.
  intros Hr [A B (sl & n & M & C & D & F) G I]. split; [done|done| |done|done]. exists sl, n, M. split; [done|]. split; [done|].
  intros wt Hw. specialize (F wt Hw). lia.
Qed.

(** * The jump node *)

Lemma chain_vaddr d l t p : dl_inv d l t -> p ∈ (l ++ [t]).*1 -> getVaddr p = p /\ p <> 0.
Proof.
  intros Hi ([q n] & -> & Hin)%list_elem_of_fmap. destruct (in_memory_node _ _ _ _ _ Hi Hin) as (Hz & Hv & _). done.
Qed.

Lemma head_in d l t : dl_inv d l t -> getVaddr (headPtr d) = headPtr d /\ headPtr d ∈ (l ++ [t]).*1.
Proof.
  intros Hi. assert (headPtr d ∈ (l ++ [t]).*1) as Hin.
  { rewrite (di_head _ _ _ Hi). destruct l as [|[p n] l]; [destruct t|]; cbn; left. }
  split; [|done]. by apply (chain_vaddr _ _ _ _ Hi).
Qed.

Lemma getJumpNode_spec pt c key l t : pt_inv pt l t -> 0 <= key < ULLONG_MAX -> exists s, getJumpNode pt c key = Ok s /\ s ∈ (l ++ [t]).*1.
Proof.
  intros [Hi _ (sl & n & M & Esl & [Hs HM] & _) _ _] Hk. destruct (head_in _ _ _ Hi) as [Hhv Hh]. unfold getJumpNode.
  assert (getThreadNuma pt c = 0%nat) as ->.
  { unfold getThreadNuma, totalNumaActive. rewrite Esl. cbn [length]. destruct (Nat.leb_spec 1 (c_chip c)); lia. }
  rewrite Esl. change (of_option OutOfRange ([sl] !! 0%nat)) with (Ok sl). cbn [mbind res_bind]. rewrite Hhv.
  destruct (sl_isEmpty sl) eqn:Ee; [by exists (headPtr (dl pt))|].
  destruct (sl_lookup_holds _ _ _ _ key Hs Ee) as (p & -> & Hp); [unfold ULLONG_MAX in Hk; lia|]. cbn [mbind res_bind].
  destruct Hp as [->|(k & Hin%HM)]; [change (getVaddr 0 =? 0) with true; by exists (headPtr (dl pt))|].
  assert (p ∈ (l ++ [t]).*1) as Hc by (rewrite fmap_app, <- anchors_ptrs; apply elem_of_app; left; exact (list_elem_of_fmap_2 fst _ _ Hin)).
  destruct (chain_vaddr _ _ _ _ Hi Hc) as [-> Hz]. rewrite (proj2 (Z.eqb_neq _ 0)) by done. by exists p.
Qed.

(** * Logging *)

Lemma logged_insert logs i o a q : (q = 0 \/ q = 1) -> default new_oplog (logs !! i) = o ->
  logged (<[i := pushQ q a o]> logs) ≡ₚ a :: logged logs.
Proof.
  intros Hq Ho. unfold logged. assert (forall o', op0 (pushQ q a o') ++ op1 (pushQ q a o') ≡ₚ a :: op0 o' ++ op1 o') as Hp.
  { intros o'. destruct Hq as [-> | ->]; cbn; [rewrite <- app_assoc; symmetry; apply Permutation_middle|].
    by rewrite (assoc_L (++)), Permutation_app_comm. }
  destruct (logs !! i) as [o0|] eqn:E; cbn in Ho; subst o.
  - rewrite <- (insert_delete_eq logs i (pushQ q a o0)), map_to_list_insert by apply lookup_delete_eq. cbn.
    rewrite Hp. cbn. rewrite <- (insert_id logs i o0 E) at 2. rewrite <- insert_delete_eq, map_to_list_insert by apply lookup_delete_eq. done.
  - rewrite map_to_list_insert by done. cbn. by rewrite Hp.
Qed.

Lemma mod2 z : z mod 2 = 0 \/ z mod 2 = 1.
Proof. pose proof (Z.mod_pos_bound z 2). lia. Qed.

Lemma getQ_push q q' a o : (q = 0 \/ q = 1) -> (q' = 0 \/ q' = 1) -> q <> q' -> getQ q' (pushQ q a o) = getQ q' o.
Proof. intros [-> | ->] [-> | ->]; done. Qed.

Lemma mod2_next z : (z + 1) mod 2 <> z mod 2.
Proof. intros E. rewrite Z.add_mod in E by lia. destruct (mod2 z) as [E2|E2]; rewrite E2 in E; done. Qed.

Lemma enq_inv r pt l t i o : pt_inv_room (r := S r) pt l t -> log_entry o -> logged_anchor o ∈ anchors l -> pt_inv_room (r := r) (enq i o pt) l t.
Proof.
  intros [Hi Hd (sl & n & M & Es & Hs & Hr) (wt & Ew & Hnd & Hok) Hidle] Ho Hn. unfold enq. set (a := om_alloc (op_mem pt)).
  assert (op_mem pt !! a = None) as Ha by apply om_fresh.
  assert (pending wt (<[i := pushQ (curQ pt mod 2) a (default new_oplog (g_perThreadLog pt !! i))]> (g_perThreadLog pt)) ≡ₚ
    a :: pending wt (g_perThreadLog pt)) as Hp.
  { unfold pending. rewrite (logged_insert _ _ _ _ _ (mod2 _) eq_refl). by rewrite Permutation_middle. }
  split; [done|done| | |].
  - exists sl, n, M. split; [done|]. split; [done|]. cbn. intros wt' Hw'. rewrite Ew in Hw'. injection Hw' as <-. rewrite Hp. specialize (Hr wt Ew). cbn. lia.
  - exists wt. split; [done|]. cbn. rewrite Hp. rewrite Forall_forall in Hok. split.
    + apply NoDup_cons. split; [|done]. intros (o' & Hm & _)%Hok. congruence.
    + apply Forall_cons. split; [exists o; split; [apply lookup_insert_eq|done]|]. apply Forall_forall. intros b Hb.
      destruct (Hok _ Hb) as (o' & Hm & ?). exists o'. split; [|done]. rewrite lookup_insert_ne; [done|]. congruence.
  - cbn. intros j o' Hj. destruct (decide (i = j)) as [<-|Hne].
    + rewrite lookup_insert_eq in Hj. injection Hj as <-. rewrite getQ_push; [|apply mod2|apply mod2|apply not_eq_sym, mod2_next].
      destruct (g_perThreadLog pt !! i) as [o0|] eqn:E; [by apply (Hidle i)|]. unfold getQ. by destruct ((curQ pt + 1) mod 2 =? 0).
    + rewrite lookup_insert_ne in Hj by done. by apply (Hidle j).
Qed.

(** The parts of the state that an operation of the data layer leaves. *)
Definition same_rest (pt pt' : pactree T) : Prop :=
  g_perNumaSlPtr pt' = g_perNumaSlPtr pt /\ g_WorkerThreadInst pt' = g_WorkerThreadInst pt /\ curQ pt' = curQ pt /\
  dom (g_threadDataSet pt') = dom (g_threadDataSet pt) /\ numThreads pt' = numThreads pt /\
  logQueue pt' = logQueue pt /\ doneCountCombiner pt' = doneCountCombiner pt.

Lemma drain_enqs pt l t i ops : pt_inv_room (r := length ops) pt l t -> Forall (fun o => log_entry o /\ logged_anchor o ∈ anchors l) ops ->
  let pt' := foldl (fun pt o => enq i o pt) pt ops in
  pt_inv pt' l t /\ dl pt' = dl pt /\ same_rest pt pt' /\ g_threadDataSet pt' = g_threadDataSet pt.
Proof.
  revert pt. induction ops as [|o ops IH]; intros pt Hi Ho; [by split_and!|]. apply Forall_cons in Ho as [[Ho1 Ho2] Ho]. cbn [foldl].
  destruct (IH (enq i o pt) (enq_inv _ _ _ _ _ _ Hi Ho1 Ho2) Ho) as (A & B & C & D). split_and!; done.
Qed.

Lemma dl_inv_same d d' l t : dl_inv d l t -> dl_nodes d' = dl_nodes d -> headPtr d' = headPtr d ->
  LinkedList.genId d' = LinkedList.genId d -> dl_inv d' l t.
Proof. intros [A B C D E F G I J] Em Eh Eg. split; try done; [by rewrite Eg|by rewrite Eh|by rewrite Em]. Qed.

(** The new nodes of [l'] are those that [ops] name. *)
Definition grew (ops : list OpStruct) (l l' : node_list) : Prop := Forall log_entry ops /\ anchors l' ≡ₚ (logged_anchor <$> ops) ++ anchors l.

Lemma grew_anchors ops l l' : grew ops l l' -> anchors l ⊆ anchors l' /\ Forall (fun o => log_entry o /\ logged_anchor o ∈ anchors l') ops /\
  length l' = (length ops + length l)%nat.
Proof.
  intros [Ho Hp]. split_and!.
  - intros x Hx. rewrite Hp. apply elem_of_app. by right.
  - rewrite Forall_forall in Ho |- *. intros o Hin. split; [by apply Ho|]. rewrite Hp. apply elem_of_app. left. by apply list_elem_of_fmap_2.
  - rewrite <- (anchors_length l'), Hp, length_app, length_fmap, anchors_length. done.
Qed.

Lemma grew_same l l' : anchors l' ≡ₚ anchors l -> grew [] l l'.
Proof. by split. Qed.

Lemma drain_spec pt l t i d l' t' : pt_inv pt l t -> dl_inv d l' t' -> grew (dl_log d) l l' ->
  pt_inv (drain i d pt) l' t' /\ dl_nodes (dl (drain i d pt)) = dl_nodes d /\ same_rest pt (drain i d pt) /\
  g_threadDataSet (drain i d pt) = g_threadDataSet pt.
Proof.
  intros [Hi Hd (sl & n & M & Es & Hs & Hr) (wt & Ew & Hnd & Hok) Hidle] Hi' (Hl & Ho & Hlen)%grew_anchors. unfold drain.
  set (pt1 := set_dl _ pt). assert (dl_inv (dl pt1) l' t') as Hd1 by (by eapply dl_inv_same). assert (pt_inv_room (r := length (dl_log d)) pt1 l' t') as Hp.
  { split; [done|done| | |done].
    - exists sl, n, M. split; [done|]. split; [exact (searches_mono _ _ _ _ _ _ _ _ _ Hi Hd1 Hl Hs)|]. intros wt' Hw'. specialize (Hr wt' Hw'). cbn. lia.
    - exists wt. split; [done|]. split; [done|]. eapply Forall_impl; [exact Hok|]. intros a. by apply entry_ok_mono. }
  destruct (drain_enqs pt1 l' t' i (dl_log d) Hp Ho) as (A & B & C & D). cbv zeta in *. split_and!; [done| |done|done].
  by rewrite B.
Qed.

Lemma pt_inv_threads pt l t ts : pt_inv pt l t -> pt_inv (set_threads ts pt) l t.
Proof. intros []. by split. Qed.

(** * Operations *)

(** An operation of the data layer from the jump node, in the thread. *)
Lemma in_thread_spec {A} pt c key l t (f : dlist -> Z -> res (option (A * dlist))) : pt_inv pt l t -> registered pt c -> 0 <= key < ULLONG_MAX ->
  exists s pt1, s ∈ (l ++ [t]).*1 /\ pt_inv pt1 l t /\ dl pt1 = dl pt /\ same_rest pt pt1 /\ registered pt1 c /\
    in_thread pt c (fun pt1 => from_jump pt1 c key f) =
      (r ← f (run_by c (dl pt)) s; Ok (match r with Some (x, d) => Some (x, read_unlock c (drain (c_thread c) d pt1)) | None => None end)).
Proof.
  intros Hi [td Htd] Hk. unfold in_thread, read_lock. rewrite Htd. cbn [of_option mbind res_bind].
  set (pt1 := set_threads _ pt). assert (pt_inv pt1 l t) as Hp by (by apply pt_inv_threads).
  destruct (getJumpNode_spec pt1 c key l t Hp Hk) as (s & Ej & Hs). exists s, pt1. split; [done|]. split; [done|]. split; [done|].
  split; [split_and!; try done; cbn; rewrite dom_insert_L; apply subseteq_union_1_L, singleton_subseteq_l, elem_of_dom; by eexists|].
  split; [exists (td_read_lock td (c_clock c)); cbn; by rewrite lookup_insert_eq|].
  unfold from_jump. rewrite Ej. cbn [mbind res_bind]. change (dl pt1) with (dl pt). destruct (f (run_by c (dl pt)) s) as [r|e]; [|done].
  cbn [mbind res_bind]. by destruct r as [[x d]|].
Qed.

Lemma read_unlock_spec pt c l t : pt_inv pt l t -> pt_inv (read_unlock c pt) l t /\ dl (read_unlock c pt) = dl pt /\
  same_rest pt (read_unlock c pt).
Proof.
  intros Hi. split; [by apply pt_inv_threads|]. split; [done|]. split_and!; try done. cbn. apply dom_alter_L.
Qed.

Lemma same_rest_trans pt1 pt2 pt3 : same_rest pt1 pt2 -> same_rest pt2 pt3 -> same_rest pt1 pt3.
Proof. intros (A & B & C & D & E & F & G) (A' & B' & C' & D' & E' & F' & G'). split_and!; congruence. Qed.

Lemma finish_spec pt pt1 c l t l' t' d : same_rest pt pt1 -> pt_inv pt1 l t -> dl_inv d l' t' -> grew (dl_log d) l l' ->
  let pt' := read_unlock c (drain (c_thread c) d pt1) in
  pt_inv pt' l' t' /\ dl_nodes (dl pt') = dl_nodes d /\ same_rest pt pt'.
Proof.
  intros Hr Hi Hd Hg pt'. destruct (drain_spec pt1 l t (c_thread c) d l' t' Hi Hd Hg) as (A & B & C & D).
  destruct (read_unlock_spec (drain (c_thread c) d pt1) c l' t' A) as (A2 & B2 & C2). split; [done|]. unfold pt'.
  rewrite B2. split; [done|]. by do 2 (eapply same_rest_trans; [done|]).
Qed.

Lemma run_by_inv c d l t : dl_inv d l t -> dl_inv (run_by c d) l t.
Proof. intros Hi. by eapply dl_inv_same. Qed.

(** The tree holds the map [m]; [b] bounds its locks and [k] its nodes. *)
Definition pt_state (b : Z) (k : nat) (pt : pactree T) (m : gmap Z Z) : Prop :=
  exists l t, pt_inv pt l t /\ locks_below b (l ++ [t]) /\ nonempty l /\ (size (dl_nodes (dl pt)) <= k)%nat /\ dl_map l = m.

Definition lock_room (b : Z) : Prop := new_lock < b <= 2 ^ 32 - 4.

Lemma below_fresh b l t : lock_room b -> locks_below b (l ++ [t]) -> locks_fresh (l ++ [t]) /\ locks_fresh l.
Proof.
  intros Hb Hl. assert (locks_fresh (l ++ [t])) as Hf by (eapply (locks_below_mono b); [apply Hb|done]). split; [done|].
  by apply Forall_app in Hf as [? _].
Qed.

Definition insert_absent (m : gmap Z Z) (key v : Z) : gmap Z Z :=
  match m !! key with Some _ => m | None => <[key := v]> m end.
Definition update_present (m : gmap Z Z) (key v : Z) : gmap Z Z :=
  match m !! key with Some _ => <[key := v]> m | None => m end.

Lemma pt_insert_spec b k pt m c key v : pt_state b k pt m -> registered pt c -> 0 <= key < ULLONG_MAX -> lock_room b ->
  (k < pm_heap)%nat ->
  exists pt', pt_insert pt c key v = Ok (Some (bool_decide (m !! key = None), pt')) /\
    pt_state (b + 2) (S k) pt' (insert_absent m key v) /\ same_rest pt pt'.
Proof.
  intros (l & t & Hi & Hl & Hne & Hsz & Hm) Hreg Hk Hb Hroom. destruct (below_fresh _ _ _ Hb Hl) as [_ Hf].
  unfold pt_insert. destruct (in_thread_spec pt c key l t (fun d j => insert d key v j) Hi Hreg Hk) as (s & pt1 & Hs & Hi1 & Ed & Hr1 & _ & ->).
  destruct (dl_insert_spec _ _ _ key v s (run_by_inv c _ _ _ (pi_list _ _ _ Hi)) Hf Hk Hs) as (d' & l' & t' & -> & [I1 I2 I4 (ops & I5 & I6) I7 I8 I9]); [cbn; lia|].
  cbn [dl_log run_by] in I5. rewrite (pi_drained _ _ _ Hi) in I5. cbn in I5. subst ops. cbn [mbind res_bind].
  destruct (finish_spec pt pt1 c l t l' t' d' Hr1 Hi1 I1 I6) as (A & B & C). cbv zeta in *.
  eexists. split; [rewrite Hm; done|]. split; [|exact C]. exists l', t'. split; [done|]. split; [by apply I8; [apply Hb|]|].
  split; [by apply I9|]. split; [rewrite B; cbn in I7; lia|]. rewrite I4, Hm. done.
Qed.

Lemma pt_update_spec b k pt m c key v : pt_state b k pt m -> registered pt c -> 0 < key < ULLONG_MAX -> lock_room b ->
  exists pt', pt_update pt c key v = Ok (Some (bool_decide (is_Some (m !! key)), pt')) /\
    pt_state (b + 2) k pt' (update_present m key v) /\ same_rest pt pt'.
Proof.
  intros (l & t & Hi & Hl & Hne & Hsz & Hm) Hreg Hk Hb. destruct (below_fresh _ _ _ Hb Hl) as [_ Hf].
  unfold pt_update. destruct (in_thread_spec pt c key l t (fun d j => update d key v j) Hi Hreg ltac:(lia)) as (s & pt1 & Hs & Hi1 & Ed & Hr1 & _ & ->).
  destruct (dl_update_spec _ _ _ key v s (run_by_inv c _ _ _ (pi_list _ _ _ Hi)) Hf Hk Hs) as (d' & l' & -> & I1 & I3 & I4 & I5 & I7 & I8 & I9).
  cbn [dl_log run_by] in I5. rewrite (pi_drained _ _ _ Hi) in I5. cbn [mbind res_bind].
  destruct (finish_spec pt pt1 c l t l' t d' Hr1 Hi1 I1) as (A & B & C); [rewrite I5; apply grew_same; by rewrite I3|]. cbv zeta in *.
  eexists. split; [rewrite Hm; done|]. split; [|exact C]. exists l', t. split; [done|]. split; [by apply I8; [apply Hb|]|].
  split; [by apply I9|]. split; [rewrite B; cbn in I7; lia|]. rewrite I4, Hm. done.
Qed.

Lemma pt_lookup_spec b k pt m c key : pt_state b k pt m -> registered pt c -> 0 <= key < ULLONG_MAX -> lock_room b ->
  exists pt', pt_lookup pt c key = Ok (Some (default 0 (m !! key), pt')) /\ pt_state b k pt' m /\ same_rest pt pt'.
Proof.
  intros (l & t & Hi & Hl & Hne & Hsz & Hm) Hreg Hk Hb. destruct (below_fresh _ _ _ Hb Hl) as [_ Hf].
  unfold pt_lookup. match goal with |- context [from_jump _ _ _ ?f] =>
    destruct (in_thread_spec pt c key l t f Hi Hreg Hk) as (s & pt1 & Hs & Hi1 & Ed & Hr1 & _ & ->) end.
  rewrite (dl_lookup_spec _ _ _ key s (run_by_inv c _ _ _ (pi_list _ _ _ Hi)) Hf Hk Hs). cbn [mbind res_bind].
  destruct (finish_spec pt pt1 c l t l t (run_by c (dl pt)) Hr1 Hi1 (run_by_inv c _ _ _ (pi_list _ _ _ Hi))) as (A & B & C);
    [cbn [dl_log run_by]; rewrite (pi_drained _ _ _ Hi); by apply grew_same|].
  cbv zeta in *. eexists. split; [rewrite Hm; done|]. split; [|exact C]. exists l, t. by rewrite B.
Qed.

Lemma pt_scan_spec b k pt m c startKey range : pt_state b k pt m -> 0 <= startKey < ULLONG_MAX -> lock_room b ->
  exists pt', pt_scan pt c startKey range = Ok (Some (take range (snd <$> from_key m startKey), pt')) /\
    pt_state (b + 2) k pt' m /\ same_rest pt pt'.
Proof.
  intros (l & t & Hi & Hl & Hne & Hsz & Hm) Hk Hb. destruct (below_fresh _ _ _ Hb Hl) as [Hf _].
  unfold pt_scan, from_jump. destruct (getJumpNode_spec pt c startKey l t Hi Hk) as (s & -> & Hs). cbn [mbind res_bind].
  destruct (dl_scan_spec _ _ _ startKey range s (run_by_inv c _ _ _ (pi_list _ _ _ Hi)) Hf Hk Hs) as (d' & l' & -> & I1 & I3 & I4 & I5 & I7 & I8 & I9).
  { eapply Forall_impl; [exact Hne|]. done. }
  cbn [mbind res_bind]. cbn [dl_log run_by] in I5. rewrite (pi_drained _ _ _ Hi) in I5.
  destruct (drain_spec pt l t (c_thread c) d' l' t Hi I1) as (A & B & C & D); [rewrite I5; apply grew_same; by rewrite I3|].
  eexists. split; [rewrite Hm; done|]. split; [|exact C]. exists l', t. split; [done|]. split; [by apply I8; [apply Hb|]|].
  split; [by apply I9|]. split; [|by rewrite I4]. rewrite B. rewrite <- size_dom, I7, size_dom. done.
Qed.

(** A removal; the search layer keeps its nodes as long as nothing is merged. *)
Lemma pt_remove_spec pt l t c key : pt_inv pt l t -> locks_fresh l -> registered pt c -> 0 < key < ULLONG_MAX ->
  exists pt' l' t', pt_remove pt c key = Ok (Some (bool_decide (is_Some (dl_map l !! key)), pt')) /\
    dl_inv (dl pt') l' t' /\ dl_map l' = delete key (dl_map l) /\ l'.*1 ⊆ l.*1 /\ (l.*1 ⊆ l'.*1 -> pt_inv pt' l' t').
Proof.
  intros Hi Hf Hreg Hk. unfold pt_remove.
  destruct (in_thread_spec pt c key l t (fun d j => remove d key j) Hi Hreg ltac:(lia)) as (s & pt1 & Hs & Hi1 & Ed & Hr1 & _ & ->).
  destruct (remove_spec _ _ _ key s (run_by_inv c _ _ _ (pi_list _ _ _ Hi)) Hf Hk Hs) as (d' & l' & t' & -> & [I1 I2 I3 I4 I5 I6]).
  cbn [dl_log run_by] in I5. rewrite (pi_drained _ _ _ Hi) in I5. cbn [mbind res_bind]. eexists _, l', t'. split; [done|].
  assert (dl (read_unlock c (drain (c_thread c) d' pt1)) =
    MkDlist (dl_nodes d') (headPtr d') (LinkedList.genId d') [] (dl_pmlog d') (dl_context d')) as E by (unfold drain; by rewrite I5).
  split; [rewrite E; by eapply dl_inv_same|]. split; [done|]. split.
  - rewrite <- !anchors_ptrs. intros p (x & -> & Hx)%list_elem_of_fmap. apply list_elem_of_fmap. exists x. split; [done|]. by apply I3.
  - intros Hl. destruct (finish_spec pt pt1 c l t l' t' d' Hr1 Hi1 I1) as (A & _); [|done]. rewrite I5. apply grew_same.
    exact (anchors_same _ _ _ _ _ _ (pi_list _ _ _ Hi) I1 I3 Hl).
Qed.

(** * The combiner *)

Lemma logged_empty (logs : gmap nat Oplog) : (forall i o, logs !! i = Some o -> op0 o = [] /\ op1 o = []) -> logged logs = [].
Proof.
  intros Hl. unfold logged. assert (forall i o, (i, o) ∈ map_to_list logs -> op0 o ++ op1 o = []) as Hm.
  { intros i o Hin%elem_of_map_to_list. by destruct (Hl i o Hin) as [-> ->]. }
  induction (map_to_list logs) as [|[i o] k IH]; [done|]. cbn. rewrite (Hm i o) by left. apply IH. intros j o' Hj. apply (Hm j). by right.
Qed.

Lemma logged_one (logs : gmap nat Oplog) q : (q = 0 \/ q = 1) -> (forall i o, logs !! i = Some o -> getQ (1 - q) o = []) ->
  logged logs = map_to_list logs ≫= (fun x => getQ q x.2).
Proof.
  intros Hq Hl. unfold logged. assert (forall i o, (i, o) ∈ map_to_list logs -> op0 o ++ op1 o = getQ q o) as Hm.
  { intros i o Hin%elem_of_map_to_list. specialize (Hl i o Hin). destruct Hq as [-> | ->].
    - change (op1 o = []) in Hl. rewrite Hl. apply app_nil_r.
    - change (op0 o = []) in Hl. by rewrite Hl. }
  induction (map_to_list logs) as [|[i o] k IH]; [done|]. cbn. rewrite (Hm i o) by left. f_equal. apply IH. intros j o' Hj. apply (Hm j). by right.
Qed.

Lemma next_queue z : (to_u64 (z + 1) - 1) mod 2 = z mod 2 /\ (to_u64 (z + 1) + 1) mod 2 = z mod 2 /\ (z + 1) mod 2 = 1 - z mod 2.
Proof.
  unfold to_u. assert (((z + 1) mod 2 ^ 64) mod 2 = (z + 1) mod 2) as E by (apply Z.mod_mod_divide; by exists (2 ^ 63)).
  assert ((z + 1) mod 2 = 1 - z mod 2) as E1 by (rewrite Z.add_mod by lia; destruct (mod2 z) as [-> | ->]; done).
  revert E. generalize ((z + 1) mod 2 ^ 64). intros y E. split; [|split; [|done]]; pose proof (Z.div_mod y 2); pose proof (Z.div_mod z 2);
    pose proof (mod2 z); symmetry.
  - apply (Z.mod_unique_pos _ _ (if decide (y mod 2 = 0) then y / 2 - 1 else y / 2)); [lia|]. case_decide; lia.
  - apply (Z.mod_unique_pos _ _ (if decide (y mod 2 = 0) then y / 2 else y / 2 + 1)); [lia|]. case_decide; lia.
Qed.

Lemma combine_pending pt l t wt : pt_inv pt l t -> g_WorkerThreadInst pt = [wt] ->
  let merged := map_to_list (g_perThreadLog pt) ≫= (fun x => getQ ((to_u64 (curQ pt + 1) - 1) mod 2) x.2) in
  logged (g_perThreadLog pt) = merged /\
  (forall i o, (resetQ ((to_u64 (curQ pt + 1) - 1) mod 2) <$> g_perThreadLog pt) !! i = Some o -> op0 o = [] /\ op1 o = []).
Proof.
  intros Hi Ew merged. destruct (next_queue (curQ pt)) as (Eq & _ & Eq1). subst merged. rewrite Eq. pose proof (pi_idle _ _ _ Hi) as Hidle.
  rewrite Eq1 in Hidle. split; [by apply logged_one; [apply mod2|]|].
  intros i o Ho. rewrite lookup_fmap in Ho. destruct (g_perThreadLog pt !! i) as [o0|] eqn:E; [|done]. injection Ho as <-.
  specialize (Hidle i o0 E). destruct (mod2 (curQ pt)) as [E2|E2]; rewrite E2 in Hidle |- *; done.
Qed.

(** Every work queue has room for [n] vectors. *)
Definition queue_room (n : Z) (pt : pactree T) : Prop :=
  Forall (fun w => Z.of_nat (length (workQueue w)) + n <= WORK_QUEUE_CAPACITY) (g_WorkerThreadInst pt).

Lemma push_work_room n mergedLog w : Z.of_nat (length (workQueue w)) + (1 + n) <= WORK_QUEUE_CAPACITY -> 0 <= n ->
  push_work mergedLog w = MkWorker (workQueue w ++ [mergedLog]) (logDoneCount w) (opcount w) (freeQueue w) /\
  Z.of_nat (length (workQueue (push_work mergedLog w))) + n <= WORK_QUEUE_CAPACITY.
Proof.
  intros Hr Hn. unfold push_work. destruct (Z.ltb_spec (Z.of_nat (length (workQueue w))) WORK_QUEUE_CAPACITY); [|lia]. split; [done|]. cbn. rewrite length_app. cbn. lia.
Qed.

Lemma combine_broadcast_room n pt : queue_room (1 + n) pt -> 0 <= n -> queue_room n (combine_broadcast pt).
Proof.
  intros Hr Hn. assert (forall m, Forall (fun w => Z.of_nat (length (workQueue w)) + n <= WORK_QUEUE_CAPACITY) (push_work m <$> g_WorkerThreadInst pt)) as Hp.
  { intros m. apply Forall_fmap. eapply Forall_impl; [exact Hr|]. intros w Hw. by apply push_work_room. }
  unfold combine_broadcast, combineLogs. destruct (negb (bool_decide _)); [by apply Hp|]. eapply Forall_impl; [exact Hr|]. cbn. lia.
Qed.

(** What one step of the combiner does to the entries on their way. *)
Record combined (pt pt' : pactree T) : Prop := {
  cb_dl : dl pt' = dl pt;
  cb_threads : g_threadDataSet pt' = g_threadDataSet pt;
  cb_num : numThreads pt' = numThreads pt;
  cb_logs : logged (g_perThreadLog pt') = [];
  cb_mem : op_mem pt' = op_mem pt;
  cb_search : g_perNumaSlPtr pt' = g_perNumaSlPtr pt;
  cb_queue : forall wt, g_WorkerThreadInst pt = [wt] -> exists wt', g_WorkerThreadInst pt' = [wt'] /\
    concat (workQueue wt') ≡ₚ pending wt (g_perThreadLog pt) /\ freeQueue wt' = freeQueue wt;
}.

Lemma combine_broadcast_inv pt l t : pt_inv pt l t -> queue_room 1 pt -> pt_inv (combine_broadcast pt) l t /\ combined pt (combine_broadcast pt).
Proof.
  intros Hi Hroom. destruct (pi_worker _ _ _ Hi) as (wt & Ew & Hnd & Hok). destruct (combine_pending pt l t wt Hi Ew) as [El Hreset].
  unfold queue_room in Hroom. rewrite Ew, Forall_singleton in Hroom. unfold combine_broadcast, combineLogs.
  set (q := (to_u64 (curQ pt + 1) - 1) mod 2) in *. set (raw := map_to_list (g_perThreadLog pt) ≫= (fun x => getQ q x.2)) in *.
  set (logs := resetQ q <$> g_perThreadLog pt) in *. pose proof (logged_empty logs Hreset) as Ee.
  set (merged := std_sort (fun a => a) raw). assert (merged ≡ₚ raw) as Hp by apply std_sort_perm.
  set (pt1 := MkPactree _ _ _ _ _ _ _ _ _ _ _).
  set (pt2 := match (if negb (bool_decide (merged = [])) then Some merged else None) with Some m => broadcastMergedLog m pt1 | None => pt1 end).
  assert (exists wt', g_WorkerThreadInst pt2 = [wt'] /\ concat (workQueue wt') ≡ₚ concat (workQueue wt) ++ raw /\ freeQueue wt' = freeQueue wt) as (wt' & Ew' & Ec & Ef).
  { unfold pt2. case_bool_decide as Em; cbn [negb].
    - exists wt. split; [done|]. rewrite Em in Hp. apply Permutation_nil in Hp. by rewrite Hp, app_nil_r.
    - eexists. split; [unfold broadcastMergedLog; cbn; by rewrite Ew|]. destruct (push_work_room 0 merged wt Hroom) as [-> _]; [done|].
      cbn. rewrite concat_app. cbn. rewrite app_nil_r. by rewrite Hp. }
  assert (dl pt2 = dl pt /\ g_threadDataSet pt2 = g_threadDataSet pt /\ g_perThreadLog pt2 = logs /\ g_perNumaSlPtr pt2 = g_perNumaSlPtr pt /\
    op_mem pt2 = op_mem pt /\ curQ pt2 = to_u64 (curQ pt + 1) /\ numThreads pt2 = numThreads pt) as (Ed & Et & Elg & Es & Eo & Ecq & En)
    by (unfold pt2; destruct (negb (bool_decide (merged = []))); done).
  assert (pending wt' (g_perThreadLog pt2) ≡ₚ pending wt (g_perThreadLog pt)) as Hpen by (unfold pending; rewrite Elg, Ee, app_nil_r, Ec, El; done).
  split.
  - split; [rewrite Ed; apply Hi|rewrite Ed; apply Hi| | |].
    + destruct (pi_search _ _ _ Hi) as (sl & n & M & S1 & S2 & S3). exists sl, n, M. split; [congruence|]. split; [by rewrite Ed|].
      intros w Hw. rewrite Ew' in Hw. injection Hw as <-. rewrite Hpen. by apply S3.
    + exists wt'. split; [done|]. rewrite Hpen. by rewrite Eo.
    + rewrite Elg, Ecq. intros i o Ho. destruct (Hreset i o Ho) as [E0 E1]. unfold getQ. by destruct ((to_u64 (curQ pt + 1) + 1) mod 2 =? 0).
  - split; [done|done|done|by rewrite Elg|done|done|]. intros wt0 E0. rewrite Ew in E0. injection E0 as <-. exists wt'. split; [done|]. unfold pending. by rewrite El.
Qed.

(** Freeing merged logs touches only the queue of the combiner. *)
Lemma freeMergedLogs_same force (pt : pactree T) : exists q, (freeMergedLogs force pt).2 = MkPactree (dl pt) (g_perNumaSlPtr pt) (op_mem pt) (g_perThreadLog pt) (curQ pt) (g_WorkerThreadInst pt)
  q (doneCountCombiner pt) (combinerSplits pt) (g_threadDataSet pt) (numThreads pt).
Proof. unfold freeMergedLogs. destruct (negb force && _); [exists (logQueue pt); by destruct pt|by eexists]. Qed.

Lemma freeMergedLogs_inv force pt l t : pt_inv pt l t -> pt_inv (freeMergedLogs force pt).2 l t.
Proof. intros []. destruct (freeMergedLogs_same force pt) as [q ->]. by split. Qed.

Lemma combiner_round_room n pt : queue_room (1 + n) pt -> 0 <= n -> queue_room n (combiner_round pt).
Proof. intros Hr Hn. unfold combiner_round. destruct (freeMergedLogs_same false (combine_broadcast pt)) as [q ->]. by apply combine_broadcast_room. Qed.

Lemma combiner_round_inv pt l t : pt_inv pt l t -> queue_room 1 pt -> pt_inv (combiner_round pt) l t /\ combined pt (combiner_round pt).
Proof.
  intros Hi Hroom. destruct (combine_broadcast_inv pt l t Hi Hroom) as [Hi1 [A B C D E F G]]. split; [by apply freeMergedLogs_inv|].
  unfold combiner_round. destruct (freeMergedLogs_same false (combine_broadcast pt)) as [q ->]. by split.
Qed.

(** The combiner does not touch the search layer. *)
Lemma combined_search r pt pt' l sl n M wt : g_WorkerThreadInst pt = [wt] -> combined pt pt' -> search_state r pt l sl n M -> search_state r pt' l sl n M.
Proof.
  intros Ew [A _ _ B _ C D] (S1 & S2 & S3). destruct (D wt Ew) as (wt' & Ew' & Hp & _). split; [congruence|]. split; [by rewrite A|].
  intros w Hw. rewrite Ew' in Hw. injection Hw as <-. specialize (S3 wt Ew). unfold pending in *. rewrite B, app_nil_r, Hp. done.
Qed.

(** * The worker *)

(** A node goes into the search layer under its anchor key. *)
Lemma searches_insert d l t n sl M p k : dl_inv d l t -> searches d l n sl M -> (p, k) ∈ anchors l -> 0 < p < 2 ^ 63 -> (n < art_cap)%nat ->
  exists sl', sl_insert (loadKey d) sl k p = Ok sl' /\ searches d l (S n) sl' (<[k := p]> M) /\ M ⊆ <[k := p]> M.
Proof.
  intros Hi [Hs HM] Hin Hp Hc. destruct (sl_insert_holds _ _ _ _ k p Hs Hc (anchor_range _ _ _ _ _ Hi Hin) Hp (loadKey_anchor _ _ _ _ _ Hi Hin)) as (sl' & E & Hs').
  exists sl'. split; [done|]. split.
  - split; [done|]. intros k' p' [[<- <-]|[_ Hk']]%lookup_insert_Some; [done|by apply HM].
  - apply map_subseteq_spec. intros k' p' Hk'. destruct (decide (k = k')) as [<-|Hne]; [|by rewrite lookup_insert_ne].
    rewrite lookup_insert_eq. f_equal. exact (anchors_inj _ _ _ _ _ _ (di_tiled _ _ _ Hi) Hin (HM _ _ Hk')).
Qed.

(** What has become of an entry: marked, and its node in the search layer. *)
Definition entry_done (m : gmap Z OpStruct) (M : gmap Z Z) (a : Z) (o : OpStruct) : Prop :=
  (exists o', m !! a = Some o' /\ os_op o' = OpDone) /\ M !! os_key o = Some (os_newNodeOid o).

Lemma entry_done_mono m m' M M' a o : m' !! a = m !! a -> M ⊆ M' -> entry_done m M a o -> entry_done m' M' a o.
Proof. intros Em HM [Hd Hk]. split; [by rewrite Em|]. by eapply lookup_weaken. Qed.

Lemma apply_ops_spec d l t hash w done : dl_inv d l t -> forall ops sl n M m cnt fq ret,
  NoDup ops -> Forall (entry_ok m l) ops -> searches d l n sl M -> (n + length ops <= art_cap)%nat ->
  exists sl' n' M' m' cnt', apply_ops (loadKey d) hash w done ops sl m cnt fq ret = Ok (sl', m', cnt', fq, ret) /\
    searches d l n' sl' M' /\ (n' <= n + length ops)%nat /\ M ⊆ M' /\ (forall a, a ∉ ops -> m' !! a = m !! a) /\
    (forall a o, a ∈ ops -> m !! a = Some o -> os_hash o = hash -> entry_done m' M' a o).
Proof.
  intros Hi. induction ops as [|a ops IH]; intros sl n M m cnt fq ret Hnd Hok Hsl Hc.
  { exists sl, n, M, m, cnt. split_and!; try done; [lia|]. intros a o Ha. by apply elem_of_nil in Ha. }
  apply NoDup_cons in Hnd as [Ha Hnd]. apply Forall_cons in Hok as [(o & Hm & (Ho & Hh & Hp) & Hn) Hok]. cbn [apply_ops length] in *. rewrite Hm.
  cbn [of_option mbind res_bind]. destruct (Z.eqb_spec (os_hash o) hash) as [Eh|Eh]; cbn [negb].
  - rewrite Ho. match goal with |- context [<[a := ?x]> m] => set (o1 := x) end.
    destruct (searches_insert d l t n sl M (os_newNodeOid o) (os_key o) Hi Hsl Hn Hp) as (sl1 & -> & Hs1 & HM1); [lia|]. cbn [mbind res_bind].
    destruct (IH sl1 (S n) (<[os_key o := os_newNodeOid o]> M) (<[a := o1]> m) (cnt + 1) fq ret Hnd) as (sl' & n' & M' & m' & cnt' & E & Hs & Hn' & HM & Hr & Hd); [|done|lia|].
    + rewrite Forall_forall in Hok |- *. intros b Hb. destruct (Hok b Hb) as (o' & Hb' & ?). exists o'. split; [|done].
      rewrite lookup_insert_ne; [done|]. by intros ->.
    + exists sl', n', M', m', cnt'. split_and!; [done|done|lia|by etrans| |].
      * intros b [Hb Hb']%not_elem_of_cons. rewrite Hr by done. by rewrite lookup_insert_ne.
      * intros b o' [->|Hb]%elem_of_cons Hm' Hh'.
        -- rewrite Hm in Hm'. injection Hm' as <-. split; [rewrite Hr by done; exists o1; split; [apply lookup_insert_eq|done]|].
           eapply lookup_weaken; [|exact HM]. apply lookup_insert_eq.
        -- apply (Hd b o' Hb); [|done]. rewrite lookup_insert_ne; [done|]. by intros ->.
  - destruct (IH sl n M m cnt fq ret Hnd Hok Hsl ltac:(lia)) as (sl' & n' & M' & m' & cnt' & E & Hs & Hn' & HM & Hr & Hd).
    exists sl', n', M', m', cnt'. split_and!; [done|done|lia|done| |].
    + intros b [Hb Hb']%not_elem_of_cons. by apply Hr.
    + intros b o' [->|Hb]%elem_of_cons Hm' Hh'; [congruence|by eapply Hd].
Qed.

(** What rounds of the worker on the entries [ops] do. *)
Record worked (ops : list Z) (l : node_list) (M : gmap Z Z) (pt pt' : pactree T) (M' : gmap Z Z) : Prop := {
  wk_dl : dl pt' = dl pt;
  wk_threads : g_threadDataSet pt' = g_threadDataSet pt;
  wk_num : numThreads pt' = numThreads pt;
  wk_logs : g_perThreadLog pt' = g_perThreadLog pt;
  wk_search : exists sl n, search_state 0 pt' l sl n M';
  wk_more : M ⊆ M';
  wk_done : forall a o, a ∈ ops -> op_mem pt !! a = Some o -> os_hash o = 0 -> entry_done (op_mem pt') M' a o;
  wk_other : forall a, a ∉ ops -> op_mem pt' !! a = op_mem pt !! a;
}.

Lemma applyOperation_inv pt l t wt oplog queue sl n M : pt_inv pt l t -> search_state 0 pt l sl n M -> (length l <= art_cap)%nat ->
  g_WorkerThreadInst pt = [wt] -> workQueue wt = oplog :: queue ->
  exists pt' wt' M', applyOperation 0 pt = Ok (false, pt') /\ pt_inv pt' l t /\ g_WorkerThreadInst pt' = [wt'] /\ workQueue wt' = queue /\
    worked oplog l M pt pt' M' /\ freeQueue wt' = freeQueue wt.
Proof.
  intros Hi (Es & Hs & Hsn) Hcap Ew Eq. destruct (pi_worker _ _ _ Hi) as (wt0 & Ew0 & Hnd & Hok). rewrite Ew in Ew0. injection Ew0 as <-.
  unfold applyOperation, totalNumaActive. rewrite Ew, Es.
  change (of_option OutOfRange ([wt] !! 0%nat)) with (Ok wt). cbn [mbind res_bind length]. rewrite Eq.
  change (of_option OutOfRange ([sl] !! (0 mod 1)%nat)) with (Ok sl). cbn [mbind res_bind].
  specialize (Hsn wt Ew). unfold pending in Hnd, Hok, Hsn. rewrite Eq in Hnd, Hok, Hsn. cbn [concat] in Hnd, Hok, Hsn. rewrite <- app_assoc in Hnd, Hok, Hsn.
  rewrite length_app in Hsn.
  apply NoDup_app in Hnd as (Hn1 & Hn2 & Hn3). apply Forall_app in Hok as [Ho1 Ho2].
  destruct (apply_ops_spec (dl pt) l t (to_u8 (Z.of_nat (0 / 1))) 0 (logDoneCount wt) (pi_list _ _ _ Hi) oplog sl n M (op_mem pt) (opcount wt) (freeQueue wt) false Hn1 Ho1 Hs)
    as (sl' & n' & M' & m' & cnt' & -> & Hs' & Hn' & HM & Hr & Hd); [lia|]. cbn [mbind res_bind].
  set (pt' := set_worker _ _ _ _ _). assert (search_state 0 pt' l sl' n' M') as Hst.
  { split; [done|]. split; [done|]. unfold pt', set_worker. cbn. rewrite Ew. cbn. intros w [= <-]. unfold pending. cbn. lia. }
  eexists pt', _, M'. split; [done|]. split; [|split; [unfold pt', set_worker; cbn; by rewrite Ew|split_and!; try done]].
  - split; [apply Hi|apply Hi|by exists sl', n', M'| |apply Hi].
    eexists. split; [unfold pt', set_worker; cbn; by rewrite Ew|]. unfold pending. cbn [workQueue g_perThreadLog set_worker]. split; [done|].
    cbn. rewrite Forall_forall in Ho2 |- *. intros a Ha. destruct (Ho2 a Ha) as (o & Hm & ?). exists o. split; [|done].
    rewrite Hr; [done|]. intros Hin. by apply (Hn2 a Hin).
  - split; try done. by exists sl', n'.
Qed.

Lemma worker_rounds_inv : forall k pt l t wt sl n M, pt_inv pt l t -> search_state 0 pt l sl n M -> (length l <= art_cap)%nat ->
  g_WorkerThreadInst pt = [wt] -> length (workQueue wt) = k ->
  exists pt' wt' M', worker_rounds k 0 pt = Ok pt' /\ pt_inv pt' l t /\ g_WorkerThreadInst pt' = [wt'] /\ workQueue wt' = [] /\
    worked (concat (workQueue wt)) l M pt pt' M'.
Proof.
  induction k as [|k IH]; intros pt l t wt sl n M Hi Hst Hcap Ew En.
  - apply nil_length_inv in En. exists pt, wt, M. split_and!; try done. rewrite En. split; try done; [by exists sl, n|]. intros a o Ha. by apply elem_of_nil in Ha.
  - destruct (workQueue wt) as [|oplog queue] eqn:Eq; [done|]. injection En as En. cbn [worker_rounds].
    destruct (pi_worker _ _ _ Hi) as (wt0 & Ew0 & Hnd & _). rewrite Ew in Ew0. injection Ew0 as <-.
    unfold pending in Hnd. rewrite Eq in Hnd. cbn [concat] in Hnd. rewrite <- app_assoc in Hnd. apply NoDup_app in Hnd as (_ & Hn2 & _).
    destruct (applyOperation_inv pt l t wt oplog queue sl n M Hi Hst Hcap Ew Eq) as (pt1 & wt1 & M1 & -> & Hi1 & Ew1 & Eq1 & [E1 E2 E3 E4 (sl1 & n1 & Hst1) HM1 Hd1 Hk1] & _).
    cbn [mbind res_bind]. destruct (IH pt1 l t wt1 sl1 n1 M1 Hi1 Hst1 Hcap Ew1) as (pt' & wt' & M' & E & Hi' & Ew' & Eq' & [F1 F2 F3 F4 F5 HM2 Hd Hk]); [by rewrite Eq1|].
    rewrite Eq1 in Hd, Hk. exists pt', wt', M'. split_and!; try done. split; try congruence; try done.
    + by etrans.
    + intros a o [Ha|Ha]%elem_of_app Hm Hh.
      * eapply entry_done_mono; [apply Hk| |by apply Hd1]; [|done]. intros Hin. apply (Hn2 a Ha). apply elem_of_app. by left.
      * eapply Hd; [done| |done]. rewrite Hk1; [done|]. intros Hin. apply (Hn2 a Hin). apply elem_of_app. by left.
    + intros a [Ha1 Ha2]%not_elem_of_app. rewrite Hk, Hk1 by done. done.
Qed.

Lemma worker_round_inv pt l t : pt_inv pt l t -> (length l <= art_cap)%nat -> exists pt', worker_round 0 pt = Ok pt' /\ pt_inv pt' l t /\ dl pt' = dl pt /\
  g_threadDataSet pt' = g_threadDataSet pt /\ numThreads pt' = numThreads pt.
Proof.
  intros Hi Hcap. destruct (pi_worker _ _ _ Hi) as (wt & Ew & _). destruct (pi_search _ _ _ Hi) as (sl & n & M & Hst). unfold worker_round. rewrite Ew.
  change (of_option OutOfRange ([wt] !! 0%nat)) with (Ok wt). cbn [mbind res_bind].
  destruct (worker_rounds_inv _ pt l t wt sl n M Hi Hst Hcap Ew eq_refl) as (pt' & wt' & M' & E & Hi' & _ & _ & [E1 E2 E3 _ _ _ _ _]). by exists pt'.
Qed.

(** What the search layer answers. *)
Definition found_by (pt : pactree T) (k p : Z) : Prop :=
  exists sl, g_perNumaSlPtr pt = [sl] /\ art_lookupNext (loadKey (dl pt)) (sl_idx sl) k = Ok p.

Lemma search_found r pt l t sl n M k p : dl_inv (dl pt) l t -> search_state r pt l sl n M -> M !! k = Some p -> found_by pt k p.
Proof.
  intros Hi (Es & [[Ht _ _] HM] & _) Hk. exists sl. split; [done|].
  destruct (art_next_holds _ _ _ _ k Ht) as (q & E & Hq); [intros ->; by rewrite lookup_empty in Hk|exact (anchor_range _ _ _ _ _ Hi (HM _ _ Hk))|].
  by rewrite E, (nearest_present _ _ _ _ Hk Hq).
Qed.

(** * Construction *)

Lemma create_spec min n : (2 <= pm_heap)%nat -> (0 < art_cap)%nat -> exists pt, create 1 min n = Ok pt /\ pt_state 3 2 pt {[0 := 0]} /\
  g_threadDataSet pt = ∅ /\ numThreads pt = n.
Proof.
  intros Hh Hc. destruct initialize_spec as (d & l & t & E & Hi & Hl & Hne & Hm & Hlog & Hsz); [done|].
  destruct (new_search_holds (loadKey d) min Hc) as (sl & Esl & Hs). unfold create. rewrite E.
  cbn [mbind res_bind create_searches]. rewrite Esl. cbn [mbind res_bind]. eexists. split; [done|]. split; [|done]. exists l, t. split_and!; [|done|done|cbn; lia|done]. split; cbn.
  - done.
  - done.
  - exists sl, 0%nat, ∅. split; [done|]. split; [split; [done|intros k p Hk; by rewrite lookup_empty in Hk]|]. intros wt [= <-].
    apply Nat.le_0_l.
  - eexists. split; [done|]. split; [constructor|done].
  - intros i o Ho. by rewrite lookup_empty in Ho.
Qed.

(** Every split that was logged reaches the search layer with the next rounds
    of the combiner and of the worker, given the hash the worker looks for. *)
Lemma rounds_drain pt l t wt : pt_inv pt l t -> g_WorkerThreadInst pt = [wt] -> queue_room 1 pt -> (length l <= art_cap)%nat ->
  exists pt' wt', worker_round 0 (combiner_round pt) = Ok pt' /\ pt_inv pt' l t /\ g_WorkerThreadInst pt' = [wt'] /\
    pending wt' (g_perThreadLog pt') = [] /\
    forall a o, a ∈ pending wt (g_perThreadLog pt) -> op_mem pt !! a = Some o -> os_hash o = 0 ->
      (exists o', op_mem pt' !! a = Some o' /\ os_op o' = OpDone) /\ found_by pt' (os_key o) (os_newNodeOid o).
Proof.
  intros Hi Ew Hroom Hcap. destruct (pi_search _ _ _ Hi) as (sl & n & M & Hst).
  destruct (combiner_round_inv pt l t Hi Hroom) as (Hi1 & Hc). pose proof (combined_search _ _ _ _ _ _ _ _ Ew Hc Hst) as Hst1.
  destruct Hc as [_ _ _ El Em _ Hw]. destruct (Hw wt Ew) as (wt1 & Ew1 & Hp & _).
  unfold worker_round. rewrite Ew1. change (of_option OutOfRange ([wt1] !! 0%nat)) with (Ok wt1). cbn [mbind res_bind].
  destruct (worker_rounds_inv _ _ l t wt1 sl n M Hi1 Hst1 Hcap Ew1 eq_refl) as (pt' & wt' & M' & E & Hi' & Ew' & Eq' & [_ _ _ Elg (sl' & n' & Hst') _ Hd _]).
  exists pt', wt'. split; [done|]. split; [done|]. split; [done|]. split; [unfold pending; by rewrite Eq', Elg, El|].
  intros a o Ha Hm Hh. destruct (Hd a o) as [Hdone Hk]; [by rewrite Hp|by rewrite Em|done|]. split; [done|]. exact (search_found _ _ _ _ _ _ _ _ _ (pi_list _ _ _ Hi') Hst' Hk).
Qed.

(** The entries on their way are splits of the list, with the hash that a new
    entry finds in its memory. *)
Lemma pending_entry pt l t wt a : pt_inv pt l t -> g_WorkerThreadInst pt = [wt] -> a ∈ pending wt (g_perThreadLog pt) ->
  exists o, op_mem pt !! a = Some o /\ log_entry o /\ logged_anchor o ∈ anchors l.
Proof.
  intros Hi Ew Ha. destruct (pi_worker _ _ _ Hi) as (wt0 & Ew0 & _ & Hok). rewrite Ew in Ew0. injection Ew0 as <-. rewrite Forall_forall in Hok. by apply Hok.
Qed.

(** C28. Every split is brought to the search layer: when the work queue has room for another vector, the memory of the
    search tree for the nodes of the list, and log entries are allocated zeroed (the worker looks for hash 0, which nothing
    sets), the next round of the combiner and the next round of the worker do not fail and leave no logged entry anywhere;
    each entry that was on its way is an insertion of a node of the list under its anchor key, is marked done, and the tree
    of the search layer now finds that node under that key. *)
Theorem splits_reach_search pt l t wt : pt_inv pt l t -> g_WorkerThreadInst pt = [wt] -> queue_room 1 pt -> (length l <= art_cap)%nat -> pm_hash = 0 ->
  exists pt' wt', worker_round 0 (combiner_round pt) = Ok pt' /\ pt_inv pt' l t /\ g_WorkerThreadInst pt' = [wt'] /\
    pending wt' (g_perThreadLog pt') = [] /\
    forall a, a ∈ pending wt (g_perThreadLog pt) -> exists o, op_mem pt !! a = Some o /\ log_entry o /\ logged_anchor o ∈ anchors l /\
      (exists o', op_mem pt' !! a = Some o' /\ os_op o' = OpDone) /\ found_by pt' (os_key o) (os_newNodeOid o).
Proof.
  intros Hi Ew Hroom Hcap Hh. destruct (rounds_drain pt l t wt Hi Ew Hroom Hcap) as (pt' & wt' & E & Hi' & Ew' & Ep & Hd). exists pt', wt'. split_and!; try done.
  intros a Ha. destruct (pending_entry _ _ _ _ _ Hi Ew Ha) as (o & Hm & Ho & Hn). exists o. split; [done|]. split; [done|]. split; [done|].
  apply (Hd a o Ha Hm). destruct Ho as (_ & -> & _). done.
Qed.

(** C34. [pactreeImpl::remove] deletes the key from the map and keeps the list; as long as no node is
    merged away, every node the search layer or the logs name is still a node of the list. *)
Theorem pt_remove_correct pt l t c key : pt_inv pt l t -> locks_fresh l -> registered pt c -> 0 < key < ULLONG_MAX ->
  exists pt' l' t', pt_remove pt c key = Ok (Some (bool_decide (is_Some (dl_map l !! key)), pt')) /\
    dl_inv (dl pt') l' t' /\ dl_map l' = delete key (dl_map l) /\ l'.*1 ⊆ l.*1 /\ (l.*1 ⊆ l'.*1 -> pt_inv pt' l' t').
Proof. apply pt_remove_spec. Qed.

End facts.
