(* ===== verification/PacQueues.v ===== *)
(** The queues between the combiner and the workers of PACTree
    ([src/PRISM/lib/pactree/src/Combiner.h], [WorkerThread.cpp]).

    The merged vectors are shared: the combiner keeps each in its queue with a
    count and deletes it once every worker is past that count. *)

From S2P Require Import Prelude NodeBits VersionedLock ListNode ListNodeFacts ListNodeScan LinkedList.
From S2P Require Import LinkedListInv LinkedListOps LinkedListInsert SearchLayer Pactree PactreeFacts.

Local Open Scope Z_scope.

(** * The vectors in the queues *)

Section queues.
Context `{StdSort} `{PMem} `{OpMem} {T : Type} `{ArtTree T}.

(** The combiner's queue counts without gaps up to its counter, and what a
    worker has still to do is the end of that queue: no vector that a worker
    will read has been deleted.  [n]: how many more vectors the counter can
    number. *)
Record queues_ok (n : Z) (pt : pactree T) : Prop := {
  qo_counts : (logQueue pt).*1 = seqZ (doneCountCombiner pt - Z.of_nat (length (logQueue pt))) (Z.of_nat (length (logQueue pt)));
  qo_bound : doneCountCombiner pt + n < 2 ^ 64;
  qo_workers : forall i w, g_WorkerThreadInst pt !! i = Some w ->
    0 <= logDoneCount w /\ logDoneCount w + Z.of_nat (length (workQueue w)) = doneCountCombiner pt /\ workQueue w `suffix_of` (logQueue pt).*2;
}.

Lemma queues_mono n n' pt : queues_ok n pt -> n' <= n -> queues_ok n' pt.
Proof. intros [A B C] Hn. split; [done|lia|done]. Qed.

Lemma combine_broadcast_queues n pt : 0 <= n -> queues_ok (1 + n) pt -> queue_room 1 pt -> 0 <= doneCountCombiner pt -> queues_ok n (combine_broadcast pt) /\ 0 <= doneCountCombiner (combine_broadcast pt).
Proof.
  intros Hn [A B C] Hroom Hpos. unfold combine_broadcast, combineLogs. match goal with |- context [std_sort ?f ?x] => set (m := std_sort f x) end.
  destruct (negb (bool_decide (m = []))); [|split; [split; cbn; [done|lia|done]|done]]. unfold broadcastMergedLog. cbn.
  rewrite (to_u_id 64 (doneCountCombiner pt + 1)) by lia. split; [|lia]. split; cbn; [|lia|].
  - rewrite fmap_app, A, length_app. cbn. set (k := length (logQueue pt)). rewrite Nat2Z.inj_add, seqZ_app by lia.
    replace (doneCountCombiner pt + 1 - (Z.of_nat k + Z.of_nat 1)) with (doneCountCombiner pt - Z.of_nat k) by lia. f_equal.
    rewrite (seqZ_cons _ (Z.of_nat 1)) by lia. rewrite seqZ_nil by lia. f_equal. lia.
  - intros i w (w0 & -> & Hw0)%list_lookup_fmap_Some. destruct (C i w0 Hw0) as (C1 & C2 & C3). pose proof (list_elem_of_lookup_2 _ _ _ Hw0) as Hin.
    unfold queue_room in Hroom. rewrite Forall_forall in Hroom. destruct (push_work_room 0 m w0) as [-> _]; [by apply Hroom|done|]. cbn. rewrite length_app. cbn.
    split_and!; [done|lia|]. destruct C3 as [pre C3]. exists pre. rewrite fmap_app, C3. cbn. by rewrite app_assoc.
Qed.

(** Only the counts below the bound are dropped. *)
Lemma free_front_spec min : forall q a, q.*1 = seqZ a (Z.of_nat (length q)) ->
  exists pre, q = pre ++ free_front min q /\ (free_front min q).*1 = seqZ (a + Z.of_nat (length pre)) (Z.of_nat (length (free_front min q))) /\
    (length pre = 0%nat \/ a + Z.of_nat (length pre) <= min) /\ (free_front min q = [] \/ min <= a + Z.of_nat (length pre)).
Proof.
  induction q as [|x q IH]; intros a Hq; [exists []; split_and!; auto|]. cbn [length] in Hq. rewrite seqZ_cons in Hq by lia. cbn in Hq. injection Hq as Hx Hq.
  replace (Z.pred (Z.of_nat (S (length q)))) with (Z.of_nat (length q)) in Hq by lia. cbn [free_front]. destruct (Z.ltb_spec x.1 min) as [Hlt|Hge].
  - destruct (IH _ Hq) as (pre & E & Ec & Hp & Hm). exists (x :: pre). cbn [length app]. split_and!; [by f_equal|rewrite Ec; f_equal; lia| |destruct Hm; [by left|right; lia]].
    right. destruct Hp; lia.
  - exists []. split_and!; [done| |by left|right; cbn; lia]. cbn. rewrite Z.add_0_r, (seqZ_cons _ (Z.of_nat _)) by lia. cbn. f_equal; [done|]. rewrite Hq. f_equal; lia.
Qed.

Lemma suffix_of_length {A} (pre l k : list A) : l `suffix_of` pre ++ k -> (length l <= length k)%nat -> l `suffix_of` k.
Proof.
  intros [u E] Hl. exists (drop (length pre) u). assert (length u + length l = length pre + length k)%nat as Hlen by (by rewrite <- !length_app, E).
  rewrite <- (drop_app_length pre k), E, drop_app_le by lia. done.
Qed.

Lemma foldl_min_le l : forall a x, x ∈ a :: l -> foldl Z.min a l <= x.
Proof.
  induction l as [|y l IH]; cbn; intros a x Hx; [by apply list_elem_of_singleton in Hx as ->|]. assert (foldl Z.min (Z.min a y) l <= Z.min a y) as Hm by (apply IH; by left).
  apply elem_of_cons in Hx as [->|[->|Hx]%elem_of_cons]; [lia|lia|]. apply IH. by right.
Qed.

(** [freeMergedLogs] deletes no vector that a worker still has to read. *)
Lemma freeMergedLogs_queues n force pt : queues_ok n pt -> queues_ok n (freeMergedLogs force pt).2.
Proof.
  intros HQ. unfold freeMergedLogs. destruct (negb force && _); [done|]. destruct HQ as [A B C]. cbn. set (min := foldl Z.min _ _).
  destruct (free_front_spec min _ _ A) as (pre & E & Ec & Hp & _). set (q := free_front min (logQueue pt)) in *. pose proof (f_equal length E) as El. rewrite length_app in El. split; cbn.
  - rewrite Ec. f_equal. lia.
  - done.
  - intros i w Hw. destruct (C i w Hw) as (C1 & C2 & C3). split_and!; [done|done|]. rewrite E, fmap_app in C3. eapply suffix_of_length; [exact C3|]. rewrite length_fmap.
    assert (min <= logDoneCount w) as Hmin.
    { apply foldl_min_le. right. apply list_elem_of_fmap. exists w. split; [done|by eapply list_elem_of_lookup_2]. }
    destruct Hp as [Hp|Hp]; [|lia]. apply nil_length_inv in Hp. subst pre. apply suffix_length in C3. rewrite length_app, !length_fmap in C3. cbn in C3. lia.
Qed.

Lemma applyOperation_queues n w pt r pt' : queues_ok n pt -> 0 <= n -> applyOperation w pt = Ok (r, pt') -> queues_ok n pt' /\ doneCountCombiner pt' = doneCountCombiner pt /\ logQueue pt' = logQueue pt.
Proof.
  intros [A B C] Hn. unfold applyOperation. destruct (g_WorkerThreadInst pt !! w) as [wt|] eqn:Hw; [|done]. cbn. destruct (workQueue wt) as [|oplog queue] eqn:Hq; [done|].
  destruct (g_perNumaSlPtr pt !! _) as [sl|]; [|done]. cbn. match goal with |- context [apply_ops ?a ?b ?c ?d ?e ?f ?g ?h ?i ?j] => destruct (apply_ops a b c d e f g h i j) as [[[[[sl' m'] cnt] fq] ret]|]; [|done] end.
  cbn. intros [= <- <-]. split; [|done]. destruct (C w wt Hw) as (C1 & C2 & C3). rewrite Hq in C2, C3. cbn in C2. split; cbn; [done|done|].
  intros i wt' Hi. destruct (decide (i = w)) as [->|Hne].
  - rewrite list_lookup_insert_eq in Hi by (by eapply lookup_lt_Some). injection Hi as <-. cbn. rewrite to_u_id by lia. split_and!; [lia|lia|]. eapply suffix_cons_l. exact C3.
  - rewrite list_lookup_insert_ne in Hi by done. by apply (C i).
Qed.
End queues.

(** * All of it *)

Section background.
Context `{StdSort} `{PO : PMemOk} `{OO : OpMemOk} {T : Type} `{ArtTreeOk T}.

(** With room for [n] more vectors, and no node waiting to be freed. *)
Record bg_ok (n : Z) (pt : pactree T) : Prop := {
  bg_room : queue_room n pt;
  bg_queues : queues_ok n pt;
  bg_pos : 0 <= doneCountCombiner pt;
  bg_free : Forall (fun w => freeQueue w = []) (g_WorkerThreadInst pt);
}.

Lemma bg_same n pt pt' : g_WorkerThreadInst pt' = g_WorkerThreadInst pt -> logQueue pt' = logQueue pt -> doneCountCombiner pt' = doneCountCombiner pt ->
  bg_ok n pt -> bg_ok n pt'.
Proof. intros E1 E2 E3 [A [B1 B2 B3] C D]. split; [unfold queue_room; by rewrite E1|split; rewrite ?E1, ?E2, ?E3; done|by rewrite E3|by rewrite E1]. Qed.

Lemma bg_mono n n' pt : n' <= n -> bg_ok n pt -> bg_ok n' pt.
Proof. intros Hn [A B C D]. split; [|by eapply queues_mono|done|done]. eapply Forall_impl; [exact A|]. cbn. lia. Qed.

Lemma bg_combine n pt : 0 <= n -> bg_ok (1 + n) pt -> bg_ok n (combine_broadcast pt).
Proof.
  intros Hn [A B C D]. assert (queue_room 1 pt) as A1 by (eapply Forall_impl; [exact A|]; cbn; lia). destruct (combine_broadcast_queues n pt Hn B A1 C).
  split; [by apply combine_broadcast_room|done|done|]. unfold combine_broadcast, combineLogs. destruct (negb (bool_decide _)); [|done]. cbn. apply Forall_fmap.
  eapply Forall_impl; [exact D|]. intros w Hw. cbn. unfold push_work. by destruct (_ <? _).
Qed.

Lemma bg_free_logs n force pt : bg_ok n pt -> bg_ok n (freeMergedLogs force pt).2.
Proof.
  intros [A B C D]. pose proof (freeMergedLogs_queues n force pt B) as B'. destruct (freeMergedLogs_same force pt) as [q Eq]. rewrite Eq in B' |- *. by split.
Qed.

Lemma bg_round n pt : 0 <= n -> bg_ok (1 + n) pt -> bg_ok n (combiner_round pt).
Proof. intros. by apply bg_free_logs, bg_combine. Qed.

Lemma bg_apply n pt l t wt oplog queue pt' r : 0 <= n -> pt_inv pt l t -> (length l <= art_cap)%nat -> g_WorkerThreadInst pt = [wt] -> workQueue wt = oplog :: queue -> applyOperation 0 pt = Ok (r, pt') -> bg_ok n pt -> bg_ok n pt'.
Proof.
  intros Hn Hi Hcap Ew Eq Ea [A B C D]. destruct (applyOperation_queues n 0 pt r pt' B Hn Ea) as (B' & Ed & _). destruct (pi_search _ _ _ Hi) as (sl & k & M & Hst).
  destruct (applyOperation_inv pt l t wt oplog queue sl k M Hi Hst Hcap Ew Eq) as (pt1 & wt1 & _ & Ea1 & _ & Ew1 & Eq1 & _ & Ef). rewrite Ea in Ea1. injection Ea1 as -> <-.
  unfold queue_room in A. rewrite Ew, Forall_singleton in A, D. rewrite Eq in A. cbn in A. split; [|done|lia|by rewrite Ew1, Forall_singleton, Ef].
  unfold queue_room. rewrite Ew1, Forall_singleton, Eq1. lia.
Qed.

Lemma bg_rounds n : forall k pt l t wt pt', 0 <= n -> pt_inv pt l t -> (length l <= art_cap)%nat -> g_WorkerThreadInst pt = [wt] -> length (workQueue wt) = k -> worker_rounds k 0 pt = Ok pt' -> bg_ok n pt -> bg_ok n pt'.
Proof.
  induction k as [|k IH]; intros pt l t wt pt' Hn Hi Hcap Ew El; cbn [worker_rounds]; [by intros [= <-]|]. destruct (workQueue wt) as [|oplog queue] eqn:Eq; [done|]. injection El as El.
  destruct (pi_search _ _ _ Hi) as (sl & j & M & Hst).
  destruct (applyOperation_inv pt l t wt oplog queue sl j M Hi Hst Hcap Ew Eq) as (pt1 & wt1 & _ & Ea & Hi1 & Ew1 & Eq1 & _). rewrite Ea. cbn [mbind res_bind]. intros Hr Hb.
  eapply (IH pt1); [done|exact Hi1|done|exact Ew1|by rewrite Eq1|done|]. by eapply (bg_apply n pt).
Qed.

Lemma bg_worker_round n pt l t pt' : 0 <= n -> pt_inv pt l t -> (length l <= art_cap)%nat -> worker_round 0 pt = Ok pt' -> bg_ok n pt -> bg_ok n pt'.
Proof.
  intros Hn Hi Hcap. destruct (pi_worker _ _ _ Hi) as (wt & Ew & _). unfold worker_round. rewrite Ew. cbn. intros Hr. by eapply bg_rounds.
Qed.

Lemma create_bg min k pt n : create 1 min k = Ok pt -> n <= WORK_QUEUE_CAPACITY -> bg_ok n pt.
Proof.
  unfold create. destruct initialize as [d|]; [|done]. cbn. destruct (new_search min) as [sl|]; [|done]. cbn. intros [= <-] Hn. split; cbn; [by apply Forall_singleton| |done|by apply Forall_singleton].
  split; cbn; [done|unfold WORK_QUEUE_CAPACITY in Hn; lia|]. intros [|i] w Hw; [|done]. injection Hw as <-. cbn. split_and!; [done|done|]. by exists [].
Qed.
End background.
