(* ===== verification/PactreeTrace.v ===== *)
(** Traces of PACTree: operations of any threads interleaved with rounds of
    the combiner and of the worker give the results of a map. *)

From S2P Require Import Prelude NodeBits VersionedLock ListNode ListNodeFacts ListNodeScan LinkedList.
From S2P Require Import LinkedListInv LinkedListOps LinkedListInsert LinkedListRemove LinkedListScan SearchLayer Pactree PactreeFacts PacQueues.

Local Open Scope Z_scope.

Inductive pt_event :=
  | EvRegister
  | EvInsert (c : caller) (key val : Z)
  | EvUpdate (c : caller) (key val : Z)
  | EvLookup (c : caller) (key : Z)
  | EvScan (c : caller) (startKey : Z) (range : nat)
  | EvCombine
  | EvWork.

Inductive pt_out := OutNone | OutThread (t : nat) | OutBool (b : bool) | OutVal (v : Z) | OutVals (vs : list Z).

(** * The reference: a map and the number of threads *)

Definition spec_step (ev : pt_event) (st : gmap Z Z * nat) : pt_out * (gmap Z Z * nat) :=
  let '(m, n) := st in
  match ev with
  | EvRegister => (OutThread n, (m, S n))
  | EvInsert _ key val => (OutBool (bool_decide (m !! key = None)), (insert_absent m key val, n))
  | EvUpdate _ key val => (OutBool (bool_decide (is_Some (m !! key))), (update_present m key val, n))
  | EvLookup _ key => (OutVal (default 0 (m !! key)), (m, n))
  | EvScan _ startKey range => (OutVals (take range (snd <$> from_key m startKey)), (m, n))
  | EvCombine | EvWork => (OutNone, (m, n))
  end.

Fixpoint spec_run (evs : list pt_event) (st : gmap Z Z * nat) : list pt_out :=
  match evs with
  | [] => []
  | ev :: evs' => let '(o, st') := spec_step ev st in o :: spec_run evs' st'
  end.

(** Registered threads, the first of which got the number [n0], and keys that
    are neither 0 nor the greatest one. *)
Definition key_ok (key : Z) : bool := (0 <? key) && (key <? ULLONG_MAX).

Definition valid_event (n0 n : nat) (ev : pt_event) : bool :=
  match ev with
  | EvInsert c key _ | EvUpdate c key _ | EvLookup c key => (n0 <=? c_thread c)%nat && (c_thread c <? n)%nat && key_ok key
  | EvScan _ startKey _ => key_ok startKey
  | EvRegister | EvCombine | EvWork => true
  end.

Fixpoint valid_trace (n0 n : nat) (evs : list pt_event) : bool :=
  match evs with
  | [] => true
  | ev :: evs' => valid_event n0 n ev && valid_trace n0 (match ev with EvRegister => S n | _ => n end) evs'
  end.

(** * The tree *)

Section trace.
Context `{StdSort} `{PMem} `{OpMem} {T : Type} `{ArtTree T}.

Definition out_of {A} (f : A -> pt_out) (r : res (option (A * pactree T))) : res (option (pt_out * pactree T)) :=
  x ← r; Ok (match x with Some (a, pt') => Some (f a, pt') | None => None end).

Definition pt_step (ev : pt_event) (pt : pactree T) : res (option (pt_out * pactree T)) :=
  match ev with
  | EvRegister => let '(t, pt') := registerThread pt in Ok (Some (OutThread t, pt'))
  | EvInsert c key val => out_of OutBool (pt_insert pt c key val)
  | EvUpdate c key val => out_of OutBool (pt_update pt c key val)
  | EvLookup c key => out_of OutVal (pt_lookup pt c key)
  | EvScan c startKey range => out_of OutVals (pt_scan pt c startKey range)
  | EvCombine => Ok (Some (OutNone, combiner_round pt))
  | EvWork => pt' ← worker_round 0 pt; Ok (Some (OutNone, pt'))
  end.

Fixpoint pt_run (evs : list pt_event) (pt : pactree T) : res (option (list pt_out * pactree T)) :=
  match evs with
  | [] => Ok (Some ([], pt))
  | ev :: evs' =>
      x ← pt_step ev pt;
      match x with
      | None => Ok None
      | Some (o, pt') => y ← pt_run evs' pt'; Ok (match y with Some (os, pt'') => Some (o :: os, pt'') | None => None end)
      end
  end.
End trace.

Section refinement.
Context `{StdSort} `{PO : PMemOk} `{OO : OpMemOk} {T : Type} `{ArtTreeOk T}.

(** The threads from [n0] on that have been registered. *)
Definition threads_ok (n0 n : nat) (pt : pactree T) : Prop :=
  numThreads pt = n /\ forall i, (n0 <= i < n)%nat -> is_Some (g_threadDataSet pt !! i).

Lemma threads_same n0 n pt pt' : threads_ok n0 n pt -> same_rest pt pt' -> threads_ok n0 n pt'.
Proof.
  intros [En Hn] (_ & _ & _ & Hd & Hnum & _). split; [congruence|]. intros i Hi. apply elem_of_dom. rewrite Hd. apply elem_of_dom. by apply Hn.
Qed.

Lemma pt_state_mono b b' k k' pt m : b <= b' -> (k <= k')%nat -> pt_state b k pt m -> pt_state b' k' pt m.
Proof.
  intros Hb Hk (l & t & A & B & C & D & E). exists l, t. split_and!; [done| |done|lia|done]. by eapply locks_below_mono.
Qed.

Lemma bg_next r (pt pt' : pactree T) : bg_ok (1 + r) pt -> same_rest pt pt' -> bg_ok r pt'.
Proof. intros Hb (_ & E1 & _ & _ & _ & E2 & E3). eapply bg_same; [done..|]. eapply bg_mono; [|done]. lia. Qed.

(** The list has no more nodes than the memory. *)
Lemma list_room k pt l t : dl_inv (dl pt) l t -> (size (dl_nodes (dl (T := T) pt)) <= k)%nat -> (k <= art_cap)%nat -> (length l <= art_cap)%nat.
Proof. intros Hi Hs Hk. pose proof (list_size _ _ _ Hi) as Hl. rewrite length_app in Hl. cbn in Hl. lia. Qed.

Lemma pt_step_spec n0 r b k n pt m ev : pt_state b k pt m -> threads_ok n0 n pt -> bg_ok (1 + r) pt -> 0 <= r -> valid_event n0 n ev = true -> lock_room b -> (k < pm_heap)%nat ->
  (k <= art_cap)%nat ->
  let '(o, (m', n')) := spec_step ev (m, n) in
  exists pt', pt_step ev pt = Ok (Some (o, pt')) /\ pt_state (b + 2) (S k) pt' m' /\ threads_ok n0 n' pt' /\ bg_ok r pt'.
Proof.
  intros Hs Ht Hq Hr0 Hv Hb Hk Hcap.
  assert (forall c key, (n0 <=? c_thread c)%nat && (c_thread c <? n)%nat && key_ok key = true -> registered pt c /\ 0 < key < ULLONG_MAX) as Hreg.
  { intros c key [[Hc0%Nat.leb_le Hc%Nat.ltb_lt]%andb_true_iff Hkey]%andb_true_iff. unfold key_ok in Hkey. split; [by apply Ht|lia]. }
  destruct ev as [|c key v|c key v|c key|c key range| |]; cbn [spec_step valid_event pt_step] in *.
  - destruct Ht as [En Hn]. eexists. rewrite <- En. split; [done|]. split; [|split; [|apply (bg_same _ pt); [done|done|done|]; eapply bg_mono; [|done]; lia]].
    + destruct Hs as (l & t & [] & B & C & D & E). exists l, t. split_and!; [by split| |done|cbn; lia|done]. eapply locks_below_mono; [|done]. lia.
    + split; [done|]. intros i Hi. cbn. destruct (decide (i = numThreads pt)) as [->|Hne]; [rewrite lookup_insert_eq; by eexists|].
      rewrite lookup_insert_ne by done. apply Hn. lia.
  - destruct (Hreg c key Hv) as [Hr Hkey]. destruct (pt_insert_spec b k pt m c key v Hs Hr ltac:(lia) Hb Hk) as (pt' & -> & Hs' & Hsame).
    exists pt'. split; [done|]. split_and!; [done|by eapply threads_same|by eapply (bg_next _ pt)].
  - destruct (Hreg c key Hv) as [Hr Hkey]. destruct (pt_update_spec b k pt m c key v Hs Hr ltac:(lia) Hb) as (pt' & -> & Hs' & Hsame).
    exists pt'. split; [done|]. split_and!; [eapply pt_state_mono; [| |done]; lia|by eapply threads_same|by eapply (bg_next _ pt)].
  - destruct (Hreg c key Hv) as [Hr Hkey]. destruct (pt_lookup_spec b k pt m c key Hs Hr ltac:(lia) Hb) as (pt' & -> & Hs' & Hsame).
    exists pt'. split; [done|]. split_and!; [eapply pt_state_mono; [| |done]; lia|by eapply threads_same|by eapply (bg_next _ pt)].
  - unfold key_ok in Hv. destruct (pt_scan_spec b k pt m c key range Hs ltac:(lia) Hb) as (pt' & -> & Hs' & Hsame).
    exists pt'. split; [done|]. split_and!; [eapply pt_state_mono; [| |done]; lia|by eapply threads_same|by eapply (bg_next _ pt)].
  - destruct Hs as (l & t & A & B & C & D & E). destruct (combiner_round_inv pt l t A) as (A' & [Ed Et En _ _ _ _]).
    { eapply (bg_mono _ 1); [|done]. lia. }
    eexists. split; [done|]. split; [|split; [split; [|by rewrite Et; apply Ht]|by apply bg_round]].
    + exists l, t. split_and!; [done| |done|rewrite Ed; lia|done]. eapply locks_below_mono; [|done]. lia.
    + rewrite En. apply Ht.
  - destruct Hs as (l & t & A & B & C & D & E). pose proof (list_room k pt l t (pi_list _ _ _ A) D Hcap) as Hl.
    destruct (worker_round_inv pt l t A Hl) as (pt' & Ew & A' & Ed & Et & En).
    rewrite Ew.
    eexists. split; [done|]. split; [|split; [split; [rewrite En; apply Ht|by rewrite Et; apply Ht]|]].
    2: { eapply (bg_worker_round _ pt); [done|done|done|done|]. eapply bg_mono; [|done]. lia. }
    exists l, t. split_and!; [done| |done|rewrite Ed; lia|done]. eapply locks_below_mono; [|done]. lia.
Qed.

Lemma pt_run_spec n0 r (Hr : 0 <= r) : forall evs b k n pt m, pt_state b k pt m -> threads_ok n0 n pt -> bg_ok (Z.of_nat (length evs) + r) pt -> valid_trace n0 n evs = true -> new_lock < b ->
  b + 2 * Z.of_nat (length evs) <= 2 ^ 32 - 4 -> (k + length evs <= pm_heap)%nat -> (k + length evs <= art_cap)%nat ->
  exists pt' m', pt_run evs pt = Ok (Some (spec_run evs (m, n), pt')) /\
    pt_state (b + 2 * Z.of_nat (length evs)) (k + length evs) pt' m' /\ threads_ok n0 (numThreads pt') pt' /\ (n <= numThreads pt')%nat /\ bg_ok r pt'.
Proof.
  induction evs as [|ev evs IH]; intros b k n pt m Hs Ht Hq Hv Hb1 Hb2 Hk Hcap; cbn [length] in *.
  { exists pt, m. split; [done|]. rewrite Z.mul_0_r, Z.add_0_r, Nat.add_0_r. destruct Ht as [En Ht]. rewrite En. by split_and!. }
  cbn [valid_trace] in Hv. apply andb_true_iff in Hv as [Hv1 Hv2]. cbn [pt_run spec_run].
  assert (exists o m' n', spec_step ev (m, n) = (o, (m', n')) /\ n' = match ev with EvRegister => S n | _ => n end) as (o & m' & n' & Es & En')
    by (destruct ev; by eexists _, _, _).
  replace (Z.of_nat (S (length evs)) + r) with (1 + (Z.of_nat (length evs) + r)) in Hq by lia.
  pose proof (pt_step_spec n0 _ b k n pt m ev Hs Ht Hq ltac:(lia) Hv1) as Hstep. rewrite Es in Hstep |- *.
  destruct Hstep as (pt' & -> & Hs' & Ht' & Hq'); [split; lia|lia|lia|]. cbn [mbind res_bind]. rewrite <- En' in Hv2.
  destruct (IH (b + 2) (S k) n' pt' m' Hs' Ht' Hq' Hv2) as (pt'' & m'' & -> & Hs'' & Ht'' & Hn'' & Hq''); [lia|lia|lia|lia|].
  cbn [mbind res_bind]. exists pt'', m''. split; [done|]. split; [|split_and!; [done|destruct ev; lia|done]]. eapply pt_state_mono; [| |exact Hs'']; lia.
Qed.
(** C3. PACTree with one NUMA node refines a map.  For every trace of registrations, insertions,
    updates, lookups and scans by registered threads, interleaved in any way with rounds of the combiner and of the
    worker, the tree that [create] builds runs to the end (no fault, no operation that starts over) and gives the
    results of the map, which starts with the key 0 of the head node.  The heap and the search tree must have room for a
    node per event, the lock counters for two steps and the work queue for one vector per event; keys are neither 0 nor
    the greatest key.  Threads are numbered from [n0] on, which the constructor does not set. *)
Theorem pactree_refines_map min n0 evs : valid_trace n0 n0 evs = true -> (2 + length evs <= pm_heap)%nat -> (2 + length evs <= art_cap)%nat ->
  2 * Z.of_nat (length evs) <= 2 ^ 32 - 7 -> Z.of_nat (length evs) <= WORK_QUEUE_CAPACITY ->
  exists pt pt', create 1 min n0 = Ok pt /\ pt_run evs pt = Ok (Some (spec_run evs ({[0 := 0]}, n0), pt')).
Proof.
  intros Hv Hh Hc Hl Hq. destruct (create_spec (T := T) min n0) as (pt & E & Hs & Ht & En); [lia|lia|].
  destruct (pt_run_spec n0 0 ltac:(lia) evs 3 2 n0 pt {[0 := 0]}) as (pt' & _ & Er & _); [done|by split; [|lia]|apply (create_bg min n0); [done|lia]|done|done|lia|lia|lia|by exists pt, pt'].
Qed.

End refinement.
