(* ===== verification/PacThreads.v ===== *)
(** The threads behind PACTree ([src/PRISM/lib/pactree/src/pactree.cpp],
    [WorkerThread.cpp]): how the combiner and the workers stop. *)

From S2P Require Import Prelude NodeBits VersionedLock ListNode ListNodeFacts ListNodeScan LinkedList.
From S2P Require Import LinkedListInv LinkedListOps LinkedListInsert SearchLayer Pactree PactreeFacts PacQueues PactreeTrace.

Local Open Scope Z_scope.

(** * Stopping *)

(** What a worker frees when it ends: the nodes that were removed before
    [removeCount]; the others stay in the queue. *)
Fixpoint freeListNodes (removeCount : Z) (freeQueue : list (Z * Z)) : list Z * list (Z * Z) :=
  match freeQueue with
  | [] => ([], [])
  | x :: q => if x.1 <? removeCount then let '(freed, q') := freeListNodes removeCount q in (x.2 :: freed, q') else ([], x :: q)
  end.

(** The rounds that the combiner does once [g_globalStop] is set. *)
Definition LAST_ROUNDS : nat := 20.

Record stopping (T : Type) := MkStopping {
  st_tree : pactree T;
  st_rounds : nat;                (** last rounds of the combiner to do *)
  g_combinerStop : bool;
  st_ended : gset nat;            (** workers that have returned *)
}.
Arguments MkStopping {_}. Arguments st_tree {_}. Arguments st_rounds {_}. Arguments g_combinerStop {_}. Arguments st_ended {_}.

Inductive stop_event := StCombiner | StWorker (w : nat).

Section stop.
Context `{StdSort} `{PMem} `{OpMem} {T : Type} `{ArtTree T}.

(** The end of [combinerThreadExec]: the last rounds, then
    [freeMergedLogs(activeNuma, true)] until nothing is left. *)
Definition combiner_stop_step (s : stopping T) : stopping T :=
  if g_combinerStop s then s
  else match st_rounds s with
  | S n => MkStopping (combine_broadcast (st_tree s)) n false (st_ended s)
  | O => if bool_decide (logQueue (st_tree s) = []) then MkStopping (st_tree s) 0 true (st_ended s)
         else MkStopping (freeMergedLogs true (st_tree s)).2 0 false (st_ended s)
  end.

(** [workerThreadExec]: apply what there is; once the combiner has stopped and
    the queue is empty, worker 0 frees the removed nodes. *)
Definition worker_stop_step (w : nat) (s : stopping T) : res (stopping T) :=
  if bool_decide (w ∈ st_ended s) then Ok s
  else
    wt ← of_option OutOfRange (g_WorkerThreadInst (st_tree s) !! w);
    match workQueue wt with
    | _ :: _ => '(_, pt') ← applyOperation w (st_tree s); Ok (MkStopping pt' (st_rounds s) (g_combinerStop s) (st_ended s))
    | [] =>
        if negb (g_combinerStop s) then Ok s
        else
          let '(freed, fq) := if (w =? 0)%nat then freeListNodes ULLONG_MAX (freeQueue wt) else ([], freeQueue wt) in
          let d := dl (st_tree s) in
          let pt' := set_worker w (MkWorker [] (logDoneCount wt) (opcount wt) fq) (g_perNumaSlPtr (st_tree s)) (op_mem (st_tree s)) (st_tree s) in
          Ok (MkStopping (set_dl (set_nodes (foldr delete (dl_nodes d) freed) d) pt') (st_rounds s) true ({[w]} ∪ st_ended s))
    end.

Definition stop_step (e : stop_event) (s : stopping T) : res (stopping T) :=
  match e with
  | StCombiner => Ok (combiner_stop_step s)
  | StWorker w => worker_stop_step w s
  end.

Fixpoint stop_run (es : list stop_event) (s : stopping T) : res (stopping T) :=
  match es with
  | [] => Ok s
  | e :: es' => s' ← stop_step e s; stop_run es' s'
  end.

(** [g_globalStop = true]. *)
Definition stop_from (pt : pactree T) : stopping T := MkStopping pt LAST_ROUNDS false ∅.
End stop.

(** [wtArray] of [pactreeImpl]: the constructor makes [numNuma] null pointers,
    and [createWorkerThread] puts the threads behind them. *)
Definition wtArray (numNuma : nat) : list (option nat) := replicate numNuma None ++ (Some <$> seq 0 (numNuma * WORKER_THREAD_PER_NUMA)).

(** The joins of [pactreeImpl::~pactreeImpl]. *)
Fixpoint join_all (ts : list (option nat)) : res unit :=
  match ts with
  | [] => Ok tt
  | None :: _ => Err NullDeref
  | Some _ :: ts' => join_all ts'
  end.

Section shutdown.
Context `{StdSort} `{PO : PMemOk} `{OO : OpMemOk} {T : Type} `{ArtTreeOk T}.
Context (pt0 : pactree T) (wt0 : WorkerThread) (l : node_list) (t : Z * ListNode) (Hcap : (length l <= art_cap)%nat).

(** An entry that was on its way when the stop began has been applied, or
    still is on its way. *)
Definition entry_kept (pt : pactree T) (wt : WorkerThread) (M : gmap Z Z) : Prop :=
  forall a o, a ∈ pending wt0 (g_perThreadLog pt0) -> op_mem pt0 !! a = Some o -> os_hash o = 0 ->
    entry_done (op_mem pt) M a o \/ (op_mem pt !! a = Some o /\ a ∈ pending wt (g_perThreadLog pt)).

Record stop_ok (s : stopping T) : Prop := {
  so_inv : pt_inv (st_tree s) l t;
  so_dl : dl (st_tree s) = dl pt0;
  so_bg : bg_ok (Z.of_nat (st_rounds s)) (st_tree s);
  so_logs : st_rounds s = LAST_ROUNDS \/ logged (g_perThreadLog (st_tree s)) = [];
  so_stop : g_combinerStop s = true -> st_rounds s = 0%nat /\ logQueue (st_tree s) = [];
  so_ended : 0%nat ∈ st_ended s -> g_combinerStop s = true;
  so_entries : exists wt sl n M, g_WorkerThreadInst (st_tree s) = [wt] /\ search_state 0 (st_tree s) l sl n M /\ entry_kept (st_tree s) wt M;
}.

Lemma stop_from_ok : pt_inv pt0 l t -> g_WorkerThreadInst pt0 = [wt0] -> bg_ok (Z.of_nat LAST_ROUNDS) pt0 -> stop_ok (stop_from pt0).
Proof.
  intros Hi Ew Hb. destruct (pi_search _ _ _ Hi) as (sl & n & M & Hst). split; cbn; [done|done|done|by left|done|set_solver|].
  exists wt0, sl, n, M. split; [done|]. split; [done|]. intros a o Ha Hm Hh. by right.
Qed.

(** A queue of the worker that is part of an empty queue of the combiner. *)
Lemma no_work n (pt : pactree T) wt : bg_ok n pt -> g_WorkerThreadInst pt = [wt] -> logQueue pt = [] -> workQueue wt = [].
Proof.
  intros [_ B _ _] Ew El. destruct (qo_workers _ _ B 0 wt) as (_ & _ & Hs); [by rewrite Ew|]. rewrite El in Hs. by apply suffix_nil_inv in Hs.
Qed.

Lemma combiner_stop_ok s : stop_ok s -> stop_ok (combiner_stop_step s).
Proof.
  intros HS. pose proof HS as [Hi Hd Hb Hl Hst He (wt & sl & k & M & Ew & HM & Hk)]. unfold combiner_stop_step. destruct (g_combinerStop s) eqn:Es; [done|].
  destruct (st_rounds s) as [|n] eqn:En.
  - case_bool_decide as Eq; [split; cbn; try done; eauto 10|].
    pose proof (freeMergedLogs_inv true _ _ _ Hi) as Hi'. pose proof (bg_free_logs _ true _ Hb) as Hb'. destruct (freeMergedLogs_same true (st_tree s)) as [q E]. rewrite E in Hi', Hb' |- *.
    split; cbn; try done. exists wt, sl, k, M. split; [done|]. split; [exact HM|]. intros a o Ha Hm Hh. exact (Hk a o Ha Hm Hh).
  - assert (bg_ok (1 + Z.of_nat n) (st_tree s)) as Hb1 by (replace (1 + Z.of_nat n) with (Z.of_nat (S n)) by lia; done).
    destruct (combine_broadcast_inv _ _ _ Hi) as [Hi' Hc]; [eapply (bg_mono _ 1); [|exact Hb1]; lia|].
    pose proof (combined_search _ _ _ _ _ _ _ _ Ew Hc HM) as HM'. destruct Hc as [A B C D E _ F]. destruct (F wt Ew) as (wt' & Ew' & Hp & _).
    split; cbn [st_tree st_rounds g_combinerStop st_ended]; [done|congruence|apply bg_combine; [lia|done]|by right|done|intros; exfalso; by specialize (He ltac:(done))|]. exists wt', sl, k, M. split; [done|]. split; [done|]. intros a o Ha Hm Hh.
    destruct (Hk a o Ha Hm Hh) as [Hdone|[Hm' Hin]]; rewrite E; [by left|right]. split; [done|]. unfold pending. rewrite D, app_nil_r. by rewrite Hp.
Qed.

Lemma worker_stop_ok s : stop_ok s -> exists s', worker_stop_step 0 s = Ok s' /\ stop_ok s'.
Proof.
  intros HS. pose proof HS as [Hi Hd Hb Hl Hst He (wt & sl & k & M & Ew & HM & Hk)]. unfold worker_stop_step. case_bool_decide as Hend; [by exists s|]. rewrite Ew. change (of_option OutOfRange ([wt] !! 0%nat)) with (Ok wt). cbn [mbind res_bind].
  destruct (workQueue wt) as [|oplog queue] eqn:Eq.
  - destruct (g_combinerStop s) eqn:Es; cbn [negb]; [|by exists s]. pose proof (bg_free _ _ Hb) as Hf. rewrite Ew, Forall_singleton in Hf. rewrite Hf. cbn.
    eexists. split; [done|]. assert (set_dl (set_nodes (dl_nodes (dl (st_tree s))) (dl (st_tree s))) (set_worker 0 (MkWorker [] (logDoneCount wt) (opcount wt) []) (g_perNumaSlPtr (st_tree s)) (op_mem (st_tree s)) (st_tree s)) = st_tree s) as ->.
    { destruct (st_tree s) as [d sls m lg c ws lq dc cs ts nt] eqn:Et. cbn in *. subst ws. unfold set_dl, set_worker, set_nodes. cbn. f_equal; [by destruct d|]. destruct wt. cbn in *. by subst. }
    split; cbn; [done|done|done|done|done|done|]. by exists wt, sl, k, M.
  - destruct (applyOperation_inv _ _ _ _ _ _ _ _ _ Hi HM Hcap Ew Eq) as (pt' & wt' & M' & Ea & Hi' & Ew' & Eq' & [Ed _ _ Elg (sl' & k' & HM') Hsub Hdone Hother] & _). rewrite Ea. cbn [mbind res_bind]. eexists. split; [done|].
    destruct (applyOperation_queues _ _ _ _ _ (bg_queues _ _ Hb) ltac:(lia) Ea) as (_ & _ & Elq).
    split; cbn [st_tree st_rounds g_combinerStop st_ended]; [done|congruence|eapply (bg_apply _ (st_tree s)); [lia|done|done|done|done|done|done]|by rewrite Elg|by rewrite Elq|done|]. exists wt', sl', k', M'. split; [done|]. split; [done|]. intros a o Ha Hm Hh.
    destruct (Hk a o Ha Hm Hh) as [Hold|[Hm' Hin]].
    + left. destruct (decide (a ∈ oplog)) as [Hin|Hin]; [|by eapply entry_done_mono; [apply Hother| |exact Hold]].
      exfalso. destruct Hold as [(o' & Hm' & Ho') _]. destruct (pi_worker _ _ _ Hi) as (wt1 & Ew1 & _ & Hok). rewrite Ew in Ew1. injection Ew1 as <-. rewrite Forall_forall in Hok.
      destruct (Hok a) as (o1 & Hm1 & (Ho1 & _) & _); [unfold pending; rewrite Eq; cbn; set_solver|congruence].
    + destruct (decide (a ∈ oplog)) as [Ha'|Ha']; [left; by eapply Hdone|right]. rewrite Hother by done. split; [done|]. unfold pending in Hin |- *. rewrite Eq in Hin. cbn in Hin. rewrite Eq', Elg.
      apply elem_of_app in Hin as [Hin|Hin]; [|apply elem_of_app; by right]. apply elem_of_app in Hin as [?|?]; [done|]. apply elem_of_app. by left.
Qed.

Lemma stop_step_ok e s : stop_ok s -> e = StCombiner \/ e = StWorker 0 -> exists s', stop_step e s = Ok s' /\ stop_ok s'.
Proof. intros HS [-> | ->]; cbn; [eexists; split; [done|by apply combiner_stop_ok]|by apply worker_stop_ok]. Qed.

Lemma stop_run_ok es : Forall (fun e => e = StCombiner \/ e = StWorker 0) es -> forall s, stop_ok s -> exists s', stop_run es s = Ok s' /\ stop_ok s'.
Proof.
  induction 1 as [|e es He _ IH]; intros s HS; [by exists s|]. destruct (stop_step_ok e s HS He) as (s1 & E1 & HS1). cbn. rewrite E1. cbn. by apply IH.
Qed.

(** Once the combiner has stopped nothing is on its way. *)
Lemma stopped_done s : stop_ok s -> g_combinerStop s = true -> exists wt, g_WorkerThreadInst (st_tree s) = [wt] /\ pending wt (g_perThreadLog (st_tree s)) = [] /\
  forall a o, a ∈ pending wt0 (g_perThreadLog pt0) -> op_mem pt0 !! a = Some o -> os_hash o = 0 ->
    (exists o', op_mem (st_tree s) !! a = Some o' /\ os_op o' = OpDone) /\ found_by (st_tree s) (os_key o) (os_newNodeOid o).
Proof.
  intros [Hi Hd Hb Hl Hst He (wt & sl & k & M & Ew & HM & Hk)] Es. destruct (Hst Es) as [En Eq]. exists wt. split; [done|].
  assert (pending wt (g_perThreadLog (st_tree s)) = []) as Ep.
  { unfold pending. rewrite (no_work _ _ wt Hb Ew Eq). destruct Hl as [Hl| ->]; [rewrite En in Hl; done|done]. }
  split; [done|]. intros a o Ha Hm Hh. destruct (Hk a o Ha Hm Hh) as [[Hdone Hf]|[_ Hin]]; [|rewrite Ep in Hin; by apply elem_of_nil in Hin].
  split; [done|]. exact (search_found _ _ _ _ _ _ _ _ _ (pi_list _ _ _ Hi) HM Hf).
Qed.

(** * The end is reached *)

Lemma stop_run_app es1 es2 (s : stopping T) : stop_run (es1 ++ es2) s = s' ← stop_run es1 s; stop_run es2 s'.
Proof. revert s. induction es1 as [|e es1 IH]; intros s; [done|]. cbn. destruct (stop_step e s); [apply IH|done]. Qed.

(** A run of the combiner and the worker from [s] to a state with [G]. *)
Definition leads_to (s : stopping T) (G : stopping T -> Prop) : Prop :=
  exists es s', Forall (fun e => e = StCombiner \/ e = StWorker 0) es /\ stop_run es s = Ok s' /\ stop_ok s' /\ G s'.

Lemma leads_now s (G : stopping T -> Prop) : stop_ok s -> G s -> leads_to s G.
Proof. intros HS HG. by exists [], s. Qed.

Lemma leads_step e s s1 G : e = StCombiner \/ e = StWorker 0 -> stop_step e s = Ok s1 -> leads_to s1 G -> leads_to s G.
Proof. intros He E1 (es & s' & Hes & Er & HS & HG). exists (e :: es), s'. split_and!; [by constructor| |done|done]. cbn. by rewrite E1. Qed.

Lemma leads_trans s (G R : stopping T -> Prop) : leads_to s G -> (forall s', stop_ok s' -> G s' -> leads_to s' R) -> leads_to s R.
Proof.
  intros (es & s' & Hes & Er & HS & HG) HR. destruct (HR s' HS HG) as (es' & s'' & Hes' & Er' & HS' & HR'). exists (es ++ es'), s''.
  split_and!; [by apply Forall_app| |done|done]. rewrite stop_run_app, Er. done.
Qed.

Lemma rounds_end n : forall s, stop_ok s -> st_rounds s = n -> g_combinerStop s = false -> leads_to s (fun s' => st_rounds s' = 0%nat /\ g_combinerStop s' = false).
Proof.
  induction n as [|n IH]; intros s HS En Es; [by apply leads_now|]. eapply (leads_step StCombiner); [by left|done|].
  apply IH; [by apply combiner_stop_ok| |]; unfold combiner_stop_step; by rewrite Es, En.
Qed.

Lemma work_ends n : forall s wt, stop_ok s -> g_WorkerThreadInst (st_tree s) = [wt] -> length (workQueue wt) = n -> 0%nat ∉ st_ended s ->
  leads_to s (fun s' => st_rounds s' = st_rounds s /\ g_combinerStop s' = g_combinerStop s /\ 0%nat ∉ st_ended s' /\ exists wt', g_WorkerThreadInst (st_tree s') = [wt'] /\ workQueue wt' = []).
Proof.
  induction n as [|n IH]; intros s wt HS Ew En Hend; [apply leads_now; [done|]; apply nil_length_inv in En; eauto 10|].
  destruct (workQueue wt) as [|oplog queue] eqn:Eq; [done|]. destruct (worker_stop_ok s HS) as (s1 & E1 & HS1). eapply (leads_step (StWorker 0)); [by right|done|].
  destruct (pi_search _ _ _ (so_inv _ HS)) as (sl & k & M & HM).
  destruct (applyOperation_inv _ _ _ _ _ _ _ _ _ (so_inv _ HS) HM Hcap Ew Eq) as (pt' & wt' & _ & Ea & _ & Ew' & Eq' & _). unfold worker_stop_step in E1. rewrite bool_decide_eq_false_2, Ew in E1 by done.
  change (of_option OutOfRange ([wt] !! 0%nat)) with (Ok wt) in E1. cbn [mbind res_bind] in E1. rewrite Eq, Ea in E1. cbn [mbind res_bind] in E1. injection E1 as <-. refine (IH _ wt' HS1 Ew' _ Hend). rewrite Eq'. by injection En.
Qed.

(** With nothing to do for the worker, forced freeing empties the queue. *)
Lemma free_all n (pt : pactree T) wt : bg_ok n pt -> 0 <= n -> g_WorkerThreadInst pt = [wt] -> workQueue wt = [] -> logQueue (freeMergedLogs true pt).2 = [].
Proof.
  intros [_ B Hpos _] Hn Ew Eq. destruct (qo_workers _ _ B 0 wt) as (_ & Hc & _); [by rewrite Ew|]. rewrite Eq in Hc. cbn in Hc.
  unfold freeMergedLogs. cbn. rewrite Ew. cbn. pose proof (qo_bound _ _ B). rewrite Z.min_r by lia.
  destruct (free_front_spec (logDoneCount wt) _ _ (qo_counts _ _ B)) as (pre & E & _ & _ & [?|Hmin]); [done|]. apply (f_equal length) in E. rewrite length_app in E. apply nil_length_inv. lia.
Qed.

Lemma combiner_ends s wt : stop_ok s -> st_rounds s = 0%nat -> g_combinerStop s = false -> g_WorkerThreadInst (st_tree s) = [wt] -> workQueue wt = [] -> 0%nat ∉ st_ended s ->
  leads_to s (fun s' => g_combinerStop s' = true /\ 0%nat ∉ st_ended s').
Proof.
  intros HS En Es Ew Eq Hend. assert (forall s', stop_ok s' -> st_rounds s' = 0%nat -> g_combinerStop s' = false -> logQueue (st_tree s') = [] -> 0%nat ∉ st_ended s' -> leads_to s' (fun s'' => g_combinerStop s'' = true /\ 0%nat ∉ st_ended s'')) as Hempty.
  { intros s' HS' En' Es' El' He'. eapply (leads_step StCombiner); [by left|done|]. apply leads_now; [by apply combiner_stop_ok|]. unfold combiner_stop_step. by rewrite Es', En', bool_decide_eq_true_2. }
  destruct (decide (logQueue (st_tree s) = [])) as [El|El]; [by apply Hempty|]. eapply (leads_step StCombiner); [by left|done|].
  pose proof (combiner_stop_ok s HS) as HS1. unfold combiner_stop_step in HS1 |- *. rewrite Es, En, bool_decide_eq_false_2 in HS1 |- * by done.
  apply Hempty; [done|done|done| |done]. cbn. eapply (free_all _ _ wt); [exact (so_bg _ HS)|lia|done|done].
Qed.

Lemma stop_ends s : stop_ok s -> leads_to s (fun s' => 0%nat ∈ st_ended s').
Proof.
  intros HS. destruct (decide (0%nat ∈ st_ended s)) as [|Hend]; [by apply leads_now|].
  assert (leads_to s (fun s' => g_combinerStop s' = true /\ 0%nat ∉ st_ended s')) as Hstop.
  { destruct (g_combinerStop s) eqn:Es; [by apply leads_now|]. eapply leads_trans; [by eapply rounds_end|]. intros s1 HS1 [En1 Es1].
    destruct (so_entries _ HS1) as (wt1 & _ & _ & _ & Ew1 & _). assert (0%nat ∉ st_ended s1) as Hend1 by (intros Hin; pose proof (so_ended _ HS1 Hin); congruence).
    eapply leads_trans; [by eapply work_ends|]. intros s2 HS2 (En2 & Es2 & Hend2 & wt2 & Ew2 & Eq2). eapply combiner_ends; try done; congruence. }
  eapply leads_trans; [exact Hstop|]. intros s1 HS1 [Es1 Hend1]. destruct (so_entries _ HS1) as (wt1 & _ & _ & _ & Ew1 & _). destruct (so_stop _ HS1 Es1) as [_ El1].
  pose proof (no_work _ _ wt1 (so_bg _ HS1) Ew1 El1) as Eq1. destruct (worker_stop_ok s1 HS1) as (s2 & E2 & HS2). eapply (leads_step (StWorker 0)); [by right|done|]. apply leads_now; [done|].
  unfold worker_stop_step in E2. rewrite bool_decide_eq_false_2, Ew1 in E2 by done.
  change (of_option OutOfRange ([wt1] !! 0%nat)) with (Ok wt1) in E2. cbn [mbind res_bind] in E2. rewrite Eq1, Es1 in E2. cbn [negb Nat.eqb] in E2. destruct (freeListNodes _ _). injection E2 as <-. cbn. set_solver.
Qed.
End shutdown.


Section correct.
Context `{StdSort} `{PO : PMemOk} `{OO : OpMemOk} {T : Type} `{ArtTreeOk T}.

(** The combiner and the only worker. *)
Definition one_worker (es : list stop_event) : Prop := Forall (fun e => e = StCombiner \/ e = StWorker 0) es.

(** The vectors that a worker will read are not deleted. *)
Definition vectors_live (pt : pactree T) : Prop := forall w v, w ∈ g_WorkerThreadInst pt -> v ∈ workQueue w -> v ∈ (logQueue pt).*2.

Lemma bg_live n pt : bg_ok n pt -> vectors_live pt.
Proof.
  intros [_ B _ _] w v Hw Hv. apply list_elem_of_lookup in Hw as [i Hi]. destruct (qo_workers _ _ B i w Hi) as (_ & _ & [pre ->]). apply elem_of_app. by right.
Qed.

(** C29. The background threads of PACTree stop with their work done.  After any valid trace of operations and background rounds, with log entries allocated zeroed (the worker looks for hash 0, which nothing sets) and room for the nodes in the heap and in the search tree, in every interleaving of the combiner's last rounds with the worker: no step of the two faults; no merged vector is deleted while the worker still has to read it; the data layer does not change; when the combiner has stopped, no log entry is left on its way, every entry that was is marked done and the tree of the search layer finds its node under its key; and from every point the two threads can go on until the worker has returned.  (The destructor that waits for them follows a null pointer: [destructor_faults].) *)
Theorem shutdown_correct min n0 evs : valid_trace n0 n0 evs = true -> (2 + length evs <= pm_heap)%nat -> (2 + length evs <= art_cap)%nat -> 2 * Z.of_nat (length evs) <= 2 ^ 32 - 7 ->
  Z.of_nat (length evs) + Z.of_nat LAST_ROUNDS <= WORK_QUEUE_CAPACITY -> pm_hash = 0 ->
  exists pt0 outs pt wt, create 1 min n0 = Ok pt0 /\ pt_run evs pt0 = Ok (Some (outs, pt)) /\ g_WorkerThreadInst pt = [wt] /\
    forall es, one_worker es -> exists s, stop_run es (stop_from pt) = Ok s /\ vectors_live (st_tree s) /\ dl (st_tree s) = dl pt /\
      (g_combinerStop s = true -> exists wt', g_WorkerThreadInst (st_tree s) = [wt'] /\ pending wt' (g_perThreadLog (st_tree s)) = [] /\
        forall a, a ∈ pending wt (g_perThreadLog pt) -> exists o, op_mem pt !! a = Some o /\ log_entry o /\
          (exists o', op_mem (st_tree s) !! a = Some o' /\ os_op o' = OpDone) /\ found_by (st_tree s) (os_key o) (os_newNodeOid o)) /\
      exists es' s', one_worker es' /\ stop_run es' s = Ok s' /\ 0%nat ∈ st_ended s' /\ g_combinerStop s' = true.
Proof.
  intros Hv Hh Hc Hl Hq Hz. destruct (create_spec (T := T) min n0) as (pt0 & E0 & Hs & Ht & En); [lia|lia|].
  destruct (pt_run_spec n0 (Z.of_nat LAST_ROUNDS) ltac:(lia) evs 3 2 n0 pt0 {[0 := 0]}) as (pt & m & Er & (l & t & Hi & _ & _ & Hsz & _) & _ & _ & Hb);
    [done|by split; [|lia]|by apply (create_bg min n0)|done|done|lia|lia|lia|].
  pose proof (list_room _ pt l t (pi_list _ _ _ Hi) Hsz Hc) as Hcap.
  destruct (pi_worker _ _ _ Hi) as (wt & Ew & _). exists pt0, (spec_run evs ({[0 := 0]}, n0)), pt, wt. split_and!; [done|done|done|]. intros es Hes.
  destruct (stop_run_ok pt wt l t Hcap es Hes _ (stop_from_ok pt wt l t Hcap Hi Ew Hb)) as (s & Es & HS). exists s. split_and!; [done|exact (bg_live _ _ (so_bg _ _ _ _ _ HS))|exact (so_dl _ _ _ _ _ HS)| |].
  - intros Hstop. destruct (stopped_done pt wt l t s HS Hstop) as (wt' & Ew' & Ep & Hd). exists wt'. split_and!; [done|done|]. intros a Ha.
    destruct (pending_entry _ _ _ _ _ Hi Ew Ha) as (o & Hm & Ho & _). exists o. split; [done|]. split; [done|]. apply (Hd a o Ha Hm). destruct Ho as (_ & -> & _). done.
  - destruct (stop_ends pt wt l t Hcap s HS) as (es' & s' & Hes' & Er' & HS' & Hend). exists es', s'. split_and!; [done|done|done|]. exact (so_ended _ _ _ _ _ HS' Hend).
Qed.
End correct.

(** The destructor waits for the workers, but the first pointers it follows
    are the null pointers that the vector was made with. *)
Theorem destructor_faults numNuma : (0 < numNuma)%nat -> join_all (wtArray numNuma) = Err NullDeref.
Proof. intros Hn. by destruct numNuma; [lia|]. Qed.
