(* ===== verification/GracePeriod.v ===== *)
(** The grace period of PACTree ([gracePeriodInit], [waitForThreads] of
    [src/PRISM/lib/pactree/src/pactree.cpp], [threadData.h],
    [ordo_clock.h]): how the combiner waits until every operation that may
    still hold a pointer to a removed node has ended.

    An operation reads the clock, stores it, makes its counter odd, works, and
    makes the counter even again.  The loads and stores of the combiner and of
    the operations are separate steps, in any order; a run is the list of
    them. *)

From S2P Require Import Prelude NodeBits VersionedLock ListNode LinkedList SearchLayer Pactree.

Local Open Scope Z_scope.

(** * Clocks and threads *)

Definition ORDO_BOUNDARY : Z := 0.
Definition ordo_gt_clock (t1 t2 : Z) : bool := to_u64 (t2 + ORDO_BOUNDARY) <? t1.

Definition setLocalClock (clock : Z) (td : ThreadData) : ThreadData := MkThreadData clock (finish td) (runCnt td).
Definition incrementRunCnt (td : ThreadData) : ThreadData := MkThreadData (localClock td) (finish td) (to_u64 (runCnt td + 1)).

(** [td->getRunCnt() % 2] *)
Definition running (td : ThreadData) : bool := negb (runCnt td mod 2 =? 0).

(** [read_lock] and [read_unlock] of [threadData.h] are these steps. *)
Lemma td_read_lock_steps td clock : td_read_lock td clock = incrementRunCnt (setLocalClock clock td).
Proof. done. Qed.

(** * State *)

(** Where a thread is: between operations, after [ordo_get_clock], after
    [setLocalClock], in an operation; [Gone] after [unregisterThread]. *)
Inductive reader := Idle | HasClock (clock : Z) | ClockSet | InOp | Gone.

(** Where the combiner is.  [ScanClock] and [WaitClock]: the counter of [td]
    was odd, its clock is read next. *)
Inductive combiner :=
  | Out
  | Scan (curTime : Z) (todo threadsToWait : list nat)
  | ScanClock (curTime : Z) (td : nat) (todo threadsToWait : list nat)
  | Wait (gpStartTime : Z) (threadsToWait : list nat)
  | WaitClock (gpStartTime : Z) (td : nat) (threadsToWait : list nat)
  | WaitLoop (gpStartTime : Z) (td : nat) (threadsToWait : list nat)
  | Over
  | Fault.

(** [g_old] is no part of the code: the threads that were in an operation
    when the grace period began, and still are in that one. *)
Record grace := MkGrace { g_clock : Z; g_tds : gmap nat ThreadData; g_readers : gmap nat reader; g_combiner : combiner; g_old : gset nat }.

Definition with_reader (t : nat) (f : ThreadData -> ThreadData) (r : reader) (old : gset nat) (s : grace) : grace :=
  MkGrace (g_clock s) (alter f t (g_tds s)) (<[t := r]> (g_readers s)) (g_combiner s) old.
Definition with_combiner (c : combiner) (s : grace) : grace := MkGrace (g_clock s) (g_tds s) (g_readers s) c (g_old s).

(** * Steps *)

Definition in_op (r : reader) : bool := match r with InOp => true | _ => false end.
Definition in_ops (s : grace) : gset nat := dom (filter (fun x => in_op x.2 = true) (g_readers s)).

Definition reader_step (t : nat) (s : grace) : option grace :=
  match g_readers s !! t with
  | Some Idle => Some (with_reader t id (HasClock (to_u64 (g_clock s))) (g_old s) s)
  | Some (HasClock clock) => Some (with_reader t (setLocalClock clock) ClockSet (g_old s) s)
  | Some ClockSet => Some (with_reader t incrementRunCnt InOp (g_old s) s)
  | Some InOp => Some (with_reader t incrementRunCnt Idle (g_old s ∖ {[t]}) s)
  | Some Gone | None => None
  end.

(** The combiner.  When it erases a thread that has finished from the set that it walks,
    the iterator of the walk is invalid and the next increment is undefined. *)
Definition combiner_step (s : grace) : option grace :=
  match g_combiner s with
  | Out | Over => Some (MkGrace (g_clock s) (g_tds s) (g_readers s) (Scan (to_u64 (g_clock s)) (map_to_list (g_tds s)).*1 []) (in_ops s))
  | Scan cur [] w => Some (with_combiner (Wait cur w) s)
  | Scan cur (t :: todo) w =>
      match g_tds s !! t with
      | None => Some (with_combiner Fault s)
      | Some td =>
          if finish td then Some (MkGrace (g_clock s) (delete t (g_tds s)) (g_readers s) Fault (g_old s))
          else Some (with_combiner (if running td then ScanClock cur t todo w else Scan cur todo w) s)
      end
  | ScanClock cur t todo w =>
      match g_tds s !! t with
      | None => Some (with_combiner Fault s)
      | Some td => Some (with_combiner (Scan cur todo (if ordo_gt_clock (localClock td) cur then w else w ++ [t])) s)
      end
  | Wait cur [] => Some (with_combiner Over s)
  | Wait cur (t :: w) =>
      match g_tds s !! t with
      | None => Some (with_combiner Fault s)
      | Some td => Some (with_combiner (if running td then WaitClock cur t w else Wait cur w) s)
      end
  | WaitClock cur t w =>
      match g_tds s !! t with
      | None => Some (with_combiner Fault s)
      | Some td => Some (with_combiner (if ordo_gt_clock (localClock td) cur then Wait cur w else WaitLoop cur t w) s)
      end
  | WaitLoop cur t w =>
      match g_tds s !! t with
      | None => Some (with_combiner Fault s)
      | Some td => Some (with_combiner (if running td then WaitLoop cur t w else Wait cur w) s)
      end
  | Fault => None
  end.

(** A new thread that the walk over the set meets, or not. *)
Definition register_step (t : nat) (met : bool) (s : grace) : option grace :=
  match g_tds s !! t, g_readers s !! t with
  | None, None =>
      Some (MkGrace (g_clock s) (<[t := new_thread]> (g_tds s)) (<[t := Idle]> (g_readers s))
              (match g_combiner s with
               | Scan cur todo w => Scan cur (if met then todo ++ [t] else todo) w
               | ScanClock cur u todo w => ScanClock cur u (if met then todo ++ [t] else todo) w
               | c => c
               end) (g_old s))
  | _, _ => None
  end.

(** Between operations. *)
Definition unregister_step (t : nat) (s : grace) : option grace :=
  match g_readers s !! t with
  | Some Idle => Some (with_reader t td_setfinish Gone (g_old s) s)
  | _ => None
  end.

Inductive gp_event := Tick (n : N) | Read (t : nat) | Combine | Register (t : nat) (met : bool) | Unregister (t : nat).

#[export] Instance gp_event_eq : EqDecision gp_event.
Proof. solve_decision. Defined.

Definition gp_step (e : gp_event) (s : grace) : option grace :=
  match e with
  | Tick n => Some (MkGrace (g_clock s + Z.of_N n) (g_tds s) (g_readers s) (g_combiner s) (g_old s))
  | Read t => reader_step t s
  | Combine => combiner_step s
  | Register t met => register_step t met s
  | Unregister t => unregister_step t s
  end.

Fixpoint gp_run (es : list gp_event) (s : grace) : option grace :=
  match es with
  | [] => Some s
  | e :: es' => s' ← gp_step e s; gp_run es' s'
  end.

Definition gp_start (clock : Z) : grace := MkGrace clock ∅ ∅ Out ∅.

(** * Invariant *)

(** The threads that the combiner has still to look at or to wait for. *)
Definition watched (c : combiner) : list nat :=
  match c with
  | Scan _ todo w => todo ++ w
  | ScanClock _ t todo w => t :: todo ++ w
  | Wait _ w => w
  | WaitClock _ t w | WaitLoop _ t w => t :: w
  | Out | Over | Fault => []
  end.

Definition start_time (c : combiner) : option Z :=
  match c with
  | Scan cur _ _ | ScanClock cur _ _ _ | Wait cur _ | WaitClock cur _ _ | WaitLoop cur _ _ => Some cur
  | Out | Over | Fault => None
  end.

Definition reader_ok (now : Z) (r : reader) (td : ThreadData) : Prop :=
  running td = in_op r /\ localClock td <= now /\ (finish td = true -> r = Gone) /\
  match r with HasClock clock => clock <= now | _ => True end.

Record grace_ok (s : grace) : Prop := {
  gr_threads : forall t td, g_tds s !! t = Some td -> exists r, g_readers s !! t = Some r /\ reader_ok (g_clock s) r td;
  gr_here : forall t r, g_readers s !! t = Some r -> r <> Gone -> is_Some (g_tds s !! t);
  gr_old : forall t, t ∈ g_old s -> g_readers s !! t = Some InOp /\
    forall td cur, g_tds s !! t = Some td -> start_time (g_combiner s) = Some cur -> localClock td <= cur;
  gr_watched : g_combiner s <> Fault -> forall t, t ∈ g_old s -> t ∈ watched (g_combiner s);
  gr_time : forall cur, start_time (g_combiner s) = Some cur -> 0 <= cur < 2 ^ 64;
}.

Lemma running_increment td : running (incrementRunCnt td) = negb (running td).
Proof.
  unfold running, incrementRunCnt, to_u. cbn [runCnt]. rewrite Z.mod_mod_divide by (by exists (2 ^ 63)).
  pose proof (Z.mod_pos_bound (runCnt td) 2). rewrite Z.add_mod by lia.
  assert (runCnt td mod 2 = 0 \/ runCnt td mod 2 = 1) as [-> | ->] by lia; done.
Qed.

(** What a step of a thread keeps. *)
Lemma with_reader_ok s t r r' f old : grace_ok s -> g_readers s !! t = Some r -> r <> Gone -> old = (if in_op r then g_old s ∖ {[t]} else g_old s) ->
  (forall td, reader_ok (g_clock s) r td -> reader_ok (g_clock s) r' (f td)) -> grace_ok (with_reader t f r' old s).
Proof.
  intros [Ht Hi Ho Hw Hc] Hr Hgone Eold Hf. destruct (Hi _ _ Hr Hgone) as [td Htd]. assert (forall u, u ∈ old -> u ∈ g_old s /\ u <> t) as Hold.
  { intros u Hu. rewrite Eold in Hu. destruct r; cbn in Hu; try (split; [done|intros ->; by destruct (Ho t Hu) as [? _]; simplify_eq]). set_solver. }
  split; cbn.
  - intros u td'. destruct (decide (u = t)) as [->|Hne]; [|rewrite lookup_alter_ne, lookup_insert_ne by done; apply Ht].
    rewrite lookup_alter_eq, lookup_insert_eq, Htd. intros [= <-]. eexists. split; [done|]. apply Hf. destruct (Ht _ _ Htd) as (r0 & Er0 & HR). congruence.
  - intros u r0. destruct (decide (u = t)) as [->|Hne]; [|rewrite lookup_alter_ne, lookup_insert_ne by done; apply Hi].
    intros _ _. rewrite lookup_alter_eq, Htd. by eexists.
  - intros u [Hu Hne]%Hold. rewrite lookup_alter_ne, lookup_insert_ne by done. by apply Ho.
  - intros HF u [Hu _]%Hold. by apply Hw.
  - done.
Qed.

Lemma reader_step_ok t s s' : grace_ok s -> 0 <= g_clock s < 2 ^ 64 -> reader_step t s = Some s' -> grace_ok s'.
Proof.
  intros HG Hclk. unfold reader_step. destruct (g_readers s !! t) as [r|] eqn:Hr; [|done].
  destruct r as [|clock| | |]; [| | | |done]; intros [= <-]; (eapply with_reader_ok; [done|exact Hr|done|done|]);
    intros td (Hrun & Hl & Hf & Hc); (split_and!; [rewrite ?running_increment; cbn in *; by rewrite ?Hrun| | |]); cbn; try done; try (intros Hfin; by specialize (Hf Hfin)).
  rewrite to_u_id by lia. lia.
Qed.

Lemma unregister_step_ok t s s' : grace_ok s -> unregister_step t s = Some s' -> grace_ok s'.
Proof.
  intros HG. unfold unregister_step. destruct (g_readers s !! t) as [[]|] eqn:Hr; try done. intros [= <-].
  eapply with_reader_ok; [done|exact Hr|done|done|]. intros td (Hrun & Hl & Hf & _). done.
Qed.

(** A combiner step that changes no thread. *)
Lemma with_combiner_ok s c : grace_ok s -> start_time c = start_time (g_combiner s) \/ start_time c = None ->
  (c <> Fault -> g_combiner s <> Fault /\ forall t, t ∈ g_old s -> t ∈ watched (g_combiner s) -> t ∈ watched c) -> grace_ok (with_combiner c s).
Proof.
  intros [Ht Hi Ho Hw Hc] Hst Hwt. split; cbn; [done|done| | |].
  - intros t Hold. destruct (Ho t Hold) as [? Hl]. split; [done|]. intros td cur Htd Hcur. destruct Hst as [Hst|Hst]; [|congruence]. apply (Hl td); [done|congruence].
  - intros HF t Hold. destruct (Hwt HF) as [HF' Hin]. apply Hin; [done|]. by apply Hw.
  - intros cur Hcur. destruct Hst as [Hst|Hst]; [apply Hc; congruence|congruence].
Qed.

(** An operation that was there when the grace period began makes the counter
    odd and has an old clock. *)
Lemma old_seen s t td cur : grace_ok s -> t ∈ g_old s -> g_tds s !! t = Some td -> start_time (g_combiner s) = Some cur ->
  running td = true /\ ordo_gt_clock (localClock td) cur = false.
Proof.
  intros HG Ho Htd Hcur. destruct (gr_old _ HG _ Ho) as [Hr Hl]. destruct (gr_threads _ HG _ _ Htd) as (r & Hr' & (-> & Hlow & _)). assert (r = InOp) as -> by congruence.
  split; [done|]. unfold ordo_gt_clock, ORDO_BOUNDARY. specialize (Hl td cur Htd Hcur). rewrite Z.add_0_r, to_u_id by (by apply (gr_time _ HG)). by apply Z.ltb_ge.
Qed.

Lemma in_ops_spec s t : t ∈ in_ops s <-> g_readers s !! t = Some InOp.
Proof.
  unfold in_ops. rewrite elem_of_dom. split.
  - intros [r [Hr Hi]%map_lookup_filter_Some]. by destruct r.
  - intros Hr. exists InOp. by apply map_lookup_filter_Some.
Qed.

Lemma begin_ok s : grace_ok s -> 0 <= g_clock s < 2 ^ 64 ->
  grace_ok (MkGrace (g_clock s) (g_tds s) (g_readers s) (Scan (to_u64 (g_clock s)) (map_to_list (g_tds s)).*1 []) (in_ops s)).
Proof.
  intros HG Hclk. pose proof HG as [Ht Hi _ _ _]. split; cbn; [done|done| | |].
  - intros t Hop%in_ops_spec. split; [done|]. intros td cur Htd [= <-]. destruct (Ht _ _ Htd) as (r & _ & (_ & Hl & _)). rewrite to_u_id by lia. done.
  - intros _ t Hop%in_ops_spec. rewrite app_nil_r. destruct (Hi _ _ Hop) as [td Htd]; [done|]. apply list_elem_of_fmap. exists (t, td). split; [done|]. by apply elem_of_map_to_list.
  - intros cur [= <-]. by apply to_u_range.
Qed.

(** The combiner turns to the next thread only when no operation of this one
    is left from before. *)
Lemma pass_ok s c t td cur : grace_ok s -> g_tds s !! t = Some td -> start_time (g_combiner s) = Some cur -> start_time c = Some cur ->
  watched (g_combiner s) ⊆ t :: watched c -> (running td && negb (ordo_gt_clock (localClock td) cur) = true -> t ∈ watched c) -> grace_ok (with_combiner c s).
Proof.
  intros HG Htd Hs Hc Hsub Ht. apply with_combiner_ok; [done|left; congruence|]. intros _. split; [by intros E; rewrite E in Hs|].
  intros u Hu [->|Hin]%Hsub%elem_of_cons; [|done]. apply Ht. by destruct (old_seen s t td cur HG Hu Htd Hs) as [-> ->].
Qed.

Lemma combiner_step_ok s s' : grace_ok s -> 0 <= g_clock s < 2 ^ 64 -> combiner_step s = Some s' -> grace_ok s'.
Proof.
  intros HG Hclk. unfold combiner_step. pose proof (fun c t td => pass_ok s c t td) as Hpass.
  assert (grace_ok (with_combiner Fault s)) as Hfault by (apply with_combiner_ok; [done|by right|done]).
  destruct (g_combiner s) as [|cur [|t todo] w|cur t todo w|cur [|t w]|cur t w|cur t w| |] eqn:Ec; try (destruct (g_tds s !! t) as [td|] eqn:Htd; [|by intros [= <-]]); [..|done].
  - intros [= <-]. by apply begin_ok.
  - intros [= <-]. apply with_combiner_ok; rewrite ?Ec; auto.
  - destruct (finish td) eqn:Hf; intros [= <-].
    + destruct (gr_threads _ HG _ _ Htd) as (r & Hr & (_ & _ & Hg & _)). specialize (Hg Hf) as ->. destruct HG as [Ht Hi Ho Hw Hc]. split; cbn; try done.
      * intros u td' [_ Hu]%lookup_delete_Some. by apply Ht.
      * intros u r' Hr' Hne. rewrite lookup_delete_ne by congruence. by eapply Hi.
      * intros u Hu. destruct (Ho u Hu). split; [done|]. intros ? ? _ ?. done.
    + eapply (Hpass _ t td cur HG Htd); [done|by destruct (running td)|destruct (running td); set_solver|]. destruct (running td); [set_solver|done].
  - intros [= <-]. eapply (Hpass _ t td cur HG Htd); [done|done|destruct (ordo_gt_clock _ _); set_solver|]. intros [_ Hn]%andb_true_iff. apply negb_true_iff in Hn as ->. set_solver.
  - intros [= <-]. apply with_combiner_ok; rewrite ?Ec; auto.
  - intros [= <-]. eapply (Hpass _ t td cur HG Htd); [done|by destruct (running td)|destruct (running td); set_solver|]. destruct (running td); [set_solver|done].
  - intros [= <-]. eapply (Hpass _ t td cur HG Htd); [done|by destruct (ordo_gt_clock _ _)|destruct (ordo_gt_clock _ _); set_solver|]. intros [_ Hn]%andb_true_iff. apply negb_true_iff in Hn as ->. set_solver.
  - intros [= <-]. eapply (Hpass _ t td cur HG Htd); [done|by destruct (running td)|destruct (running td); set_solver|]. destruct (running td); [set_solver|done].
  - intros [= <-]. by apply begin_ok.
Qed.

Lemma register_step_ok t met s s' : grace_ok s -> 0 <= g_clock s -> register_step t met s = Some s' -> grace_ok s'.
Proof.
  intros [Ht Hi Ho Hw Hc] Hclk. unfold register_step. destruct (g_tds s !! t) eqn:Htd; [done|]. destruct (g_readers s !! t) eqn:Hr; [done|]. intros [= <-].
  assert (forall u, u ∈ g_old s -> u <> t) as Hne by (intros u Hu ->; destruct (Ho t Hu); congruence). split; cbn.
  - intros u td. destruct (decide (u = t)) as [->|Hn]; [|rewrite !lookup_insert_ne by done; apply Ht]. rewrite !lookup_insert_eq. intros [= <-]. by exists Idle.
  - intros u r. destruct (decide (u = t)) as [->|Hn]; [rewrite !lookup_insert_eq; by eexists|rewrite !lookup_insert_ne by done; apply Hi].
  - intros u Hu. rewrite !lookup_insert_ne by (apply not_eq_sym; auto). destruct (Ho u Hu) as [? Hl]. split; [done|]. intros td cur Hu' Hcur. apply (Hl td); [done|]. by destruct (g_combiner s), met.
  - intros HF u Hu. assert (g_combiner s <> Fault) as HF' by (by destruct (g_combiner s)). specialize (Hw HF' u Hu). destruct (g_combiner s), met; cbn in *; set_solver.
  - intros cur Hcur. apply Hc. by destruct (g_combiner s), met.
Qed.

Lemma tick_ok n s : grace_ok s -> grace_ok (MkGrace (g_clock s + Z.of_N n) (g_tds s) (g_readers s) (g_combiner s) (g_old s)).
Proof.
  intros [Ht Hi Ho Hw Hc]. split; cbn; try done. intros t td Htd. destruct (Ht t td Htd) as (r & Hr & (H1 & H2 & H3 & H4)). exists r. split; [done|]. split_and!; [done|lia|done|]. destruct r; lia || done.
Qed.

(** The clock does not run backwards. *)
Lemma gp_step_clock e s s' : gp_step e s = Some s' -> g_clock s <= g_clock s'.
Proof.
  destruct e as [n|t| |t met|t]; cbn.
  - intros [= <-]. cbn. lia.
  - unfold reader_step. intros Hs. repeat case_match; simplify_eq; done.
  - unfold combiner_step. intros Hs. repeat case_match; simplify_eq; done.
  - unfold register_step. intros Hs. repeat case_match; simplify_eq; done.
  - unfold unregister_step. intros Hs. repeat case_match; simplify_eq; done.
Qed.

Lemma gp_run_clock es : forall s s', gp_run es s = Some s' -> g_clock s <= g_clock s'.
Proof.
  induction es as [|e es IH]; cbn; intros s s'; [by intros [= <-]|]. intros (s1 & H1%gp_step_clock & H2%IH)%bind_Some. lia.
Qed.

Lemma gp_step_ok e s s' : grace_ok s -> 0 <= g_clock s < 2 ^ 64 -> gp_step e s = Some s' -> grace_ok s'.
Proof.
  intros HG Hclk. destruct e as [n|t| |t met|t]; cbn; [intros [= <-]; by apply tick_ok|by apply reader_step_ok|by apply combiner_step_ok| |by apply unregister_step_ok].
  apply register_step_ok; [done|lia].
Qed.

Lemma gp_run_ok es : forall s s', grace_ok s -> 0 <= g_clock s -> gp_run es s = Some s' -> g_clock s' < 2 ^ 64 -> grace_ok s'.
Proof.
  induction es as [|e es IH]; cbn; intros s s' HG Hclk; [by intros [= <-]|]. intros (s1 & H1 & H2)%bind_Some Hb. pose proof (gp_step_clock _ _ _ H1). pose proof (gp_run_clock _ _ _ H2).
  eapply (IH s1); [eapply gp_step_ok; [done|lia|done]|lia|done|done].
Qed.

Lemma gp_start_ok clock : grace_ok (gp_start clock).
Proof. split; cbn; [by intros t td ?%lookup_empty_Some|by intros t r ?%lookup_empty_Some|set_solver|set_solver|done]. Qed.

(** * What the grace period promises *)

(** An operation stays what it is until its thread ends it. *)
Lemma stays_in_op t es : forall s s', Read t ∉ es -> gp_run es s = Some s' -> g_readers s !! t = Some InOp -> t ∈ g_old s -> t ∈ g_old s'.
Proof.
  induction es as [|e es IH]; cbn [gp_run]; intros s s' Hn; [by intros [= <-]|]. apply not_elem_of_cons in Hn as [He Hn]. intros (s1 & H1 & H2)%bind_Some Hr Ho.
  cut (g_readers s1 !! t = Some InOp /\ t ∈ g_old s1); [intros []; eauto|]. destruct e as [n|u| |u met|u]; cbn in H1.
  - by simplify_eq.
  - assert (u <> t) by congruence. unfold reader_step in H1. repeat case_match; simplify_eq; cbn; rewrite lookup_insert_ne by done; (split; [done|set_solver]).
  - unfold combiner_step in H1. repeat case_match; simplify_eq; cbn; (split; [done|]); try done; by apply in_ops_spec.
  - unfold register_step in H1. repeat case_match; simplify_eq; cbn. all: rewrite lookup_insert_ne by congruence; done.
  - unfold unregister_step in H1. repeat case_match; simplify_eq; cbn; rewrite lookup_insert_ne by congruence; done.
Qed.

(** Steps of the combiner alone. *)
Lemma gp_run_app es1 es2 s : gp_run (es1 ++ es2) s = s' ← gp_run es1 s; gp_run es2 s'.
Proof. revert s. induction es1 as [|e es1 IH]; intros s; [done|]. cbn. destruct (gp_step e s); [apply IH|done]. Qed.

(** No thread is in an operation or has finished. *)
Definition quiet (s : grace) : Prop := forall t td, g_tds s !! t = Some td -> running td = false /\ finish td = false.

Lemma wait_ends cur w : forall s, quiet s -> g_combiner s = Wait cur w -> (forall t, t ∈ w -> is_Some (g_tds s !! t)) ->
  exists n s', gp_run (replicate n Combine) s = Some s' /\ g_combiner s' = Over.
Proof.
  induction w as [|t w IH]; intros s Hq Ec Hin; [exists 1%nat; eexists; cbn; unfold combiner_step; by rewrite Ec|].
  destruct (Hin t) as [td Htd]; [by left|]. destruct (Hq t td Htd) as [Hrun _].
  destruct (IH (with_combiner (Wait cur w) s)) as (n & s' & Hn & Hs'); [done|done|intros u Hu; apply Hin; by right|].
  exists (S n), s'. split; [|done]. cbn. unfold combiner_step. by rewrite Ec, Htd, Hrun.
Qed.

Lemma scan_ends cur todo w : forall s, quiet s -> g_combiner s = Scan cur todo w -> (forall t, t ∈ todo ++ w -> is_Some (g_tds s !! t)) ->
  exists n s', gp_run (replicate n Combine) s = Some s' /\ g_combiner s' = Over.
Proof.
  induction todo as [|t todo IH]; intros s Hq Ec Hin.
  - destruct (wait_ends cur w (with_combiner (Wait cur w) s)) as (n & s' & Hn & Hs'); [done|done|done|].
    exists (S n), s'. split; [|done]. cbn. unfold combiner_step. by rewrite Ec.
  - destruct (Hin t) as [td Htd]; [by left|]. destruct (Hq t td Htd) as [Hrun Hf].
    destruct (IH (with_combiner (Scan cur todo w) s)) as (n & s' & Hn & Hs'); [done|done|intros u Hu; apply Hin; by right|].
    exists (S n), s'. split; [|done]. cbn. unfold combiner_step. by rewrite Ec, Htd, Hf, Hrun.
Qed.

(** C38. The grace period of PACTree, in every interleaving of the loads and stores of the combiner with those of the threads (that register, run operations and unregister), as long as the clock does not wrap: when [waitForThreads] returns, every operation that was running when [gracePeriodInit] read the clock has ended.  A combiner that finds no operation running and no finished thread in the set returns. *)
Theorem grace_period_correct clock es1 s : 0 <= clock -> gp_run es1 (gp_start clock) = Some s -> g_combiner s = Out \/ g_combiner s = Over -> g_clock s < 2 ^ 64 ->
  (forall t es2 s', g_readers s !! t = Some InOp -> gp_run (Combine :: es2) s = Some s' -> g_combiner s' = Over -> g_clock s' < 2 ^ 64 -> Read t ∈ es2) /\
  (quiet s -> exists n s', gp_run (replicate n Combine) s = Some s' /\ g_combiner s' = Over).
Proof.
  intros Hclk H1 Hc Hb. pose proof (gp_run_ok _ _ _ (gp_start_ok clock) Hclk H1 Hb) as HG. pose proof (gp_run_clock _ _ _ H1) as Hm. cbn in Hm.
  assert (combiner_step s = Some (MkGrace (g_clock s) (g_tds s) (g_readers s) (Scan (to_u64 (g_clock s)) (map_to_list (g_tds s)).*1 []) (in_ops s))) as Hbegin
    by (unfold combiner_step; destruct Hc as [-> | ->]; done).
  split.
  - intros t es2 s' Hr H2 Ho Hb'. destruct (decide (Read t ∈ es2)) as [|Hn]; [done|]. exfalso. cbn [gp_run gp_step] in H2. rewrite Hbegin in H2. cbn [mbind option_bind] in H2.
    assert (t ∈ g_old s') as Hold.
    { eapply stays_in_op; [exact Hn|exact H2|done|by apply in_ops_spec]. }
    pose proof (gr_watched _ (gp_run_ok _ _ _ (begin_ok _ HG ltac:(lia)) ltac:(cbn; lia) H2 Hb')) as Hw. rewrite Ho in Hw. specialize (Hw ltac:(done) t Hold). by apply elem_of_nil in Hw.
  - intros Hq. edestruct (scan_ends (to_u64 (g_clock s)) (map_to_list (g_tds s)).*1 [] (MkGrace (g_clock s) (g_tds s) (g_readers s) (Scan (to_u64 (g_clock s)) (map_to_list (g_tds s)).*1 []) (in_ops s))) as (n & s' & Hn & Hs'); [done|done| |].
    { intros t. rewrite app_nil_r. intros ([u td] & -> & Hu%elem_of_map_to_list)%list_elem_of_fmap. by exists td. }
    exists (S n), s'. split; [|done]. cbn [replicate gp_run gp_step]. by rewrite Hbegin.
Qed.

(** Two threads, one in an operation. *)
Definition two_threads : list gp_event := [Register 0 false; Register 1 false; Tick 3; Read 0; Read 0; Read 0].

Lemma grace_period_correct_witness : exists s s', gp_run two_threads (gp_start 5) = Some s /\
  gp_run [Combine; Combine; Combine; Combine; Combine; Combine; Combine; Combine; Read 0; Combine; Combine] s = Some s' /\ g_combiner s' = Over /\
  Read 0 ∈ [Combine; Combine; Combine; Combine; Combine; Combine; Combine; Read 0; Combine; Combine].
Proof.
  eexists _, _. split; [vm_compute; reflexivity|]. split; [vm_compute; reflexivity|]. split; [vm_compute; reflexivity|].
  refine (proj1 (grace_period_correct 5 two_threads _ _ _ _ _) 0%nat _ _ _ _ _ _); [lia|vm_compute; reflexivity|left; vm_compute; reflexivity|vm_compute; reflexivity|vm_compute; reflexivity|vm_compute; reflexivity|vm_compute; reflexivity|vm_compute; reflexivity].
Defined.

(** A thread that has unregistered is still in the set, and the walk that
    erases it goes on from the erased element. *)
Theorem finished_thread_faults : exists s, gp_run [Register 0 false; Unregister 0; Combine; Combine] (gp_start 0) = Some s /\ g_combiner s = Fault.
Proof. eexists. by split; [vm_compute; reflexivity|]. Qed.
