(* ===== verification/PacIndex.v ===== *)
(** PACTree as the key index of the store ([src/PRISM/src/KeyIndex.h]), and
    PACTree over PDL-ART.

    The store is proved against the laws [KeyIndexOk] for an index that starts
    empty.  [PACTREEIndex] starts with the key 0 of the head node of its list,
    so it is not such an index; but for the calls of the store with other keys
    it answers as any of them does. *)

From S2P Require Import Prelude ArtNode ArtNodeFacts Art ArtTree ArtInvariant ArtInsert ArtMap MTS.
From S2P Require Import NodeBits VersionedLock ListNode ListNodeScan LinkedList.
From S2P Require Import LinkedListScan SearchLayer Pactree PactreeFacts PacQueues PactreeTrace.

Local Open Scope Z_scope.

(** The pairs from a key on are the keys of [keys_from] with their values. *)
Lemma from_key_keys (m : gmap Z Z) start : (from_key m start).*1 = keys_from m start.
Proof.
  unfold from_key, keys_from. apply sort_by_unique; [naive_solver| |].
  - assert (StronglySorted (key_le fst) (filter (fun kv => start <= kv.1) (sort_by fst (map_to_list m)))) as Hs.
    { apply sorted_filter, sort_by_sorted. }
    apply (sorted_fmap (key_le fst)); [|done]. done.
  - assert (forall l : list (Z * Z), (filter (fun kv => start <= kv.1) l).*1 = filter (fun k => start <= k) l.*1) as E.
    { induction l as [|x l IH]; [done|]. rewrite filter_cons, fmap_cons, filter_cons. case_decide; cbn; by rewrite IH. }
    rewrite E. apply filter_Permutation. by rewrite sort_by_perm.
Qed.

Lemma from_key_values (m : gmap Z Z) start : (from_key m start).*2 = (fun k => default 0 (m !! k)) <$> keys_from m start.
Proof.
  rewrite <- from_key_keys, <- list_fmap_compose. apply list_fmap_ext. intros i [k v] Hi. cbn.
  apply list_elem_of_lookup_2, list_elem_of_filter in Hi as [_ Hi]. rewrite sort_by_perm in Hi. apply elem_of_map_to_list in Hi. by rewrite Hi.
Qed.

(** Behind a key that is not 0 the key 0 is not seen. *)
Lemma keys_from_zero (m : gmap Z Z) v start : m !! 0 = None -> 0 < start -> keys_from (<[0 := v]> m) start = keys_from m start.
Proof.
  intros Hm Hs. unfold keys_from. apply sort_by_unique; [naive_solver|apply sort_by_sorted|]. rewrite sort_by_perm, map_to_list_insert by done.
  rewrite fmap_cons, filter_cons_False by (cbn; lia). done.
Qed.

(** * The calls of the store *)

Inductive ix_call :=
  | IxRegister
  | IxInsert (c : caller) (key ptr : Z)
  | IxLookup (c : caller) (key : Z)
  | IxRange (c : caller) (start : Z) (range : nat)
  | IxCombine                       (** a round of the combiner *)
  | IxWork.                         (** a round of the worker *)

Section calls.
Context {I : Type} `{KeyIndex I}.

(** What an index answers, and what it is afterwards. *)
Definition ki_answer (call : ix_call) (i : I) : list Z :=
  match call with
  | IxLookup _ key => [ki_lookup i key]
  | IxRange _ start range => ki_lookupRange i start range
  | IxRegister | IxInsert _ _ _ | IxCombine | IxWork => []
  end.
Definition ki_after (call : ix_call) (i : I) : I := match call with IxInsert _ key ptr => ki_insert i key ptr | _ => i end.

Fixpoint ki_answers (calls : list ix_call) (i : I) : list (list Z) :=
  match calls with
  | [] => []
  | call :: calls' => ki_answer call i :: ki_answers calls' (ki_after call i)
  end.

Definition event_of (call : ix_call) : pt_event :=
  match call with
  | IxRegister => EvRegister
  | IxInsert c key ptr => EvInsert c key ptr
  | IxLookup c key => EvLookup c key
  | IxRange c start range => EvScan c start range
  | IxCombine => EvCombine
  | IxWork => EvWork
  end.

(** The calling threads are registered, keys are neither 0 nor the greatest
    one, and a key that is inserted is new. *)
Fixpoint calls_ok (n0 n : nat) (calls : list ix_call) (i : I) : Prop :=
  match calls with
  | [] => True
  | call :: calls' =>
      valid_event n0 n (event_of call) = true /\
      match call with IxInsert _ key _ => ki_map i !! key = None | _ => True end /\
      calls_ok n0 (match call with IxRegister => S n | _ => n end) calls' (ki_after call i)
  end.
End calls.

Section index.
Context `{StdSort} `{PO : PMemOk} `{OO : OpMemOk} {T : Type} `{ArtTreeOk T}.

(** The same calls of [PACTREEIndex]. *)
Definition pi_call (call : ix_call) (pt : pactree T) : res (option (list Z * pactree T)) :=
  match call with
  | IxRegister => Ok (Some ([], (registerThread pt).2))
  | IxInsert c key ptr => r ← pi_insert pt c key ptr; Ok (match r with Some (_, pt') => Some ([], pt') | None => None end)
  | IxLookup c key => r ← pi_lookup pt c key; Ok (match r with Some (v, pt') => Some ([v], pt') | None => None end)
  | IxRange c start range => pi_lookupRange pt c start range
  | IxCombine => Ok (Some ([], combiner_round pt))
  | IxWork => pt' ← worker_round 0 pt; Ok (Some ([], pt'))
  end.

Fixpoint pi_calls (calls : list ix_call) (pt : pactree T) : res (option (list (list Z) * pactree T)) :=
  match calls with
  | [] => Ok (Some ([], pt))
  | call :: calls' =>
      x ← pi_call call pt;
      match x with
      | None => Ok None
      | Some (o, pt') => y ← pi_calls calls' pt'; Ok (match y with Some (os, pt'') => Some (o :: os, pt'') | None => None end)
      end
  end.

(** What a call of the index returns of the result of the tree. *)
Definition answer_of (o : pt_out) : list Z := match o with OutVal v => [v] | OutVals vs => vs | OutNone | OutThread _ | OutBool _ => [] end.

Lemma pi_call_step call pt o pt' : pt_step (event_of call) pt = Ok (Some (o, pt')) -> pi_call call pt = Ok (Some (answer_of o, pt')).
Proof.
  destruct call as [|c key ptr|c key|c start range| |]; cbn [event_of pt_step pi_call]; unfold pi_insert, pi_lookup, pi_lookupRange.
  - unfold registerThread. by intros [= <- <-].
  - destruct (pt_insert pt c key ptr) as [[[b pt1]|]|]; cbn; try done. by intros [= <- <-].
  - destruct (pt_lookup pt c key) as [[[v pt1]|]|]; cbn; try done. by intros [= <- <-].
  - destruct (pt_scan pt c start range) as [[[vs pt1]|]|]; cbn; try done. by intros [= <- <-].
  - by intros [= <- <-].
  - destruct (worker_round 0 pt) as [pt1|]; cbn; try done. by intros [= <- <-].
Qed.

Context {I : Type} `{KeyIndex I} `{!KeyIndexOk I}.

(** The tree holds what the index does, and the key 0. *)
Definition beside_zero (i : I) (m : gmap Z Z) : Prop := ki_map i !! 0 = None /\ m = <[0 := 0]> (ki_map i).

Lemma spec_answer n0 n call i m : beside_zero i m -> valid_event n0 n (event_of call) = true ->
  match call with IxInsert _ key _ => ki_map i !! key = None | _ => True end ->
  let '(o, (m', _)) := spec_step (event_of call) (m, n) in answer_of o = ki_answer call i /\ beside_zero (ki_after call i) m'.
Proof.
  intros [Hz ->] Hv Hnew. destruct call as [|c key ptr|c key|c start range| |]; cbn in *; try done.
  - apply andb_true_iff in Hv as [_ Hv]. unfold key_ok in Hv. assert (0 <> key) as Hne by lia. split; [done|]. unfold beside_zero. rewrite ki_insert_spec by done.
    assert ((<[0 := 0]> (ki_map i) : gmap Z Z) !! key = None) as Hno by (by rewrite lookup_insert_ne).
    unfold insert_absent. rewrite Hno. split; [by rewrite lookup_insert_ne|]. by apply insert_insert_ne.
  - apply andb_true_iff in Hv as [_ Hv]. unfold key_ok in Hv. split; [|done]. rewrite ki_lookup_spec, lookup_insert_ne by lia. done.
  - unfold key_ok in Hv. split; [|done]. rewrite ki_range_spec, from_key_values, keys_from_zero, <- fmap_take by (done || lia).
    apply list_fmap_ext. intros j k Hk. rewrite lookup_insert_ne; [done|]. intros <-.
    apply lookup_take_Some in Hk as [Hk _]. apply list_elem_of_lookup_2 in Hk. unfold keys_from in Hk. rewrite sort_by_perm in Hk. apply list_elem_of_filter in Hk as [Hk _]. lia.
Qed.

Lemma pi_calls_spec n0 : forall calls b k n pt m i, beside_zero i m -> pt_state b k pt m -> threads_ok n0 n pt -> bg_ok (Z.of_nat (length calls)) pt ->
  calls_ok n0 n calls i -> new_lock < b -> b + 2 * Z.of_nat (length calls) <= 2 ^ 32 - 4 -> (k + length calls <= pm_heap)%nat -> (k + length calls <= art_cap)%nat ->
  exists pt', pi_calls calls pt = Ok (Some (ki_answers calls i, pt')).
Proof.
  induction calls as [|call calls IH]; intros b k n pt m i Hz Hs Ht Hq Hv Hb1 Hb2 Hk Hcap; [by exists pt|]. cbn [length] in *. destruct Hv as (Hv & Hnew & Hrest).
  pose proof (spec_answer n0 n call i m Hz Hv Hnew) as Ha. cbn [pi_calls ki_answers].
  replace (Z.of_nat (S (length calls))) with (1 + Z.of_nat (length calls)) in Hq by lia.
  pose proof (pt_step_spec n0 _ b k n pt m (event_of call) Hs Ht Hq ltac:(lia) Hv) as Hstep.
  assert (exists o m' n', spec_step (event_of call) (m, n) = (o, (m', n')) /\ n' = match call with IxRegister => S n | _ => n end) as (o & m' & n' & Es & En)
    by (destruct call; by eexists _, _, _).
  rewrite Es in Ha, Hstep. destruct Ha as [Ea Hz']. destruct Hstep as (pt' & E & Hs' & Ht' & Hq'); [split; lia|lia|lia|].
  rewrite (pi_call_step _ _ _ _ E), Ea. cbn [mbind res_bind]. rewrite <- En in Hrest.
  destruct (IH (b + 2) (S k) n' pt' m' (ki_after call i) Hz' Hs' Ht' Hq' Hrest) as (pt'' & ->); [lia|lia|lia|lia|]. by exists pt''.
Qed.

(** C10. The store may use PACTree as its key index.  For every index that meets the laws [KeyIndexOk] and starts empty,
    as the store is proved against, and every sequence of the calls the store makes in its runs (insertions of new keys,
    lookups, range queries), by registered threads and interleaved with rounds of PACTree's combiner and worker: a new
    [PACTREEIndex] runs to the end and gives exactly the answers of that index.  Keys are neither 0, which PACTree holds
    from the start, nor the greatest key; removals are left out; the heap, the search tree, the locks and the work queue
    must have room for a step per call. *)
Theorem pactree_serves_store min n0 (calls : list ix_call) (i : I) : ki_map i = ∅ -> calls_ok n0 n0 calls i ->
  (2 + length calls <= pm_heap)%nat -> (2 + length calls <= art_cap)%nat -> 2 * Z.of_nat (length calls) <= 2 ^ 32 - 7 -> Z.of_nat (length calls) <= WORK_QUEUE_CAPACITY ->
  exists pt pt', create 1 min n0 = Ok pt /\ pi_calls calls pt = Ok (Some (ki_answers calls i, pt')).
Proof.
  intros Hi Hv Hh Hc Hl Hq. destruct (create_spec (T := T) min n0) as (pt & E & Hs & Ht & En); [lia|lia|].
  assert (beside_zero i {[0 := 0]}) as Hz by (unfold beside_zero; by rewrite Hi).
  destruct (pi_calls_spec n0 calls 3 2 n0 pt {[0 := 0]} i Hz Hs) as (pt' & Er); [by split; [|lia]|by apply (create_bg min n0)|done|done|lia|lia|lia|].
  by exists pt, pt'.
Qed.
End index.

Section existing.
Context `{StdSort} `{PO : PMemOk} `{OO : OpMemOk} {T : Type} `{ArtTreeOk T}.

(** [PACTREEIndex::insert] of a key that is there returns true and keeps the old pointer: the store,
    which inserts without looking the key up first, then loses the value it was given. *)
Theorem pactree_insert_existing b k pt m c key a old : pt_state b k pt m -> registered pt c -> 0 <= key < ULLONG_MAX -> lock_room b ->
  (k < pm_heap)%nat -> m !! key = Some old ->
  exists pt', pi_insert pt c key a = Ok (Some (true, pt')) /\ pt_state (b + 2) (S k) pt' m.
Proof.
  intros Hs Hr Hk Hb Hroom Hold. destruct (pt_insert_spec b k pt m c key a Hs Hr Hk Hb Hroom) as (pt' & E & Hs' & _). exists pt'.
  unfold pi_insert. rewrite E. cbn [mbind res_bind]. split; [done|]. unfold insert_absent in Hs'. by rewrite Hold in Hs'.
Qed.
End existing.

(** * PACTree over PDL-ART *)

Section art.
Context `{StdSort} `{PO : PMemOk} `{OO : OpMemOk} `{AO : ArtMemOk}.

(** C18. The whole of PACTree: its data layer with PDL-ART as the search layer.  Every trace of registrations,
    insertions, updates, lookups and scans by registered threads, interleaved with rounds of the combiner and of the
    worker, which inserts the nodes of splits into the radix tree, runs to the end without a fault in either layer (the
    radix tree reads the keys it needs from the data nodes, is searched only when it is not empty, and names nodes of
    the list only) and gives the results of a map.  Heap and radix tree must have room for a node per event, the locks
    for two steps, the work queue for a vector; keys are neither 0 nor the greatest one. *)
Theorem pactree_over_art min n0 evs : valid_trace n0 n0 evs = true -> (2 + length evs <= pm_heap)%nat -> (3 + length evs <= am_heap)%nat ->
  2 * Z.of_nat (length evs) <= 2 ^ 32 - 7 -> Z.of_nat (length evs) <= WORK_QUEUE_CAPACITY ->
  exists pt pt' : pactree art, create 1 min n0 = Ok pt /\ pt_run evs pt = Ok (Some (spec_run evs ({[0 := 0]}, n0), pt')).
Proof.
  intros Hv Hh Hc Hl Hq. assert (2 + length evs <= art_cap)%nat as Hcap by (cbn; lia).
  destruct (create_spec (T := art) min n0) as (pt & E & Hs & Ht & En); [lia|lia|].
  destruct (pt_run_spec n0 0 ltac:(lia) evs 3 2 n0 pt {[0 := 0]}) as (pt' & _ & Er & _);
    [done|by split; [|lia]|apply (create_bg min n0); [done|lia]|done|done|lia|lia|lia|by exists pt, pt'].
Qed.
End art.
