(* ===== verification/PacRecovery.v ===== *)
(** Recovery of PACTree after a crash ([LinkedList::Recovery],
    [ListNode::recoverNode], [ListNode::recoverMergingNode]). *)

From S2P Require Import Prelude NodeBits VersionedLock ListNode ListNodeFacts ListNodeScan LinkedList.
From S2P Require Import LinkedListInv SplitFacts SearchLayer Pactree.

Local Open Scope Z_scope.

(** * A split that had linked the new node *)

(** The loop of [recoverNode] over the slots [idx]. *)
Lemma recoverNode_loop n min_key : node_ok n -> forall idx b, Forall (fun i => (i < MAX_ENTRIES)%nat) idx -> 0 <= bits0 b < 2 ^ 64 ->
  exists b', foldl (fun acc i => b ← acc; '(k, _) ← key_at n (Z.of_nat i); Ok (if min_key <=? k then reset b (Z.of_nat i) else b)) (Ok b) idx = Ok b' /\
    0 <= bits0 b' < 2 ^ 64 /\
    forall j kv, (j < MAX_ENTRIES)%nat -> keyArray n !! j = Some kv ->
      test b' (Z.of_nat j) = test b (Z.of_nat j) && negb (bool_decide (j ∈ idx) && (min_key <=? kv.1)).
Proof.
  intros Hn idx. induction idx as [|i idx IH]; intros b Hi Hb.
  { exists b. cbn. split_and!; [done|lia|lia|]. intros. by rewrite andb_true_r. }
  apply Forall_cons in Hi as [Hi Hidx]. cbn [foldl mbind res_bind]. destruct (lookup_lt_is_Some_2 (keyArray n) i) as [kv Hkv];
    [by rewrite (no_keys _ Hn)|]. rewrite key_at_nat, Hkv. destruct kv as [k v]. cbn [of_option mbind res_bind].
  set (b1 := if min_key <=? k then reset b (Z.of_nat i) else b).
  assert (0 <= bits0 b1 < 2 ^ 64 /\ forall j, (j < MAX_ENTRIES)%nat ->
    test b1 (Z.of_nat j) = test b (Z.of_nat j) && negb (bool_decide (i = j) && (min_key <=? k))) as [Hb1 Ht1].
  { unfold b1. destruct (min_key <=? k).
    - split; [unfold reset; rewrite (proj2 (Z.ltb_lt _ _)) by (unfold MAX_ENTRIES in Hi; lia); by apply resetBit_range|].
      intros j Hj. pose proof (used_reset (set_bitMap n b) i j Hb Hi Hj) as E. cbn [bitMap set_bitMap] in E. rewrite E, andb_comm, andb_true_r.
      unfold used. cbn [bitMap set_bitMap]. f_equal. destruct (decide (i = j)) as [->|Hne];
        [rewrite (bool_decide_true (j = j)) by done; by rewrite bool_decide_false by naive_solver|].
      rewrite (bool_decide_false (i = j)) by done. by rewrite bool_decide_true.
    - split; [done|]. intros j _. by rewrite andb_false_r, andb_true_r. }
  destruct (IH b1 Hidx Hb1) as (b' & E & Hb' & Ht). exists b'. split; [exact E|]. split; [done|]. intros j kv Hj Hkj.
  rewrite (Ht j kv Hj Hkj), Ht1 by done. rewrite <- andb_assoc. f_equal. destruct (decide (i = j)) as [->|Hne].
  - assert (kv = (k, v)) as -> by congruence. cbn [fst]. rewrite (bool_decide_true (j = j)), (bool_decide_true (j ∈ j :: idx)) by (done || left).
    cbn. destruct (min_key <=? k); [done|]. by rewrite andb_false_r.
  - rewrite (bool_decide_false (i = j)) by done. cbn. do 2 f_equal. apply bool_decide_ext. rewrite elem_of_cons. naive_solver.
Qed.

Lemma recoverNode_spec n min_key : node_ok n ->
  exists n', recoverNode n min_key = Ok n' /\ node_ok n' /\ frame n n' /\ entries n' = filter (fun kv => kv.1 < min_key) (entries n).
Proof.
  intros Hn. destruct (recoverNode_loop n min_key Hn (seq 0 MAX_ENTRIES) (bitMap n)) as (b & E & Hb & Ht); [|apply Hn|].
  { apply Forall_forall. intros i Hi%elem_of_seq. lia. }
  unfold recoverNode. rewrite E. cbn [mbind res_bind]. eexists. split; [done|].
  assert (forall i kv, keyArray n !! i = Some kv -> used (set_bitMap n b) i = used n i && (kv.1 <? min_key)) as Hu.
  { intros i kv Hi. pose proof (lookup_lt_Some _ _ _ Hi) as Hlt. rewrite (no_keys _ Hn) in Hlt. unfold used. cbn [bitMap set_bitMap].
    rewrite (Ht i kv Hlt Hi), (bool_decide_true (i ∈ _)) by (apply elem_of_seq; lia). cbn. by rewrite Z.ltb_antisym. }
  assert (entries (set_bitMap n b) = filter (fun kv => kv.1 < min_key) (entries n)) as Ee.
  { unfold entries, slots. cbn [keyArray set_bitMap]. revert Hu. generalize (keyArray n) as l. intros l.
    assert (forall u u' : nat -> bool, (forall i kv, l !! i = Some kv -> u' i = u i && (kv.1 <? min_key)) ->
      omap id (imap (fun i kv => if u' i then Some kv else None) l) =
      filter (fun kv => kv.1 < min_key) (omap id (imap (fun i kv => if u i then Some kv else None) l))) as Hg.
    { clear Ht. induction l as [|x l IH]; intros u u' Hl; [done|]. cbn [imap].
      specialize (IH (fun i => u (S i)) (fun i => u' (S i)) (fun i kv Hi => Hl (S i) kv Hi)). pose proof (Hl 0%nat x eq_refl) as E0.
      unfold compose. cbn [omap list_omap id]. rewrite E0. destruct (u 0%nat); cbn [andb].
      - destruct (Z.ltb_spec x.1 min_key) as [Hlt|Hge]; cbn [id]; rewrite filter_cons.
        + rewrite decide_True by done. f_equal. exact IH.
        + rewrite decide_False by lia. exact IH.
      - exact IH. }
    intros Hu. by apply Hg. }
  split; [|split; [by split|done]]. destruct Hn as [A B C D F G]. split; try done.
  - intros i kv [Hk Hus]%slot_used. apply F, slot_used. cbn in Hk. split; [done|]. rewrite (Hu i kv Hk) in Hus. by apply andb_true_iff in Hus as [? _].
  - rewrite Ee. eapply sublist_NoDup; [exact G|]. apply fmap_sublist, sublist_filter.
Qed.

(** Completing a split after a crash: [recoverNode] drops from the overflown node exactly the
    pairs from the split key on (those already copied to the new node) and keeps the node well formed and in its place. *)
Theorem recoverNode_correct n min_key : node_ok n ->
  exists n', recoverNode n min_key = Ok n' /\ node_ok n' /\ frame n n' /\ entries n' = filter (fun kv => kv.1 < min_key) (entries n).
Proof. apply recoverNode_spec. Qed.

(** * Completing a merge *)

Lemma foldl_err {A B} (f : B -> A -> res B) l e : foldl (fun acc i => m ← acc; f m i) (Err e) l = Err e.
Proof. by induction l. Qed.

(** [recoverMergingNode] on a node whose first slot is in use while the deleted node's first key is
    not among its keys: no free slot was noted, and the pair is written to slot 255, outside the arrays. *)
Theorem recoverMerging_out_of_range n dn kv : node_ok n -> used n 0 = true -> keyArray dn !! 0%nat = Some kv -> kv.1 ∉ (keyArray n).*1 ->
  recoverMergingNode n dn = Err OutOfRange.
Proof.
  intros Hn Hu Hk Hno. destruct kv as [k v]. unfold recoverMergingNode. change (seq 0 MAX_ENTRIES) with (0%nat :: seq 1 63). cbn [foldl mbind res_bind].
  assert (recover_slot (bitMap n) dn n 0 = Err OutOfRange) as ->; [|apply (foldl_err (fun m i => recover_slot (bitMap n) dn m i))].
  unfold recover_slot. rewrite key_at_nat, Hk. cbn [of_option mbind res_bind]. change (test (bitMap n) (Z.of_nat 0)) with (used n 0). rewrite Hu.
  rewrite bool_decide_false by exact Hno. cbn [andb]. unfold insertAtIndex, key_at.
  change (to_u8 (-1)) with 255. cbn [Z.leb]. change (0 <=? 255) with true. cbv iota. rewrite lookup_ge_None_2; [done|].
  rewrite (no_keys _ Hn). apply leb_complete. reflexivity.
Qed.

Section recovery.
Context `{StdSort} `{PMem} {T : Type} `{ArtTree T}.

Lemma recovery_steps (st : SearchLayer T * dlist) st2 e rest : recover_entry 0 st = Ok st2 -> recover_entry 1 st2 = Ok st2 ->
  recover_entry 2 st2 = Err e -> foldl (fun acc i => st ← acc; recover_entry i st) (Ok st) (0 :: 1 :: 2 :: rest)%nat = Err e.
Proof. intros E0 E1 E2. cbn [foldl mbind res_bind]. rewrite E0. cbn [mbind res_bind]. rewrite E1. cbn [mbind res_bind]. rewrite E2. apply (foldl_err (fun st i => recover_entry i st)). Qed.

Lemma log_slots : exists rest, seq 0 LOG_SLOTS = (0 :: 1 :: 2 :: rest)%nat.
Proof.
  assert (exists n, LOG_SLOTS = 3 + n)%nat as [n ->] by (exists (LOG_SLOTS - 3)%nat; unfold LOG_SLOTS; lia).
  by exists (seq 3 n).
Qed.

(** Recovery takes a log slot that was never used for an insertion: the log area is filled with
    zeros, zero reads as an insertion, and [Recovery] looks at every slot.  For a list whose first two slots are done, as
    [initialize] leaves them, and whose third slot was never used, it reads a node through the zero pointer, where there
    is none. *)
Theorem recovery_unused_slot d (sl : SearchLayer T) o0 o1 : dl_pmlog d !! 0 = Some o0 -> os_op o0 = OpDone ->
  dl_pmlog d !! 1 = Some o1 -> os_op o1 = OpDone -> dl_pmlog d !! 2 = None -> dl_nodes d !! 0 = None -> Recovery d sl = Err BadAddress.
Proof.
  intros L0 D0 L1 D1 L2 Hz. unfold Recovery. destruct log_slots as (rest & ->). apply (recovery_steps _ (sl, MkDlist (dl_nodes d) (headPtr d)
    (LinkedList.genId d + 1) (dl_log d) (dl_pmlog d) (dl_context d))); unfold recover_entry, log_slot; cbn [dl_pmlog].
  - change (Z.of_nat 0) with 0. rewrite L0. cbn [from_option id]. by rewrite D0.
  - change (Z.of_nat 1) with 1. rewrite L1. cbn [from_option id]. by rewrite D1.
  - change (Z.of_nat 2) with 2. rewrite L2. cbn [from_option os_op os_oldNodePtr]. unfold arrow. cbn [dl_nodes]. by rewrite Hz.
Qed.
End recovery.
