(* ===== verification/PacExamples.v ===== *)
(** PACTree on concrete inputs: a heap and a log memory for the interfaces of
    the data layer, instances of the theorems, and runs that show what the
    code does where it does not do what it means to. *)

From S2P Require Import Prelude Art ArtMap ArtExamples MTS NodeBits VersionedLock ListNode ListNodeFacts ListNodeScalar ListNodeScan LinkedList.
From S2P Require Import LinkedListInv LinkedListOps LinkedListInsert LinkedListRemove LinkedListScan SearchLayer Pactree PactreeFacts PacQueues PactreeTrace PacThreads PacIndex PacRecovery.

Local Open Scope Z_scope.

(** * A heap of [n] nodes *)

Definition blank : ListNode :=
  MkListNode 0 0 0 0 0 false clear (replicate MAX_ENTRIES 0) 0 (replicate MAX_ENTRIES (0, 0)) 0 0 (replicate MAX_ENTRIES 0).

Fixpoint first_free (m : gmap Z ListNode) (p : Z) (n : nat) : Z :=
  match n with
  | O => 0
  | S n' => match m !! p with None => p | Some _ => first_free m (p + 1) n' end
  end.

Definition heap_of (n : nat) : PMem := {| pm_alloc m := first_free m 1 n; pm_alloc_log _ := true; pm_memory _ := blank; pm_hash := 0 |}.

Lemma heap_first_free_spec m n : forall p, 0 < p -> p + Z.of_nat n <= 2 ^ 32 ->
  (first_free m p n = 0 /\ forall i, p <= i < p + Z.of_nat n -> is_Some (m !! i)) \/
  (m !! first_free m p n = None /\ p <= first_free m p n < p + Z.of_nat n).
Proof.
  induction n as [|n IH]; intros p Hp Hn; cbn; [left; split; [done|lia]|].
  destruct (m !! p) as [x|] eqn:E; [|right; split; [done|lia]].
  destruct (IH (p + 1)) as [[E0 Ha]|[E0 Hr]]; [lia|lia| |right; split; [done|lia]].
  left. split; [done|]. intros i Hi. destruct (decide (i = p)) as [->|]; [by eexists|]. apply Ha. lia.
Qed.

Lemma small_vaddr p : 0 < p < 2 ^ 32 -> getVaddr p = p.
Proof.
  intros Hp. unfold getVaddr. destruct (Z.eqb_spec (Z.land p MASK) 0) as [E|]; [|done]. exfalso.
  assert (Z.land p MASK = p) as E2; [|lia]. apply Z.bits_inj'. intros i Hi. rewrite Z.land_spec.
  destruct (decide (i < 32)) as [Hlt|Hge].
  - assert (Z.testbit MASK i = true) as ->; [|apply andb_true_r].
    assert (Z.testbit (Z.ones 32) i = true) as <- by (apply Z.ones_spec_low; lia).
    change (Z.ones 32) with (Z.land MASK (Z.ones 32)). rewrite Z.land_spec, Z.ones_spec_low by lia. by rewrite andb_true_r.
  - assert (Z.testbit p i = false) as ->; [|done]. rewrite <- (Z.mod_small p (2 ^ 32)) by lia. apply Z.mod_pow2_bits_high. lia.
Qed.

Definition heap_ok (n : nat) : Z.of_nat n < 2 ^ 31 -> PMemOk (heap_of n).
Proof.
  intros Hn. refine {| pm_heap := n |}.
  - intros m Hz. cbn in Hz |- *. destruct (heap_first_free_spec m n 1) as [[E _]|[E Hr]]; [lia|lia|done|].
    split; [done|]. apply small_vaddr. lia.
  - intros m. cbn. destruct (heap_first_free_spec m n 1) as [[E _]|[_ Hr]]; [lia|lia|rewrite E; lia|lia].
  - intros m Hs. cbn. split; [|done]. destruct (heap_first_free_spec m n 1) as [[E Ha]|[E Hr]]; [lia|lia| |lia]. exfalso.
    assert (length (Z.of_nat <$> seq 1 n) <= length (map_to_list m).*1)%nat as Hl.
    { apply nodup_subset_length; [apply NoDup_fmap_2; [apply _|apply NoDup_seq]|].
      intros i (j & -> & Hj%elem_of_seq)%list_elem_of_fmap. destruct (Ha (Z.of_nat j)) as [x Hx]; [lia|].
      apply list_elem_of_fmap. exists (Z.of_nat j, x). split; [done|]. by apply elem_of_map_to_list. }
    rewrite !length_fmap, length_seq, length_map_to_list in Hl. lia.
  - intros p. by split_and!.
Defined.

Definition HEAP : nat := Z.to_nat 1000.
Lemma heap_small : Z.of_nat HEAP = 1000.
Proof. done. Qed.

Lemma heap_fits : Z.of_nat HEAP < 2 ^ 31.
Proof. by rewrite heap_small. Qed.

#[export] Instance small_heap : PMem := heap_of HEAP.
#[export] Instance small_heap_ok : PMemOk small_heap := heap_ok HEAP heap_fits.

Lemma heap_room n : Z.of_nat n <= 1000 -> (n <= pm_heap)%nat.
Proof. intros Hn. change (n <= HEAP)%nat. pose proof heap_small. lia. Qed.

(** A map as the search tree. *)
#[export] Instance small_tree : ArtTreeOk (gmap Z Z) := gmap_art_ok HEAP.

Lemma tree_room n : Z.of_nat n <= 1000 -> (n <= art_cap)%nat.
Proof. exact (heap_room n). Qed.

(** Log entries at addresses never used before. *)
#[export] Instance small_log : OpMem := {| om_alloc m := 1 + foldr Z.max 0 (map_to_list m).*1 |}.

Lemma max_ge (l : list Z) x : x ∈ l -> x <= foldr Z.max 0 l.
Proof. induction l as [|y l IH]; [by intros ?%elem_of_nil|]. intros [->|Hx]%elem_of_cons; cbn; [lia|]. specialize (IH Hx). lia. Qed.

#[export] Instance small_log_ok : OpMemOk small_log.
Proof.
  split. intros m. cbn. destruct (m !! _) as [o|] eqn:E; [|done]. exfalso. apply elem_of_map_to_list in E.
  apply (list_elem_of_fmap_2 fst) in E. apply max_ge in E. cbn in E. lia.
Qed.

(** * Traces *)

Abbreviation tree := (pactree (gmap Z Z)).

Definition caller0 : caller := MkCaller 0 0 3 7.
Definition insert_keys (a n : nat) : list pt_event := (fun k => EvInsert caller0 (Z.of_nat k) (Z.of_nat k * 10)) <$> seq a n.

(** A tree after a trace. *)
Definition tree_after (evs : list pt_event) : res (option (list pt_out * tree)) := pt ← create 1 0 0; pt_run evs pt.

Definition the_tree (r : res (option (list pt_out * tree))) : res tree :=
  x ← r; match x with Some (_, pt) => Ok pt | None => Err NoReturn end.

Definition removes (c : caller) (keys : list nat) (pt : tree) : res tree :=
  foldl (fun acc k => pt ← acc; r ← pt_remove pt c (Z.of_nat k);
                      match r with Some (_, pt') => Ok pt' | None => Err NoReturn end) (Ok pt) keys.

(** 199 keys, in a list of six data nodes, all but the first known to the
    search layer. *)
Definition grown : list pt_event := EvRegister :: insert_keys 1 199 ++ [EvCombine; EvWork].

(** A tree after a valid trace satisfies the invariant. *)
Lemma after_state evs : valid_trace 0 0 evs = true -> Z.of_nat (length evs) <= 900 ->
  exists outs pt l t, tree_after evs = Ok (Some (outs, pt)) /\ pt_inv pt l t /\ locks_below (3 + 2 * Z.of_nat (length evs)) (l ++ [t]) /\
    nonempty l /\ (size (dl_nodes (dl pt)) <= 2 + length evs)%nat /\ threads_ok 0 (numThreads pt) pt /\ bg_ok 99000 pt.
Proof.
  intros Hv Hl. destruct (create_spec (T := gmap Z Z) 0 0) as (pt & E & Hs & Ht & En); [by apply heap_room|by apply (tree_room 1)|].
  destruct (pt_run_spec 0 99000 ltac:(lia) evs 3 2 0 pt {[0 := 0]}) as (pt' & m' & Er & (l & t & H1 & H2 & H3 & H4 & H5) & Hth & _ & Hq');
    [done|by split; [|lia]|apply (create_bg 0 0); [done|unfold WORK_QUEUE_CAPACITY; lia]|done|done|lia|apply heap_room; lia|apply tree_room; lia|].
  eexists _, pt', l, t. unfold tree_after. rewrite E. cbn [mbind res_bind]. rewrite Er. split; [reflexivity|].
  exact (conj H1 (conj H2 (conj H3 (conj H4 (conj Hth Hq'))))).
Qed.

(** * Instances of the theorems *)

Lemma vector_search_portable_witness : exists n, node_ok n /\ entries n = [(0, 0)] /\
  getKeyIndex n 0 (getKeyFingerPrint 0) = getKeyIndex_portable n 0 (getKeyFingerPrint 0).
Proof.
  destruct (node_insert_empty (put_node 1 (new_node blank) (MkDlist ∅ 1 0 [] ∅ (MkLogContext 0 0 ∅))) 1 (new_node blank) 0 0) as (n & _ & Hn & _ & He);
    [done|reflexivity|exact (SplitFacts.new_node_ok 1)|exact (SplitFacts.new_node_entries 1)|].
  exists n. split; [exact Hn|]. split; [exact He|]. exact (proj1 (vector_search_portable n 0 Hn)).
Defined.

Lemma initial_list : exists d l t, initialize = Ok d /\ dl_inv d l t /\ locks_below 3 (l ++ [t]) /\ nonempty l /\ dl_map l = {[0 := 0]} /\
  dl_log d = [] /\ size (dl_nodes d) = 2%nat.
Proof. apply initialize_spec, heap_room. lia. Qed.

Lemma initial_fresh b l t : b <= 2 ^ 32 - 4 -> locks_below b (l ++ [t]) -> locks_fresh (l ++ [t]) /\ locks_fresh l.
Proof.
  intros Hb Hl. assert (locks_fresh (l ++ [t])) as Hf by (by eapply locks_below_mono). split; [done|]. by apply Forall_app in Hf as [? _].
Qed.

Lemma dl_insert_correct_witness : exists d d' l', initialize = Ok d /\ insert d 5 50 (headPtr d) = Ok (Some (true, d')) /\
  dl_map l' = {[5 := 50; 0 := 0]}.
Proof.
  destruct initial_list as (d & l & t & E & Hi & Hl & _ & Hm & _ & Hs). destruct (initial_fresh 3 l t ltac:(lia) Hl) as [_ Hf].
  assert (5 < ULLONG_MAX) as Hu by (unfold ULLONG_MAX; lia).
  destruct (dl_insert_correct d l t 5 50 (headPtr d) Hi Hf ltac:(lia) (proj2 (head_in _ _ _ Hi))) as (d' & l' & t' & Ei & _ & Em & _).
  { rewrite Hs. apply (heap_room 3). lia. }
  rewrite Hm in Ei, Em. exists d, d', l'. split; [exact E|]. split; [exact Ei|exact Em].
Defined.

Lemma dl_remove_correct_witness : exists d d1 d' l', initialize = Ok d /\ insert d 5 50 (headPtr d) = Ok (Some (true, d1)) /\
  remove d1 5 (headPtr d1) = Ok (Some (true, d')) /\ dl_map l' = {[0 := 0]}.
Proof.
  destruct initial_list as (d & l & t & E & Hi & Hl & _ & Hm & _ & Hs). destruct (initial_fresh 3 l t ltac:(lia) Hl) as [_ Hf].
  assert (5 < ULLONG_MAX) as Hu by (unfold ULLONG_MAX; lia).
  destruct (dl_insert_spec d l t 5 50 (headPtr d) Hi Hf ltac:(lia) (proj2 (head_in _ _ _ Hi))) as (d1 & l1 & t1 & Ei & [I1 _ I4 _ _ I8 _]).
  { rewrite Hs. apply (heap_room 3). lia. }
  destruct (initial_fresh 5 l1 t1 ltac:(lia) (I8 3 ltac:(unfold new_lock; lia) Hl)) as [_ Hf1].
  destruct (dl_remove_correct d1 l1 t1 5 (headPtr d1) I1 Hf1 ltac:(lia) (proj2 (head_in _ _ _ I1))) as (d' & l' & t' & Er & _ & Em & _).
  rewrite Hm in Ei, I4. rewrite I4 in Er, Em. exists d, d1, d', l'. split; [exact E|]. split; [exact Ei|]. split; [exact Er|exact Em].
Defined.

Lemma dl_scan_correct_witness : exists d d', initialize = Ok d /\ scan d 0 4 (headPtr d) = Ok (Some ([0], d')).
Proof.
  destruct initial_list as (d & l & t & E & Hi & Hl & Hne & Hm & _). destruct (initial_fresh 3 l t ltac:(lia) Hl) as [Hf _].
  assert (0 < ULLONG_MAX) as Hu by (unfold ULLONG_MAX; lia).
  destruct (dl_scan_correct d l t 0 4 (headPtr d) Hi Hf ltac:(lia) (proj2 (head_in _ _ _ Hi))) as (d' & l' & Es & _).
  { eapply Forall_impl; [exact Hne|]. intros x Hx _. exact Hx. }
  rewrite Hm in Es. exists d, d'. split; [exact E|exact Es].
Defined.

(** A tree whose head node has just been split. *)
Definition one_split : list pt_event := EvRegister :: insert_keys 1 64.

Lemma splits_reach_search_witness : exists outs pt wt pt' wt', tree_after one_split = Ok (Some (outs, pt)) /\ g_WorkerThreadInst pt = [wt] /\
  pending wt (g_perThreadLog pt) <> [] /\ worker_round 0 (combiner_round pt) = Ok pt' /\ g_WorkerThreadInst pt' = [wt'] /\ pending wt' (g_perThreadLog pt') = [] /\
  forall a, a ∈ pending wt (g_perThreadLog pt) -> exists o, op_mem pt !! a = Some o /\ found_by pt' (os_key o) (os_newNodeOid o).
Proof.
  destruct (after_state one_split) as (outs & pt & l & t & E & Hi & _ & _ & Hsz & _ & Hq); [by vm_compute|vm_compute; discriminate|].
  destruct (pi_worker _ _ _ Hi) as (wt & Ew & _).
  assert (length l <= art_cap)%nat as Hcap.
  { apply (list_room _ pt l t (pi_list _ _ _ Hi) Hsz). apply tree_room. vm_compute. discriminate. }
  destruct (splits_reach_search pt l t wt Hi Ew (bg_room _ _ (bg_mono 99000 1 pt ltac:(lia) Hq)) Hcap eq_refl) as (pt' & wt' & Er & _ & Ew' & Ep & Hf).
  assert (pending wt (g_perThreadLog pt) <> []) as Hne.
  { assert ((r ← tree_after one_split; Ok (match r with Some (_, p) => match g_WorkerThreadInst p with [w] => bool_decide (pending w (g_perThreadLog p) <> []) | _ => false end | None => false end)) = Ok true) as Hc
      by (vm_compute; reflexivity).
    rewrite E in Hc. cbn [mbind res_bind] in Hc. rewrite Ew in Hc. injection Hc as Hc. by apply bool_decide_eq_true in Hc. }
  exists outs, pt, wt, pt', wt'.
  split; [exact E|]. split; [exact Ew|]. split; [exact Hne|]. split; [exact Er|]. split; [exact Ew'|]. split; [exact Ep|].
  intros a Ha. destruct (Hf a Ha) as (o & Hm & _ & _ & _ & Hfo). exists o. split; [exact Hm|exact Hfo].
Defined.

Lemma registered0 (pt : tree) : threads_ok 0 (numThreads pt) pt -> (0 < numThreads pt)%nat -> registered pt caller0.
Proof. intros [_ Ht] Hn. apply (Ht 0%nat). lia. Qed.

Lemma pt_remove_correct_witness : exists pt pt' l, tree_after [EvRegister] = Ok (Some ([OutThread 0], pt)) /\
  pt_remove pt caller0 5 = Ok (Some (false, pt')) /\ dl_map l = {[0 := 0]}.
Proof.
  destruct (create_spec (T := gmap Z Z) 0 0) as (pt0 & E & (l & t & Hi & Hl & Hne & Hsz & Hm) & Ht & En); [by apply heap_room|by apply (tree_room 1)|].
  set (pt := (registerThread pt0).2). assert (pt_inv pt l t) as Hp by (destruct Hi; by split).
  destruct (initial_fresh 3 l t ltac:(lia) Hl) as [_ Hf]. assert (5 < ULLONG_MAX) as Hu by (unfold ULLONG_MAX; lia).
  assert (registered pt caller0) as Hr by (exists new_thread; cbn; rewrite En, Ht; reflexivity).
  destruct (pt_remove_correct pt l t caller0 5 Hp Hf Hr ltac:(lia)) as (pt' & l' & t' & Er & _ & Em & _).
  rewrite Hm in Er, Em. exists pt, pt', l'. split; [|split; [exact Er|exact Em]].
  unfold tree_after. rewrite E. cbn [mbind res_bind pt_run pt_step]. unfold pt, registerThread. cbn [snd mbind res_bind]. rewrite En. reflexivity.
Defined.

(** Five keys, one of them inserted twice, an update and a scan, with the
    combiner and the worker in between. *)
Definition short_trace : list pt_event :=
  [EvRegister; EvInsert caller0 30 3; EvInsert caller0 10 1; EvCombine; EvInsert caller0 20 2; EvInsert caller0 10 7; EvWork;
   EvUpdate caller0 20 5; EvLookup caller0 10; EvScan caller0 15 2].

Lemma pactree_refines_map_witness : exists pt pt', create (T := gmap Z Z) 1 0 0 = Ok pt /\
  pt_run short_trace pt = Ok (Some ([OutThread 0; OutBool true; OutBool true; OutNone; OutBool true; OutBool false; OutNone;
    OutBool true; OutVal 1; OutVals [5; 3]], pt')).
Proof.
  destruct (pactree_refines_map (T := gmap Z Z) 0 0 short_trace) as (pt & pt' & E & Er);
    [vm_compute; reflexivity|apply heap_room; vm_compute; discriminate|apply tree_room; vm_compute; discriminate|vm_compute; discriminate|vm_compute; discriminate|].
  exists pt, pt'. split; [exact E|exact Er].
Defined.

(** 110 keys, two splits, which the worker brings to the radix tree. *)
Definition art_trace : list pt_event := EvRegister :: insert_keys 1 110 ++ [EvCombine; EvWork; EvLookup caller0 100; EvInsert caller0 200 7; EvScan caller0 108 4].

Lemma pactree_over_art_witness : exists pt pt' : pactree art, create 1 0 0 = Ok pt /\ pt_run art_trace pt = Ok (Some (spec_run art_trace ({[0 := 0]}, 0%nat), pt')) /\
  drop 113 (spec_run art_trace ({[0 := 0]}, 0%nat)) = [OutVal 1000; OutBool true; OutVals [1080; 1090; 1100; 7]].
Proof.
  destruct (pactree_over_art 0 0 art_trace) as (pt & pt' & E & Er);
    [vm_compute; reflexivity|apply heap_room; vm_compute; discriminate|apply Nat2Z.inj_le; vm_compute; discriminate|vm_compute; discriminate|vm_compute; discriminate|].
  exists pt, pt'. split; [exact E|]. split; [exact Er|]. vm_compute. reflexivity.
Defined.

(** The lookup of key 100 then starts at the node that the radix tree names. *)
Example art_jump : (x ← (pt ← create (T := art) 1 0 0; pt_run (take 113 art_trace) pt);
  match x with Some (_, pt) => j ← getJumpNode pt caller0 100; Ok (bool_decide (j <> headPtr (dl pt)), loadKey (dl pt) j) | None => Err NoReturn end) = Ok (true, 64).
Proof. vm_compute. reflexivity. Qed.

(** The tree with one split stops after the last rounds of the combiner. *)
Lemma shutdown_correct_witness : exists (pt pt' : tree) outs s, create 1 0 0 = Ok pt /\ pt_run one_split pt = Ok (Some (outs, pt')) /\
  stop_run (StWorker 0 :: replicate LAST_ROUNDS StCombiner) (stop_from pt') = Ok s /\ vectors_live (st_tree s).
Proof.
  destruct (shutdown_correct (T := gmap Z Z) 0 0 one_split) as (pt & outs & pt' & wt & E & Er & _ & Hs);
    [vm_compute; reflexivity|apply heap_room; vm_compute; discriminate|apply tree_room; vm_compute; discriminate|vm_compute; discriminate|vm_compute; discriminate|reflexivity|].
  destruct (Hs (StWorker 0 :: replicate LAST_ROUNDS StCombiner)) as (s & Es & Hl & _).
  { constructor; [right; reflexivity|]. apply Forall_replicate. left. reflexivity. }
  exists pt, pt', outs, s. split; [exact E|]. split; [exact Er|]. split; [exact Es|exact Hl].
Defined.

(** A tree with the map of one pair besides that of the head. *)
Lemma one_pair : exists pt : tree, pt_state 7 4 pt {[5 := 50; 0 := 0]} /\ registered pt caller0.
Proof.
  destruct (create_spec (T := gmap Z Z) 0 0) as (pt0 & E & Hs & Ht & En); [by apply heap_room|by apply (tree_room 1)|].
  assert (threads_ok 0 0 pt0) as Hth by (split; [done|lia]).
  destruct (pt_step_spec 0 1 3 2 0 pt0 {[0 := 0]} EvRegister Hs Hth (create_bg 0 0 pt0 2 E ltac:(done)) ltac:(lia) eq_refl) as (pt1 & _ & Hs1 & Ht1 & Hq1); [split; [done|lia]|apply (heap_room 3); lia|apply (tree_room 2); lia|].
  destruct (pt_step_spec 0 0 5 3 1 pt1 {[0 := 0]} (EvInsert caller0 5 50) Hs1 Ht1 Hq1 ltac:(lia) eq_refl) as (pt2 & _ & Hs2 & Ht2 & _);
    [split; [done|lia]|apply (heap_room 4); lia|apply (tree_room 3); lia|].
  exists pt2. split; [exact Hs2|]. pose proof (proj1 Ht2) as En2. apply registered0; rewrite En2; [exact Ht2|lia].
Qed.

(** Calls of the store: two keys, looked up and listed. *)
Definition some_index_calls : list ix_call :=
  [IxRegister; IxInsert caller0 30 1056; IxInsert caller0 10 2048; IxCombine; IxLookup caller0 30; IxWork; IxLookup caller0 20; IxRange caller0 5 3].

Lemma pactree_serves_store_witness : exists pt pt' : tree, create 1 0 0 = Ok pt /\ pi_calls some_index_calls pt = Ok (Some ([[]; []; []; []; [1056]; []; [0]; [2048; 1056]], pt')).
Proof.
  destruct (pactree_serves_store (T := gmap Z Z) (I := gmap Z Z) 0 0 some_index_calls ∅) as (pt & pt' & E & Er);
    [reflexivity|repeat split|apply heap_room; vm_compute; discriminate|apply tree_room; vm_compute; discriminate|vm_compute; discriminate|vm_compute; discriminate|].
  exists pt, pt'. split; [exact E|]. rewrite Er. vm_compute (ki_answers _ _). reflexivity.
Defined.

Lemma pactree_insert_existing_witness : exists pt pt' : tree, pt_state 7 4 pt {[5 := 50; 0 := 0]} /\
  pi_insert pt caller0 5 90 = Ok (Some (true, pt')) /\ pt_state 9 5 pt' {[5 := 50; 0 := 0]}.
Proof.
  destruct one_pair as (pt & Hs & Hr). assert (5 < ULLONG_MAX) as Hu by (unfold ULLONG_MAX; lia).
  destruct (pactree_insert_existing 7 4 pt {[5 := 50; 0 := 0]} caller0 5 90 50 Hs Hr) as (pt' & Ei & Hs');
    [lia|split; [done|lia]|apply (heap_room 5); lia|reflexivity|].
  exists pt, pt'. split; [exact Hs|]. split; [exact Ei|exact Hs'].
Defined.

(** A computed result that passes a test. *)
Lemma res_check {A} (r : res A) (f : A -> bool) : (x ← r; Ok (f x)) = Ok true -> exists x, r = Ok x /\ f x = true.
Proof. destruct r as [x|e]; cbn; [|done]. intros [= E]. by exists x. Qed.

(** A node with the pair (7, 70) in its first slot. *)
Definition node7 : ListNode := match insertAtIndex (new_node blank) (7, 70) 0 (getKeyFingerPrint 7) with Ok n => n | Err _ => blank end.

Lemma node7_ok : node_ok node7 /\ used node7 0 = true /\ entries node7 = [(7, 70)].
Proof.
  assert (node_ok (new_node blank)) as Hb by exact (SplitFacts.new_node_ok 1).
  assert (entries (new_node blank) = []) as Heb by exact (SplitFacts.new_node_entries 1).
  destruct (insertAtIndex_spec (new_node blank) (7, 70) 0 Hb) as (n & E & Hn & _ & _ & He);
    [reflexivity|rewrite Heb; apply not_elem_of_nil|].
  assert (n = node7) as -> by (unfold node7; change (Z.of_nat 0) with 0 in E; cbn [fst] in E; by rewrite E). split; [done|]. split; [reflexivity|].
  rewrite Heb in He. by apply Permutation_singleton_r.
Qed.

Lemma recoverNode_correct_witness : exists n', recoverNode node7 5 = Ok n' /\ node_ok n' /\ entries n' = [].
Proof.
  destruct (recoverNode_correct node7 5 (proj1 node7_ok)) as (n' & E & Hn & _ & He). exists n'. rewrite (proj2 (proj2 node7_ok)) in He.
  split; [exact E|]. split; [exact Hn|exact He].
Defined.

Lemma recoverMerging_out_of_range_witness : recoverMergingNode node7 (set_bitMap (MkListNode 0 0 0 0 0 false clear [] 0 [(9, 90)] 0 0 []) clear) = Err OutOfRange.
Proof.
  apply (recoverMerging_out_of_range node7 _ (9, 90) (proj1 node7_ok) (proj1 (proj2 node7_ok))); [reflexivity|].
  apply (bool_decide_unpack _). vm_compute. exact I.
Defined.

(** The first two slots of the log area are done, the third was not used. *)
Definition two_done (d : dlist) : bool :=
  match dl_pmlog d !! 0, dl_pmlog d !! 1, dl_pmlog d !! 2, dl_nodes d !! 0 with
  | Some o0, Some o1, None, None => match os_op o0, os_op o1 with OpDone, OpDone => true | _, _ => false end
  | _, _, _, _ => false
  end.

Lemma two_done_spec d : two_done d = true -> exists o0 o1, dl_pmlog d !! 0 = Some o0 /\ os_op o0 = OpDone /\
  dl_pmlog d !! 1 = Some o1 /\ os_op o1 = OpDone /\ dl_pmlog d !! 2 = None /\ dl_nodes d !! 0 = None.
Proof.
  unfold two_done. destruct (dl_pmlog d !! 0) as [o0|], (dl_pmlog d !! 1) as [o1|], (dl_pmlog d !! 2) as [o2|], (dl_nodes d !! 0) as [n0|]; try done.
  intros Hd. exists o0, o1. by destruct (os_op o0), (os_op o1).
Qed.

Lemma recovery_unused_slot_witness : exists d, initialize = Ok d /\ Recovery (T := gmap Z Z) d (MkSearchLayer ∅ 0 0) = Err BadAddress.
Proof.
  destruct (res_check initialize two_done) as (d & E & Hd); [vm_compute; reflexivity|].
  apply two_done_spec in Hd as (o0 & o1 & E0 & D0 & E1 & D1 & E2 & E3).
  exists d. split; [exact E|]. exact (recovery_unused_slot d (MkSearchLayer ∅ 0 0) o0 o1 E0 D0 E1 D1 E2 E3).
Defined.

(** * Merged nodes *)

Definition starts_over {A} (r : res (option A)) : bool := match r with Ok None => true | _ => false end.
Lemma starts_over_spec {A} (r : res (option A)) : starts_over r = true -> r = Ok None.
Proof. by destruct r as [[]|]. Qed.

(** The keys 64 to 95 and then 32 and 33 are removed: the second node takes
    over the third. *)
Definition merged_next : res tree := pt ← the_tree (tree_after grown); removes caller0 (seq 64 32 ++ seq 32 2) pt.

(** After a removal that merges a node with its successor, the successor stays in the search layer
    and stays locked for good: a lookup or an insertion of a key in its former range finds it, cannot lock it and starts
    over, and so it does every time, as nothing unlocks the node. *)
Theorem merged_node_blocks : exists pt, merged_next = Ok pt /\ pt_lookup pt caller0 70 = Ok None /\ pt_insert pt caller0 70 700 = Ok None.
Proof.
  destruct (res_check merged_next (fun pt => starts_over (pt_lookup pt caller0 70) && starts_over (pt_insert pt caller0 70 700)))
    as (pt & E & [H1 H2]%andb_true_iff); [vm_compute; reflexivity|].
  exists pt. split; [exact E|]. split; [exact (starts_over_spec _ H1)|exact (starts_over_spec _ H2)].
Qed.

(** The keys 32 to 63 are removed, then 64 and 65: the third node is merged
    into the second. *)
Definition merged_prev : res tree := pt ← the_tree (tree_after grown); removes caller0 (seq 32 34) pt.

Definition result_is {A} `{EqDecision A} (r : res (option (A * tree))) (a : A) : bool :=
  match r with Ok (Some (x, _)) => bool_decide (x = a) | _ => false end.
Lemma result_is_spec {A} `{EqDecision A} (r : res (option (A * tree))) a : result_is r a = true -> exists pt, r = Ok (Some (a, pt)).
Proof. destruct r as [[[x pt]|]|]; cbn; try done. intros ->%bool_decide_eq_true. by exists pt. Qed.

(** After a removal that merges a node into its predecessor the merged node is not marked deleted
    and stays in the search layer: an update of one of its keys through the search layer changes the node that is no
    longer in the list, a lookup returns the new value, and a scan that comes through the list returns the old one. *)
Theorem merged_node_diverges : exists pt pt1 pt2 pt3, merged_prev = Ok pt /\ pt_update pt caller0 70 5 = Ok (Some (true, pt1)) /\
  pt_lookup pt1 caller0 70 = Ok (Some (5, pt2)) /\ pt_scan pt1 caller0 40 5 = Ok (Some ([660; 670; 680; 690; 700], pt3)).
Proof.
  destruct (res_check (pt ← merged_prev; r ← pt_update pt caller0 70 5; Ok (pt, r)) (fun x =>
    match x.2 with Some (true, pt1) => result_is (pt_lookup pt1 caller0 70) 5 && result_is (pt_scan pt1 caller0 40 5) [660; 670; 680; 690; 700]
    | _ => false end)) as ((pt & r) & E & Hr); [vm_compute; reflexivity|]. cbn [snd] in Hr.
  destruct merged_prev as [pt'|]; [|discriminate]. cbn [mbind res_bind] in E.
  destruct (pt_update pt' caller0 70 5) as [r'|] eqn:Eu; [|discriminate]. cbn [mbind res_bind] in E. injection E as -> ->.
  destruct r as [[[] pt1]|]; try discriminate. apply andb_true_iff in Hr as [H1 H2].
  apply result_is_spec in H1 as [pt2 H1]. apply result_is_spec in H2 as [pt3 H2]. exists pt, pt1, pt2, pt3. auto.
Qed.

(** * Two NUMA nodes *)

Definition two_numa : res tree :=
  pt ← create 2 0 0; r ← pt_run (EvRegister :: insert_keys 1 64 ++ [EvCombine]) pt;
  match r with Some (_, pt1) => worker_round 0 pt1 | None => Err NoReturn end.

(** With two NUMA nodes the workers share the log entries, and the first one that applies an entry
    marks it done: after the worker of node 0 has applied a split, the worker of node 1 finds the entry done and ends
    the process. *)
Theorem second_worker_exits : exists pt, two_numa = Ok pt /\ worker_round 1 pt = Err ExitFailure.
Proof.
  destruct (res_check two_numa (fun pt => match worker_round 1 pt with Err ExitFailure => true | _ => false end)) as (pt & E & Hr);
    [vm_compute; reflexivity|]. exists pt. split; [exact E|]. destruct (worker_round 1 pt) as [|[]]; done.
Qed.
