(* ===== verification/ValueList.v ===== *)
(** The value list of the TandemIndex prototype
    ([src/Prototype/src/valuelist.cpp], [include/valuelist.h],
    [include/node.h], [include/pmemVnodePool.h]): a singly linked list of
    key-value nodes that come from a pool.

    A node is known by its position in the pool, which is its id; a link is
    the id of the next node as an [int], and an id outside of the pool stands
    for the null pointer.  The pool keeps the nodes that were written to; the
    others are as its constructor leaves them.  Flushes are not modelled. *)

From S2P Require Import Prelude.

Local Open Scope Z_scope.

(** * Pools *)

Record pool (N : Type) := MkPool { p_nodes : gmap Z N; p_num : Z; p_cur : Z }.
Arguments MkPool {_}. Arguments p_nodes {_}. Arguments p_num {_}. Arguments p_cur {_}.

Section pool.
Context {N : Type} (fresh_node : N).

(** [at]: the index is converted to [size_t]. *)
Definition p_at (p : pool N) (i : Z) : option Z := if (0 <=? i) && (i <? p_num p) then Some i else None.

Definition p_get (p : pool N) (i : Z) : N := default fresh_node (p_nodes p !! i).
Definition p_set (p : pool N) (i : Z) (n : N) : pool N := MkPool (<[i := n]> (p_nodes p)) (p_num p) (p_cur p).

Definition getNextNode (p : pool N) : option Z * pool N :=
  if p_num p <=? p_cur p then (None, p) else (Some (p_cur p), MkPool (p_nodes p) (p_num p) (p_cur p + 1)).
End pool.

(** [std::numeric_limits<uint32_t>::max()] in an [int]. *)
Definition NO_ID : Z := to_i32 (2 ^ 32 - 1).

(** Access through a pointer. *)
Definition deref (o : option Z) : res Z := of_option NullDeref o.

(** * Value nodes *)

Record Vnode := MkVnode { v_key : Z; v_value : Z; v_next : Z }.
Definition fresh_vnode : Vnode := MkVnode 0 0 0.

Notation vat := p_at (only parsing).
Definition vget (p : pool Vnode) (i : Z) : Vnode := p_get fresh_vnode p i.
Definition set_vkey (k v : Z) (n : Vnode) : Vnode := MkVnode k v (v_next n).
Definition set_vnext (i : Z) (n : Vnode) : Vnode := MkVnode (v_key n) (v_value n) i.

(** [Vnode::lookup], [update], [remove], [getKeyPos] *)
Definition vnode_lookup (n : Vnode) (key : Z) : Z := if v_key n =? key then to_i32 (v_value n) else -1.
Definition vnode_update (n : Vnode) (key value : Z) : bool * Vnode := if v_key n =? key then (true, MkVnode (v_key n) value (v_next n)) else (false, n).
Definition vnode_remove (n : Vnode) (key : Z) : bool * Vnode :=
  if v_key n =? key then (true, MkVnode (to_u64 (-1)) (to_u64 (-1)) (v_next n)) else (false, n).
Definition vnode_getKeyPos (i : Z) (n : Vnode) (key : Z) : Z := if v_key n =? key then i else -1.

(** * The list *)

Record ValueList := MkValueList { vpool : pool Vnode; vhead : Z }.

(** The constructor, on a pool of [num] nodes. *)
Definition new_ValueList (num : Z) : res ValueList :=
  let '(o, p) := getNextNode (MkPool ∅ num 0) in
  h ← deref o;
  Ok (MkValueList (p_set p h (MkVnode 0 0 NO_ID)) h).

Definition vl_getNext (p : pool Vnode) (i : Z) : option Z := p_at p (v_next (vget p i)).

(** The walk of both insertions: the last node with a smaller key. *)
Fixpoint insert_pos (fuel : nat) (p : pool Vnode) (cur key : Z) : res Z :=
  match fuel with
  | O => Err NoReturn
  | S fuel' =>
      match vl_getNext p cur with
      | Some next => if v_key (vget p next) <? key then insert_pos fuel' p next key else Ok cur
      | None => Ok cur
      end
  end.

(** A list has at most as many nodes as its pool. *)
Definition pool_fuel {N} (p : pool N) : nat := S (Z.to_nat (p_num p)).

Definition link_after (p : pool Vnode) (cur new : Z) : pool Vnode :=
  let p1 := p_set p new (set_vnext (v_next (vget p cur)) (vget p new)) in
  p_set p1 cur (set_vnext new (vget p1 cur)).

(** [insert(startNode, newNode)] *)
Definition vl_insert_from (p : pool Vnode) (start new : Z) : res (bool * pool Vnode) :=
  cur ← insert_pos (pool_fuel p) p start (v_key (vget p new));
  Ok (true, link_after p cur new).

(** [insert(key, value)] *)
Definition vl_insert (l : ValueList) (key value : Z) : res (bool * ValueList) :=
  match getNextNode (vpool l) with
  | (None, p) => Ok (false, MkValueList p (vhead l))
  | (Some new, p) =>
      let p1 := p_set p new (set_vkey key value (vget p new)) in
      cur ← insert_pos (pool_fuel p1) p1 (vhead l) key;
      Ok (true, MkValueList (link_after p1 cur new) (vhead l))
  end.

(** The walk of [update], [remove] and [getKeyPos]. *)
Fixpoint seek (fuel : nat) (p : pool Vnode) (cur key : Z) : res Z :=
  match fuel with
  | O => Err NoReturn
  | S fuel' => if v_key (vget p cur) <? key then next ← deref (vl_getNext p cur); seek fuel' p next key else Ok cur
  end.

Definition vl_update (l : ValueList) (key value : Z) : res (bool * ValueList) :=
  cur ← seek (pool_fuel (vpool l)) (vpool l) (vhead l) key;
  let '(r, n) := vnode_update (vget (vpool l) cur) key value in
  Ok (r, MkValueList (p_set (vpool l) cur n) (vhead l)).

Definition vl_remove (l : ValueList) (key : Z) : res (bool * ValueList) :=
  cur ← seek (pool_fuel (vpool l)) (vpool l) (vhead l) key;
  let '(r, n) := vnode_remove (vget (vpool l) cur) key in
  Ok (r, MkValueList (p_set (vpool l) cur n) (vhead l)).

Definition vl_getKeyPos (l : ValueList) (key : Z) : res Z :=
  cur ← seek (pool_fuel (vpool l)) (vpool l) (vhead l) key;
  Ok (vnode_getKeyPos cur (vget (vpool l) cur) key).

Fixpoint lookup_pos (fuel : nat) (p : pool Vnode) (cur key : Z) : res Z :=
  match fuel with
  | O => Err NoReturn
  | S fuel' =>
      match vl_getNext p cur with
      | Some next => if v_key (vget p next) <=? key then lookup_pos fuel' p next key else Ok cur
      | None => Ok cur
      end
  end.

Definition vl_lookup (l : ValueList) (key : Z) : res Z :=
  cur ← lookup_pos (pool_fuel (vpool l)) (vpool l) (vhead l) key;
  Ok (vnode_lookup (vget (vpool l) cur) key).
