(* ===== verification/ValueListFacts.v ===== *)
(** The value list of the TandemIndex prototype as a sorted sequence of nodes:
    linked sequences in a pool, the invariant of the list, and the finite map
    it holds. *)

From S2P Require Import Prelude ValueList.

Local Open Scope Z_scope.

(** * Linked sequences *)

(** [R] between neighbours, [E] of the last. *)
Fixpoint linked (R : Z -> Z -> Prop) (E : Z -> Prop) (W : list Z) : Prop :=
  match W with
  | [] => True
  | a :: W' => match W' with [] => E a | b :: _ => R a b end /\ linked R E W'
  end.

Lemma linked_suffix R E l1 a l2 : linked R E (l1 ++ a :: l2) -> linked R E (a :: l2).
Proof. induction l1 as [|c l1 IH]; [done|]. intros [_ Hl]. by apply IH. Qed.

Lemma linked_next R E l1 a b l2 : linked R E (l1 ++ a :: b :: l2) -> R a b.
Proof. intros [HR _]%linked_suffix. done. Qed.

Lemma linked_last R E l1 a : linked R E (l1 ++ [a]) -> E a.
Proof. intros [HE _]%linked_suffix. done. Qed.

Lemma linked_mono R E R' E' W : linked R E W -> (forall a b, a ∈ W -> b ∈ W -> R a b -> R' a b) -> (forall a, a ∈ W -> E a -> E' a) -> linked R' E' W.
Proof.
  induction W as [|a W IH]; [done|]. intros [HR Hl] HRR HEE. split.
  - destruct W as [|b W]; [apply HEE; [by left|done]|]. apply HRR; [by left|by right; left|done].
  - apply IH; [done|intros; apply HRR; [by right|by right|done]|intros; apply HEE; [by right|done]].
Qed.

(** A new element behind [u]. *)
Lemma linked_insert R E R' E' l1 u n l2 : linked R E (l1 ++ u :: l2) ->
  (forall a b, a ∈ l1 -> b ∈ l1 ++ [u] -> R a b -> R' a b) -> R' u n ->
  match l2 with [] => E' n | b :: _ => R u b -> R' n b end ->
  (forall a b, a ∈ l2 -> b ∈ l2 -> R a b -> R' a b) -> (forall a, a ∈ l2 -> E a -> E' a) ->
  linked R' E' (l1 ++ u :: n :: l2).
Proof.
  intros Hl HR1 HRu HRn HR2 HE. induction l1 as [|c l1 IH].
  - cbn. split; [done|]. destruct Hl as [Hu Hl]. split.
    + destruct l2 as [|b l2]; [done|]. by apply HRn.
    + by eapply linked_mono.
  - destruct Hl as [Hc Hl]. split.
    + destruct l1 as [|d l1]; cbn in *; (apply HR1; [by left| |done]); [by right; left|by right; left].
    + apply IH; [done|]. intros a b Ha Hb. apply HR1; [by right|by right].
Qed.

Lemma elem_split (i : Z) W : i ∈ W -> exists l1 l2, W = l1 ++ i :: l2.
Proof. apply list_elem_of_split. Qed.

(** * The value list *)

Definition vkey (p : pool Vnode) (i : Z) : Z := v_key (vget p i).
Definition vval (p : pool Vnode) (i : Z) : Z := v_value (vget p i).

Definition vlinked (p : pool Vnode) : list Z -> Prop := linked (fun a b => v_next (vget p a) = b) (fun a => v_next (vget p a) = NO_ID).

Record vlist_ok (p : pool Vnode) (h : Z) (vs : list Z) : Prop := {
  vl_linked : vlinked p (h :: vs);
  vl_range : forall i, i ∈ h :: vs -> 0 <= i < p_cur p;
  vl_nodup : NoDup (h :: vs);
  vl_sorted : StronglySorted (fun a b => vkey p a < vkey p b) (h :: vs);
  vl_head : vkey p h = 0;
  vl_num : p_cur p <= p_num p;
}.

Lemma vget_set p i n j : vget (p_set p i n) j = if decide (j = i) then n else vget p j.
Proof.
  unfold vget, p_get, p_set. cbn. destruct (decide (j = i)) as [->|]; [by rewrite lookup_insert_eq|by rewrite lookup_insert_ne].
Qed.

Lemma at_in {N} (p : pool N) i : 0 <= i < p_num p -> p_at p i = Some i.
Proof. intros Hi. unfold p_at. by rewrite (proj2 (Z.leb_le 0 i)), (proj2 (Z.ltb_lt i _)) by lia. Qed.

Lemma at_none {N} (p : pool N) : p_at p NO_ID = None.
Proof. done. Qed.

Lemma pool_size (ids : list Z) n : NoDup ids -> (forall i, i ∈ ids -> 0 <= i < n) -> (length ids <= Z.to_nat n)%nat.
Proof.
  intros Hnd Hr. assert (length (Z.of_nat <$> seq 0 (Z.to_nat n)) = Z.to_nat n) as <- by (by rewrite length_fmap, length_seq).
  apply nodup_subset_length; [done|]. intros i Hi. apply list_elem_of_fmap. exists (Z.to_nat i). pose proof (Hr i Hi). split; [lia|].
  apply elem_of_seq. lia.
Qed.

Section vlist.
Context (p : pool Vnode) (h : Z) (vs : list Z) (VO : vlist_ok p h vs).

Lemma vl_fuel : (length (h :: vs) < pool_fuel p)%nat.
Proof.
  unfold pool_fuel. pose proof (pool_size (h :: vs) (p_num p) (vl_nodup _ _ _ VO)) as Hl.
  specialize (Hl ltac:(intros i Hi; pose proof (vl_range _ _ _ VO i Hi); pose proof (vl_num _ _ _ VO); lia)). lia.
Qed.

Lemma vl_next l1 a b l2 : h :: vs = l1 ++ a :: b :: l2 -> vl_getNext p a = Some b.
Proof.
  intros E. pose proof (vl_linked _ _ _ VO) as Hl. unfold vlinked in Hl. rewrite E in Hl. apply linked_next in Hl. unfold vl_getNext. rewrite Hl.
  apply at_in. assert (b ∈ h :: vs) as Hb by (rewrite E; set_solver). pose proof (vl_range _ _ _ VO b Hb). pose proof (vl_num _ _ _ VO). lia.
Qed.

Lemma vl_end l1 a : h :: vs = l1 ++ [a] -> vl_getNext p a = None.
Proof. intros E. pose proof (vl_linked _ _ _ VO) as Hl. unfold vlinked in Hl. rewrite E in Hl. apply linked_last in Hl. unfold vl_getNext. by rewrite Hl. Qed.

(** The first of what follows is above what is before. *)
Lemma vl_lt l1 a l2 b : h :: vs = l1 ++ a :: l2 -> b ∈ l2 -> vkey p a < vkey p b.
Proof.
  intros E Hb. pose proof (vl_sorted _ _ _ VO) as Hs. rewrite E in Hs. clear E. induction l1 as [|c l1 IH]; cbn in Hs; apply StronglySorted_inv in Hs as [Hs HF].
  - by eapply (proj1 (Forall_forall _ _) HF).
  - by apply IH.
Qed.

Lemma insert_pos_ok key fuel : forall l1 cur l2, h :: vs = l1 ++ cur :: l2 -> (length l2 < fuel)%nat -> vkey p cur < key ->
  exists m1 c m2, insert_pos fuel p cur key = Ok c /\ h :: vs = m1 ++ c :: m2 /\ vkey p c < key /\ (forall i, i ∈ m2 -> key <= vkey p i) /\ (length l1 <= length m1)%nat.
Proof.
  induction fuel as [|fuel IH]; intros l1 cur l2 E Hf Hk; [lia|]. cbn [insert_pos]. destruct l2 as [|b l2].
  - rewrite (vl_end _ _ E). exists l1, cur, []. split_and!; [done..|set_solver|lia].
  - rewrite (vl_next _ _ _ _ E). destruct (Z.ltb_spec (v_key (vget p b)) key) as [Hlt|Hge].
    + destruct (IH (l1 ++ [cur]) b l2) as (m1 & c & m2 & Er & E' & H1 & H2 & H3); [by rewrite <- app_assoc|cbn in Hf; lia|done|].
      exists m1, c, m2. split_and!; [done..|]. rewrite length_app in H3. lia.
    + exists l1, cur, (b :: l2). split_and!; [done|done|done| |lia]. intros i Hi. apply elem_of_cons in Hi as [->|Hi]; [done|].
      pose proof (vl_lt (l1 ++ [cur]) b l2 i ltac:(by rewrite <- app_assoc) Hi). unfold vkey in *. lia.
Qed.
End vlist.

(** * Insertion *)

Lemma vkey_link p c n i : vkey (link_after p c n) i = vkey p i.
Proof. unfold vkey, link_after. rewrite !vget_set. repeat (case_decide; subst; cbn); done. Qed.

Lemma vval_link p c n i : vval (link_after p c n) i = vval p i.
Proof. unfold vval, link_after. rewrite !vget_set. repeat (case_decide; subst; cbn); done. Qed.

Lemma vnext_link p c n i : n <> c -> v_next (vget (link_after p c n) i) = if decide (i = c) then n else if decide (i = n) then v_next (vget p c) else v_next (vget p i).
Proof. intros Hne. unfold link_after. rewrite !vget_set. repeat (case_decide; subst; cbn); done. Qed.

Lemma sorted_insert {A} (R : A -> A -> Prop) l1 a n l2 : Transitive R -> StronglySorted R (l1 ++ a :: l2) -> R a n -> (forall b, b ∈ l2 -> R n b) ->
  StronglySorted R (l1 ++ a :: n :: l2).
Proof.
  intros HT Hs Ha Hn. induction l1 as [|c l1 IH]; cbn in *; apply StronglySorted_inv in Hs as [Hs HF].
  - constructor; [constructor; [done|by apply Forall_forall]|]. by constructor.
  - constructor; [by apply IH|]. apply Forall_app in HF as [HF1 [HFa HF2]%Forall_cons]. apply Forall_app. split; [done|].
    apply Forall_cons. split; [done|]. apply Forall_cons. split; [by etrans|done].
Qed.

Lemma sorted_impl {A} (R R' : A -> A -> Prop) l : (forall a b, R a b -> R' a b) -> StronglySorted R l -> StronglySorted R' l.
Proof. intros HR. induction 1 as [|a l _ IH HF]; constructor; [done|]. eapply Forall_impl; [done|]. cbn. auto. Qed.

Lemma nodup_insert {A} (l1 : list A) a n l2 : NoDup (l1 ++ a :: l2) -> n ∉ l1 ++ a :: l2 -> NoDup (l1 ++ a :: n :: l2).
Proof.
  intros Hnd Hn. assert (l1 ++ a :: n :: l2 ≡ₚ n :: l1 ++ a :: l2) as -> by solve_Permutation. by constructor.
Qed.

Lemma split_head (h : Z) vs l1 c l2 n : h :: vs = l1 ++ c :: l2 -> exists vs', h :: vs' = l1 ++ c :: n :: l2.
Proof. destruct l1 as [|x l1]; intros [= -> ->]; eauto. Qed.

Lemma link_after_ok p h vs m1 c m2 n : vlist_ok p h vs -> h :: vs = m1 ++ c :: m2 -> n ∉ h :: vs -> 0 <= n < p_cur p ->
  vkey p c < vkey p n -> (forall i, i ∈ m2 -> vkey p n < vkey p i) ->
  exists vs', h :: vs' = m1 ++ c :: n :: m2 /\ vlist_ok (link_after p c n) h vs'.
Proof.
  intros VO E Hn Hr Hc Hm. destruct (split_head _ _ _ _ _ n E) as [vs' E']. exists vs'. split; [done|].
  assert (n <> c) as Hnc by (intros ->; apply Hn; rewrite E; set_solver).
  pose proof (vl_nodup _ _ _ VO) as Hnd. rewrite E in Hnd. apply NoDup_app in Hnd as (Hnd1 & Hdis & Hnd2). apply NoDup_cons in Hnd2 as [Hcm Hnd2].
  assert (forall a, a ∈ m1 \/ a ∈ m2 -> v_next (vget (link_after p c n) a) = v_next (vget p a)) as Hother.
  { intros a Ha. rewrite vnext_link by done. rewrite !decide_False; [done| |]; [intros ->; apply Hn; rewrite E; set_solver|]. intros ->. destruct Ha as [Ha|Ha]; [|done].
    apply (Hdis c Ha). by left. }
  split.
  - unfold vlinked. rewrite E'. pose proof (vl_linked _ _ _ VO) as Hl. unfold vlinked in Hl. rewrite E in Hl. eapply linked_insert; [apply Hl|..].
    + intros a b Ha _. by rewrite Hother by auto.
    + rewrite vnext_link by done. by rewrite decide_True.
    + assert (v_next (vget (link_after p c n) n) = v_next (vget p c)) as Hx by (rewrite vnext_link by done; by rewrite decide_False, decide_True).
      destruct m2 as [|b m2]; rewrite Hx; [by apply linked_last in Hl|done].
    + intros a b Ha _. by rewrite Hother by auto.
    + intros a Ha. by rewrite Hother by auto.
  - intros i Hi. rewrite E' in Hi. change (p_cur (link_after p c n)) with (p_cur p). destruct (decide (i = n)) as [->|Hin]; [done|].
    apply (vl_range _ _ _ VO). rewrite E. set_solver.
  - rewrite E'. apply nodup_insert; [rewrite <- E; apply VO|by rewrite <- E].
  - rewrite E'. eapply sorted_impl; [intros a b Hab; rewrite !vkey_link; apply Hab|]. apply sorted_insert; [intros x y z; lia| |done|done].
    rewrite <- E. apply VO.
  - rewrite vkey_link. apply VO.
  - apply VO.
Qed.

(** * The map a list holds *)

Definition vrep (p : pool Vnode) (vs : list Z) (m : gmap Z Z) : Prop := forall k v, m !! k = Some v <-> exists i, i ∈ vs /\ vkey p i = k /\ vval p i = v.

Lemma vrep_none p vs m k i : vrep p vs m -> m !! k = None -> i ∈ vs -> vkey p i <> k.
Proof. intros HR Hm Hi Hk. assert (m !! k = Some (vval p i)) as Hs by (apply HR; eauto). by rewrite Hm in Hs. Qed.

Lemma sorted_keys p p' W : (forall i, i ∈ W -> vkey p' i = vkey p i) -> StronglySorted (fun a b => vkey p a < vkey p b) W -> StronglySorted (fun a b => vkey p' a < vkey p' b) W.
Proof.
  intros Hk Hs. induction Hs as [|a W Hs IH HF]; constructor.
  - apply IH. intros i Hi. apply Hk. by right.
  - rewrite Forall_forall in HF |- *. intros b Hb. rewrite !Hk; [by apply HF|by right|by left].
Qed.

Lemma vlist_ok_frame p p' h vs : vlist_ok p h vs -> (forall i, i ∈ h :: vs -> vget p' i = vget p i) -> p_cur p <= p_cur p' <= p_num p' -> vlist_ok p' h vs.
Proof.
  intros VO Hsame Hcur. assert (forall i, i ∈ h :: vs -> vkey p' i = vkey p i) as Hk by (intros i Hi; unfold vkey; by rewrite Hsame).
  split; [| |apply VO| |rewrite Hk by left; apply VO|lia].
  - eapply linked_mono; [apply VO|..]; intros; by rewrite Hsame.
  - intros i Hi. pose proof (vl_range _ _ _ VO i Hi). lia.
  - apply (sorted_keys p p'); [done|apply VO].
Qed.

(** The node an insertion takes from the pool. *)
Definition with_node (p : pool Vnode) (k v : Z) : pool Vnode :=
  p_set (MkPool (p_nodes p) (p_num p) (p_cur p + 1)) (p_cur p) (set_vkey k v (vget (MkPool (p_nodes p) (p_num p) (p_cur p + 1)) (p_cur p))).

Section with_node.
Context (p : pool Vnode) (h : Z) (vs : list Z) (m : gmap Z Z) (VO : vlist_ok p h vs) (VR : vrep p vs m) (k v : Z) (Hroom : p_cur p < p_num p).

Lemma with_node_fresh : p_cur p ∉ h :: vs.
Proof. intros Hi%(vl_range _ _ _ VO). lia. Qed.

Lemma with_node_same i : i ∈ h :: vs -> vget (with_node p k v) i = vget p i.
Proof. intros Hi. unfold with_node. rewrite vget_set, decide_False; [done|]. intros ->. by apply with_node_fresh in Hi. Qed.

Lemma with_node_new : vkey (with_node p k v) (p_cur p) = k /\ vval (with_node p k v) (p_cur p) = v.
Proof. unfold vkey, vval, with_node. by rewrite vget_set, decide_True. Qed.

Lemma with_node_ok : vlist_ok (with_node p k v) h vs.
Proof. eapply vlist_ok_frame; [done|apply with_node_same|cbn; lia]. Qed.

(** The new node goes to its place, from a start below its key. *)
Lemma vl_insert_from_ok start : m !! k = None -> start ∈ h :: vs -> vkey p start < k ->
  exists c p2 vs', insert_pos (pool_fuel (with_node p k v)) (with_node p k v) start k = Ok c /\ p2 = link_after (with_node p k v) c (p_cur p) /\
    vlist_ok p2 h vs' /\ vrep p2 vs' (<[k := v]> m) /\ (forall i, i ∈ vs' <-> i = p_cur p \/ i ∈ vs) /\ (forall i, i ∈ h :: vs -> vkey p2 i = vkey p i) /\
    vkey p2 (p_cur p) = k.
Proof.
  intros Hm Hs Hk. destruct (list_elem_of_split _ _ Hs) as (l1 & l2 & E). pose proof with_node_ok as VO1. pose proof (vl_fuel _ _ _ VO1) as Hf.
  assert (forall i, i ∈ h :: vs -> vkey (with_node p k v) i = vkey p i) as Hkey by (intros i Hi; unfold vkey; by rewrite with_node_same).
  assert (forall i, i ∈ h :: vs -> vval (with_node p k v) i = vval p i) as Hval by (intros i Hi; unfold vval; by rewrite with_node_same).
  destruct (insert_pos_ok _ _ _ VO1 k (pool_fuel (with_node p k v)) l1 start l2) as (m1 & c & m2 & Er & E' & H1 & H2 & _); [done| |by rewrite Hkey|].
  { rewrite E, length_app in Hf. cbn in Hf. lia. }
  destruct with_node_new as [Hnk Hnv].
  assert (forall i, i ∈ m2 -> i ∈ vs) as Hm2.
  { intros i Hi. destruct m1 as [|x m1]; cbn in E'; injection E' as _ ->; set_solver. }
  destruct (link_after_ok _ _ _ m1 c m2 (p_cur p) VO1 E' with_node_fresh) as (vs' & E2 & VO2).
  { pose proof (vl_range _ _ _ VO h ltac:(by left)). cbn. lia. }
  { by rewrite Hnk. }
  { intros i Hi. rewrite Hnk. pose proof (H2 i Hi) as Hle. rewrite Hkey in Hle |- * by (right; by apply Hm2).
    pose proof (vrep_none _ _ _ _ _ VR Hm (Hm2 i Hi)). lia. }
  assert (forall i, i ∈ vs' <-> i = p_cur p \/ i ∈ vs) as Hvs.
  { intros i. destruct m1 as [|x m1]; cbn in E', E2; injection E' as -> ->; injection E2 as ->; set_solver. }
  eexists c, _, vs'. split; [done|]. split; [done|]. split; [done|]. split_and!; [|done|intros i Hi; by rewrite vkey_link, Hkey|by rewrite vkey_link].
  pose proof VR as HV. unfold vrep in HV. intros k' v'. rewrite lookup_insert_Some, HV. setoid_rewrite vkey_link. setoid_rewrite vval_link. split.
  - intros [[<- <-]|[Hne (i & Hi & <- & <-)]]; [exists (p_cur p); rewrite Hvs; auto|]. exists i. rewrite Hvs, Hkey, Hval by (by right). auto.
  - intros (i & Hi & <- & <-). apply Hvs in Hi as [->|Hi]; [left; by rewrite Hnk, Hnv|]. right. rewrite Hkey, Hval by (by right). split; [|by eauto].
    intros Heq. by apply (vrep_none _ _ _ _ _ VR Hm Hi).
Qed.
End with_node.

(** * The operations of the list *)

Record vlist_rep (l : ValueList) (m : gmap Z Z) : Prop := {
  vr_list : exists vs, vlist_ok (vpool l) (vhead l) vs /\ vrep (vpool l) vs m;
}.

Lemma vl_insert_map l m k v : vlist_rep l m -> m !! k = None -> 0 < k -> p_cur (vpool l) < p_num (vpool l) ->
  exists l', vl_insert l k v = Ok (true, l') /\ vlist_rep l' (<[k := v]> m).
Proof.
  intros [(vs & VO & VR)] Hm Hk Hroom. destruct (vl_insert_from_ok _ _ _ _ VO VR k v Hroom (vhead l) Hm) as (c & p2 & vs' & Er & -> & VO' & VR' & _); [by left|by rewrite (vl_head _ _ _ VO)|].
  unfold vl_insert, getNextNode. rewrite (proj2 (Z.leb_gt _ _)) by lia. fold (with_node (vpool l) k v). rewrite Er. cbn. eexists. split; [done|].
  constructor. by exists vs'.
Qed.

(** The walk to the first key that is not smaller. *)
Lemma seek_ok p h vs key fuel : vlist_ok p h vs -> forall l1 cur l2, h :: vs = l1 ++ cur :: l2 -> (length l2 < fuel)%nat -> (forall i, i ∈ l1 -> vkey p i < key) ->
  match seek fuel p cur key with
  | Ok c => exists m1 m2, h :: vs = m1 ++ c :: m2 /\ key <= vkey p c /\ forall i, i ∈ m1 -> vkey p i < key
  | Err e => e = NullDeref /\ forall i, i ∈ h :: vs -> vkey p i < key
  end.
Proof.
  intros VO. induction fuel as [|fuel IH]; intros l1 cur l2 E Hf Hlt; [lia|]. cbn [seek]. destruct (Z.ltb_spec (v_key (vget p cur)) key) as [Hc|Hc].
  - destruct l2 as [|b l2].
    + rewrite (vl_end _ _ _ VO _ _ E). cbn. split; [done|]. rewrite E. set_solver.
    + rewrite (vl_next _ _ _ VO _ _ _ _ E). cbn. apply (IH (l1 ++ [cur]) b l2); [by rewrite <- app_assoc|cbn in Hf; lia|set_solver].
  - exists l1, l2. split_and!; [done|done|done].
Qed.

Lemma seek_list l vs k : vlist_ok (vpool l) (vhead l) vs -> 0 < k ->
  match seek (pool_fuel (vpool l)) (vpool l) (vhead l) k with
  | Ok c => c ∈ vs /\ k <= vkey (vpool l) c /\ forall i, i ∈ vs -> vkey (vpool l) i = k -> i = c
  | Err e => e = NullDeref /\ forall i, i ∈ vs -> vkey (vpool l) i < k
  end.
Proof.
  intros VO Hk. pose proof (seek_ok (vpool l) (vhead l) vs k (pool_fuel (vpool l)) VO [] (vhead l) vs eq_refl) as Hs. pose proof (vl_fuel _ _ _ VO) as Hf.
  specialize (Hs ltac:(cbn in *; lia) ltac:(set_solver)). destruct seek as [c|e].
  - destruct Hs as (m1 & m2 & E & Hc & Hm1). pose proof (vl_head _ _ _ VO) as Hh.
    destruct m1 as [|x m1]; cbn in E; injection E as Eh E; [rewrite <- Eh in Hc; lia|]. split_and!; [rewrite E; set_solver|done|]. intros i Hi Hik. rewrite E in Hi.
    apply elem_of_app in Hi as [Hi|[->|Hi]%elem_of_cons]; [|done|].
    + assert (vkey (vpool l) i < k) by (apply Hm1; by right). lia.
    + pose proof (vl_lt _ _ _ VO (vhead l :: m1) c m2 i ltac:(by rewrite E) Hi) as Hlt. lia.
  - destruct Hs as [-> Hs]. split; [done|]. intros i Hi. apply Hs. by right.
Qed.

Lemma lookup_pos_ok p h vs key fuel : vlist_ok p h vs -> forall l1 cur l2, h :: vs = l1 ++ cur :: l2 -> (length l2 < fuel)%nat -> vkey p cur <= key ->
  exists m1 c m2, lookup_pos fuel p cur key = Ok c /\ h :: vs = m1 ++ c :: m2 /\ vkey p c <= key /\ (forall i, i ∈ m2 -> key < vkey p i).
Proof.
  intros VO. induction fuel as [|fuel IH]; intros l1 cur l2 E Hf Hc; [lia|]. cbn [lookup_pos]. destruct l2 as [|b l2].
  - rewrite (vl_end _ _ _ VO _ _ E). exists l1, cur, []. split_and!; [done..|set_solver].
  - rewrite (vl_next _ _ _ VO _ _ _ _ E). destruct (Z.leb_spec (v_key (vget p b)) key) as [Hle|Hgt].
    + destruct (IH (l1 ++ [cur]) b l2) as (m1 & c & m2 & Er & E' & Hm2); [by rewrite <- app_assoc|cbn in Hf; lia|done|].
      by exists m1, c, m2.
    + exists l1, cur, (b :: l2). split_and!; [done|done|done|]. intros i Hi. apply elem_of_cons in Hi as [->|Hi]; [done|].
      pose proof (vl_lt _ _ _ VO (l1 ++ [cur]) b l2 i ltac:(by rewrite <- app_assoc) Hi). unfold vkey in *. lia.
Qed.

(** A key between what is before and behind [c] is the key of [c]. *)
Lemma vl_unique p h vs k m1 c m2 i : vlist_ok p h vs -> h :: vs = m1 ++ c :: m2 -> vkey p c <= k -> (forall i, i ∈ m2 -> k < vkey p i) -> i ∈ vs -> vkey p i = k -> i = c.
Proof.
  intros VO E Hc Hm2 Hi Hik. assert (i ∈ m1 ++ c :: m2) as [Hi2|[->|Hi2]%elem_of_cons]%elem_of_app by (rewrite <- E; by right); [|done|apply Hm2 in Hi2; lia].
  apply list_elem_of_split in Hi2 as (a1 & a2 & ->). rewrite <- app_assoc in E. pose proof (vl_lt _ _ _ VO a1 i (a2 ++ c :: m2) c E ltac:(set_solver)). lia.
Qed.

Lemma vl_lookup_map l m k : vlist_rep l m -> 0 < k -> vl_lookup l k = Ok (match m !! k with Some v => to_i32 v | None => -1 end).
Proof.
  intros [(vs & VO & VR)] Hk. pose proof (vl_fuel _ _ _ VO) as Hf. pose proof (vl_head _ _ _ VO) as Hh.
  destruct (lookup_pos_ok _ _ _ k (pool_fuel (vpool l)) VO [] (vhead l) vs eq_refl) as (m1 & c & m2 & Er & E & Hc & Hm2); [cbn in *; lia|lia|].
  unfold vl_lookup. rewrite Er. cbn. f_equal. unfold vnode_lookup. destruct (m !! k) as [v|] eqn:Hm.
  - apply VR in Hm as (i & Hi & Hik & Hv). assert (i = c) as -> by (by eapply vl_unique). fold (vkey (vpool l) c). rewrite Hik, Z.eqb_refl. by rewrite <- Hv.
  - destruct (Z.eqb_spec (v_key (vget (vpool l) c)) k) as [Hck|]; [|done]. assert (c ∈ vs) as Hcv.
    { destruct m1 as [|x m1]; injection E as Eh E; [rewrite Eh in Hh; unfold vkey in Hh; lia|]. rewrite E. set_solver. }
    by destruct (vrep_none _ _ _ _ _ VR Hm Hcv).
Qed.

(** Updates that leave the keys and the links of the list. *)
Lemma vlist_ok_values p p' h vs : vlist_ok p h vs -> (forall i, i ∈ h :: vs -> vkey p' i = vkey p i /\ v_next (vget p' i) = v_next (vget p i)) ->
  p_cur p' = p_cur p -> p_num p' = p_num p -> vlist_ok p' h vs.
Proof.
  intros VO Hsame Hc Hn. split; [| |apply VO| |rewrite (proj1 (Hsame h ltac:(by left))); apply VO|rewrite Hc, Hn; apply VO].
  - eapply linked_mono; [apply VO|intros a b Ha _|intros a Ha]; by rewrite (proj2 (Hsame a Ha)).
  - rewrite Hc. apply VO.
  - apply (sorted_keys p p'); [intros i Hi; by apply Hsame|apply VO].
Qed.

Lemma vl_update_map l m k v : vlist_rep l m -> 0 < k ->
  match vl_update l k v with
  | Ok (r, l') => r = bool_decide (is_Some (m !! k)) /\ vlist_rep l' (if r then <[k := v]> m else m) /\ exists k' v', m !! k' = Some v' /\ k <= k'
  | Err e => e = NullDeref /\ m !! k = None /\ forall k' v', m !! k' = Some v' -> k' < k
  end.
Proof.
  intros [(vs & VO & VR)] Hk. pose proof (seek_list l vs k VO Hk) as Hs. unfold vl_update. pose proof VR as HV. unfold vrep in HV. destruct seek as [c|e]; cbn.
  - destruct Hs as (Hc & Hkc & Huniq). assert (exists k' v', m !! k' = Some v' /\ k <= k') as Hex by (eexists _, _; split; [apply HV; eauto|done]). unfold vnode_update. destruct (Z.eqb_spec (v_key (vget (vpool l) c)) k) as [He|He].
    + assert (m !! k = Some (vval (vpool l) c)) as Hm by (apply HV; eauto). rewrite bool_decide_true by eauto. split_and!; [done| |done]. constructor. exists vs. cbn.
      assert (forall i, vkey (p_set (vpool l) c (MkVnode (v_key (vget (vpool l) c)) v (v_next (vget (vpool l) c)))) i = vkey (vpool l) i) as Hkey.
      { intros i. unfold vkey. rewrite vget_set. by case_decide; subst. }
      split; [eapply vlist_ok_values; [done| |done|done]; intros i _; split; [done|]; rewrite vget_set; by case_decide; subst|].
      intros k' v'. setoid_rewrite Hkey. rewrite lookup_insert_Some, HV. unfold vval. setoid_rewrite vget_set. split.
      * intros [[<- <-]|[Hne (i & Hi & <- & <-)]]; [exists c; by rewrite decide_True|]. exists i. rewrite decide_False; [done|]. intros ->. by apply Hne.
      * intros (i & Hi & <- & Hv). case_decide as Hic; [subst i v'; by left|]. right. split; [|by eauto]. intros Heq. by apply Hic, Huniq.
    + rewrite bool_decide_false. 2:{ intros [v' (i & Hi & Hik & _)%HV]. assert (i = c) as -> by (by apply Huniq). done. }
      split_and!; [done| |done]. constructor. exists vs. cbn. assert (forall i, vget (p_set (vpool l) c (vget (vpool l) c)) i = vget (vpool l) i) as Hget by (intros i; rewrite vget_set; by case_decide; subst).
      split; [eapply vlist_ok_frame; [done|intros i _; apply Hget|split; [done|apply VO]]|]. intros k' v'. unfold vkey, vval. setoid_rewrite Hget. apply HV.
  - destruct Hs as [-> Hs]. split_and!; [done| |].
    + destruct (m !! k) as [w|] eqn:Hm; [|done]. apply HV in Hm as (i & Hi & Hik & _). apply Hs in Hi. lia.
    + intros k' v' (i & Hi & <- & _)%HV. by apply Hs.
Qed.

Definition empty_list (num : Z) : ValueList := MkValueList (MkPool {[0 := MkVnode 0 0 NO_ID]} num 1) 0.

Lemma new_ValueList_ok num : 1 <= num -> new_ValueList num = Ok (empty_list num) /\ vlist_rep (empty_list num) ∅.
Proof.
  intros Hn. unfold new_ValueList, getNextNode. cbn [p_num p_cur]. rewrite (proj2 (Z.leb_gt _ _)) by lia. split; [done|]. constructor. exists [].
  split; [|intros k v; split; [done|intros (i & Hi & _); set_solver]].
  split; cbn; [done|intros i ->%list_elem_of_singleton; lia|apply NoDup_singleton|repeat constructor|done|lia].
Qed.
