(* ===== verification/Skiplist.v ===== *)
(** The index of the TandemIndex prototype
    ([src/Prototype/src/dramSkiplist.cpp], [include/dramSkiplist.h],
    [include/dramInodePool.h], [include/node.h]): a skip list of index nodes,
    each with a range of keys; on the lowest level a node leads to the first
    value node of its range.

    [rand() < RAND_MAX / 2] is a stream of coins, a parameter; the position in
    it is part of the state. *)

From S2P Require Import Prelude ValueList.

Local Open Scope Z_scope.

Definition MAX_LEVEL : nat := 16.
Definition SEARCH_STABLITY_COEFFICIENT : Z := 10.
Definition KEY_MAX : Z := 2 ^ 64 - 1.

Record Inode := MkInode { i_min : Z; i_max : Z; i_next : Z; i_down : Z; i_covered : Z }.

(** [Inode(i, 0, 0)] *)
Definition fresh_inode : Inode := MkInode 0 0 0 (-1) 0.
Definition iget (p : pool Inode) (i : Z) : Inode := p_get fresh_inode p i.

Definition set_min (k : Z) (n : Inode) : Inode := MkInode k (i_max n) (i_next n) (i_down n) (i_covered n).
Definition set_max (k : Z) (n : Inode) : Inode := MkInode (i_min n) k (i_next n) (i_down n) (i_covered n).
Definition set_inext (i : Z) (n : Inode) : Inode := MkInode (i_min n) (i_max n) i (i_down n) (i_covered n).
Definition set_down (i : Z) (n : Inode) : Inode := MkInode (i_min n) (i_max n) (i_next n) i (i_covered n).
Definition set_covered (c : Z) (n : Inode) : Inode := MkInode (i_min n) (i_max n) (i_next n) (i_down n) c.

Definition upd (p : pool Inode) (i : Z) (f : Inode -> Inode) : pool Inode := p_set p i (f (iget p i)).

Record Skiplist := MkSkiplist { ipool : pool Inode; header : list Z; tail : list Z; sl_level : nat; sl_rand : nat }.

Definition set_ipool (p : pool Inode) (s : Skiplist) : Skiplist := MkSkiplist p (header s) (tail s) (sl_level s) (sl_rand s).

Definition head_at (s : Skiplist) (l : nat) : res Z := of_option OutOfRange (header s !! l).
Definition tail_at (s : Skiplist) (l : nat) : res Z := of_option OutOfRange (tail s !! l).

Definition next_inode (p : pool Inode) : res (Z * pool Inode) := let '(o, p') := getNextNode p in i ← deref o; Ok (i, p').

(** * Construction *)

(** A column of nodes from the top level down, each set up by [f]; the result
    is from level 0 up.  [above]: the node of the level above. *)
Fixpoint column (n : nat) (p : pool Inode) (above : option Z) (f : nat -> Inode -> Inode) (acc : list Z) : res (list Z * pool Inode) :=
  match n with
  | O => Ok (acc, p)
  | S n' =>
      '(i, p1) ← next_inode p;
      let p2 := match above with Some a => upd p1 a (set_down i) | None => p1 end in
      column n' (upd p2 i (f n')) (Some i) f (i :: acc)
  end.

(** The top header keeps its [next], the top tail its keys, as the
    constructor of the pool left them. *)
Definition header_node (l : nat) (n : Inode) : Inode :=
  let n1 := set_max 0 (set_min 0 n) in if (S l =? MAX_LEVEL)%nat then n1 else set_inext NO_ID n1.
Definition tail_node (l : nat) (n : Inode) : Inode :=
  if (S l =? MAX_LEVEL)%nat then n else set_inext NO_ID (set_max KEY_MAX (set_min KEY_MAX n)).

Definition link_tails (p : pool Inode) (hs ts : list Z) : pool Inode :=
  foldl (fun p ht => upd p ht.1 (set_inext ht.2)) p (zip hs ts).

Definition new_Skiplist (num : Z) : res Skiplist :=
  '(hs, p1) ← column MAX_LEVEL (MkPool ∅ num 0) None header_node [];
  '(ts, p2) ← column MAX_LEVEL p1 None tail_node [];
  Ok (MkSkiplist (link_tails p2 hs ts) hs ts 1 0).

Section coins.
Variable coin : nat -> bool.

(** [generateRandomLevel]: the level and the coins used. *)
Fixpoint random_level (fuel pos level : nat) : nat * nat :=
  match fuel with
  | O => (level, pos)
  | S fuel' =>
      if coin pos then if (level <? MAX_LEVEL)%nat then random_level fuel' (S pos) (S level) else (level, S pos) else (level, S pos)
  end.

Definition generateRandomLevel (s : Skiplist) : nat * Skiplist :=
  let '(l, pos) := random_level MAX_LEVEL (sl_rand s) 1 in (l, MkSkiplist (ipool s) (header s) (tail s) (sl_level s) pos).

(** * Insertion *)

Definition new_index_node (key : Z) (l : nat) (n : Inode) : Inode := set_inext NO_ID (set_max key (set_min key n)).

Definition linkVnodeToInode (p : pool Inode) (inode vnode : Z) : bool * pool Inode :=
  if i_down (iget p inode) =? -1 then (true, upd (upd p inode (set_down vnode)) inode (fun n => set_covered (i_covered n + 1) n)) else (false, p).

(** The new node of a level goes behind the header. *)
Definition link_front (p : pool Inode) (h new key : Z) : res (pool Inode) :=
  next ← deref (p_at p (i_next (iget p h)));
  let p1 := upd p new (set_inext (i_next (iget p h))) in
  let p2 := upd p1 h (set_inext new) in
  Ok (upd (upd p2 new (set_min key)) new (set_max (i_min (iget p2 next)))).

Fixpoint link_fronts (p : pool Inode) (hs news : list Z) (key : Z) : res (pool Inode) :=
  match hs, news with
  | h :: hs', new :: news' => p1 ← link_front p h new key; link_fronts p1 hs' news' key
  | _, _ => Ok p
  end.

(** [insert]; the levels are linked from the top down. *)
Definition sk_insert (s : Skiplist) (key vnode : Z) : res (bool * Skiplist) :=
  let '(newlevel, s1) := generateRandomLevel s in
  '(inodes, p1) ← column newlevel (ipool s1) None (new_index_node key) [];
  i0 ← of_option OutOfRange (inodes !! 0%nat);
  match linkVnodeToInode p1 i0 vnode with
  | (false, p2) => Ok (false, set_ipool p2 s1)
  | (true, p2) =>
      p3 ← link_fronts p2 (rev (take newlevel (header s1))) (rev inodes) key;
      Ok (true, set_ipool p3 s1)
  end.

(** A level of [getPivotNodesForInsert] *)
Fixpoint pivot_walk (fuel : nat) (p : pool Inode) (tl key cur : Z) : res Z :=
  match fuel with
  | O => Err NoReturn
  | S fuel' =>
      if negb (i_next (iget p cur) =? tl) && (i_max (iget p cur) <? key)
      then next ← deref (p_at p (i_next (iget p cur))); pivot_walk fuel' p tl key next
      else Ok cur
  end.

(** From level [l - 1] down; the pivots from level 0 up.  The pointer that is
    followed below level 0 is not used. *)
Fixpoint getPivotNodesForInsert (l : nat) (s : Skiplist) (key : Z) (cur : option Z) (acc : list Z) : res (list Z) :=
  match l with
  | O => Ok acc
  | S l' =>
      c ← deref cur;
      tl ← tail_at s l';
      u ← pivot_walk (pool_fuel (ipool s)) (ipool s) tl key c;
      getPivotNodesForInsert l' s key (p_at (ipool s) (i_down (iget (ipool s) u))) (u :: acc)
  end.

(** The new node of a level goes behind its pivot. *)
Definition link_pivot (p : pool Inode) (u new key : Z) : res (pool Inode) :=
  p1 ← (if i_max (iget p u) =? 0 then
          next ← deref (p_at p (i_next (iget p u)));
          Ok (upd (upd p new (set_min key)) new (set_max (i_min (iget p next))))
        else
          let p1 := upd p new (set_max (i_max (iget p u))) in
          Ok (upd (upd p1 u (set_max key)) new (set_min key)));
  let p2 := upd p1 new (set_inext (i_next (iget p1 u))) in
  Ok (upd p2 u (set_inext new)).

Fixpoint link_pivots (p : pool Inode) (us news : list Z) (key : Z) : res (pool Inode) :=
  match us, news with
  | u :: us', new :: news' => p1 ← link_pivot p u new key; link_pivots p1 us' news' key
  | _, _ => Ok p
  end.

Definition insertWhenRebalance (s : Skiplist) (key vnode count : Z) : res Skiplist :=
  let '(newlevel, s1) := generateRandomLevel s in
  '(inodes, p1) ← column newlevel (ipool s1) None (new_index_node key) [];
  i0 ← of_option OutOfRange (inodes !! 0%nat);
  let '(_, p2) := linkVnodeToInode p1 i0 vnode in
  let s2 := set_ipool p2 s1 in
  h ← head_at s2 (pred (sl_level s2));
  pivots ← getPivotNodesForInsert (sl_level s2) s2 key (Some h) [];
  let updates := pivots ++ drop (sl_level s2) (take newlevel (header s2)) in
  let level' := Nat.max (sl_level s2) newlevel in
  p3 ← link_pivots p2 (rev (take newlevel updates)) (rev inodes) key;
  u0 ← of_option OutOfRange (updates !! 0%nat);
  let p4 := upd p3 i0 (set_covered (i_covered (iget p3 u0) - count)) in
  let p5 := upd p4 u0 (set_covered count) in
  Ok (MkSkiplist p5 (header s2) (tail s2) level' (sl_rand s2)).
End coins.

(** * Lookup *)

(** A level; the result has the node before, when the walk has moved. *)
Fixpoint lookup_walk (fuel : nat) (p : pool Inode) (tl key cur : Z) (prev : option Z) : res (Z * option Z) :=
  match fuel with
  | O => Err NoReturn
  | S fuel' =>
      if negb (i_next (iget p cur) =? tl) && (i_max (iget p cur) <? key)
      then next ← deref (p_at p (i_next (iget p cur))); lookup_walk fuel' p tl key next (Some cur)
      else Ok (cur, prev)
  end.

Fixpoint lookup_levels (l : nat) (s : Skiplist) (key cur : Z) : res Z :=
  match l with
  | O => Ok cur
  | S l' =>
      tl ← tail_at s l';
      '(c, prev) ← lookup_walk (pool_fuel (ipool s)) (ipool s) tl key cur None;
      let c' := match prev with Some q => if key <? i_min (iget (ipool s) c) then q else c | None => c end in
      match l' with
      | O => Ok c'
      | S _ => d ← deref (p_at (ipool s) (i_down (iget (ipool s) c'))); lookup_levels l' s key d
      end
  end.

(** [None]: the null pointer. *)
Definition sk_lookup (s : Skiplist) (key : Z) : res (option Z) :=
  h ← head_at s (pred (sl_level s));
  c ← lookup_levels (sl_level s) s key h;
  Ok (if i_min (iget (ipool s) c) =? 0 then None else Some c).

Definition increaseCoveredNodesAndVerifyRebalance (p : pool Inode) (i : Z) : bool * pool Inode :=
  let c := i_covered (iget p i) + 1 in (SEARCH_STABLITY_COEFFICIENT <? c, upd p i (set_covered c)).
