(* ===== verification/SkiplistFacts.v ===== *)
(** The skip list of the TandemIndex prototype: the invariant of a level, the
    walks along it, and what linking a node does to it.

    On a level the nodes follow each other from the header to the tail, the
    upper bound of a node being the lower bound of the next one.  The lower
    bounds need not ascend: an upper level may take a new node behind a node
    with a larger lower bound. *)

From S2P Require Import Prelude ValueList ValueListFacts Skiplist.

Local Open Scope Z_scope.

Lemma iget_upd p i f j : iget (upd p i f) j = if decide (j = i) then f (iget p i) else iget p j.
Proof.
  unfold upd, iget, p_get, p_set. cbn. destruct (decide (j = i)) as [->|]; [by rewrite lookup_insert_eq|by rewrite lookup_insert_ne].
Qed.

(** * A level *)

Definition ilinked (p : pool Inode) (h t : Z) : list Z -> Prop :=
  linked (fun a b => i_next (iget p a) = b /\ (a <> h -> i_max (iget p a) = i_min (iget p b))) (fun a => i_next (iget p a) = t).

(** [lab]: the level a node is on. *)
Record lev_ok (lab : Z -> nat) (p : pool Inode) (l : nat) (h t : Z) (L : list Z) : Prop := {
  lv_nodup : NoDup (h :: L);
  lv_lab : forall i, i ∈ h :: L -> 0 <= i < p_cur p /\ lab i = l;
  lv_tail : 0 <= t < p_cur p /\ lab t = l /\ t ∉ h :: L /\ 0 < i_min (iget p t);
  lv_head : i_min (iget p h) = 0 /\ i_max (iget p h) = 0;
  lv_pos : forall i, i ∈ L -> 0 < i_min (iget p i) /\ 0 < i_max (iget p i);
  lv_linked : ilinked p h t (h :: L);
}.

Definition core (n : Inode) : Z * Z * Z := (i_min n, i_max n, i_next n).

Lemma lev_ok_frame lab lab' p p' l h t L : lev_ok lab p l h t L -> (forall i, 0 <= i < p_cur p -> lab i = l -> lab' i = l /\ core (iget p' i) = core (iget p i)) ->
  p_cur p <= p_cur p' -> lev_ok lab' p' l h t L.
Proof.
  intros [Hnd Hlab (Ht1 & Ht2 & Ht3 & Ht4) Hh Hpos Hl] Hsame Hcur.
  assert (forall i, i ∈ t :: h :: L -> lab' i = l /\ i_min (iget p' i) = i_min (iget p i) /\ i_max (iget p' i) = i_max (iget p i) /\ i_next (iget p' i) = i_next (iget p i)) as HS.
  { intros i Hi. destruct (Hsame i) as [Hlb Hc]; [..|by injection Hc as -> -> ->]; apply elem_of_cons in Hi as [->|Hi]; try done; by apply Hlab. }
  split; [done| | | | |].
  - intros i Hi. destruct (Hlab i Hi). split; [lia|]. apply HS. by right.
  - destruct (HS t ltac:(by left)) as (? & -> & _). split_and!; [lia|lia|done..].
  - destruct (HS h ltac:(by right; left)) as (_ & -> & -> & _). done.
  - intros i Hi. destruct (HS i ltac:(by right; right)) as (_ & -> & -> & _). by apply Hpos.
  - eapply linked_mono; [apply Hl|intros a b Ha Hb [Hn Hm]|intros a Ha Hn].
    + destruct (HS a ltac:(by right)) as (_ & _ & -> & ->), (HS b ltac:(by right)) as (_ & -> & _). done.
    + by destruct (HS a ltac:(by right)) as (_ & _ & _ & ->).
Qed.

Section level.
Context (lab : Z -> nat) (p : pool Inode) (l : nat) (h t : Z) (L : list Z) (LO : lev_ok lab p l h t L) (Hnum : p_cur p <= p_num p).

Lemma lv_next l1 a b l2 : h :: L = l1 ++ a :: b :: l2 -> i_next (iget p a) = b /\ p_at p b = Some b /\ b <> t.
Proof.
  intros E. pose proof (lv_linked _ _ _ _ _ _ LO) as Hl. rewrite E in Hl. unfold ilinked in Hl. apply linked_next in Hl as [Hl _]. split; [done|].
  assert (b ∈ h :: L) as Hb by (rewrite E; set_solver). destruct (lv_lab _ _ _ _ _ _ LO b Hb). split; [apply at_in; lia|]. intros ->. by apply (lv_tail _ _ _ _ _ _ LO).
Qed.

Lemma lv_max l1 a b l2 : h :: L = l1 ++ a :: b :: l2 -> a <> h -> i_max (iget p a) = i_min (iget p b).
Proof. intros E. pose proof (lv_linked _ _ _ _ _ _ LO) as Hl. rewrite E in Hl. unfold ilinked in Hl. apply linked_next in Hl as [_ Hl]. done. Qed.

Lemma lv_end l1 a : h :: L = l1 ++ [a] -> i_next (iget p a) = t.
Proof. intros E. pose proof (lv_linked _ _ _ _ _ _ LO) as Hl. rewrite E in Hl. unfold ilinked in Hl. by apply linked_last in Hl. Qed.

Lemma lv_fuel : (length (h :: L) < pool_fuel p)%nat.
Proof.
  unfold pool_fuel. pose proof (pool_size (h :: L) (p_num p) (lv_nodup _ _ _ _ _ _ LO)) as Hl.
  specialize (Hl ltac:(intros i Hi; destruct (lv_lab _ _ _ _ _ _ LO i Hi); lia)). lia.
Qed.

(** Where the walk stops. *)
Lemma lookup_walk_ok key fuel : forall l1 cur l2 prev, h :: L = l1 ++ cur :: l2 -> (length l2 < fuel)%nat ->
  exists m1 c m2 prev', lookup_walk fuel p t key cur prev = Ok (c, prev') /\ h :: L = m1 ++ c :: m2 /\ (m2 = [] \/ key <= i_max (iget p c)) /\
    (c = cur /\ prev' = prev /\ m1 = l1 \/ exists a1 q, m1 = a1 ++ [q] /\ prev' = Some q /\ i_max (iget p q) < key /\ (length l1 <= length a1)%nat).
Proof.
  induction fuel as [|fuel IH]; intros l1 cur l2 prev E Hf; [lia|]. cbn [lookup_walk]. destruct l2 as [|b l2].
  - rewrite (lv_end _ _ E), Z.eqb_refl. cbn. exists l1, cur, [], prev. eauto 10.
  - destruct (lv_next _ _ _ _ E) as (-> & Hat & Hbt). rewrite (proj2 (Z.eqb_neq b t)) by done. cbn. destruct (Z.ltb_spec (i_max (iget p cur)) key) as [Hlt|Hge].
    + rewrite Hat. cbn. destruct (IH (l1 ++ [cur]) b l2 (Some cur)) as (m1 & c & m2 & prev' & Er & E' & Hstop & Hprev); [by rewrite <- app_assoc|cbn in Hf; lia|].
      exists m1, c, m2, prev'. split_and!; [done..|]. right. destruct Hprev as [(-> & -> & ->)|(a1 & q & -> & -> & Hq & Hlen)]; [by exists l1, cur|].
      exists a1, q. split_and!; [done..|]. rewrite length_app in Hlen. lia.
    + exists l1, cur, (b :: l2), prev. split_and!; [done|done|by right|]. by left.
Qed.
End level.

Lemma pivot_walk_lookup p t key fuel : forall cur prev c prev', lookup_walk fuel p t key cur prev = Ok (c, prev') -> pivot_walk fuel p t key cur = Ok c.
Proof.
  induction fuel as [|fuel IH]; intros cur prev c prev' E; [done|]. cbn in *. destruct (_ && _); [|congruence]. destruct (p_at p _) as [n|]; [|done]. cbn in *. by eapply IH.
Qed.

(** * Linking a node *)

Lemma link_pivot_eq p u new key : new <> u -> (i_max (iget p u) = 0 -> p_at p (i_next (iget p u)) = Some (i_next (iget p u))) ->
  exists p', link_pivot p u new key = Ok p' /\ p_cur p' = p_cur p /\ p_num p' = p_num p /\
    forall i, iget p' i =
      if decide (i = u) then set_inext new (if i_max (iget p u) =? 0 then iget p u else set_max key (iget p u))
      else if decide (i = new) then
        set_inext (i_next (iget p u)) (set_max (if i_max (iget p u) =? 0 then i_min (iget p (i_next (iget p u))) else i_max (iget p u)) (set_min key (iget p new)))
      else iget p i.
Proof.
  intros Hne Hat. unfold link_pivot. destruct (Z.eqb_spec (i_max (iget p u)) 0) as [H0|H0].
  - rewrite Hat by done. cbn. eexists. split_and!; [done..|]. intros i. rewrite !iget_upd. repeat (case_decide; subst; try done).
  - cbn. eexists. split_and!; [done..|]. intros i. rewrite !iget_upd. repeat (case_decide; subst; try done).
Qed.

Lemma pool_eq {N} (p p' : pool N) : p_nodes p = p_nodes p' -> p_num p = p_num p' -> p_cur p = p_cur p' -> p = p'.
Proof. destruct p, p'. cbn. congruence. Qed.

Lemma upd_nodes p i f : p_nodes (upd p i f) = <[i := f (iget p i)]> (p_nodes p).
Proof. done. Qed.

(** Behind the header both insertions do the same. *)
Lemma link_front_pivot p h new key : new <> h -> i_max (iget p h) = 0 -> i_next (iget p h) <> new -> i_next (iget p h) <> h -> link_front p h new key = link_pivot p h new key.
Proof.
  intros Hne H0 Hn Hh. unfold link_front, link_pivot. rewrite H0. cbn. destruct (p_at p (i_next (iget p h))) as [nx|] eqn:Hat; [|done]. cbn.
  assert (nx = i_next (iget p h)) as -> by (unfold p_at in Hat; destruct (_ && _); congruence). f_equal.
  apply pool_eq; [|done|done]. rewrite !upd_nodes. apply map_eq. intros i. rewrite !lookup_insert, !iget_upd. repeat (case_decide; subst; try done).
Qed.

Section link.
Context (lab : Z -> nat) (p : pool Inode) (l : nat) (h t : Z) (L : list Z) (LO : lev_ok lab p l h t L) (Hnum : p_cur p <= p_num p).

(** The node behind [u] is in the pool, with a positive lower bound. *)
Lemma lv_succ l1 u l2 : h :: L = l1 ++ u :: l2 ->
  p_at p (i_next (iget p u)) = Some (i_next (iget p u)) /\ 0 < i_min (iget p (i_next (iget p u))) /\ i_next (iget p u) ∈ t :: L /\ i_next (iget p u) <> u.
Proof.
  intros E. destruct (lv_tail _ _ _ _ _ _ LO) as (Htr & _ & Hth & Htm). destruct l2 as [|b l2].
  - rewrite (lv_end _ _ _ _ _ _ LO _ _ E). split_and!; [apply at_in; lia|done|by left|]. intros ->. apply Hth. rewrite E. set_solver.
  - destruct (lv_next _ _ _ _ _ _ LO Hnum _ _ _ _ E) as (-> & Hat & _). assert (b ∈ L) as Hb by (destruct l1; injection E as -> ->; set_solver).
    split_and!; [done|by apply LO|by right|]. intros ->. pose proof (lv_nodup _ _ _ _ _ _ LO) as Hnd. rewrite E in Hnd. apply NoDup_app in Hnd as (_ & _ & Hnd).
    apply NoDup_cons in Hnd as [Hnd _]. apply Hnd. by left.
Qed.

Lemma link_level l1 u l2 new key : h :: L = l1 ++ u :: l2 -> new ∉ t :: h :: L -> 0 <= new < p_cur p -> lab new = l -> 0 < key ->
  exists p' L', link_pivot p u new key = Ok p' /\ h :: L' = l1 ++ u :: new :: l2 /\ lev_ok lab p' l h t L' /\ p_cur p' = p_cur p /\ p_num p' = p_num p /\
    (forall i, i <> u -> i <> new -> iget p' i = iget p i) /\ (forall i, i_down (iget p' i) = i_down (iget p i) /\ i_covered (iget p' i) = i_covered (iget p i)) /\
    (forall i, i <> new -> i_min (iget p' i) = i_min (iget p i)) /\ i_min (iget p' new) = key.
Proof.
  intros E Hnew Hr Hlab Hkey. destruct (lv_succ _ _ _ E) as (Hat & Hsm & _ & _). assert (u ∈ h :: L) as Hu by (rewrite E; set_solver).
  assert (new <> u) as Hnu by (intros ->; apply Hnew; by right). destruct (link_pivot_eq p u new key Hnu ltac:(done)) as (p' & Er & Hc & Hn & Hget).
  destruct (split_head _ _ _ _ _ new E) as [L' E']. exists p', L'. split; [done|]. split; [done|].
  assert (forall i, i <> u -> i <> new -> iget p' i = iget p i) as Hoth by (intros i Hiu Hin; by rewrite Hget, !decide_False).
  assert (forall i, i <> new -> i_min (iget p' i) = i_min (iget p i)) as Hmin.
  { intros i Hin. rewrite Hget. case_decide; [subst; by case_match|]. by rewrite decide_False. }
  assert (i_min (iget p' new) = key) as Hmin'. { rewrite Hget, decide_False, decide_True; done. }
  split_and!; [|done|done|done| |done|done].
  2:{ intros i. rewrite Hget. repeat case_decide; subst; try case_match; done. }
  pose proof (lv_nodup _ _ _ _ _ _ LO) as Hnd. pose proof Hnd as Hnd'. rewrite E in Hnd'. apply NoDup_app in Hnd' as (_ & Hdis & [Hul2 _]%NoDup_cons).
  assert (forall i, i ∈ L' <-> i = new \/ i ∈ L) as HL'. { intros i. destruct l1; injection E as -> ->; injection E' as ->; set_solver. }
  assert (forall a, a ∈ l1 \/ a ∈ l2 -> iget p' a = iget p a) as Hin.
  { intros a Ha. apply Hoth; [|intros ->; apply Hnew; right; rewrite E; set_solver]. intros ->. destruct Ha as [Ha|Ha]; [|done]. apply (Hdis u Ha). by left. }
  destruct (lv_tail _ _ _ _ _ _ LO) as (Htr & Htl & Hth & Htm). assert (new <> h) as Hnh by (intros ->; apply Hnew; by right; left).
  split.
  - rewrite E'. apply nodup_insert; rewrite <- E; [done|]. set_solver.
  - intros i Hi. rewrite Hc. destruct (decide (i = new)) as [->|Hne]; [done|]. apply LO. apply elem_of_cons in Hi as [->|[?|Hi]%HL']; [by left|done|by right].
  - rewrite Hc, Hmin by (intros <-; apply Hnew; by left). split_and!; [lia|lia|done| |done]. intros [->|[->|Hi]%HL']%elem_of_cons; [apply Hth; by left|apply Hnew; by left|apply Hth; by right].
  - rewrite Hmin by done. split; [apply LO|]. rewrite Hget. case_decide as Hhu; [subst u|rewrite decide_False by done; apply LO]. cbn.
    pose proof (proj2 (lv_head _ _ _ _ _ _ LO)) as Hmh. destruct (Z.eqb_spec (i_max (iget p h)) 0); [done|congruence].
  - intros i Hi. destruct (decide (i = new)) as [->|Hne].
    + split; [lia|]. rewrite Hget, decide_False, decide_True by done. cbn. destruct (Z.eqb_spec (i_max (iget p u)) 0); [done|].
      apply elem_of_cons in Hu as [->|Hu]; [by rewrite (proj2 (lv_head _ _ _ _ _ _ LO)) in *|]. by apply LO.
    + apply HL' in Hi as [?|Hi]; [done|]. rewrite Hmin by done. destruct (lv_pos _ _ _ _ _ _ LO i Hi) as [Hp1 Hp2]. split; [done|]. rewrite Hget.
      case_decide; [subst; by case_match|]. by rewrite decide_False.
  - pose proof (lv_linked _ _ _ _ _ _ LO) as Hl. unfold ilinked in *. rewrite E'. rewrite E in Hl.
    assert (forall a b, (a ∈ l1 \/ a ∈ l2) -> b ∈ l1 ++ u :: l2 -> i_next (iget p a) = b /\ (a <> h -> i_max (iget p a) = i_min (iget p b)) ->
      i_next (iget p' a) = b /\ (a <> h -> i_max (iget p' a) = i_min (iget p' b))) as Hstep.
    { intros a b Ha Hb HR. rewrite Hin by done. by rewrite (Hmin b) by (intros ->; apply Hnew; right; by rewrite E). }
    eapply linked_insert; [apply Hl|..].
    + intros a b Ha Hb. apply Hstep; [by left|set_solver].
    + rewrite Hget, decide_True by done. split; [done|]. intros Huh. rewrite Hmin'. destruct (Z.eqb_spec (i_max (iget p u)) 0) as [H0|H0]; [|done].
      apply elem_of_cons in Hu as [->|Hu]; [done|]. apply (lv_pos _ _ _ _ _ _ LO) in Hu. lia.
    + assert (iget p' new = set_inext (i_next (iget p u)) (set_max (if i_max (iget p u) =? 0 then i_min (iget p (i_next (iget p u))) else i_max (iget p u)) (set_min key (iget p new)))) as ->
        by (by rewrite Hget, decide_False, decide_True). destruct l2 as [|b l2]; cbn; [by apply linked_last in Hl|]. intros [Hub Hmx]. split; [done|]. intros _.
      rewrite (Hmin b) by (intros ->; apply Hnew; right; rewrite E; set_solver). destruct (Z.eqb_spec (i_max (iget p u)) 0) as [H0|H0]; [by rewrite Hub|]. apply Hmx.
      intros ->. by rewrite (proj2 (lv_head _ _ _ _ _ _ LO)) in H0.
    + intros a b Ha Hb. apply Hstep; [by right|set_solver].
    + intros a Ha. by rewrite Hin by auto.
Qed.
End link.

(** * A column of new nodes *)

Definition tower_id (c : Z) (n l : nat) : Z := c + Z.of_nat n - 1 - Z.of_nat l.

Lemma tower_id_S c n l : tower_id (c + 1) n l = tower_id c (S n) l.
Proof. unfold tower_id. lia. Qed.

Definition below (c : Z) (n l : nat) : Z := match l with O => -1 | S l' => tower_id c n l' end.

Lemma column_ok n : forall p above f acc, p_cur p + Z.of_nat n <= p_num p -> 0 <= p_cur p -> (forall i, p_cur p <= i -> iget p i = fresh_inode) ->
  (forall l, i_down (f l fresh_inode) = -1) -> (forall a, above = Some a -> a < p_cur p) ->
  exists p', column n p above f acc = Ok ((tower_id (p_cur p) n <$> seq 0 n) ++ acc, p') /\ p_num p' = p_num p /\ p_cur p' = p_cur p + Z.of_nat n /\
    (forall i, i < p_cur p -> iget p' i = if decide (above = Some i /\ n <> O) then set_down (p_cur p) (iget p i) else iget p i) /\
    (forall l, (l < n)%nat -> iget p' (tower_id (p_cur p) n l) = set_down (below (p_cur p) n l) (f l fresh_inode)) /\
    (forall i, p_cur p' <= i -> iget p' i = fresh_inode).
Proof.
  induction n as [|n IH]; intros p above f acc Hnum H0 Hfresh Hf Habove.
  - exists p. split_and!; [done|done|lia| |lia|done]. intros i Hi. by rewrite decide_False by (by intros []).
  - rewrite seq_S, fmap_app, <- app_assoc. cbn [column]. unfold next_inode, getNextNode. rewrite (proj2 (Z.leb_gt _ _)) by lia. cbn.
    set (p1 := MkPool (p_nodes p) (p_num p) (p_cur p + 1)).
    set (p2 := match above with Some a => upd p1 a (set_down (p_cur p)) | None => p1 end).
    assert (p_cur p2 = p_cur p + 1 /\ p_num p2 = p_num p) as [Hc2 Hn2] by (unfold p2; destruct above; done).
    assert (forall i, iget p2 i = if decide (above = Some i) then set_down (p_cur p) (iget p i) else iget p i) as Hg2.
    { intros i. unfold p2. destruct above as [a|]; [|done]. rewrite iget_upd. change (iget p1) with (iget p). destruct (decide (i = a)) as [->|]; [by rewrite decide_True|].
      rewrite decide_False; [done|congruence]. }
    assert (forall i, p_cur p <= i -> iget p2 i = fresh_inode) as Hf2.
    { intros i Hi. rewrite Hg2, decide_False; [by apply Hfresh|]. intros Ha%Habove. lia. }
    destruct (IH (upd p2 (p_cur p) (f n)) (Some (p_cur p)) f (p_cur p :: acc)) as (p' & Er & Hn' & Hc' & Hold & Hnew & Hfr).
    + change (p_cur p2 + Z.of_nat n <= p_num p2). lia.
    + change (0 <= p_cur p2). lia.
    + intros i Hi. change (p_cur p2 <= i) in Hi. rewrite iget_upd, decide_False by lia. apply Hf2. lia.
    + done.
    + intros a [= <-]. change (p_cur p < p_cur p2). lia.
    + change (p_cur (upd p2 (p_cur p) (f n))) with (p_cur p2) in *. change (p_num (upd p2 (p_cur p) (f n))) with (p_num p2) in *. rewrite Hc2, Hn2 in *.
      exists p'. split_and!; [|done|lia| | |done].
      * rewrite Er. f_equal. f_equal. f_equal; [apply list_fmap_ext; intros; apply tower_id_S|]. f_equal. unfold tower_id. lia.
      * intros i Hi. rewrite Hold by lia. rewrite decide_False by (intros [[= Heq] _]; lia). rewrite iget_upd, decide_False by lia. rewrite Hg2.
        destruct (decide (above = Some i)); [by rewrite decide_True|]. rewrite decide_False; [done|]. by intros [].
      * intros l Hl. destruct (decide (l = n)) as [->|Hne].
        -- assert (tower_id (p_cur p) (S n) n = p_cur p) as -> by (unfold tower_id; lia). rewrite Hold by lia.
           assert (iget (upd p2 (p_cur p) (f n)) (p_cur p) = f n fresh_inode) as -> by (by rewrite iget_upd, decide_True, Hf2 by lia). destruct n as [|n]; [|rewrite decide_True by done; f_equal; unfold below, tower_id; lia].
           rewrite decide_False by (by intros []). cbn. specialize (Hf O). destruct (f O fresh_inode). cbn in *. by subst.
        -- rewrite <- tower_id_S. rewrite Hnew by lia. f_equal. unfold below. destruct l; [done|]. apply tower_id_S.
Qed.
