(* ===== verification/SkiplistInv.v ===== *)
(** The invariant of the prototype's skip list over a value list, and that the
    lookup and the two insertions keep to it.

    Towers have at most 15 levels here: the tail of the top level never gets
    its keys ([TandemExamples.top_level_loses]). *)

From S2P Require Import Prelude ValueList ValueListFacts Skiplist SkiplistFacts.

Local Open Scope Z_scope.

Definition LEVELS : nat := 15.

Record idx_ok (lab : Z -> nat) (s : Skiplist) (hd tl : nat -> Z) (Ls : nat -> list Z) (vp : pool Vnode) (vs : list Z) : Prop := {
  ix_header : header s = hd <$> seq 0 MAX_LEVEL;
  ix_tail : tail s = tl <$> seq 0 MAX_LEVEL;
  ix_level : (1 <= sl_level s <= LEVELS)%nat;
  ix_cur : 0 <= p_cur (ipool s) <= p_num (ipool s);
  ix_fresh : forall i, p_cur (ipool s) <= i -> iget (ipool s) i = fresh_inode;
  ix_levels : forall l, (l < LEVELS)%nat -> lev_ok lab (ipool s) l (hd l) (tl l) (Ls l);
  ix_hdown : forall l, (S l < LEVELS)%nat -> i_down (iget (ipool s) (hd (S l))) = hd l;
  ix_down0 : forall a, a ∈ Ls O -> i_down (iget (ipool s) a) ∈ vs /\ vkey vp (i_down (iget (ipool s) a)) = i_min (iget (ipool s) a);
  ix_downS : forall l a, (S l < LEVELS)%nat -> a ∈ Ls (S l) ->
    i_down (iget (ipool s) a) ∈ Ls l /\ i_min (iget (ipool s) (i_down (iget (ipool s) a))) = i_min (iget (ipool s) a);
  ix_first : forall v, v ∈ vs -> exists a, head (Ls O) = Some a /\ i_min (iget (ipool s) a) <= vkey vp v;
}.

Lemma fmap_seq_lookup {A} (f : nat -> A) n l : (l < n)%nat -> (f <$> seq 0 n) !! l = Some (f l).
Proof. intros Hl. by rewrite list_lookup_fmap, lookup_seq_lt. Qed.

(** * Walking down *)

Lemma lookup_levels_S l s key cur : lookup_levels (S (S l)) s key cur =
  tl ← tail_at s (S l);
  '(c, prev) ← lookup_walk (pool_fuel (ipool s)) (ipool s) tl key cur None;
  let c' := match prev with Some q => if key <? i_min (iget (ipool s) c) then q else c | None => c end in
  d ← deref (p_at (ipool s) (i_down (iget (ipool s) c'))); lookup_levels (S l) s key d.
Proof. done. Qed.

Section walks.
Context (lab : Z -> nat) (s : Skiplist) (hd tl : nat -> Z) (Ls : nat -> list Z) (vp : pool Vnode) (vs : list Z) (IX : idx_ok lab s hd tl Ls vp vs).

Local Notation p := (ipool s).

Lemma ix_head_at l : (l < LEVELS)%nat -> head_at s l = Ok (hd l).
Proof. intros Hl. unfold head_at. rewrite (ix_header _ _ _ _ _ _ _ IX), fmap_seq_lookup; [done|]. unfold LEVELS, MAX_LEVEL in *. lia. Qed.

Lemma ix_tail_at l : (l < LEVELS)%nat -> tail_at s l = Ok (tl l).
Proof. intros Hl. unfold tail_at. rewrite (ix_tail _ _ _ _ _ _ _ IX), fmap_seq_lookup; [done|]. unfold LEVELS, MAX_LEVEL in *. lia. Qed.

Lemma ix_at l i : (l < LEVELS)%nat -> i ∈ hd l :: Ls l -> p_at p i = Some i.
Proof.
  intros Hl Hi. destruct (lv_lab _ _ _ _ _ _ (ix_levels _ _ _ _ _ _ _ IX l Hl) i Hi) as [Hr _]. pose proof (ix_cur _ _ _ _ _ _ _ IX). apply at_in. lia.
Qed.

(** The node below one of level [S l]. *)
Lemma ix_down l a : (S l < LEVELS)%nat -> a ∈ hd (S l) :: Ls (S l) -> i_down (iget p a) ∈ hd l :: Ls l.
Proof.
  intros Hl [->|Ha]%elem_of_cons; [rewrite (ix_hdown _ _ _ _ _ _ _ IX) by done; by left|]. right. by apply (ix_downS _ _ _ _ _ _ _ IX l a Hl Ha).
Qed.

(** Where a walk for [key] may stand. *)
Definition stands (key : Z) (l : nat) (c : Z) : Prop := c = hd l \/ c ∈ Ls l /\ i_min (iget p c) <= key.

Definition below_all (key : Z) (l : nat) : Prop := match Ls l with [] => True | a :: _ => key < i_min (iget p a) end.

Lemma walk_level key l cur : (l < LEVELS)%nat -> stands key l cur ->
  exists c prev, lookup_walk (pool_fuel p) p (tl l) key cur None = Ok (c, prev) /\
    let c' := match prev with Some q => if key <? i_min (iget p c) then q else c | None => c end in
    stands key l c' /\ (c' = hd l -> below_all key l).
Proof.
  intros Hl Hcur. pose proof (ix_levels _ _ _ _ _ _ _ IX l Hl) as LO. pose proof (proj2 (ix_cur _ _ _ _ _ _ _ IX)) as Hnum.
  assert (cur ∈ hd l :: Ls l) as (l1 & l2 & E)%list_elem_of_split by (destruct Hcur as [->|[? _]]; [by left|by right]).
  destruct (lookup_walk_ok _ _ _ _ _ _ LO Hnum key (pool_fuel p) l1 cur l2 None E) as (m1 & c & m2 & prev & Er & E' & Hstop & Hprev).
  { pose proof (lv_fuel _ _ _ _ _ _ LO Hnum) as Hf. rewrite E, length_app in Hf. cbn in Hf. lia. }
  exists c, prev. split; [done|]. destruct (lv_head _ _ _ _ _ _ LO) as [_ Hmax]. destruct Hprev as [(-> & -> & ->)|(a1 & q & -> & -> & Hq & _)]; cbn.
  - split; [done|]. intros ->. unfold below_all. destruct l1 as [|x l1].
    + cbn in E'. injection E' as E'. rewrite E'. destruct Hstop as [->|Hk]; [done|]. destruct m2 as [|a m2]; [done|].
      destruct (lv_pos _ _ _ _ _ _ LO a) as [Hp _]; [rewrite E'; by left|]. lia.
    + pose proof (lv_nodup _ _ _ _ _ _ LO) as Hnd. cbn in E'. injection E' as -> E'. apply NoDup_cons in Hnd as [Hnd _]. destruct Hnd. rewrite E'. set_solver.
  - rewrite <- app_assoc in E'. destruct a1 as [|x a1].
    + cbn in E'. injection E' as <- E'. destruct (Z.ltb_spec key (i_min (iget p c))) as [Hlt|Hge].
      * split; [by left|]. intros _. unfold below_all. by rewrite E'.
      * split; [right; split; [rewrite E'; by left|done]|]. intros ->. pose proof (lv_nodup _ _ _ _ _ _ LO) as Hnd. apply NoDup_cons in Hnd as [Hnd _]. destruct Hnd. rewrite E'. by left.
    + cbn in E'. injection E' as <- E'. pose proof (lv_nodup _ _ _ _ _ _ LO) as Hnd. apply NoDup_cons in Hnd as [Hnd _].
      pose proof (lv_max _ _ _ _ _ _ LO (hd l :: a1) q c m2 ltac:(cbn; by rewrite E')) as Hqc. rewrite Hqc in Hq by (intros ->; destruct Hnd; rewrite E'; set_solver).
      rewrite (proj2 (Z.ltb_ge _ _)) by lia. split; [right; split; [rewrite E'; set_solver|lia]|]. intros ->. destruct Hnd. rewrite E'. set_solver.
Qed.

Lemma lookup_levels_ok key l : forall cur, (l < LEVELS)%nat -> stands key l cur ->
  exists c, lookup_levels (S l) s key cur = Ok c /\ stands key O c /\ (c = hd O -> below_all key O).
Proof.
  induction l as [|l IH]; intros cur Hl Hcur.
  - destruct (walk_level key O cur Hl Hcur) as (c & prev & Er & Hc). cbn [lookup_levels]. rewrite ix_tail_at by done. cbn -[lookup_walk pool_fuel]. rewrite Er. cbn. eauto.
  - destruct (walk_level key (S l) cur Hl Hcur) as (c & prev & Er & Hc & _). rewrite lookup_levels_S, ix_tail_at by done. cbn -[lookup_levels lookup_walk pool_fuel]. rewrite Er. cbn -[lookup_levels lookup_walk pool_fuel].
    destruct (IH (i_down (iget p (match prev with Some q => if key <? i_min (iget p c) then q else c | None => c end)))) as (r & Hr & Hr'); [lia| |].
    + destruct Hc as [->|[Hc Hk]]; [left; by apply (ix_hdown _ _ _ _ _ _ _ IX)|right]. destruct (ix_downS _ _ _ _ _ _ _ IX l _ Hl Hc) as [Hd ->]. done.
    + exists r. split; [|done]. erewrite ix_at; [apply Hr|apply Nat.lt_succ_l; done|]. apply ix_down; [done|]. destruct Hc as [->|[Hc _]]; [by left|by right].
Qed.

(** The index node a lookup comes to. *)
Lemma sk_lookup_ok key : 
  sk_lookup s key = Ok None /\ (forall v, v ∈ vs -> key < vkey vp v) \/
  exists c, sk_lookup s key = Ok (Some c) /\ c ∈ Ls O /\ i_min (iget p c) <= key.
Proof.
  pose proof (ix_level _ _ _ _ _ _ _ IX) as Hlev. unfold sk_lookup. destruct (sl_level s) as [|l] eqn:El; [lia|]. cbn [pred]. rewrite ix_head_at by lia. cbn -[lookup_levels lookup_walk pool_fuel].
  destruct (lookup_levels_ok key l (hd l) ltac:(lia) ltac:(by left)) as (c & -> & Hc & Hb). cbn. pose proof (ix_levels _ _ _ _ _ _ _ IX O ltac:(unfold LEVELS; lia)) as LO.
  destruct Hc as [->|[Hc Hk]].
  - left. rewrite (proj1 (lv_head _ _ _ _ _ _ LO)). split; [done|]. intros v (a & Ha & Hm)%(ix_first _ _ _ _ _ _ _ IX). specialize (Hb eq_refl). unfold below_all in Hb.
    destruct (Ls O); [done|]. cbn in Ha. injection Ha as <-. lia.
  - right. exists c. destruct (lv_pos _ _ _ _ _ _ LO c Hc) as [Hp _]. by rewrite (proj2 (Z.eqb_neq _ 0)) by lia.
Qed.

(** The pivots of a rebalance. *)
Lemma pivots_ok key l : forall cur acc, (l <= LEVELS)%nat -> 0 < key -> (forall l', l = S l' -> cur = Some (hd l') \/ exists c, cur = Some c /\ c ∈ Ls l') ->
  exists u, getPivotNodesForInsert l s key cur acc = Ok ((u <$> seq 0 l) ++ acc) /\ forall i, (i < l)%nat -> u i ∈ hd i :: Ls i /\ (u i = hd i -> Ls i = []).
Proof.
  induction l as [|l IH]; intros cur acc Hl Hkey Hcur; [exists (fun _ => 0); split; [done|lia]|].
  assert (exists c, cur = Some c /\ c ∈ hd l :: Ls l) as (c & -> & Hc).
  { destruct (Hcur l eq_refl) as [->|(c & -> & Hc)]; eexists; (split; [done|]); [by left|by right]. }
  cbn -[pivot_walk pool_fuel seq]. rewrite ix_tail_at by lia. cbn -[pivot_walk pool_fuel seq]. pose proof (ix_levels _ _ _ _ _ _ _ IX l ltac:(lia)) as LO. pose proof (proj2 (ix_cur _ _ _ _ _ _ _ IX)) as Hnum.
  pose proof Hc as (l1 & l2 & E)%list_elem_of_split.
  destruct (lookup_walk_ok _ _ _ _ _ _ LO Hnum key (pool_fuel p) l1 c l2 None E) as (m1 & w & m2 & prev & Er & E' & Hstop & _).
  { pose proof (lv_fuel _ _ _ _ _ _ LO Hnum) as Hf. rewrite E, length_app in Hf. cbn in Hf. lia. }
  rewrite (pivot_walk_lookup _ _ _ _ _ _ _ _ Er). cbn -[seq]. assert (w ∈ hd l :: Ls l) as Hw by (rewrite E'; set_solver).
  destruct (IH (p_at p (i_down (iget p w))) (w :: acc)) as (u & Hu & Hui); [lia|done| |].
  { intros l' ->. assert (i_down (iget p w) ∈ hd l' :: Ls l') as Hd by (by apply ix_down). rewrite (ix_at l') by (done || lia).
    apply elem_of_cons in Hd as [->|Hd]; [by left|right; eauto]. }
  exists (fun i => if decide (i = l) then w else u i). rewrite Hu. split.
  - f_equal. rewrite seq_S, fmap_app, <- app_assoc. cbn. rewrite decide_True by done. f_equal. apply list_fmap_ext. intros i x Hx%lookup_seq. by rewrite decide_False by lia.
  - intros i Hi. case_decide as Hil; [|apply Hui; lia]. subst i. split; [done|]. intros ->. destruct (lv_head _ _ _ _ _ _ LO) as [_ Hmax].
    destruct Hstop as [->|Hk]; [|lia]. pose proof (lv_nodup _ _ _ _ _ _ LO) as Hnd. destruct m1 as [|x m1]; cbn in E'; [by injection E'|].
    injection E' as <- E'. apply NoDup_cons in Hnd as [Hnd _]. destruct Hnd. rewrite E'. set_solver.
Qed.
End walks.

(** * Weakenings *)

(** The skip list does not look at the counts of covered nodes. *)
Definition sans_covered (n : Inode) : Z * Z * Z * Z := (i_min n, i_max n, i_next n, i_down n).

Lemma idx_ok_pool lab s hd tl Ls vp vs p' : idx_ok lab s hd tl Ls vp vs -> (forall i, sans_covered (iget p' i) = sans_covered (iget (ipool s) i)) ->
  (forall i, p_cur p' <= i -> iget p' i = fresh_inode) -> p_cur p' = p_cur (ipool s) -> p_num p' = p_num (ipool s) -> idx_ok lab (set_ipool p' s) hd tl Ls vp vs.
Proof.
  intros [] Hsame Hfresh Hc Hn.
  assert (forall i, i_min (iget p' i) = i_min (iget (ipool s) i) /\ i_down (iget p' i) = i_down (iget (ipool s) i)) as HS by (intros i; specialize (Hsame i); by injection Hsame as -> _ _ ->).
  split; cbn; [done|done|done|lia|done| | | | |].
  - intros l Hl. eapply lev_ok_frame; [by apply ix_levels0| |lia]. intros i _ <-. split; [done|]. specialize (Hsame i). unfold core. by injection Hsame as -> -> -> _.
  - intros l Hl. by rewrite (proj2 (HS _)), ix_hdown0.
  - intros a Ha. rewrite (proj1 (HS a)), (proj2 (HS a)). by apply ix_down1.
  - intros l a Hl Ha. rewrite (proj2 (HS a)), (proj1 (HS _)), (proj1 (HS a)). by apply ix_downS0.
  - intros v Hv. destruct (ix_first0 v Hv) as (a & Ha & Hm). exists a. split; [done|]. by rewrite (proj1 (HS a)).
Qed.

Lemma idx_ok_values lab s hd tl Ls vp vs vp' vs' : idx_ok lab s hd tl Ls vp vs -> (forall v, v ∈ vs -> v ∈ vs' /\ vkey vp' v = vkey vp v) ->
  (forall v, v ∈ vs' -> exists a, head (Ls O) = Some a /\ i_min (iget (ipool s) a) <= vkey vp' v) -> idx_ok lab s hd tl Ls vp' vs'.
Proof.
  intros [] Hsame Hfirst. split; try done. intros a Ha. destruct (ix_down1 a Ha) as [Hv Hk]. destruct (Hsame _ Hv) as [Hv' ->]. done.
Qed.

(** * A new tower *)

(** [nw l]: the node of level [l]. *)
Definition tower_new (lab : Z -> nat) (p : pool Inode) (hd tl : nat -> Z) (Ls : nat -> list Z) (key v : Z) (n : nat) (nw : nat -> Z) : Prop :=
  forall l, (l < n)%nat -> 0 <= nw l < p_cur p /\ lab (nw l) = l /\ nw l ∉ tl l :: hd l :: Ls l /\ i_min (iget p (nw l)) = key /\
    i_down (iget p (nw l)) = match l with O => v | S l' => nw l' end.

Definition new_lab (lab : Z -> nat) (c : Z) (n : nat) (i : Z) : nat := if decide (c <= i < c + Z.of_nat n) then Z.to_nat (c + Z.of_nat n - 1 - i) else lab i.

Lemma new_lab_tower lab c n l : (l < n)%nat -> new_lab lab c n (tower_id c n l) = l.
Proof. intros Hl. unfold new_lab, tower_id. rewrite decide_True by lia. lia. Qed.

Lemma new_tower_ok lab s hd tl Ls vp vs key v n : idx_ok lab s hd tl Ls vp vs -> (1 <= n <= LEVELS)%nat -> p_cur (ipool s) + Z.of_nat n <= p_num (ipool s) ->
  exists p1 p2 nw, column n (ipool s) None (new_index_node key) [] = Ok (nw <$> seq 0 n, p1) /\ linkVnodeToInode p1 (nw O) v = (true, p2) /\
    p_cur p2 = p_cur (ipool s) + Z.of_nat n /\ p_num p2 = p_num (ipool s) /\ (forall i, i < p_cur (ipool s) -> iget p2 i = iget (ipool s) i) /\
    idx_ok (new_lab lab (p_cur (ipool s)) n) (set_ipool p2 s) hd tl Ls vp vs /\
    tower_new (new_lab lab (p_cur (ipool s)) n) p2 hd tl Ls key v n nw.
Proof.
  intros IX Hn Hroom. destruct (column_ok n (ipool s) None (new_index_node key) [] Hroom) as (p1 & Er & Hn1 & Hc1 & Hold & Hnew & Hfr); [apply IX|apply IX|done|done|].
  rewrite app_nil_r in Er. set (nw := tower_id (p_cur (ipool s)) n) in *. set (lab' := new_lab lab (p_cur (ipool s)) n).
  set (p2 := upd (upd p1 (nw O) (set_down v)) (nw O) (fun n => set_covered (i_covered n + 1) n)). exists p1, p2, nw. split; [done|].
  split; [unfold linkVnodeToInode; by rewrite Hnew by lia|].
  assert (forall i, sans_covered (iget p2 i) = sans_covered (if decide (i = nw O) then set_down v (iget p1 i) else iget p1 i)) as Hg2.
  { intros i. unfold p2. rewrite !iget_upd. destruct (decide (i = nw O)) as [->|]; [by rewrite decide_True|done]. }
  assert (forall i, i < p_cur (ipool s) -> iget p2 i = iget (ipool s) i) as Hsame.
  { intros i Hi. unfold p2. rewrite !iget_upd, !decide_False by (unfold nw, tower_id; lia). rewrite Hold by done. by rewrite decide_False by (by intros []). }
  split; [done|]. split; [done|]. split; [done|]. destruct IX. split.
  - assert (forall l i, (l < LEVELS)%nat -> i ∈ hd l :: Ls l -> iget p2 i = iget (ipool s) i) as HL.
    { intros l i Hl Hi. apply Hsame. destruct (lv_lab _ _ _ _ _ _ (ix_levels0 l Hl) i Hi). lia. }
    split; cbn; [done|done|done|change (p_cur p2) with (p_cur p1); change (p_num p2) with (p_num p1); lia| | | | | |].
    + intros i Hi. change (p_cur p2) with (p_cur p1) in Hi. unfold p2. rewrite !iget_upd, !decide_False by (unfold nw, tower_id; lia). by apply Hfr.
    + intros l Hl. eapply lev_ok_frame; [by apply ix_levels0| |change (p_cur p2) with (p_cur p1); lia]. intros i Hi Hlb. split; [|by rewrite Hsame by lia].
      unfold lab', new_lab. by rewrite decide_False by lia.
    + intros l Hl. rewrite (HL (S l)); [by apply ix_hdown0|done|by left].
    + intros a Ha. rewrite (HL O); [by apply ix_down1|unfold LEVELS; lia|by right].
    + intros l a Hl Ha. rewrite (HL (S l) a) by (done || by right). destruct (ix_downS0 l a Hl Ha) as [Hd Hm]. rewrite (HL l _) by (lia || by right). done.
    + intros w Hw. destruct (ix_first0 w Hw) as (a & Ha & Hm). exists a. split; [done|]. rewrite (HL O); [done|unfold LEVELS; lia|]. right. by destruct (Ls O); [|injection Ha as ->; left].
  - intros l Hl. split; [change (p_cur p2) with (p_cur p1); unfold nw, tower_id; lia|]. split; [by apply new_lab_tower|].
    assert (sans_covered (iget p2 (nw l)) = sans_covered (set_down (match l with O => v | S l' => nw l' end) (new_index_node key l fresh_inode))) as Hs.
    { rewrite Hg2, Hnew by done. destruct l as [|l]; [by rewrite decide_True|]. rewrite decide_False by (unfold nw, tower_id; lia). done. }
    injection Hs as -> _ _ ->. split_and!; [|done|done]. pose proof (ix_levels0 l ltac:(lia)) as LO.
    intros [Ht|Hi]%elem_of_cons; [destruct (lv_tail _ _ _ _ _ _ LO) as [Hr _]; rewrite <- Ht in Hr|destruct (lv_lab _ _ _ _ _ _ LO _ Hi) as [Hr _]]; unfold nw, tower_id in Hr; lia.
Qed.

Lemma rev_seq_S {A} (f : nat -> A) n : rev (f <$> seq 0 (S n)) = f n :: rev (f <$> seq 0 n).
Proof. by rewrite seq_S, fmap_app, rev_app_distr. Qed.

Section tower.
Context (lab : Z -> nat) (hd tl : nat -> Z) (key : Z) (Hkey : 0 < key) (u nw : nat -> Z).

Definition levels (p : pool Inode) (Ls : nat -> list Z) : Prop := forall l, (l < LEVELS)%nat -> lev_ok lab p l (hd l) (tl l) (Ls l).

(** Every level below [n] gets its node behind its pivot. *)
Lemma link_pivots_ok n : forall p Ls, (n <= LEVELS)%nat -> levels p Ls -> p_cur p <= p_num p -> (forall l, (l < n)%nat -> u l ∈ hd l :: Ls l) ->
  (forall l, (l < n)%nat -> 0 <= nw l < p_cur p /\ lab (nw l) = l /\ nw l ∉ tl l :: hd l :: Ls l /\ i_min (iget p (nw l)) = key) ->
  exists p' Ls', link_pivots p (rev (u <$> seq 0 n)) (rev (nw <$> seq 0 n)) key = Ok p' /\ levels p' Ls' /\ p_cur p' = p_cur p /\ p_num p' = p_num p /\
    (forall i, i_down (iget p' i) = i_down (iget p i) /\ i_covered (iget p' i) = i_covered (iget p i) /\ i_min (iget p' i) = i_min (iget p i)) /\
    (forall i, p_cur p <= i -> iget p' i = iget p i) /\
    (forall l, (n <= l)%nat -> Ls' l = Ls l) /\
    (forall l, (l < n)%nat -> exists l1 l2, hd l :: Ls l = l1 ++ u l :: l2 /\ hd l :: Ls' l = l1 ++ u l :: nw l :: l2).
Proof.
  induction n as [|n IH]; intros p Ls Hn HL Hnum Hu Hnw; [exists p, Ls; split_and!; [done..|lia]|].
  rewrite !rev_seq_S. cbn [link_pivots]. pose proof (HL n ltac:(lia)) as LO. pose proof (Hu n ltac:(lia)) as Hun. destruct (Hnw n ltac:(lia)) as (Hr & Hlb & Hnot & Hmin).
  pose proof Hun as (l1 & l2 & E)%list_elem_of_split.
  destruct (link_level _ _ _ _ _ _ LO Hnum l1 (u n) l2 (nw n) key E Hnot Hr Hlb Hkey) as (p1 & L1 & -> & E1 & LO1 & Hc1 & Hn1 & Hoth & Hdc & Hm1 & Hm2).
  assert (forall i, i_min (iget p1 i) = i_min (iget p i)) as Hm. { intros i. destruct (decide (i = nw n)) as [->|]; [by rewrite Hm2|by apply Hm1]. }
  destruct (lv_lab _ _ _ _ _ _ LO (u n) Hun) as [Hur Hul].
  destruct (IH p1 (fun l => if decide (l = n) then L1 else Ls l)) as (p' & Ls' & Er & HL' & Hc' & Hn' & Hst & Hfr & Hge & Hlt).
  - lia.
  - intros l Hl. case_decide as Hln; [by subst l|]. eapply lev_ok_frame; [by apply HL| |lia]. intros i Hi Hil. split; [done|]. rewrite Hoth; [done|congruence..].
  - lia.
  - intros l Hl. rewrite decide_False by lia. apply Hu. lia.
  - intros l Hl. rewrite decide_False by lia. destruct (Hnw l ltac:(lia)) as (Hr' & ? & ? & ?). rewrite Hc1, Hm. done.
  - exists p', Ls'. cbn. rewrite Er. split_and!; [done|done|lia|lia| | | |].
    + intros i. destruct (Hst i) as (-> & -> & ->), (Hdc i) as [-> ->]. by rewrite Hm.
    + intros i Hi. rewrite Hfr by lia. apply Hoth; intros ->; lia.
    + intros l Hl. rewrite Hge by lia. by rewrite decide_False by lia.
    + intros l Hl. destruct (decide (l = n)) as [->|Hne].
      * exists l1, l2. split; [done|]. rewrite Hge by lia. by rewrite decide_True.
      * specialize (Hlt l ltac:(lia)). by rewrite decide_False in Hlt by done.
Qed.
End tower.

Lemma split_after (h : Z) L L' l1 u x l2 : h :: L = l1 ++ u :: l2 -> h :: L' = l1 ++ u :: x :: l2 ->
  (forall i, i ∈ L' <-> i = x \/ i ∈ L) /\ (head L' = Some x /\ u = h \/ head L' = head L /\ u ∈ L).
Proof.
  intros E E'. destruct l1 as [|y l1]; cbn in *; injection E as -> ->; injection E' as ->; (split; [set_solver|]); [left; auto|].
  right. split; [by destruct l1|set_solver].
Qed.

(** [vs']: a new node at the front may come with a new value node. *)
Lemma link_tower_ok lab s hd tl Ls vp vs vs' key v n u nw : idx_ok lab s hd tl Ls vp vs -> (1 <= n <= LEVELS)%nat -> 0 < key -> v ∈ vs' -> vkey vp v = key -> (forall w, w ∈ vs -> w ∈ vs') ->
  tower_new lab (ipool s) hd tl Ls key v n nw -> (forall l, (l < n)%nat -> u l ∈ hd l :: Ls l) ->
  (u O = hd O -> forall w, w ∈ vs' -> key <= vkey vp w) -> (u O <> hd O -> forall w, w ∈ vs' -> w ∈ vs) ->
  exists p' Ls', link_pivots (ipool s) (rev (u <$> seq 0 n)) (rev (nw <$> seq 0 n)) key = Ok p' /\ idx_ok lab (set_ipool p' s) hd tl Ls' vp vs' /\
    p_cur p' = p_cur (ipool s) /\ p_num p' = p_num (ipool s).
Proof.
  intros IX Hn Hkey Hv Hvk Hvs Hnw Hu Hfirst Hrest. destruct (link_pivots_ok lab hd tl key Hkey u nw n (ipool s) Ls) as (p' & Ls' & Er & HL & Hc & Hnm & Hst & Hfr & Hge & Hlt).
  - lia.
  - intros l Hl. by apply IX.
  - apply IX.
  - done.
  - intros l Hl. by destruct (Hnw l Hl) as (? & ? & ? & ? & _).
  - exists p', Ls'. split; [done|]. split; [|done].
    assert (forall l a, a ∈ Ls' l -> a ∈ Ls l \/ (l < n)%nat /\ a = nw l) as Hin.
    { intros l a Ha. destruct (decide (l < n)%nat) as [Hl|Hl]; [|rewrite Hge in Ha by lia; by left]. destruct (Hlt l Hl) as (l1 & l2 & E & E').
      destruct (split_after _ _ _ _ _ _ _ E E') as [Hs _]. apply Hs in Ha as [->|Ha]; auto. }
    assert (forall l a, a ∈ Ls l -> a ∈ Ls' l) as Hsub.
    { intros l a Ha. destruct (decide (l < n)%nat) as [Hl|Hl]; [|by rewrite Hge by lia]. destruct (Hlt l Hl) as (l1 & l2 & E & E').
      destruct (split_after _ _ _ _ _ _ _ E E') as [Hs _]. apply Hs. by right. }
    assert (forall l, (l < n)%nat -> nw l ∈ Ls' l) as Hmem.
    { intros l Hl. destruct (Hlt l Hl) as (l1 & l2 & E & E'). destruct (split_after _ _ _ _ _ _ _ E E') as [Hs _]. apply Hs. by left. }
    destruct IX. split; cbn; [done|done|done|lia|intros i Hi; rewrite Hfr by lia; apply ix_fresh0; lia|done| | | |].
    + intros l Hl. destruct (Hst (hd (S l))) as (-> & _ & _). by apply ix_hdown0.
    + intros a Ha. destruct (Hst a) as (-> & _ & ->). destruct (Hin _ _ Ha) as [Ha'|[_ ->]]; [destruct (ix_down1 a Ha'); auto|]. destruct (Hnw O ltac:(lia)) as (_ & _ & _ & -> & ->). done.
    + intros l a Hl Ha. destruct (Hst a) as (-> & _ & ->). destruct (Hst (i_down (iget (ipool s) a))) as (_ & _ & ->). destruct (Hin _ _ Ha) as [Ha'|[Hln ->]].
      * destruct (ix_downS0 l a Hl Ha') as [Hd Hm]. auto.
      * destruct (Hnw (S l) Hln) as (_ & _ & _ & -> & ->). split; [apply Hmem; lia|]. by destruct (Hnw l ltac:(lia)) as (_ & _ & _ & -> & _).
    + intros w Hw. destruct (Hlt O ltac:(lia)) as (l1 & l2 & E & E'). destruct (split_after _ _ _ _ _ _ _ E E') as [_ [[Hh Hun]|[-> Hun]]].
      * exists (nw O). split; [done|]. destruct (Hst (nw O)) as (_ & _ & ->). destruct (Hnw O ltac:(lia)) as (_ & _ & _ & -> & _). by apply Hfirst.
      * assert (u O <> hd O) as Hne.
        { intros He. pose proof (lv_nodup _ _ _ _ _ _ (ix_levels0 O ltac:(unfold LEVELS; lia))) as [Hnd _]%NoDup_cons. by rewrite <- He in Hnd. }
        destruct (ix_first0 w (Hrest Hne w Hw)) as (a & Ha & Hm). exists a. split; [done|]. destruct (Hst a) as (_ & _ & ->). done.
Qed.

(** * The insertions *)

Lemma link_fronts_pivots lab hd tl key nw n : 0 < key -> forall p Ls, (n <= LEVELS)%nat -> levels lab hd tl p Ls -> p_cur p <= p_num p ->
  (forall l, (l < n)%nat -> 0 <= nw l < p_cur p /\ lab (nw l) = l /\ nw l ∉ tl l :: hd l :: Ls l) ->
  link_fronts p (rev (hd <$> seq 0 n)) (rev (nw <$> seq 0 n)) key = link_pivots p (rev (hd <$> seq 0 n)) (rev (nw <$> seq 0 n)) key.
Proof.
  intros Hkey. induction n as [|n IH]; intros p Ls Hn HL Hnum Hnw; [done|]. rewrite !rev_seq_S. cbn [link_pivots link_fronts].
  pose proof (HL n ltac:(lia)) as LO. destruct (Hnw n ltac:(lia)) as (Hr & Hlb & Hnot). destruct (lv_succ _ _ _ _ _ _ LO Hnum [] (hd n) (Ls n) eq_refl) as (_ & _ & Hs1 & Hs2).
  assert (nw n <> hd n) as Hnh by (intros He; apply Hnot; rewrite He; by right; left).
  assert (i_next (iget p (hd n)) <> nw n) as Hnn by (intros He; apply Hnot; rewrite <- He; apply elem_of_cons in Hs1 as [-> |?]; [by left|by right; right]).
  rewrite link_front_pivot; [|done|apply LO|done|done].
  destruct (link_level _ _ _ _ _ _ LO Hnum [] (hd n) (Ls n) (nw n) key eq_refl Hnot Hr Hlb Hkey) as (p1 & L1 & -> & E1 & LO1 & Hc1 & Hn1 & Hoth & _). cbn.
  destruct (lv_lab _ _ _ _ _ _ LO (hd n) ltac:(by left)) as [_ Hul].
  apply (IH p1 (fun l => if decide (l = n) then L1 else Ls l)); [lia| |lia|].
  - intros l Hl. case_decide as Hln; [by subst l|]. eapply lev_ok_frame; [by apply HL| |lia]. intros i Hi Hil. split; [done|]. rewrite Hoth; [done|congruence..].
  - intros l Hl. rewrite decide_False by lia. rewrite Hc1. apply Hnw. lia.
Qed.

Lemma take_header {A} (f : nat -> A) n m : (n <= m)%nat -> take n (f <$> seq 0 m) = f <$> seq 0 n.
Proof. intros Hn. rewrite <- fmap_take, take_seq. by rewrite Nat.min_l. Qed.

Lemma updates_eq {A} (f h : nat -> A) lv n m : (n <= m)%nat ->
  take n ((f <$> seq 0 lv) ++ drop lv (take n (h <$> seq 0 m))) = (fun i => if decide (i < lv)%nat then f i else h i) <$> seq 0 n.
Proof.
  intros Hn. rewrite take_header by done. rewrite <- fmap_drop, drop_seq. cbn. destruct (decide (n <= lv)%nat) as [Hle|Hgt].
  - replace (n - lv)%nat with O by lia. rewrite app_nil_r, take_header by done. apply list_fmap_ext. intros i x Hx%lookup_seq. by rewrite decide_True by lia.
  - rewrite take_ge by (rewrite length_app, !length_fmap, !length_seq; lia). replace n with (lv + (n - lv))%nat at 2 by lia. rewrite seq_app, fmap_app. f_equal.
    + apply list_fmap_ext. intros i x Hx%lookup_seq. by rewrite decide_True by lia.
    + cbn. apply list_fmap_ext. intros i x Hx%lookup_seq. by rewrite decide_False by lia.
Qed.

Definition set_rand (r : nat) (s : Skiplist) : Skiplist := MkSkiplist (ipool s) (header s) (tail s) (sl_level s) r.

Lemma idx_ok_rand lab s hd tl Ls vp vs r : idx_ok lab s hd tl Ls vp vs -> idx_ok lab (set_rand r s) hd tl Ls vp vs.
Proof. intros []. by split. Qed.

Lemma idx_ok_level lab s hd tl Ls vp vs n : idx_ok lab s hd tl Ls vp vs -> (1 <= n <= LEVELS)%nat ->
  idx_ok lab (MkSkiplist (ipool s) (header s) (tail s) n (sl_rand s)) hd tl Ls vp vs.
Proof. intros [] Hn. by split. Qed.

Section coins.
Context (coin : nat -> bool).

(** No 15 heads in a row. *)
Definition low_towers : Prop := forall pos, ((random_level coin MAX_LEVEL pos 1).1 <= LEVELS)%nat.

Lemma random_level_ge fuel : forall pos l, (l <= (random_level coin fuel pos l).1)%nat.
Proof. induction fuel as [|fuel IH]; intros pos l; cbn; [lia|]. repeat case_match; cbn; [|lia..]. pose proof (IH (S pos) (S l)). lia. Qed.

Context (LT : low_towers).

Lemma generate_ok s : exists n r, generateRandomLevel coin s = (n, set_rand r s) /\ (1 <= n <= LEVELS)%nat.
Proof.
  unfold generateRandomLevel. destruct (random_level coin MAX_LEVEL (sl_rand s) 1) as [n r] eqn:E. exists n, r. split; [done|].
  pose proof (LT (sl_rand s)). pose proof (random_level_ge MAX_LEVEL (sl_rand s) 1). rewrite E in *. cbn in *. lia.
Qed.

Lemma sk_insert_ok lab s hd tl Ls vp vs vs' key v : idx_ok lab s hd tl Ls vp vs -> p_cur (ipool s) + Z.of_nat LEVELS <= p_num (ipool s) -> 0 < key -> v ∈ vs' -> vkey vp v = key ->
  (forall w, w ∈ vs -> w ∈ vs') -> (forall w, w ∈ vs' -> key <= vkey vp w) ->
  exists s' lab' Ls', sk_insert coin s key v = Ok (true, s') /\ idx_ok lab' s' hd tl Ls' vp vs' /\
    p_cur (ipool s') <= p_cur (ipool s) + Z.of_nat LEVELS /\ p_num (ipool s') = p_num (ipool s).
Proof.
  intros IX Hroom Hkey Hv Hvk Hvs Hmin. unfold sk_insert. destruct (generate_ok s) as (n & r & -> & Hn). apply (idx_ok_rand _ _ _ _ _ _ _ r) in IX.
  change (p_cur (ipool s)) with (p_cur (ipool (set_rand r s))) in *. change (p_num (ipool s)) with (p_num (ipool (set_rand r s))) in *. set (s1 := set_rand r s) in *. clearbody s1. clear s r.
  destruct (new_tower_ok _ _ _ _ _ _ _ key v n IX Hn) as (p1 & p2 & nw & -> & Hl & Hc2 & Hn2 & _ & IX2 & HN); [lia|]. cbn -[seq].
  rewrite fmap_seq_lookup by lia. cbn -[seq]. rewrite Hl. rewrite (ix_header _ _ _ _ _ _ _ IX), take_header by (unfold LEVELS, MAX_LEVEL in *; lia).
  destruct (link_tower_ok _ _ _ _ _ _ _ vs' key v n hd nw IX2 Hn Hkey Hv Hvk Hvs HN) as (p' & Ls' & Er & IX' & Hc' & Hn'); [intros; by left|done|done|].
  erewrite link_fronts_pivots; [|done|lia|intros l Hl'; by apply IX2|apply IX2|intros l Hl'; destruct (HN l Hl') as (? & ? & ? & _); done]. cbn -[seq] in Er. rewrite Er. cbn.
  eexists _, _, Ls'. split; [done|]. split; [exact IX'|]. cbn in *. lia.
Qed.

Lemma insertWhenRebalance_ok lab s hd tl Ls vp vs key v count : idx_ok lab s hd tl Ls vp vs -> p_cur (ipool s) + Z.of_nat LEVELS <= p_num (ipool s) -> 0 < key -> v ∈ vs -> vkey vp v = key ->
  exists s' lab' Ls', insertWhenRebalance coin s key v count = Ok s' /\ idx_ok lab' s' hd tl Ls' vp vs /\
    p_cur (ipool s') <= p_cur (ipool s) + Z.of_nat LEVELS /\ p_num (ipool s') = p_num (ipool s).
Proof.
  intros IX Hroom Hkey Hv Hvk. unfold insertWhenRebalance. destruct (generate_ok s) as (n & r & -> & Hn). apply (idx_ok_rand _ _ _ _ _ _ _ r) in IX.
  change (p_cur (ipool s)) with (p_cur (ipool (set_rand r s))) in *. change (p_num (ipool s)) with (p_num (ipool (set_rand r s))) in *. set (s1 := set_rand r s) in *. clearbody s1. clear s r.
  destruct (new_tower_ok _ _ _ _ _ _ _ key v n IX Hn) as (p1 & p2 & nw & -> & Hl & Hc2 & Hn2 & _ & IX2 & HN); [lia|]. cbn -[seq].
  rewrite fmap_seq_lookup by lia. cbn -[seq]. rewrite Hl. cbn -[seq]. pose proof (ix_level _ _ _ _ _ _ _ IX) as Hlev.
  pose proof (ix_head_at _ _ _ _ _ _ _ IX2 (pred (sl_level s1)) ltac:(lia)) as ->. cbn -[seq].
  destruct (pivots_ok _ _ _ _ _ _ _ IX2 key (sl_level s1) (Some (hd (pred (sl_level s1)))) []) as (u & -> & Hu); [lia|done|intros l' ->; by left|]. cbn -[seq].
  rewrite app_nil_r, (ix_header _ _ _ _ _ _ _ IX), updates_eq by (unfold LEVELS, MAX_LEVEL in *; lia). set (uf := fun i => if decide (i < sl_level s1)%nat then u i else hd i).
  destruct (link_tower_ok _ _ _ _ _ _ _ vs key v n uf nw IX2 Hn Hkey Hv Hvk ltac:(done) HN) as (p' & Ls' & Er & IX' & Hc' & Hn').
  - intros l Hl'. unfold uf. case_decide; [by apply Hu|by left].
  - unfold uf. rewrite decide_True by lia. intros Hu0 w Hw. destruct (Hu O ltac:(lia)) as [_ Hnil]. destruct (ix_first _ _ _ _ _ _ _ IX w Hw) as (a & Ha & _). by rewrite (Hnil Hu0) in Ha.
  - done.
  - cbn -[seq] in Er. rewrite Er. cbn -[seq]. rewrite lookup_app_l by (rewrite length_fmap, length_seq; lia). rewrite fmap_seq_lookup by lia. cbn -[seq].
    eexists _, _, Ls'. split; [done|]. split; [|cbn in *; lia].
    assert (u O ∈ hd O :: Ls O) as Hu0 by (apply Hu; lia). destruct (lv_lab _ _ _ _ _ _ (ix_levels _ _ _ _ _ _ _ IX2 O ltac:(unfold LEVELS; lia)) _ Hu0) as [Hr0 _].
    destruct (HN O ltac:(lia)) as [Hr1 _].
    match goal with |- context [MkSkiplist ?q _ _ _ _] => set (p5 := q) end. rewrite <- (ix_header _ _ _ _ _ _ _ IX).
    apply (idx_ok_level _ (set_ipool p5 (set_ipool p' (set_ipool p2 s1)))); [|lia]. unfold p5. eapply (idx_ok_pool _ (set_ipool p' (set_ipool p2 s1))); [exact IX'| | |done|done]; cbn in *.
    + intros i. rewrite !iget_upd. repeat (case_decide; subst; try done). all: unfold sans_covered; cbn; congruence.
    + intros i Hi. rewrite !iget_upd, !decide_False by lia. apply (ix_fresh _ _ _ _ _ _ _ IX'). done.
Qed.
End coins.
