(* ===== verification/Tandem.v ===== *)
(** The TandemIndex prototype ([src/Prototype/src/tandemIndex.cpp],
    [include/tandemIndex.h]): the value list behind the skip list. *)

From S2P Require Import Prelude ValueList Skiplist.

Local Open Scope Z_scope.

Record TandemIndex := MkTandem { mainIndex : Skiplist; valueList : ValueList }.

(** The constructor, on pools of the given sizes. *)
Definition new_Tandem (inum vnum : Z) : res TandemIndex :=
  s ← new_Skiplist inum;
  l ← new_ValueList vnum;
  h ← head_at s 0;
  let '(_, p) := linkVnodeToInode (ipool s) h (vhead l) in
  Ok (MkTandem (set_ipool p s) l).

(** The walk to the middle of the nodes an index node covers. *)
Fixpoint middle (steps : nat) (p : pool Vnode) (cur : Z) : res Z :=
  match steps with
  | O => Ok cur
  | S steps' => next ← deref (vl_getNext p cur); middle steps' p next
  end.

Section coins.
Variable coin : nat -> bool.

Definition tandem_insert (t : TandemIndex) (key value : Z) : res (bool * TandemIndex) :=
  match getNextNode (vpool (valueList t)) with
  | (None, p) => Ok (false, t)
  | (Some vnode, p) =>
      let p1 := p_set p vnode (set_vkey key value (vget p vnode)) in
      inode ← sk_lookup (mainIndex t) key;
      start ← match inode with
              | Some i => deref (p_at p1 (i_down (iget (ipool (mainIndex t)) i)))
              | None => Ok (vhead (valueList t))
              end;
      '(_, p2) ← vl_insert_from p1 start vnode;
      let l := MkValueList p2 (vhead (valueList t)) in
      match inode with
      | None => '(r, s) ← sk_insert coin (mainIndex t) key vnode; Ok (r, MkTandem s l)
      | Some i =>
          let '(rebalance, ip) := increaseCoveredNodesAndVerifyRebalance (ipool (mainIndex t)) i in
          let s := set_ipool ip (mainIndex t) in
          if rebalance then
            first ← deref (p_at p2 (i_down (iget ip i)));
            let steps := Z.to_nat (i_covered (iget ip i) / 2) in
            cur ← middle steps p2 first;
            s' ← insertWhenRebalance coin s (v_key (vget p2 cur)) cur (Z.of_nat steps + 1);
            Ok (true, MkTandem s' l)
          else Ok (true, MkTandem s l)
      end
  end.
End coins.

(** The loop of [lookup]; at the end of the list the function ends without a
    value, which the language leaves undefined. *)
Fixpoint find_key (fuel : nat) (p : pool Vnode) (cur key : Z) : res Z :=
  match fuel with
  | O => Err NoReturn
  | S fuel' =>
      if v_key (vget p cur) =? key then Ok (v_value (vget p cur))
      else if key <? v_key (vget p cur) then Ok (to_u64 (-1))
      else match vl_getNext p cur with Some next => find_key fuel' p next key | None => Err Undefined end
  end.

Definition tandem_lookup (t : TandemIndex) (key : Z) : res Z :=
  inode ← sk_lookup (mainIndex t) key;
  match inode with
  | None => Ok (to_u64 (-1))
  | Some i =>
      match p_at (vpool (valueList t)) (i_down (iget (ipool (mainIndex t)) i)) with
      | None => Err Undefined
      | Some first => find_key (pool_fuel (vpool (valueList t))) (vpool (valueList t)) first key
      end
  end.
