(* ===== verification/TandemFacts.v ===== *)
(** The TandemIndex prototype as a finite map: lookups, insertions and runs of
    insertions. *)

From S2P Require Import Prelude ValueList ValueListFacts Skiplist SkiplistFacts SkiplistInv Tandem.

Local Open Scope Z_scope.
Local Arguments vl_insert_from : simpl never.
Local Arguments with_node : simpl never.
Local Arguments sk_insert : simpl never.
Local Arguments insertWhenRebalance : simpl never.
Local Arguments p_at : simpl never.

Record tandem_parts (lab : Z -> nat) (t : TandemIndex) (hd tl : nat -> Z) (Ls : nat -> list Z) (vs : list Z) (m : gmap Z Z) : Prop := {
  tp_list : vlist_ok (vpool (valueList t)) (vhead (valueList t)) vs;
  tp_rep : vrep (vpool (valueList t)) vs m;
  tp_index : idx_ok lab (mainIndex t) hd tl Ls (vpool (valueList t)) vs;
}.

Definition tandem_ok (t : TandemIndex) (m : gmap Z Z) : Prop := exists lab hd tl Ls vs, tandem_parts lab t hd tl Ls vs m.

(** * Walks along the value list *)

Section walks.
Context (p : pool Vnode) (h : Z) (vs : list Z) (m : gmap Z Z) (VO : vlist_ok p h vs) (VR : vrep p vs m).

Lemma vs_pos i : i ∈ vs -> 0 < vkey p i.
Proof. intros Hi. rewrite <- (vl_head _ _ _ VO). by apply (vl_lt _ _ _ VO [] h vs). Qed.

Lemma vs_at i : i ∈ h :: vs -> p_at p i = Some i.
Proof. intros Hi. apply at_in. pose proof (vl_range _ _ _ VO i Hi). pose proof (vl_num _ _ _ VO). lia. Qed.

(** All keys are smaller. *)
Definition above_all (key : Z) : Prop := map_Forall (fun k _ => k < key) m.

Lemma above_all_vs key : above_all key <-> forall i, i ∈ vs -> vkey p i < key.
Proof.
  split; [intros Ha i Hi; apply (Ha _ (vval p i)); apply VR; eauto|]. intros Ha k v Hkv. apply VR in Hkv as (i & Hi & <- & _). by apply Ha.
Qed.

Lemma find_key_ok key fuel : forall l1 cur l2, h :: vs = l1 ++ cur :: l2 -> cur ∈ vs -> (length l2 < fuel)%nat -> (forall i, i ∈ l1 -> vkey p i < key) ->
  find_key fuel p cur key = match m !! key with Some v => Ok v | None => if bool_decide (above_all key) then Err Undefined else Ok (to_u64 (-1)) end.
Proof.
  induction fuel as [|fuel IH]; intros l1 cur l2 E Hcur Hf Hlt; [lia|]. cbn [find_key]. fold (vkey p cur) (vval p cur). destruct (Z.eqb_spec (vkey p cur) key) as [Heq|Hne].
  - assert (m !! key = Some (vval p cur)) as -> by (apply VR; eauto). done.
  - destruct (Z.ltb_spec key (vkey p cur)) as [Hgt|Hle].
    + assert (m !! key = None) as ->.
      { destruct (m !! key) as [v|] eqn:Hm; [|done]. apply VR in Hm as (i & Hi & Hik & _). assert (i ∈ l1 ++ cur :: l2) as Hi2 by (rewrite <- E; by right).
        apply elem_of_app in Hi2 as [Hi2%Hlt|[->|Hi2]%elem_of_cons]; [lia|done|]. pose proof (vl_lt _ _ _ VO _ _ _ _ E Hi2). lia. }
      rewrite bool_decide_false; [done|]. rewrite above_all_vs. intros Ha%(fun H => H cur Hcur). lia.
    + destruct l2 as [|b l2].
      * rewrite (vl_end _ _ _ VO _ _ E). assert (forall i, i ∈ vs -> vkey p i < key) as Hall.
        { intros i Hi. assert (i ∈ l1 ++ [cur]) as Hi2 by (rewrite <- E; by right). apply elem_of_app in Hi2 as [Hi2|Hi2]; [by apply Hlt|]. apply list_elem_of_singleton in Hi2 as ->. lia. }
        rewrite bool_decide_true by (by apply above_all_vs). destruct (m !! key) as [v|] eqn:Hm; [|done]. apply VR in Hm as (i & Hi%Hall & Hik & _). lia.
      * rewrite (vl_next _ _ _ VO _ _ _ _ E). apply (IH (l1 ++ [cur]) b l2); [by rewrite <- app_assoc| |cbn in Hf; lia|].
        -- destruct l1; injection E as -> ->; set_solver.
        -- intros i [Hi|Hi]%elem_of_app; [by apply Hlt|]. apply list_elem_of_singleton in Hi as ->. lia.
Qed.

Lemma middle_ok steps : forall l1 cur l2, h :: vs = l1 ++ cur :: l2 ->
  middle steps p cur = of_option NullDeref ((cur :: l2) !! steps).
Proof.
  induction steps as [|steps IH]; intros l1 cur l2 E; [done|]. cbn [middle]. destruct l2 as [|b l2]; [by rewrite (vl_end _ _ _ VO _ _ E)|].
  rewrite (vl_next _ _ _ VO _ _ _ _ E). cbn. apply (IH (l1 ++ [cur])). by rewrite <- app_assoc.
Qed.

Lemma vs_inj i j : i ∈ h :: vs -> j ∈ h :: vs -> vkey p i = vkey p j -> i = j.
Proof.
  intros (l1 & l2 & E)%list_elem_of_split Hj Hk. pose proof Hj as Hj2. rewrite E in Hj2. apply elem_of_app in Hj2 as [(a1 & a2 & ->)%list_elem_of_split|[->|Hj2]%elem_of_cons]; [|done|].
  - rewrite <- app_assoc in E. pose proof (vl_lt _ _ _ VO a1 j (a2 ++ i :: l2) i E ltac:(set_solver)). lia.
  - pose proof (vl_lt _ _ _ VO _ _ _ _ E Hj2). lia.
Qed.

(** The keys behind a node. *)
Lemma keys_behind l1 cur l2 : h :: vs = l1 ++ cur :: l2 -> length l2 = size (filter (fun kv => vkey p cur < kv.1) m).
Proof.
  intros E. rewrite <- (size_dom (D := gset Z)). assert (dom (filter (fun kv => vkey p cur < kv.1) m) = list_to_set (C := gset Z) (vkey p <$> l2)) as ->.
  { apply leibniz_equiv. intros k. rewrite elem_of_dom, elem_of_list_to_set, list_elem_of_fmap. split.
    - intros [v [Hm Hk]%map_lookup_filter_Some]. apply VR in Hm as (i & Hi & <- & _). exists i. split; [done|]. cbn in Hk. assert (i ∈ l1 ++ cur :: l2) as Hi2 by (rewrite <- E; by right).
      apply elem_of_app in Hi2 as [(a1 & a2 & ->)%list_elem_of_split|[->|Hi2]%elem_of_cons]; [|lia|done]. rewrite <- app_assoc in E.
      pose proof (vl_lt _ _ _ VO a1 i (a2 ++ cur :: l2) cur E ltac:(set_solver)). lia.
    - intros (i & -> & Hi). exists (vval p i). apply map_lookup_filter_Some. split; [|by apply (vl_lt _ _ _ VO _ _ _ _ E)]. apply VR. exists i.
      split; [|done]. destruct l1; injection E as -> ->; set_solver. }
  rewrite size_list_to_set; [by rewrite length_fmap|]. pose proof (vl_nodup _ _ _ VO) as Hnd. rewrite E in Hnd. apply NoDup_app in Hnd as (_ & _ & [_ Hnd]%NoDup_cons).
  apply NoDup_fmap_2_strong; [|done]. intros x y Hx Hy. apply vs_inj; rewrite E; set_solver.
Qed.
End walks.

(** * Lookup *)

(** What a lookup promises on the map [m]; behind the largest key the
    function ends without a value. *)
Definition lookup_spec (m : gmap Z Z) (key : Z) : res Z :=
  match m !! key with
  | Some v => Ok v
  | None => if bool_decide (m <> ∅ /\ above_all m key) then Err Undefined else Ok (to_u64 (-1))
  end.

Lemma tandem_lookup_map t m key : tandem_ok t m -> tandem_lookup t key = lookup_spec m key.
Proof.
  intros (lab & hd & tl & Ls & vs & [VO VR IX]). unfold tandem_lookup, lookup_spec. pose proof VR as HV. unfold vrep in HV. destruct (sk_lookup_ok _ _ _ _ _ _ _ IX key) as [[-> Hall]|(c & -> & Hc & Hk)]; cbn -[to_u64 find_key pool_fuel].
  - destruct (m !! key) as [v|] eqn:Hm. { apply HV in Hm as (i & Hi%Hall & Hik & _). lia. }
    rewrite bool_decide_false; [done|]. intros [Hne Ha]. rewrite (above_all_vs _ _ _ VR) in Ha. apply map_choose in Hne as (k & v & (i & Hi & _)%HV).
    pose proof (Hall i Hi). pose proof (Ha i Hi). lia.
  - destruct (ix_down0 _ _ _ _ _ _ _ IX c Hc) as [Hd Hdk]. rewrite (vs_at _ _ _ VO) by (by right). cbn -[to_u64 find_key pool_fuel]. assert (i_down (iget (ipool (mainIndex t)) c) ∈ vhead (valueList t) :: vs) as Hd2 by (by right).
    apply list_elem_of_split in Hd2 as (l1 & l2 & E). rewrite (find_key_ok _ _ _ _ VO VR key _ l1 _ l2 E Hd).
    + destruct (m !! key); [done|]. assert (m <> ∅) as Hne. { intros ->. assert ((∅ : gmap Z Z) !! i_min (iget (ipool (mainIndex t)) c) = Some (vval (vpool (valueList t)) (i_down (iget (ipool (mainIndex t)) c)))) as Hx by (apply HV; eauto). done. }
      by rewrite (bool_decide_ext (above_all m key) (m <> ∅ /\ above_all m key)) by tauto.
    + pose proof (vl_fuel _ _ _ VO) as Hf. rewrite E, length_app in Hf. cbn in Hf. lia.
    + intros i (a1 & a2 & ->)%list_elem_of_split. rewrite <- app_assoc in E. pose proof (vl_lt _ _ _ VO a1 i _ (i_down (iget (ipool (mainIndex t)) c)) E ltac:(set_solver)). lia.
Qed.

(** * Insertion *)

Local Arguments middle : simpl never.

(** The walk to the middle of an overfull range leaves the list: the count of
    its index node is more than twice the keys behind its first one. *)
Definition overruns (t : TandemIndex) (m' : gmap Z Z) (key : Z) : bool :=
  match sk_lookup (mainIndex t) key with
  | Ok (Some i) =>
      let n := iget (ipool (mainIndex t)) i in
      bool_decide (SEARCH_STABLITY_COEFFICIENT < i_covered n + 1) &&
      bool_decide (Z.of_nat (size (filter (fun kv => i_min n < kv.1) m')) < (i_covered n + 1) / 2)
  | _ => false
  end.

Definition room (t : TandemIndex) : Prop :=
  p_cur (vpool (valueList t)) < p_num (vpool (valueList t)) /\ p_cur (ipool (mainIndex t)) + Z.of_nat LEVELS <= p_num (ipool (mainIndex t)).

Definition uses (t t' : TandemIndex) : Prop :=
  p_cur (vpool (valueList t')) = p_cur (vpool (valueList t)) + 1 /\ p_num (vpool (valueList t')) = p_num (vpool (valueList t)) /\
  p_cur (ipool (mainIndex t')) <= p_cur (ipool (mainIndex t)) + Z.of_nat LEVELS /\ p_num (ipool (mainIndex t')) = p_num (ipool (mainIndex t)).

Section insert.
Context (coin : nat -> bool) (LT : low_towers coin) (t : TandemIndex) (m : gmap Z Z) (k v : Z) (Hfresh : m !! k = None) (Hk : 0 < k) (HR : room t).
Context (lab : Z -> nat) (hd tl : nat -> Z) (Ls : nat -> list Z) (vs : list Z) (TP : tandem_parts lab t hd tl Ls vs m).

Local Notation vp := (vpool (valueList t)).
Local Notation vh := (vhead (valueList t)).
Local Notation ip := (ipool (mainIndex t)).

(** The new value node, in place. *)
Lemma value_inserted start : start ∈ vh :: vs -> vkey vp start < k ->
  exists p2 vs', vl_insert_from (with_node vp k v) start (p_cur vp) = Ok (true, p2) /\ vlist_ok p2 vh vs' /\ vrep p2 vs' (<[k := v]> m) /\
    (forall i, i ∈ vs' <-> i = p_cur vp \/ i ∈ vs) /\ (forall i, i ∈ vs -> vkey p2 i = vkey vp i) /\ vkey p2 (p_cur vp) = k /\
    p_cur p2 = p_cur vp + 1 /\ p_num p2 = p_num vp.
Proof.
  intros Hs Hlt. destruct TP as [VO VR IX]. destruct HR as [Hroom _].
  destruct (vl_insert_from_ok _ _ _ _ VO VR k v Hroom start Hfresh Hs Hlt) as (c & p2 & vs' & Er & -> & VO2 & VR2 & Hvs & Hkeys & Hnew).
  unfold vl_insert_from. destruct (with_node_new vp k v) as [Hn _]. unfold vkey in Hn. rewrite Hn, Er. cbn. eexists _, vs'. split; [done|].
  split_and!; [done|done|done| |done|done|done]. intros i Hi. apply Hkeys. by right.
Qed.

Lemma insert_start : getNextNode vp = (Some (p_cur vp), MkPool (p_nodes vp) (p_num vp) (p_cur vp + 1)).
Proof. unfold getNextNode. rewrite (proj2 (Z.leb_gt _ _)); [done|]. apply HR. Qed.

(** Below every stored key. *)
Lemma insert_below : sk_lookup (mainIndex t) k = Ok None -> (forall i, i ∈ vs -> k < vkey vp i) ->
  exists t', tandem_insert coin t k v = Ok (true, t') /\ tandem_ok t' (<[k := v]> m) /\ uses t t'.
Proof.
  intros El Hall. unfold tandem_insert. rewrite insert_start. fold (with_node vp k v). rewrite El. cbn. pose proof (tp_list _ _ _ _ _ _ _ TP) as VO.
  destruct (value_inserted vh) as (p2 & vs' & -> & VO2 & VR2 & Hvs & Hkeys & Hnew & Hc2 & Hn2); [by left|by rewrite (vl_head _ _ _ VO)|]. cbn.
  assert (idx_ok lab (mainIndex t) hd tl Ls p2 vs) as IX2.
  { apply (idx_ok_values _ _ _ _ _ vp vs); [apply TP|intros i Hi; split; [done|by apply Hkeys]|]. intros i Hi. rewrite Hkeys by done. by apply (ix_first _ _ _ _ _ _ _ (tp_index _ _ _ _ _ _ _ TP)). }
  destruct (sk_insert_ok coin LT _ _ _ _ _ _ _ vs' k (p_cur vp) IX2) as (s' & lab' & Ls' & -> & IX' & Hc' & Hn'); [apply HR|done|apply Hvs; by left|done|intros; apply Hvs; by right| |].
  { intros i [->|Hi]%Hvs; [lia|]. rewrite Hkeys by done. pose proof (Hall i Hi). lia. }
  cbn. eexists. split; [done|]. split; [|by split_and!]. exists lab', hd, tl, Ls', vs'. by split.
Qed.

(** Into the range of an index node. *)
Lemma insert_range c : sk_lookup (mainIndex t) k = Ok (Some c) -> c ∈ Ls O -> i_min (iget ip c) <= k ->
  if overruns t (<[k := v]> m) k then tandem_insert coin t k v = Err NullDeref
  else exists t', tandem_insert coin t k v = Ok (true, t') /\ tandem_ok t' (<[k := v]> m) /\ uses t t'.
Proof.
  intros El Hc Hck. unfold overruns, tandem_insert. rewrite insert_start. fold (with_node vp k v). rewrite El. cbn. pose proof (tp_list _ _ _ _ _ _ _ TP) as VO. pose proof (tp_index _ _ _ _ _ _ _ TP) as IX.
  destruct (ix_down0 _ _ _ _ _ _ _ IX c Hc) as [Hd Hdk]. set (d := i_down (iget ip c)) in *. assert (d ∈ vh :: vs) as Hd' by (by right).
  assert (vkey vp d < k) as Hlt by (pose proof (vrep_none _ _ _ _ _ (tp_rep _ _ _ _ _ _ _ TP) Hfresh Hd); lia).
  assert (p_at (with_node vp k v) d = Some d) as -> by (apply (vs_at _ _ _ VO) in Hd'; exact Hd'). cbn.
  destruct (value_inserted d Hd' Hlt) as (p2 & vs' & -> & VO2 & VR2 & Hvs & Hkeys & Hnew & Hc2 & Hn2). cbn.
  assert (idx_ok lab (set_ipool (upd ip c (set_covered (i_covered (iget ip c) + 1))) (mainIndex t)) hd tl Ls p2 vs') as IX2.
  { apply idx_ok_pool; [|intros i; rewrite iget_upd; by case_decide; subst| |done|done].
    - apply (idx_ok_values _ _ _ _ _ vp vs); [done|intros i Hi; split; [apply Hvs; by right|by apply Hkeys]|]. intros i [->|Hi]%Hvs; [|rewrite Hkeys by done; by apply (ix_first _ _ _ _ _ _ _ IX)].
      destruct (ix_first _ _ _ _ _ _ _ IX d Hd) as (a & Ha & Hm). exists a. split; [done|]. rewrite Hnew. lia.
    - intros i Hi. rewrite iget_upd, decide_False; [by apply (ix_fresh _ _ _ _ _ _ _ IX)|]. intros ->. change (p_cur ip <= c) in Hi.
      destruct (lv_lab _ _ _ _ _ _ (ix_levels _ _ _ _ _ _ _ IX O ltac:(unfold LEVELS; lia)) c ltac:(by right)). lia. }
  set (n := iget ip c) in *. destruct (Z.ltb_spec SEARCH_STABLITY_COEFFICIENT (i_covered n + 1)) as [Hover|Hunder].
  2:{ rewrite bool_decide_false by lia. cbn. eexists. split; [done|]. split; [exists lab, hd, tl, Ls, vs'; by split|]. split_and!; cbn; [done|done|lia|done]. }
  rewrite bool_decide_true by done. cbn. assert (iget (upd ip c (set_covered (i_covered n + 1))) c = set_covered (i_covered n + 1) n) as -> by (rewrite iget_upd; by rewrite decide_True).
  change (i_down (set_covered (i_covered n + 1) n)) with d. change (i_covered (set_covered (i_covered n + 1) n)) with (i_covered n + 1).
  assert (d ∈ vs') as Hdv by (apply Hvs; by right). rewrite (vs_at _ _ _ VO2) by (by right). cbn.
  assert (d ∈ vh :: vs') as (l1 & l2 & E)%list_elem_of_split by (by right). rewrite (middle_ok _ _ _ VO2 _ _ _ _ E).
  pose proof (keys_behind _ _ _ _ VO2 VR2 _ _ _ E) as Hlen. rewrite Hkeys, Hdk in Hlen by done. rewrite <- Hlen. unfold SEARCH_STABLITY_COEFFICIENT in Hover.
  destruct ((d :: l2) !! Z.to_nat ((i_covered n + 1) / 2)) as [cur|] eqn:Ecur.
  - pose proof (lookup_lt_Some _ _ _ Ecur) as Hl. cbn in Hl. rewrite bool_decide_false by lia. cbn. apply list_elem_of_lookup_2 in Ecur.
    assert (cur ∈ vs') as Hcur by (apply elem_of_cons in Ecur as [->|Ecur]; [done|]; destruct l1; injection E as Eh ->; set_solver).
    destruct (insertWhenRebalance_ok coin LT _ _ _ _ _ _ _ (vkey p2 cur) cur (Z.of_nat (Z.to_nat ((i_covered n + 1) / 2)) + 1) IX2) as (s' & lab' & Ls' & Er & IX' & Hc' & Hn');
      [apply HR|by apply (vs_pos _ _ _ VO2)|done|done|].
    unfold vkey in Er. rewrite Er. cbn. eexists. split; [done|]. split; [exists lab', hd, tl, Ls', vs'; by split|]. by split_and!.
  - apply lookup_ge_None in Ecur. cbn in Ecur. by rewrite bool_decide_true by lia.
Qed.
End insert.

Lemma tandem_insert_map coin t m k v : low_towers coin -> tandem_ok t m -> m !! k = None -> 0 < k -> room t ->
  if overruns t (<[k := v]> m) k then tandem_insert coin t k v = Err NullDeref
  else exists t', tandem_insert coin t k v = Ok (true, t') /\ tandem_ok t' (<[k := v]> m) /\ uses t t'.
Proof.
  intros LT (lab & hd & tl & Ls & vs & TP) Hm Hk HR. destruct (sk_lookup_ok _ _ _ _ _ _ _ (tp_index _ _ _ _ _ _ _ TP) k) as [[El Hall]|(c & El & Hc & Hck)].
  - unfold overruns. rewrite El. by eapply insert_below.
  - by eapply insert_range.
Qed.
