(* ===== verification/TandemMap.v ===== *)
(** The TandemIndex prototype from its constructor: runs of insertions against
    a finite map. *)

From S2P Require Import Prelude ValueList ValueListFacts Skiplist SkiplistFacts SkiplistInv Tandem TandemFacts.

Local Open Scope Z_scope.

(** * The new index *)

(** [numNodesInPool] *)
Definition INODES : Z := 10000.

(** The constructor takes the headers from the top level down, then the tails. *)
Definition hd0 (l : nat) : Z := 15 - Z.of_nat l.
Definition tl0 (l : nat) : Z := 31 - Z.of_nat l.
Definition lab0 (i : Z) : nat := Z.to_nat (15 - i `mod` 16).

Definition index0 : Skiplist :=
  match new_Skiplist INODES with Ok s => set_ipool (linkVnodeToInode (ipool s) (hd0 0) 0).2 s | Err _ => MkSkiplist (MkPool ∅ 0 0) [] [] 0 0 end.

Lemma index0_level l : (l < LEVELS)%nat -> lev_ok lab0 (ipool index0) l (hd0 l) (tl0 l) [].
Proof.
  intros Hl. unfold LEVELS in Hl.
  assert (0 < i_min (iget (ipool index0) (tl0 l)) /\ i_min (iget (ipool index0) (hd0 l)) = 0 /\ i_max (iget (ipool index0) (hd0 l)) = 0 /\
    i_next (iget (ipool index0) (hd0 l)) = tl0 l /\ p_cur (ipool index0) = 32 /\ lab0 (hd0 l) = l /\ lab0 (tl0 l) = l) as (Htm & Hhm & Hhx & Hn & Hc & Hl1 & Hl2).
  { do 15 (destruct l as [|l]; [by vm_compute|]). lia. }
  revert Htm Hhm Hhx Hn Hc. generalize (ipool index0). intros p Htm Hhm Hhx Hn Hc. split; [apply NoDup_singleton| | |exact (conj Hhm Hhx)|intros i Hi; by apply not_elem_of_nil in Hi|exact (conj Hn I)].
  - intros i ->%list_elem_of_singleton. rewrite Hc. split; [unfold hd0; lia|exact Hl1].
  - rewrite Hc. split_and!; [unfold tl0; lia|unfold tl0; lia|exact Hl2| |exact Htm]. rewrite list_elem_of_singleton. unfold tl0, hd0. lia.
Qed.

Lemma index0_ok vp : idx_ok lab0 index0 hd0 tl0 (fun _ => []) vp [].
Proof.
  split; [by vm_compute|by vm_compute|by vm_compute; lia|by vm_compute| |apply index0_level| | | |]; [| |intros a Ha; destruct (not_elem_of_nil _ Ha)|intros l a _ Ha; destruct (not_elem_of_nil _ Ha)|intros v Hv; destruct (not_elem_of_nil _ Hv)].
  - assert (map_Forall (fun i _ => i < 32) (p_nodes (ipool index0))) as Hdom by (apply (bool_decide_unpack _); by vm_compute).
    change (p_cur (ipool index0)) with 32. intros i Hi. unfold iget, p_get. destruct (p_nodes (ipool index0) !! i) as [n|] eqn:E; [|done]. specialize (Hdom i n E). cbn in Hdom. lia.
  - intros l Hl. unfold LEVELS in Hl. do 14 (destruct l as [|l]; [by vm_compute|]). lia.
Qed.

Definition tandem0 (vnum : Z) : TandemIndex := MkTandem index0 (empty_list vnum).

Lemma new_Tandem_eq vnum : 1 <= vnum -> new_Tandem INODES vnum = Ok (tandem0 vnum).
Proof.
  intros Hv. unfold new_Tandem. rewrite (proj1 (new_ValueList_ok vnum Hv)).
  assert (exists s, new_Skiplist INODES = Ok s /\ head_at s 0 = Ok (hd0 0) /\ set_ipool (linkVnodeToInode (ipool s) (hd0 0) 0).2 s = index0) as (s & Es & Hh & Ei).
  { unfold index0. destruct (new_Skiplist INODES) as [s|e] eqn:E; [|by vm_compute in E]. exists s. split_and!; [done| |done]. clear -E. revert E. by vm_compute; intros [= <-]. }
  rewrite Es. cbn. rewrite Hh. cbn. destruct (linkVnodeToInode (ipool s) (hd0 0) 0) as [b q] eqn:El. cbn in Ei. by rewrite Ei.
Qed.

Lemma tandem0_ok vnum : 1 <= vnum -> tandem_ok (tandem0 vnum) ∅.
Proof.
  intros Hv. destruct (new_ValueList_ok vnum Hv) as [_ [(vs & VO & VR)]]. exists lab0, hd0, tl0, (fun _ => []), vs.
  assert (vs = []) as ->; [|split; [done|done|apply index0_ok]]. destruct vs as [|i vs]; [done|].
  assert ((∅ : gmap Z Z) !! vkey (vpool (empty_list vnum)) i = Some (vval (vpool (empty_list vnum)) i)) as Hx; [|done]. apply VR. exists i. split; [by left|done].
Qed.

(** * Runs of insertions *)

Fixpoint inserts (coin : nat -> bool) (t : TandemIndex) (kvs : list (Z * Z)) : res TandemIndex :=
  match kvs with
  | [] => Ok t
  | (k, v) :: kvs' => '(_, t') ← tandem_insert coin t k v; inserts coin t' kvs'
  end.

(** Room for [n] insertions. *)
Definition rooms (n : nat) (t : TandemIndex) : Prop :=
  p_cur (vpool (valueList t)) + Z.of_nat n <= p_num (vpool (valueList t)) /\ p_cur (ipool (mainIndex t)) + Z.of_nat (n * LEVELS) <= p_num (ipool (mainIndex t)).

(** Some insertion overruns. *)
Fixpoint overrun (coin : nat -> bool) (t : TandemIndex) (m : gmap Z Z) (kvs : list (Z * Z)) : Prop :=
  match kvs with
  | [] => False
  | (k, v) :: kvs' => overruns t (<[k := v]> m) k = true \/ exists t', tandem_insert coin t k v = Ok (true, t') /\ overrun coin t' (<[k := v]> m) kvs'
  end.

Lemma inserts_map coin : low_towers coin -> forall kvs t m, tandem_ok t m -> rooms (length kvs) t -> NoDup kvs.*1 -> (forall k, k ∈ kvs.*1 -> 0 < k /\ m !! k = None) ->
  match inserts coin t kvs with
  | Ok t' => tandem_ok t' (list_to_map kvs ∪ m)
  | Err e => e = NullDeref /\ overrun coin t m kvs
  end.
Proof.
  intros LT. induction kvs as [|[k v] kvs IH]; intros t m TO HR Hnd Hk; cbn [inserts]; [by change (list_to_map []) with (∅ : gmap Z Z); rewrite map_empty_union|].
  cbn in Hnd. apply NoDup_cons in Hnd as [Hkn Hnd]. destruct (Hk k ltac:(by left)) as [Hk0 Hkm]. destruct HR as [HR1 HR2]. cbn [length] in HR1, HR2. unfold LEVELS in HR2.
  pose proof (tandem_insert_map coin t m k v LT TO Hkm Hk0 ltac:(split; unfold LEVELS; lia)) as Hi. destruct (overruns _ _ _) eqn:Eo; [rewrite Hi; split; [done|]; left; done|].
  destruct Hi as (t' & Er & TO' & Hu1 & Hu2 & Hu3 & Hu4). unfold LEVELS in Hu3. rewrite Er. cbn. specialize (IH t' (<[k := v]> m) TO').
  destruct (inserts coin t' kvs) as [t''|e].
  - assert (<[k := v]> (list_to_map kvs) ∪ m = list_to_map kvs ∪ <[k := v]> m) as ->; [|apply IH]; [| |done|].
    + rewrite <- insert_union_l, insert_union_r; [done|]. by apply not_elem_of_list_to_map_1.
    + split; unfold LEVELS; lia.
    + intros k' Hk'. destruct (Hk k' ltac:(by right)). split; [done|]. rewrite lookup_insert_ne; [done|]. by intros ->.
  - destruct IH as [-> Ho]; [|done| |split; [done|right; eauto]]; [split; unfold LEVELS; lia|]. intros k' Hk'. destruct (Hk k' ltac:(by right)). split; [done|]. rewrite lookup_insert_ne; [done|]. by intros ->.
Qed.

(** * The index as a map *)

(** A lookup in an index that holds the map [m]: the value of a stored key, [2^64 - 1] for a key that is not stored when the map is empty or has a larger key, and an end without a value for a key above every stored one. *)
Theorem tandem_lookup_correct t m key : tandem_ok t m -> tandem_lookup t key = lookup_spec m key.
Proof. apply tandem_lookup_map. Qed.

(** C39. The insertion of a new positive key, with room in both pools and towers of at most 15 levels, dereferences the null pointer exactly when the count of the index node it ends at has passed its limit and half of it is more than the keys behind the node's first key; otherwise it returns true and the index holds the map with the key added. *)
Theorem tandem_insert_correct coin t m k v : low_towers coin -> tandem_ok t m -> m !! k = None -> 0 < k -> room t ->
  if overruns t (<[k := v]> m) k then tandem_insert coin t k v = Err NullDeref
  else exists t', tandem_insert coin t k v = Ok (true, t') /\ tandem_ok t' (<[k := v]> m) /\ uses t t'.
Proof. apply tandem_insert_map. Qed.

(** C40. A run of insertions of different positive keys into a new index, within the pools (at most 664 keys and no more than the value pool holds) and with towers of at most 15 levels (with two of 16 levels a stored key is lost, [top_level_loses]): every lookup afterwards answers for the map of the pairs, unless some insertion of the run walks off the value list in its rebalance. *)
Theorem tandem_run_correct coin vnum kvs : low_towers coin -> NoDup kvs.*1 -> (forall k, k ∈ kvs.*1 -> 0 < k) ->
  1 + Z.of_nat (length kvs) <= vnum -> 32 + Z.of_nat (length kvs * LEVELS) <= INODES ->
  exists t0, new_Tandem INODES vnum = Ok t0 /\
    match inserts coin t0 kvs with
    | Ok t => forall key, tandem_lookup t key = lookup_spec (list_to_map kvs) key
    | Err e => e = NullDeref /\ overrun coin t0 ∅ kvs
    end.
Proof.
  intros LT Hnd Hpos Hv Hi. exists (tandem0 vnum). split; [apply new_Tandem_eq; lia|].
  assert (rooms (length kvs) (tandem0 vnum)) as HR by (split; [cbn; lia|exact Hi]).
  pose proof (inserts_map coin LT kvs (tandem0 vnum) ∅ (tandem0_ok vnum ltac:(lia)) HR Hnd ltac:(intros k Hk; split; [by apply Hpos|done])) as H.
  destruct (inserts coin (tandem0 vnum) kvs) as [t|e]; [|done]. rewrite map_union_empty in H. intros key. by apply tandem_lookup_map.
Qed.

(** * The value list as a map *)

(** The value list holds a map: an insertion of a new key with room in the pool adds it, a lookup answers with the value as an [int] or -1, an update changes the value of a stored key and nothing else, and it dereferences the null pointer when the key is above every stored one. *)
Theorem valuelist_correct l m k v : vlist_rep l m -> 0 < k ->
  vl_lookup l k = Ok (match m !! k with Some w => to_i32 w | None => -1 end) /\
  (m !! k = None -> p_cur (vpool l) < p_num (vpool l) -> exists l', vl_insert l k v = Ok (true, l') /\ vlist_rep l' (<[k := v]> m)) /\
  match vl_update l k v with
  | Ok (r, l') => r = bool_decide (is_Some (m !! k)) /\ vlist_rep l' (if r then <[k := v]> m else m) /\ exists k' v', m !! k' = Some v' /\ k <= k'
  | Err e => e = NullDeref /\ m !! k = None /\ forall k' v', m !! k' = Some v' -> k' < k
  end.
Proof. intros VR Hk. split_and!; [by apply vl_lookup_map|intros; by apply vl_insert_map|by apply vl_update_map]. Qed.
