(* ===== verification/TandemExamples.v ===== *)
(** The TandemIndex prototype on concrete inputs: what the theorems say there,
    and the inputs on which the index loses keys or follows a null pointer. *)

From S2P Require Import Prelude ValueList ValueListFacts Skiplist SkiplistFacts SkiplistInv Tandem TandemFacts TandemMap.

Local Open Scope Z_scope.

(** The coins for towers of the given heights; low towers afterwards. *)
Definition coins (towers : list nat) (pos : nat) : bool := default false (concat ((fun n => replicate (pred n) true ++ [false]) <$> towers) !! pos).

Lemma flat_towers : low_towers (fun _ => false).
Proof. intros pos. cbn. unfold LEVELS. lia. Qed.

Definition pairs (ks : list Z) : list (Z * Z) := (fun k => (k, 10 * k)) <$> ks.

(** A new index after a run. *)
Definition run (coin : nat -> bool) (vnum : Z) (kvs : list (Z * Z)) : res TandemIndex := t0 ← new_Tandem INODES vnum; inserts coin t0 kvs.

Definition run_lookup (coin : nat -> bool) (vnum : Z) (kvs : list (Z * Z)) (key : Z) : res Z := t ← run coin vnum kvs; tandem_lookup t key.

Definition is_ok {A} (r : res A) : bool := match r with Ok _ => true | Err _ => false end.

Lemma run_ok coin vnum kvs t0 : new_Tandem INODES vnum = Ok t0 -> is_ok (run coin vnum kvs) = true -> exists t, inserts coin t0 kvs = Ok t.
Proof. unfold run. intros ->. cbn. destruct (inserts coin t0 kvs) as [t|]; [by exists t|done]. Qed.

(** Twenty keys, a few ranges. *)
Definition keys20 : list Z := [50; 40; 60; 70; 10; 20; 30; 80; 90; 100; 55; 65; 75; 85; 95; 51; 52; 53; 54; 56].

Lemma keys20_pos k : k ∈ (pairs keys20).*1 -> 0 < k.
Proof. assert (Forall (fun k => 0 < k) (pairs keys20).*1) as HF by (repeat constructor). by apply (proj1 (Forall_forall _ _) HF). Qed.

Lemma tandem_run_correct_witness : exists t0 t, new_Tandem INODES 100 = Ok t0 /\ inserts (fun _ => false) t0 (pairs keys20) = Ok t /\
  tandem_lookup t 85 = Ok 850 /\ tandem_lookup t 57 = Ok (2 ^ 64 - 1) /\ tandem_lookup t 101 = Err Undefined.
Proof.
  destruct (tandem_run_correct (fun _ => false) 100 (pairs keys20) flat_towers) as (t0 & E0 & Hr).
  - apply (bool_decide_unpack _). by vm_compute.
  - apply keys20_pos.
  - by vm_compute.
  - by vm_compute.
  - exists t0. assert (exists t, inserts (fun _ => false) t0 (pairs keys20) = Ok t) as [t Et].
    { apply (run_ok _ _ _ _ E0). vm_compute. reflexivity. }
    rewrite Et in Hr. exists t. split; [exact E0|]. split; [exact Et|]. rewrite !Hr. split_and!; vm_compute; reflexivity.
Defined.

Lemma tandem_lookup_correct_witness : tandem_lookup (tandem0 100) 7 = Ok (2 ^ 64 - 1).
Proof. rewrite (tandem_lookup_correct (tandem0 100) ∅ 7 (tandem0_ok 100 ltac:(lia))). reflexivity. Defined.

Lemma tandem_insert_correct_witness : exists t', tandem_insert (fun _ => false) (tandem0 100) 7 70 = Ok (true, t') /\ tandem_ok t' {[7 := 70]}.
Proof.
  pose proof (tandem_insert_correct (fun _ => false) (tandem0 100) ∅ 7 70 flat_towers (tandem0_ok 100 ltac:(lia)) eq_refl ltac:(lia)) as H.
  specialize (H ltac:(split; by vm_compute)). assert (overruns (tandem0 100) (<[7 := 70]> ∅) 7 = false) as E by (vm_compute; reflexivity). rewrite E in H.
  destruct H as (t' & Ht & Hok & _). exists t'. split; [exact Ht|exact Hok].
Defined.

Lemma valuelist_correct_witness : vl_lookup (empty_list 10) 5 = Ok (-1) /\ exists l, vl_insert (empty_list 10) 5 50 = Ok (true, l) /\ vlist_rep l {[5 := 50]}.
Proof.
  destruct (valuelist_correct (empty_list 10) ∅ 5 50 (proj2 (new_ValueList_ok 10 ltac:(lia))) ltac:(lia)) as (Hl & Hi & _).
  split; [exact Hl|]. apply Hi; [reflexivity|by vm_compute].
Defined.

(** * Where the prototype goes wrong *)

(** The rebalance of an index node whose count has outgrown its range walks
    off the value list: 87 insertions, three towers of two levels. *)
Definition overrun_keys : list Z :=
  [1000; 1100; 1200; 1300; 1400; 5000; 5010; 5020; 5030; 5040; 5050] ++ (Z.of_nat <$> seq 4000 9) ++ (Z.of_nat <$> seq 1001 53) ++ [500] ++ (Z.of_nat <$> seq 6000 12) ++ [4500].

Example rebalance_overrun : run (coins ([1; 2; 2]%nat ++ replicate 53 1%nat ++ [2%nat])) 200 (pairs overrun_keys) = Err NullDeref.
Proof. vm_compute. reflexivity. Qed.

(** The tail of the top level keeps the keys 0, so that a node before it looks
    like a header to the next insertion: with two towers of 16 levels the
    first keys are lost. *)
Example top_level_loses :
  run_lookup (coins [1; 16; 16]%nat) 100 (pairs (Z.of_nat <$> seq 1 16)) 1 = Ok 10 /\
  run_lookup (coins [1; 16; 16]%nat) 100 (pairs (Z.of_nat <$> seq 1 17)) 1 = Ok (2 ^ 64 - 1).
Proof. by vm_compute. Qed.

(** [remove] leaves the node in the list with the largest key, and the keys
    behind it are not found any more. *)
Definition list3 : res ValueList := l ← new_ValueList 10; '(_, l) ← vl_insert l 5 50; '(_, l) ← vl_insert l 9 90; '(_, l) ← vl_insert l 7 70; Ok l.

Example remove_hides : (l ← list3; vl_lookup l 9) = Ok 90 /\ ('(_, l) ← (l ← list3; vl_remove l 7); vl_lookup l 9) = Ok (-1).
Proof. by vm_compute. Qed.

(** A key that is inserted again: the new value is found when the key is not
    the first of its range, the old one when it is. *)
Example insert_again :
  run_lookup (fun _ => false) 100 [(5, 1); (7, 2); (7, 3)] 7 = Ok 3 /\ run_lookup (fun _ => false) 100 [(5, 1); (7, 2); (5, 3)] 5 = Ok 1.
Proof. by vm_compute. Qed.

(** The first rounds of [test_tandem_index.cpp], with coins from a linear
    congruential generator. *)
Fixpoint test_loop (coin : nat -> bool) (n : nat) (i : Z) (t : TandemIndex) : res bool :=
  match n with
  | O => Ok true
  | S n' =>
      '(_, t') ← tandem_insert coin t i i;
      r ← tandem_lookup t' i;
      r1 ← tandem_lookup t' 1;
      if (r =? i) && (r1 =? 1) then test_loop coin n' (i + 1) t' else Ok false
  end.

Definition lcg (pos : nat) : bool := Z.testbit (Z.iter (Z.of_nat pos) (fun x => (1103515245 * x + 12345) `mod` 2 ^ 31) 42) 16.

Example test_program : (t0 ← new_Tandem INODES 200; test_loop lcg 99 1 t0) = Ok true.
Proof. vm_compute. reflexivity. Qed.
